(* ===== verification/_CoqProject ===== *)
-Q . S2P
Prelude.v
Status.v
Step.v
Exec.v
Node.v
Graph.v
Plan.v
PlanWf.v
Kahn.v
PlanBuild.v
RetryPlan.v
Runner.v
RunnerLoop.v
RunnerReady.v
RunnerInv.v
RunnerSteps.v
RunnerOrder.v
RunnerLive.v
RunnerBounds.v
RunnerStatus.v
RunnerExamples.v
GoStrings.v
GoDate.v
Schedule.v
RunStatus.v
SchedulerData.v
Catchup.v
ScheduleState.v
TickPlanner.v
TickPlannerLaws.v
PlannerSafety.v
PlannerTime.v
PlannerCatchup.v
PlannerExamples.v
FileSys.v
DirLock.v
DirLockLaws.v
QueueName.v
QueueFile.v
QueueStore.v
QueueRep.v
QueueIndexLaws.v
QueueRefine.v
QueueExamples.v
RunFiles.v
RunStore.v
RunLife.v
RunStoreLaws.v
RunCas.v
RunLifeLaws.v
RunExamples.v
ProcStore.v
ProcLaws.v
Prog.v
Backoff.v
Distributed.v
QueueProc.v
QueueProcLaws.v
QueuePass.v
Zombie.v
RetryScan.v
Transform.v
CatchupEnqueue.v
DistRepair.v
DispatchStore.v
DispatchLaws.v
Coordinator.v
CoordHandler.v
CoordDispatch.v
CoordLease.v
CoordReportLaws.v
CoordDetectLaws.v
CoordDispatchLaws.v
CoordLeaseLaws.v
LogStream.v
LogStreamLaws.v
AuthData.v
AuthStore.v
AuthService.v
ServiceExamples.v
