(* ===== verification/Prelude.v ===== *)
(** * Dagu: a verification development of the workflow engine

    Dagu runs workflows (DAGs of steps) that are described in YAML, started by a
    scheduler, by the queue or by hand, and executed by an agent process.  The
    parts of the program and what models them:

    - Vocabulary (src/internal/core): [Status] (status.go), [Step] (step.go,
      condition.go, retry.go, parallel.go), [Exec] (exec/messages.go,
      exec/pushback.go), [Schedule] (schedule.go, overlap_policy.go).
    - One execution of a DAG (src/internal/runtime): [Node] (data.go, node.go,
      cmn/stringutil/kv.go), [Plan] (plan.go), [Runner] (the operations of
      runner.go) and [RunnerLoop] (its event loop, goroutines and signals as a
      transition system).  The loop takes nodes from a ready channel, starts a
      goroutine per node while fewer than the limit run, and on each completion
      asks [isReady] for the dependants.
    - The scheduler (src/internal/service/scheduler): [SchedulerData]
      (schedule_buffer.go, schedule.go, suspension.go), [Catchup] (catchup.go,
      catchup_runid.go), [ScheduleState] (watermark.go, schedule_state.go) and
      [TickPlanner] (tick_planner.go, the tick of scheduler.go).  Each minute the
      planner decides which runs to start, stop and restart, from the schedules,
      the durable watermarks and what its collaborators answer.
    - The queue (src/internal/persis/filequeue) on directory locks
      (src/internal/cmn/dirlock): [FileSys] (files, clock, failing calls),
      [DirLock] (dirlock.go), [QueueName] and [QueueFile] (queuefile.go, job.go,
      queue.go), [QueueStore] (index.go, store.go).
    - The history of runs (src/internal/persis/filedagrun): [RunStatus] (the data of
      core/exec and core/dag.go), [RunFiles] (attempt.go, writer.go,
      cmn/fileutil/cache.go) and [RunStore] (dagrun.go, dataroot.go, store.go).
      [RunLife] has the operations that work on runs and queue together
      (core/exec: enqueue_retry.go, failed_auto_retry_cancel.go, queue_abort.go,
      queued_status.go; runtime/stale_run.go).
    - Processes (src/internal/persis/fileproc, core/exec/proc.go): [ProcStore] (names and
      contents of heartbeat files, queries, acquiring, heartbeats).
    - The services of the scheduler work on stores that others use at the same time.
      [Prog] is a program that calls an environment, with interleaved threads;
      [Backoff] (cmn/backoff), [QueueProc] (queue_processor.go), [Zombie]
      (zombie_detector.go), [RetryScan] (retry_scanner.go), [CatchupEnqueue]
      (enqueue.go), [Distributed] (core/exec/distributed.go), [DistRepair]
      (runtime/distributed_stale_run.go) and [DispatchStore]
      (persis/filedistributed/dispatch_task_store.go) are such programs.
      [Transform] (runtime/transform) builds the statuses they store.
    - The coordinator of distributed runs (service/coordinator): [Coordinator] (data,
      calls and helpers of handler.go), [CoordHandler] (status reports),
      [CoordDispatch] (dispatching, polling and claims) and [CoordLease] (heartbeats,
      cancellation and the detector of lost runs); [LogStream] streams logs
      (runtime/remote/log_streamer.go, service/coordinator/log_handler.go).
    - Users, API keys and webhooks: [AuthData] (src/internal/auth, cmn/stringutil/hash.go,
      cmn/crypto/aes.go), [AuthStore] (persis/fileuser, fileapikey and
      filewebhook on cmn/fileutil/cache.go) and [AuthService] (service/auth: logins,
      sessions, keys, webhooks and their signatures).  The service changes the objects
      that the caches of the stores share, so objects have addresses there.

    [Prelude], [GoStrings] and [GoDate] hold what is shared: the error sum and its
    notation, maps and lists, 64-bit wrap-around, Go's string, time and calendar
    functions.  [Graph] has the facts on finite relations.

    ** How the code is translated

    A Go struct is a record with its fields, a pointer to a node is the node's
    identifier in the store of the plan ([p_nodeByID]), and a method that changes
    its receiver returns the new one.  A method that holds a mutex is one atomic
    step.  Errors are values of a sum.  The runner is an inductive step relation
    whose steps are the segments between two points where another goroutine may
    run; the sleep before a retry is such a point.  The operations of a directory lock
    are given as a whole and as their system calls, which [DirLockLaws] interleaves with
    those of other processes.  The planner and the stores are written in two small state monads: the
    planner's has traces and calls whose answers may differ each time, that of
    the stores has errors and failing system calls.  Time is an integer number of
    nanoseconds, durations and revisions wrap at 64 bits where the code lets
    them.

    Code outside the repository is a parameter: [CronParser] (robfig/cron, with
    its contract [cron_ok_on]), [Digest] (SHA-256), [PlannerEnv] (the functions
    of [TickPlannerConfig]), [LogFiles] (the log scanned by continue-on), [SignalTable] (signal names), [OS]
    (system calls, clock, random tokens). [RunEnv] has the sizes of status lines, the
    evictions of the cache and which failed writes leave bytes, and [TimeText]
    the RFC 3339 text of times.  [Float64] and [Float64Laws] have the floating-point
    operations of the retry policies, [ErrorText] and
    [ErrorMessage] the texts of errors.  An environment
    of [Prog] answers every call of a service: the theorems hold for all of them
    unless a law is named.  Authentication has [Bcrypt], [Jwt], [Mac] (HMAC), [Random]
    (bytes and identifiers), [Gcm] (AES-GCM), [Sizes] (of JSON files) and
    [StoreEnv] (caches and the order of maps); the laws used are that bcrypt accepts what
    it hashed, that as many random bytes come back as were asked for, that a signed token
    parses back until it expires, that what was sealed opens, and that ranging over a map
    meets each key once.  The witnesses
    instantiate each of them.

    ** What the theorems show

    - Plans: [PlanWf], [Kahn] and [PlanBuild] show that a built plan is well
      formed, acyclic and has the declared dependencies, and that cycle detection
      is exact; [RetryPlan] that a retry clears exactly what it should.
    - Runs: [RunnerReady] characterises readiness; [RunnerInv], [RunnerSteps] and
      [RunnerOrder] prove by rule induction the structural invariant, the
      concurrency limit and that a node runs after its dependencies (those that
      cannot execute a second time); [RunnerLive] that without panics, signals and
      cancellation, with a limit that is not negative, the loop finishes its work and
      reports no false deadlock; [RunnerBounds] bounds retries and repeats; [RunnerReady] and
      [RunnerStatus] say what the reported status means.
    - Scheduler: [TickPlannerLaws] and [PlannerSafety] prove the invariant of the
      planner, that planned runs are justified, and that a one-off schedule runs
      once; [PlannerTime] relates due times to the cron contract and proves that
      a round returns; [PlannerCatchup] follows a catch-up item.
    - Queue: [DirLockLaws] proves mutual exclusion of interleaved instances as long as
      none judges the lock stale, and that fence tokens tell holders apart otherwise;
      [QueueRep], [QueueIndexLaws] and [QueueRefine] prove that the store, in the hands
      of one process whose calls succeed, implements a two-level priority queue.
    - Runs on disk: [RunStoreLaws] and [RunCas] prove that compare-and-swap reads
      and writes what it should and keeps the status cache coherent, when the status
      file is whole and no call fails;
      [RunLifeLaws] that a retry keeps the status and the queue in step under any
      failure of the queue, that it reaches the queue, and what a repair leaves.
    - Processes: [ProcLaws] proves what the queries answer, that a
      process that beats is alive, and that only stale files are removed.
    - Services, in every environment: [QueueProcLaws] and [QueuePass] bound and justify
      launches and removals of a queue pass; [Zombie], [DistRepair],
      [RetryScan] and [CatchupEnqueue] say when runs are repaired, retried and
      caught up; [DispatchLaws] that claims of tasks are exclusive; [Backoff] that
      retries end in time; [Transform] what a saved node keeps.
    - The coordinator, in every environment: [CoordReportLaws] proves that reports do
      not reopen runs, [CoordDispatchLaws] that tasks leave once and with an attempt
      and that claims end in leases, [CoordLeaseLaws] what heartbeats may give back and
      that restoring undoes a failure, [CoordDetectLaws] when runs are given up;
      [LogStreamLaws] that logs arrive, in part or in whole, and where.
    - Authentication: [AuthStore] proves that the three file stores implement maps with
      unshared names (and identities), caches and failing calls included; [AuthService]
      who can log in, which keys, tokens and signed requests are accepted, that what was
      issued is accepted later, and which states of webhooks, keys and users can be
      stored; [AuthData] which accesses to workspaces are valid and what they give.
    - The files whose names end in Examples hold the witnesses and the concrete runs
      behind the findings.

    ** Fuel

    [kahn_loop] runs once per node ([Kahn] shows that is enough) and the layered
    traversal [setupRetry_loop] once per node.  [missed_loop] and [prev_loop] get
    the minutes of their window plus one: a cron schedule fires at most once a
    minute.  [lock_ticks] counts the retries of [Lock] before its context is
    done, an argument.  [retry_loop] gets one round more than the retry limit of its
    policy ([retry_loop_fuel]).  [send_chunks] gets the number of bytes, and three turns of
    [bufio_loop] are always enough ([bufio_loop_ends]); [poll_loop] counts the turns of a
    poll, an argument.  [base58_digits] gets two digits for each byte ([base58_digits_value]
    needs no more).  The other recursions are structural.

    ** Not modelled

    Step executors, containers and remote services; the agent's process
    handling, sockets and mail; YAML decoding and the building of DAGs; variable
    expansion; the web server, its API and the browser client; the workers of
    the coordinator, its client and the gRPC transport; Git synchronisation; the JSON of
    files; OIDC logins and the middleware of the web server.  These are input and output, generated code or parsing whose
    results enter the model as arguments.  Of the modelled files, logging,
    metrics, Windows-only retries, file watching and the start and stop of
    goroutines are left out.  White space and letter case are those of ASCII. *)

From stdpp Require Import gmap strings list sorting.
From Stdlib Require Import ZArith Lia Ascii.

(** ** Time

    Go's [time.Time] is an instant: nanoseconds since the zero instant
    (January 1, year 1, UTC), so [time.Time{}] is [0].  A [time.Duration] is
    a signed 64-bit number of nanoseconds. *)
Abbreviation Time := Z (only parsing).
Abbreviation Duration := Z (only parsing).

Declare Scope time_scope.
Delimit Scope time_scope with time.

Definition IsZero (t : Time) : bool := (t =? 0)%Z.
Definition Before (t u : Time) : bool := (t <? u)%Z.
Definition After (t u : Time) : bool := (u <? t)%Z.
Definition Equal (t u : Time) : bool := (t =? u)%Z.
Definition AddD (t : Time) (d : Duration) : Time := (t + d)%Z.

Notation "t '<t' u" := (Before t u) (at level 70) : time_scope.
Notation "t '>t' u" := (After t u) (at level 70) : time_scope.
Notation "t '=t' u" := (Equal t u) (at level 70) : time_scope.

(** The int64 range of a [time.Duration]. *)
Definition min_int64 : Z := (- 2 ^ 63)%Z.
Definition max_int64 : Z := (2 ^ 63 - 1)%Z.

(** Two's complement wrap-around of a 64-bit operation. *)
Definition wrap64 (z : Z) : Z := ((z + 2 ^ 63) mod 2 ^ 64 - 2 ^ 63)%Z.

Lemma wrap64_id z : (min_int64 <= z <= max_int64)%Z → wrap64 z = z.
Proof.
  unfold wrap64, min_int64, max_int64. intros H.
  rewrite Z.mod_small; lia.
Qed.

(** [Time.Sub] saturates at the bounds of [time.Duration]. *)
Definition Sub (t u : Time) : Duration :=
  Z.max min_int64 (Z.min max_int64 (t - u))%Z.

(** [Time.Truncate] rounds down to a multiple of [d] since the zero time;
    a non-positive [d] leaves the instant alone. *)
Definition Truncate (t : Time) (d : Duration) : Time :=
  if (d <=? 0)%Z then t else (t - t mod d)%Z.

Definition Nanosecond : Duration := 1%Z.
Definition Millisecond : Duration := 1000000%Z.
Definition Second : Duration := 1000000000%Z.
Definition Minute : Duration := 60000000000%Z.
Definition Hour : Duration := 3600000000000%Z.

(** ** Tactics *)

(** Split every [match]/[if] of the goal or of the hypotheses. *)
Ltac split_match :=
  repeat (case_match; simplify_eq/=; try done).

(** Turn boolean comparisons into propositions. *)
Ltac breflect :=
  repeat match goal with
  | H : (_ <? _)%Z = true |- _ => apply Z.ltb_lt in H
  | H : (_ <? _)%Z = false |- _ => apply Z.ltb_ge in H
  | H : (_ <=? _)%Z = true |- _ => apply Z.leb_le in H
  | H : (_ <=? _)%Z = false |- _ => apply Z.leb_gt in H
  | H : (_ =? _)%Z = true |- _ => apply Z.eqb_eq in H
  | H : (_ =? _)%Z = false |- _ => apply Z.eqb_neq in H
  | H : _ && _ = true |- _ => apply andb_true_iff in H as [? ?]
  | H : _ || _ = false |- _ => apply orb_false_iff in H as [? ?]
  | H : negb _ = true |- _ => apply negb_true_iff in H
  | H : negb _ = false |- _ => apply negb_false_iff in H
  end.

Create HintDb dagu.

#[global] Arguments Z.ltb : simpl never.
#[global] Arguments Z.leb : simpl never.
#[global] Arguments Z.eqb : simpl never.
#[global] Arguments Z.modulo : simpl never.

(** ** Errors as values

    A fallible Go function returns [inl err] or [inr v]; [let?] is the
    "if err != nil { return err }" of the source. *)
Declare Scope err_scope.
Delimit Scope err_scope with err.

Notation "'let?' x := e 'in' k" :=
  (match e with inl er => inl er | inr x => k end)
  (at level 10, x binder, e at level 100, k at level 200) : err_scope.

(** Left fold with early exit on the first error. *)
Fixpoint foldE {E A S : Type} (f : S → A → E + S) (s : S) (l : list A) : E + S :=
  match l with
  | [] => inr s
  | x :: l' => match f s x with inl e => inl e | inr s' => foldE f s' l' end
  end.

Lemma foldE_ind {E A S} (f : S → A → E + S) (P : S → Prop) l s s' :
  (∀ s x s', x ∈ l → P s → f s x = inr s' → P s') →
  P s → foldE f s l = inr s' → P s'.
Proof.
  revert s. induction l as [|x l IH]; intros s Hstep HP; simpl; [naive_solver|].
  destruct (f s x) as [e|s1] eqn:E1; [done|].
  apply IH.
  - intros t y t' Hy. apply Hstep. by right.
  - eapply Hstep; [by left|done|done].
Qed.

(** ** Strings

    Go strings are byte strings.  [strings.Cut] around a one-byte separator:
    the part before the first separator, the part after it, and whether the
    separator occurs. *)
Fixpoint Cut (sep : Ascii.ascii) (s : string) : string * string * bool :=
  match s with
  | EmptyString => (EmptyString, EmptyString, false)
  | String c s' =>
      if Ascii.eqb c sep then (EmptyString, s', true)
      else let '(k, v, found) := Cut sep s' in (String c k, v, found)
  end.

(** Whether a byte occurs in a string. *)
Fixpoint contains_char (c : Ascii.ascii) (s : string) : bool :=
  match s with
  | EmptyString => false
  | String d s' => Ascii.eqb d c || contains_char c s'
  end.

Definition eq_char : Ascii.ascii := "="%char.

(** Cutting "key" ++ sep ++ "value" gives the key and the value back when the
    separator does not occur in the key. *)
Lemma Cut_app sep k v :
  contains_char sep k = false → Cut sep (k ++ String sep v) = (k, v, true).
Proof.
  induction k as [|c k IH]; simpl; intros H.
  - by rewrite Ascii.eqb_refl.
  - apply orb_false_iff in H as [Hc Hk]. rewrite Hc. by rewrite (IH Hk).
Qed.

Lemma Cut_notfound sep s : contains_char sep s = false → Cut sep s = (s, EmptyString, false).
Proof.
  induction s as [|c s IH]; simpl; [done|].
  intros [Hc Hs]%orb_false_iff. by rewrite Hc, (IH Hs).
Qed.

Lemma contains_char_app c s t :
  contains_char c (s ++ t) = contains_char c s || contains_char c t.
Proof. induction s as [|d s IH]; simpl; [done|]. by rewrite IH, orb_assoc. Qed.

(** ** Sorted lists *)
Lemma StronglySorted_lt (l : list Z) : StronglySorted Z.le l → NoDup l → StronglySorted Z.lt l.
Proof.
  induction 1 as [|x l Hs IH Hx]; intros Hn; [constructor|].
  apply NoDup_cons in Hn as [Hni Hn]. constructor; [auto|].
  rewrite Forall_forall in Hx |- *. intros y Hy. specialize (Hx y Hy).
  assert (x ≠ y) by (by intros ->). lia.
Qed.

(** ** Filters *)
Lemma filter_iff_elem {A} (P Q : A → Prop) `{∀ x, Decision (P x)} `{∀ x, Decision (Q x)} (l : list A) :
  (∀ x, x ∈ l → P x ↔ Q x) → filter P l = filter Q l.
Proof.
  induction l as [|x l IH]; intros HPQ; [done|]. rewrite !filter_cons.
  assert (filter P l = filter Q l) as -> by (apply IH; intros y Hy; apply HPQ; by right).
  destruct (HPQ x) as [H1 H2]; [by left|]. repeat case_decide; naive_solver.
Qed.

Lemma filter_all {A} (P : A → Prop) `{∀ x, Decision (P x)} (l : list A) : (∀ x, x ∈ l → P x) → filter P l = l.
Proof.
  induction l as [|x l IH]; intros HP; [done|].
  rewrite filter_cons_True by (apply HP; by left). f_equal. apply IH. intros y Hy. apply HP. by right.
Qed.

Lemma filter_none {A} (P : A → Prop) `{∀ x, Decision (P x)} (l : list A) : (∀ x, x ∈ l → ¬ P x) → filter P l = [].
Proof.
  induction l as [|x l IH]; intros HP; [done|].
  rewrite filter_cons_False by (apply HP; by left). apply IH. intros y Hy. apply HP. by right.
Qed.
