(* ===== verification/Status.v ===== *)
(** * Lifecycle phases (internal/core/status.go)

    The run status, the node status and the trigger type with their canonical
    tokens, numeric codes and predicates. *)

From stdpp Require Import base strings decidable.
From Stdlib Require Import ZArith.
From S2P Require Import Prelude.

(** [core.Status]: the phases of a DAG run, in [iota] order. *)
Inductive Status :=
  | NotStarted | Running | Failed | Aborted | Succeeded
  | Queued | PartiallySucceeded | Waiting | Rejected.

#[export] Instance Status_eq_dec : EqDecision Status.
Proof. solve_decision. Defined.

Definition Status_code (s : Status) : Z :=
  match s with
  | NotStarted => 0 | Running => 1 | Failed => 2 | Aborted => 3
  | Succeeded => 4 | Queued => 5 | PartiallySucceeded => 6
  | Waiting => 7 | Rejected => 8
  end%Z.

(** [Status.String]. *)
Definition Status_String (s : Status) : string :=
  match s with
  | NotStarted => "not_started"
  | Running => "running"
  | Failed => "failed"
  | Aborted => "aborted"
  | Succeeded => "succeeded"
  | Queued => "queued"
  | PartiallySucceeded => "partially_succeeded"
  | Waiting => "waiting"
  | Rejected => "rejected"
  end.

Definition Status_IsActive (s : Status) : bool :=
  bool_decide (s = Running) || bool_decide (s = Queued) || bool_decide (s = Waiting).

Definition Status_IsSuccess (s : Status) : bool :=
  bool_decide (s = Succeeded) || bool_decide (s = PartiallySucceeded).

Definition Status_IsWaiting (s : Status) : bool := bool_decide (s = Waiting).

(** [core.NodeStatus], with the persisted numeric codes. *)
Inductive NodeStatus :=
  | NodeNotStarted | NodeRunning | NodeFailed | NodeAborted | NodeSucceeded
  | NodeSkipped | NodePartiallySucceeded | NodeWaiting | NodeRejected | NodeRetrying.

#[export] Instance NodeStatus_eq_dec : EqDecision NodeStatus.
Proof. solve_decision. Defined.

Definition NodeStatus_code (s : NodeStatus) : Z :=
  match s with
  | NodeNotStarted => 0 | NodeRunning => 1 | NodeFailed => 2 | NodeAborted => 3
  | NodeSucceeded => 4 | NodeSkipped => 5 | NodePartiallySucceeded => 6
  | NodeWaiting => 7 | NodeRejected => 8 | NodeRetrying => 9
  end%Z.

Definition NodeStatus_IsSuccess (s : NodeStatus) : bool :=
  bool_decide (s = NodeSucceeded) || bool_decide (s = NodePartiallySucceeded).

Definition NodeStatus_IsWaiting (s : NodeStatus) : bool := bool_decide (s = NodeWaiting).

Definition NodeStatus_IsDone (s : NodeStatus) : bool :=
  bool_decide (s = NodeSucceeded) || bool_decide (s = NodeFailed) ||
  bool_decide (s = NodeSkipped) || bool_decide (s = NodeAborted) ||
  bool_decide (s = NodePartiallySucceeded) || bool_decide (s = NodeRejected).

Definition NodeStatus_String (s : NodeStatus) : string :=
  match s with
  | NodeNotStarted => "not_started"
  | NodeRunning => "running"
  | NodeRetrying => "retrying"
  | NodeFailed => "failed"
  | NodeAborted => "aborted"
  | NodeSucceeded => "succeeded"
  | NodeSkipped => "skipped"
  | NodePartiallySucceeded => "partially_succeeded"
  | NodeWaiting => "waiting"
  | NodeRejected => "rejected"
  end.

(** [core.TriggerType], in [iota] order. *)
Inductive TriggerType :=
  | TriggerTypeUnknown | TriggerTypeScheduler | TriggerTypeManual
  | TriggerTypeWebhook | TriggerTypeSubDAG | TriggerTypeRetry | TriggerTypeCatchUp.

#[export] Instance TriggerType_eq_dec : EqDecision TriggerType.
Proof. solve_decision. Defined.

Definition TriggerType_String (t : TriggerType) : string :=
  match t with
  | TriggerTypeUnknown => "unknown"
  | TriggerTypeScheduler => "scheduler"
  | TriggerTypeManual => "manual"
  | TriggerTypeWebhook => "webhook"
  | TriggerTypeSubDAG => "subdag"
  | TriggerTypeRetry => "retry"
  | TriggerTypeCatchUp => "catchup"
  end.

Definition ParseTriggerType (s : string) : TriggerType :=
  if bool_decide (s = "scheduler") then TriggerTypeScheduler
  else if bool_decide (s = "manual") then TriggerTypeManual
  else if bool_decide (s = "webhook") then TriggerTypeWebhook
  else if bool_decide (s = "subdag") then TriggerTypeSubDAG
  else if bool_decide (s = "retry") then TriggerTypeRetry
  else if bool_decide (s = "catchup") then TriggerTypeCatchUp
  else TriggerTypeUnknown.

(** A string parses to a known trigger type exactly when it is that type's
    token, and printing a parsed token gives the token back. *)
Theorem ParseTriggerType_spec (s : string) (t : TriggerType) :
  (ParseTriggerType (TriggerType_String t) = t) ∧
  (ParseTriggerType s = t → t ≠ TriggerTypeUnknown → s = TriggerType_String t).
Proof.
  split; [by destruct t|].
  unfold ParseTriggerType. repeat case_bool_decide; intros <- ?; simplify_eq; done.
Qed.

(** A done node is never waiting, and a successful node is done. *)
Lemma NodeStatus_done_not_waiting s : NodeStatus_IsDone s = true → NodeStatus_IsWaiting s = false.
Proof. by destruct s. Qed.

Lemma NodeStatus_success_done s : NodeStatus_IsSuccess s = true → NodeStatus_IsDone s = true.
Proof. by destruct s. Qed.

Lemma NodeStatus_code_inj s t : NodeStatus_code s = NodeStatus_code t → s = t.
Proof. by destruct s, t. Qed.
