(* ===== verification/Step.v ===== *)
(** * Step definitions (internal/core/step.go, core/condition.go, core/retry.go)

    The data of a DAG step that the plan, the node and the runner read, and
    the backoff computation shared by retries and repeats.  The step fields
    that only executors read (commands, shell, container, LLM, router and
    agent configuration) are left out of the record. *)

From stdpp Require Import gmap strings list.
From Stdlib Require Import ZArith QArith Qround Lia.
From S2P Require Import Prelude Status.

(** ** core.Condition *)
Record Condition := mkCondition {
  Cond : string;
  Expected : string;
  Negate : bool;
  errorMessage : string;
}.

(** ** core.ContinueOn *)
Record ContinueOn := mkContinueOn {
  co_Failure : bool;
  co_Skipped : bool;
  co_ExitCode : list Z;
  co_Output : list string;
  co_MarkSuccess : bool;
}.

(** ** core.RetryPolicy: the float64 backoff multiplier is the rational number
    it denotes. *)
Record RetryPolicy := mkRetryPolicy {
  rp_Limit : Z;
  rp_Interval : Duration;
  rp_LimitStr : string;
  rp_IntervalSecStr : string;
  rp_ExitCodes : list Z;
  rp_Backoff : Q;
  rp_MaxInterval : Duration;
}.

(** ** core.RepeatMode, the empty string being "no repeat". *)
Inductive RepeatMode := RepeatModeNone | RepeatModeWhile | RepeatModeUntil.

#[export] Instance RepeatMode_eq_dec : EqDecision RepeatMode.
Proof. solve_decision. Defined.

Record RepeatPolicy := mkRepeatPolicy {
  rep_Mode : RepeatMode;
  rep_Interval : Duration;
  rep_IntervalStr : string;
  rep_Limit : Z;
  rep_LimitStr : string;
  rep_Backoff : Q;
  rep_MaxInterval : Duration;
  rep_MaxIntervalStr : string;
  rep_Condition : option Condition;
  rep_ExitCode : list Z;
}.

(** The mode [RepeatPolicy.UnmarshalJSON] gives a persisted policy [r].
    [repeat] is the legacy boolean field: [Some b] when it decodes (an absent
    field decodes as [false]) and [None] when decoding it fails. *)
Definition RepeatPolicy_legacyMode (r : RepeatPolicy) (repeat : option bool) : RepeatMode :=
  match rep_Mode r with
  | RepeatModeNone =>
      match repeat with
      | None => RepeatModeNone
      | Some true => RepeatModeWhile
      | Some false =>
          match rep_Condition r with
          | Some c =>
              if negb (String.eqb (Expected c) "") then RepeatModeUntil else RepeatModeWhile
          | None =>
              match rep_ExitCode r with
              | [] => RepeatModeNone
              | _ :: _ => RepeatModeWhile
              end
          end
      end
  | m => m
  end.

(** ** core.ApprovalConfig *)
Record ApprovalConfig := mkApproval {
  ap_Prompt : string;
  ap_Input : list string;
  ap_Required : list string;
  ap_RewindTo : string;
}.

Record SubDAG := mkSubDAG { sd_Name : string; sd_Params : string }.

(** ** core.ParallelItem and core.ParallelConfig (core/parallel.go) *)
Record ParallelItem := mkParallelItem { pi_Value : string; pi_Params : list (string * string) }.

Record ParallelConfig := mkParallelConfig {
  pc_Variable : string;
  pc_Items : list ParallelItem;
  pc_MaxConcurrent : Z;
}.

(** ** core.Step *)
Record Step := mkStep {
  st_ID : string;
  st_Name : string;
  st_Stdout : string;
  st_Stderr : string;
  st_Output : string;
  st_Depends : list string;
  st_ContinueOn : ContinueOn;
  st_RetryPolicy : RetryPolicy;
  st_RepeatPolicy : RepeatPolicy;
  st_Preconditions : list Condition;
  st_SignalOnStop : string;
  st_SubDAG : option SubDAG;
  st_Parallel : option ParallelConfig;
  st_Timeout : Duration;
  st_Approval : option ApprovalConfig;
  st_ExecutorType : string;  (* ExecutorConfig.Type *)
  st_HasStructuredOutput : bool;  (* len(StructuredOutput) > 0 *)
}.

(** The zero values of the records above, and the step that has only a name
    and its dependencies: concrete inputs for the examples. *)
Definition ContinueOn_zero : ContinueOn := mkContinueOn false false [] [] false.
Definition RetryPolicy_zero : RetryPolicy := mkRetryPolicy 0 0 "" "" [] 0%Q 0.
Definition RepeatPolicy_zero : RepeatPolicy :=
  mkRepeatPolicy RepeatModeNone 0 "" 0 "" 0%Q 0 "" None [].
Definition plain_step (name : string) (depends : list string) : Step := {|
  st_ID := ""; st_Name := name; st_Stdout := ""; st_Stderr := ""; st_Output := "";
  st_Depends := depends; st_ContinueOn := ContinueOn_zero;
  st_RetryPolicy := RetryPolicy_zero; st_RepeatPolicy := RepeatPolicy_zero;
  st_Preconditions := []; st_SignalOnStop := ""; st_SubDAG := None;
  st_Parallel := None; st_Timeout := 0; st_Approval := None;
  st_ExecutorType := ""; st_HasStructuredOutput := false;
|}.

(** ** Backoff (core/retry.go)

    A finite [float64] is the rational it denotes.  The code converts a
    duration to a float, multiplies, calls [math.Pow] and converts back; the
    rounding of these operations, and the conversion of a float outside the
    int64 range (which Go leaves to the implementation), are an interface. *)
Class Float64 := {
  f_of_duration : Duration → Q;
  f_mul : Q → Q → Q;
  f_pow : Q → Z → Q;
  f_to_duration : Q → Duration;
}.

Definition CalculateBackoffInterval `{Float64}
    (interval : Duration) (backoff : Q) (maxInterval : Duration) (attemptCount : Z) : Duration :=
  let attemptCount := if (attemptCount <? 0)%Z then 0%Z else attemptCount in
  if negb (Qle_bool backoff 0) then
    let sleepTime := f_mul (f_of_duration interval) (f_pow backoff attemptCount) in
    if (0 <? maxInterval)%Z && (maxInterval <? f_to_duration sleepTime)%Z
    then maxInterval
    else f_to_duration sleepTime
  else interval.

(** Truncation of a float towards zero. *)
Definition Qtrunc (q : Q) : Z := if Qle_bool 0 q then Qfloor q else Qceiling q.

(** The conversion of the amd64 port: truncation inside the int64 range and
    the "integer indefinite" value outside it. *)
Definition amd64_to_int64 (q : Q) : Z :=
  let z := Qtrunc q in
  if (min_int64 <=? z)%Z && (z <=? max_int64)%Z then z else min_int64.

(** A saturating conversion, as the arm64 port has. *)
Definition arm64_to_int64 (q : Q) : Z :=
  Z.max min_int64 (Z.min max_int64 (Qtrunc q)).

(** Float arithmetic without rounding, which is what binary64 computes for
    the powers of two of the examples below. *)
Definition exact_float (to_int64 : Q → Z) : Float64 := {|
  f_of_duration d := inject_Z d;
  f_mul := Qmult;
  f_pow q n := Qpower q n;
  f_to_duration := to_int64;
|}.

Definition amd64_float : Float64 := exact_float amd64_to_int64.
Definition arm64_float : Float64 := exact_float arm64_to_int64.

(** The computed delay never exceeds a positive cap, whatever the float
    arithmetic does; without a multiplier it is the fixed interval; a
    negative attempt count is the first attempt. *)
Theorem CalculateBackoffInterval_bounds `{Float64} interval backoff maxInterval n :
  ((0 < maxInterval)%Z → Qle_bool backoff 0 = false →
     (CalculateBackoffInterval interval backoff maxInterval n <= maxInterval)%Z) ∧
  (Qle_bool backoff 0 = true →
     CalculateBackoffInterval interval backoff maxInterval n = interval) ∧
  ((n < 0)%Z →
     CalculateBackoffInterval interval backoff maxInterval n =
     CalculateBackoffInterval interval backoff maxInterval 0).
Proof.
  unfold CalculateBackoffInterval. split_and!.
  - intros Hm ->. destruct (0 <? maxInterval)%Z eqn:E; breflect; [|lia]; simpl.
    destruct (_ <? _)%Z eqn:E'; breflect; lia.
  - by intros ->.
  - intros Hn. apply Z.ltb_lt in Hn as ->. done.
Qed.

(** On a port whose float-to-int conversion yields the indefinite value, a
    one-second interval doubled 34 times overflows the int64 range and the
    60-second cap is missed: the delay is negative, so no delay at all. *)
Theorem CalculateBackoffInterval_overflow :
  let delay fl := CalculateBackoffInterval (H := fl) Second (2 # 1)%Q (60 * Second)%Z in
  delay amd64_float 33%Z = (60 * Second)%Z ∧
  delay amd64_float 34%Z = min_int64 ∧
  delay arm64_float 34%Z = (60 * Second)%Z.
Proof. by vm_compute. Qed.
