(* ===== verification/Exec.v ===== *)
(** * Chat messages and push-back history (internal/core/exec/messages.go,
    exec/pushback.go, exec/node.go)

    Values that a node carries between executions: the chat session inherited
    from dependencies and the feedback of an approval cycle. *)

From stdpp Require Import gmap strings list.
From Stdlib Require Import ZArith Lia.
From S2P Require Import Prelude.

(** [core.LLMRole]. *)
Inductive LLMRole := RoleSystem | RoleUser | RoleAssistant | RoleTool.

#[export] Instance LLMRole_eq_dec : EqDecision LLMRole.
Proof. solve_decision. Defined.

Record ToolCallFunction := mkToolCallFunction { tcf_Name : string; tcf_Arguments : string }.
Record ToolCall := mkToolCall { tc_ID : string; tc_Type : string; tc_Function : ToolCallFunction }.

(** [exec.LLMMessage] without the accounting metadata of the API call. *)
Record LLMMessage := mkLLMMessage {
  msg_Role : LLMRole;
  msg_Content : string;
  msg_ToolCallID : string;
  msg_ToolCalls : list ToolCall;
}.

(** The loop of [DeduplicateSystemMessages]: [seenSystem] is its flag. *)
Fixpoint dedup_loop (seenSystem : bool) (messages : list LLMMessage) : list LLMMessage :=
  match messages with
  | [] => []
  | msg :: rest =>
      if bool_decide (msg_Role msg = RoleSystem)
      then if seenSystem then dedup_loop true rest else msg :: dedup_loop true rest
      else msg :: dedup_loop seenSystem rest
  end.

Definition DeduplicateSystemMessages (messages : list LLMMessage) : list LLMMessage :=
  dedup_loop false messages.

(** [exec.PushBackEntry]; a Go map is [None] when it is nil. *)
Record PushBackEntry := mkPushBackEntry {
  pb_Iteration : Z;
  pb_By : string;
  pb_At : string;
  pb_Inputs : option (gmap string string);
}.

Definition FilterPushBackInputs (allowed : list string)
    (inputs : option (gmap string string)) : option (gmap string string) :=
  match inputs with
  | None => None
  | Some m =>
      if bool_decide (m = ∅) then None
      else match allowed with
      | [] => Some m
      | _ :: _ =>
          let filtered := filter (λ kv, kv.1 ∈ allowed) m in
          if bool_decide (filtered = ∅) then None else Some filtered
      end
  end.

(** A deep copy: Go maps are copied, so the value is the same. *)
Definition ClonePushBackHistory (src : list PushBackEntry) : list PushBackEntry :=
  map (λ e, mkPushBackEntry (pb_Iteration e) (pb_By e) (pb_At e) (pb_Inputs e)) src.

Definition NormalizePushBackHistory (allowed : list string) (iteration : Z)
    (latestInputs : option (gmap string string)) (history : list PushBackEntry)
    : list PushBackEntry :=
  let normalized := ClonePushBackHistory history in
  let normalized :=
    match normalized with
    | [] => if (0 <? iteration)%Z
            then [mkPushBackEntry iteration "" "" (FilterPushBackInputs allowed latestInputs)]
            else []
    | _ :: _ => normalized
    end in
  map (λ e, {| e with pb_Inputs := FilterPushBackInputs allowed (pb_Inputs e) |}) normalized.

(** ** Properties *)

Definition is_system (m : LLMMessage) : Prop := msg_Role m = RoleSystem.
#[export] Instance is_system_dec m : Decision (is_system m).
Proof. unfold is_system. apply _. Defined.

Lemma dedup_loop_other b l : filter (λ m, ¬ is_system m) (dedup_loop b l) = filter (λ m, ¬ is_system m) l.
Proof.
  revert b. induction l as [|m l IH]; intros b; simpl; [done|].
  case_bool_decide as E.
  - rewrite (filter_cons_False _ m); [|by intros Hn; apply Hn].
    destruct b; [apply IH|]. rewrite filter_cons_False; [apply IH|by intros Hn; apply Hn].
  - rewrite !filter_cons_True by done. by rewrite IH.
Qed.

Lemma dedup_loop_true_no_system l : filter is_system (dedup_loop true l) = [].
Proof.
  induction l as [|m l IH]; simpl; [done|].
  case_bool_decide; [apply IH|]. by rewrite filter_cons_False.
Qed.

Lemma dedup_loop_false_system l : filter is_system (dedup_loop false l) = take 1 (filter is_system l).
Proof.
  induction l as [|m l IH]; simpl; [done|].
  case_bool_decide as E.
  - rewrite !filter_cons_True by done. simpl. by rewrite dedup_loop_true_no_system, take_0.
  - by rewrite !filter_cons_False by done.
Qed.

(** Deduplication keeps every non-system message in order, and of the system
    messages exactly the first one. *)
Theorem DeduplicateSystemMessages_spec l :
  filter (λ m, ¬ is_system m) (DeduplicateSystemMessages l) = filter (λ m, ¬ is_system m) l ∧
  filter is_system (DeduplicateSystemMessages l) = take 1 (filter is_system l).
Proof. split; [apply dedup_loop_other|apply dedup_loop_false_system]. Qed.

Lemma FilterPushBackInputs_lookup allowed inputs m k v :
  FilterPushBackInputs allowed inputs = Some m → m !! k = Some v →
  (∃ m0, inputs = Some m0 ∧ m0 !! k = Some v) ∧ (allowed = [] ∨ k ∈ allowed).
Proof.
  unfold FilterPushBackInputs. intros H Hk.
  destruct inputs as [m0|]; [|done]. case_bool_decide; [done|].
  destruct allowed as [|a al].
  - simplify_eq. eauto.
  - case_bool_decide; [done|]. simplify_eq.
    apply map_lookup_filter_Some in Hk as [Hk Hin]. eauto.
Qed.

(** Filtering is idempotent: what is stored after one filtering passes the
    next one unchanged. *)
Lemma FilterPushBackInputs_idemp allowed inputs :
  FilterPushBackInputs allowed (FilterPushBackInputs allowed inputs) =
  FilterPushBackInputs allowed inputs.
Proof.
  unfold FilterPushBackInputs. destruct inputs as [m|]; [|done].
  case_bool_decide as E; [done|].
  destruct allowed as [|a al]; [by rewrite bool_decide_false|].
  case_bool_decide as E'; [done|]. rewrite bool_decide_false by done.
  rewrite map_filter_filter_l; [by rewrite bool_decide_false|]. done.
Qed.

(** The normalized history of a push-back cycle: nothing outside the declared
    inputs survives in any entry, no entry is lost, and a state that only
    carries the latest iteration is seeded with one entry. *)
Theorem NormalizePushBackHistory_spec allowed iteration latest history :
  let h := NormalizePushBackHistory allowed iteration latest history in
  (∀ e m k v, e ∈ h → pb_Inputs e = Some m → m !! k = Some v → allowed = [] ∨ k ∈ allowed) ∧
  map pb_Iteration h =
    (if decide (history = [] ∧ (0 < iteration)%Z) then [iteration] else map pb_Iteration history) ∧
  NormalizePushBackHistory allowed iteration latest h = h.
Proof.
  intros h. unfold h, NormalizePushBackHistory. split_and!.
  - intros e m k v He Hm Hk. apply list_elem_of_fmap in He as (e0 & -> & _). simpl in Hm.
    by eapply FilterPushBackInputs_lookup in Hm as [_ ?].
  - case_decide as D.
    + destruct D as [-> D]. simpl. by rewrite (proj2 (Z.ltb_lt _ _) D).
    + destruct history as [|e0 hs]; simpl.
      * destruct (0 <? iteration)%Z eqn:E; breflect; [|done]. by destruct D.
      * f_equal. unfold ClonePushBackHistory. by rewrite !map_map.
  - destruct history as [|e0 hs]; simpl.
    + destruct (0 <? iteration)%Z eqn:E; simpl; [|done].
      by rewrite !FilterPushBackInputs_idemp.
    + unfold ClonePushBackHistory. rewrite FilterPushBackInputs_idemp. f_equal.
      rewrite !map_map. apply map_ext. intros e; simpl.
      by rewrite FilterPushBackInputs_idemp.
Qed.
