(* ===== verification/Node.v ===== *)
(** * Nodes (internal/runtime/data.go, internal/runtime/node.go,
    cmn/stringutil/kv.go)

    A node is a step with its mutable execution state.  The Go [Data] wrapper
    adds a lock around each accessor; a definition below is the body that
    runs under the lock.  What the node reads from outside (the log file
    scanned for [continueOn.output], evaluated policy strings) is an
    argument. *)

From stdpp Require Import gmap strings list.
From Stdlib Require Import ZArith Lia.
From S2P Require Import Prelude Status Step Exec.

(** ** Errors

    An error value as far as the runner distinguishes it: the sentinel errors
    it compares against, and an execution error with its identity, whether
    [errors.Is(err, context.DeadlineExceeded)] holds and the exit code that
    [exitCodeFromError] extracts from it. *)
Inductive GoError :=
  | ErrUpstreamFailed
  | ErrUpstreamSkipped
  | ErrUpstreamRejected
  | ErrDeadlockDetected
  | DeadlineExceeded
  | ErrConditionNotMet (id : Z)
  | ErrExec (id : Z) (deadline : bool) (code : option Z)
  | ErrWrap (e : GoError).          (* [fmt.Errorf("...: %w", e)] *)

#[export] Instance GoError_eq_dec : EqDecision GoError.
Proof. solve_decision. Defined.

Fixpoint is_deadline (e : GoError) : bool :=
  match e with
  | DeadlineExceeded => true
  | ErrExec _ d _ => d
  | ErrWrap e => is_deadline e
  | _ => false
  end.

Fixpoint is_condition_not_met (e : GoError) : bool :=
  match e with
  | ErrConditionNotMet _ => true
  | ErrWrap e => is_condition_not_met e
  | _ => false
  end.

Fixpoint exitCodeFromError (e : GoError) : option Z :=
  match e with
  | ErrExec _ _ c => c
  | ErrWrap e => exitCodeFromError e
  | _ => None
  end.

(** ** stringutil.KeyValue *)
Definition NewKeyValue (key value : string) : string := (key ++ String eq_char value)%string.

Definition KeyValue_Key (kv : string) : string := (Cut eq_char kv).1.1.

Definition KeyValue_Value (kv : string) : string :=
  let '(_, value, found) := Cut eq_char kv in if found then value else "".

(** [strconv.ParseBool] and [strconv.FormatBool]. *)
Definition ParseBool (s : string) : option bool :=
  if bool_decide (s ∈ ["1"; "t"; "T"; "true"; "TRUE"; "True"]) then Some true
  else if bool_decide (s ∈ ["0"; "f"; "F"; "false"; "FALSE"; "False"]) then Some false
  else None.

Definition FormatBool (b : bool) : string := if b then "true" else "false".

Definition KeyValue_Bool (kv : string) : bool :=
  match ParseBool (KeyValue_Value kv) with Some b => b | None => false end.

(** ** runtime.NodeState *)
Record SubDAGRun := mkSubDAGRun {
  sr_DAGRunID : string;
  sr_Params : string;
  sr_DAGName : string;
}.

Record ToolDefinition := mkToolDefinition { td_Name : string; td_Description : string }.

Record NodeState := mkNodeState {
  ns_Status : NodeStatus;
  ns_Stdout : string;
  ns_Stderr : string;
  ns_StartedAt : Time;
  ns_FinishedAt : Time;
  ns_RetryCount : Z;
  ns_RetriedAt : Time;
  ns_DoneCount : Z;
  ns_Repeated : bool;
  ns_SkippedByRetry : bool;
  ns_Error : option GoError;
  ns_ExitCode : Z;
  ns_Parallel : option (list ParallelItem);
  ns_SubRuns : list SubDAGRun;
  ns_SubRunsRepeated : list SubDAGRun;
  ns_OutputVariables : option (gmap string string);
  ns_OutputValue : option string;
  ns_ChatMessages : list LLMMessage;
  ns_ToolDefinitions : list ToolDefinition;
  ns_ApprovalInputs : option (gmap string string);
  ns_ApprovedAt : string;
  ns_ApprovedBy : string;
  ns_RejectedAt : string;
  ns_RejectedBy : string;
  ns_RejectionReason : string;
  ns_ApprovalIteration : Z;
  ns_PushBackInputs : option (gmap string string);
  ns_PushBackHistory : list PushBackEntry;
  ns_PushBackPreviousStdout : string;
}.

(** The zero value [NodeState{}]. *)
Definition NodeState_zero : NodeState := {|
  ns_Status := NodeNotStarted; ns_Stdout := ""; ns_Stderr := "";
  ns_StartedAt := 0; ns_FinishedAt := 0; ns_RetryCount := 0; ns_RetriedAt := 0;
  ns_DoneCount := 0; ns_Repeated := false; ns_SkippedByRetry := false;
  ns_Error := None; ns_ExitCode := 0; ns_Parallel := None;
  ns_SubRuns := []; ns_SubRunsRepeated := [];
  ns_OutputVariables := None; ns_OutputValue := None;
  ns_ChatMessages := []; ns_ToolDefinitions := [];
  ns_ApprovalInputs := None; ns_ApprovedAt := ""; ns_ApprovedBy := "";
  ns_RejectedAt := ""; ns_RejectedBy := ""; ns_RejectionReason := "";
  ns_ApprovalIteration := 0; ns_PushBackInputs := None;
  ns_PushBackHistory := []; ns_PushBackPreviousStdout := "";
|}.

(** The node's own retry policy, evaluated by [setupRetryPolicy]. *)
Record NodeRetryPolicy := mkNodeRetryPolicy {
  nrp_Limit : Z;
  nrp_Interval : Duration;
  nrp_ExitCodes : list Z;
}.
Definition NodeRetryPolicy_zero : NodeRetryPolicy := mkNodeRetryPolicy 0 0 [].

(** ** runtime.Node: the step and state of [NodeData], the identifier, whether
    the executor [cmd] is set, the done flag, the retry policy and the stdout
    file name of the output coordinator. *)
Record Node := mkNode {
  n_Step : Step;
  n_State : NodeState;
  n_id : Z;
  n_cmd : bool;
  n_done : bool;
  n_retryPolicy : NodeRetryPolicy;
  n_stdoutFile : string;
}.

Definition NewNode (step : Step) (state : NodeState) : Node :=
  mkNode step state 0 false false NodeRetryPolicy_zero "".

(** [Node.Init] numbers a node that has no identifier from the counter
    [nextNodeID] of [getNextNodeID]. *)
Definition Init (n : Node) (nextNodeID : Z) : Node * Z :=
  if (n_id n =? 0)%Z then ({| n with n_id := nextNodeID |}, (nextNodeID + 1)%Z)
  else (n, nextNodeID).

(** ** The accessors of [Data] *)
Definition Name (n : Node) : string := st_Name (n_Step n).
Definition Node_Status (n : Node) : NodeStatus := ns_Status (n_State n).

Definition on_state (f : NodeState → NodeState) (n : Node) : Node :=
  {| n with n_State := f (n_State n) |}.

Definition SetStatus (s : NodeStatus) : Node → Node :=
  on_state (λ st, {| st with ns_Status := s |}).
Definition SetError (e : option GoError) : Node → Node :=
  on_state (λ st, {| st with ns_Error := e |}).
Definition MarkError (e : option GoError) : Node → Node :=
  on_state (λ st, {| st with ns_Error := e; ns_Status := NodeFailed |}).
Definition ResetError : Node → Node :=
  on_state (λ st, {| st with ns_Error := None; ns_ExitCode := 0%Z |}).
Definition SetExitCode (c : Z) : Node → Node :=
  on_state (λ st, {| st with ns_ExitCode := c |}).
Definition IncRetryCount : Node → Node :=
  on_state (λ st, {| st with ns_RetryCount := (ns_RetryCount st + 1)%Z |}).
Definition SetRetryCount (c : Z) : Node → Node :=
  on_state (λ st, {| st with ns_RetryCount := c |}).
Definition GetRetryCount (n : Node) : Z := ns_RetryCount (n_State n).
Definition SetRetriedAt (t : Time) : Node → Node :=
  on_state (λ st, {| st with ns_RetriedAt := t |}).
Definition IncDoneCount : Node → Node :=
  on_state (λ st, {| st with ns_DoneCount := (ns_DoneCount st + 1)%Z |}).
Definition SetRepeated (b : bool) : Node → Node :=
  on_state (λ st, {| st with ns_Repeated := b |}).
Definition Finish (now : Time) : Node → Node :=
  on_state (λ st, {| st with ns_FinishedAt := now |}).
Definition SetChatMessages (msgs : list LLMMessage) : Node → Node :=
  on_state (λ st, {| st with ns_ChatMessages := msgs |}).
Definition SetSubRuns (rs : list SubDAGRun) : Node → Node :=
  on_state (λ st, {| st with ns_SubRuns := rs |}).
Definition AddSubRunsRepeated (rs : list SubDAGRun) : Node → Node :=
  on_state (λ st, {| st with ns_SubRunsRepeated := ns_SubRunsRepeated st ++ rs |}).
Definition SetApprovalInputs (inputs : option (gmap string string)) : Node → Node :=
  on_state (λ st, {| st with ns_ApprovalInputs := inputs |}).
Definition SetStep (s : Step) (n : Node) : Node := {| n with n_Step := s |}.

(** [Data.ClearState] replaces the whole state and the step. *)
Definition ClearState (s : Step) (n : Node) : Node :=
  {| n with n_State := NodeState_zero; n_Step := s |}.

Definition MatchExitCode (exitCodes : list Z) (n : Node) : bool :=
  bool_decide (ns_ExitCode (n_State n) ∈ exitCodes).

(** ** Output variables *)
Definition getVariable (key : string) (n : Node) : option string :=
  vars ← ns_OutputVariables (n_State n); vars !! key.

Definition getBoolVariable (key : string) (n : Node) : option bool :=
  KeyValue_Bool <$> getVariable key n.

Definition setVariable (key value : string) : Node → Node :=
  on_state (λ st, {| st with
    ns_OutputVariables :=
      Some (<[key := NewKeyValue key value]> (default ∅ (ns_OutputVariables st))) |}).

Definition setBoolVariable (key : string) (value : bool) : Node → Node :=
  setVariable key (FormatBool value).

Definition ClearVariable (key : string) : Node → Node :=
  on_state (λ st, {| st with ns_OutputVariables := delete key <$> ns_OutputVariables st |}).

Definition setOutputValue (value : string) : Node → Node :=
  on_state (λ st, {| st with ns_OutputValue := Some value |}).

(** [Node.OutputVariablesMap]: the stored "key=value" strings, decoded; an
    entry without a separator is skipped. *)
Definition OutputVariablesMap (n : Node) : gmap string string :=
  match ns_OutputVariables (n_State n) with
  | None => ∅
  | Some vars => omap (λ kv, let '(_, v, found) := Cut eq_char kv in
                             if found then Some v else None) vars
  end.

Definition legacyOutputVariableValue (outputKey : string) (vars : option (gmap string string))
    : option string :=
  if String.eqb outputKey "" then None
  else kv ← vars ≫= (.!! outputKey);
       let '(_, v, found) := Cut eq_char kv in
       if found then Some v else None.

Definition StringFormOutputValue (n : Node) : option string :=
  if String.eqb (st_Output (n_Step n)) "" then None
  else match ns_OutputValue (n_State n) with
  | Some v => Some v
  | None => legacyOutputVariableValue (st_Output (n_Step n)) (ns_OutputVariables (n_State n))
  end.

(** The output of [Data.StepInfo]. *)
Definition StepInfo_Output (n : Node) : option string :=
  match ns_OutputValue (n_State n) with
  | Some v => Some v
  | None => StringFormOutputValue n
  end.

(** ** Continue-on conditions

    Scanning a log file for patterns, as the file system answers. *)
Inductive ScanResult := LogMissing | LogOpenError | LogMatch | LogNoMatch | LogReadError.

Class LogFiles := scanLog : string → list string → ScanResult.

(** [Node.LogContainsPattern]; [None] is an error. *)
Definition LogContainsPattern `{LogFiles} (n : Node) (patterns : list string) : option bool :=
  match patterns with
  | [] => Some false
  | _ :: _ =>
      if String.eqb (n_stdoutFile n) "" then Some false
      else match scanLog (n_stdoutFile n) patterns with
      | LogMissing => Some false
      | LogOpenError => None
      | LogMatch => Some true
      | LogNoMatch => Some false
      | LogReadError => None
      end
  end.

Definition systemVarPrefix : string := "DAGU_".
Definition continueOnKey (n : Node) : string :=
  (systemVarPrefix ++ "CONTINUE_ON." ++ Name n)%string.

(** [Node.ShouldContinue]: the answer and the node with its cached answer. *)
Definition ShouldContinue `{LogFiles} (n : Node) : bool * Node :=
  let continueOn := st_ContinueOn (n_Step n) in
  let by_condition :=
    match getBoolVariable (continueOnKey n) n with
    | Some v => (v, n)
    | None =>
        if MatchExitCode (co_ExitCode continueOn) n
        then (true, setBoolVariable (continueOnKey n) true n)
        else match co_Output continueOn with
        | [] => (false, setBoolVariable (continueOnKey n) false n)
        | _ :: _ =>
            match LogContainsPattern n (co_Output continueOn) with
            | None => (false, n)
            | Some true => (true, setBoolVariable (continueOnKey n) true n)
            | Some false => (false, setBoolVariable (continueOnKey n) false n)
            end
        end
    end in
  match Node_Status n with
  | NodeSucceeded => (true, n)
  | NodeFailed => if co_Failure continueOn then (true, n) else by_condition
  | NodeAborted => (false, n)
  | NodeSkipped => (co_Skipped continueOn, n)
  | NodePartiallySucceeded => (true, n)
  | NodeRejected => (false, n)
  | NodeNotStarted | NodeRunning | NodeRetrying | NodeWaiting => (false, n)
  end.

Definition ShouldMarkSuccess `{LogFiles} (n : Node) : bool * Node :=
  let '(c, n') := ShouldContinue n in
  if c then (co_MarkSuccess (st_ContinueOn (n_Step n')), n') else (false, n').

(** ** Retry and repeat policies

    [evalInt] is [eval.IntString]: [None] when the string does not evaluate
    to an integer. *)
Definition ShouldRetry (r : NodeRetryPolicy) (exitCode : Z) : bool :=
  match nrp_ExitCodes r with
  | _ :: _ => bool_decide (exitCode ∈ nrp_ExitCodes r)
  | [] => negb (exitCode =? 0)%Z
  end.

Definition setupRetryPolicy (evalInt : string → option Z) (n : Node) : option Node :=
  let rp := st_RetryPolicy (n_Step n) in
  let limit := if (0 <? rp_Limit rp)%Z then rp_Limit rp else 0%Z in
  let interval := if (0 <? rp_Interval rp)%Z then rp_Interval rp else 0%Z in
  let exitCodes := rp_ExitCodes rp in
  limit ← (if String.eqb (rp_LimitStr rp) "" then Some limit else evalInt (rp_LimitStr rp));
  interval ← (if String.eqb (rp_IntervalSecStr rp) "" then Some interval
              else (λ v, wrap64 (v * Second)) <$> evalInt (rp_IntervalSecStr rp));
  Some {| n with
    n_retryPolicy := mkNodeRetryPolicy limit interval exitCodes;
    n_Step := {| (n_Step n) with
      st_RetryPolicy := {| rp with rp_Limit := limit; rp_Interval := interval;
                                   rp_ExitCodes := exitCodes |} |} |}.

Definition setupRepeatPolicy (evalInt : string → option Z) (n : Node) : option Node :=
  let rp := st_RepeatPolicy (n_Step n) in
  limit ← (if String.eqb (rep_LimitStr rp) "" then Some (rep_Limit rp)
           else evalInt (rep_LimitStr rp));
  interval ← (if String.eqb (rep_IntervalStr rp) "" then Some (rep_Interval rp)
              else (λ v, wrap64 (v * Second)) <$> evalInt (rep_IntervalStr rp));
  maxInterval ← (if String.eqb (rep_MaxIntervalStr rp) "" then Some (rep_MaxInterval rp)
                 else (λ v, wrap64 (v * Second)) <$> evalInt (rep_MaxIntervalStr rp));
  Some {| n with
    n_Step := {| (n_Step n) with
      st_RepeatPolicy := {| rp with rep_Limit := limit; rep_Interval := interval;
                                    rep_MaxInterval := maxInterval |} |} |}.

(** ** Signals

    The signal table of the platform (cmn/signal): which signals terminate a
    process, and the number of a signal name. *)
Class SignalTable := {
  isTerminationSignal : Z → bool;
  GetSignalNum : string → Z;
}.

Definition signalToSend `{SignalTable} (sig : Z) (allowOverride : bool) (n : Node) : Z :=
  if allowOverride && negb (String.eqb (st_SignalOnStop (n_Step n)) "")
  then GetSignalNum (st_SignalOnStop (n_Step n)) else sig.

Definition Node_Signal `{SignalTable} (sig : Z) (allowOverride : bool) (n : Node) : Node :=
  if bool_decide (Node_Status n = NodeRunning) && n_cmd n
  then if isTerminationSignal (signalToSend sig allowOverride n)
       then SetStatus NodeAborted n else n
  else n.

Definition Node_Cancel (n : Node) : Node :=
  if bool_decide (Node_Status n = NodeRunning) || bool_decide (Node_Status n = NodeWaiting)
  then SetStatus NodeAborted n else n.

(** [Node.Teardown]: [closeErr] is the result of closing the outputs. *)
Definition Teardown (closeErr : option GoError) (n : Node) : Node * option GoError :=
  if n_done n then (n, None)
  else
    let n := {| n with n_done := true |} in
    match closeErr with
    | Some e => (SetError (Some e) n, Some e)
    | None => (n, None)
    end.

(** ** Execution

    What one call of [Node.Execute] gets from the executor and the file
    system.  Evaluated step texts (arguments, configuration, sub-DAG name,
    script) are not part of the model; failing to evaluate them is. *)
Record ExecOutcome := mkExecOutcome {
  xo_evalErr : option GoError;      (* setupExecutor before [n.cmd] is set *)
  xo_ioErr : option GoError;        (* setupExecutor after [n.cmd] is set *)
  xo_itemsErr : option GoError;     (* BuildSubDAGRuns before the repeated runs are kept *)
  xo_builtRuns : GoError + list SubDAGRun; (* BuildSubDAGRuns from there on *)
  xo_configErr : option GoError;    (* configureSubDAGExecutor *)
  xo_runErr : option GoError;       (* cmd.Run *)
  xo_timedOut : bool;               (* the step deadline has passed *)
  xo_timeoutErr : Z;                (* identity of the timeout error *)
  xo_exitCoder : option Z;          (* executor.ExitCoder *)
  xo_messages : option (list LLMMessage);     (* executor.ChatMessageHandler *)
  xo_subRuns : option (list SubDAGRun);       (* executor.SubRunProvider *)
  xo_toolDefs : option (list ToolDefinition); (* executor.ToolDefinitionProvider *)
  xo_capture : GoError + string;    (* the captured or structured output *)
  xo_determine : option (GoError + NodeStatus); (* executor.NodeStatusDeterminer *)
}.

(** [Node.BuildSubDAGRuns]: the runs of an earlier repetition are kept before new ones
    are built. *)
Definition BuildSubDAGRuns (o : ExecOutcome) (n : Node) : (GoError + list SubDAGRun) * Node :=
  match xo_itemsErr o with
  | Some e => (inl e, n)
  | None =>
      let runs := ns_SubRuns (n_State n) in
      let n :=
        if ns_Repeated (n_State n)
        then match st_Parallel (n_Step n), runs with
             | None, [] => n
             | None, r :: _ => AddSubRunsRepeated [r] n
             | Some _, _ => AddSubRunsRepeated runs n
             end
        else n in
      (xo_builtRuns o, n)
  end.

Definition setupExecutor (o : ExecOutcome) (n : Node) : option GoError * Node :=
  let n := ClearVariable (continueOnKey n) n in
  let n := ResetError n in
  let n := {| n with n_done := false |} in
  match xo_evalErr o with
  | Some e => (Some e, n)
  | None =>
      let n := {| n with n_cmd := true |} in
      match xo_ioErr o with
      | Some e => (Some e, n)
      | None =>
          match st_SubDAG (n_Step n) with
          | None => (None, n)
          | Some _ =>
              match BuildSubDAGRuns o n with
              | (inl e, n) => (Some e, n)
              | (inr runs, n) => (xo_configErr o, SetSubRuns runs n)
              end
          end
      end
  end.

(** [Node.runCommand], [handleTimeout] and [handleCommandError]. *)
Definition runCommand (o : ExecOutcome) (n : Node) : Z * option GoError * Node :=
  match xo_runErr o with
  | None => (0%Z, None, n)
  | Some e =>
      if (0 <? st_Timeout (n_Step n))%Z && xo_timedOut o
      then let te := ErrExec (xo_timeoutErr o) true None in
           (124%Z, Some te, SetStatus NodeFailed (SetError (Some te) n))
      else
        let n := SetError (Some e) n in
        match xo_exitCoder o with
        | Some c => (c, Some e, n)
        | None => (default 1%Z (exitCodeFromError e), Some e, n)
        end
  end.

(** [Node.captureOutput]: the captured output of a step that names one, or the
    structured output. *)
Definition captureOutput (o : ExecOutcome) (n : Node) : option GoError * Node :=
  if negb (String.eqb (st_Output (n_Step n)) "") then
    match xo_capture o with
    | inl e => (Some (ErrWrap e), n)
    | inr value => (None, setOutputValue value (setVariable (st_Output (n_Step n)) value n))
    end
  else if negb (st_HasStructuredOutput (n_Step n)) then (None, n)
  else
    match xo_capture o with
    | inl e => (Some (ErrWrap e), n)
    | inr value => (None, setOutputValue value n)
    end.

Definition determineNodeStatus (o : ExecOutcome) (n : Node) : option GoError * Node :=
  match xo_determine o with
  | None => (None, n)
  | Some (inl e) => (Some e, n)
  | Some (inr s) => (None, SetStatus s n)
  end.

(** [Node.Execute] up to the call of the executor ... *)
Definition Execute_setup (o : ExecOutcome) (n : Node) : option GoError * Node :=
  let '(serr, n) := setupExecutor o n in
  match serr with
  | Some e => (Some e, SetError (Some (ErrWrap e)) n)
  | None => (None, n)
  end.

(** ... what it then records of the executor's results ... *)
Definition recordResults (o : ExecOutcome) (n : Node) : Node :=
  let n := match xo_messages o with Some ms => SetChatMessages ms n | None => n end in
  let n :=
    match xo_subRuns o with
    | None => n
    | Some rs =>
        let n := if ns_Repeated (n_State n) && negb (bool_decide (length (ns_SubRuns (n_State n)) = 0))
                 then AddSubRunsRepeated (ns_SubRuns (n_State n)) n else n in
        SetSubRuns rs n
    end in
  match xo_toolDefs o with
  | Some (t :: ts) => on_state (λ st, {| st with ns_ToolDefinitions := t :: ts |}) n
  | _ => n
  end.

(** ... and the whole from the call of the executor on. *)
Definition Execute_run (o : ExecOutcome) (n : Node) : option GoError * Node :=
  let '(exitCode, err, n) := runCommand o n in
  let n := recordResults o (SetExitCode exitCode (SetError err n)) in
  let '(cerr, n) := captureOutput o n in
  match cerr with
  | Some e => (Some e, n)
  | None =>
      let '(statusErr, n) := determineNodeStatus o n in
      match ns_Error (n_State n) with
      | Some e => (Some e, n)
      | None => (statusErr, n)
      end
  end.

Definition Execute (o : ExecOutcome) (n : Node) : option GoError * Node :=
  let '(err, n) := Execute_setup o n in
  match err with
  | Some e => (Some e, n)
  | None => Execute_run o n
  end.

(** ** Preparation

    What [Node.Prepare] gets from the clock, the file system and the
    evaluation of the step's texts. *)
Record PrepareOutcome := mkPrepareOutcome {
  po_mkdirErr : option GoError;
  po_logFile : string;
  po_merged : bool;                 (* EffectiveLogOutput is LogOutputMerged *)
  po_startedAt : Time;
  po_stdout : GoError + string;     (* evaluated Step.Stdout *)
  po_stderr : GoError + string;     (* evaluated Step.Stderr *)
  po_outputs : GoError + string;    (* outputs.setup: the stdout file *)
  po_evalInt : string → option Z;   (* eval.IntString *)
  po_evalErr : GoError;             (* its error *)
}.

(** [Data.Setup] *)
Definition Data_Setup (o : PrepareOutcome) (n : Node) : option GoError * Node :=
  let suffix_out := if po_merged o then ".log" else ".out" in
  let suffix_err := if po_merged o then ".log" else ".err" in
  let n := on_state (λ st, {| st with
    ns_Stdout := (po_logFile o ++ suffix_out)%string;
    ns_Stderr := (po_logFile o ++ suffix_err)%string;
    ns_StartedAt := po_startedAt o |}) n in
  match po_stdout o with
  | inl e => (Some (ErrWrap e), n)
  | inr out =>
      let n := {| n with n_Step := {| (n_Step n) with st_Stdout := out |} |} in
      match po_stderr o with
      | inl e => (Some (ErrWrap e), n)
      | inr err => (None, {| n with n_Step := {| (n_Step n) with st_Stderr := err |} |})
      end
  end.

Definition Prepare (o : PrepareOutcome) (n : Node) : option GoError * Node :=
  match po_mkdirErr o with
  | Some e => (Some (ErrWrap e), n)
  | None =>
      let '(serr, n) := Data_Setup o n in
      match serr with
      | Some e => (Some (ErrWrap e), n)
      | None =>
          match po_outputs o with
          | inl e => (Some (ErrWrap e), n)
          | inr file =>
              let n := {| n with n_stdoutFile := file |} in
              match setupRetryPolicy (po_evalInt o) n with
              | None => (Some (ErrWrap (po_evalErr o)), n)
              | Some n =>
                  match setupRepeatPolicy (po_evalInt o) n with
                  | None => (Some (ErrWrap (po_evalErr o)), n)
                  | Some n => (None, n)
                  end
              end
          end
      end
  end.

(** ** Properties of nodes *)

Lemma Name_on_state f n : Name (on_state f n) = Name n.
Proof. done. Qed.

Lemma Node_Status_on_state f n : Node_Status (on_state f n) = ns_Status (f (n_State n)).
Proof. done. Qed.

Lemma Node_Status_SetStatus s n : Node_Status (SetStatus s n) = s.
Proof. done. Qed.

Lemma Node_Status_setVariable k v n : Node_Status (setVariable k v n) = Node_Status n.
Proof. done. Qed.

Lemma getVariable_setVariable k v n : getVariable k (setVariable k v n) = Some (NewKeyValue k v).
Proof. unfold getVariable, setVariable, on_state; simpl. by rewrite lookup_insert_eq. Qed.

Lemma KeyValue_Value_New k v :
  contains_char eq_char k = false → KeyValue_Value (NewKeyValue k v) = v.
Proof. intros H. unfold KeyValue_Value, NewKeyValue. by rewrite (Cut_app _ _ _ H). Qed.

(** Storing a pair and reading its parts back is the identity when the key
    has no '=' character. *)
Theorem KeyValue_roundtrip (k v : string) (b : bool)
    (Hk : contains_char eq_char k = false) :
  KeyValue_Key (NewKeyValue k v) = k ∧
  KeyValue_Value (NewKeyValue k v) = v ∧
  KeyValue_Bool (NewKeyValue k (FormatBool b)) = b.
Proof.
  split_and!.
  - unfold KeyValue_Key, NewKeyValue. by rewrite (Cut_app _ _ _ Hk).
  - by apply KeyValue_Value_New.
  - unfold KeyValue_Bool. rewrite (KeyValue_Value_New _ _ Hk). by destruct b.
Qed.

Lemma KeyValue_roundtrip_witness :
  contains_char eq_char "DAGU_CONTINUE_ON.build" = false ∧
  KeyValue_Bool (NewKeyValue "DAGU_CONTINUE_ON.build" "true") = true.
Proof.
  split; [done|].
  apply (KeyValue_roundtrip "DAGU_CONTINUE_ON.build" "v" true). reflexivity.
Defined.

Lemma KeyValue_Bool_New k b :
  contains_char eq_char k = false → KeyValue_Bool (NewKeyValue k (FormatBool b)) = b.
Proof. intros H. unfold KeyValue_Bool. rewrite (KeyValue_Value_New _ _ H). by destruct b. Qed.

Lemma getBoolVariable_set k b n :
  contains_char eq_char k = false → getBoolVariable k (setBoolVariable k b n) = Some b.
Proof.
  intros H. unfold getBoolVariable, setBoolVariable. rewrite getVariable_setVariable. simpl.
  by rewrite (KeyValue_Bool_New _ _ H).
Qed.

Lemma continueOnKey_no_eq n :
  contains_char eq_char (Name n) = false → contains_char eq_char (continueOnKey n) = false.
Proof. intros H. unfold continueOnKey. by rewrite !contains_char_app, H. Qed.

Section Continue.
Context `{LogFiles}.

(** [ShouldContinue] only touches the cached answer. *)
Lemma ShouldContinue_shape n :
  (ShouldContinue n).2 = n ∨ ∃ b, (ShouldContinue n).2 = setBoolVariable (continueOnKey n) b n.
Proof. unfold ShouldContinue. repeat case_match; simpl; eauto. Qed.

Lemma ShouldContinue_status n : Node_Status (ShouldContinue n).2 = Node_Status n.
Proof. by destruct (ShouldContinue_shape n) as [->|[b ->]]. Qed.

Lemma ShouldContinue_step n : n_Step (ShouldContinue n).2 = n_Step n.
Proof. by destruct (ShouldContinue_shape n) as [->|[b ->]]. Qed.

Lemma ShouldContinue_id n : n_id (ShouldContinue n).2 = n_id n.
Proof. by destruct (ShouldContinue_shape n) as [->|[b ->]]. Qed.

Lemma ShouldContinue_state n :
  ns_SkippedByRetry (n_State (ShouldContinue n).2) = ns_SkippedByRetry (n_State n) ∧
  ns_Error (n_State (ShouldContinue n).2) = ns_Error (n_State n).
Proof. by destruct (ShouldContinue_shape n) as [->|[b ->]]. Qed.

(** A node whose cached answer is the one [ShouldContinue] just gave. *)
Lemma ShouldContinue_cached n b :
  contains_char eq_char (Name n) = false →
  Node_Status n = NodeFailed → co_Failure (st_ContinueOn (n_Step n)) = false →
  ShouldContinue (setBoolVariable (continueOnKey n) b n) =
    (b, setBoolVariable (continueOnKey n) b n).
Proof.
  intros Hn Hs Hf. unfold ShouldContinue at 1.
  change (Node_Status (setBoolVariable (continueOnKey n) b n)) with (Node_Status n).
  change (n_Step (setBoolVariable (continueOnKey n) b n)) with (n_Step n).
  change (continueOnKey (setBoolVariable (continueOnKey n) b n)) with (continueOnKey n).
  rewrite Hs, Hf, getBoolVariable_set by by apply continueOnKey_no_eq. done.
Qed.

Lemma ShouldContinue_again (n : Node) : contains_char eq_char (Name n) = false →
  ShouldContinue (ShouldContinue n).2 = ((ShouldContinue n).1, (ShouldContinue n).2).
Proof.
  intros Hn. unfold ShouldContinue at 2 3 4.
  destruct (Node_Status n) eqn:Hs; simpl; try by unfold ShouldContinue; rewrite Hs.
  destruct (co_Failure (st_ContinueOn (n_Step n))) eqn:Hf; simpl.
  { unfold ShouldContinue. by rewrite Hs, Hf. }
  destruct (getBoolVariable (continueOnKey n) n) eqn:Hg; simpl.
  { unfold ShouldContinue. by rewrite Hs, Hf, Hg. }
  destruct (MatchExitCode _ n) eqn:Hm; simpl; [by apply ShouldContinue_cached|].
  destruct (co_Output _) as [|p ps] eqn:Ho; [by apply ShouldContinue_cached|].
  destruct (LogContainsPattern n (p :: ps)) as [[]|] eqn:Hl; simpl;
    [by apply ShouldContinue_cached..|].
  unfold ShouldContinue. by rewrite Hs, Hf, Hg, Hm, Ho, Hl.
Qed.

(** Asking again gives the same answer and changes nothing: the cached value
    agrees with the conditions it was computed from, for a step whose name
    has no '=' character. *)
Theorem ShouldContinue_stable (n : Node) (Hn : contains_char eq_char (Name n) = false) :
  ShouldContinue (ShouldContinue n).2 = ((ShouldContinue n).1, (ShouldContinue n).2).
Proof. by apply ShouldContinue_again. Qed.
End Continue.

(** A failed node that continues on exit code 3, with the exit code 3. *)
Definition exit3_node (name : string) : Node :=
  SetExitCode 3 (SetStatus NodeFailed
    (NewNode {| (plain_step name []) with
       st_ContinueOn := mkContinueOn false false [3%Z] [] false |} NodeState_zero)).

Definition no_logs : LogFiles := λ _ _, LogMissing.

Lemma ShouldContinue_stable_witness :
  (ShouldContinue (H := no_logs)
     (ShouldContinue (H := no_logs) (exit3_node "build")).2).1 = true.
Proof.
  rewrite (ShouldContinue_stable (exit3_node "build")); [|reflexivity].
  reflexivity.
Defined.

(** A step named "a=b" that may continue on its exit code: the first query
    answers yes and caches it, and the second query reads the cached text
    after the first '=' and answers no. *)
Theorem ShouldContinue_unstable_name :
  let ask := ShouldContinue (H := no_logs) in
  (ask (exit3_node "a=b")).1 = true ∧
  (ask (ask (exit3_node "a=b")).2).1 = false.
Proof. split; reflexivity. Qed.
