(* ===== verification/Graph.v ===== *)
(** * Finite relations

    The facts on finite directed graphs behind cycle detection and layered
    traversal: a finite set in which every element has a predecessor contains
    a cycle, and a topological order ranks the elements so that paths are
    short. *)

From stdpp Require Import base relations list sets.
From Stdlib Require Import Lia.
From S2P Require Import Prelude.

(** Occurrences of an element in a list. *)
Definition cnt `{EqDecision A} (x : A) (l : list A) : nat := length (filter (x =.) l).

Lemma cnt_cons `{EqDecision A} (x y : A) l :
  cnt x (y :: l) = (if decide (x = y) then 1 else 0) + cnt x l.
Proof. unfold cnt. rewrite filter_cons. by case_decide. Qed.

Lemma cnt_nil `{EqDecision A} (x : A) : cnt x [] = 0.
Proof. done. Qed.

Lemma cnt_app `{EqDecision A} (x : A) l k : cnt x (l ++ k) = cnt x l + cnt x k.
Proof. unfold cnt. by rewrite filter_app, length_app. Qed.

Lemma cnt_pos `{EqDecision A} (x : A) l : 0 < cnt x l ↔ x ∈ l.
Proof.
  induction l as [|y l IH]; [rewrite cnt_nil; set_solver by lia|].
  rewrite cnt_cons, elem_of_cons. case_decide; [naive_solver lia|].
  rewrite Nat.add_0_l, IH. naive_solver.
Qed.

Lemma cnt_zero `{EqDecision A} (x : A) l : cnt x l = 0 ↔ x ∉ l.
Proof. rewrite <-cnt_pos. lia. Qed.

Section FiniteRelation.
Context {A : Type} `{EqDecision A} (R : relation A).

(** Consecutive elements of the list are related. *)
Fixpoint chain (l : list A) : Prop :=
  match l with
  | x :: (y :: _) as l' => R x y ∧ chain l'
  | _ => True
  end.

Lemma chain_tail x l : chain (x :: l) → chain l.
Proof. destruct l; simpl; naive_solver. Qed.

Lemma chain_app_tc l1 x l2 y l3 : chain (l1 ++ x :: l2 ++ y :: l3) → tc R x y.
Proof.
  induction l1 as [|z l1 IH]; simpl.
  - revert x. induction l2 as [|w l2 IH2]; intros x; simpl; [intros [? _]; by constructor|].
    intros [Hxw Hc]. eapply tc_l; [done|]. apply IH2, Hc.
  - intros Hc. apply IH. by eapply chain_tail.
Qed.

Lemma not_NoDup_split (l : list A) :
  ¬ NoDup l → ∃ l1 x l2 l3, l = l1 ++ x :: l2 ++ x :: l3.
Proof.
  induction l as [|x l IH]; [intros H; by destruct H; constructor|].
  intros Hnd. destruct (decide (x ∈ l)) as [Hx|Hx].
  - apply list_elem_of_split in Hx as (l2 & l3 & ->). by exists [], x, l2, l3.
  - destruct IH as (l1 & y & l2 & l3 & ->); [intros ?; apply Hnd; by constructor|].
    by exists (x :: l1), y, l2, l3.
Qed.

(** A non-empty finite set closed under taking some predecessor has a cycle. *)
Lemma no_source_cycle (V : list A) :
  V ≠ [] → (∀ x, x ∈ V → ∃ y, y ∈ V ∧ R y x) → ∃ x, tc R x x.
Proof.
  intros HV Hpred.
  assert (∀ k, ∃ l, length l = S k ∧ chain l ∧ (∀ x, x ∈ l → x ∈ V)) as Hlong.
  { induction k as [|k (l & Hl & Hc & Hin)].
    - destruct V as [|x V']; [done|]. exists [x]. simpl. set_solver.
    - destruct l as [|x l']; [done|].
      destruct (Hpred x) as (y & Hy & HR); [by apply Hin; left|].
      exists (y :: x :: l'). simpl in *. split_and!; [lia|done|done|set_solver]. }
  destruct (Hlong (length V)) as (l & Hl & Hc & Hin).
  destruct (decide (NoDup l)) as [Hnd|Hnd].
  - apply NoDup_submseteq in Hin; [|done]. apply submseteq_length in Hin. lia.
  - apply not_NoDup_split in Hnd as (l1 & x & l2 & l3 & ->).
    exists x. by eapply chain_app_tc.
Qed.

(** [topo l]: every predecessor of an element of [l] occurs later in [l]; with
    the most recently processed element first, [l] is a topological order. *)
Fixpoint topo (l : list A) : Prop :=
  match l with
  | [] => True
  | x :: l' => (∀ y, R y x → y ∈ l') ∧ topo l'
  end.

(** The rank of an element: how many elements follow its first occurrence. *)
Fixpoint rank (l : list A) (x : A) : nat :=
  match l with
  | [] => 0
  | y :: l' => if decide (x = y) then length l' else rank l' x
  end.

Lemma rank_lt l x : x ∈ l → rank l x < length l.
Proof.
  induction l as [|y l IH]; [set_solver|]. simpl.
  case_decide; [lia|]. intros Hx. assert (x ∈ l) as Hl by set_solver.
  specialize (IH Hl). lia.
Qed.

Lemma topo_rank l x y : NoDup l → topo l → y ∈ l → R x y → rank l x < rank l y.
Proof.
  induction l as [|z l IH]; [set_solver|].
  intros [Hz Hnd]%NoDup_cons [Hp Ht] Hy HR. simpl.
  destruct (decide (y = z)) as [->|Hyz].
  - assert (x ∈ l) by by apply Hp. rewrite decide_False; [by apply rank_lt|]. by intros ->.
  - assert (y ∈ l) as Hyl by set_solver.
    assert (x ∈ l) as Hxl.
    { clear -Ht Hyl HR. induction l as [|w l IH]; [set_solver|].
      destruct Ht as [Hp Ht]. apply elem_of_cons in Hyl as [->|Hyl].
      - right. by apply Hp.
      - right. by apply IH. }
    rewrite decide_False; [by apply IH|]. by intros ->.
Qed.

Lemma topo_pred_in l x y : topo l → y ∈ l → R x y → x ∈ l.
Proof.
  induction l as [|w l IH]; [set_solver|]. intros [Hp Ht] [->|Hy]%elem_of_cons HR.
  - right. by apply Hp.
  - right. by apply IH.
Qed.

(** A topological order excludes cycles through its elements. *)
Lemma topo_acyclic l x : NoDup l → topo l → x ∈ l → ¬ tc R x x.
Proof.
  intros Hnd Ht Hx Htc.
  assert (∀ a b, tc R a b → b ∈ l → a ∈ l ∧ rank l a < rank l b) as Hrank.
  { clear x Hx Htc. intros a b Htc. induction Htc as [a b HR|a b c HR Htc IH]; intros Hb.
    - split; [by eapply topo_pred_in|]. by apply topo_rank.
    - destruct (IH Hb) as [Hbl ?]. split; [by eapply topo_pred_in|].
      etrans; [|done]. by apply topo_rank. }
  destruct (Hrank x x Htc Hx). lia.
Qed.

(** Paths that end in a topologically ordered list are shorter than it. *)
Lemma topo_nsteps l n x y : NoDup l → topo l → y ∈ l → nsteps R n x y → n + rank l x <= rank l y.
Proof.
  intros Hnd Ht Hy Hsteps. revert Hy.
  induction Hsteps as [x|n x z y HR Hs IH]; intros Hy; [lia|].
  assert (z ∈ l) as Hz.
  { clear IH HR. induction Hs as [|n a b c HR Hs IH]; [done|].
    eapply (topo_pred_in _ a b); [done|by apply IH|done]. }
  pose proof (topo_rank l x z Hnd Ht Hz HR). specialize (IH Hy). lia.
Qed.

Lemma topo_nsteps_lt l n x y : NoDup l → topo l → y ∈ l → nsteps R n x y → n < length l.
Proof.
  intros Hnd Ht Hy Hs. pose proof (topo_nsteps l n x y Hnd Ht Hy Hs).
  pose proof (rank_lt l y Hy). lia.
Qed.

(** Every element is reached from an element without predecessors. *)
Lemma topo_from_source l x :
  (∀ x, (∃ y, R y x) ∨ ¬ ∃ y, R y x) →
  topo l → x ∈ l → ∃ s, s ∈ l ∧ (¬ ∃ y, R y s) ∧ rtc R s x.
Proof.
  intros Hdec. revert x. induction l as [|z l IH]; [set_solver|].
  intros x [Hp Ht] Hx.
  assert (∀ y, y ∈ l → ∃ s, s ∈ z :: l ∧ (¬ ∃ y, R y s) ∧ rtc R s y) as IH'.
  { intros y Hy. destruct (IH y Ht Hy) as (s & ? & ? & ?). exists s. set_solver. }
  apply elem_of_cons in Hx as [->|Hx]; [|by apply IH'].
  destruct (Hdec z) as [[y HR]|Hn]; [|exists z; set_solver].
  destruct (IH' y) as (s & ? & ? & ?); [by apply Hp|].
  exists s. split_and!; [done..|]. by eapply rtc_r.
Qed.

End FiniteRelation.
