(* ===== verification/Plan.v ===== *)
(** * Execution plans (internal/runtime/plan.go)

    The graph of nodes a run executes.  A Go [*Node] is the node's identifier
    and [p_nodeByID] is the store the pointers refer to, so that the slice of
    nodes, the name index and the edges share the nodes as they do in Go. *)

From stdpp Require Import gmap strings list relations.
From Stdlib Require Import ZArith Lia.
From S2P Require Import Prelude Status Step Exec Node Graph.
Open Scope err_scope.

Inductive PlanError := ErrCyclicPlan | ErrMissingNode (name : string).

Record Plan := mkPlan {
  p_startedAt : Time;
  p_finishedAt : Time;
  p_nodes : list Z;
  p_nodeByID : gmap Z Node;
  p_nodeByName : gmap string Z;
  DependencyMap : gmap Z (list Z);
  DependantMap : gmap Z (list Z);
}.

Definition emptyPlan (now : Time) : Plan := mkPlan now 0 [] ∅ ∅ ∅ ∅.

(** ** Accessors *)
Definition GetNode (p : Plan) (id : Z) : option Node := p_nodeByID p !! id.
Definition GetNodeByName (p : Plan) (name : string) : option Z := p_nodeByName p !! name.
Definition Dependencies (p : Plan) (id : Z) : list Z := default [] (DependencyMap p !! id).
Definition Dependents (p : Plan) (id : Z) : list Z := default [] (DependantMap p !! id).

#[global] Arguments GetNode : simpl never.
#[global] Arguments Dependencies : simpl never.
#[global] Arguments Dependents : simpl never.

(** The nodes in plan order. *)
Definition Nodes (p : Plan) : list Node := omap (GetNode p) (p_nodes p).

(** Mutating a node through its pointer. *)
Definition update_node (id : Z) (f : Node → Node) (p : Plan) : Plan :=
  {| p with p_nodeByID := alter f id (p_nodeByID p) |}.

(** ** Construction *)
Definition addNode (node : Node) (p : Plan) : Plan :=
  {| p with
     p_nodeByID := <[n_id node := node]> (p_nodeByID p);
     p_nodeByName := <[Name node := n_id node]> (p_nodeByName p);
     p_nodes := p_nodes p ++ [n_id node] |}.

Definition addEdge (from to : Z) (p : Plan) : Plan :=
  {| p with
     DependantMap := <[from := Dependents p from ++ [to]]> (DependantMap p);
     DependencyMap := <[to := Dependencies p to ++ [from]]> (DependencyMap p) |}.

(** ** Cycle detection: Kahn's algorithm

    The inner loop over the dependants of the node taken from the queue. *)
Fixpoint kahn_inner (inDegrees : gmap Z Z) (queue vs : list Z) : gmap Z Z * list Z :=
  match vs with
  | [] => (inDegrees, queue)
  | v :: vs' =>
      let d := (default 0 (inDegrees !! v) - 1)%Z in
      kahn_inner (<[v := d]> inDegrees) (if (d =? 0)%Z then queue ++ [v] else queue) vs'
  end.

(** The outer loop; [None] when the fuel runs out, which [Kahn.kahn_loop_spec]
    excludes. *)
Fixpoint kahn_loop (fuel : nat) (p : Plan) (inDegrees : gmap Z Z) (queue : list Z)
    (processedCount : Z) : option Z :=
  match queue with
  | [] => Some processedCount
  | u :: queue' =>
      match fuel with
      | 0 => None
      | S fuel' =>
          let '(d, q) := kahn_inner inDegrees queue' (Dependents p u) in
          kahn_loop fuel' p d q (processedCount + 1)
      end
  end.

Definition kahn_degrees (p : Plan) : gmap Z Z := (λ deps, Z.of_nat (length deps)) <$> DependencyMap p.

Definition kahn_queue (p : Plan) : list Z :=
  filter (λ id, default 0 (kahn_degrees p !! id) = 0)%Z (p_nodes p).

Definition kahn (p : Plan) : option Z :=
  kahn_loop (length (p_nodes p)) p (kahn_degrees p) (kahn_queue p) 0.

Definition isCyclic (p : Plan) : bool :=
  match kahn p with
  | Some processedCount => negb (processedCount =? Z.of_nat (length (p_nodes p)))%Z
  | None => true
  end.

(** ** Edges *)
Definition node_depends (p : Plan) (id : Z) : list string :=
  match GetNode p id with Some n => st_Depends (n_Step n) | None => [] end.

Definition buildEdges_node (p : Plan) (id : Z) : PlanError + Plan :=
  foldE (λ p depName,
    match p_nodeByName p !! depName with
    | None => inl (ErrMissingNode depName)
    | Some dep => inr (addEdge dep id p)
    end) p (node_depends p id).

Definition buildEdges (p : Plan) : PlanError + Plan :=
  let? p := foldE buildEdges_node p (p_nodes p) in
  if isCyclic p then inl ErrCyclicPlan else inr p.

(** [node.Init()] and [p.addNode(node)] for each node, threading the counter
    of node identifiers. *)
Fixpoint addNodes (p : Plan) (nextNodeID : Z) (nodes : list Node) : Plan * Z :=
  match nodes with
  | [] => (p, nextNodeID)
  | n :: rest =>
      let '(n, next) := Init n nextNodeID in
      addNodes (addNode n p) next rest
  end.

Definition NewPlanFromNodes (now : Time) (nextNodeID : Z) (nodes : list Node) : PlanError + Plan :=
  buildEdges (addNodes (emptyPlan now) nextNodeID nodes).1.

Definition NewPlan (now : Time) (nextNodeID : Z) (steps : list Step) : PlanError + Plan :=
  NewPlanFromNodes now nextNodeID (map (λ s, NewNode s NodeState_zero) steps).

(** ** Retry plans *)
Definition stepsByName (steps : list Step) : gmap string Step :=
  foldl (λ m s, <[st_Name s := s]> m) ∅ steps.

Fixpoint rebindRetryNodesToSteps (nodes : list Node) (steps : gmap string Step)
    : PlanError + list Node :=
  match nodes with
  | [] => inr []
  | n :: rest =>
      match steps !! Name n with
      | None => inl (ErrMissingNode (Name n))
      | Some step =>
          let? rest := rebindRetryNodesToSteps rest steps in
          inr (SetStep step n :: rest)
      end
  end.

(** Statuses that make a retry re-run the node. *)
Definition retryable (s : NodeStatus) : bool :=
  bool_decide (s = NodeFailed) || bool_decide (s = NodeRetrying) ||
  bool_decide (s = NodeAborted) || bool_decide (s = NodeRejected).

(** The state of the traversal of [setupRetry]: the plan whose nodes are
    cleared, the [toRetry] marks and the next frontier. *)
Record RetryState := mkRetryState {
  rs_plan : Plan;
  rs_toRetry : gset Z;
  rs_next : list Z;
}.

Definition setupRetry_visit (steps : gmap string Step) (nodeStatus : gmap Z NodeStatus)
    (s : RetryState) (u : Z) : PlanError + RetryState :=
  let shouldRetry :=
    bool_decide (u ∈ rs_toRetry s) || retryable (default NodeNotStarted (nodeStatus !! u)) in
  let? s :=
    (if shouldRetry then
       match GetNode (rs_plan s) u with
       | None => inr {| s with rs_toRetry := {[u]} ∪ rs_toRetry s |} (* not a plan node *)
       | Some node =>
           match steps !! Name node with
           | None => inl (ErrMissingNode (Name node))
           | Some step =>
               inr {| s with rs_plan := update_node u (ClearState step) (rs_plan s);
                             rs_toRetry := {[u]} ∪ rs_toRetry s |}
           end
       end
     else inr s) in
  let children := Dependents (rs_plan s) u in
  inr {| s with
    rs_toRetry := if bool_decide (u ∈ rs_toRetry s)
                  then list_to_set children ∪ rs_toRetry s else rs_toRetry s;
    rs_next := rs_next s ++ children |}.

(** The layers; [None] when the fuel runs out, which an acyclic plan excludes. *)
Fixpoint setupRetry_loop (fuel : nat) (steps : gmap string Step)
    (nodeStatus : gmap Z NodeStatus) (p : Plan) (toRetry : gset Z) (frontier : list Z)
    : option (PlanError + (Plan * gset Z)) :=
  match frontier with
  | [] => Some (inr (p, toRetry))
  | _ :: _ =>
      match fuel with
      | 0 => None
      | S fuel' =>
          match foldE (setupRetry_visit steps nodeStatus) (mkRetryState p toRetry []) frontier with
          | inl e => Some (inl e)
          | inr s => setupRetry_loop fuel' steps nodeStatus (rs_plan s) (rs_toRetry s) (rs_next s)
          end
      end
  end.

Definition retry_frontier (p : Plan) : list Z :=
  filter (λ id, Dependencies p id = []) (p_nodes p).

Definition setupRetry (steps : gmap string Step) (p : Plan) : option (PlanError + (Plan * gset Z)) :=
  setupRetry_loop (length (p_nodes p)) steps (Node_Status <$> p_nodeByID p) p ∅ (retry_frontier p).

(** [CreateRetryPlan]; [None] when the traversal did not finish. *)
Definition CreateRetryPlan (now : Time) (nextNodeID : Z) (dagSteps : list Step) (nodes : list Node)
    : option (PlanError + Plan) :=
  let steps := stepsByName dagSteps in
  match rebindRetryNodesToSteps nodes steps with
  | inl e => Some (inl e)
  | inr nodes =>
      match NewPlanFromNodes now nextNodeID nodes with
      | inl e => Some (inl e)
      | inr p =>
          match setupRetry steps p with
          | None => None
          | Some (inl e) => Some (inl e)
          | Some (inr (p, _)) => Some (inr p)
          end
      end
  end.

Definition CreateStepRetryPlan (now : Time) (nextNodeID : Z) (dagSteps : list Step)
    (nodes : list Node) (stepName : string) : PlanError + Plan :=
  let steps := stepsByName dagSteps in
  let? nodes := rebindRetryNodesToSteps nodes steps in
  let? p := NewPlanFromNodes now nextNodeID nodes in
  match GetNodeByName p stepName with
  | None => inl (ErrMissingNode stepName)
  | Some id =>
      match GetNode p id with
      | None => inl (ErrMissingNode stepName)
      | Some target =>
          let preserveRetryBudget := bool_decide (Node_Status target = NodeRetrying) in
          match steps !! Name target with
          | None => inl (ErrMissingNode (Name target))
          | Some step =>
              let retryCount := GetRetryCount target in
              inr (update_node id (λ n,
                let n := SetRetryCount retryCount (ClearState step n) in
                if preserveRetryBudget then n
                else {| n with n_retryPolicy := NodeRetryPolicy_zero |}) p)
          end
      end
  end.

(** ** Plan status *)
Record PlanNodeStates := mkPlanNodeStates {
  HasRunning : bool;
  HasRetrying : bool;
  HasWaiting : bool;
  HasNotStarted : bool;
  HasRejected : bool;
}.

Definition statuses (p : Plan) : list NodeStatus := Node_Status <$> Nodes p.

Definition NodeStates (p : Plan) : PlanNodeStates :=
  foldl (λ st s,
    match s with
    | NodeRunning => {| st with HasRunning := true |}
    | NodeRetrying => {| st with HasRetrying := true |}
    | NodeWaiting => {| st with HasWaiting := true |}
    | NodeNotStarted => {| st with HasNotStarted := true |}
    | NodeRejected => {| st with HasRejected := true |}
    | NodeSucceeded | NodeFailed | NodeAborted | NodeSkipped | NodePartiallySucceeded => st
    end) (mkPlanNodeStates false false false false false) (statuses p).

Definition IsStarted (p : Plan) : bool := negb (IsZero (p_startedAt p)).
Definition IsFinished (p : Plan) : bool := negb (IsZero (p_finishedAt p)).
Definition Plan_Finish (now : Time) (p : Plan) : Plan := {| p with p_finishedAt := now |}.

Definition HasActiveNodes (p : Plan) : bool :=
  existsb (λ s, bool_decide (s = NodeRunning) || bool_decide (s = NodeRetrying)) (statuses p).

Definition IsRunning (p : Plan) : bool :=
  existsb (λ s,
    bool_decide (s = NodeRunning) || bool_decide (s = NodeRetrying) ||
    (bool_decide (s = NodeNotStarted) && IsZero (p_finishedAt p))) (statuses p).

Definition CheckFinished (p : Plan) : bool :=
  negb (existsb (λ s,
    bool_decide (s = NodeRunning) || bool_decide (s = NodeRetrying) ||
    bool_decide (s = NodeNotStarted)) (statuses p)).

Definition WaitingStepNames (p : Plan) : list string :=
  Name <$> filter (λ n, Node_Status n = NodeWaiting) (Nodes p).
