(* ===== verification/PlanWf.v ===== *)
(** * Well-formed plans

    The invariant of the plan structure and that construction establishes it:
    node identifiers are unique, the store holds exactly the listed nodes,
    and the two adjacency maps are transposes of each other. *)

From stdpp Require Import gmap strings list relations.
From Stdlib Require Import ZArith Lia.
From S2P Require Import Prelude Status Step Exec Node Graph Plan.

Record plan_wf (p : Plan) : Prop := {
  wf_nodup : NoDup (p_nodes p);
  wf_store : ∀ id, id ∈ p_nodes p ↔ is_Some (GetNode p id);
  wf_id : ∀ id n, GetNode p id = Some n → n_id n = id;
  wf_name : ∀ name id, p_nodeByName p !! name = Some id →
              ∃ n, GetNode p id = Some n ∧ Name n = name;
  wf_transpose : ∀ u v, cnt v (Dependents p u) = cnt u (Dependencies p v);
  wf_edge_in : ∀ u v, u ∈ Dependencies p v → u ∈ p_nodes p ∧ v ∈ p_nodes p;
}.

(** [u] is a direct dependency of [v]. *)
Definition edge (p : Plan) (u v : Z) : Prop := u ∈ Dependencies p v.

Lemma edge_dependents p u v : plan_wf p → edge p u v ↔ v ∈ Dependents p u.
Proof. intros Hwf. unfold edge. by rewrite <-!cnt_pos, wf_transpose. Qed.

Lemma Dependents_empty now u : Dependents (emptyPlan now) u = [].
Proof. unfold Dependents; simpl. by rewrite lookup_empty. Qed.

Lemma Dependencies_empty now u : Dependencies (emptyPlan now) u = [].
Proof. unfold Dependencies; simpl. by rewrite lookup_empty. Qed.

Lemma emptyPlan_wf now : plan_wf (emptyPlan now).
Proof.
  split; simpl.
  - constructor.
  - intros id. unfold GetNode; simpl. rewrite lookup_empty. split; [set_solver|by intros []].
  - intros id n. unfold GetNode; simpl. by rewrite lookup_empty.
  - intros name id. by rewrite lookup_empty.
  - intros u v. by rewrite Dependents_empty, Dependencies_empty.
  - intros u v. rewrite Dependencies_empty. set_solver.
Qed.

(** ** Adding nodes *)
Lemma Dependencies_addNode n p id : Dependencies (addNode n p) id = Dependencies p id.
Proof. done. Qed.
Lemma Dependents_addNode n p id : Dependents (addNode n p) id = Dependents p id.
Proof. done. Qed.

Lemma addNode_wf n p : plan_wf p → n_id n ∉ p_nodes p → plan_wf (addNode n p).
Proof.
  intros Hwf Hfresh. assert (GetNode p (n_id n) = None) as Hnone.
  { apply eq_None_not_Some. by rewrite <-wf_store by done. }
  split; simpl.
  - apply NoDup_app. split_and!; [apply Hwf| |apply NoDup_singleton]. set_solver.
  - intros id. unfold GetNode; simpl. destruct (decide (id = n_id n)) as [->|Hne].
    + rewrite lookup_insert_eq. split; [eauto|]. set_solver.
    + rewrite lookup_insert_ne by done. rewrite elem_of_app, list_elem_of_singleton.
      pose proof (wf_store p Hwf id). unfold GetNode in *. naive_solver.
  - intros id m. unfold GetNode; simpl. destruct (decide (id = n_id n)) as [->|Hne].
    + rewrite lookup_insert_eq. by intros [= ->].
    + rewrite lookup_insert_ne by done. apply (wf_id p Hwf).
  - intros name id. unfold GetNode; simpl. destruct (decide (name = Name n)) as [->|Hn].
    + rewrite lookup_insert_eq. intros [= <-]. rewrite lookup_insert_eq. eauto.
    + rewrite lookup_insert_ne by done. intros (m & Hm & Hname)%(wf_name p Hwf).
      exists m. split; [|done]. rewrite lookup_insert_ne; [done|].
      intros <-. unfold GetNode in *. congruence.
  - intros u v. rewrite Dependents_addNode, Dependencies_addNode. by apply wf_transpose.
  - intros u v. rewrite Dependencies_addNode. intros [? ?]%(wf_edge_in p Hwf).
    set_solver.
Qed.

(** Node identifiers given to [addNodes]: the ones already set are distinct
    and below the counter. *)
Definition ids_ok (nextNodeID : Z) (nodes : list Node) : Prop :=
  (0 < nextNodeID)%Z ∧
  NoDup (filter (λ id, id ≠ 0%Z) (n_id <$> nodes)) ∧
  (∀ n, n ∈ nodes → (n_id n < nextNodeID)%Z).

Lemma ids_ok_fresh next steps :
  (0 < next)%Z → ids_ok next (map (λ s, NewNode s NodeState_zero) steps).
Proof.
  intros Hn. split_and!; [done| |].
  - induction steps as [|s l IH]; simpl; [constructor|]. by rewrite filter_cons_False by naive_solver.
  - intros n (s & -> & _)%list_elem_of_fmap. done.
Qed.

Lemma addNodes_wf nodes : ∀ p next,
  plan_wf p → ids_ok next nodes →
  (∀ id, id ∈ p_nodes p → id ≠ 0%Z ∧ (id < next)%Z ∧ id ∉ (n_id <$> nodes)) →
  plan_wf (addNodes p next nodes).1.
Proof.
  induction nodes as [|n nodes IH]; intros p next Hwf (Hpos & Hnd & Hlt) Hids; simpl; [done|].
  unfold Init. destruct (n_id n =? 0)%Z eqn:E; breflect.
  - apply IH.
    + apply addNode_wf; [done|]. simpl. intros Hin. destruct (Hids _ Hin) as (_ & ? & _). lia.
    + split_and!; [lia| |].
      * simpl in Hnd. by rewrite filter_cons_False in Hnd by naive_solver.
      * intros m Hm. specialize (Hlt m). set_solver by lia.
    + simpl. intros id [Hin|Hid%list_elem_of_singleton]%elem_of_app.
      * destruct (Hids _ Hin) as (? & ? & ?). simpl in *. set_solver by lia.
      * subst id. split_and!; [lia|lia|]. intros (m & Hm & Hin)%list_elem_of_fmap.
        specialize (Hlt m). simpl in *. set_solver by lia.
  - apply IH.
    + apply addNode_wf; [done|]. intros Hin. destruct (Hids _ Hin) as (_ & _ & Hn).
      apply Hn. simpl. by left.
    + simpl in Hnd. rewrite filter_cons_True in Hnd by done. apply NoDup_cons in Hnd as [_ ?].
      split_and!; [lia|done|]. intros m Hm. apply Hlt. by right.
    + simpl in *. rewrite filter_cons_True in Hnd by done. apply NoDup_cons in Hnd as [Hnin Hnd].
      intros id [Hin|Hid%list_elem_of_singleton]%elem_of_app.
      * destruct (Hids _ Hin) as (? & ? & ?). set_solver.
      * subst id. split_and!; [done|apply Hlt; by left|].
        intros Hin. apply Hnin. by apply list_elem_of_filter.
Qed.

(** ** Adding edges *)
Lemma Dependents_addEdge from to p u :
  Dependents (addEdge from to p) u =
    if decide (from = u) then Dependents p u ++ [to] else Dependents p u.
Proof.
  unfold Dependents, addEdge; simpl. rewrite lookup_insert. by case_decide; subst.
Qed.

Lemma Dependencies_addEdge from to p v :
  Dependencies (addEdge from to p) v =
    if decide (to = v) then Dependencies p v ++ [from] else Dependencies p v.
Proof.
  unfold Dependencies, addEdge; simpl. rewrite lookup_insert. by case_decide; subst.
Qed.

Lemma addEdge_wf from to p :
  plan_wf p → from ∈ p_nodes p → to ∈ p_nodes p → plan_wf (addEdge from to p).
Proof.
  intros Hwf Hf Ht. split; try apply Hwf.
  - intros u v. rewrite Dependents_addEdge, Dependencies_addEdge.
    pose proof (wf_transpose p Hwf u v).
    repeat case_decide; rewrite ?cnt_app, ?cnt_cons, ?cnt_nil;
      repeat case_decide; subst; try congruence; lia.
  - intros u v. rewrite Dependencies_addEdge. pose proof (wf_edge_in p Hwf u v).
    case_decide; set_solver.
Qed.

(** The fields an edge leaves alone. *)
Definition same_nodes (p q : Plan) : Prop :=
  p_nodes q = p_nodes p ∧ p_nodeByID q = p_nodeByID p ∧ p_nodeByName q = p_nodeByName p ∧
  p_startedAt q = p_startedAt p ∧ p_finishedAt q = p_finishedAt p.

#[export] Instance same_nodes_preorder : PreOrder same_nodes.
Proof.
  split; [by intros p|]. intros p q r (?&?&?&?&?) (?&?&?&?&?).
  split_and!; congruence.
Qed.

(** Inner loop of [buildEdges]: the dependency names of one node. *)
Lemma buildEdges_names_spec (id : Z) (names : list string) : ∀ p p',
  plan_wf p → id ∈ p_nodes p →
  foldE (λ p depName,
    match p_nodeByName p !! depName with
    | None => inl (ErrMissingNode depName)
    | Some dep => inr (addEdge dep id p)
    end) p names = inr p' →
  plan_wf p' ∧ same_nodes p p' ∧
  (∃ ds, Forall2 (λ name d, p_nodeByName p !! name = Some d) names ds ∧
         Dependencies p' id = Dependencies p id ++ ds) ∧
  (∀ v, v ≠ id → Dependencies p' v = Dependencies p v).
Proof.
  induction names as [|name names IH]; intros p p' Hwf Hid; simpl.
  { intros [= <-]. split_and!; [done..| |done]. exists []. by rewrite app_nil_r. }
  destruct (p_nodeByName p !! name) as [d|] eqn:Hd; [|done]. intros Hf.
  assert (d ∈ p_nodes p) as Hdin.
  { apply (wf_name p Hwf) in Hd as (n & Hn & _). apply (wf_store p Hwf). eauto. }
  destruct (IH _ _ (addEdge_wf d id p Hwf Hdin Hid) Hid Hf) as (Hwf' & Hs & (ds & HF & Hds) & Ho).
  split_and!; [done|done| |].
  - exists (d :: ds). split; [by constructor|].
    rewrite Hds, Dependencies_addEdge, decide_True by done. by rewrite <-app_assoc.
  - intros v Hv. rewrite Ho, Dependencies_addEdge, decide_False by done. done.
Qed.

Lemma node_depends_same p q id : same_nodes p q → node_depends q id = node_depends p id.
Proof. intros (_&H&_). unfold node_depends, GetNode. by rewrite H. Qed.

(** Outer loop of [buildEdges]. *)
Lemma buildEdges_loop_spec (ids : list Z) : ∀ p p',
  plan_wf p → NoDup ids → (∀ id, id ∈ ids → id ∈ p_nodes p ∧ Dependencies p id = []) →
  foldE buildEdges_node p ids = inr p' →
  plan_wf p' ∧ same_nodes p p' ∧
  (∀ id, id ∈ ids →
     Forall2 (λ name d, p_nodeByName p !! name = Some d) (node_depends p id) (Dependencies p' id)) ∧
  (∀ v, v ∉ ids → Dependencies p' v = Dependencies p v).
Proof.
  induction ids as [|id ids IH]; intros p p' Hwf Hnd Hin; simpl.
  { intros [= <-]. split_and!; [done..| |done]. set_solver. }
  apply NoDup_cons in Hnd as [Hni Hnd].
  destruct (buildEdges_node p id) as [e|p1] eqn:H1; [done|]. intros Hf.
  destruct (Hin id) as [Hid Hnil]; [by left|].
  apply buildEdges_names_spec in H1 as (Hwf1 & Hs1 & (ds & HF & Hds) & Ho1); [|done|done].
  destruct (IH p1 p' Hwf1 Hnd) as (Hwf' & Hs' & HF' & Ho').
  - intros v Hv. destruct (Hin v) as [? ?]; [by right|].
    destruct Hs1 as [-> _]. split; [done|]. rewrite Ho1; [done|]. by intros ->.
  - done.
  - split_and!; [done|by etrans| |].
    + intros v [->|Hv]%elem_of_cons.
      * rewrite Ho' by done. by rewrite Hds, Hnil.
      * specialize (HF' v Hv). rewrite (node_depends_same p p1) in HF' by done.
        destruct Hs1 as (_&_&Hn&_). by rewrite Hn in HF'.
    + intros v [Hv1 Hv2]%not_elem_of_cons. by rewrite Ho', Ho1.
Qed.
