(* ===== verification/Kahn.v ===== *)
(** * Cycle detection is exact

    [Plan.isCyclic] is Kahn's algorithm: the queue discipline terminates
    within the fuel, and it answers "cyclic" exactly when the dependency
    relation of a well-formed plan has a cycle. *)

From stdpp Require Import gmap strings list relations.
From Stdlib Require Import ZArith Lia.
From S2P Require Import Prelude Status Step Exec Node Graph Plan PlanWf.

Definition deg (m : gmap Z Z) (v : Z) : Z := default 0%Z (m !! v).

Lemma deg_insert m v d w : deg (<[v := d]> m) w = if decide (v = w) then d else deg m w.
Proof. unfold deg. rewrite lookup_insert. by case_decide. Qed.

(** The inner loop subtracts the number of edges to each node and appends,
    once each, the nodes whose count reaches zero. *)
Lemma kahn_inner_spec (vs : list Z) : ∀ m q,
  (∀ v, (Z.of_nat (cnt v vs) <= deg m v)%Z ∨ v ∉ vs) →
  ∃ new, (kahn_inner m q vs).2 = q ++ new ∧ NoDup new ∧
    (∀ v, deg (kahn_inner m q vs).1 v = (deg m v - Z.of_nat (cnt v vs))%Z) ∧
    (∀ v, v ∈ new ↔ v ∈ vs ∧ deg (kahn_inner m q vs).1 v = 0%Z).
Proof.
  induction vs as [|x vs IH]; intros m q Hle.
  { exists []. simpl. rewrite app_nil_r. split_and!; [done|constructor| |].
    - intros v. rewrite cnt_nil. lia.
    - set_solver. }
  simpl. change (default 0%Z (m !! x)) with (deg m x).
  set (m' := <[x := (deg m x - 1)%Z]> m).
  assert (∀ v, (Z.of_nat (cnt v vs) <= deg m' v)%Z ∨ v ∉ vs) as Hle'.
  { intros v. unfold m'. rewrite deg_insert. specialize (Hle v). rewrite cnt_cons in Hle.
    destruct (decide (v ∈ vs)); [|by right]. left.
    destruct Hle as [Hle|Hle]; [|set_solver]. repeat case_decide; try congruence; subst; lia. }
  destruct (IH m' (if (deg m x - 1 =? 0)%Z then q ++ [x] else q) Hle') as (new & Hq & Hnd & Hd & Hn).
  destruct (kahn_inner m' _ vs) as [m1 q1] eqn:Hk. simpl in *.
  assert (∀ v, deg m1 v = (deg m v - Z.of_nat (cnt v (x :: vs)))%Z) as Hd'.
  { intros v. rewrite Hd, cnt_cons. unfold m'. rewrite deg_insert.
    repeat case_decide; try congruence; subst; lia. }
  specialize (Hle x). rewrite cnt_cons, decide_True in Hle by done.
  destruct Hle as [Hle|Hle]; [|set_solver].
  destruct (deg m x - 1 =? 0)%Z eqn:E; breflect.
  - assert (cnt x vs = 0) as Hc0 by lia. apply cnt_zero in Hc0.
    exists (x :: new). split_and!.
    + by rewrite Hq, <-app_assoc.
    + constructor; [|done]. rewrite Hn. naive_solver.
    + done.
    + intros v. rewrite !elem_of_cons, Hn. split; [|naive_solver].
      intros [->|[? ?]]; [|naive_solver]. split; [by left|]. rewrite Hd', cnt_cons, decide_True by done.
      apply cnt_zero in Hc0. lia.
  - exists new. split_and!; [done..|]. intros v. rewrite Hn, elem_of_cons. split; [naive_solver|].
    intros [[->|Hv] Hz]; [|done]. split; [|done].
    rewrite Hd', cnt_cons, decide_True in Hz by done. apply cnt_pos. lia.
Qed.

Section Loop.
Context (p : Plan) (Hwf : plan_wf p).

(** Dependencies of [v] that are not yet processed. *)
Definition pending (P : list Z) (v : Z) : list Z := filter (λ u, u ∉ P) (Dependencies p v).

(** The loop invariant: [P] lists the processed nodes, latest first. *)
Record kahn_inv (m : gmap Z Z) (q P : list Z) : Prop := {
  ki_nodup : NoDup (P ++ q);
  ki_mem : ∀ v, v ∈ P ++ q ↔ v ∈ p_nodes p ∧ pending P v = [];
  ki_deg : ∀ v, deg m v = Z.of_nat (length (pending P v));
  ki_topo : topo (edge p) P;
}.

Lemma pending_cons u P v :
  u ∉ P → length (pending P v) = cnt u (Dependencies p v) + length (pending (u :: P) v).
Proof.
  intros Hu. unfold pending. induction (Dependencies p v) as [|x l IH]; [done|].
  rewrite cnt_cons, !filter_cons.
  repeat case_decide; simpl; subst; set_solver by lia.
Qed.

Lemma kahn_init : kahn_inv (kahn_degrees p) (kahn_queue p) [].
Proof.
  assert (∀ v, deg (kahn_degrees p) v = Z.of_nat (length (pending [] v))) as Hd.
  { intros v. unfold deg, kahn_degrees, pending, Dependencies. rewrite lookup_fmap.
    destruct (DependencyMap p !! v) as [l|]; simpl; [|done].
    f_equal. induction l as [|x l IH]; [done|]. rewrite filter_cons_True by set_solver.
    simpl. by rewrite IH. }
  split; simpl; [apply NoDup_filter, Hwf| |done|done].
  intros v. unfold kahn_queue. rewrite list_elem_of_filter.
  change (default 0%Z (kahn_degrees p !! v)) with (deg (kahn_degrees p) v). rewrite Hd.
  destruct (pending [] v); simpl; [naive_solver|]. split; [intros [? _]; lia|naive_solver].
Qed.

Lemma kahn_step m u q P :
  kahn_inv m (u :: q) P →
  kahn_inv (kahn_inner m q (Dependents p u)).1 (kahn_inner m q (Dependents p u)).2 (u :: P).
Proof.
  intros [Hnd Hmem Hdeg Htopo].
  assert ((u ∉ P) ∧ (u ∉ q)) as [HuP Huq].
  { apply NoDup_app in Hnd as (_ & Hdis & Hnd). apply NoDup_cons in Hnd as [? _]. set_solver. }
  assert (∀ v, length (pending P v) = cnt v (Dependents p u) + length (pending (u :: P) v)) as Hlen.
  { intros v. rewrite wf_transpose by done. by apply pending_cons. }
  destruct (kahn_inner_spec (Dependents p u) m q) as (new & Hq & Hndn & Hd & Hn).
  { intros v. left. rewrite Hdeg, Hlen. lia. }
  rewrite Hq.
  assert (∀ v, deg (kahn_inner m q (Dependents p u)).1 v = Z.of_nat (length (pending (u :: P) v))) as Hd'.
  { intros v. rewrite Hd, Hdeg, Hlen. lia. }
  assert (∀ v, v ∈ new ↔ v ∈ Dependents p u ∧ pending (u :: P) v = []) as Hn'.
  { intros v. rewrite Hn, Hd'. destruct (pending (u :: P) v); simpl; [naive_solver|].
    split; [intros [_ ?]; lia|naive_solver]. }
  assert (∀ v, v ∈ new → v ∉ P ++ u :: q) as Hfresh.
  { intros v [Hv Hp]%Hn' Hin. apply Hmem in Hin as [_ Hnil].
    specialize (Hlen v). rewrite Hnil in Hlen. apply cnt_pos in Hv. simpl in Hlen. lia. }
  split; [| |done|].
  - simpl. apply NoDup_cons. split.
    + intros [?|[?|Hin]%elem_of_app]%elem_of_app; [done|done|]. apply Hfresh in Hin. set_solver.
    + apply NoDup_app in Hnd as (? & Hdis & Hndq). apply NoDup_cons in Hndq as [_ Hndq].
      apply NoDup_app. split_and!; [done| |].
      * intros v Hv [?|Hin]%elem_of_app; [set_solver|]. apply Hfresh in Hin. set_solver.
      * apply NoDup_app. split_and!; [done| |done]. intros v Hv Hin. apply Hfresh in Hin. set_solver.
  - intros v. assert (v ∈ (u :: P) ++ q ++ new ↔ v ∈ P ++ u :: q ∨ v ∈ new) as ->.
    { rewrite !elem_of_app, !elem_of_cons, ?elem_of_app. tauto. }
    rewrite Hmem, Hn'. specialize (Hlen v). split.
    + intros [[Hin Hnil]|[Hin Hnil]].
      * split; [done|]. rewrite Hnil in Hlen. destruct (pending (u :: P) v); [done|simpl in Hlen; lia].
      * split; [|done]. apply (edge_dependents p) in Hin; [|done]. by apply (wf_edge_in p Hwf) in Hin as [_ ?].
    + intros [Hin Hnil]. destruct (pending P v) as [|w l] eqn:E; [by left|]. right.
      split; [|done]. rewrite Hnil in Hlen. simpl in Hlen. apply cnt_pos. lia.
  - simpl. split; [|done]. intros y Hy.
    assert (u ∈ P ++ u :: q) as Hu by set_solver. apply Hmem in Hu as [_ Hnil].
    destruct (decide (y ∈ P)) as [|HyP]; [done|].
    assert (y ∈ pending P u) by (apply list_elem_of_filter; done). rewrite Hnil in *. set_solver.
Qed.

Lemma kahn_inv_bound m q P : kahn_inv m q P → length (P ++ q) <= length (p_nodes p).
Proof.
  intros Hi. apply submseteq_length, NoDup_submseteq; [apply Hi|].
  intros v Hv. by apply (ki_mem _ _ _ Hi) in Hv as [? _].
Qed.

(** The loop ends within the fuel, at a state of the invariant. *)
Lemma kahn_loop_spec fuel : ∀ m q P,
  kahn_inv m q P → length (p_nodes p) <= fuel + length P →
  ∃ m' P', kahn_inv m' [] P' ∧
    kahn_loop fuel p m q (Z.of_nat (length P)) = Some (Z.of_nat (length P')).
Proof.
  induction fuel as [|fuel IH]; intros m q P Hi Hf.
  - destruct q as [|u q]; [by exists m, P|].
    pose proof (kahn_inv_bound _ _ _ Hi) as Hb. rewrite length_app in Hb. simpl in Hb. lia.
  - destruct q as [|u q]; [by exists m, P|]. simpl.
    pose proof (kahn_step _ _ _ _ Hi) as Hi'.
    destruct (kahn_inner m q (Dependents p u)) as [m1 q1]. simpl in Hi'.
    destruct (IH m1 q1 (u :: P) Hi') as (m' & P' & Hinv & Hl); [simpl; lia|].
    exists m', P'. split; [done|]. rewrite <-Hl. f_equal. simpl. lia.
Qed.

Lemma kahn_spec : ∃ m P, kahn_inv m [] P ∧ kahn p = Some (Z.of_nat (length P)).
Proof.
  destruct (kahn_loop_spec (length (p_nodes p)) _ _ [] kahn_init) as (m & P & Hi & Hl);
    [simpl; lia|]. by exists m, P.
Qed.

(** When the answer is "acyclic", all nodes are in topological order. *)
Lemma isCyclic_false_order :
  isCyclic p = false → ∃ P, P ≡ₚ p_nodes p ∧ topo (edge p) P.
Proof.
  intros Hc. destruct kahn_spec as (m & P & Hi & Hk).
  unfold isCyclic in Hc. rewrite Hk in Hc. breflect.
  exists P. split; [|apply Hi].
  assert (NoDup P) as HndP by (pose proof (ki_nodup _ _ _ Hi) as Hn; by rewrite app_nil_r in Hn).
  assert (∀ v, v ∈ P → v ∈ p_nodes p) as Hsub.
  { intros v Hv. apply (ki_mem _ _ _ Hi). by rewrite app_nil_r. }
  apply submseteq_length_Permutation; [by apply NoDup_submseteq|lia].
Qed.

Lemma isCyclic_or_cycle : isCyclic p = false ∨ ∃ x, tc (edge p) x x.
Proof.
  destruct (kahn_spec) as (m & P & Hi & Hk).
  set (U := filter (λ v, v ∉ P) (p_nodes p)).
  destruct (decide (U = [])) as [HU|Hne]; [left|right].
  - unfold isCyclic. rewrite Hk. apply negb_false_iff, Z.eqb_eq. f_equal.
    apply Nat.le_antisymm.
    + pose proof (kahn_inv_bound _ _ _ Hi) as Hb. by rewrite app_nil_r in Hb.
    + apply submseteq_length, NoDup_submseteq; [apply Hwf|].
      intros v Hv. destruct (decide (v ∈ P)) as [|HvP]; [done|].
      assert (v ∈ U) by by apply list_elem_of_filter. rewrite HU in *. set_solver.
  - apply (no_source_cycle (edge p) U Hne).
    intros x [HxP Hx]%list_elem_of_filter.
    assert (pending P x ≠ []) as Hp.
    { intros Hp. apply HxP. rewrite <-(app_nil_r P). by apply (ki_mem _ _ _ Hi). }
    destruct (pending P x) as [|y l] eqn:E; [done|]. exists y.
    assert (y ∈ pending P x) as [HyP Hy]%list_elem_of_filter by (rewrite E; by left).
    split; [|done]. apply list_elem_of_filter. split; [done|].
    by apply (wf_edge_in p Hwf) in Hy as [? _].
Qed.

Lemma isCyclic_false_acyclic x : isCyclic p = false → ¬ tc (edge p) x x.
Proof.
  intros Hc Htc. destruct (isCyclic_false_order Hc) as (P & HP & Htopo).
  assert (x ∈ P) as Hx.
  { rewrite HP. assert (∀ a b, tc (edge p) a b → b ∈ p_nodes p) as Hb.
    { induction 1 as [a b He|]; [|done]. by apply (wf_edge_in p Hwf) in He as [_ ?]. }
    by eapply Hb. }
  eapply (topo_acyclic (edge p) P); [|done..]. rewrite HP. apply Hwf.
Qed.

End Loop.

(** C37. The queue loop of [isCyclic] never runs out of its fuel (one iteration
    per node), and the plan is reported cyclic exactly when some node depends
    on itself through a chain of dependencies. *)
Theorem isCyclic_correct (p : Plan) (Hwf : plan_wf p) :
  is_Some (kahn p) ∧ (isCyclic p = true ↔ ∃ x, tc (edge p) x x).
Proof.
  split; [destruct (kahn_spec p Hwf) as (? & ? & _ & ->); eauto|]. split.
  - intros Hc. destruct (isCyclic_or_cycle p Hwf); [congruence|done].
  - intros [x Hx]. destruct (isCyclic p) eqn:E; [done|].
    by destruct (isCyclic_false_acyclic p Hwf x E).
Qed.
