(* ===== verification/PlanBuild.v ===== *)
(** * Building a plan

    What [NewPlanFromNodes] and [NewPlan] return: a well-formed acyclic plan
    whose nodes are the given ones and whose edges are the declared
    dependencies, or the error that the steps call for. *)

From stdpp Require Import gmap strings list relations.
From Stdlib Require Import ZArith Lia.
From S2P Require Import Prelude Status Step Exec Node Graph Plan PlanWf Kahn.

(** A node as [addNodes] stores it: the given one up to its identifier. *)
Definition same_node (n m : Node) : Prop :=
  n_Step m = n_Step n ∧ n_State m = n_State n ∧ n_retryPolicy m = n_retryPolicy n ∧
  n_cmd m = n_cmd n ∧ n_done m = n_done n ∧ n_stdoutFile m = n_stdoutFile n.

Lemma Init_same n next : same_node n (Init n next).1.
Proof. unfold Init. by case_match. Qed.

Lemma same_node_Name n m : same_node n m → Name m = Name n.
Proof. intros [H _]. unfold Name. by rewrite H. Qed.

Lemma GetNode_addNode_ne n p id : id ≠ n_id n → GetNode (addNode n p) id = GetNode p id.
Proof. intros H. unfold GetNode; simpl. by rewrite lookup_insert_ne. Qed.

Lemma GetNode_addNode_eq n p : GetNode (addNode n p) (n_id n) = Some n.
Proof. unfold GetNode; simpl. by rewrite lookup_insert_eq. Qed.

(** The identifier [Init] leaves a node with is new to the plan. *)
Lemma Init_fresh n nodes p next :
  ids_ok next (n :: nodes) →
  (∀ id, id ∈ p_nodes p → id ≠ 0%Z ∧ (id < next)%Z ∧ id ∉ (n_id <$> n :: nodes)) →
  let '(n', next') := Init n next in
  ids_ok next' nodes ∧ (n_id n' ∉ p_nodes p) ∧ n_id n' ≠ 0%Z ∧ (n_id n' < next')%Z ∧
  (n_id n' ∉ (n_id <$> nodes)) ∧ (next <= next')%Z.
Proof.
  intros (Hpos & Hnd & Hb) Hids. simpl in Hnd. unfold Init.
  destruct (n_id n =? 0)%Z eqn:E; breflect; simpl.
  - rewrite filter_cons_False in Hnd by naive_solver.
    assert (∀ m, m ∈ nodes → (n_id m < next)%Z) as Hb' by (intros m Hm; apply Hb; by right).
    split; [split_and!; [lia|done|]|split_and!; try lia].
    + intros m Hm. specialize (Hb' m Hm). lia.
    + intros Hin. destruct (Hids _ Hin) as (_ & ? & _). lia.
    + intros (m & Hm & Hin)%list_elem_of_fmap. specialize (Hb' m Hin). lia.
  - rewrite filter_cons_True in Hnd by done. apply NoDup_cons in Hnd as [Hni Hnd].
    split; [split_and!; [lia|done|]|split_and!; try lia].
    + intros m Hm. apply Hb. by right.
    + intros Hin. destruct (Hids _ Hin) as (_ & _ & Hx). apply Hx. by left.
    + apply Hb. by left.
    + intros Hin. apply Hni. by apply list_elem_of_filter.
Qed.

(** What [addNodes] adds to the plan: the nodes, in order, under new
    identifiers, and their names. *)
Lemma addNodes_spec nodes : ∀ p next,
  plan_wf p → ids_ok next nodes →
  (∀ id, id ∈ p_nodes p → id ≠ 0%Z ∧ (id < next)%Z ∧ id ∉ (n_id <$> nodes)) →
  let p' := (addNodes p next nodes).1 in
  ∃ ids, p_nodes p' = p_nodes p ++ ids ∧
    Forall2 (λ id n, ∃ m, GetNode p' id = Some m ∧ same_node n m) ids nodes ∧
    (∀ id, id ∈ p_nodes p → GetNode p' id = GetNode p id) ∧
    (∀ name, is_Some (p_nodeByName p' !! name) ↔
             is_Some (p_nodeByName p !! name) ∨ name ∈ (Name <$> nodes)) ∧
    DependencyMap p' = DependencyMap p ∧ DependantMap p' = DependantMap p.
Proof.
  induction nodes as [|n nodes IH]; intros p next Hwf Hok Hids; simpl.
  { exists []. rewrite app_nil_r. split_and!; [done|constructor|done| |done|done]. set_solver. }
  pose proof (Init_same n next) as Hsame.
  pose proof (Init_fresh n nodes p next Hok Hids) as Hfresh.
  destruct (Init n next) as [n' next'] eqn:HI. simpl in *.
  destruct Hfresh as (Hok' & Hfr & Hnz & Hlt & Hnn & Hle).
  destruct (IH (addNode n' p) next') as (ids & Hn & HF & Hold & Hname & Hd1 & Hd2).
  - by apply addNode_wf.
  - done.
  - simpl. intros id [Hin|Hin%list_elem_of_singleton]%elem_of_app; [|subst; done].
    destruct (Hids _ Hin) as (? & ? & ?). split_and!; [done|lia|set_solver].
  - exists (n_id n' :: ids). simpl in *. split_and!; [by rewrite Hn, <-app_assoc| | | |done|done].
    + constructor; [|done]. exists n'. split; [|done]. rewrite Hold; [apply GetNode_addNode_eq|].
      rewrite elem_of_app, list_elem_of_singleton. by right.
    + intros id Hin. rewrite Hold; [|rewrite elem_of_app; by left].
      apply GetNode_addNode_ne. by intros ->.
    + intros name. rewrite Hname. rewrite lookup_insert, (same_node_Name _ _ Hsame), elem_of_cons.
      case_decide; naive_solver.
Qed.

Section NewPlanSpec.
Context (now : Time) (next : Z) (nodes : list Node) (Hok : ids_ok next nodes).

Abbreviation p0 := (addNodes (emptyPlan now) next nodes).1.

Lemma p0_wf : plan_wf p0.
Proof. apply addNodes_wf; [apply emptyPlan_wf|done|]. simpl. set_solver. Qed.

Lemma p0_deps id : Dependencies p0 id = [].
Proof.
  destruct (addNodes_spec nodes (emptyPlan now) next) as (ids & _ & _ & _ & _ & Hd & _);
    [apply emptyPlan_wf|done|set_solver|].
  unfold Dependencies. rewrite Hd. simpl. by rewrite lookup_empty.
Qed.

Lemma buildEdges_missing ids : ∀ p e,
  (∀ id, id ∈ ids → id ∈ p_nodes p) → plan_wf p →
  foldE buildEdges_node p ids = inl e →
  ∃ id d, id ∈ ids ∧ d ∈ node_depends p id ∧ p_nodeByName p !! d = None ∧ e = ErrMissingNode d.
Proof.
  induction ids as [|id ids IH]; intros p e Hin Hwf; simpl; [done|].
  destruct (buildEdges_node p id) as [e1|p1] eqn:H1.
  - intros [= ->]. clear IH. unfold buildEdges_node in H1.
    cut (∃ d, d ∈ node_depends p id ∧ p_nodeByName p !! d = None ∧ e = ErrMissingNode d).
    { intros (d & ? & ? & ?). exists id, d. split; [by left|done]. }
    revert H1. generalize (node_depends p id) as names. intros names.
    assert (p_nodeByName p = p_nodeByName p) as Hp by done. revert Hp.
    generalize p at 1 3. induction names as [|name names IHn]; intros q Hq; simpl; [done|].
    rewrite Hq. destruct (p_nodeByName p !! name) as [d|] eqn:Hd.
    + intros He. destruct (IHn (addEdge d id q) Hq He) as (d' & ? & ? & ?). exists d'. split; [by right|done].
    + intros [= <-]. exists name. split; [by left|done].
  - intros Hf. destruct (buildEdges_names_spec id (node_depends p id) p p1) as (Hwf1 & Hs1 & _ & _);
      [done|apply Hin; by left|done|].
    destruct (IH p1 e) as (v & d & Hv & Hd & Hnone & ->); [|done|done|].
    { intros v Hv. destruct Hs1 as [-> _]. apply Hin. by right. }
    exists v, d. rewrite (node_depends_same p p1) in Hd by done.
    destruct Hs1 as (_&_&Hn&_). rewrite Hn in Hnone. split_and!; [by right|done..].
Qed.

(** The outcomes of [NewPlanFromNodes]. *)
Lemma NewPlanFromNodes_cases :
  match NewPlanFromNodes now next nodes with
  | inr p =>
      plan_wf p ∧ isCyclic p = false ∧ same_nodes p0 p ∧
      (∀ id, id ∈ p_nodes p →
         Forall2 (λ name d, p_nodeByName p !! name = Some d) (node_depends p id) (Dependencies p id))
  | inl (ErrMissingNode d) =>
      ∃ id, id ∈ p_nodes p0 ∧ d ∈ node_depends p0 id ∧ p_nodeByName p0 !! d = None
  | inl ErrCyclicPlan =>
      ∃ p, plan_wf p ∧ same_nodes p0 p ∧ (∃ x, tc (edge p) x x) ∧
      (∀ id, id ∈ p_nodes p →
         Forall2 (λ name d, p_nodeByName p !! name = Some d) (node_depends p id) (Dependencies p id))
  end.
Proof.
  unfold NewPlanFromNodes, buildEdges.
  destruct (foldE buildEdges_node p0 (p_nodes p0)) as [e|p] eqn:Hf.
  - apply buildEdges_missing in Hf as (id & d & ? & ? & ? & ->); [eauto|done|apply p0_wf].
  - destruct (buildEdges_loop_spec (p_nodes p0) p0 p) as (Hwf & Hs & HF & _);
      [apply p0_wf|apply p0_wf| |done|].
    { intros id Hid. split; [done|apply p0_deps]. }
    assert (∀ id, id ∈ p_nodes p →
      Forall2 (λ name d, p_nodeByName p !! name = Some d) (node_depends p id) (Dependencies p id)) as HF'.
    { intros id Hid. rewrite (node_depends_same p0 p) by done.
      pose proof Hs as (Hn & _ & Hnm & _). rewrite Hnm. apply HF. by rewrite <-Hn. }
    destruct (isCyclic p) eqn:Hc; [|done].
    exists p. split_and!; [done..| |done].
    destruct (isCyclic_or_cycle p Hwf); [congruence|done].
Qed.

End NewPlanSpec.

Lemma NewPlan_wf now next steps p :
  (0 < next)%Z → NewPlan now next steps = inr p → plan_wf p ∧ isCyclic p = false.
Proof.
  intros Hn Hp. pose proof (NewPlanFromNodes_cases now next _ (ids_ok_fresh next steps Hn)) as Hc.
  unfold NewPlan in Hp. rewrite Hp in Hc. by destruct Hc as (? & ? & _).
Qed.

(** ** Plans from steps *)

(** The dependency relation between step names that the steps declare. *)
Definition step_edge (steps : list Step) (a b : string) : Prop :=
  ∃ s, s ∈ steps ∧ st_Name s = b ∧ a ∈ st_Depends s.

Lemma omap_names {A} (g : A → option Node) (ids : list A) (sts : list Step) :
  Forall2 (λ id s, ∃ m, g id = Some m ∧ n_Step m = s ∧ n_State m = NodeState_zero) ids sts →
  Name <$> omap g ids = st_Name <$> sts.
Proof.
  induction 1 as [|id st ids sts (m & Hm & <- & _) HF' IH]; [done|].
  simpl. rewrite Hm. simpl. by f_equal.
Qed.

Section NewPlanSteps.
Context (now : Time) (next : Z) (steps : list Step).
Context (Hnext : (0 < next)%Z) (Hnames : NoDup (st_Name <$> steps)).

Abbreviation fresh_nodes := (map (λ s, NewNode s NodeState_zero) steps).
Abbreviation ps := (addNodes (emptyPlan now) next fresh_nodes).1.

Lemma fresh_ok : ids_ok next fresh_nodes.
Proof. by apply ids_ok_fresh. Qed.

(** The nodes of the plan and the steps correspond. *)
Lemma ps_nodes :
  Forall2 (λ id s, ∃ m, GetNode ps id = Some m ∧ n_Step m = s ∧ n_State m = NodeState_zero)
    (p_nodes ps) steps.
Proof.
  destruct (addNodes_spec fresh_nodes (emptyPlan now) next) as (ids & Hn & HF & _);
    [apply emptyPlan_wf|apply fresh_ok|set_solver|].
  simpl in Hn. rewrite Hn. apply Forall2_fmap_r in HF.
  eapply Forall2_impl; [exact HF|]. simpl. intros id s (m & Hm & Hs & Hst & _). by exists m.
Qed.

Lemma ps_node_step id m : GetNode ps id = Some m → n_Step m ∈ steps ∧ n_State m = NodeState_zero.
Proof.
  intros Hm. assert (id ∈ p_nodes ps) as Hin.
  { apply (wf_store _ (p0_wf now next _ fresh_ok)). eauto. }
  apply list_elem_of_lookup in Hin as [i Hi].
  destruct (Forall2_lookup_l _ _ _ _ _ ps_nodes Hi) as (s & Hs & m' & Hm' & <- & ?).
  assert (m' = m) as -> by congruence. split; [|done]. by eapply list_elem_of_lookup_2.
Qed.

Lemma ps_step_node s : s ∈ steps → ∃ id m, GetNode ps id = Some m ∧ n_Step m = s.
Proof.
  intros [i Hi]%list_elem_of_lookup.
  destruct (Forall2_lookup_r _ _ _ _ _ ps_nodes Hi) as (id & Hid & m & ? & ? & _). eauto.
Qed.

Lemma ps_name_in name : is_Some (p_nodeByName ps !! name) ↔ name ∈ (st_Name <$> steps).
Proof.
  destruct (addNodes_spec fresh_nodes (emptyPlan now) next) as (ids & _ & _ & _ & Hn & _);
    [apply emptyPlan_wf|apply fresh_ok|set_solver|].
  rewrite Hn. simpl. rewrite lookup_empty.
  assert (Name <$> fresh_nodes = st_Name <$> steps) as ->.
  { clear. induction steps as [|s l IH]; simpl; [done|]. by f_equal. }
  split; [|by right]. by intros [[? ?]|?].
Qed.

(** Two steps of the same name are the same step, so nodes are named uniquely. *)
Lemma step_by_name s t : s ∈ steps → t ∈ steps → st_Name s = st_Name t → s = t.
Proof.
  intros [i Hi]%list_elem_of_lookup [j Hj]%list_elem_of_lookup He.
  assert (i = j) as ->; [|congruence].
  apply (NoDup_lookup (st_Name <$> steps) i j (st_Name s) Hnames).
  - by rewrite list_lookup_fmap, Hi.
  - rewrite list_lookup_fmap, Hj. simpl. by f_equal.
Qed.

(** Edges of a plan over these nodes and declared dependencies. *)
Lemma edge_step_edge p u v m n :
  same_nodes ps p → plan_wf p →
  (∀ id, id ∈ p_nodes p →
     Forall2 (λ name d, p_nodeByName p !! name = Some d) (node_depends p id) (Dependencies p id)) →
  GetNode p u = Some m → GetNode p v = Some n →
  edge p u v → step_edge steps (Name m) (Name n).
Proof.
  intros Hs Hwf HF Hm Hn He. exists (n_Step n).
  pose proof Hs as (_ & Hst & _). split_and!; [|done|].
  - apply (ps_node_step v). unfold GetNode in *. by rewrite <-Hst.
  - pose proof (wf_edge_in p Hwf u v He) as [_ Hv]. specialize (HF v Hv).
    apply list_elem_of_lookup in He as [i Hi].
    destruct (Forall2_lookup_r _ _ _ _ _ HF Hi) as (name & Hname & Hd).
    destruct (wf_name p Hwf _ _ Hd) as (m' & Hm' & <-).
    assert (m' = m) as -> by congruence.
    unfold node_depends in Hname. rewrite Hn in Hname. by eapply list_elem_of_lookup_2.
Qed.

Lemma step_edge_edge p a b :
  same_nodes ps p → plan_wf p →
  (∀ id, id ∈ p_nodes p →
     Forall2 (λ name d, p_nodeByName p !! name = Some d) (node_depends p id) (Dependencies p id)) →
  step_edge steps a b →
  ∃ u v m n, GetNode p u = Some m ∧ GetNode p v = Some n ∧ Name m = a ∧ Name n = b ∧ edge p u v.
Proof.
  intros Hs Hwf HF (s & Hin & <- & Ha). pose proof Hs as (Hns & Hst & _).
  destruct (ps_step_node s Hin) as (v & n & Hn & Hsn).
  assert (GetNode p v = Some n) as Hnp by (unfold GetNode in *; by rewrite Hst).
  assert (v ∈ p_nodes p) as Hv by (apply (wf_store p Hwf); eauto).
  specialize (HF v Hv).
  assert (node_depends p v = st_Depends s) as Hdep.
  { unfold node_depends. by rewrite Hnp, Hsn. }
  rewrite Hdep in HF. apply list_elem_of_lookup in Ha as [i Hi].
  destruct (Forall2_lookup_l _ _ _ _ _ HF Hi) as (u & Hu & Hd).
  destruct (wf_name p Hwf _ _ Hd) as (m & Hm & Hname).
  exists u, v, m, n. split_and!; [done..| |].
  - unfold Name. by rewrite Hsn.
  - by eapply list_elem_of_lookup_2.
Qed.

Lemma node_by_name u v m n :
  GetNode ps u = Some m → GetNode ps v = Some n → Name m = Name n → u = v.
Proof.
  intros Hm Hn He.
  assert (∀ w k, GetNode ps w = Some k → ∃ i, p_nodes ps !! i = Some w ∧ steps !! i = Some (n_Step k)) as Hidx.
  { intros w k Hk. assert (w ∈ p_nodes ps) as [i Hi]%list_elem_of_lookup.
    { apply (wf_store _ (p0_wf now next _ fresh_ok)). eauto. }
    exists i. split; [done|].
    destruct (Forall2_lookup_l _ _ _ _ _ ps_nodes Hi) as (s & Hs & k' & Hk' & <- & _). congruence. }
  destruct (Hidx u m Hm) as (i & Hi & Hsi). destruct (Hidx v n Hn) as (j & Hj & Hsj).
  assert (i = j) as ->; [|congruence].
  apply (NoDup_lookup (st_Name <$> steps) i j (Name m) Hnames);
    rewrite list_lookup_fmap; [rewrite Hsi|rewrite Hsj]; simpl; [done|by f_equal].
Qed.

Section WithEdges.
Context (p : Plan) (Hs : same_nodes ps p) (Hwf : plan_wf p).
Context (HF : ∀ id, id ∈ p_nodes p →
  Forall2 (λ name d, p_nodeByName p !! name = Some d) (node_depends p id) (Dependencies p id)).

Lemma same_GetNode id : GetNode p id = GetNode ps id.
Proof. unfold GetNode. by destruct Hs as (_ & -> & _). Qed.

Lemma edge_nodes u v : edge p u v → ∃ m n, GetNode p u = Some m ∧ GetNode p v = Some n.
Proof.
  intros [Hu Hv]%(wf_edge_in p Hwf).
  apply (wf_store p Hwf) in Hu as [m ?]. apply (wf_store p Hwf) in Hv as [n ?]. eauto.
Qed.

Lemma tc_edge_step_edge u v : tc (edge p) u v →
  ∃ m n, GetNode p u = Some m ∧ GetNode p v = Some n ∧ tc (step_edge steps) (Name m) (Name n).
Proof.
  induction 1 as [u v He|u w v He _ (k & n & Hk & Hn & IH)].
  - destruct (edge_nodes u v He) as (m & n & Hm & Hn). exists m, n. split_and!; [done..|].
    constructor. by eapply edge_step_edge.
  - destruct (edge_nodes u w He) as (m & k' & Hm & Hk'). assert (k' = k) as -> by congruence.
    exists m, n. split_and!; [done..|]. eapply tc_l; [by eapply edge_step_edge|done].
Qed.

Lemma tc_step_edge_edge a b : tc (step_edge steps) a b →
  ∃ u v m n, GetNode p u = Some m ∧ GetNode p v = Some n ∧ Name m = a ∧ Name n = b ∧ tc (edge p) u v.
Proof.
  induction 1 as [a b He|a c b He _ (w & v & k & n & Hk & Hn & Hkc & Hnb & IH)].
  - destruct (step_edge_edge p a b Hs Hwf HF He) as (u & v & m & n & ? & ? & ? & ? & ?).
    exists u, v, m, n. split_and!; [done..|]. by constructor.
  - destruct (step_edge_edge p a c Hs Hwf HF He) as (u & w' & m & k' & Hm & Hk' & Hma & Hkc' & Hed).
    assert (w' = w) as ->.
    { rewrite same_GetNode in Hk, Hk'. eapply node_by_name; [exact Hk'|exact Hk|congruence]. }
    exists u, v, m, n. split_and!; [done..|]. by eapply tc_l.
Qed.

Lemma edge_cycle_iff : (∃ x, tc (edge p) x x) ↔ ∃ a, tc (step_edge steps) a a.
Proof.
  split.
  - intros [x Hx]. destruct (tc_edge_step_edge x x Hx) as (m & n & Hm & Hn & Htc).
    assert (m = n) as -> by congruence. eauto.
  - intros [a Ha]. destruct (tc_step_edge_edge a a Ha) as (u & v & m & n & Hm & Hn & Ha1 & Ha2 & Htc).
    rewrite same_GetNode in Hm, Hn.
    assert (u = v) as -> by (eapply node_by_name; [exact Hm|exact Hn|congruence]). eauto.
Qed.

Lemma plan_names : Name <$> Nodes p = st_Name <$> steps.
Proof.
  assert (Nodes p = Nodes ps) as ->.
  { unfold Nodes. destruct Hs as (-> & _). apply list_omap_ext, Forall2_same_length_lookup.
    split; [done|]. intros i x y Hx Hy. assert (x = y) as <- by congruence. apply same_GetNode. }
  apply omap_names, ps_nodes.
Qed.
End WithEdges.

(** The node of a step as [NewNode] makes it, under an identifier. *)
Definition fresh_node (id : Z) (s : Step) : Node := {| (NewNode s NodeState_zero) with n_id := id |}.

Lemma ps_fresh : Forall2 (λ id s, GetNode ps id = Some (fresh_node id s)) (p_nodes ps) steps.
Proof.
  destruct (addNodes_spec fresh_nodes (emptyPlan now) next) as (ids & Hn & HF & _);
    [apply emptyPlan_wf|apply fresh_ok|set_solver|].
  simpl in Hn. rewrite Hn. apply Forall2_fmap_r in HF. eapply Forall2_impl; [exact HF|].
  intros id s (m & Hm & H1 & H2 & H3 & H4 & H5 & H6). rewrite Hm. f_equal.
  pose proof (wf_id _ (p0_wf now next _ fresh_ok) id m Hm) as Hid. destruct m. unfold fresh_node, NewNode. simpl in *. by subst.
Qed.

Lemma plan_fresh p : same_nodes ps p → Forall2 (λ id s, GetNode p id = Some (fresh_node id s)) (p_nodes p) steps.
Proof.
  intros Hs. pose proof Hs as (Hn & _). rewrite Hn. eapply Forall2_impl; [apply ps_fresh|]. intros id s Hid. by rewrite (same_GetNode p Hs).
Qed.

(** C38. [NewPlan] on uniquely named steps.  On success the plan is well formed;
    it has one node per step in step order, which is the node [NewNode] makes of the
    step (the step, the initial state, no command, no retry policy) under an
    identifier of its own; its edges are exactly the declared dependencies and no step
    depends on itself through other steps; a missing-node error names a dependency that no step declares; the cyclic
    error means that the declared dependencies have a cycle. *)
Theorem NewPlan_correct :
  match NewPlan now next steps with
  | inr p =>
      plan_wf p ∧
      Forall2 (λ id s, GetNode p id = Some (fresh_node id s)) (p_nodes p) steps ∧ NoDup (p_nodes p) ∧
      Name <$> Nodes p = st_Name <$> steps ∧
      (∀ u v m n, GetNode p u = Some m → GetNode p v = Some n →
         (edge p u v ↔ step_edge steps (Name m) (Name n))) ∧
      (∀ s d, s ∈ steps → d ∈ st_Depends s → d ∈ (st_Name <$> steps)) ∧
      ¬ ∃ a, tc (step_edge steps) a a
  | inl (ErrMissingNode d) => ∃ s, s ∈ steps ∧ d ∈ st_Depends s ∧ d ∉ (st_Name <$> steps)
  | inl ErrCyclicPlan => ∃ a, tc (step_edge steps) a a
  end.
Proof.
  pose proof (NewPlanFromNodes_cases now next fresh_nodes fresh_ok) as Hc.
  change (NewPlan now next steps) with (NewPlanFromNodes now next fresh_nodes).
  destruct (NewPlanFromNodes now next fresh_nodes) as [[|d]|p].
  - destruct Hc as (p & Hwf & Hs & Hcyc & HF). by apply (edge_cycle_iff p Hs Hwf HF).
  - destruct Hc as (id & Hid & Hd & Hnone).
    unfold node_depends in Hd. destruct (GetNode ps id) as [m|] eqn:Hm; [|set_solver].
    destruct (ps_node_step id m Hm) as [Hin _]. exists (n_Step m). split_and!; [done..|].
    rewrite <-ps_name_in. rewrite Hnone. by intros [].
  - destruct Hc as (Hwf & Hcf & Hs & HF). split_and!; [done|by apply plan_fresh|apply Hwf|by apply plan_names| | |].
    + intros u v m n Hm Hn. split; [by eapply edge_step_edge|].
      intros He. destruct (step_edge_edge p _ _ Hs Hwf HF He) as (u' & v' & m' & n' & Hm' & Hn' & Hma & Hnb & Hed).
      rewrite (same_GetNode p Hs) in Hm, Hn, Hm', Hn'.
      rewrite (node_by_name u u' m m'), (node_by_name v v' n n'); congruence.
    + intros s d Hin Hd. apply ps_name_in.
      destruct (step_edge_edge p d (st_Name s) Hs Hwf HF) as (u & v & m & n & Hm & _ & Hmd & _); [by exists s|].
      rewrite (same_GetNode p Hs) in Hm. apply ps_name_in.
      destruct (ps_node_step u m Hm) as [Hst _]. subst d. by apply (list_elem_of_fmap_2 st_Name).
    + rewrite <-(edge_cycle_iff p Hs Hwf HF). intros [x Hx].
      by apply (isCyclic_false_acyclic p Hwf x Hcf).
Qed.
End NewPlanSteps.
