(* ===== verification/RetryPlan.v ===== *)
(** * Retry plans

    [Plan.setupRetry] clears exactly the nodes that failed, were aborted,
    rejected or left retrying, together with everything downstream of them,
    and its layered traversal ends after at most one layer per node. *)

From stdpp Require Import gmap strings list relations.
From Stdlib Require Import ZArith Lia.
From S2P Require Import Prelude Status Step Exec Node Graph Plan PlanWf Kahn PlanBuild.

(** The step index is keyed by step name. *)
Definition steps_keyed (steps : gmap string Step) : Prop :=
  ∀ name s, steps !! name = Some s → st_Name s = name.

Lemma stepsByName_keyed (l : list Step) : steps_keyed (stepsByName l).
Proof.
  unfold stepsByName. assert (steps_keyed ∅) as H0 by (intros ? ?; by rewrite lookup_empty).
  revert H0. generalize (∅ : gmap string Step) as m.
  induction l as [|s l IH]; intros m Hm; simpl; [done|].
  apply IH. intros name t. rewrite lookup_insert. case_decide; naive_solver.
Qed.

(** Having one of the four statuses a retry starts over from. *)
Definition did_not_succeed (s : NodeStatus) : Prop :=
  s = NodeFailed ∨ s = NodeRetrying ∨ s = NodeAborted ∨ s = NodeRejected.

Lemma retryable_iff s : retryable s = true ↔ did_not_succeed s.
Proof. unfold did_not_succeed. destruct s; vm_compute; naive_solver. Qed.

Section Retry.
Context (p : Plan) (steps : gmap string Step).
Context (Hwf : plan_wf p) (Hac : isCyclic p = false) (Hkey : steps_keyed steps).
Context (Hall : ∀ v n, GetNode p v = Some n → is_Some (steps !! Name n)).

Definition node_bad (v : Z) : Prop :=
  ∃ n, GetNode p v = Some n ∧ did_not_succeed (Node_Status n).

(** [v] is to be re-run: it or something upstream of it did not succeed. *)
Definition in_retry (v : Z) : Prop := ∃ u, node_bad u ∧ rtc (edge p) u v.

(** The plan of a traversal state: the graph of [p], some nodes of [T] cleared. *)
Definition same_graph (q : Plan) : Prop :=
  p_nodes q = p_nodes p ∧ DependencyMap q = DependencyMap p ∧
  DependantMap q = DependantMap p ∧ p_nodeByName q = p_nodeByName p ∧
  p_startedAt q = p_startedAt p ∧ p_finishedAt q = p_finishedAt p.

Definition cleared (q : Plan) (v : Z) : Prop :=
  ∃ n step, GetNode p v = Some n ∧ steps !! Name n = Some step ∧
            GetNode q v = Some (ClearState step n).

Record retry_inv (q : Plan) (T : gset Z) (pend : list Z) (V : gset Z) : Prop := {
  ri_graph : same_graph q;
  ri_nodes : ∀ v n, GetNode p v = Some n →
               GetNode q v = Some n ∨ (v ∈ T ∧ cleared q v);
  ri_sound : ∀ v, v ∈ T → in_retry v;
  ri_bad : ∀ v, v ∈ V → node_bad v → v ∈ T;
  ri_closed : ∀ v, v ∈ V → v ∈ T →
                v ∈ pend ∨ (cleared q v ∧ ∀ c, edge p v c → c ∈ T);
  ri_children : ∀ v c, v ∈ V → edge p v c → c ∈ V ∨ c ∈ pend;
  ri_roots : ∀ v, v ∈ p_nodes p → Dependencies p v = [] → v ∈ V ∨ v ∈ pend;
  ri_pend : ∀ v, v ∈ pend → v ∈ p_nodes p;
}.

Lemma same_graph_Dependents q u : same_graph q → Dependents q u = Dependents p u.
Proof. intros (_ & _ & H & _). unfold Dependents. by rewrite H. Qed.

Lemma status_snapshot v n :
  GetNode p v = Some n → default NodeNotStarted ((Node_Status <$> p_nodeByID p) !! v) = Node_Status n.
Proof. intros H. unfold GetNode in H. by rewrite lookup_fmap, H. Qed.

Lemma GetNode_update_eq u f q n : GetNode q u = Some n → GetNode (update_node u f q) u = Some (f n).
Proof. unfold GetNode, update_node; simpl. rewrite lookup_alter_eq. by intros ->. Qed.

Lemma GetNode_update_ne u v f q : u ≠ v → GetNode (update_node u f q) v = GetNode q v.
Proof. intros H. unfold GetNode, update_node; simpl. by rewrite lookup_alter_ne. Qed.

(** One visit marks and clears the node when it has to be retried. *)
Lemma visit_spec q T next u :
  u ∈ p_nodes p → same_graph q →
  (∀ v n, GetNode p v = Some n → GetNode q v = Some n ∨ (v ∈ T ∧ cleared q v)) →
  ∃ q' T1 T', setupRetry_visit steps (Node_Status <$> p_nodeByID p) (mkRetryState q T next) u =
      inr (mkRetryState q' T' (next ++ Dependents p u)) ∧
    same_graph q' ∧ (∀ v, v ≠ u → GetNode q' v = GetNode q v) ∧
    (T1 = T ∧ q' = q ∧ (u ∉ T) ∧ ¬ node_bad u ∧ T' = T ∨
     T1 = {[u]} ∪ T ∧ cleared q' u ∧ (u ∈ T ∨ node_bad u) ∧ T' = list_to_set (Dependents p u) ∪ T1).
Proof.
  intros Hu Hg Hnodes. apply (wf_store p Hwf) in Hu as [n Hn].
  destruct (Hall u n Hn) as [step Hstep].
  assert (∃ n', GetNode q u = Some n' ∧ Name n' = Name n ∧ ClearState step n' = ClearState step n)
    as (n' & Hn' & Hname & Hcl).
  { destruct (Hnodes u n Hn) as [?|[_ (n0 & s0 & Hn0 & Hs0 & ?)]]; [by exists n|].
    assert (n0 = n) as -> by congruence. exists (ClearState s0 n). split_and!; [done| |done].
    unfold Name; simpl. by apply Hkey. }
  unfold setupRetry_visit. simpl. rewrite (status_snapshot u n Hn).
  destruct (bool_decide (u ∈ T) || retryable (Node_Status n)) eqn:Hr.
  - rewrite Hn'. rewrite Hname, Hstep. simpl.
    set (q' := update_node u (ClearState step) q).
    assert (same_graph q') as Hg' by done.
    exists q', ({[u]} ∪ T), (list_to_set (Dependents p u) ∪ ({[u]} ∪ T)). split_and!; [|done| |].
    + rewrite bool_decide_true by set_solver. by rewrite same_graph_Dependents.
    + intros v Hv. by apply GetNode_update_ne.
    + right. split_and!; [done| | |done].
      * exists n, step. split_and!; [done..|]. rewrite <-Hcl. by apply GetNode_update_eq.
      * apply orb_true_iff in Hr as [Hr|Hr]; [left; by apply bool_decide_eq_true in Hr|].
        right. exists n. by rewrite <-retryable_iff.
  - apply orb_false_iff in Hr as [Hr1 Hr2]. apply bool_decide_eq_false in Hr1.
    exists q, T, T. simpl. split_and!; [|done|done|].
    + rewrite bool_decide_false by done. by rewrite same_graph_Dependents.
    + left. split_and!; [done..| |done]. intros (m & Hm & Hb%retryable_iff). congruence.
Qed.

Lemma retry_inv_visit q T u rem next V q' T1 T' :
  retry_inv q T (u :: rem ++ next) V →
  same_graph q' → (∀ v, v ≠ u → GetNode q' v = GetNode q v) →
  (T1 = T ∧ q' = q ∧ (u ∉ T) ∧ ¬ node_bad u ∧ T' = T ∨
   T1 = {[u]} ∪ T ∧ cleared q' u ∧ (u ∈ T ∨ node_bad u) ∧ T' = list_to_set (Dependents p u) ∪ T1) →
  retry_inv q' T' (rem ++ next ++ Dependents p u) ({[u]} ∪ V).
Proof.
  intros Hi Hg Hne Hcases.
  assert (u ∈ p_nodes p) as Hu by (apply (ri_pend _ _ _ _ Hi); by left).
  assert (T ⊆ T') as HTT' by (destruct Hcases as [(_ & _ & _ & _ & ->)|(-> & _ & _ & ->)]; set_solver).
  assert (∀ v, v ≠ u → cleared q v → cleared q' v) as Hclr.
  { intros v Hv (n & s & Hn & Hs & Hq). exists n, s. split_and!; [done..|]. by rewrite Hne. }
  assert (∀ v, v ∈ T' → v ∈ T ∨ (v = u ∧ cleared q' u) ∨ v ∈ Dependents p u) as HT'.
  { intros v. destruct Hcases as [(_ & _ & _ & _ & ->)|(-> & ? & _ & ->)]; [by left|].
    rewrite !elem_of_union, elem_of_list_to_set, elem_of_singleton. naive_solver. }
  split; [done| | | | | | |].
  - intros v n Hn. destruct (decide (v = u)) as [->|Hv].
    + destruct Hcases as [(_ & -> & _ & _ & ->)|(-> & ? & _ & ->)].
      * by apply (ri_nodes _ _ _ _ Hi).
      * right. split; [set_solver|done].
    + rewrite Hne by done. destruct (ri_nodes _ _ _ _ Hi v n Hn) as [|[? ?]]; [by left|].
      right. split; [set_solver|by apply Hclr].
  - intros v Hv. destruct Hcases as [(_ & _ & _ & _ & ->)|(-> & _ & Hub & ->)].
    { by apply (ri_sound _ _ _ _ Hi). }
    assert (in_retry u) as [w [Hw Hwu]].
    { destruct Hub as [?|Hb]; [by apply (ri_sound _ _ _ _ Hi)|]. by exists u. }
    rewrite !elem_of_union, elem_of_list_to_set, elem_of_singleton in Hv.
    destruct Hv as [Hv|[->|Hv]]; [|by exists w|by apply (ri_sound _ _ _ _ Hi)].
    exists w. split; [done|]. eapply rtc_r; [done|]. by apply edge_dependents.
  - intros v [->%elem_of_singleton|Hv]%elem_of_union Hb; [|by apply HTT', (ri_bad _ _ _ _ Hi)].
    destruct Hcases as [(_ & _ & _ & Hnb & _)|(-> & _ & _ & ->)]; [done|set_solver].
  - intros v Hv HvT. destruct (decide (v = u)) as [->|Hvu].
    + destruct Hcases as [(_ & _ & Hn & _ & ->)|(-> & ? & _ & ->)]; [done|]. right.
      split; [done|]. intros c Hc%edge_dependents; [|done].
      rewrite elem_of_union, elem_of_list_to_set. by left.
    + assert (v ∈ V) as HvV by set_solver.
      destruct (HT' v HvT) as [HvT0|[[? _]|Hd]]; [|done|left; set_solver].
      destruct (ri_closed _ _ _ _ Hi v HvV HvT0) as [Hp|[Hc Hch]]; [left; set_solver|].
      right. split; [by apply Hclr|]. intros c Hc'. by apply HTT', Hch.
  - intros v c [->%elem_of_singleton|Hv]%elem_of_union Hc.
    + right. apply edge_dependents in Hc; [set_solver|done].
    + destruct (ri_children _ _ _ _ Hi v c Hv Hc); set_solver.
  - intros v Hv Hd. destruct (ri_roots _ _ _ _ Hi v Hv Hd); set_solver.
  - intros v. rewrite !elem_of_app. intros [Hv|[Hv|Hv]].
    + apply (ri_pend _ _ _ _ Hi). set_solver.
    + apply (ri_pend _ _ _ _ Hi). set_solver.
    + apply (edge_dependents p) in Hv; [|done]. by apply (wf_edge_in p Hwf) in Hv as [_ ?].
Qed.

(** A whole layer.  [k] is the distance of the frontier from the roots. *)
Definition at_depth (k : nat) (l : list Z) : Prop := ∀ y, y ∈ l → ∃ x, nsteps (edge p) k x y.

Lemma layer_spec k rem : ∀ q T next V,
  retry_inv q T (rem ++ next) V → at_depth k rem → at_depth (S k) next →
  ∃ q' T' next' V',
    foldE (setupRetry_visit steps (Node_Status <$> p_nodeByID p)) (mkRetryState q T next) rem =
      inr (mkRetryState q' T' next') ∧
    retry_inv q' T' next' V' ∧ at_depth (S k) next'.
Proof.
  induction rem as [|u rem IH]; intros q T next V Hi Hk Hk'; [by exists q, T, next, V|].
  destruct (visit_spec q T next u) as (q1 & T1 & T' & Hv & Hg & Hne & Hcases).
  { apply (ri_pend _ _ _ _ Hi). by left. }
  { apply Hi. }
  { apply Hi. }
  simpl. rewrite Hv.
  apply (IH q1 T' (next ++ Dependents p u) ({[u]} ∪ V)).
  - by eapply retry_inv_visit.
  - intros y Hy. apply Hk. by right.
  - intros y [Hy|Hy]%elem_of_app; [by apply Hk'|].
    destruct (Hk u) as [x Hx]; [by left|]. exists x.
    eapply nsteps_r; [done|]. by apply edge_dependents.
Qed.

Lemma loop_spec fuel : ∀ k q T F V,
  retry_inv q T F V → at_depth k F → length (p_nodes p) <= fuel + k →
  ∃ q' T' V', setupRetry_loop fuel steps (Node_Status <$> p_nodeByID p) q T F = Some (inr (q', T')) ∧
    retry_inv q' T' [] V'.
Proof.
  destruct (isCyclic_false_order p Hwf Hac) as (P & HP & Htopo).
  induction fuel as [|fuel IH]; intros k q T F V Hi Hk Hf;
    (destruct F as [|u F]; [by exists q, T, V|]).
  - exfalso. destruct (Hk u) as [x Hx]; [by left|].
    assert (k < length P) as Hlt.
    { eapply (topo_nsteps_lt (edge p) P); [|done| |exact Hx].
      - rewrite HP. apply Hwf.
      - rewrite HP. apply (ri_pend _ _ _ _ Hi). by left. }
    rewrite HP in Hlt. lia.
  - destruct (layer_spec k (u :: F) q T [] V) as (q1 & T1 & F1 & V1 & Hl & Hi1 & Hk1).
    + by rewrite app_nil_r.
    + done.
    + intros y Hy. set_solver.
    + change (setupRetry_loop (S fuel) steps (Node_Status <$> p_nodeByID p) q T (u :: F)) with
        (match foldE (setupRetry_visit steps (Node_Status <$> p_nodeByID p)) (mkRetryState q T []) (u :: F) with
         | inl e => Some (inl e)
         | inr s => setupRetry_loop fuel steps (Node_Status <$> p_nodeByID p) (rs_plan s) (rs_toRetry s) (rs_next s)
         end).
      rewrite Hl. simpl. apply (IH (S k) _ _ _ V1); [done|done|lia].
Qed.

Lemma retry_inv_init : retry_inv p ∅ (retry_frontier p) ∅.
Proof.
  split.
  - done.
  - intros v n Hn. by left.
  - set_solver.
  - set_solver.
  - set_solver.
  - set_solver.
  - intros v Hv Hd. right. by apply list_elem_of_filter.
  - intros v [_ ?]%list_elem_of_filter. done.
Qed.

Lemma edge_from_dec v : (∃ u, edge p u v) ∨ ¬ ∃ u, edge p u v.
Proof.
  unfold edge. destruct (Dependencies p v) as [|u l]; [right|left; exists u; by left].
  intros [u Hu]. set_solver.
Qed.

(** Nothing pending: every node was visited, and the marks are exact. *)
Lemma retry_inv_final q T V : retry_inv q T [] V →
  (∀ v, v ∈ p_nodes p → v ∈ V) ∧ (∀ v, v ∈ T ↔ in_retry v).
Proof.
  intros Hi. destruct (isCyclic_false_order p Hwf Hac) as (P & HP & Htopo).
  assert (∀ v, v ∈ p_nodes p → v ∈ V) as HV.
  { intros v Hv. rewrite <-HP in Hv.
    destruct (topo_from_source (edge p) P v edge_from_dec Htopo Hv) as (s & Hs & Hns & Hsv).
    assert (s ∈ V) as HsV.
    { destruct (ri_roots _ _ _ _ Hi s) as [|?]; [by rewrite <-HP| |done|set_solver].
      destruct (Dependencies p s) as [|d l] eqn:E; [done|]. destruct Hns. exists d.
      unfold edge. rewrite E. by left. }
    clear Hs Hns Hv. induction Hsv as [|a b c Hab Hbc IH]; [done|]. apply IH.
    destruct (ri_children _ _ _ _ Hi a b HsV Hab); [done|set_solver]. }
  split; [done|]. intros v. split; [apply (ri_sound _ _ _ _ Hi)|].
  intros (u & Hb & Huv).
  assert (u ∈ T) as HuT.
  { apply (ri_bad _ _ _ _ Hi); [|done]. apply HV, (wf_store p Hwf). destruct Hb as (n & ? & _). eauto. }
  clear Hb. induction Huv as [|a b c Hab Hbc IH]; [done|]. apply IH.
  assert (a ∈ V) as HaV by (apply HV; by apply (wf_edge_in p Hwf) in Hab as [? _]).
  destruct (ri_closed _ _ _ _ Hi a HaV HuT) as [?|[_ Hch]]; [set_solver|by apply Hch].
Qed.

(** The traversal finishes without error, keeps the graph, clears every node
    that is to be re-run and leaves every other node untouched. *)
Lemma setupRetry_spec :
  ∃ p' T, setupRetry steps p = Some (inr (p', T)) ∧ same_graph p' ∧
    ∀ v n, GetNode p v = Some n →
      (in_retry v → ∃ step, steps !! Name n = Some step ∧ GetNode p' v = Some (ClearState step n)) ∧
      (¬ in_retry v → GetNode p' v = Some n).
Proof.
  destruct (loop_spec (length (p_nodes p)) 0 p ∅ (retry_frontier p) ∅ retry_inv_init) as (q & T & V & Hl & Hi).
  { intros y Hy. exists y. constructor. }
  { lia. }
  exists q, T. split_and!; [done|apply Hi|].
  destruct (retry_inv_final q T V Hi) as [HV HT].
  intros v n Hn. assert (v ∈ V) as HvV by (apply HV, (wf_store p Hwf); eauto). split.
  - intros Hr. apply HT in Hr.
    destruct (ri_closed _ _ _ _ Hi v HvV Hr) as [?|[(n0 & s & Hn0 & Hs & Hq) _]]; [set_solver|].
    assert (n0 = n) as -> by congruence. eauto.
  - intros Hr. destruct (ri_nodes _ _ _ _ Hi v n Hn) as [|[Hv _]]; [done|]. by apply HT in Hv.
Qed.
End Retry.

(** ** The whole of [CreateRetryPlan] *)

(** Rebinding succeeds exactly when every node's step still exists, and gives
    each node the step of its name. *)
Lemma rebind_spec (nodes : list Node) (steps : gmap string Step) :
  match rebindRetryNodesToSteps nodes steps with
  | inr nodes' =>
      Forall2 (λ n n', ∃ s, steps !! Name n = Some s ∧ n' = SetStep s n) nodes nodes'
  | inl e => ∃ n, n ∈ nodes ∧ steps !! Name n = None ∧ e = ErrMissingNode (Name n)
  end.
Proof.
  induction nodes as [|n nodes IH]; simpl; [constructor|].
  destruct (steps !! Name n) as [s|] eqn:Hs.
  - destruct (rebindRetryNodesToSteps nodes steps) as [e|nodes']; simpl.
    + destruct IH as (m & ? & ? & ?). exists m. split; [by right|done].
    + constructor; [|done]. eauto.
  - exists n. split; [by left|done].
Qed.

Lemma rebind_ids (nodes nodes' : list Node) (steps : gmap string Step) :
  Forall2 (λ n n', ∃ s, steps !! Name n = Some s ∧ n' = SetStep s n) nodes nodes' →
  n_id <$> nodes' = n_id <$> nodes.
Proof. induction 1 as [|n n' l l' (s & _ & ->) _ IH]; simpl; [done|by f_equal]. Qed.

Section CreateRetry.
Context (now : Time) (next : Z) (dagSteps : list Step) (nodes : list Node).
Context (Hok : ids_ok next nodes).

Lemma rebind_ids_ok nodes' :
  Forall2 (λ n n', ∃ s, stepsByName dagSteps !! Name n = Some s ∧ n' = SetStep s n) nodes nodes' →
  ids_ok next nodes'.
Proof using Hok.
  intros HF. pose proof (rebind_ids _ _ _ HF) as Hids. destruct Hok as (Hpos & Hnd & Hlt).
  split_and!; [done|by rewrite Hids|]. intros n Hn.
  assert (n_id n ∈ (n_id <$> nodes)) as (m & -> & Hm)%list_elem_of_fmap; [|by apply Hlt].
  rewrite <-Hids. by apply (list_elem_of_fmap_2 n_id).
Qed.

(** Every node of the rebound plan has its step in the index. *)
Lemma rebound_all nodes' p :
  Forall2 (λ n n', ∃ s, stepsByName dagSteps !! Name n = Some s ∧ n' = SetStep s n) nodes nodes' →
  same_nodes (addNodes (emptyPlan now) next nodes').1 p →
  ∀ v n, GetNode p v = Some n → is_Some (stepsByName dagSteps !! Name n).
Proof using Hok.
  intros HF Hs v n Hn. pose proof (rebind_ids_ok _ HF) as Hok'.
  destruct Hs as (_ & Hst & _). unfold GetNode in Hn. rewrite Hst in Hn.
  destruct (addNodes_spec nodes' (emptyPlan now) next) as (ids & Hns & HF2 & _);
    [apply emptyPlan_wf|done|set_solver|].
  assert (v ∈ ids) as [i Hi]%list_elem_of_lookup.
  { change ids with (p_nodes (emptyPlan now) ++ ids). rewrite <-Hns.
    apply (wf_store _ (p0_wf now next _ Hok')). by exists n. }
  destruct (Forall2_lookup_l _ _ _ _ _ HF2 Hi) as (n' & Hn' & m & Hm & Hsame).
  unfold GetNode in Hm. assert (m = n) as -> by congruence.
  destruct (Forall2_lookup_r _ _ _ _ _ HF Hn') as (n0 & _ & s & Hs & ->).
  rewrite (same_node_Name _ _ Hsame). unfold Name at 1; simpl.
  rewrite (stepsByName_keyed _ _ _ Hs). eauto.
Qed.

Lemma NewPlanFromNodes_rebound nodes' p :
  Forall2 (λ n n', ∃ s, stepsByName dagSteps !! Name n = Some s ∧ n' = SetStep s n) nodes nodes' →
  NewPlanFromNodes now next nodes' = inr p →
  plan_wf p ∧ isCyclic p = false ∧
  ∀ v n, GetNode p v = Some n → is_Some (stepsByName dagSteps !! Name n).
Proof using Hok.
  intros HF Hp. pose proof (NewPlanFromNodes_cases now next nodes' (rebind_ids_ok _ HF)) as Hc.
  rewrite Hp in Hc. destruct Hc as (Hwf & Hac & Hs & _). split_and!; [done..|].
  by eapply rebound_all.
Qed.

(** C39. [CreateRetryPlan]: a node whose step no longer exists is an error; else the
    traversal finishes, the graph is that of the rebound nodes, every node
    that failed, was aborted, rejected or left retrying, and everything
    downstream of it, is cleared and bound to its current step, and every
    other node keeps its state. *)
Theorem CreateRetryPlan_correct :
  match rebindRetryNodesToSteps nodes (stepsByName dagSteps) with
  | inl e => CreateRetryPlan now next dagSteps nodes = Some (inl e) ∧
      ∃ n, n ∈ nodes ∧ stepsByName dagSteps !! Name n = None ∧ e = ErrMissingNode (Name n)
  | inr nodes' =>
      match NewPlanFromNodes now next nodes' with
      | inl e => CreateRetryPlan now next dagSteps nodes = Some (inl e)
      | inr p => ∃ p', CreateRetryPlan now next dagSteps nodes = Some (inr p') ∧ same_graph p p' ∧
          ∀ v n, GetNode p v = Some n →
            (in_retry p v → ∃ step, stepsByName dagSteps !! Name n = Some step ∧
                                    GetNode p' v = Some (ClearState step n)) ∧
            (¬ in_retry p v → GetNode p' v = Some n)
      end
  end.
Proof using Hok.
  unfold CreateRetryPlan. pose proof (rebind_spec nodes (stepsByName dagSteps)) as Hr.
  destruct (rebindRetryNodesToSteps nodes (stepsByName dagSteps)) as [e|nodes']; [done|].
  destruct (NewPlanFromNodes now next nodes') as [e|p] eqn:Hp; [done|].
  destruct (NewPlanFromNodes_rebound nodes' p Hr Hp) as (Hwf & Hac & Hall).
  destruct (setupRetry_spec p (stepsByName dagSteps) Hwf Hac (stepsByName_keyed _) Hall)
    as (p' & T & -> & Hg & Hv). by exists p'.
Qed.

(** [CreateStepRetryPlan] resets the named node only: it keeps its retry count,
    and its retry policy only when it was already retrying. *)
Theorem CreateStepRetryPlan_only stepName p' :
  CreateStepRetryPlan now next dagSteps nodes stepName = inr p' →
  ∃ nodes' p id n step,
    rebindRetryNodesToSteps nodes (stepsByName dagSteps) = inr nodes' ∧
    NewPlanFromNodes now next nodes' = inr p ∧ same_graph p p' ∧
    GetNode p id = Some n ∧ Name n = stepName ∧ stepsByName dagSteps !! stepName = Some step ∧
    (∀ v, v ≠ id → GetNode p' v = GetNode p v) ∧
    ∃ n', GetNode p' id = Some n' ∧ Node_Status n' = NodeNotStarted ∧ n_Step n' = step ∧
      GetRetryCount n' = GetRetryCount n ∧
      n_retryPolicy n' = if decide (Node_Status n = NodeRetrying) then n_retryPolicy n else NodeRetryPolicy_zero.
Proof using Hok.
  unfold CreateStepRetryPlan. pose proof (rebind_spec nodes (stepsByName dagSteps)) as Hr.
  destruct (rebindRetryNodesToSteps nodes (stepsByName dagSteps)) as [e|nodes']; [done|].
  simpl. destruct (NewPlanFromNodes now next nodes') as [e|p] eqn:Hp; [done|]. simpl.
  destruct (NewPlanFromNodes_rebound nodes' p Hr Hp) as (Hwf & Hac & Hall).
  destruct (GetNodeByName p stepName) as [id|] eqn:Hid; [|done].
  destruct (GetNode p id) as [n|] eqn:Hn; [|done].
  destruct (stepsByName dagSteps !! Name n) as [step|] eqn:Hs; [|done]. intros [= <-].
  destruct (wf_name p Hwf _ _ Hid) as (n0 & Hn0 & Hnm). assert (n0 = n) as -> by congruence.
  exists nodes', p, id, n, step. rewrite <-Hnm. split_and!; [done..| |].
  - intros v Hv. by apply GetNode_update_ne.
  - eexists. split; [by apply GetNode_update_eq|].
    destruct (decide (Node_Status n = NodeRetrying)); [rewrite bool_decide_true by done|rewrite bool_decide_false by done];
      by split_and!.
Qed.
End CreateRetry.

(** ** Concrete plans *)
Lemma ids_ok_zero next nodes : (0 < next)%Z → Forall (λ n, n_id n = 0%Z) nodes → ids_ok next nodes.
Proof.
  intros Hn HF. split_and!; [done| |].
  - induction HF as [|n l Hn0 _ IH]; simpl; [constructor|]. by rewrite filter_cons_False by (rewrite Hn0; naive_solver).
  - intros n Hin. rewrite Forall_forall in HF. by rewrite (HF n Hin).
Qed.

Lemma NewPlanFromNodes_wf now next nodes p :
  ids_ok next nodes → NewPlanFromNodes now next nodes = inr p → plan_wf p ∧ isCyclic p = false.
Proof.
  intros Hok Hp. pose proof (NewPlanFromNodes_cases now next nodes Hok) as Hc. rewrite Hp in Hc.
  by destruct Hc as (? & ? & _).
Qed.

(** Nodes of steps in given states, as a stored run has them. *)
Definition stored_nodes (steps : list Step) (ss : list NodeStatus) : list Node :=
  zip_with (λ st s, SetStatus s (NewNode st NodeState_zero)) steps ss.

Definition diamond : list Step :=
  [plain_step "a" []; plain_step "b" ["a"]; plain_step "c" ["a"]; plain_step "d" ["b"; "c"]].

Lemma diamond_names : NoDup (st_Name <$> diamond).
Proof. apply (bool_decide_unpack _). by vm_compute. Qed.

Lemma NewPlan_correct_witness :
  ∃ p, NewPlan 1 1 diamond = inr p ∧ Name <$> Nodes p = ["a"; "b"; "c"; "d"].
Proof.
  pose proof (NewPlan_correct 1 1 diamond ltac:(lia) diamond_names) as Hc.
  destruct (NewPlan 1 1 diamond) as [e|p] eqn:Hp; [by vm_compute in Hp|].
  exists p. split; [done|]. destruct Hc as (_ & _ & _ & -> & _). done.
Defined.

Lemma isCyclic_correct_witness :
  ∃ p, NewPlan 1 1 diamond = inr p ∧ is_Some (kahn p) ∧ isCyclic p = false.
Proof.
  destruct (NewPlan 1 1 diamond) as [e|p] eqn:Hp; [by vm_compute in Hp|]. exists p. split; [done|].
  destruct (NewPlan_wf 1 1 diamond p ltac:(lia) Hp) as [Hwf Hac].
  split; [apply (isCyclic_correct p Hwf)|done].
Defined.

Definition diamond_failed : list Node :=
  stored_nodes diamond [NodeSucceeded; NodeFailed; NodeSucceeded; NodeAborted].

Lemma diamond_failed_ok : ids_ok 1 diamond_failed.
Proof. apply ids_ok_zero; [lia|]. repeat constructor. Qed.

Definition diamond_retry : Plan :=
  match CreateRetryPlan 1 1 diamond diamond_failed with Some (inr p) => p | _ => emptyPlan 1 end.
Definition diamond_rebound : list Node :=
  match rebindRetryNodesToSteps diamond_failed (stepsByName diamond) with inr l => l | inl _ => [] end.
Definition diamond_stored : Plan :=
  match NewPlanFromNodes 1 1 diamond_rebound with inr p => p | inl _ => emptyPlan 1 end.

Lemma CreateRetryPlan_correct_witness :
  (∃ p, CreateRetryPlan 1 1 diamond diamond_failed = Some (inr p) ∧ same_graph diamond_stored p) ∧
  statuses diamond_retry = [NodeSucceeded; NodeNotStarted; NodeSucceeded; NodeNotStarted].
Proof.
  split; [|by vm_compute].
  pose proof (CreateRetryPlan_correct 1 1 diamond diamond_failed diamond_failed_ok) as Hc.
  assert (rebindRetryNodesToSteps diamond_failed (stepsByName diamond) = inr diamond_rebound) as E1 by by vm_compute.
  assert (NewPlanFromNodes 1 1 diamond_rebound = inr diamond_stored) as E2 by by vm_compute.
  rewrite E1, E2 in Hc. destruct Hc as (p & Hp & Hg & _). exists p. exact (conj Hp Hg).
Defined.

Definition diamond_step_retry : Plan :=
  match CreateStepRetryPlan 1 1 diamond diamond_failed "b" with inr p => p | inl _ => emptyPlan 1 end.

Lemma CreateStepRetryPlan_only_witness :
  (∃ id n, GetNode diamond_step_retry id = Some n ∧ Node_Status n = NodeNotStarted) ∧
  statuses diamond_step_retry = [NodeSucceeded; NodeNotStarted; NodeSucceeded; NodeAborted].
Proof.
  split; [|by vm_compute].
  destruct (CreateStepRetryPlan_only 1 1 diamond diamond_failed diamond_failed_ok "b" diamond_step_retry)
    as (nodes' & q & id & n & step & _ & _ & _ & _ & _ & _ & _ & n' & Hn' & Hs & _); [by vm_compute|].
  by exists id, n'.
Defined.
