(* ===== verification/Runner.v ===== *)
(** * The runner (internal/runtime/runner.go)

    The runner's record and the operations its goroutines and its event loop
    call.  Each operation is a function on the runner, the plan or the node
    it mutates; the lock it takes is the atomicity of the definition.  The
    event loop and the interleaving of goroutines are in RunnerLoop.

    What an operation obtains from outside (the clock, evaluated conditions,
    the stored chat messages, the result of closing files) is an argument. *)

From stdpp Require Import gmap strings list.
From Stdlib Require Import ZArith Lia.
From S2P Require Import Prelude Status Step Exec Node Plan.

(** ** core.HandlerType *)
Inductive HandlerType :=
  | HandlerOnInit | HandlerOnSuccess | HandlerOnFailure
  | HandlerOnAbort | HandlerOnExit | HandlerOnWait.

#[export] Instance HandlerType_eq_dec : EqDecision HandlerType.
Proof. solve_decision. Defined.

Definition HandlerType_String (h : HandlerType) : string :=
  match h with
  | HandlerOnInit => "onInit"
  | HandlerOnSuccess => "onSuccess"
  | HandlerOnFailure => "onFailure"
  | HandlerOnAbort => "onAbort"
  | HandlerOnExit => "onExit"
  | HandlerOnWait => "onWait"
  end.

Definition HandlerType_of_string (s : string) : option HandlerType :=
  find (λ h, String.eqb (HandlerType_String h) s)
    [HandlerOnInit; HandlerOnSuccess; HandlerOnFailure; HandlerOnAbort; HandlerOnExit; HandlerOnWait].

#[export] Instance HandlerType_countable : Countable HandlerType.
Proof.
  refine (inj_countable HandlerType_String HandlerType_of_string _). by intros [].
Defined.

(** ** Runner *)
Record Metrics := mkMetrics {
  m_startTime : Time;
  m_totalNodes : Z;
  m_completedNodes : Z;
  m_failedNodes : Z;
  m_skippedNodes : Z;
  m_canceledNodes : Z;
  m_totalExecutionTime : Duration;
}.

Record Config := mkConfig {
  cfg_MaxActiveSteps : Z;
  cfg_Timeout : Duration;
  cfg_Delay : Duration;
  cfg_Dry : bool;
  cfg_OnInit : option Step;
  cfg_OnExit : option Step;
  cfg_OnSuccess : option Step;
  cfg_OnFailure : option Step;
  cfg_OnAbort : option Step;
  cfg_OnWait : option Step;
  cfg_ForcedStatus : option Status;
}.

Record Runner := mkRunner {
  r_cfg : Config;
  r_canceled : bool;
  r_lastError : option GoError;
  r_handlers : gmap HandlerType Node;
  r_metrics : Metrics;
}.

Definition New (cfg : Config) : Runner :=
  mkRunner cfg false None ∅ (mkMetrics 0 0 0 0 0 0 0).

Definition setLastError (e : option GoError) (r : Runner) : Runner := {| r with r_lastError := e |}.
Definition setCanceled (r : Runner) : Runner := {| r with r_canceled := true |}.
Definition isCanceled (r : Runner) : bool := r_canceled r.
Definition isError (r : Runner) : bool := bool_decide (r_lastError r ≠ None).
Definition HandlerNode (h : HandlerType) (r : Runner) : option Node := r_handlers r !! h.

(** [setup] makes a node for each configured handler; [mkdirErr] is the result
    of creating the log directory. *)
Definition handlerSteps (cfg : Config) : list (HandlerType * option Step) :=
  [(HandlerOnInit, cfg_OnInit cfg); (HandlerOnExit, cfg_OnExit cfg);
   (HandlerOnSuccess, cfg_OnSuccess cfg); (HandlerOnFailure, cfg_OnFailure cfg);
   (HandlerOnAbort, cfg_OnAbort cfg); (HandlerOnWait, cfg_OnWait cfg)].

Definition setup (mkdirErr : option GoError) (now : Time) (r : Runner) : GoError + Runner :=
  match (if cfg_Dry (r_cfg r) then None else mkdirErr) with
  | Some e => inl (ErrWrap e)
  | None => inr {| r with
      r_handlers := foldl (λ m '(h, st),
        match st with Some step => <[h := NewNode step NodeState_zero]> m | None => m end)
        ∅ (handlerSteps (r_cfg r));
      r_metrics := {| (r_metrics r) with m_startTime := now |} |}
  end.

(** ** Readiness

    [isReady] for the node [id]: whether it can start, and the plan with the
    node marked when a dependency rules it out.  A dependency of a plan's node
    is a node of the plan ([plan_wf]); the [None] branch is unreachable. *)
Section Readiness.
Context `{LogFiles}.

Fixpoint isReady_deps (id : Z) (deps : list Z) (p : Plan) : bool * Plan :=
  match deps with
  | [] => (true, p)
  | depID :: rest =>
      match GetNode p depID with
      | None => (false, p)
      | Some dep =>
          match Node_Status dep with
          | NodeSucceeded | NodePartiallySucceeded => isReady_deps id rest p
          | NodeFailed =>
              let '(c, dep') := ShouldContinue dep in
              let p := update_node depID (λ _, dep') p in
              if c then isReady_deps id rest p
              else (false, update_node id (λ n, SetError (Some ErrUpstreamFailed) (SetStatus NodeAborted n)) p)
          | NodeSkipped =>
              if ns_SkippedByRetry (n_State dep) then isReady_deps id rest p
              else
                let '(c, dep') := ShouldContinue dep in
                let p := update_node depID (λ _, dep') p in
                if c then isReady_deps id rest p
                else (false, update_node id (λ n, SetError (Some ErrUpstreamSkipped) (SetStatus NodeSkipped n)) p)
          | NodeAborted => (false, update_node id (SetStatus NodeAborted) p)
          | NodeRejected =>
              (false, update_node id (λ n, SetError (Some ErrUpstreamRejected) (SetStatus NodeAborted n)) p)
          | NodeNotStarted | NodeRunning | NodeRetrying | NodeWaiting => (false, p)
          end
      end
  end.

Definition isReady (id : Z) (p : Plan) : bool * Plan := isReady_deps id (Dependencies p id) p.

(** ** Status of the run *)
Definition isSucceed (p : Plan) : bool :=
  forallb (λ s, bool_decide (s = NodeSucceeded) || bool_decide (s = NodeSkipped) ||
                bool_decide (s = NodePartiallySucceeded)) (statuses p).

(** The first pass of [isPartialSuccess]: no failed node that may not continue. *)
Fixpoint failures_may_continue (ids : list Z) (p : Plan) : bool * Plan :=
  match ids with
  | [] => (true, p)
  | id :: rest =>
      match GetNode p id with
      | None => failures_may_continue rest p
      | Some n =>
          match Node_Status n with
          | NodeFailed =>
              let '(c, n') := ShouldContinue n in
              let p := update_node id (λ _, n') p in
              if c then failures_may_continue rest p else (false, p)
          | _ => failures_may_continue rest p
          end
      end
  end.

(** The second pass: [(hasSuccessfulNodes, hasFailuresWithContinueOn)]. *)
Fixpoint partial_success_flags (ids : list Z) (hasS hasF : bool) (p : Plan) : bool * bool * Plan :=
  match ids with
  | [] => (hasS, hasF, p)
  | id :: rest =>
      match GetNode p id with
      | None => partial_success_flags rest hasS hasF p
      | Some n =>
          match Node_Status n with
          | NodeSucceeded => partial_success_flags rest true hasF p
          | NodeFailed =>
              let '(c, n1) := ShouldContinue n in
              if c then
                let '(ms, n2) := ShouldMarkSuccess n1 in
                partial_success_flags rest hasS (hasF || negb ms) (update_node id (λ _, n2) p)
              else partial_success_flags rest hasS hasF (update_node id (λ _, n1) p)
          | NodePartiallySucceeded => partial_success_flags rest true true p
          | NodeNotStarted | NodeRunning | NodeRetrying | NodeAborted | NodeSkipped
          | NodeWaiting | NodeRejected => partial_success_flags rest hasS hasF p
          end
      end
  end.

Definition isPartialSuccess (p : Plan) : bool * Plan :=
  let '(ok, p) := failures_may_continue (p_nodes p) p in
  if ok then
    let '(hasS, hasF, p) := partial_success_flags (p_nodes p) false false p in
    (hasS && hasF, p)
  else (false, p).

Definition Runner_Status (r : Runner) (p : Plan) : Status * Plan :=
  if isCanceled r && negb (isSucceed p) then (Aborted, p)
  else if negb (IsStarted p) then (NotStarted, p)
  else
    let states := NodeStates p in
    if HasRunning states then (Running, p)
    else if HasRetrying states then (Queued, p)
    else if HasRejected states then (Rejected, p)
    else if HasWaiting states then (Waiting, p)
    else if HasNotStarted states && negb (IsFinished p) then (Running, p)
    else match cfg_ForcedStatus (r_cfg r) with
    | Some s => (s, p)
    | None =>
        let '(partial, p) := isPartialSuccess p in
        if partial then (PartiallySucceeded, p)
        else if isError r then (Failed, p)
        else (Succeeded, p)
    end.

End Readiness.

(** ** Retries and repeats *)
Definition isTimeout (now startedAt : Time) (r : Runner) : bool :=
  (0 <? cfg_Timeout (r_cfg r))%Z && (cfg_Timeout (r_cfg r) <? Sub now startedAt)%Z.

(** [shouldRetryNode] up to the backoff sleep of an inline retry: [ext] is
    [externalStepRetryEnabled]. *)
Definition shouldRetryNode (ext : bool) (execErr : GoError) (r : Runner) (n : Node)
    : bool * Runner * Node :=
  let exitCode := default 1%Z (exitCodeFromError execErr) in
  if negb (ShouldRetry (n_retryPolicy n) exitCode) then
    (false, setLastError (Some execErr) r, MarkError (Some execErr) (SetStatus NodeFailed n))
  else if ext then
    (false, r, SetStatus NodeRetrying (IncRetryCount n))
  else
    (true, r, IncRetryCount n).

(** [shouldRetryNode] after the sleep, at the time [now]. *)
Definition retryAfterSleep (now : Time) (n : Node) : Node := SetStatus NodeRunning (SetRetriedAt now n).

(** [handleNodeExecutionError]: whether the node is to be retried, after a sleep. *)
Definition handleNodeExecutionError `{LogFiles} (ext : bool) (now startAt : Time)
    (execErr : option GoError) (r : Runner) (n : Node) : bool * Runner * Node :=
  match execErr with
  | None => (false, r, n)
  | Some e =>
      let s := Node_Status n in
      if bool_decide (s = NodeSucceeded) || bool_decide (s = NodeAborted) ||
         bool_decide (s = NodePartiallySucceeded) then (false, r, n)
      else if is_deadline e then
        (false, setLastError (Some e) r,
         if (0 <? st_Timeout (n_Step n))%Z then SetStatus NodeFailed n
         else if isTimeout now startAt r then SetStatus NodeAborted n
         else SetStatus NodeAborted n)
      else if isTimeout now startAt r then
        (false, setLastError (Some e) r, SetStatus NodeAborted n)
      else if isCanceled r then (false, setLastError (Some e) r, n)
      else if (GetRetryCount n <? nrp_Limit (n_retryPolicy n))%Z then
        shouldRetryNode ext e r n
      else
        let n := SetStatus NodeFailed n in
        let '(ms, n) := ShouldMarkSuccess n in
        if ms then (false, r, SetStatus NodeSucceeded n)
        else (false, setLastError (Some e) r, MarkError (Some e) n)
  end.

(** [condMet] is [EvalCondition(...) == nil] for the policy's condition. *)
Definition evalWhileCondition (condMet : bool) (rp : RepeatPolicy) (execErr : option GoError)
    (n : Node) : bool :=
  match rep_Condition rp with
  | Some _ => condMet
  | None =>
      match rep_ExitCode rp with
      | _ :: _ => bool_decide (ns_ExitCode (n_State n) ∈ rep_ExitCode rp)
      | [] => bool_decide (execErr = None)
      end
  end.

Definition evalUntilCondition (condMet : bool) (rp : RepeatPolicy) (execErr : option GoError)
    (n : Node) : bool :=
  match rep_Condition rp with
  | Some _ => negb condMet
  | None =>
      match rep_ExitCode rp with
      | _ :: _ => negb (bool_decide (ns_ExitCode (n_State n) ∈ rep_ExitCode rp))
      | [] => negb (bool_decide (execErr = None))
      end
  end.

Definition shouldRepeatNode (condMet : bool) (execErr : option GoError) (n : Node) : bool :=
  let rp := st_RepeatPolicy (n_Step n) in
  if (0 <? rep_Limit rp)%Z && (rep_Limit rp <=? ns_DoneCount (n_State n))%Z then false
  else match rep_Mode rp with
  | RepeatModeWhile => evalWhileCondition condMet rp execErr n
  | RepeatModeUntil => evalUntilCondition condMet rp execErr n
  | _ => false
  end.

Definition prepareNodeForRepeat (r : Runner) (n : Node) : Runner * Node :=
  let n := SetStatus NodeRunning n in
  let r := if bool_decide (r_lastError r = ns_Error (n_State n)) then setLastError None r else r in
  (r, SetRepeated true n).

(** ** Segments of a node's goroutine *)
Definition prepareNode (o : PrepareOutcome) (r : Runner) (n : Node) : option GoError * Node :=
  if cfg_Dry (r_cfg r) then (None, n) else Prepare o n.

Definition teardownNode (closeErr : option GoError) (r : Runner) (n : Node) : Node * option GoError :=
  if cfg_Dry (r_cfg r) then (n, None) else Teardown closeErr n.

(** [meetsPreconditions]; [evalErr] is what the evaluation of the step's
    preconditions returns when it has any. *)
Definition evalPreconditions (evalErr : option GoError) (n : Node) : option GoError :=
  match st_Preconditions (n_Step n) with [] => None | _ :: _ => evalErr end.

Definition meetsPreconditions (evalErr : option GoError) (n : Node) : bool * Node :=
  match evalPreconditions evalErr n with
  | Some e =>
      let n := SetStatus NodeSkipped n in
      (false, if is_condition_not_met e then n else SetError (Some e) n)
  | None => (true, n)
  end.

(** The chat messages a node starts from.  [store] is the handler's
    [ReadStepMessages] ([None]: the read failed), [supportsChat] the executor
    types that take messages. *)
Definition setupChatMessages (store : option (string → option (list LLMMessage)))
    (supportsChat : string → bool) (n : Node) : Node :=
  match store with
  | None => n
  | Some read =>
      if negb (supportsChat (st_ExecutorType (n_Step n))) then n
      else
        let inherited := DeduplicateSystemMessages
          (concat (omap read (st_Depends (n_Step n)))) in
        match inherited with [] => n | _ :: _ => SetChatMessages inherited n end
  end.

Definition setupPushBackConversation (store : option (string → option (list LLMMessage)))
    (supportsChat : string → bool) (n : Node) : Node :=
  match store with
  | None => n
  | Some read =>
      if negb (supportsChat (st_ExecutorType (n_Step n))) then n
      else if (ns_ApprovalIteration (n_State n) =? 0)%Z then n
      else match read (Name n) with
      | None | Some [] => n
      | Some ms => SetChatMessages ms n
      end
  end.

(** The status of a node that leaves the execution loop. *)
Definition finalStatus (r : Runner) (n : Node) : Node :=
  let n :=
    if bool_decide (Node_Status n = NodeRunning) then
      let isRepetitive := negb (bool_decide (rep_Mode (st_RepeatPolicy (n_Step n)) = RepeatModeNone)) in
      if negb isRepetitive && isCanceled r then SetStatus NodeAborted n
      else if bool_decide (st_Approval (n_Step n) ≠ None) then SetStatus NodeWaiting n
      else SetStatus NodeSucceeded n
    else n in
  if bool_decide (Node_Status n = NodeSucceeded) && bool_decide (st_Approval (n_Step n) ≠ None)
  then SetStatus NodeWaiting n else n.

Definition recoverNodePanic (panicErr : option GoError) (r : Runner) (n : Node) : Runner * Node :=
  match panicErr with
  | None => (r, n)
  | Some e =>
      let r := setLastError (Some e) r in
      ({| r with r_metrics := {| (r_metrics r) with
           m_failedNodes := (m_failedNodes (r_metrics r) + 1)%Z |} |},
       MarkError (Some e) n)
  end.

Definition finishNode (now : Time) (r : Runner) (n : Node) : Runner * Node :=
  let m := r_metrics r in
  let m :=
    match Node_Status n with
    | NodeSucceeded | NodePartiallySucceeded =>
        {| m with m_completedNodes := (m_completedNodes m + 1)%Z |}
    | NodeFailed | NodeRejected => {| m with m_failedNodes := (m_failedNodes m + 1)%Z |}
    | NodeSkipped => {| m with m_skippedNodes := (m_skippedNodes m + 1)%Z |}
    | NodeAborted => {| m with m_canceledNodes := (m_canceledNodes m + 1)%Z |}
    | NodeWaiting | NodeNotStarted | NodeRunning | NodeRetrying => m
    end in
  ({| r with r_metrics := m |}, Finish now n).

(** ** Event handlers *)
Record HandlerOutcome := mkHandlerOutcome {
  ho_prepare : PrepareOutcome;
  ho_precond : option GoError;
  ho_exec : ExecOutcome;
  ho_closeErr : option GoError;
  ho_now : Time;
}.

(** [runEventHandler] up to its deferred calls: the error it returns, the node
    and whether the teardown was deferred.  The environment of the handler
    holds the run's status, so the status is computed first. *)
Definition runEventHandler_body (o : HandlerOutcome) (n : Node) : option GoError * Node * bool :=
  let '(perr, n) := Prepare (ho_prepare o) n in
  match perr with
  | Some _ => (None, SetStatus NodeFailed n, false)
  | None =>
      match evalPreconditions (ho_precond o) n with
      | Some _ => (None, SetStatus NodeSkipped n, true)
      | None =>
          let '(err, n) := Execute (ho_exec o) (SetStatus NodeRunning n) in
          match err with
          | Some e => (Some e, SetStatus NodeFailed n, true)
          | None => (None, SetStatus NodeSucceeded n, true)
          end
      end
  end.

Definition runEventHandler `{LogFiles} (o : HandlerOutcome) (r : Runner) (p : Plan) (n : Node)
    : option GoError * Plan * Node :=
  if cfg_Dry (r_cfg r) then (None, p, Finish (ho_now o) (SetStatus NodeSucceeded n))
  else
    let p := (Runner_Status r p).2 in
    let '(err, n, td) := runEventHandler_body o n in
    let n := if td then (Teardown (ho_closeErr o) n).1 else n in
    (err, p, Finish (ho_now o) n).

(** The handlers that the final status calls for, the exit handler last;
    [None] when the run returns without them. *)
Definition eventHandlers (s : Status) : option (list HandlerType) :=
  match s with
  | Succeeded | PartiallySucceeded => Some [HandlerOnSuccess; HandlerOnExit]
  | Failed | Rejected => Some [HandlerOnFailure; HandlerOnExit]
  | Aborted => Some [HandlerOnAbort; HandlerOnExit]
  | Waiting | Queued => None
  | NotStarted | Running => Some [HandlerOnExit]
  end.

(** ** Stopping

    [Cancel] and the flag part of [Signal]; a signal reaches the nodes one
    by one ([Signal_node]), repetitive ones excepted. *)
Definition Runner_Cancel (r : Runner) (p : Plan) : Runner * Plan :=
  (setCanceled r, foldl (λ p id, update_node id Node_Cancel p) p (p_nodes p)).

Definition Signal_flag `{SignalTable} (sig : Z) (r : Runner) : Runner :=
  if negb (isCanceled r) && isTerminationSignal sig then setCanceled r else r.

Definition Signal_node `{SignalTable} (sig : Z) (allowOverride : bool) (n : Node) : Node :=
  if bool_decide (rep_Mode (st_RepeatPolicy (n_Step n)) ≠ RepeatModeNone) then n
  else Node_Signal sig allowOverride n.
