(* ===== verification/RunnerLoop.v ===== *)
(** * The event loop of the runner (internal/runtime/runner.go, [Run])

    The run as a transition system: the event loop, one goroutine per started
    node, the callers of [Signal] and the context.  A step is an atomic
    segment of one of them; between two segments the others may run.  The
    channels are queues with the capacity the code gives them, and a segment
    that would block is disabled.  Readiness of a node and the decision about the
    error of an execution are a segment each; the sleep before a retry is a program
    point of its own.  The goroutine of a node is modelled from its deferred calls on:
    [setupVariables] before them builds the context, and a panic there is not recovered
    and ends the process. *)

From stdpp Require Import gmap strings list.
From Stdlib Require Import ZArith Lia.
From S2P Require Import Prelude Status Step Exec Node Graph Plan Runner.

(** ** Program points of a node's goroutine *)
Inductive GPhase :=
  | GPrepare                              (* after setupVariables: prepareNode *)
  | GPrecond                              (* meetsPreconditions, chat messages *)
  | GLoop                                 (* the condition of the ExecRepeat loop *)
  | GExec                                 (* execNode: setting up the executor *)
  | GRun                                  (* execNode: the command runs *)
  | GHandle (execErr : option GoError)    (* handleNodeExecutionError *)
  | GSleep                                (* the backoff sleep of a retry *)
  | GRepeat (execErr : option GoError)    (* shouldRepeatNode *)
  | GFinal                                (* status on leaving the loop *)
  | GTeardown                             (* teardownNode *)
  | GDefer (panicked : option GoError)    (* doneCh <- n *)
  | GRecover (panicked : option GoError)  (* recoverNodePanic *)
  | GFinish                               (* finishNode, wg.Done *)
  | GExited.

(** ** Program points of [Run] *)
Inductive LoopPC :=
  | LPreconditions                        (* EvalConditions of the DAG *)
  | LInitHandler
  | LScan                                 (* initial ready nodes *)
  | LCheck                                (* for !plan.CheckFinished() *)
  | LCancel                               (* canceled and nothing running *)
  | LActive                               (* choosing activeReadyCh *)
  | LStates (active : bool)               (* waiting and retrying nodes *)
  | LDeadlock (active : bool)
  | LSelect (active : bool)
  | LProc (children queue : list Z)       (* processCompletedNode *)
  | LSend (child : Z) (children queue : list Z)  (* readyCh <- child *)
  | LWait                                 (* wg.Wait() *)
  | LHandlers (hs : list HandlerType)
  | LWaitHandler
  | LReturned.

Record PendingSignal := mkPendingSignal {
  ps_sig : Z;
  ps_allowOverride : bool;
  ps_nodes : list Z;       (* the nodes it has still to reach *)
}.

Record World := mkWorld {
  w_runner : Runner;
  w_plan : Plan;
  w_progress : bool;        (* progressCh != nil *)
  w_readyCh : list Z;
  w_doneCh : list Z;
  w_running : Z;
  w_gs : gmap Z GPhase;
  w_pc : LoopPC;
  w_ctxDone : bool;         (* ctxDoneCh != nil *)
  w_signals : list PendingSignal;
}.

(** What a step of a goroutine obtains from outside. *)
Inductive NodeAct :=
  | APrepare (o : PrepareOutcome)
  | APrecond (evalErr : option GoError)
      (store : option (string → option (list LLMMessage))) (supportsChat : string → bool)
  | AStep
  | AExec (o : ExecOutcome)
  | AHandle (ext : bool) (now : Time)
  | AWake (now : Time)
  | ARepeat (condMet : bool)
  | ATeardown (closeErr : option GoError)
  | AFinish (now : Time)
  | APanic (e : GoError).

Inductive Event :=
  | EPreconditions (evalErr : option GoError)
  | EHandler (o : HandlerOutcome)
  | ELoop                                 (* a deterministic step of the loop *)
  | ERecvReady
  | ERecvDone
  | ECtxDone (deadline : bool)
  | ENode (id : Z) (a : NodeAct)
  | ESignal (sig : Z) (allowOverride : bool)
  | ESignalNode (i : nat).                (* the [i]-th pending signal, next node *)

Definition capacity (w : World) : nat := length (p_nodes (w_plan w)).

Definition set_pc (pc : LoopPC) (w : World) : World := {| w with w_pc := pc |}.

(** Storing a node back and moving its goroutine. *)
Definition set_node (id : Z) (n : Node) (w : World) : World :=
  {| w with w_plan := update_node id (λ _, n) (w_plan w) |}.
Definition set_phase (id : Z) (ph : GPhase) (w : World) : World :=
  {| w with w_gs := <[id := ph]> (w_gs w) |}.
Definition set_runner (r : Runner) (w : World) : World := {| w with w_runner := r |}.

Section Loop.
Context `{LogFiles} `{SignalTable}.

(** ** The goroutine of a node

    A segment of the goroutine: the runner, the node and the next program
    point.  [progress] is [progressCh != nil]. *)
Definition node_segment (progress : bool) (startAt : Time) (r : Runner) (n : Node)
    (ph : GPhase) (a : NodeAct) : option (Runner * Node * GPhase) :=
  match ph, a with
  | GPrepare, APrepare o =>
      let '(err, n) := prepareNode o r n in
      match err with
      | Some e => Some (setLastError (Some e) r, SetStatus NodeFailed (MarkError (Some e) n), GDefer None)
      | None => Some (r, n, GPrecond)
      end
  | GPrecond, APrecond evalErr store supportsChat =>
      let '(ok, n) := meetsPreconditions evalErr n in
      if ok then
        Some (r, setupPushBackConversation store supportsChat (setupChatMessages store supportsChat n), GLoop)
      else Some (r, n, GDefer None)
  | GLoop, AStep => Some (r, n, if isCanceled r then GFinal else GExec)
  | GExec, AExec o =>
      if cfg_Dry (r_cfg r) then Some (r, n, GHandle None)
      else
        let '(err, n) := Execute_setup o n in
        match err with
        | Some e => Some (r, n, GHandle (Some e))
        | None => Some (r, n, GRun)
        end
  | GRun, AExec o =>
      let '(err, n) := Execute_run o n in
      Some (r, n, GHandle err)
  | GHandle execErr, AHandle ext now =>
      let '(retry, r, n) := handleNodeExecutionError ext now startAt execErr r n in
      if retry then Some (r, n, GSleep)
      else if bool_decide (Node_Status n = NodeRetrying) then Some (r, n, GDefer None)
      else Some (r, if bool_decide (Node_Status n ≠ NodeAborted) then IncDoneCount n else n,
                 GRepeat execErr)
  | GSleep, AWake now => Some (r, retryAfterSleep now n, GLoop)
  | GRepeat execErr, ARepeat condMet =>
      if shouldRepeatNode condMet execErr n && negb (isCanceled r) then
        let '(r, n) := prepareNodeForRepeat r n in Some (r, n, GLoop)
      else if bool_decide (execErr ≠ None) && progress then Some (r, n, GDefer None)
      else Some (r, n, GFinal)
  | GFinal, AStep => Some (r, finalStatus r n, GTeardown)
  | GTeardown, ATeardown closeErr =>
      let '(n, err) := teardownNode closeErr r n in
      match err with
      | Some e => Some (setLastError (Some e) r, SetStatus NodeFailed n, GDefer None)
      | None => Some (r, n, GDefer None)
      end
  | GDefer panicked, AStep => Some (r, n, GRecover panicked)
  | GRecover panicked, AStep =>
      let '(r, n) := recoverNodePanic panicked r n in Some (r, n, GFinish)
  | GFinish, AFinish now =>
      let '(r, n) := finishNode now r n in Some (r, n, GExited)
  | (GPrepare | GPrecond | GLoop | GExec | GRun | GHandle _ | GRepeat _ | GFinal | GTeardown),
    APanic e => Some (r, n, GDefer (Some e))
  | _, _ => None
  end.

(** The send on [doneCh] waits for room in the channel. *)
Definition is_defer (ph : GPhase) : bool := match ph with GDefer _ => true | _ => false end.

Definition step_node (id : Z) (ph : GPhase) (n : Node) (a : NodeAct) (w : World) : option World :=
  if is_defer ph && bool_decide (capacity w <= length (w_doneCh w)) then None
  else
    '(r, n, ph') ← node_segment (w_progress w) (p_startedAt (w_plan w)) (w_runner w) n ph a;
    Some {| w with
      w_runner := r;
      w_plan := update_node id (λ _, n) (w_plan w);
      w_gs := <[id := ph']> (w_gs w);
      w_doneCh := if is_defer ph then w_doneCh w ++ [id] else w_doneCh w |}.

(** ** The event loop *)

(** The initial scan: the ready nodes, in plan order. *)
Fixpoint scan (ids : list Z) (p : Plan) (ready : list Z) : Plan * list Z :=
  match ids with
  | [] => (p, ready)
  | id :: rest =>
      match GetNode p id with
      | None => scan rest p ready
      | Some n =>
          if bool_decide (Node_Status n = NodeNotStarted) then
            let '(b, p) := isReady id p in
            scan rest p (if b then ready ++ [id] else ready)
          else scan rest p ready
      end
  end.

(** One iteration of the inner loop of [processCompletedNode]. *)
Definition step_child (c : Z) (children queue : list Z) (w : World) : World :=
  match GetNode (w_plan w) c with
  | None => set_pc (LProc children queue) w
  | Some n =>
      if bool_decide (Node_Status n = NodeNotStarted) then
        let '(ready, p) := isReady c (w_plan w) in
        let w := {| w with w_plan := p |} in
        if ready then set_pc (LSend c children queue) w
        else
          match GetNode p c with
          | Some n' =>
              if bool_decide (Node_Status n' ≠ NodeNotStarted)
              then set_pc (LProc children (queue ++ [c])) w
              else set_pc (LProc children queue) w
          | None => set_pc (LProc children queue) w
          end
      else set_pc (LProc children queue) w
  end.

Definition all_exited (w : World) : bool :=
  forallb (λ '(_, ph), match ph with GExited => true | _ => false end) (map_to_list (w_gs w)).

(** The deterministic steps of [Run]. *)
Definition step_loop (w : World) : option World :=
  let r := w_runner w in
  let p := w_plan w in
  match w_pc w with
  | LScan =>
      let '(p, ready) := scan (p_nodes p) p [] in
      Some (set_pc LCheck {| w with w_plan := p; w_readyCh := ready |})
  | LCheck => Some (set_pc (if CheckFinished p then LWait else LCancel) w)
  | LCancel => Some (set_pc (if isCanceled r && (w_running w =? 0)%Z then LWait else LActive) w)
  | LActive =>
      let maxActiveRuns := cfg_MaxActiveSteps (r_cfg r) in
      Some (set_pc (LStates (negb (isCanceled r) &&
        ((maxActiveRuns =? 0)%Z || (w_running w <? maxActiveRuns)%Z))) w)
  | LStates active =>
      let idle := (w_running w =? 0)%Z && bool_decide (w_readyCh w = []) in
      if idle && HasWaiting (NodeStates p) then Some (set_pc LWait w)
      else if idle && HasRetrying (NodeStates p) then Some (set_pc LWait w)
      else Some (set_pc (LDeadlock active) w)
  | LDeadlock active =>
      if (w_running w =? 0)%Z && (negb active || bool_decide (w_readyCh w = [])) &&
         negb (CheckFinished p)
      then Some (set_pc LWait (set_runner (setLastError (Some ErrDeadlockDetected) r) w))
      else Some (set_pc (LSelect active) w)
  | LProc [] [] => Some (set_pc LCheck w)
  | LProc [] (curr :: queue) => Some (set_pc (LProc (Dependents p curr) queue) w)
  | LProc (c :: children) queue => Some (step_child c children queue w)
  | LSend c children queue =>
      if bool_decide (length (w_readyCh w) < capacity w)
      then Some (set_pc (LProc children queue) {| w with w_readyCh := w_readyCh w ++ [c] |})
      else None
  | LWait =>
      if all_exited w then
        let '(s, p) := Runner_Status r p in
        let w := {| w with w_plan := p |} in
        match eventHandlers s with
        | Some hs => Some (set_pc (LHandlers hs) w)
        | None => Some (set_pc (if bool_decide (s = Waiting) then LWaitHandler else LReturned) w)
        end
      else None
  | LHandlers [] => Some (set_pc LReturned w)
  | _ => None
  end.

(** Running the handler [h], when there is one; [keepErr] records its error. *)
Definition run_handler (h : HandlerType) (o : HandlerOutcome) (keepErr : bool) (w : World)
    : option GoError * World :=
  match HandlerNode h (w_runner w) with
  | None => (None, w)
  | Some n =>
      let '(err, p, n) := runEventHandler o (w_runner w) (w_plan w) n in
      let r := {| (w_runner w) with r_handlers := <[h := n]> (r_handlers (w_runner w)) |} in
      let r := match err with Some e => if keepErr then setLastError (Some e) r else r | None => r end in
      (err, {| w with w_plan := p; w_runner := r |})
  end.

(** Taking a node from [readyCh]. *)
Definition start_node (id : Z) (w : World) : World :=
  match GetNode (w_plan w) id with
  | None => set_pc LCheck w
  | Some n =>
      if bool_decide (Node_Status n ≠ NodeNotStarted) then set_pc LCheck w
      else set_pc LCheck (set_phase id GPrepare
             {| (set_node id (SetStatus NodeRunning n) w) with w_running := (w_running w + 1)%Z |})
  end.

Definition step (w : World) (e : Event) : option World :=
  match e, w_pc w with
  | EPreconditions evalErr, LPreconditions =>
      match evalErr with
      | Some _ =>
          let '(r, p) := Runner_Cancel (w_runner w) (w_plan w) in
          Some (set_pc LInitHandler {| w with w_runner := r; w_plan := p |})
      | None => Some (set_pc LInitHandler w)
      end
  | EHandler o, LInitHandler =>
      if isCanceled (w_runner w) then Some (set_pc LScan w)
      else
        let '(err, w) := run_handler HandlerOnInit o true w in
        let w := match err with Some _ => set_runner (setCanceled (w_runner w)) w | None => w end in
        Some (set_pc LScan w)
  | EHandler o, LHandlers (h :: hs) => Some (set_pc (LHandlers hs) (run_handler h o true w).2)
  | EHandler o, LWaitHandler => Some (set_pc LReturned (run_handler HandlerOnWait o false w).2)
  | ELoop, _ => step_loop w
  | ERecvReady, LSelect true =>
      match w_readyCh w with
      | [] => None
      | id :: rest => Some (start_node id {| w with w_readyCh := rest |})
      end
  | ERecvDone, LSelect _ =>
      match w_doneCh w with
      | [] => None
      | id :: rest =>
          let w := {| w with w_doneCh := rest; w_running := (w_running w - 1)%Z |} in
          Some (set_pc (if isCanceled (w_runner w) then LCheck
                        else LProc (Dependents (w_plan w) id) []) w)
      end
  | ECtxDone deadline, LSelect _ =>
      if w_ctxDone w then
        let r := w_runner w in
        let r := if bool_decide (r_lastError r = None) && deadline
                 then setLastError (Some DeadlineExceeded) r else r in
        Some (set_pc LCheck {| w with w_runner := r; w_ctxDone := false |})
      else None
  | ENode id a, _ =>
      match w_gs w !! id, GetNode (w_plan w) id with
      | Some ph, Some n => step_node id ph n a w
      | _, _ => None
      end
  | ESignal sig allowOverride, _ =>
      Some {| w with
        w_runner := Signal_flag sig (w_runner w);
        w_signals := w_signals w ++ [mkPendingSignal sig allowOverride (p_nodes (w_plan w))] |}
  | ESignalNode i, _ =>
      match w_signals w !! i with
      | Some (mkPendingSignal sig ovr (id :: rest)) =>
          Some {| w with
            w_plan := update_node id (Signal_node sig ovr) (w_plan w);
            w_signals := <[i := mkPendingSignal sig ovr rest]> (w_signals w) |}
      | _ => None
      end
  | _, _ => None
  end.

(** The state of [Run] after [setup]. *)
Definition init_world (r : Runner) (p : Plan) (progress : bool) : World :=
  let r := {| r with r_metrics := {| (r_metrics r) with
                m_totalNodes := Z.of_nat (length (p_nodes p)) |} |} in
  mkWorld r p progress [] [] 0 ∅ LPreconditions true [].

(** Runs: sequences of events the world accepts. *)
Fixpoint run (w : World) (es : list Event) : option World :=
  match es with
  | [] => Some w
  | e :: es => w' ← step w e; run w' es
  end.

(** The worlds reached by events of a given kind. *)
Inductive reachable (ok : Event → Prop) (w0 : World) : World → Prop :=
  | reach_init : reachable ok w0 w0
  | reach_step w e w' : reachable ok w0 w → ok e → step w e = Some w' → reachable ok w0 w'.

Lemma run_reachable_from ok w0 es : ∀ w w',
  reachable ok w0 w → Forall ok es → run w es = Some w' → reachable ok w0 w'.
Proof.
  induction es as [|e es IH]; intros w w' Hr Hok; simpl; [intros [= <-]; done|].
  apply Forall_cons in Hok as [He Hok].
  intros (w1 & H1 & H2)%bind_Some. eapply IH; [|exact Hok|exact H2]. by eapply reach_step.
Qed.

Lemma run_reachable ok w0 es w : Forall ok es → run w0 es = Some w → reachable ok w0 w.
Proof. apply run_reachable_from. constructor. Qed.

Lemma reachable_weaken (ok ok' : Event → Prop) w0 w :
  (∀ e, ok e → ok' e) → reachable ok w0 w → reachable ok' w0 w.
Proof. intros H1. induction 1; [constructor|]. eapply reach_step; eauto. Qed.
End Loop.

(** The statuses an executor's [DetermineNodeStatus] reports (the sub-DAG and
    parallel executors): a hypothesis on the outcomes of executions. *)
Definition valid_outcome (o : ExecOutcome) : Prop :=
  match xo_determine o with
  | Some (inr s) => s ∈ [NodeSucceeded; NodePartiallySucceeded; NodeWaiting; NodeAborted]
  | _ => True
  end.

Definition valid_event (e : Event) : Prop :=
  match e with ENode _ (AExec o) => valid_outcome o | _ => True end.
