(* ===== verification/RunnerReady.v ===== *)
(** * Readiness of a node

    What [Runner.isReady] decides and what it changes. *)

From stdpp Require Import gmap strings list relations.
From Stdlib Require Import ZArith Lia.
From S2P Require Import Prelude Status Step Exec Node Graph Plan PlanWf PlanBuild Runner.

(** ** Plans that differ in the state of their nodes only *)
Definition status_of (p : Plan) (id : Z) : option NodeStatus := Node_Status <$> GetNode p id.

Record same_shape (p q : Plan) : Prop := {
  ss_nodes : p_nodes q = p_nodes p;
  ss_deps : DependencyMap q = DependencyMap p;
  ss_dependants : DependantMap q = DependantMap p;
  ss_started : p_startedAt q = p_startedAt p;
  ss_dom : ∀ id, is_Some (GetNode q id) ↔ is_Some (GetNode p id);
}.

#[export] Instance same_shape_preorder : PreOrder same_shape.
Proof.
  split; [by split|]. intros p q r [] []. split; try congruence. naive_solver.
Qed.

Lemma GetNode_update p u v f :
  GetNode (update_node u f p) v = if decide (u = v) then f <$> GetNode p v else GetNode p v.
Proof.
  unfold GetNode, update_node; simpl. case_decide; subst; [by rewrite lookup_alter_eq|].
  by rewrite lookup_alter_ne.
Qed.

Lemma update_same_shape u f p : same_shape p (update_node u f p).
Proof. split; try done. intros id. rewrite GetNode_update. case_decide; [by rewrite fmap_is_Some|done]. Qed.

Lemma same_shape_Dependencies p q id : same_shape p q → Dependencies q id = Dependencies p id.
Proof. intros Hs. unfold Dependencies. by rewrite (ss_deps _ _ Hs). Qed.

Lemma same_shape_Dependents p q id : same_shape p q → Dependents q id = Dependents p id.
Proof. intros Hs. unfold Dependents. by rewrite (ss_dependants _ _ Hs). Qed.

#[export] Hint Resolve update_same_shape : dagu.

(** ** Nodes that differ in their output variables only *)
Definition cached (n m : Node) : Prop :=
  ∃ vars, m = on_state (λ st, {| st with ns_OutputVariables := vars |}) n.

#[export] Instance cached_preorder : PreOrder cached.
Proof.
  split.
  - intros n. exists (ns_OutputVariables (n_State n)). by destruct n as [? []].
  - intros n m k [v1 ->] [v2 ->]. by exists v2.
Qed.

Lemma cached_status n m : cached n m → Node_Status m = Node_Status n.
Proof. by intros [? ->]. Qed.
Lemma cached_step n m : cached n m → n_Step m = n_Step n.
Proof. by intros [? ->]. Qed.

(** Plans whose nodes differ in their output variables only, [id] aside. *)
Record plan_cached (id : option Z) (p q : Plan) : Prop := {
  pca_shape : same_shape p q;
  pca_node : ∀ v n, Some v ≠ id → GetNode p v = Some n → ∃ m, GetNode q v = Some m ∧ cached n m;
}.

#[export] Instance plan_cached_preorder id : PreOrder (plan_cached id).
Proof.
  split; [intros p; split; [done|]; intros v n _ Hv; by exists n|].
  intros p q r [S1 N1] [S2 N2]. split; [by etrans|]. intros v n Hv Hn.
  destruct (N1 v n Hv Hn) as (m & Hm & ?). destruct (N2 v m Hv Hm) as (k & ? & ?).
  exists k. split; [done|]. by etrans.
Qed.

Lemma plan_cached_weaken id p q : plan_cached None p q → plan_cached id p q.
Proof. intros [S N]. split; [done|]. intros v n _. by apply N. Qed.

Lemma plan_cached_update_at id f p : plan_cached (Some id) p (update_node id f p).
Proof.
  split; [apply update_same_shape|]. intros v n Hv Hn. exists n.
  rewrite GetNode_update, decide_False by congruence. done.
Qed.

Lemma plan_cached_update d n m p :
  GetNode p d = Some n → cached n m → plan_cached None p (update_node d (λ _, m) p).
Proof.
  intros Hn Hc. split; [apply update_same_shape|]. intros v k _ Hk.
  rewrite GetNode_update. case_decide; subst; [|by exists k].
  rewrite Hk. exists m. split; [done|]. congruence.
Qed.

Lemma plan_cached_status id p q v :
  plan_cached id p q → Some v ≠ id → status_of q v = status_of p v.
Proof.
  intros [S N] Hv. unfold status_of. destruct (GetNode p v) as [n|] eqn:E.
  - destruct (N v n Hv E) as (m & -> & Hc). simpl. by rewrite (cached_status n m).
  - destruct (GetNode q v) eqn:E'; [|done].
    destruct (proj1 (ss_dom _ _ S v)) as [? ?]; [by eauto|congruence].
Qed.

Section Ready.
Context `{LogFiles}.

Lemma cached_ShouldContinue n : cached n (ShouldContinue n).2.
Proof. destruct (ShouldContinue_shape n) as [->|[b ->]]; [done|]. by eexists. Qed.

Lemma cached_ShouldMarkSuccess n : cached n (ShouldMarkSuccess n).2.
Proof.
  unfold ShouldMarkSuccess. pose proof (cached_ShouldContinue n) as Hc.
  destruct (ShouldContinue n) as [[] m]; done.
Qed.

(** What a dependency's state means for a node that waits for it. *)
Inductive Verdict := VOk | VWait | VStop (s : NodeStatus) (e : option GoError).

Definition dep_verdict (n : Node) : Verdict :=
  match Node_Status n with
  | NodeSucceeded | NodePartiallySucceeded => VOk
  | NodeFailed => if (ShouldContinue n).1 then VOk else VStop NodeAborted (Some ErrUpstreamFailed)
  | NodeSkipped =>
      if ns_SkippedByRetry (n_State n) || (ShouldContinue n).1 then VOk
      else VStop NodeSkipped (Some ErrUpstreamSkipped)
  | NodeAborted => VStop NodeAborted None
  | NodeRejected => VStop NodeAborted (Some ErrUpstreamRejected)
  | NodeNotStarted | NodeRunning | NodeRetrying | NodeWaiting => VWait
  end.

(** The first dependency that is not satisfied decides. *)
Fixpoint verdict (p : Plan) (deps : list Z) : Verdict :=
  match deps with
  | [] => VOk
  | d :: rest =>
      match GetNode p d with
      | None => VWait
      | Some n => match dep_verdict n with VOk => verdict p rest | v => v end
      end
  end.

Definition stop_node (s : NodeStatus) (e : option GoError) (n : Node) : Node :=
  match e with Some _ => SetError e (SetStatus s n) | None => SetStatus s n end.

Lemma verdict_ext p q deps :
  (∀ v, v ∈ deps → GetNode q v = GetNode p v) → verdict q deps = verdict p deps.
Proof.
  induction deps as [|d deps IH]; intros Hext; simpl; [done|].
  rewrite (Hext d) by by left. repeat case_match; try done; apply IH; intros; apply Hext; by right.
Qed.

Lemma update_node_self d n p : GetNode p d = Some n → update_node d (λ _, n) p = p.
Proof.
  intros Hn. unfold update_node. destruct p; simpl in *. f_equal. apply map_eq. intros v.
  rewrite lookup_alter. case_decide; subst; [|done]. unfold GetNode in Hn; simpl in Hn. by rewrite Hn.
Qed.

(** Asking about one dependency: the plan with the answer cached, and the
    verdict. *)
Lemma isReady_deps_cons id d rest p n : GetNode p d = Some n →
  ∃ p1, plan_cached None p p1 ∧ (∀ v, v ≠ d → GetNode p1 v = GetNode p v) ∧
  isReady_deps id (d :: rest) p =
    match dep_verdict n with
    | VOk => isReady_deps id rest p1
    | VWait => (false, p1)
    | VStop s e => (false, update_node id (stop_node s e) p1)
    end.
Proof.
  intros Hn. simpl. rewrite Hn.
  pose proof (plan_cached_update d n _ p Hn (cached_ShouldContinue n)) as Hc.
  assert (∀ v m, v ≠ d → GetNode (update_node d (λ _, m) p) v = GetNode p v) as Hne.
  { intros v m Hv. by rewrite GetNode_update, decide_False by congruence. }
  unfold dep_verdict.
  destruct (Node_Status n); try by (exists p; split_and!).
  - exists (update_node d (λ _, (ShouldContinue n).2) p). split_and!; [done|auto|].
    by destruct (ShouldContinue n) as [[] m].
  - destruct (ns_SkippedByRetry (n_State n)); simpl; [by exists p|].
    exists (update_node d (λ _, (ShouldContinue n).2) p). split_and!; [done|auto|].
    by destruct (ShouldContinue n) as [[] m].
Qed.

(** The decision without any assumption on the list of dependencies. *)
Lemma isReady_deps_inv id deps : ∀ p b p',
  (∀ d, d ∈ deps → is_Some (GetNode p d)) →
  isReady_deps id deps p = (b, p') →
  plan_cached (Some id) p p' ∧
  (b = true → plan_cached None p p' ∧
     ∀ d, d ∈ deps → ∃ n, GetNode p d = Some n ∧ dep_verdict n = VOk) ∧
  (b = false →
     (∃ d s, d ∈ deps ∧ plan_cached None p p' ∧ status_of p d = Some s ∧
        s ∈ [NodeNotStarted; NodeRunning; NodeRetrying; NodeWaiting]) ∨
     (∃ q s e, plan_cached None p q ∧ p' = update_node id (stop_node s e) q ∧
        s ∈ [NodeAborted; NodeSkipped])).
Proof.
  induction deps as [|d deps IH]; intros p b p' Hdeps Hr.
  { simpl in Hr. simplify_eq. split_and!; [done| |done]. intros _. split; [done|set_solver]. }
  destruct (Hdeps d) as [n Hdn]; [by left|].
  destruct (isReady_deps_cons id d deps p n Hdn) as (p1 & Hc & Hne & Heq).
  rewrite Heq in Hr. clear Heq. destruct (dep_verdict n) as [| |s e] eqn:Hv.
  - apply IH in Hr as (H1 & H2 & H3).
    2: { intros v Hv'. apply (ss_dom _ _ (pca_shape _ _ _ Hc)), Hdeps. by right. }
    split_and!; [by etrans; [by apply plan_cached_weaken|]| |].
    + intros Hb. destruct (H2 Hb) as [Hc' Hall]. split; [by etrans|].
      intros v [->|Hin]%elem_of_cons; [by exists n|].
      destruct (decide (v = d)) as [->|Hvd]; [by exists n|].
      rewrite <-Hne by done. by apply Hall.
    + intros Hb. destruct (H3 Hb) as [(v & s & Hin & Hc' & Hs & Hsl)|(q & s & e & Hc' & -> & Hsl)].
      * left. exists v, s. split_and!; [by right|by etrans| |done].
        by rewrite <-(plan_cached_status None p p1 v).
      * right. exists q, s, e. split_and!; [by etrans|done..].
  - simplify_eq. split_and!; [by apply plan_cached_weaken|done|]. intros _. left.
    exists d, (Node_Status n). split_and!; [by left|done| |].
    + unfold status_of. by rewrite Hdn.
    + unfold dep_verdict in Hv. revert Hv. repeat case_match; try done; intros _; set_solver.
  - simplify_eq. split_and!; [|done|].
    + etrans; [by apply plan_cached_weaken|apply plan_cached_update_at].
    + intros _. right. exists p1, s, e. split_and!; [done..|].
      unfold dep_verdict in Hv. revert Hv. repeat case_match; try done; intros [= <- <-]; set_solver.
Qed.

(** The decision when no dependency is listed twice. *)
Lemma isReady_deps_spec id deps : ∀ p b p',
  id ∉ deps → NoDup deps → (∀ d, d ∈ deps → is_Some (GetNode p d)) →
  isReady_deps id deps p = (b, p') →
  match verdict p deps with
  | VOk => b = true ∧ GetNode p' id = GetNode p id
  | VWait => b = false ∧ GetNode p' id = GetNode p id
  | VStop s e => b = false ∧ GetNode p' id = stop_node s e <$> GetNode p id
  end.
Proof.
  induction deps as [|d deps IH]; intros p b p' Hid Hnd Hdeps Hr; [simpl in *; by simplify_eq|].
  apply not_elem_of_cons in Hid as [Hidd Hid]. apply NoDup_cons in Hnd as [Hd Hnd].
  destruct (Hdeps d) as [n Hdn]; [by left|].
  destruct (isReady_deps_cons id d deps p n Hdn) as (p1 & Hc & Hne & Heq).
  rewrite Heq in Hr. clear Heq. simpl. rewrite Hdn.
  destruct (dep_verdict n) as [| |s e]; simplify_eq.
  - apply IH in Hr; [|done|done|].
    + rewrite (verdict_ext p p1), (Hne id Hidd) in Hr; [done|]. intros v Hv. apply Hne. by intros ->.
    + intros v Hv. rewrite Hne by (by intros ->). apply Hdeps. by right.
  - by rewrite Hne.
  - by rewrite GetNode_update, decide_True, Hne.
Qed.
End Ready.

(** The readiness test of a node of a well-formed acyclic plan: the node can
    start exactly when every dependency is satisfied; the first dependency
    that is not, either leaves the node waiting or gives it its final status
    and error.  No other node changes, cached answers aside. *)
Theorem isReady_correct `{LogFiles} (p p' : Plan) (id : Z) (b : bool)
    (Hwf : plan_wf p) (Hid : ¬ edge p id id) (Hnd : NoDup (Dependencies p id))
    (Hr : isReady id p = (b, p')) :
  plan_cached (Some id) p p' ∧
  match verdict p (Dependencies p id) with
  | VOk => b = true ∧ GetNode p' id = GetNode p id
  | VWait => b = false ∧ GetNode p' id = GetNode p id
  | VStop s e => b = false ∧ GetNode p' id = stop_node s e <$> GetNode p id
  end.
Proof.
  assert (∀ d, d ∈ Dependencies p id → is_Some (GetNode p d)) as Hdeps.
  { intros d Hd. apply (wf_store p Hwf). by apply (wf_edge_in p Hwf d id). }
  split.
  - by destruct (isReady_deps_inv id (Dependencies p id) p b p' Hdeps Hr).
  - by apply isReady_deps_spec with (p := p).
Qed.

(** ** Reading the states of a plan

    What the summaries of plan.go ([NodeStates], [CheckFinished],
    [HasActiveNodes], [IsRunning]) say about the nodes. *)

(** A status occurs in the plan when one of its nodes has it. *)
Lemma statuses_elem p s : s ∈ statuses p ↔ ∃ v, v ∈ p_nodes p ∧ status_of p v = Some s.
Proof.
  unfold statuses, Nodes, status_of. rewrite list_elem_of_fmap. setoid_rewrite list_elem_of_omap. split.
  - intros (n & -> & v & Hv & Hn). exists v. by rewrite Hn.
  - intros (v & Hv & Hs). destruct (GetNode p v) as [n|] eqn:Hn; simplify_eq/=. exists n. split; [done|]. eauto.
Qed.

Definition flag_of (s : NodeStatus) (st : PlanNodeStates) : bool :=
  match s with
  | NodeRunning => HasRunning st
  | NodeRetrying => HasRetrying st
  | NodeWaiting => HasWaiting st
  | NodeNotStarted => HasNotStarted st
  | NodeRejected => HasRejected st
  | _ => false
  end.

Definition flagged (s : NodeStatus) : bool :=
  match s with
  | NodeRunning | NodeRetrying | NodeWaiting | NodeNotStarted | NodeRejected => true
  | _ => false
  end.

(** Each flag of [NodeStates] says whether its status occurs. *)
Lemma NodeStates_flag p s : flagged s = true → flag_of s (NodeStates p) = bool_decide (s ∈ statuses p).
Proof.
  intros Hf. unfold NodeStates.
  assert (∀ l st, flag_of s (foldl (λ st s,
    match s with
    | NodeRunning => {| st with HasRunning := true |}
    | NodeRetrying => {| st with HasRetrying := true |}
    | NodeWaiting => {| st with HasWaiting := true |}
    | NodeNotStarted => {| st with HasNotStarted := true |}
    | NodeRejected => {| st with HasRejected := true |}
    | NodeSucceeded | NodeFailed | NodeAborted | NodeSkipped | NodePartiallySucceeded => st
    end) st l) = flag_of s st || bool_decide (s ∈ l)) as Hgen.
  { induction l as [|t l IH]; intros st; cbn [foldl].
    - rewrite bool_decide_false by set_solver. by rewrite orb_false_r.
    - rewrite IH. destruct (decide (s = t)) as [<-|Hne].
      + rewrite (bool_decide_true (s ∈ s :: l)) by set_solver. rewrite orb_true_r. by destruct s.
      + rewrite (bool_decide_ext (s ∈ t :: l) (s ∈ l)) by set_solver. by destruct s, t. }
  rewrite Hgen. by destruct s.
Qed.

Lemma existsb_statuses (f : NodeStatus → bool) p :
  existsb f (statuses p) = true ↔ ∃ s, s ∈ statuses p ∧ f s = true.
Proof.
  rewrite existsb_exists. split; intros (s & Hs & ?); exists s; split; try done; by apply list_elem_of_In.
Qed.

(** The plan is finished when no node has work left. *)
Lemma CheckFinished_spec p :
  CheckFinished p = true ↔
  ∀ s, s ∈ statuses p → s ∉ [NodeRunning; NodeRetrying; NodeNotStarted].
Proof.
  unfold CheckFinished. rewrite negb_true_iff, <-not_true_iff_false, existsb_statuses. split.
  - intros Hn s Hs Hin. apply Hn. exists s. split; [done|].
    rewrite !elem_of_cons, elem_of_nil in Hin. by destruct Hin as [->|[->|[->|[]]]].
  - intros Hall (s & Hs & Hb). apply (Hall s Hs). rewrite !elem_of_cons.
    repeat (apply orb_true_iff in Hb as [Hb|Hb]); apply bool_decide_eq_true in Hb; auto.
Qed.

Lemma CheckFinished_false p :
  CheckFinished p = false →
  ∃ v s, v ∈ p_nodes p ∧ status_of p v = Some s ∧ s ∈ [NodeRunning; NodeRetrying; NodeNotStarted].
Proof.
  unfold CheckFinished. rewrite negb_false_iff, existsb_statuses. intros (s & Hs & Hb).
  apply statuses_elem in Hs as (v & Hv & Hs). exists v, s. split_and!; [done..|].
  rewrite !elem_of_cons. repeat (apply orb_true_iff in Hb as [Hb|Hb]); apply bool_decide_eq_true in Hb; auto.
Qed.
