(* ===== verification/RunnerInv.v ===== *)
(** * Structural invariant of a run

    The event loop starts every node at most once, counts its goroutines
    exactly, respects the concurrency limit and never blocks on [doneCh]. *)

From stdpp Require Import gmap strings list relations.
From Stdlib Require Import ZArith Lia.
From S2P Require Import Prelude Status Step Exec Node Graph Plan PlanWf PlanBuild.
From S2P Require Import Runner RunnerLoop RunnerReady.

(** ** What happens to a node outside its goroutine *)
Record quiet_change (n m : Node) : Prop := {
  qc_step : n_Step m = n_Step n;
  qc_policy : n_retryPolicy m = n_retryPolicy n;
  qc_retries : GetRetryCount m = GetRetryCount n;
  qc_done : ns_DoneCount (n_State m) = ns_DoneCount (n_State n);
  qc_skipped : ns_SkippedByRetry (n_State m) = ns_SkippedByRetry (n_State n);
  qc_status :
    Node_Status m = Node_Status n ∨
    (Node_Status n = NodeNotStarted ∧ Node_Status m ∈ [NodeAborted; NodeSkipped]) ∨
    (Node_Status n ∈ [NodeRunning; NodeWaiting] ∧ Node_Status m = NodeAborted);
}.

#[export] Instance quiet_change_preorder : PreOrder quiet_change.
Proof.
  split; [intros n; split; by auto|].
  intros n m k [? ? ? ? ? H1] [? ? ? ? ? H2]. split; try congruence.
  revert H1 H2. rewrite !elem_of_cons, !elem_of_nil. intuition congruence.
Qed.

Lemma cached_quiet n m : cached n m → quiet_change n m.
Proof. intros [vars ->]. split; by auto. Qed.

Record plan_quiet (p q : Plan) : Prop := {
  pq_shape : same_shape p q;
  pq_node : ∀ v n, GetNode p v = Some n → ∃ m, GetNode q v = Some m ∧ quiet_change n m;
}.

#[export] Instance plan_quiet_preorder : PreOrder plan_quiet.
Proof.
  split; [intros p; split; [done|]; intros v n Hn; by exists n|].
  intros p q r [S1 N1] [S2 N2]. split; [by etrans|]. intros v n Hn.
  destruct (N1 v n Hn) as (m & Hm & ?). destruct (N2 v m Hm) as (k & ? & ?).
  exists k. split; [done|]. by etrans.
Qed.

Lemma plan_cached_quiet p q : plan_cached None p q → plan_quiet p q.
Proof.
  intros [S N]. split; [done|]. intros v n Hn. destruct (N v n) as (m & ? & ?); [done..|].
  exists m. split; [done|]. by apply cached_quiet.
Qed.

Lemma update_quiet id f p :
  (∀ n, GetNode p id = Some n → quiet_change n (f n)) → plan_quiet p (update_node id f p).
Proof.
  intros Hf. split; [apply update_same_shape|]. intros v n Hn. rewrite GetNode_update.
  case_decide; subst; [rewrite Hn; simpl; eauto|by exists n].
Qed.

Lemma plan_quiet_back p q v m :
  plan_quiet p q → GetNode q v = Some m → ∃ n, GetNode p v = Some n ∧ quiet_change n m.
Proof.
  intros [S N] Hm. destruct (proj1 (ss_dom _ _ S v)) as [n Hn]; [by eauto|].
  destruct (N v n Hn) as (m' & ? & ?). exists n. split; [done|]. congruence.
Qed.

#[export] Hint Resolve plan_cached_quiet cached_quiet : dagu.

Lemma stop_node_quiet s e n :
  Node_Status n = NodeNotStarted → s ∈ [NodeAborted; NodeSkipped] → quiet_change n (stop_node s e n).
Proof. intros Hn Hs. destruct e; split; simpl; by auto. Qed.

Lemma Node_Cancel_quiet n : quiet_change n (Node_Cancel n).
Proof.
  unfold Node_Cancel. destruct (bool_decide _) eqn:E1; [|destruct (bool_decide (_ = NodeWaiting)) eqn:E2]; simpl.
  - apply bool_decide_eq_true in E1. split; try done. right; right. rewrite E1. split; [by left|done].
  - apply bool_decide_eq_true in E2. split; try done. right; right. rewrite E2. split; [right; by left|done].
  - done.
Qed.

Lemma Signal_node_quiet `{SignalTable} sig ovr n : quiet_change n (Signal_node sig ovr n).
Proof.
  unfold Signal_node, Node_Signal. case_match; [done|].
  destruct (bool_decide (Node_Status n = NodeRunning)) eqn:E1; simpl; [|done].
  apply bool_decide_eq_true in E1. repeat case_match; [|done..]. split; try done.
  right; right. rewrite E1. split; [by left|done].
Qed.

Lemma foldl_quiet (f : Z → Node → Node) ids : ∀ p,
  (∀ id n, quiet_change n (f id n)) → plan_quiet p (foldl (λ p id, update_node id (f id) p) p ids).
Proof.
  induction ids as [|id ids IH]; intros p Hf; simpl; [done|].
  etrans; [|by apply IH]. apply update_quiet. auto.
Qed.

Section Quiet.
Context `{LogFiles}.

(** A query about a node that has not started. *)
Lemma isReady_quiet id p b p' :
  (∀ d, d ∈ Dependencies p id → is_Some (GetNode p d)) →
  (∀ n, GetNode p id = Some n → Node_Status n = NodeNotStarted) →
  isReady id p = (b, p') → plan_quiet p p'.
Proof.
  intros Hd Hn Hr. destruct (isReady_deps_inv id _ p b p' Hd Hr) as (_ & Ht & Hf).
  destruct b; [by apply plan_cached_quiet, Ht|].
  destruct (Hf eq_refl) as [(d & s & _ & Hc & _)|(q & s & e & Hc & -> & Hs)]; [by apply plan_cached_quiet|].
  etrans; [by apply plan_cached_quiet|]. apply update_quiet. intros m Hm.
  apply stop_node_quiet; [|done].
  destruct (plan_quiet_back p q id m (plan_cached_quiet _ _ Hc) Hm) as (n & Hpn & Hq).
  destruct (proj1 (ss_dom _ _ (pca_shape _ _ _ Hc) id)) as [n' Hn']; [by eauto|].
  destruct (pca_node _ _ _ Hc id n') as (m' & Hm' & Hcm); [done..|].
  assert (m' = m) as -> by congruence. rewrite (cached_status _ _ Hcm). by apply Hn.
Qed.

Lemma failures_cached ids : ∀ p, plan_cached None p (failures_may_continue ids p).2.
Proof.
  induction ids as [|id ids IH]; intros p; simpl; [done|].
  destruct (GetNode p id) as [n|] eqn:Hn; [|done].
  destruct (Node_Status n); try done.
  pose proof (plan_cached_update id n _ p Hn (cached_ShouldContinue n)) as Hc.
  destruct (ShouldContinue n) as [[] m]; simpl in *; [|done]. by etrans; [|apply IH].
Qed.

Lemma flags_cached ids : ∀ s f p, plan_cached None p (partial_success_flags ids s f p).2.
Proof.
  induction ids as [|id ids IH]; intros s f p; simpl; [done|].
  destruct (GetNode p id) as [n|] eqn:Hn; [|done].
  destruct (Node_Status n); try done.
  pose proof (cached_ShouldContinue n) as H1.
  destruct (ShouldContinue n) as [[] n1]; simpl in *.
  - pose proof (cached_ShouldMarkSuccess n1) as H2. destruct (ShouldMarkSuccess n1) as [ms n2].
    etrans; [|apply IH]. eapply plan_cached_update; [done|]. by etrans.
  - etrans; [|apply IH]. by eapply plan_cached_update.
Qed.

Lemma isPartialSuccess_cached p : plan_cached None p (isPartialSuccess p).2.
Proof.
  unfold isPartialSuccess. pose proof (failures_cached (p_nodes p) p) as H1.
  destruct (failures_may_continue (p_nodes p) p) as [[] q]; simpl in *; [|done].
  pose proof (flags_cached (p_nodes q) false false q) as H2.
  destruct (partial_success_flags (p_nodes q) false false q) as [[? ?] q']; simpl in *. by etrans.
Qed.

(** Reporting the status caches answers, nothing else. *)
Lemma Runner_Status_cached r p : plan_cached None p (Runner_Status r p).2.
Proof.
  unfold Runner_Status. repeat (case_match; [done|]).
  destruct (cfg_ForcedStatus (r_cfg r)); [done|].
  pose proof (isPartialSuccess_cached p) as Hp. destruct (isPartialSuccess p) as [b q]. simpl in Hp.
  by repeat case_match.
Qed.

Lemma run_handler_cached h o k w :
  plan_cached None (w_plan w) (w_plan (run_handler h o k w).2) ∧
  (run_handler h o k w).2 = {| w with w_plan := w_plan (run_handler h o k w).2;
                                      w_runner := w_runner (run_handler h o k w).2 |} ∧
  r_cfg (w_runner (run_handler h o k w).2) = r_cfg (w_runner w) ∧
  r_canceled (w_runner (run_handler h o k w).2) = r_canceled (w_runner w).
Proof.
  unfold run_handler. destruct (HandlerNode h (w_runner w)) as [n|]; [|by destruct w].
  unfold runEventHandler. pose proof (Runner_Status_cached (w_runner w) (w_plan w)) as Hc.
  destruct (cfg_Dry (r_cfg (w_runner w))); simpl; [done|].
  destruct (runEventHandler_body o n) as [[err m] td]. simpl.
  destruct err; [destruct k|]; simpl; split_and!; done.
Qed.
End Quiet.

(** ** What a segment of a goroutine does *)
Definition unsent (ph : GPhase) : bool :=
  match ph with GRecover _ | GFinish | GExited => false | _ => true end.

(** The step names an output that is captured after its command. *)
Definition captures (s : Step) : bool := negb (String.eqb (st_Output s) "") || st_HasStructuredOutput s.

(** The parts of a step that executing a node does not change. *)
Definition same_config (n m : Node) : Prop :=
  n_id m = n_id n ∧ Name m = Name n ∧ st_ContinueOn (n_Step m) = st_ContinueOn (n_Step n) ∧
  rep_Mode (st_RepeatPolicy (n_Step m)) = rep_Mode (st_RepeatPolicy (n_Step n)) ∧
  st_Approval (n_Step m) = st_Approval (n_Step n) ∧ st_Timeout (n_Step m) = st_Timeout (n_Step n) ∧
  captures (n_Step m) = captures (n_Step n).

#[export] Instance same_config_preorder : PreOrder same_config.
Proof. split; [done|]. intros n m k (?&?&?&?&?&?&?) (?&?&?&?&?&?&?). repeat split; congruence. Qed.

Lemma setupRetryPolicy_config f n m : setupRetryPolicy f n = Some m →
  same_config n m ∧ n_State m = n_State n.
Proof. unfold setupRetryPolicy. intros (? & _ & (? & _ & [= <-])%bind_Some)%bind_Some. done. Qed.

Lemma setupRepeatPolicy_config f n m : setupRepeatPolicy f n = Some m →
  same_config n m ∧ n_State m = n_State n ∧ n_retryPolicy m = n_retryPolicy n.
Proof.
  unfold setupRepeatPolicy.
  intros (? & _ & (? & _ & (? & _ & [= <-])%bind_Some)%bind_Some)%bind_Some. done.
Qed.

Lemma Data_Setup_config o n : same_config n (Data_Setup o n).2 ∧
  Node_Status (Data_Setup o n).2 = Node_Status n ∧ GetRetryCount (Data_Setup o n).2 = GetRetryCount n ∧
  ns_DoneCount (n_State (Data_Setup o n).2) = ns_DoneCount (n_State n).
Proof. unfold Data_Setup. by repeat case_match. Qed.

Lemma Prepare_config o n : same_config n (Prepare o n).2 ∧
  Node_Status (Prepare o n).2 = Node_Status n ∧ GetRetryCount (Prepare o n).2 = GetRetryCount n ∧
  ns_DoneCount (n_State (Prepare o n).2) = ns_DoneCount (n_State n).
Proof.
  unfold Prepare. case_match; [done|].
  destruct (Data_Setup_config o n) as (Hc & Hs & Hr & Hd).
  destruct (Data_Setup o n) as [[e|] n1]; simpl in *; [done|].
  case_match; [done|].
  destruct (setupRetryPolicy _ _) as [n2|] eqn:E2; [|done].
  apply setupRetryPolicy_config in E2 as [Hc2 Hst2]. unfold Node_Status, GetRetryCount in *.
  destruct (setupRepeatPolicy _ n2) as [n3|] eqn:E3; simpl.
  - apply setupRepeatPolicy_config in E3 as (Hc3 & Hst3 & _). rewrite Hst3, Hst2. simpl.
    split_and!; [|done..]. etrans; [|exact Hc3]. etrans; [|exact Hc2]. done.
  - rewrite Hst2. simpl. split_and!; [|done..]. etrans; [|exact Hc2]. done.
Qed.

Lemma Execute_setup_config o n : same_config n (Execute_setup o n).2 ∧
  Node_Status (Execute_setup o n).2 = Node_Status n ∧
  GetRetryCount (Execute_setup o n).2 = GetRetryCount n ∧
  ns_DoneCount (n_State (Execute_setup o n).2) = ns_DoneCount (n_State n) ∧
  n_retryPolicy (Execute_setup o n).2 = n_retryPolicy n ∧ n_Step (Execute_setup o n).2 = n_Step n.
Proof. unfold Execute_setup, setupExecutor, BuildSubDAGRuns. repeat case_match; simplify_eq/=; done. Qed.

(** The parts of a node that the runner's decisions read. *)
Definition same_core (n m : Node) : Prop :=
  n_Step m = n_Step n ∧ n_id m = n_id n ∧ n_retryPolicy m = n_retryPolicy n ∧
  Node_Status m = Node_Status n ∧ GetRetryCount m = GetRetryCount n ∧
  ns_DoneCount (n_State m) = ns_DoneCount (n_State n) ∧ ns_Error (n_State m) = ns_Error (n_State n).

#[export] Instance same_core_preorder : PreOrder same_core.
Proof. split; [done|]. intros n m k (?&?&?&?&?&?&?) (?&?&?&?&?&?&?). split_and!; congruence. Qed.

Lemma same_core_config n m : same_core n m → same_config n m.
Proof. intros (Hs & Hid & _). unfold same_config, Name. by rewrite Hs, Hid. Qed.

Lemma on_state_core f n :
  ns_Status (f (n_State n)) = ns_Status (n_State n) → ns_RetryCount (f (n_State n)) = ns_RetryCount (n_State n) →
  ns_DoneCount (f (n_State n)) = ns_DoneCount (n_State n) → ns_Error (f (n_State n)) = ns_Error (n_State n) →
  same_core n (on_state f n).
Proof. intros. unfold same_core. by split_and!. Qed.

Lemma recordResults_core o n : same_core n (recordResults o n).
Proof.
  unfold recordResults.
  set (n1 := match xo_messages o with Some ms => SetChatMessages ms n | None => n end).
  assert (same_core n n1) as H1 by (unfold n1; by case_match).
  set (n2 := match xo_subRuns o with None => n1 | Some rs => _ end).
  assert (same_core n1 n2) as H2 by (unfold n2; by repeat case_match).
  assert (same_core n n2) as H3 by by etrans.
  clearbody n2. clear H1 H2. destruct (xo_toolDefs o) as [[|t ts]|]; [done| |done].
  etrans; [exact H3|]. by apply on_state_core.
Qed.

Lemma captureOutput_core o n : same_core n (captureOutput o n).2.
Proof. unfold captureOutput. repeat case_match; simplify_eq/=; done. Qed.

Lemma captureOutput_error o n e m : captureOutput o n = (Some e, m) → captures (n_Step n) = true.
Proof. unfold captureOutput, captures. destruct (negb _); [done|]. by destruct (st_HasStructuredOutput _). Qed.

Lemma runCommand_facts o n :
  let '(_, err, m) := runCommand o n in
  n_Step m = n_Step n ∧ n_id m = n_id n ∧ n_retryPolicy m = n_retryPolicy n ∧
  GetRetryCount m = GetRetryCount n ∧ ns_DoneCount (n_State m) = ns_DoneCount (n_State n) ∧
  (Node_Status m = Node_Status n ∨
   Node_Status m = NodeFailed ∧ (0 < st_Timeout (n_Step n))%Z ∧ ∃ te, err = Some te ∧ is_deadline te = true).
Proof.
  unfold runCommand. destruct (xo_runErr o); simpl; [|split_and!; try done; by left].
  destruct (0 <? _)%Z eqn:Ht; breflect; simpl; [destruct (xo_timedOut o)|].
  - split_and!; try done. right. split_and!; [done..|]. eexists. by split.
  - destruct (xo_exitCoder o); simpl; split_and!; try done; by left.
  - destruct (xo_exitCoder o); simpl; split_and!; try done; by left.
Qed.

(** The result of running the command: the status is kept, or the step timed
    out, or the executor determined it. *)
Lemma Execute_run_facts o n :
  let '(err, m) := Execute_run o n in
  n_Step m = n_Step n ∧ n_id m = n_id n ∧ n_retryPolicy m = n_retryPolicy n ∧
  GetRetryCount m = GetRetryCount n ∧ ns_DoneCount (n_State m) = ns_DoneCount (n_State n) ∧
  (Node_Status m = Node_Status n ∨
   (Node_Status m = NodeFailed ∧ (0 < st_Timeout (n_Step n))%Z ∧
      ∃ e, err = Some e ∧ (is_deadline e = true ∨ captures (n_Step n) = true)) ∨
   xo_determine o = Some (inr (Node_Status m))).
Proof.
  unfold Execute_run. pose proof (runCommand_facts o n) as Hr.
  destruct (runCommand o n) as [[c err] n1]. destruct Hr as (H1 & H2 & H3 & H4 & H5 & H6).
  pose proof (recordResults_core o (SetExitCode c (SetError err n1))) as H7.
  set (n2 := recordResults o _) in *. clearbody n2.
  pose proof (captureOutput_core o n2) as H8. destruct (captureOutput o n2) as [ce n3] eqn:Hce. simpl in H8.
  destruct (transitivity H7 H8) as (S & I & P & St & RC & DC & Er). simpl in *.
  unfold Node_Status, GetRetryCount in *. simpl in St, RC.
  destruct ce as [ce|]; simpl.
  { split_and!; try congruence. destruct H6 as [H6|(H6 & Ht & te & Hte & _)]; [left; congruence|].
    right; left. split_and!; [congruence|done|]. exists ce. split; [done|]. right.
    apply captureOutput_error in Hce. assert (n_Step n2 = n_Step n) as <-; [|done]. destruct H7 as [-> _]. done. }
  unfold determineNodeStatus. destruct (xo_determine o) as [[de|ds]|] eqn:Hdet; simpl.
  2: { destruct (ns_Error (n_State n3)); simpl; split_and!; try congruence; (by right; right). }
  all: destruct (ns_Error (n_State n3)) as [e|] eqn:He; simpl; (split_and!; try congruence).
  all: destruct H6 as [H6|(H6 & Ht & te & Hte & Hdl)]; [left; congruence|right; left].
  all: split_and!; [congruence|done|]; simplify_eq; try congruence.
  all: exists te; split; [congruence|by left].
Qed.

Lemma cached_config n m : cached n m → same_config n m.
Proof. by intros [vars ->]. Qed.

Lemma shouldRetryNode_facts ext e r n b r' n' :
  shouldRetryNode ext e r n = (b, r', n') →
  n_Step n' = n_Step n ∧ n_id n' = n_id n ∧ n_retryPolicy n' = n_retryPolicy n ∧
  ns_DoneCount (n_State n') = ns_DoneCount (n_State n) ∧
  r_cfg r' = r_cfg r ∧ r_canceled r' = r_canceled r ∧
  (b = true → Node_Status n' = Node_Status n ∧ GetRetryCount n' = (GetRetryCount n + 1)%Z) ∧
  (b = false →
     Node_Status n' = NodeFailed ∧ GetRetryCount n' = GetRetryCount n ∨
     Node_Status n' = NodeRetrying ∧ GetRetryCount n' = (GetRetryCount n + 1)%Z).
Proof.
  unfold shouldRetryNode. repeat case_match; intros [= <- <- <-]; split_and!; try done; intros _.
  - by left.
  - by right.
Qed.

(** The decision after an execution, by its result [b]. *)
Lemma handle_facts `{LogFiles} ext now t e r n b r' n' :
  handleNodeExecutionError ext now t e r n = (b, r', n') →
  n_Step n' = n_Step n ∧ n_id n' = n_id n ∧ n_retryPolicy n' = n_retryPolicy n ∧
  ns_DoneCount (n_State n') = ns_DoneCount (n_State n) ∧
  r_cfg r' = r_cfg r ∧ r_canceled r' = r_canceled r ∧
  (b = true →
     e ≠ None ∧ (∀ e', e = Some e' → is_deadline e' = false) ∧
     (Node_Status n ∉ [NodeSucceeded; NodeAborted; NodePartiallySucceeded]) ∧
     Node_Status n' = Node_Status n ∧ isCanceled r = false ∧
     (GetRetryCount n < nrp_Limit (n_retryPolicy n))%Z ∧ GetRetryCount n' = (GetRetryCount n + 1)%Z) ∧
  (b = false →
     (Node_Status n' = Node_Status n ∧ GetRetryCount n' = GetRetryCount n ∧
        (e = None ∨ Node_Status n ∈ [NodeSucceeded; NodeAborted; NodePartiallySucceeded] ∨ isCanceled r = true)) ∨
     (e ≠ None ∧ Node_Status n' ∈ [NodeFailed; NodeAborted; NodeSucceeded] ∧ GetRetryCount n' = GetRetryCount n) ∨
     (e ≠ None ∧ Node_Status n' = NodeRetrying ∧ (GetRetryCount n < nrp_Limit (n_retryPolicy n))%Z ∧
        GetRetryCount n' = (GetRetryCount n + 1)%Z)).
Proof.
  unfold handleNodeExecutionError. destruct e as [e|].
  2: { intros [= <- <- <-]. split_and!; try done. intros _. left. split_and!; try done. by left. }
  destruct (_ || _ || _) eqn:Hs.
  { intros [= <- <- <-]. split_and!; try done. intros _. left. split_and!; try done. right; left.
    apply orb_true_iff in Hs as [Hs|Hs]; [apply orb_true_iff in Hs as [Hs|Hs]|];
      apply bool_decide_eq_true in Hs; rewrite Hs; set_solver. }
  breflect. repeat match goal with H : bool_decide _ = false |- _ => apply bool_decide_eq_false in H end.
  destruct (is_deadline e) eqn:Hd.
  { intros [= <- <- <-].
    repeat case_match; split_and!; try done; intros _; right; left; split_and!; try done; set_solver. }
  destruct (isTimeout now t r).
  { intros [= <- <- <-]. split_and!; try done. intros _. right; left. split_and!; try done. set_solver. }
  destruct (isCanceled r) eqn:Hcan.
  { intros [= <- <- <-]. split_and!; try done. intros _. left. split_and!; try done. by right; right. }
  destruct (GetRetryCount n <? _)%Z eqn:Hlt; breflect.
  { intros Hr. apply shouldRetryNode_facts in Hr as (? & ? & ? & ? & ? & ? & Ht & Hf).
    split_and!; try done.
    - intros Hb. destruct (Ht Hb). split_and!; try done; [by intros ? [= <-]|set_solver].
    - intros Hb. right. destruct (Hf Hb) as [[Hs' ?]|[? ?]]; [left|right]; split_and!; try done.
      rewrite Hs'. set_solver. }
  pose proof (cached_ShouldMarkSuccess (SetStatus NodeFailed n)) as Hc.
  destruct (ShouldMarkSuccess (SetStatus NodeFailed n)) as [ms m]. simpl in Hc. destruct Hc as [vars ->].
  destruct ms; intros [= <- <- <-]; split_and!; try done; intros _; right; left; split_and!; try done; set_solver.
Qed.

Definition valid_act (a : NodeAct) : Prop := match a with AExec o => valid_outcome o | _ => True end.

Lemma finalStatus_facts r n :
  n_Step (finalStatus r n) = n_Step n ∧ n_id (finalStatus r n) = n_id n ∧
  n_retryPolicy (finalStatus r n) = n_retryPolicy n ∧
  GetRetryCount (finalStatus r n) = GetRetryCount n ∧
  ns_DoneCount (n_State (finalStatus r n)) = ns_DoneCount (n_State n) ∧
  Node_Status (finalStatus r n) ≠ NodeRunning ∧
  (Node_Status (finalStatus r n) = Node_Status n ∨
   Node_Status n ∈ [NodeRunning; NodeSucceeded] ∧
   Node_Status (finalStatus r n) ∈ [NodeAborted; NodeWaiting; NodeSucceeded]).
Proof.
  unfold finalStatus. destruct (bool_decide (Node_Status n = NodeRunning)) eqn:E1;
    [apply bool_decide_eq_true in E1|apply bool_decide_eq_false in E1].
  - repeat case_match; split_and!; try done; right; rewrite E1; split; set_solver.
  - destruct (bool_decide (Node_Status n = NodeSucceeded)) eqn:E2; simpl;
      [apply bool_decide_eq_true in E2|apply bool_decide_eq_false in E2].
    + case_match; split_and!; try done; [|by left]. right. rewrite E2. split; set_solver.
    + split_and!; try done. by left.
Qed.

Section Segment.
Context `{LogFiles}.

(** The phases move towards the send on [doneCh] and past it once. *)
Definition phase_moves (ph ph' : GPhase) : Prop :=
  unsent ph' = unsent ph && negb (is_defer ph).

Lemma chat_core store sup n :
  same_core n (setupPushBackConversation store sup (setupChatMessages store sup n)).
Proof.
  unfold setupPushBackConversation.
  assert (same_core n (setupChatMessages store sup n)) as H1.
  { unfold setupChatMessages. by repeat case_match. }
  etrans; [exact H1|]. repeat case_match; try done; by apply on_state_core.
Qed.

Lemma meetsPreconditions_facts e n b m : meetsPreconditions e n = (b, m) →
  n_Step m = n_Step n ∧ n_id m = n_id n ∧ n_retryPolicy m = n_retryPolicy n ∧
  GetRetryCount m = GetRetryCount n ∧ ns_DoneCount (n_State m) = ns_DoneCount (n_State n) ∧
  Node_Status m = if b then Node_Status n else NodeSkipped.
Proof.
  unfold meetsPreconditions. destruct (evalPreconditions e n); intros [= <- <-]; [by case_match|done].
Qed.

Lemma config_of_step n m : n_Step m = n_Step n → n_id m = n_id n → same_config n m.
Proof. intros Hs Hid. unfold same_config, Name. by rewrite Hs, Hid. Qed.

Lemma node_segment_facts pr t r n ph a r' n' ph' :
  node_segment pr t r n ph a = Some (r', n', ph') →
  same_config n n' ∧ r_cfg r' = r_cfg r ∧ r_canceled r' = r_canceled r ∧ phase_moves ph ph' ∧
  (valid_act a → Node_Status n ≠ NodeNotStarted → Node_Status n' ≠ NodeNotStarted).
Proof.
  intros Hseg. destruct ph; destruct a; simpl in Hseg; try done; simplify_eq; try (by split_and!).
  - (* GPrepare *) unfold prepareNode in Hseg. destruct (cfg_Dry (r_cfg r)); [by simplify_eq|].
    destruct (Prepare_config o n) as (Hc & Hs & _). destruct (Prepare o n) as [[e|] m]; simpl in *; simplify_eq.
    + by split_and!.
    + split_and!; try done. by rewrite Hs.
  - (* GPrecond *) destruct (meetsPreconditions evalErr n) as [ok m] eqn:Hm.
    apply meetsPreconditions_facts in Hm as (Hst & Hid & _ & _ & _ & Hs).
    destruct ok; simplify_eq.
    + pose proof (chat_core store supportsChat m) as Hcore. split_and!; try done.
      * etrans; [by apply config_of_step|by apply same_core_config].
      * destruct Hcore as (_ & _ & _ & -> & _). by rewrite Hs.
    + split_and!; try done; [by apply config_of_step|]. by rewrite Hs.
  - (* GLoop *) split_and!; try done. by destruct (isCanceled r').
  - (* GExec *) destruct (cfg_Dry (r_cfg r)); [by simplify_eq|].
    destruct (Execute_setup_config o n) as (Hc & Hs & _).
    destruct (Execute_setup o n) as [[e|] m]; simpl in *; simplify_eq; split_and!; try done; by rewrite Hs.
  - (* GRun *) pose proof (Execute_run_facts o n) as Hf. destruct (Execute_run o n) as [err m].
    destruct Hf as (Hst & Hid & _ & _ & _ & Hs). simplify_eq. split_and!; try done; [by apply config_of_step|].
    intros Hv. unfold valid_act, valid_outcome in Hv.
    destruct Hs as [->|[[-> _]|Hs]]; [done|done|]. rewrite Hs in Hv. intros _ Heq. rewrite Heq in Hv. set_solver.
  - (* GHandle *) destruct (handleNodeExecutionError _ _ _ _ _ _) as [[b r1] n1] eqn:Hh.
    apply handle_facts in Hh as (Hst & Hid & _ & _ & Hcfg & Hcan & Ht & Hf).
    assert (Node_Status n ≠ NodeNotStarted → Node_Status n1 ≠ NodeNotStarted) as Hns.
    { destruct b; [by destruct (Ht eq_refl) as (_ & _ & _ & -> & _)|].
      destruct (Hf eq_refl) as [(-> & _)|[(_ & Hin & _)|(_ & -> & _)]]; [done| |done].
      intros _ Heq. rewrite Heq in Hin. set_solver. }
    pose proof (config_of_step n n1 Hst Hid) as Hc.
    destruct b; [by simplify_eq|]. case_match; simplify_eq; [done|].
    case_match; by split_and!.
  - (* GRepeat *) destruct (_ && negb (isCanceled r)).
    + unfold prepareNodeForRepeat in Hseg. simplify_eq. case_match; by split_and!.
    + case_match; by simplify_eq.
  - (* GFinal *) destruct (finalStatus_facts r' n) as (Hst & Hid & _ & _ & _ & _ & Hs).
    split_and!; try done; [by apply config_of_step|]. intros _ Hn.
    destruct Hs as [->|[_ Hin]]; [done|]. intros Heq. rewrite Heq in Hin. set_solver.
  - (* GTeardown *) unfold teardownNode, Teardown in Hseg.
    repeat (case_match; simplify_eq/=; try done); by split_and!.
  - (* GRecover *) unfold recoverNodePanic in Hseg. destruct panicked; simplify_eq; by split_and!.
Qed.
End Segment.

Lemma quiet_not_started p q v :
  plan_quiet p q → status_of p v ≠ Some NodeNotStarted → status_of q v ≠ Some NodeNotStarted.
Proof.
  intros Hq Hp. unfold status_of in *. destruct (GetNode q v) as [m|] eqn:Hm; [|done]. simpl.
  destruct (plan_quiet_back p q v m Hq Hm) as (n & Hn & Hqc). rewrite Hn in Hp. simpl in Hp.
  intros [= Hs]. destruct (qc_status _ _ Hqc) as [He|[[_ He]|[_ He]]]; rewrite Hs in He.
  - congruence.
  - set_solver.
  - done.
Qed.

Lemma all_exited_spec w id ph : all_exited w = true → w_gs w !! id = Some ph → ph = GExited.
Proof.
  unfold all_exited. intros Hall Hid%elem_of_map_to_list.
  assert (Forall (λ x, x.2 = GExited) (map_to_list (w_gs w))) as HF.
  { revert Hall. clear Hid. induction (map_to_list (w_gs w)) as [|[k q] l IH]; [constructor|]. simpl.
    intros [Hq Hl]%andb_true_iff. constructor; [by destruct q|by apply IH]. }
  rewrite Forall_forall in HF. apply (HF _ Hid).
Qed.

(** ** The invariant *)
Section Invariant.
Context `{LogFiles} `{SignalTable}.
Context (p0 : Plan) (Hwf : plan_wf p0).

Definition unsent_count (gs : gmap Z GPhase) : nat :=
  size (filter (λ '(_, ph), unsent ph = true) gs).

Definition max_active (w : World) : Z := cfg_MaxActiveSteps (r_cfg (w_runner w)).

(** There is room for one more node. *)
Definition has_room (w : World) : Prop :=
  max_active w = 0%Z ∨ (w_running w < max_active w)%Z.

Definition pc_ok (w : World) : Prop :=
  match w_pc w with
  | LStates true | LDeadlock true | LSelect true => has_room w
  | LProc children queue => ∀ v, v ∈ children ++ queue → v ∈ p_nodes p0
  | LSend c children queue => ∀ v, v ∈ c :: children ++ queue → v ∈ p_nodes p0
  | _ => True
  end.

Record inv (w : World) : Prop := {
  iv_shape : same_shape p0 (w_plan w);
  iv_gs : ∀ id ph, w_gs w !! id = Some ph →
            id ∈ p_nodes p0 ∧ status_of (w_plan w) id ≠ Some NodeNotStarted;
  iv_done : NoDup (w_doneCh w) ∧
            ∀ id, id ∈ w_doneCh w → ∃ ph, w_gs w !! id = Some ph ∧ unsent ph = false;
  iv_running : w_running w = Z.of_nat (unsent_count (w_gs w) + length (w_doneCh w));
  iv_ready : ∀ id, id ∈ w_readyCh w → id ∈ p_nodes p0;
  iv_max : max_active w ≠ 0%Z → (w_running w <= Z.max 0 (max_active w))%Z;
  iv_pc : pc_ok w;
}.

Lemma inv_node w v : inv w → v ∈ p_nodes p0 → is_Some (GetNode (w_plan w) v).
Proof. intros Hi Hv. apply (ss_dom _ _ (iv_shape w Hi)). by apply (wf_store p0 Hwf). Qed.

Lemma inv_dep w v d : inv w → d ∈ Dependencies (w_plan w) v → is_Some (GetNode (w_plan w) d).
Proof.
  intros Hi Hd. apply inv_node; [done|]. rewrite (same_shape_Dependencies p0) in Hd by apply Hi.
  by apply (wf_edge_in p0 Hwf d v).
Qed.

Lemma inv_dependent w v c : inv w → c ∈ Dependents (w_plan w) v → c ∈ p_nodes p0.
Proof.
  intros Hi Hc. rewrite (same_shape_Dependents p0) in Hc by apply Hi.
  apply (edge_dependents p0) in Hc; [|done]. by apply (wf_edge_in p0 Hwf v c).
Qed.

(** Steps that start and end no goroutine. *)
Lemma inv_quiet w w' :
  inv w → plan_quiet (w_plan w) (w_plan w') → w_gs w' = w_gs w → w_doneCh w' = w_doneCh w →
  w_running w' = w_running w → r_cfg (w_runner w') = r_cfg (w_runner w) →
  (∀ id, id ∈ w_readyCh w' → id ∈ p_nodes p0) → pc_ok w' → inv w'.
Proof using p0.
  intros [H1 H2 H3 H4 H5 H6 H7] Hq Hgs Hdone Hrun Hcfg Hready Hpc.
  split; [| | | |done| |done]; unfold max_active in *; rewrite ?Hgs, ?Hdone, ?Hrun, ?Hcfg; try done.
  - etrans; [done|apply Hq].
  - intros id ph Hid. destruct (H2 id ph Hid) as [? Hs]. split; [done|]. by eapply quiet_not_started.
Qed.

Lemma unsent_count_insert gs id ph ph' :
  gs !! id = Some ph →
  unsent_count (<[id := ph']> gs) + (if unsent ph then 1 else 0) =
  unsent_count gs + (if unsent ph' then 1 else 0).
Proof.
  intros Hid. unfold unsent_count. rewrite <-(insert_delete_id gs id ph Hid) at 2.
  rewrite <-(insert_delete_eq gs id ph').
  assert (∀ x, size (filter (λ '(_, ph), unsent ph = true) (<[id := x]> (delete id gs))) =
     size (filter (λ '(_, ph), unsent ph = true) (delete id gs)) + if unsent x then 1 else 0) as Hsz.
  { intros x. rewrite map_filter_insert. case_decide as Hx.
    - rewrite Hx, map_size_insert_None; [lia|].
      apply map_lookup_filter_None. left. apply lookup_delete_eq.
    - destruct (unsent x); [done|]. rewrite delete_delete_eq. lia. }
  rewrite !Hsz. lia.
Qed.

Lemma unsent_count_new gs id ph :
  gs !! id = None → unsent ph = true → unsent_count (<[id := ph]> gs) = S (unsent_count gs).
Proof.
  intros Hid Hph. unfold unsent_count. rewrite map_filter_insert, decide_True by done.
  apply map_size_insert_None. apply map_lookup_filter_None. by left.
Qed.

(** The channel of completed nodes always has room. *)
Lemma inv_doneCh_room w id ph :
  inv w → w_gs w !! id = Some ph → unsent ph = true → length (w_doneCh w) < capacity w.
Proof.
  intros Hi Hid Hph. destruct (iv_done w Hi) as [Hnd Hin].
  unfold capacity. rewrite (ss_nodes _ _ (iv_shape w Hi)).
  assert (length (id :: w_doneCh w) <= length (p_nodes p0)); [|simpl in *; lia].
  apply submseteq_length, NoDup_submseteq.
  - constructor; [|done]. intros Hd. destruct (Hin id Hd) as (ph' & ? & ?). congruence.
  - intros v [->|Hv]%elem_of_cons; [by apply (iv_gs w Hi id ph)|].
    destruct (Hin v Hv) as (ph' & ? & _). by apply (iv_gs w Hi v ph').
Qed.
End Invariant.
