(* ===== verification/RunnerSteps.v ===== *)
(** * The structural invariant is preserved

    Every step of the transition system of RunnerLoop keeps the invariant of
    RunnerInv, and what follows from it for reachable worlds. *)

From stdpp Require Import gmap strings list relations.
From Stdlib Require Import ZArith Lia.
From S2P Require Import Prelude Status Step Exec Node Graph Plan PlanWf PlanBuild.
From S2P Require Import Runner RunnerLoop RunnerReady RunnerInv.

Section Steps.
Context `{LogFiles} `{SignalTable}.
Context (p0 : Plan) (Hwf : plan_wf p0).

Lemma inv_pc w pc : inv p0 w → pc_ok p0 (set_pc pc w) → inv p0 (set_pc pc w).
Proof. intros Hi Hpc. by apply (inv_quiet p0 w); try done; try apply Hi. Qed.

(** A segment of a goroutine. *)
Lemma inv_segment w id ph n a r' n' ph' :
  inv p0 w → valid_act a → w_gs w !! id = Some ph → GetNode (w_plan w) id = Some n →
  node_segment (w_progress w) (p_startedAt (w_plan w)) (w_runner w) n ph a = Some (r', n', ph') →
  inv p0 {| w with
    w_runner := r'; w_plan := update_node id (λ _, n') (w_plan w); w_gs := <[id := ph']> (w_gs w);
    w_doneCh := if is_defer ph then w_doneCh w ++ [id] else w_doneCh w |}.
Proof.
  intros Hi Hv Hid Hn Hseg.
  apply node_segment_facts in Hseg as (_ & Hcfg & _ & Hmv & Hns). unfold phase_moves in Hmv.
  pose proof Hi as [I1 I2 [I3 I3'] I4 I5 I6 I7].
  assert (unsent_count (<[id := ph']> (w_gs w)) + length (if is_defer ph then w_doneCh w ++ [id] else w_doneCh w)
    = unsent_count (w_gs w) + length (w_doneCh w)) as Hcount.
  { pose proof (unsent_count_insert (w_gs w) id ph ph' Hid) as Hu. rewrite Hmv in Hu.
    destruct ph; simpl in *; rewrite ?length_app; simpl; lia. }
  split; simpl; unfold max_active; simpl; rewrite ?Hcfg; try done.
  - etrans; [done|apply update_same_shape].
  - intros v pv. rewrite lookup_insert. unfold status_of. rewrite GetNode_update.
    case_decide as Hvid; [|apply I2]. subst v. intros [= <-]. destruct (I2 id ph Hid) as [? Hs].
    split; [done|]. rewrite Hn. simpl. unfold status_of in Hs. rewrite Hn in Hs. simpl in Hs.
    intros [= Hs']. apply Hns in Hs'; [done|done|]. congruence.
  - assert (∀ v, v ∈ w_doneCh w → v ≠ id ∨ unsent ph = false) as Hold.
    { intros v Hin. destruct (I3' v Hin) as (pv & Hpv & Hu). destruct (decide (v = id)); [|by left].
      right. congruence. }
    assert (∀ v, v ∈ w_doneCh w → ∃ pv, <[id:=ph']> (w_gs w) !! v = Some pv ∧ unsent pv = false) as Hin'.
    { intros v Hin. destruct (I3' v Hin) as (pv & Hpv & Hu). rewrite lookup_insert. case_decide; [|eauto].
      exists ph'. split; [done|]. rewrite Hmv. subst v. assert (pv = ph) as -> by congruence. by rewrite Hu. }
    destruct (is_defer ph) eqn:Hd; [|done].
    assert (unsent ph = true) as Hun by by destruct ph. split.
    + apply NoDup_app. split_and!; [done| |apply NoDup_singleton].
      intros v Hin Heq%list_elem_of_singleton. subst v. destruct (Hold id Hin); congruence.
    + intros v [Hin| ->%list_elem_of_singleton]%elem_of_app; [by apply Hin'|].
      exists ph'. rewrite lookup_insert_eq. split; [done|]. by rewrite Hmv, Hun.
  - rewrite Hcount. done.
  - unfold pc_ok, has_room, max_active in *; simpl. rewrite Hcfg. exact I7.
Qed.

(** Starting a node. *)
Lemma inv_start w id rest :
  inv p0 w → w_pc w = LSelect true → w_readyCh w = id :: rest →
  inv p0 (start_node id {| w with w_readyCh := rest |}).
Proof.
  intros Hi Hpc Hr. pose proof Hi as [I1 I2 [I3 I3'] I4 I5 I6 I7]. unfold pc_ok in I7. rewrite Hpc in I7.
  assert (∀ v, v ∈ rest → v ∈ p_nodes p0) as Hrest by (intros v Hv; apply I5; rewrite Hr; by right).
  assert (id ∈ p_nodes p0) as Hid by (apply I5; rewrite Hr; by left).
  unfold start_node. simpl. destruct (GetNode (w_plan w) id) as [n|] eqn:Hn.
  2: { by apply (inv_quiet p0 w). }
  case_bool_decide as Hs; [by apply (inv_quiet p0 w)|].
  destruct (decide (Node_Status n = NodeNotStarted)) as [Hs'|]; [|done].
  assert (w_gs w !! id = None) as Hnone.
  { destruct (w_gs w !! id) as [ph|] eqn:E; [|done]. destruct (I2 id ph E) as [_ Hx].
    unfold status_of in Hx. rewrite Hn in Hx. simpl in Hx. congruence. }
  split; simpl.
  - etrans; [done|apply update_same_shape].
  - intros v pv. rewrite lookup_insert. unfold status_of. rewrite GetNode_update.
    case_decide as Hvid; [|apply I2]. subst v. intros [= <-]. split; [done|]. by rewrite Hn.
  - split; [done|]. intros v Hv. destruct (I3' v Hv) as (pv & Hpv & Hu).
    exists pv. split; [|done]. rewrite lookup_insert_ne; [done|]. intros ->. congruence.
  - rewrite unsent_count_new by done. lia.
  - done.
  - unfold has_room, max_active in *. simpl. intros Hm. destruct I7; [done|lia].
  - done.
Qed.

(** Receiving a completed node. *)
Lemma inv_recv w id rest a :
  inv p0 w → w_pc w = LSelect a → w_doneCh w = id :: rest →
  inv p0 {| w with w_doneCh := rest; w_running := (w_running w - 1)%Z;
                   w_pc := if isCanceled (w_runner w) then LCheck else LProc (Dependents (w_plan w) id) [] |}.
Proof.
  intros Hi Hpc Hd. pose proof Hi as [I1 I2 [I3 I3'] I4 I5 I6 I7].
  rewrite Hd in I3, I3', I4. apply NoDup_cons in I3 as [_ I3]. simpl in I4.
  split; simpl; try done.
  - split; [done|]. intros v Hv. apply I3'. by right.
  - rewrite I4. lia.
  - intros Hm. specialize (I6 Hm). unfold max_active in *; simpl. lia.
  - unfold pc_ok; simpl. destruct (isCanceled (w_runner w)); [done|]. intros v. rewrite app_nil_r. by apply inv_dependent.
Qed.

(** The initial scan. *)
Lemma scan_quiet ids : ∀ p ready p' ready',
  (∀ v d, d ∈ Dependencies p v → is_Some (GetNode p d)) →
  scan ids p ready = (p', ready') →
  plan_quiet p p' ∧ (∀ v, v ∈ ready' → v ∈ ready ∨ v ∈ ids).
Proof.
  induction ids as [|id ids IH]; intros p ready p' ready' Hdeps; simpl.
  { intros [= <- <-]. split; [done|]. by left. }
  destruct (GetNode p id) as [n|] eqn:Hn.
  2: { intros [? Hin]%IH; [|done]. split; [done|]. intros v Hv. destruct (Hin v Hv); set_solver. }
  case_bool_decide as Hs.
  2: { intros [? Hin]%IH; [|done]. split; [done|]. intros v Hv. destruct (Hin v Hv); set_solver. }
  destruct (isReady id p) as [b p1] eqn:Hr.
  apply isReady_quiet in Hr; [|by apply Hdeps|intros m Hm; congruence].
  intros [Hq Hin]%IH.
  - split; [by etrans|]. intros v Hv. destruct (Hin v Hv) as [Hv'|]; [|set_solver].
    destruct b; [|by left]. apply elem_of_app in Hv' as [?| ->%list_elem_of_singleton]; [by left|right; by left].
  - intros v d. rewrite (same_shape_Dependencies p) by apply Hr. intros Hd.
    apply (ss_dom _ _ (pq_shape _ _ Hr)). by eapply Hdeps.
Qed.

Lemma step_child_quiet w c children queue :
  inv p0 w → (∀ v, v ∈ c :: children ++ queue → v ∈ p_nodes p0) → inv p0 (step_child c children queue w).
Proof.
  intros Hi Hin. unfold step_child.
  assert (inv p0 (set_pc (LProc children queue) w)) as Hskip.
  { apply inv_pc; [done|]. intros v Hv. apply Hin. by right. }
  destruct (GetNode (w_plan w) c) as [n|] eqn:Hn; [|done].
  case_bool_decide as Hs; [|done].
  destruct (isReady c (w_plan w)) as [b p'] eqn:Hr.
  apply isReady_quiet in Hr; [|intros d; by apply (inv_dep p0 Hwf)|intros m Hm; congruence].
  assert (∀ pc, (∀ x, pc_ok p0 (set_pc pc x)) → inv p0 (set_pc pc {| w with w_plan := p' |})) as Hpc.
  { intros pc Hok. apply (inv_quiet p0 w); try done. apply Hi. }
  destruct b; [by apply Hpc|].
  destruct (GetNode p' c) as [n'|]; [case_bool_decide|]; apply Hpc; unfold pc_ok; simpl; intros _ v Hv; apply Hin; set_solver.
Qed.

Lemma inv_loop w w' : inv p0 w → step_loop w = Some w' → inv p0 w'.
Proof.
  intros Hi. pose proof (iv_pc p0 w Hi) as Hpc. unfold step_loop.
  destruct (w_pc w) eqn:Epc; unfold pc_ok in Hpc; rewrite Epc in Hpc; try done.
  - (* LScan *) destruct (scan _ _ _) as [p ready] eqn:Hs. intros [= <-].
    apply scan_quiet in Hs as [Hq Hin]; [|by intros v d; apply (inv_dep p0 Hwf)].
    apply (inv_quiet p0 w); try done. simpl. intros v Hv. destruct (Hin v Hv) as [?|Hv']; [set_solver|].
    by rewrite (ss_nodes _ _ (iv_shape p0 w Hi)) in Hv'.
  - intros [= <-]. apply inv_pc; [done|]. by case_match.
  - intros [= <-]. apply inv_pc; [done|]. by case_match.
  - intros [= <-]. apply inv_pc; [done|]. unfold pc_ok; simpl.
    destruct (negb _ && _) eqn:E; [|done]. apply andb_true_iff in E as [_ E].
    apply orb_true_iff in E as [E|E]; breflect; unfold has_room; [by left|by right].
  - (* LStates *) destruct (_ && HasWaiting _); [intros [= <-]; by apply inv_pc|].
    destruct (_ && HasRetrying _); intros [= <-]; [by apply inv_pc|]. apply inv_pc; [done|]. unfold pc_ok; simpl. by destruct active.
  - (* LDeadlock *) destruct (_ && negb (CheckFinished _)); intros [= <-].
    + apply (inv_quiet p0 w); try done. apply Hi.
    + apply inv_pc; [done|]. unfold pc_ok; simpl. by destruct active.
  - (* LProc *) destruct children as [|c children]; [destruct queue as [|curr queue]|].
    + intros [= <-]. by apply inv_pc.
    + intros [= <-]. apply inv_pc; [done|]. unfold pc_ok; simpl.
      intros v [Hv|Hv]%elem_of_app; [by eapply inv_dependent|]. apply Hpc. by right.
    + intros [= <-]. by apply step_child_quiet.
  - (* LSend *) case_bool_decide; [|done]. intros [= <-].
    apply (inv_quiet p0 w); try done; simpl.
    + intros v [Hv| ->%list_elem_of_singleton]%elem_of_app; [by apply Hi|]. apply Hpc. by left.
    + unfold pc_ok; simpl. intros v Hv. apply Hpc. by right.
  - (* LWait *) destruct (all_exited w); [|done].
    pose proof (Runner_Status_cached (w_runner w) (w_plan w)) as Hc.
    destruct (Runner_Status (w_runner w) (w_plan w)) as [s p]. simpl in Hc.
    intros Hw. assert (∃ pc, w' = set_pc pc {| w with w_plan := p |} ∧ ∀ x, pc_ok p0 (set_pc pc x)) as (pc & -> & Hok).
    { destruct (eventHandlers s); [by simplify_eq; eexists|]. case_match; simplify_eq; by eexists. }
    apply (inv_quiet p0 w); try done; [by apply plan_cached_quiet|apply Hi].
  - (* LHandlers *) destruct hs; [|done]. intros [= <-]. by apply inv_pc.
Qed.

Lemma inv_handler w h o k pc :
  inv p0 w → (∀ x, pc_ok p0 (set_pc pc x)) → inv p0 (set_pc pc (run_handler h o k w).2).
Proof.
  intros Hi Hpc. destruct (run_handler_cached h o k w) as (Hc & Heq & Hcfg & _).
  rewrite Heq. apply (inv_quiet p0 w); try done; [by apply plan_cached_quiet|apply Hi].
Qed.

Theorem inv_step w e w' : inv p0 w → valid_event e → step w e = Some w' → inv p0 w'.
Proof.
  intros Hi Hv. unfold step. destruct e as [evalErr|o| | | |dl|id a|sig ovr|i].
  - destruct (w_pc w); try done. destruct evalErr; [|intros [= <-]; by apply inv_pc].
    unfold Runner_Cancel. intros [= <-]. apply (inv_quiet p0 w); try done; [|apply Hi].
    simpl. apply (foldl_quiet (λ _, Node_Cancel)). intros _. apply Node_Cancel_quiet.
  - destruct (w_pc w) as [ | | | | | | | | | | | | hs | |]; try done.
    + destruct (isCanceled (w_runner w)); [intros [= <-]; by apply inv_pc|].
      pose proof (inv_handler w HandlerOnInit o true LScan Hi) as Hh.
      destruct (run_handler HandlerOnInit o true w) as [[err|] w1]; simpl in *; intros [= <-]; [|by apply Hh].
      by apply (inv_quiet p0 (set_pc LScan w1)); try done; try apply Hh.
    + destruct hs as [|h hs]; [done|]. intros [= <-]. by apply inv_handler.
    + intros [= <-]. by apply inv_handler.
  - by apply inv_loop.
  - destruct (w_pc w) as [ | | | | | | | |[] | | | | | |] eqn:Epc; try done.
    destruct (w_readyCh w) as [|id rest] eqn:Hr; [done|]. intros [= <-]. by apply inv_start.
  - destruct (w_pc w) as [ | | | | | | | |a | | | | | |] eqn:Epc; try done.
    destruct (w_doneCh w) as [|id rest] eqn:Hr; [done|]. intros [= <-]. by apply (inv_recv w id rest a).
  - destruct (w_pc w) as [ | | | | | | | |a | | | | | |] eqn:Epc; try done.
    destruct (w_ctxDone w); [|done]. intros [= <-]. apply (inv_quiet p0 w); try done; [|apply Hi].
    simpl. by case_match.
  - destruct (w_gs w !! id) as [ph|] eqn:Hid; [|done].
    destruct (GetNode (w_plan w) id) as [n|] eqn:Hn; [|done].
    unfold step_node. case_match; [done|].
    intros ([[r' n'] ph'] & Hseg & [= <-])%bind_Some. by eapply inv_segment.
  - intros [= <-]. assert (r_cfg (Signal_flag sig (w_runner w)) = r_cfg (w_runner w)) as Hcfg.
    { unfold Signal_flag. by case_match. }
    apply (inv_quiet p0 w); try done; try apply Hi.
    pose proof (iv_pc p0 w Hi) as Hpc. unfold pc_ok, has_room, max_active in *. simpl. by rewrite Hcfg.
  - destruct (w_signals w !! i) as [[sig ovr [|id rest]]|]; try done. intros [= <-].
    apply (inv_quiet p0 w); try done; try apply Hi. simpl. apply update_quiet. intros. apply Signal_node_quiet.
Qed.

(** ** Goroutines start at one place *)
Lemma node_segment_not_prepare pr t r n ph a r' n' ph' :
  node_segment pr t r n ph a = Some (r', n', ph') → ph' ≠ GPrepare.
Proof.
  intros Hseg ->. destruct ph; destruct a; simpl in Hseg; try done.
  all: repeat (case_match; simplify_eq/=; try done).
Qed.

Lemma run_handler_gs h o k w : w_gs (run_handler h o k w).2 = w_gs w.
Proof. destruct (run_handler_cached h o k w) as (_ & -> & _). done. Qed.

Lemma step_loop_gs w w' : step_loop w = Some w' → w_gs w' = w_gs w.
Proof.
  unfold step_loop, step_child. intros Hs.
  repeat (case_match; simplify_eq/=; try done).
Qed.

Lemma start_node_gs id w :
  w_gs (start_node id w) = w_gs w ∨
  (status_of (w_plan w) id = Some NodeNotStarted ∧ w_gs (start_node id w) = <[id := GPrepare]> (w_gs w)).
Proof.
  unfold start_node, status_of. destruct (GetNode (w_plan w) id) as [n|]; [|by left].
  case_bool_decide as Hs; [by left|]. right. simpl. split; [|done].
  destruct (decide (Node_Status n = NodeNotStarted)) as [->|]; done.
Qed.

Lemma step_gs w e w' : step w e = Some w' →
  w_gs w' = w_gs w ∨
  (∃ id, e = ERecvReady ∧ status_of (w_plan w) id = Some NodeNotStarted ∧
         w_gs w' = <[id := GPrepare]> (w_gs w)) ∨
  (∃ id a ph ph', e = ENode id a ∧ w_gs w !! id = Some ph ∧ ph' ≠ GPrepare ∧
         w_gs w' = <[id := ph']> (w_gs w)).
Proof.
  unfold step. destruct e as [evalErr|o| | | |dl|id a|sig ovr|i].
  - destruct (w_pc w); try done. destruct evalErr; intros [= <-]; by left.
  - destruct (w_pc w) as [ | | | | | | | | | | | | hs | |]; try done.
    + destruct (isCanceled (w_runner w)); [intros [= <-]; by left|].
      pose proof (run_handler_gs HandlerOnInit o true w) as Hg.
      destruct (run_handler HandlerOnInit o true w) as [[err|] w1]; simpl in *; intros [= <-]; by left.
    + destruct hs as [|h hs]; [done|]. intros [= <-]. left. apply run_handler_gs.
    + intros [= <-]. left. apply run_handler_gs.
  - intros Hs. left. by apply step_loop_gs.
  - destruct (w_pc w) as [ | | | | | | | |[] | | | | | |]; try done.
    destruct (w_readyCh w) as [|id rest]; [done|]. intros [= <-].
    destruct (start_node_gs id {| w with w_readyCh := rest |}) as [Hg|[Hs Hg]]; [by left|]. right; left. eauto.
  - destruct (w_pc w); try done. destruct (w_doneCh w); [done|]. intros [= <-]. by left.
  - destruct (w_pc w); try done. destruct (w_ctxDone w); [|done]. intros [= <-]. by left.
  - destruct (w_gs w !! id) as [ph|] eqn:Hid; [|done].
    destruct (GetNode (w_plan w) id) as [n|] eqn:Hn; [|done].
    unfold step_node. destruct (is_defer ph && _); [done|].
    intros ([[r' n'] ph'] & Hseg & [= <-])%bind_Some. right; right. exists id, a, ph, ph'.
    split_and!; try done. by eapply node_segment_not_prepare.
  - intros [= <-]. by left.
  - destruct (w_signals w !! i) as [[sig ovr [|id rest]]|]; try done. intros [= <-]. by left.
Qed.

(** ** The kinds of steps, by their effect on plan and goroutines *)
Lemma step_loop_quiet w w' : inv p0 w → step_loop w = Some w' → plan_quiet (w_plan w) (w_plan w').
Proof.
  intros Hi. unfold step_loop.
  destruct (w_pc w) as [ | | | | | |a|a|a|children queue|c children queue| |hs| |]; try done.
  - destruct (scan _ _ _) as [p ready] eqn:Hs. intros [= <-].
    by apply scan_quiet in Hs as [Hq _]; [|by intros v d; apply (inv_dep p0 Hwf)].
  - by intros [= <-].
  - by intros [= <-].
  - by intros [= <-].
  - destruct (_ && HasWaiting _); [by intros [= <-]|]. by destruct (_ && HasRetrying _); intros [= <-].
  - by destruct (_ && negb (CheckFinished _)); intros [= <-].
  - destruct children as [|c children]; [destruct queue; by intros [= <-]|].
    intros [= <-]. unfold step_child. destruct (GetNode (w_plan w) c) as [n|] eqn:Hn; [|done].
    case_bool_decide as Hs; [|done]. destruct (isReady c (w_plan w)) as [b p'] eqn:Hr.
    apply isReady_quiet in Hr; [|intros d; by apply (inv_dep p0 Hwf)|intros m Hm; congruence].
    destruct b; [done|]. destruct (GetNode p' c); [by case_bool_decide|done].
  - case_bool_decide; by intros [= <-].
  - destruct (all_exited w); [|done].
    pose proof (Runner_Status_cached (w_runner w) (w_plan w)) as Hc%plan_cached_quiet.
    destruct (Runner_Status (w_runner w) (w_plan w)) as [s p]. simpl in Hc.
    destruct (eventHandlers s); by intros [= <-].
  - destruct hs; by intros [= <-].
Qed.

Lemma step_kinds w e w' : inv p0 w → step w e = Some w' →
  (plan_quiet (w_plan w) (w_plan w') ∧ w_gs w' = w_gs w) ∨
  (∃ id n, GetNode (w_plan w) id = Some n ∧ Node_Status n = NodeNotStarted ∧
     w_plan w' = update_node id (λ _, SetStatus NodeRunning n) (w_plan w) ∧
     w_gs w' = <[id := GPrepare]> (w_gs w)) ∨
  (∃ id a ph n r' n' ph', e = ENode id a ∧ w_gs w !! id = Some ph ∧ GetNode (w_plan w) id = Some n ∧
     node_segment (w_progress w) (p_startedAt (w_plan w)) (w_runner w) n ph a = Some (r', n', ph') ∧
     w_plan w' = update_node id (λ _, n') (w_plan w) ∧ w_gs w' = <[id := ph']> (w_gs w)).
Proof.
  intros Hi. unfold step. destruct e as [evalErr|o| | | |dl|id a|sig ovr|i].
  - destruct (w_pc w); try done. destruct evalErr; intros [= <-]; left; [|done]. split; [|done].
    simpl. apply (foldl_quiet (λ _, Node_Cancel)). intros _. apply Node_Cancel_quiet.
  - assert (∀ h k pc, plan_quiet (w_plan w) (w_plan (set_pc pc (run_handler h o k w).2)) ∧
              w_gs (set_pc pc (run_handler h o k w).2) = w_gs w) as Hh.
    { intros h k pc. split; [apply plan_cached_quiet, run_handler_cached|apply run_handler_gs]. }
    destruct (w_pc w) as [ | | | | | | | | | | | | hs | |]; try done.
    + destruct (isCanceled (w_runner w)); [intros [= <-]; by left|]. specialize (Hh HandlerOnInit true LScan).
      destruct (run_handler HandlerOnInit o true w) as [[err|] w1]; simpl in *; intros [= <-]; by left.
    + destruct hs as [|h hs]; [done|]. intros [= <-]. left. apply Hh.
    + intros [= <-]. left. apply Hh.
  - intros Hs. left. split; [by apply step_loop_quiet|by apply step_loop_gs].
  - destruct (w_pc w) as [ | | | | | | | |[] | | | | | |]; try done.
    destruct (w_readyCh w) as [|id rest]; [done|]. intros [= <-]. unfold start_node. simpl.
    destruct (GetNode (w_plan w) id) as [n|] eqn:Hn; [|by left].
    case_bool_decide as Hs; [by left|]. right; left. exists id, n. by split_and!.
  - destruct (w_pc w); try done. destruct (w_doneCh w); [done|]. intros [= <-]. by left.
  - destruct (w_pc w); try done. destruct (w_ctxDone w); [|done]. intros [= <-]. by left.
  - destruct (w_gs w !! id) as [ph|] eqn:Hid; [|done].
    destruct (GetNode (w_plan w) id) as [n|] eqn:Hn; [|done].
    unfold step_node. destruct (is_defer ph && _); [done|].
    intros ([[r' n'] ph'] & Hseg & [= <-])%bind_Some. right; right. by exists id, a, ph, n, r', n', ph'.
  - intros [= <-]. by left.
  - destruct (w_signals w !! i) as [[sig ovr [|id rest]]|]; try done. intros [= <-]. left. split; [|done].
    simpl. apply update_quiet. intros. apply Signal_node_quiet.
Qed.
End Steps.
