(* ===== verification/RunnerOrder.v ===== *)
(** * Dependency order

    A node's goroutine runs only after the dependencies of the node have
    stopped executing for good.  Dependencies with a repeat policy, and those with a
    timeout and an output to capture, are excepted: see RunnerExamples for the runs
    that make the exceptions necessary. *)

From stdpp Require Import gmap strings list relations.
From Stdlib Require Import ZArith Lia.
From S2P Require Import Prelude Status Step Exec Node Graph Plan PlanWf PlanBuild.
From S2P Require Import Runner RunnerLoop RunnerReady RunnerInv RunnerSteps.

(** The goroutine has its command still to run, or running. *)
Definition executing (ph : GPhase) : bool :=
  match ph with GPrepare | GPrecond | GLoop | GExec | GRun | GSleep => true | _ => false end.

Definition no_repeat (n : Node) : Prop := rep_Mode (st_RepeatPolicy (n_Step n)) = RepeatModeNone.

(** A node that is over after its retries: it has no repeat policy, and no timeout
    together with an output to capture. *)
Definition runs_once (n : Node) : Prop :=
  no_repeat n ∧ ((0 < st_Timeout (n_Step n))%Z → captures (n_Step n) = false).

Lemma runs_once_config n m : same_config n m → runs_once m ↔ runs_once n.
Proof. intros (_ & _ & _ & Hm & _ & Ht & Hc). unfold runs_once, no_repeat. by rewrite Hm, Ht, Hc. Qed.

Lemma runs_once_step n m : n_Step m = n_Step n → runs_once m ↔ runs_once n.
Proof. intros Hm. unfold runs_once, no_repeat. by rewrite Hm. Qed.

Lemma shouldRepeatNode_none condMet e n : no_repeat n → shouldRepeatNode condMet e n = false.
Proof. intros Hnr. unfold shouldRepeatNode. rewrite Hnr. by case_match. Qed.

Definition deadline_err (e : option GoError) : Prop := ∃ e', e = Some e' ∧ is_deadline e' = true.

(** The statuses a node without repeat policy has at each program point. *)
Definition phase_status (ph : GPhase) (n : Node) : Prop :=
  match ph with
  | GPrepare | GPrecond | GLoop | GExec | GRun => Node_Status n ∈ [NodeRunning; NodeAborted]
  | GHandle e =>
      Node_Status n ∈ [NodeRunning; NodeAborted; NodeSucceeded; NodePartiallySucceeded; NodeWaiting] ∨
      (Node_Status n = NodeFailed ∧ deadline_err e)
  | GSleep => Node_Status n ∈ [NodeRunning; NodeAborted; NodeWaiting]
  | _ => True
  end.

(** At [ph] the node will not execute again. *)
Definition settled_at (ph : GPhase) (n : Node) : Prop :=
  match ph with
  | GPrepare | GPrecond | GLoop | GExec | GRun | GSleep => False
  | GHandle e =>
      e = None ∨ deadline_err e ∨ Node_Status n ∈ [NodeSucceeded; NodeAborted; NodePartiallySucceeded]
  | _ => True
  end.

Section Order.
Context `{LogFiles} `{SignalTable}.

Lemma phase_status_quiet ph n m : quiet_change n m → phase_status ph n → phase_status ph m.
Proof.
  intros Hq. destruct (qc_status _ _ Hq) as [Hs|[[Hs _]|[_ Hs]]]; destruct ph; simpl; rewrite ?Hs; try done.
  all: rewrite ?elem_of_cons, ?elem_of_nil; intuition congruence.
Qed.

Lemma settled_at_quiet ph n m : quiet_change n m → settled_at ph n → settled_at ph m.
Proof.
  intros Hq. destruct (qc_status _ _ Hq) as [Hs|[[Hs _]|[_ Hs]]]; destruct ph; simpl; rewrite ?Hs; try done.
  all: rewrite ?elem_of_cons, ?elem_of_nil; intuition congruence.
Qed.

(** A satisfied dependency is settled. *)
Lemma verdict_settled ph n : dep_verdict n = VOk → phase_status ph n → settled_at ph n.
Proof.
  unfold dep_verdict. destruct ph; simpl; try done.
  all: destruct (Node_Status n); try done; intros _.
  all: rewrite ?elem_of_cons, ?elem_of_nil; intuition congruence.
Qed.

Lemma verdict_started n : dep_verdict n = VOk → Node_Status n ≠ NodeNotStarted.
Proof. unfold dep_verdict. by destruct (Node_Status n). Qed.

(** ** Segments *)
Lemma segment_phase_status pr t r n ph a r' n' ph' :
  node_segment pr t r n ph a = Some (r', n', ph') → valid_act a → runs_once n →
  phase_status ph n → phase_status ph' n'.
Proof.
  intros Hseg Hv [Hnr Hcap]. destruct ph; destruct a; simpl in Hseg; try done; simplify_eq; try done.
  - unfold prepareNode in Hseg. destruct (cfg_Dry (r_cfg r)); [by simplify_eq|].
    destruct (Prepare_config o n) as (Hc & Hs & _). destruct (Prepare o n) as [[e|] m]; simpl in *; simplify_eq; [done|].
    simpl. by rewrite Hs.
  - destruct (meetsPreconditions evalErr n) as [ok m] eqn:Hm.
    apply meetsPreconditions_facts in Hm as (_ & _ & _ & _ & _ & Hs). destruct ok; simplify_eq; [|done].
    simpl. destruct (chat_core store supportsChat m) as (_ & _ & _ & -> & _). by rewrite Hs.
  - by destruct (isCanceled r').
  - destruct (cfg_Dry (r_cfg r)).
    { simplify_eq. simpl. rewrite ?elem_of_cons, ?elem_of_nil. intuition. }
    destruct (Execute_setup_config o n) as (_ & Hs & _).
    destruct (Execute_setup o n) as [[e|] m]; simpl in *; simplify_eq; simpl; rewrite Hs; [|done].
    rewrite ?elem_of_cons, ?elem_of_nil. intuition.
  - pose proof (Execute_run_facts o n) as Hf. destruct (Execute_run o n) as [err m] eqn:He.
    destruct Hf as (_ & _ & _ & _ & _ & Hs). simplify_eq. simpl.
    destruct Hs as [->|[(Hs & Ht & e & -> & Hd)|Hs]].
    + rewrite ?elem_of_cons, ?elem_of_nil. intuition.
    + intros _. right. split; [done|]. exists e. split; [done|]. destruct Hd as [?|Hce]; [done|].
      specialize (Hcap Ht). congruence.
    + intros _. left. unfold valid_act, valid_outcome in Hv. rewrite Hs in Hv. set_solver.
  - destruct (handleNodeExecutionError _ _ _ _ _ _) as [[b r1] n1] eqn:Hh.
    apply handle_facts in Hh as (_ & _ & _ & _ & _ & _ & Ht & _).
    destruct b; [|case_match; by simplify_eq]. simplify_eq. simpl.
    destruct (Ht eq_refl) as (_ & Hnd & Hns & -> & _). intros [Hin|[_ (e & He & Hd)]]; [set_solver|].
    specialize (Hnd e He). congruence.
  - intros _. simpl. set_solver.
  - rewrite shouldRepeatNode_none in Hseg by done. simpl in Hseg. case_match; by simplify_eq.
  - unfold teardownNode, Teardown in Hseg.
    repeat (case_match; simplify_eq/=; try done).
  - unfold recoverNodePanic in Hseg. destruct panicked; by simplify_eq.
Qed.

Lemma segment_settled pr t r n ph a r' n' ph' :
  node_segment pr t r n ph a = Some (r', n', ph') → runs_once n → settled_at ph n → settled_at ph' n'.
Proof.
  intros Hseg [Hnr _] Hset. destruct ph; destruct a; simpl in Hseg; try done; simplify_eq; try done.
  - destruct (handleNodeExecutionError _ _ _ _ _ _) as [[b r1] n1] eqn:Hh.
    apply handle_facts in Hh as (_ & _ & _ & _ & _ & _ & Ht & _).
    destruct b; [|case_match; by simplify_eq].
    destruct (Ht eq_refl) as (Hne & Hnd & Hns & _). simpl in Hset. exfalso.
    destruct Hset as [?|[(e & He & Hd)|?]]; [done| |done]. rewrite (Hnd e He) in Hd. done.
  - rewrite shouldRepeatNode_none in Hseg by done. simpl in Hseg. case_match; by simplify_eq.
  - unfold teardownNode, Teardown in Hseg.
    repeat (case_match; simplify_eq/=; try done).
  - unfold recoverNodePanic in Hseg. destruct panicked; by simplify_eq.
Qed.

(** ** The invariant *)
Section Invariant.
Context (p0 : Plan) (Hwf : plan_wf p0).

Definition settled (gs : gmap Z GPhase) (p : Plan) (d : Z) : Prop :=
  ∃ n, GetNode p d = Some n ∧ Node_Status n ≠ NodeNotStarted ∧
       (runs_once n → ∀ ph, gs !! d = Some ph → settled_at ph n).

Definition deps_settled (gs : gmap Z GPhase) (p : Plan) (c : Z) : Prop :=
  ∀ d, edge p0 d c → settled gs p d.

(** The nodes the loop has found ready or started. *)
Definition cleared_to_run (w : World) (c : Z) : Prop :=
  c ∈ w_readyCh w ∨ is_Some (w_gs w !! c) ∨ ∃ children queue, w_pc w = LSend c children queue.

Definition statuses_ok (gs : gmap Z GPhase) (p : Plan) : Prop :=
  ∀ d ph n, gs !! d = Some ph → GetNode p d = Some n → runs_once n → phase_status ph n.

Record oinv (w : World) : Prop := {
  oi_inv : inv p0 w;
  oi_status : statuses_ok (w_gs w) (w_plan w);
  oi_deps : ∀ c, cleared_to_run w c → deps_settled (w_gs w) (w_plan w) c;
}.

Lemma settled_quiet gs p q d : plan_quiet p q → settled gs p d → settled gs q d.
Proof.
  intros Hq (n & Hn & Hs & Hset). destruct (pq_node _ _ Hq d n Hn) as (m & Hm & Hqc).
  exists m. split_and!; [done| |].
  - destruct (qc_status _ _ Hqc) as [->|[[? _]|[_ ->]]]; done.
  - intros Hnr ph Hph. eapply settled_at_quiet; [done|]. apply Hset; [|done].
    by apply (runs_once_step n m (qc_step _ _ Hqc)).
Qed.

Lemma statuses_quiet gs p q : plan_quiet p q → statuses_ok gs p → statuses_ok gs q.
Proof.
  intros Hq Hst d ph m Hph Hm Hnr. destruct (plan_quiet_back p q d m Hq Hm) as (n & Hn & Hqc).
  eapply phase_status_quiet; [done|]. eapply Hst; [done..|].
  by apply (runs_once_step n m (qc_step _ _ Hqc)).
Qed.

(** Satisfied dependencies are settled. *)
Lemma ready_settled gs p c p' :
  same_shape p0 p → statuses_ok gs p →
  isReady c p = (true, p') → deps_settled gs p c.
Proof.
  intros Hsh Hst Hr d Hd.
  assert (∀ v, v ∈ Dependencies p c → is_Some (GetNode p v)) as Hdeps.
  { intros v Hv. apply (ss_dom _ _ Hsh), (wf_store p0 Hwf).
    rewrite (same_shape_Dependencies p0) in Hv by done. by apply (wf_edge_in p0 Hwf v c). }
  destruct (isReady_deps_inv c _ p true p' Hdeps Hr) as (_ & Hok & _).
  destruct (Hok eq_refl) as [_ Hall]. destruct (Hall d) as (n & Hn & Hv).
  { by rewrite (same_shape_Dependencies p0) by done. }
  exists n. split_and!; [done|by apply verdict_started|].
  intros Hnr ph Hph. apply verdict_settled; [done|]. by eapply Hst.
Qed.

Lemma oinv_quiet w w' :
  oinv w → inv p0 w' → plan_quiet (w_plan w) (w_plan w') → w_gs w' = w_gs w →
  (∀ c, cleared_to_run w' c → cleared_to_run w c ∨ deps_settled (w_gs w') (w_plan w') c) → oinv w'.
Proof.
  intros [Hi Hst Hd] Hi' Hq Hgs Hc. split; [done|rewrite Hgs; by eapply statuses_quiet|].
  intros c Hc'. destruct (Hc c Hc') as [Hold|]; [|done]. rewrite Hgs.
  intros d Hed. eapply settled_quiet; [done|]. by apply (Hd c).
Qed.

Lemma scan_settled gs ids : ∀ p ready p' ready',
  same_shape p0 p → statuses_ok gs p → scan ids p ready = (p', ready') →
  (∀ c, c ∈ ready → deps_settled gs p c) → ∀ c, c ∈ ready' → deps_settled gs p' c.
Proof.
  induction ids as [|id ids IH]; intros p ready p' ready' Hsh Hst; simpl; [intros [= <- <-]; done|].
  destruct (GetNode p id) as [n|] eqn:Hn; [|by apply IH].
  case_bool_decide as Hs; [|by apply IH].
  destruct (isReady id p) as [b p1] eqn:Hr. intros Hsc Hready.
  assert (plan_quiet p p1) as Hq.
  { eapply isReady_quiet; [| |exact Hr]; [|intros m Hm; congruence].
    intros d Hd. apply (ss_dom _ _ Hsh), (wf_store p0 Hwf).
    rewrite (same_shape_Dependencies p0) in Hd by done. by apply (wf_edge_in p0 Hwf d id). }
  apply (IH p1 (if b then ready ++ [id] else ready) p' ready'); [|by eapply statuses_quiet|done|].
  - etrans; [done|apply Hq].
  - intros c Hc d Hd. eapply settled_quiet; [done|].
    destruct b; [|by apply (Hready c)].
    apply elem_of_app in Hc as [Hc|Hc%list_elem_of_singleton]; [by apply (Hready c)|]. subst c.
    by eapply ready_settled.
Qed.

Lemma oinv_segment w id ph n a r' n' ph' :
  oinv w → inv p0 {| w with
    w_runner := r'; w_plan := update_node id (λ _, n') (w_plan w); w_gs := <[id := ph']> (w_gs w);
    w_doneCh := if is_defer ph then w_doneCh w ++ [id] else w_doneCh w |} →
  valid_act a → w_gs w !! id = Some ph → GetNode (w_plan w) id = Some n →
  node_segment (w_progress w) (p_startedAt (w_plan w)) (w_runner w) n ph a = Some (r', n', ph') →
  oinv {| w with
    w_runner := r'; w_plan := update_node id (λ _, n') (w_plan w); w_gs := <[id := ph']> (w_gs w);
    w_doneCh := if is_defer ph then w_doneCh w ++ [id] else w_doneCh w |}.
Proof.
  intros [Hi Hst Hd] Hi' Ha Hid Hn Hseg.
  pose proof (node_segment_facts _ _ _ _ _ _ _ _ _ Hseg) as (Hcfg & _ & _ & _ & Hns).
  split; [done| |]; simpl.
  - intros d pd m. rewrite lookup_insert, GetNode_update. case_decide; [|apply Hst]. subst d. rewrite Hn.
    intros [= <-] [= <-] Hnr. apply (runs_once_config n) in Hnr; [|done].
    eapply segment_phase_status; [done..|]. by eapply Hst.
  - intros c Hc d Hed.
    assert (settled (w_gs w) (w_plan w) d) as (m & Hm & Hms & Hset).
    { apply (Hd c); [|done]. destruct Hc as [?|[Hg|?]]; [by left| |by right; right]. simpl in Hg.
      right; left. rewrite lookup_insert in Hg. case_decide; [subst; eauto|done]. }
    unfold settled. rewrite GetNode_update. case_decide as Hdid.
    + subst d. assert (m = n) as -> by congruence. exists n'. rewrite Hm. split_and!; [done| |].
      * apply Hns; [apply Ha|done].
      * intros Hnr pd. rewrite lookup_insert_eq. intros [= <-]. apply (runs_once_config n) in Hnr; [|done].
        eapply segment_settled; [done..|]. by apply Hset.
    + exists m. rewrite lookup_insert_ne by done. done.
Qed.

Lemma oinv_start w id rest :
  oinv w → inv p0 (start_node id {| w with w_readyCh := rest |}) →
  w_pc w = LSelect true → w_readyCh w = id :: rest →
  oinv (start_node id {| w with w_readyCh := rest |}).
Proof.
  intros Ho Hi' Hpc Hr. pose proof Ho as [Hi Hst Hd]. revert Hi'. unfold start_node. simpl.
  assert (∀ w', w_gs w' = w_gs w → w_readyCh w' = rest → w_pc w' = LCheck →
     ∀ c, cleared_to_run w' c → cleared_to_run w c) as Hcl.
  { intros w' Hg Hr' Hp c [Hc|[Hc|(? & ? & Hc)]]; [left|right; left|].
    - rewrite Hr. right. by rewrite Hr' in Hc.
    - by rewrite <-Hg.
    - congruence. }
  destruct (GetNode (w_plan w) id) as [n|] eqn:Hn.
  2: { intros Hi'. apply (oinv_quiet w); try done. intros c Hc. left. by eapply Hcl; [..|exact Hc]. }
  case_bool_decide as Hs; intros Hi'.
  { apply (oinv_quiet w); try done. intros c Hc. left. by eapply Hcl; [..|exact Hc]. }
  destruct (decide (Node_Status n = NodeNotStarted)) as [Hs'|]; [|done].
  assert (∀ d c, cleared_to_run w c → edge p0 d c → d ≠ id) as Hne.
  { intros d c Hc Hed ->. destruct (Hd c Hc id Hed) as (m & Hm & Hms & _). congruence. }
  assert (∀ c, cleared_to_run w c → deps_settled (<[id:=GPrepare]> (w_gs w))
            (update_node id (λ _, SetStatus NodeRunning n) (w_plan w)) c) as Hall.
  { intros c Hc d Hed. destruct (Hd c Hc d Hed) as (m & Hm & Hms & Hset). exists m.
    rewrite GetNode_update, decide_False by (intros <-; by eapply Hne). split_and!; [done..|].
    intros Hnr ph. rewrite lookup_insert_ne by (intros <-; by eapply Hne). by apply Hset. }
  split; [done| |]; simpl.
  - intros d pd m. rewrite lookup_insert, GetNode_update. case_decide; [|apply Hst]. subst d. rewrite Hn.
    intros [= <-] [= <-] _. simpl. by left.
  - intros c [Hc|[Hc|(? & ? & ?)]]; simpl in *; [apply Hall; left; rewrite Hr; by right| |done].
    apply Hall. rewrite lookup_insert in Hc. case_decide; [subst c; left; rewrite Hr; by left|by right; left].
Qed.

Lemma oinv_loop w w' : oinv w → inv p0 w' → step_loop w = Some w' → oinv w'.
Proof.
  intros Ho Hi'. pose proof Ho as [Hi Hst Hd].
  assert (∀ w1, w_gs w1 = w_gs w → (w_readyCh w1 = w_readyCh w) →
    (∀ c x y, w_pc w1 = LSend c x y → deps_settled (w_gs w1) (w_plan w1) c) →
    ∀ c, cleared_to_run w1 c → cleared_to_run w c ∨ deps_settled (w_gs w1) (w_plan w1) c) as Hcl.
  { intros w1 Hg Hr Hp c [Hc|[Hc|(x & y & Hc)]].
    - left; left. by rewrite <-Hr.
    - left; right; left. by rewrite <-Hg.
    - right. by eapply Hp. }
  assert (∀ pc, inv p0 (set_pc pc w) → (∀ c x y, pc ≠ LSend c x y) → oinv (set_pc pc w)) as Hpc.
  { intros pc Hi1 Hp. apply (oinv_quiet w); try done. apply Hcl; try done. intros c x y Heq. by destruct (Hp c x y). }
  unfold step_loop. destruct (w_pc w) eqn:Epc; try done.
  - destruct (scan _ _ _) as [p ready] eqn:Hs. intros [= <-].
    pose proof (scan_settled (w_gs w) _ _ _ _ _ (iv_shape _ _ Hi) Hst Hs) as Hready.
    apply (scan_quiet p0 Hwf) in Hs as [Hq _]; [|by intros v d; apply (inv_dep p0 Hwf)].
    apply (oinv_quiet w); try done. intros c [Hc|[Hc|(? & ? & ?)]]; [|by left; right; left|done].
    right. simpl in *. apply Hready; [|done]. set_solver.
  - intros [= <-]. apply Hpc; [done|]. by case_match.
  - intros [= <-]. apply Hpc; [done|]. by case_match.
  - intros [= <-]. by apply Hpc.
  - destruct (_ && HasWaiting _); [intros [= <-]; by apply Hpc|].
    destruct (_ && HasRetrying _); intros [= <-]; by apply Hpc.
  - destruct (_ && negb (CheckFinished _)); intros [= <-]; [|by apply Hpc].
    apply (oinv_quiet w); try done. by apply Hcl.
  - destruct children as [|c children]; [destruct queue as [|curr queue]|].
    + intros [= <-]. by apply Hpc.
    + intros [= <-]. by apply Hpc.
    + intros [= <-]. revert Hi'. unfold step_child.
      destruct (GetNode (w_plan w) c) as [n|] eqn:Hn; [|by intros; apply Hpc].
      case_bool_decide as Hs; [|by intros; apply Hpc].
      destruct (isReady c (w_plan w)) as [b p'] eqn:Hr.
      assert (plan_quiet (w_plan w) p') as Hq.
      { eapply isReady_quiet; [| |exact Hr]; [by intros d; apply (inv_dep p0 Hwf)|intros m Hm; congruence]. }
      destruct b; [|destruct (GetNode p' c); [case_bool_decide|]]; intros Hi';
        (apply (oinv_quiet w); try done; apply Hcl; try done).
      simpl. intros v x y [= <- _ _] d Hed. eapply settled_quiet; [done|]. eapply ready_settled; [apply Hi|done..].
  - case_bool_decide; [|done]. intros [= <-]. apply (oinv_quiet w); try done.
    intros v [Hv|[Hv|(? & ? & ?)]]; [|by left; right; left|done]. left. simpl in Hv.
    apply elem_of_app in Hv as [?|Hv%list_elem_of_singleton]; [by left|]. subst v. right; right. eauto.
  - destruct (all_exited w); [|done].
    pose proof (Runner_Status_cached (w_runner w) (w_plan w)) as Hc.
    destruct (Runner_Status (w_runner w) (w_plan w)) as [s p]. simpl in Hc. apply plan_cached_quiet in Hc.
    destruct (eventHandlers s); intros [= <-]; apply (oinv_quiet w); try done; apply Hcl; try done.
    intros v x y. simpl. by case_match.
  - destruct hs; [|done]. intros [= <-]. by apply Hpc.
Qed.

Lemma oinv_same w w' :
  oinv w → inv p0 w' → plan_quiet (w_plan w) (w_plan w') → w_gs w' = w_gs w →
  w_readyCh w' = w_readyCh w → (w_pc w' = w_pc w ∨ ∀ c x y, w_pc w' ≠ LSend c x y) → oinv w'.
Proof.
  intros Ho Hi Hq Hg Hr Hp. apply (oinv_quiet w); try done. intros c Hc. left.
  destruct Hc as [Hc|[Hc|(x & y & Hc)]]; [left; by rewrite <-Hr|right; left; by rewrite <-Hg|].
  destruct Hp as [Hp|Hp]; [|by destruct (Hp c x y)]. right; right. exists x, y. by rewrite <-Hp.
Qed.

Lemma oinv_step w e w' : oinv w → valid_event e → step w e = Some w' → oinv w'.
Proof.
  intros Ho Hv Hstep.
  assert (inv p0 w') as Hi' by (eapply inv_step; [done|apply Ho|done|done]).
  revert Hstep. unfold step. destruct e as [evalErr|o| | | |dl|id a|sig ovr|i].
  - destruct (w_pc w); try done. destruct evalErr; [|intros [= <-]; apply (oinv_same w); try done; by right].
    unfold Runner_Cancel. intros [= <-]. apply (oinv_same w); try done; [|by right].
    simpl. apply (foldl_quiet (λ _, Node_Cancel)). intros _. apply Node_Cancel_quiet.
  - assert (∀ h k pc, inv p0 (set_pc pc (run_handler h o k w).2) → (∀ c x y, pc ≠ LSend c x y) →
      oinv (set_pc pc (run_handler h o k w).2)) as Hh.
    { intros h k pc. destruct (run_handler_cached h o k w) as (Hc & -> & _). intros. apply plan_cached_quiet in Hc.
      apply (oinv_same w); try done. by right. }
    destruct (w_pc w) as [ | | | | | | | | | | | | hs | |] eqn:Epc; try done.
    + destruct (isCanceled (w_runner w)); [intros [= <-]; apply (oinv_same w); try done; by right|].
      destruct (run_handler_cached HandlerOnInit o true w) as (Hc & Heq & _). apply plan_cached_quiet in Hc.
      destruct (run_handler HandlerOnInit o true w) as [[err|] w1]; simpl in *; intros [= <-];
        apply (oinv_same w); try done; try (by rewrite Heq); by right.
    + destruct hs as [|h hs]; [done|]. intros [= <-]. by apply Hh.
    + intros [= <-]. by apply Hh.
  - by apply oinv_loop.
  - destruct (w_pc w) as [ | | | | | | | |[] | | | | | |] eqn:Epc; try done.
    destruct (w_readyCh w) as [|id rest] eqn:Hr; [done|]. intros [= <-]. by apply oinv_start.
  - destruct (w_pc w) as [ | | | | | | | |a | | | | | |] eqn:Epc; try done.
    destruct (w_doneCh w) as [|id rest] eqn:Hr; [done|]. intros [= <-].
    apply (oinv_same w); try done. right. simpl. by case_match.
  - destruct (w_pc w) as [ | | | | | | | |a | | | | | |] eqn:Epc; try done.
    destruct (w_ctxDone w); [|done]. intros [= <-]. apply (oinv_same w); try done. by right.
  - destruct (w_gs w !! id) as [ph|] eqn:Hid; [|done].
    destruct (GetNode (w_plan w) id) as [n|] eqn:Hn; [|done].
    unfold step_node. destruct (is_defer ph && _); [done|].
    intros ([[r' n'] ph'] & Hseg & [= <-])%bind_Some. by eapply oinv_segment.
  - intros [= <-]. apply (oinv_same w); try done. by left.
  - destruct (w_signals w !! i) as [[sig ovr [|id rest]]|]; try done. intros [= <-].
    apply (oinv_same w); try done; [|by left].
    simpl. apply update_quiet. intros. apply Signal_node_quiet.
Qed.
End Invariant.

Lemma inv_init p0 r pg : plan_wf p0 → inv p0 (init_world r p0 pg).
Proof.
  intros Hwf. split; simpl; try done.
  - split; [constructor|]. set_solver.
  - set_solver.
  - intros. unfold max_active. simpl. lia.
Qed.

Lemma oinv_init p0 r pg : plan_wf p0 → oinv p0 (init_world r p0 pg).
Proof.
  intros Hwf. split; [by apply inv_init|done|].
  intros c [Hc|[[? Hc]|(? & ? & ?)]]; simpl in *; [set_solver|by rewrite lookup_empty in Hc|done].
Qed.

Lemma reachable_inv p0 r pg w : plan_wf p0 →
  reachable valid_event (init_world r p0 pg) w → inv p0 w.
Proof.
  intros Hwf. induction 1 as [|w e w' _ IH He Hs]; [by apply inv_init|]. by eapply inv_step.
Qed.

Lemma reachable_oinv p0 r pg w : plan_wf p0 →
  reachable valid_event (init_world r p0 pg) w → oinv p0 w.
Proof.
  intros Hwf. induction 1 as [|w e w' _ IH He Hs]; [by apply oinv_init|]. by eapply oinv_step.
Qed.

(** C35. The concurrency limit and the channels, in every state a run reaches: the
    goroutines that have not signalled completion are at most the configured
    maximum; each of them finds room in [doneCh]; and a node is started at
    most once, since starting makes a node that has no goroutine run. *)
Theorem run_limits (p0 : Plan) (r : Runner) (progress : bool) (w : World)
    (Hwf : plan_wf p0) (Hr : reachable valid_event (init_world r p0 progress) w) :
  ((0 < max_active w)%Z → (Z.of_nat (unsent_count (w_gs w)) <= max_active w)%Z) ∧
  (∀ id ph, w_gs w !! id = Some ph → unsent ph = true → length (w_doneCh w) < capacity w) ∧
  (∀ e w' id, step w e = Some w' → w_gs w !! id = None → is_Some (w_gs w' !! id) →
     e = ERecvReady ∧ status_of (w_plan w) id = Some NodeNotStarted ∧ w_gs w' !! id = Some GPrepare) ∧
  (∀ e w' id ph, step w e = Some w' → w_gs w !! id = Some ph →
     ∃ ph', w_gs w' !! id = Some ph' ∧ (ph' = GPrepare → ph = GPrepare)).
Proof.
  pose proof (reachable_inv p0 r progress w Hwf Hr) as Hi. split_and!.
  - intros Hm. pose proof (iv_max p0 w Hi) as Hmax. rewrite (iv_running p0 w Hi) in Hmax. lia.
  - intros id ph. by apply (inv_doneCh_room p0).
  - intros e w' id Hs Hnone Hsome. apply step_gs in Hs as [Hg|[(v & -> & Hst & Hg)|(v & a & ph & ph' & _ & Hv & _ & Hg)]].
    + rewrite Hg, Hnone in Hsome. by destruct Hsome.
    + rewrite Hg, lookup_insert in Hsome. rewrite Hg, lookup_insert. case_decide; [by subst|].
      rewrite Hnone in Hsome. by destruct Hsome.
    + rewrite Hg, lookup_insert in Hsome. case_decide; [congruence|].
      rewrite Hnone in Hsome. by destruct Hsome.
  - intros e w' id ph Hs Hid. apply step_gs in Hs as [Hg|[(v & -> & Hst & Hg)|(v & a & ph0 & ph' & _ & Hv & Hp & Hg)]];
      rewrite Hg; [by eauto| |]; rewrite lookup_insert; (case_decide; [|by eauto]); subst v.
    + destruct (iv_gs p0 w Hi id ph Hid) as [_ Hns]. done.
    + exists ph'. by split.
Qed.

(** C1. Dependency order, in every interleaving of the loop, the goroutines, signals and
    panics, with executors that report a status of their documented ones: whenever a
    node's goroutine exists, every dependency of the node that has no repeat policy and
    not both a timeout and an output to capture has been started or skipped over, and
    its goroutine, if it has one, is past its execution for good.  The exceptions are
    real: a dependency with a repeat policy can execute again, and one that timed out
    and whose output cannot be captured is retried, while the node runs. *)
Theorem dependency_order (p0 : Plan) (r : Runner) (progress : bool) (w : World) (c d : Z) (n : Node)
    (Hwf : plan_wf p0) (Hr : reachable valid_event (init_world r p0 progress) w)
    (Hc : is_Some (w_gs w !! c)) (Hdep : edge p0 d c)
    (Hn : GetNode (w_plan w) d = Some n) (Hnr : runs_once n) :
  Node_Status n ≠ NodeNotStarted ∧ ∀ ph, w_gs w !! d = Some ph → executing ph = false.
Proof.
  pose proof (reachable_oinv p0 r progress w Hwf Hr) as Ho.
  destruct (oi_deps p0 w Ho c (or_intror (or_introl Hc)) d Hdep) as (m & Hm & Hs & Hset).
  assert (m = n) as -> by congruence. split; [done|].
  intros ph Hph. specialize (Hset Hnr ph Hph). by destruct ph.
Qed.
End Order.
