(* ===== verification/RunnerLive.v ===== *)
(** * The event loop finishes its work

    For a fresh acyclic plan and a limit of active steps that is not negative, without
    panics and signals: the loop's deadlock
    detection never fires, and when the loop ends every node that was not
    started lies downstream of a node that waits for approval or for a
    retry. *)

From stdpp Require Import gmap strings list relations.
From Stdlib Require Import ZArith Lia.
From S2P Require Import Prelude Status Step Exec Node Graph Plan PlanWf Kahn PlanBuild.
From S2P Require Import Runner RunnerLoop RunnerReady RunnerInv RunnerSteps RunnerOrder.

(** Events other than panics, signals and failed DAG preconditions. *)
Definition live_event (e : Event) : Prop :=
  valid_event e ∧
  match e with
  | ENode _ (APanic _) | ESignal _ _ | ESignalNode _ | EPreconditions (Some _) => False
  | _ => True
  end.

(** The program points at which a node may have the status [NodeRunning]. *)
Definition runnable (ph : GPhase) : bool :=
  match ph with
  | GPrepare | GPrecond | GLoop | GExec | GRun | GHandle _ | GSleep | GRepeat None | GFinal => true
  | _ => false
  end.

Definition panicking (ph : GPhase) : bool :=
  match ph with GDefer (Some _) | GRecover (Some _) => true | _ => false end.

Lemma runnable_unsent ph : runnable ph = true → unsent ph = true.
Proof. by destruct ph. Qed.

Section Live.
Context `{LogFiles} `{SignalTable}.

Lemma segment_running pr t r n ph a r' n' ph' :
  node_segment pr t r n ph a = Some (r', n', ph') →
  valid_act a → (∀ e, a ≠ APanic e) → isCanceled r = false → panicking ph = false →
  (Node_Status n = NodeRunning → runnable ph = true) →
  panicking ph' = false ∧ (Node_Status n' = NodeRunning → runnable ph' = true) ∧
  (unsent ph = false → Node_Status n' = Node_Status n).
Proof.
  intros Hseg Hv Hnp Hcan Hpan Hrun. destruct ph; destruct a; simpl in Hseg; try done; simplify_eq;
    try done; try by destruct (Hnp e).
  - unfold prepareNode in Hseg. destruct (cfg_Dry (r_cfg r)); [by simplify_eq|].
    destruct (Prepare o n) as [[e|] m]; simpl in *; by simplify_eq.
  - destruct (meetsPreconditions evalErr n) as [ok m] eqn:Hm.
    apply meetsPreconditions_facts in Hm as (_ & _ & _ & _ & _ & Hs). destruct ok; simplify_eq; [done|].
    split_and!; try done. by rewrite Hs.
  - by rewrite Hcan.
  - destruct (cfg_Dry (r_cfg r)); [by simplify_eq|].
    destruct (Execute_setup o n) as [[e|] m]; simpl in *; by simplify_eq.
  - destruct (Execute_run o n) as [err m]. by simplify_eq.
  - destruct (handleNodeExecutionError _ _ _ _ _ _) as [[b r1] n1] eqn:Hh.
    apply handle_facts in Hh as (_ & _ & _ & _ & _ & _ & _ & Hf).
    destruct b; [by simplify_eq|]. specialize (Hf eq_refl).
    case_bool_decide as Hret; simplify_eq; [by rewrite Hret|]. split_and!; try done.
    intros Hs. destruct execErr as [e|]; [|done]. exfalso.
    assert (Node_Status n1 = NodeRunning) as Hs1 by (revert Hs; by case_bool_decide). rewrite Hs1 in Hf.
    destruct Hf as [(Hn & _ & [?|[Hin|Hc]])|[(_ & Hin & _)|(_ & ? & _)]]; try congruence.
    + rewrite <-Hn in Hin. set_solver.
    + set_solver.
  - destruct (shouldRepeatNode condMet execErr n && negb (isCanceled r)).
    + by simplify_eq.
    + destruct execErr as [e|]; simpl in Hseg; [|by simplify_eq]. simpl in Hrun.
      destruct pr; simplify_eq; by split_and!.
  - destruct (finalStatus_facts r' n) as (_ & _ & _ & _ & _ & Hs & _). done.
  - simpl in Hrun. unfold teardownNode, Teardown in Hseg.
    destruct (cfg_Dry (r_cfg r)); [by simplify_eq|]. destruct (n_done n); [by simplify_eq|].
    destruct closeErr; simplify_eq; by split_and!.
  - destruct panicked; [done|]. simpl in Hseg. by simplify_eq.
Qed.

(** ** The invariant *)
Section Invariant.
Context (p0 : Plan) (Hwf : plan_wf p0) (Hac : isCyclic p0 = false).

(** The completion of [d] has not been received. *)
Definition in_flight (w : World) (d : Z) : Prop :=
  ∃ ph, w_gs w !! d = Some ph ∧ (unsent ph = true ∨ d ∈ w_doneCh w).

(** [c] is still to be looked at by [processCompletedNode]. *)
Definition to_visit (pc : LoopPC) (c : Z) : Prop :=
  match pc with
  | LProc children queue => c ∈ children ∨ ∃ d, d ∈ queue ∧ edge p0 d c
  | LSend c' children queue => c = c' ∨ c ∈ children ∨ ∃ d, d ∈ queue ∧ edge p0 d c
  | _ => False
  end.

(** Why the dependency [d] holds a node back. *)
Definition holds_back (w : World) (d : Z) : Prop :=
  status_of (w_plan w) d = Some NodeNotStarted ∨ in_flight w d ∨
  status_of (w_plan w) d = Some NodeWaiting ∨ status_of (w_plan w) d = Some NodeRetrying.

Definition reason (w : World) (c : Z) : Prop :=
  c ∈ w_readyCh w ∨ to_visit (w_pc w) c ∨ ∃ d, edge p0 d c ∧ holds_back w d.

Definition before_loop (pc : LoopPC) : bool :=
  match pc with LPreconditions | LInitHandler | LScan => true | _ => false end.

Definition after_loop (pc : LoopPC) : bool :=
  match pc with LWait | LHandlers _ | LWaitHandler | LReturned => true | _ => false end.

Definition idle (w : World) : Prop := w_running w = 0%Z ∧ w_readyCh w = [].

Definition no_parked (w : World) : Prop :=
  ∀ v, status_of (w_plan w) v ≠ Some NodeWaiting ∧ status_of (w_plan w) v ≠ Some NodeRetrying.

Record linv (w : World) : Prop := {
  li_inv : inv p0 w;
  li_fresh : before_loop (w_pc w) = true →
    (∀ v, v ∈ p_nodes p0 → status_of (w_plan w) v = Some NodeNotStarted) ∧ w_gs w = ∅ ∧ w_readyCh w = [];
  li_max : (0 <= max_active w)%Z;
  li_running : ∀ v, status_of (w_plan w) v = Some NodeRunning →
    ∃ ph, w_gs w !! v = Some ph ∧ runnable ph = true;
  li_panic : ∀ v ph, w_gs w !! v = Some ph → panicking ph = false;
  li_reason : before_loop (w_pc w) = false → ∀ c, status_of (w_plan w) c = Some NodeNotStarted → reason w c;
  li_active : match w_pc w with
    | LStates a | LDeadlock a => w_running w = 0%Z → a = true
    | _ => True end;
  li_parked : match w_pc w with LDeadlock _ => idle w → no_parked w | _ => True end;
  li_over : after_loop (w_pc w) = true →
    (∀ v, status_of (w_plan w) v ≠ Some NodeNotStarted) ∨ idle w;
}.

Lemma idle_not_in_flight w d : inv p0 w → idle w → ¬ in_flight w d.
Proof.
  intros Hi [Hr _] (ph & Hph & Hu). rewrite (iv_running p0 w Hi) in Hr.
  assert (length (w_doneCh w) = 0) as Hd by lia. apply nil_length_inv in Hd.
  destruct Hu as [Hu|Hu]; [|rewrite Hd in Hu; set_solver].
  assert (unsent_count (w_gs w) = 0) as Hz by lia. unfold unsent_count in Hz.
  apply map_size_empty_inv in Hz. apply (map_filter_empty_not_lookup _ _ d ph) in Hz; [by apply Hz|done].
Qed.

(** With the loop idle, a node that did not start is behind a parked one. *)
Lemma idle_behind_parked w c :
  linv w → idle w → (∀ v, to_visit (w_pc w) v → False) → before_loop (w_pc w) = false →
  status_of (w_plan w) c = Some NodeNotStarted →
  ∃ d, tc (edge p0) d c ∧
    (status_of (w_plan w) d = Some NodeWaiting ∨ status_of (w_plan w) d = Some NodeRetrying).
Proof.
  intros Hl Hidle Hnv Hb. destruct (isCyclic_false_order p0 Hwf Hac) as (P & HP & Htopo).
  assert (NoDup P) as Hnd by (rewrite HP; apply Hwf).
  assert (∀ k c, rank P c < k → c ∈ P → status_of (w_plan w) c = Some NodeNotStarted →
    ∃ d, tc (edge p0) d c ∧
    (status_of (w_plan w) d = Some NodeWaiting ∨ status_of (w_plan w) d = Some NodeRetrying)) as Hind.
  { induction k as [|k IH]; intros v Hk Hv Hs; [lia|].
    destruct (li_reason w Hl Hb v Hs) as [Hr|[Hr|(d & Hd & Hh)]].
    - destruct Hidle as [_ Hr']. rewrite Hr' in Hr. set_solver.
    - by apply Hnv in Hr.
    - destruct Hh as [Hh|[Hh|Hh]].
      + destruct (IH d) as (e & He & Hst); [|by eapply topo_pred_in|done|].
        * pose proof (topo_rank (edge p0) P d v Hnd Htopo Hv Hd). lia.
        * exists e. split; [|done]. by eapply tc_r.
      + by apply (idle_not_in_flight w d) in Hh; [|apply Hl|].
      + exists d. split; [by constructor|done]. }
  intros Hs. apply (Hind (S (rank P c))); [lia| |done].
  rewrite HP. apply (wf_store p0 Hwf). apply (ss_dom _ _ (iv_shape p0 w (li_inv w Hl))).
  unfold status_of in Hs. destruct (GetNode (w_plan w) c); [eauto|done].
Qed.

(** Steps that keep the nodes' statuses, the goroutines and the channels. *)
Record still (w w' : World) : Prop := {
  sl_status : ∀ v, status_of (w_plan w') v = status_of (w_plan w) v;
  sl_gs : w_gs w' = w_gs w;
  sl_done : w_doneCh w' = w_doneCh w;
  sl_running : w_running w' = w_running w;
  sl_ready : w_readyCh w' = w_readyCh w;
  sl_cfg : r_cfg (w_runner w') = r_cfg (w_runner w);
}.

Lemma holds_back_still w w' d : still w w' → holds_back w d → holds_back w' d.
Proof.
  intros [Hs Hg Hd _ _ _]. unfold holds_back, in_flight. by rewrite Hs, Hg, Hd.
Qed.

Lemma idle_still w w' : still w w' → idle w' ↔ idle w.
Proof. intros [_ _ _ Hr Hy _]. unfold idle. by rewrite Hr, Hy. Qed.

Lemma linv_still w w' :
  linv w → inv p0 w' → still w w' →
  before_loop (w_pc w') = before_loop (w_pc w) →
  (∀ c, to_visit (w_pc w) c → status_of (w_plan w) c = Some NodeNotStarted →
     to_visit (w_pc w') c ∨ ∃ d, edge p0 d c ∧ holds_back w d) →
  match w_pc w' with LStates a | LDeadlock a => w_running w = 0%Z → a = true | _ => True end →
  match w_pc w' with LDeadlock _ => idle w → no_parked w | _ => True end →
  (after_loop (w_pc w') = true → after_loop (w_pc w) = true ∨
     (∀ v, status_of (w_plan w) v ≠ Some NodeNotStarted) ∨ idle w) →
  linv w'.
Proof.
  intros Hl Hi Hst Hb Htv Ha Hp Ho. pose proof Hst as [Hs Hg Hd Hr Hy Hc]. split.
  - done.
  - rewrite Hb, Hg, Hy. setoid_rewrite Hs. apply Hl.
  - unfold max_active. rewrite Hc. apply Hl.
  - rewrite Hg. setoid_rewrite Hs. apply Hl.
  - rewrite Hg. apply Hl.
  - rewrite Hb. setoid_rewrite Hs. intros Hb' c Hns.
    destruct (li_reason w Hl Hb' c Hns) as [Hr'|[Hr'|(d & Hd' & Hh)]].
    + left. by rewrite Hy.
    + right. destruct (Htv c Hr' Hns) as [?|(d & ? & ?)]; [by left|].
      right. exists d. split; [done|]. by eapply holds_back_still.
    + right; right. exists d. split; [done|]. by eapply holds_back_still.
  - by rewrite Hr.
  - unfold no_parked. destruct (w_pc w'); try done. rewrite (idle_still w) by done. setoid_rewrite Hs. done.
  - intros Haf. destruct (Ho Haf) as [Haf'|Ho']; setoid_rewrite Hs; rewrite (idle_still w) by done; [|done].
    by apply (li_over w Hl).
Qed.

(** At the deadlock test: with nothing running and nothing ready the plan is
    finished. *)
Lemma idle_finished w a :
  linv w → w_pc w = LDeadlock a → idle w → CheckFinished (w_plan w) = true.
Proof.
  intros Hl Hpc Hidle. destruct (CheckFinished (w_plan w)) eqn:Hf; [done|]. exfalso.
  pose proof (li_parked w Hl) as Hp. rewrite Hpc in Hp. specialize (Hp Hidle).
  apply CheckFinished_false in Hf as (v & s & _ & Hs & Hin). rewrite !elem_of_cons, elem_of_nil in Hin.
  destruct Hin as [->|[->|[->|[]]]].
  - destruct (li_running w Hl v Hs) as (ph & Hph & Hr).
    apply (idle_not_in_flight w v (li_inv w Hl) Hidle). exists ph. split; [done|]. left. by apply runnable_unsent.
  - by destruct (Hp v).
  - destruct (idle_behind_parked w v) as (d & _ & Hd); try done; try (by rewrite Hpc).
    destruct (Hp d). naive_solver.
Qed.

(** ** Segments of goroutines *)
Lemma linv_segment w id ph n a r' n' ph' :
  let w' := {| w with
    w_runner := r'; w_plan := update_node id (λ _, n') (w_plan w); w_gs := <[id := ph']> (w_gs w);
    w_doneCh := if is_defer ph then w_doneCh w ++ [id] else w_doneCh w |} in
  linv w → inv p0 w' → valid_act a → (∀ e, a ≠ APanic e) → isCanceled (w_runner w) = false →
  w_gs w !! id = Some ph → GetNode (w_plan w) id = Some n →
  node_segment (w_progress w) (p_startedAt (w_plan w)) (w_runner w) n ph a = Some (r', n', ph') →
  linv w'.
Proof.
  intros w' Hl Hi' Hv Hnp Hcan Hid Hn Hseg.
  pose proof (node_segment_facts _ _ _ _ _ _ _ _ _ Hseg) as (_ & Hcfg & _ & Hmv & Hns). unfold phase_moves in Hmv.
  pose proof (iv_gs p0 w (li_inv w Hl) id ph Hid) as [_ Hnot].
  assert (status_of (w_plan w) id = Some (Node_Status n)) as Hst by (unfold status_of; by rewrite Hn).
  destruct (segment_running _ _ _ _ _ _ _ _ _ Hseg Hv Hnp Hcan) as (Hpan & Hrun & Hsame).
  { by eapply (li_panic w Hl). }
  { intros Hs. rewrite Hs in Hst. destruct (li_running w Hl id Hst) as (ph1 & ? & ?). congruence. }
  assert (∀ v, status_of (w_plan w') v = if decide (id = v) then Some (Node_Status n') else status_of (w_plan w) v) as Hs'.
  { intros v. unfold status_of. simpl. rewrite GetNode_update. case_decide; [|done]. subst v. by rewrite Hn. }
  assert (∀ d, in_flight w d → in_flight w' d) as Hfl.
  { intros d (pd & Hpd & Hu). unfold in_flight. simpl. rewrite lookup_insert. case_decide.
    - subst d. assert (pd = ph) as -> by congruence. exists ph'. split; [done|]. rewrite Hmv.
      destruct (is_defer ph) eqn:Hdf; [right; set_solver|].
      destruct Hu as [->|Hu]; [by left|by right].
    - exists pd. split; [done|]. destruct Hu; [by left|right]. destruct (is_defer ph); set_solver. }
  assert (∀ d, holds_back w d → holds_back w' d) as Hhb.
  { intros d Hh. unfold holds_back. rewrite Hs'. destruct (decide (id = d)) as [<-|Hne].
    - destruct (unsent ph) eqn:Hu; [right; left; apply Hfl; exists ph; by auto|].
      rewrite (Hsame eq_refl), <-Hst. destruct Hh as [?|[?|?]]; [by left|right; left; by apply Hfl|by right; right].
    - destruct Hh as [?|[?|?]]; [by left|right; left; by apply Hfl|by right; right]. }
  assert (∀ v, status_of (w_plan w') v = Some NodeNotStarted → status_of (w_plan w) v = Some NodeNotStarted) as Hnsb.
  { intros v. rewrite Hs'. case_decide; [|done]. subst v. intros [= Hx]. exfalso.
    apply Hns in Hx; [done|done|]. congruence. }
  assert (idle w' → idle w ∧ ∀ v, status_of (w_plan w') v = status_of (w_plan w) v) as Hidle.
  { intros Hid'. assert (idle w) as Hidw by done. split; [done|]. intros v. rewrite Hs'. case_decide; [|done]. subst v.
    destruct (unsent ph) eqn:Hu; [|by rewrite Hsame].
    exfalso. apply (idle_not_in_flight w id (li_inv w Hl) Hidw). exists ph. by auto. }
  split; try done.
  - intros Hb. destruct (li_fresh w Hl Hb) as (_ & Hg & _). rewrite Hg in Hid. by rewrite lookup_empty in Hid.
  - unfold max_active. simpl. rewrite Hcfg. apply Hl.
  - intros v. rewrite Hs'. simpl. rewrite lookup_insert. case_decide; [|apply Hl].
    intros [= Hx]. exists ph'. by auto.
  - intros v pv. simpl. rewrite lookup_insert. case_decide; [by intros [= <-]|apply Hl].
  - intros Hb c Hc. apply Hnsb in Hc. destruct (li_reason w Hl Hb c Hc) as [?|[?|(d & ? & ?)]]; [by left|by right; left|].
    right; right. exists d. by auto.
  - apply Hl.
  - pose proof (li_parked w Hl) as Hp. simpl. destruct (w_pc w) eqn:Epc; try done.
    intros Hx. destruct (Hidle Hx) as [Hidw Heq]. specialize (Hp Hidw). intros v. rewrite Heq. apply Hp.
  - simpl. intros Haf. destruct (li_over w Hl Haf) as [Hno|?]; [left|by right].
    intros v Hx. by apply Hnsb, Hno in Hx.
Qed.

(** ** The event loop *)
Lemma linv_start w id rest :
  linv w → inv p0 (start_node id {| w with w_readyCh := rest |}) →
  w_pc w = LSelect true → w_readyCh w = id :: rest →
  linv (start_node id {| w with w_readyCh := rest |}).
Proof.
  intros Hl Hi' Hpc Hr. pose proof (li_reason w Hl) as Hre. rewrite Hpc in Hre. specialize (Hre eq_refl).
  assert (status_of (w_plan w) id ≠ Some NodeNotStarted →
    inv p0 (set_pc LCheck {| w with w_readyCh := rest |}) → linv (set_pc LCheck {| w with w_readyCh := rest |})) as Hskip.
  { intros Hns Hi. split; try done; try apply Hl. simpl. intros _ c Hc.
    destruct (Hre c Hc) as [Hin|[Hin|(d & Hd & Hh)]]; [|by rewrite Hpc in Hin|].
    - left. rewrite Hr in Hin. apply elem_of_cons in Hin as [->|]; done.
    - right; right. exists d. by split. }
  revert Hi'. unfold start_node, status_of in *. simpl.
  destruct (GetNode (w_plan w) id) as [n|] eqn:Hn; [|by apply Hskip].
  case_bool_decide as Hs; [apply Hskip; simpl; congruence|]. clear Hskip. intros Hi'.
  destruct (decide (Node_Status n = NodeNotStarted)) as [Hs'|]; [|done]. clear Hs.
  assert (w_gs w !! id = None) as Hnone.
  { destruct (w_gs w !! id) as [ph|] eqn:E; [|done]. destruct (iv_gs p0 w (li_inv w Hl) id ph E) as [_ Hx].
    unfold status_of in Hx. rewrite Hn in Hx. simpl in Hx. congruence. }
  split; try done; simpl.
  - apply Hl.
  - intros v. unfold status_of. rewrite GetNode_update, lookup_insert. case_decide; [by eauto|]. apply (li_running w Hl v).
  - intros v pv. rewrite lookup_insert. case_decide; [by intros [= <-]|apply Hl].
  - intros _ c. unfold status_of. simpl. rewrite GetNode_update. case_decide as Hcid; [by subst c; rewrite Hn|]. intros Hc.
    destruct (Hre c Hc) as [Hin|[Hin|(d & Hd & Hh)]]; [|by rewrite Hpc in Hin|].
    + left. rewrite Hr in Hin. simpl. by apply elem_of_cons in Hin as [->|].
    + right; right. exists d. split; [done|]. unfold holds_back, in_flight, status_of. simpl.
      rewrite GetNode_update, lookup_insert. case_decide as Hdid.
      * right; left. exists GPrepare. split; [done|by left].
      * exact Hh.
Qed.

Lemma linv_recv w id rest a :
  let w' := {| w with w_doneCh := rest; w_running := (w_running w - 1)%Z;
                      w_pc := LProc (Dependents (w_plan w) id) [] |} in
  linv w → inv p0 w' → w_pc w = LSelect a → w_doneCh w = id :: rest → linv w'.
Proof.
  intros w' Hl Hi' Hpc Hd. pose proof (li_reason w Hl) as Hre. rewrite Hpc in Hre. specialize (Hre eq_refl).
  split; try done; simpl; try apply Hl.
  intros _ c Hc. destruct (Hre c Hc) as [Hin|[Hin|(d & Hed & Hh)]]; [by left|by rewrite Hpc in Hin|].
  right. destruct (decide (d = id)) as [->|Hne].
  - left. simpl. left. rewrite (same_shape_Dependents p0) by apply (li_inv w Hl). by apply edge_dependents.
  - right. exists d. split; [done|]. destruct Hh as [?|[(ph & Hph & Hu)|?]]; [by left| |by right; right].
    right; left. exists ph. split; [done|]. destruct Hu as [?|Hu]; [by left|right]. rewrite Hd in Hu. set_solver.
Qed.

(** The scan of a fresh plan finds its roots and changes nothing. *)
Lemma scan_fresh p : (∀ v, v ∈ p_nodes p0 → status_of p v = Some NodeNotStarted) → same_shape p0 p →
  ∀ ids ready p' ready', (∀ v, v ∈ ids → v ∈ p_nodes p0) →
  scan ids p ready = (p', ready') →
  p' = p ∧ (∀ v, v ∈ ready → v ∈ ready') ∧ (∀ v, v ∈ ids → Dependencies p0 v = [] → v ∈ ready').
Proof.
  intros Hfresh Hsh. induction ids as [|id ids IH]; intros ready p' ready' Hids; simpl.
  { intros [= <- <-]. split_and!; [done|done|set_solver]. }
  pose proof (Hfresh id (Hids id ltac:(by left))) as Hst. unfold status_of in Hst.
  destruct (GetNode p id) as [n|]; [|done]. rewrite bool_decide_true by naive_solver.
  unfold isReady. rewrite (same_shape_Dependencies p0) by done.
  destruct (Dependencies p0 id) as [|d deps] eqn:Hdep; simpl.
  - intros Hsc. apply IH in Hsc as (-> & Hr & Hi); [|intros v Hv; apply Hids; by right].
    split_and!; [done|set_solver|]. intros v [->|Hv]%elem_of_cons Hd; [apply Hr; set_solver|by apply Hi].
  - assert (d ∈ p_nodes p0) as Hd.
    { apply (wf_edge_in p0 Hwf d id). unfold edge. rewrite Hdep. by left. }
    specialize (Hfresh d Hd). unfold status_of in Hfresh. destruct (GetNode p d) as [m|]; [|done].
    injection Hfresh as ->. intros Hsc. apply IH in Hsc as (-> & Hr & Hi); [|intros v Hv; apply Hids; by right].
    split_and!; [done|done|]. intros v [->|Hv]%elem_of_cons Hd'; [congruence|by apply Hi].
Qed.

Lemma linv_scan w p ready :
  let w' := set_pc LCheck {| w with w_plan := p; w_readyCh := ready |} in
  linv w → inv p0 w' → w_pc w = LScan → scan (p_nodes (w_plan w)) (w_plan w) [] = (p, ready) → linv w'.
Proof.
  intros w' Hl Hi' Hpc Hs. pose proof (iv_shape p0 w (li_inv w Hl)) as Hsh.
  destruct (li_fresh w Hl) as (Hfresh & Hg & _); [by rewrite Hpc|].
  apply (scan_fresh (w_plan w) Hfresh Hsh) in Hs as (-> & _ & Hroots);
    [|intros v; by rewrite (ss_nodes _ _ Hsh)].
  split; try done; simpl; try apply Hl. intros _ c Hc.
  destruct (Dependencies p0 c) as [|d deps] eqn:Hdep.
  - left. simpl. apply Hroots; [|done]. rewrite (ss_nodes _ _ Hsh). apply (wf_store p0 Hwf), (ss_dom _ _ Hsh).
    unfold status_of in Hc. destruct (GetNode (w_plan w) c); [eauto|done].
  - right; right. exists d. assert (edge p0 d c) as Hed by (unfold edge; rewrite Hdep; by left).
    split; [done|]. left. apply Hfresh. by apply (wf_edge_in p0 Hwf d c).
Qed.

Lemma cached_still w p pc : plan_cached None (w_plan w) p → still w (set_pc pc {| w with w_plan := p |}).
Proof. intros Hc. split; try done. intros v. by apply (plan_cached_status None). Qed.

(** A dependency whose status leaves the node waiting holds it back. *)
Lemma unfinished_holds_back w d s :
  linv w → status_of (w_plan w) d = Some s →
  s ∈ [NodeNotStarted; NodeRunning; NodeRetrying; NodeWaiting] → holds_back w d.
Proof.
  intros Hl Hs. rewrite !elem_of_cons, elem_of_nil. intros [->|[->|[->|[->|[]]]]]; unfold holds_back; auto.
  destruct (li_running w Hl d Hs) as (ph & Hph & Hr). right; left. exists ph. split; [done|].
  left. by apply runnable_unsent.
Qed.

Lemma linv_stopped w c children queue q s e :
  let w' := set_pc (LProc children (queue ++ [c])) {| w with w_plan := update_node c (stop_node s e) q |} in
  linv w → inv p0 w' → w_pc w = LProc (c :: children) queue →
  status_of (w_plan w) c = Some NodeNotStarted → plan_cached None (w_plan w) q →
  s ∈ [NodeAborted; NodeSkipped] → linv w'.
Proof.
  intros w' Hl Hi' Hpc Hc Hq Hs. pose proof (li_reason w Hl) as Hre. rewrite Hpc in Hre. specialize (Hre eq_refl).
  assert (∀ v, v ≠ c → status_of (w_plan w') v = status_of (w_plan w) v) as Hne.
  { intros v Hv. unfold status_of at 1. simpl. rewrite GetNode_update, decide_False by congruence.
    change (status_of q v = status_of (w_plan w) v). by apply (plan_cached_status None). }
  assert (∀ t, status_of (w_plan w') c = Some t → t ∈ [NodeAborted; NodeSkipped]) as Hcs.
  { intros t. unfold status_of. simpl. rewrite GetNode_update, decide_True by done.
    destruct (GetNode q c) as [m|]; [|done]. simpl. intros [= <-]. by destruct e. }
  assert (∀ v t, t ∉ [NodeAborted; NodeSkipped] → status_of (w_plan w') v = Some t → v ≠ c) as Hvc.
  { intros v t Ht Hv ->. by apply Hcs in Hv. }
  assert (∀ ph, w_gs w !! c ≠ Some ph) as Hnog.
  { intros ph Hph. by destruct (iv_gs p0 w (li_inv w Hl) c ph Hph). }
  split; try done; simpl; try apply Hl.
  - intros v Hv. rewrite Hne in Hv by (eapply Hvc; [|exact Hv]; set_solver). by apply (li_running w Hl).
  - intros _ v Hv. assert (v ≠ c) as Hvc' by (eapply Hvc; [|exact Hv]; set_solver). rewrite Hne in Hv by done.
    destruct (Hre v Hv) as [Hin|[Hin|(d & Hed & Hh)]]; [by left| |].
    + right; left. rewrite Hpc in Hin. simpl in *. destruct Hin as [Hin|(d & ? & ?)]; [left; set_solver|right; set_solver].
    + destruct (decide (d = c)) as [->|Hdc]; [right; left; right; set_solver|].
      right; right. exists d. split; [done|]. unfold holds_back. rewrite Hne by done. exact Hh.
Qed.

Lemma linv_child w c children queue :
  linv w → inv p0 (step_child c children queue w) → w_pc w = LProc (c :: children) queue →
  linv (step_child c children queue w).
Proof.
  intros Hl Hi' Hpc.
  assert (status_of (w_plan w) c ≠ Some NodeNotStarted →
    inv p0 (set_pc (LProc children queue) w) → linv (set_pc (LProc children queue) w)) as Hskip.
  { intros Hns Hi. apply (linv_still w); try done; [by rewrite Hpc|].
    rewrite Hpc. simpl. intros v [[->|?]%elem_of_cons|?] Hv; [done|by left; left|by left; right]. }
  revert Hi'. unfold step_child, status_of in *.
  destruct (GetNode (w_plan w) c) as [n|] eqn:Hn; [|by apply Hskip].
  case_bool_decide as Hs; [|apply Hskip; simpl; congruence]. clear Hskip.
  assert (status_of (w_plan w) c = Some NodeNotStarted) as Hst by (unfold status_of; by rewrite Hn, <-Hs).
  destruct (isReady c (w_plan w)) as [b p'] eqn:Hr.
  destruct (isReady_deps_inv c _ _ b p' (λ d, inv_dep p0 Hwf w c d (li_inv w Hl)) Hr) as (_ & Ht & Hf).
  destruct b.
  - intros Hi'. destruct (Ht eq_refl) as [Hc _].
    apply (linv_still w); try done; [by apply cached_still|by rewrite Hpc|].
    rewrite Hpc. simpl. intros v [[->|?]%elem_of_cons|?] Hv; left; [by left|by right; left|by right; right].
  - destruct (Hf eq_refl) as [(d & s & Hd & Hc & Hds & Hin)|(q & s & e & Hc & -> & Hin)].
    + assert (status_of p' c = Some NodeNotStarted) as Hst' by (by rewrite (plan_cached_status None (w_plan w))).
      unfold status_of in Hst'. destruct (GetNode p' c) as [n'|] eqn:Hn'; [|done].
      rewrite bool_decide_false by naive_solver. intros Hi'.
      apply (linv_still w); try done; [by apply cached_still|by rewrite Hpc|].
      rewrite Hpc. simpl. intros v [[->|?]%elem_of_cons|?] Hv; [|by left; left|by left; right].
      right. exists d. rewrite (same_shape_Dependencies p0) in Hd by apply (li_inv w Hl).
      split; [done|]. by eapply unfinished_holds_back.
    + assert (is_Some (GetNode q c)) as [m Hm] by (apply (ss_dom _ _ (pca_shape _ _ _ Hc)); eauto).
      rewrite GetNode_update, decide_True, Hm by done. simpl.
      rewrite bool_decide_true; [intros Hi'; by eapply linv_stopped|].
      destruct e; simpl; intros Hx; unfold Node_Status in Hx; simpl in Hx; subst s; set_solver.
Qed.

Lemma linv_send w c children queue :
  let w' := set_pc (LProc children queue) {| w with w_readyCh := w_readyCh w ++ [c] |} in
  linv w → inv p0 w' → w_pc w = LSend c children queue → linv w'.
Proof.
  intros w' Hl Hi' Hpc. split; try done; simpl; try apply Hl.
  intros _ v Hv. destruct (li_reason w Hl) with v as [Hin|[Hin|(d & ? & ?)]]; [by rewrite Hpc|done|..].
  - left. simpl. set_solver.
  - rewrite Hpc in Hin. destruct Hin as [->|[?|?]]; [left; simpl; set_solver|right; left; by left|right; left; by right].
  - right; right. exists d. by split.
Qed.

Lemma flags_no_parked w : inv p0 w →
  HasWaiting (NodeStates (w_plan w)) = false → HasRetrying (NodeStates (w_plan w)) = false → no_parked w.
Proof.
  intros Hi H1 H2 v.
  pose proof (NodeStates_flag (w_plan w) NodeWaiting eq_refl) as F1. simpl in F1. rewrite H1 in F1.
  pose proof (NodeStates_flag (w_plan w) NodeRetrying eq_refl) as F2. simpl in F2. rewrite H2 in F2.
  symmetry in F1, F2. apply bool_decide_eq_false in F1, F2. rewrite statuses_elem in F1, F2.
  assert (∀ s, status_of (w_plan w) v = Some s → v ∈ p_nodes (w_plan w)) as Hv.
  { intros s Hs. rewrite (ss_nodes _ _ (iv_shape p0 w Hi)). apply (wf_store p0 Hwf), (ss_dom _ _ (iv_shape p0 w Hi)).
    unfold status_of in Hs. destruct (GetNode (w_plan w) v); [eauto|done]. }
  split; intros Hs; [apply F1|apply F2]; exists v; split; eauto.
Qed.

Lemma linv_loop w w' :
  linv w → inv p0 w' → isCanceled (w_runner w) = false → step_loop w = Some w' → linv w'.
Proof.
  intros Hl Hi' Hcan Hstep. revert Hi'.
  assert (∀ pc, still w (set_pc pc w)) as Hsl by by split.
  pose proof (li_active w Hl) as Hact. pose proof (li_max w Hl) as Hmax.
  unfold step_loop in Hstep. rewrite Hcan in Hstep.
  destruct (w_pc w) as [ | | | | | |a|a|a|children queue|c children queue| |hs| |] eqn:Epc; try done.
  - destruct (scan _ _ _) as [p ready] eqn:Hs. simplify_eq. intros Hi'. by apply linv_scan.
  - simplify_eq. intros Hi'. destruct (CheckFinished (w_plan w)) eqn:Hf;
      (apply (linv_still w); try done; rewrite ?Epc; try done).
    intros _. right; left. intros v Hv. pose proof (proj1 (CheckFinished_spec _) Hf NodeNotStarted) as Hx.
    apply Hx; [|set_solver]. apply statuses_elem. exists v. split; [|done].
    rewrite (ss_nodes _ _ (iv_shape p0 w (li_inv w Hl))).
    apply (wf_store p0 Hwf), (ss_dom _ _ (iv_shape p0 w (li_inv w Hl))).
    unfold status_of in Hv. destruct (GetNode (w_plan w) v); [eauto|done].
  - simplify_eq. intros Hi'. apply (linv_still w); try done; by rewrite Epc.
  - simplify_eq. intros Hi'. apply (linv_still w); try done; rewrite ?Epc; try done.
    simpl. intros Hz. unfold max_active in Hmax. rewrite Hz.
    destruct (cfg_MaxActiveSteps (r_cfg (w_runner w)) =? 0)%Z eqn:E; [done|]. breflect. simpl. apply Z.ltb_lt. lia.
  - assert (∀ b, ((w_running w =? 0)%Z && bool_decide (w_readyCh w = []) && b = true) → idle w ∧ b = true) as Hidle.
    { intros b [[Hz%Z.eqb_eq Hr%bool_decide_eq_true]%andb_true_iff Hb]%andb_true_iff. done. }
    assert (idle w → (w_running w =? 0)%Z && bool_decide (w_readyCh w = []) = true) as Hidle'.
    { intros [Hz Hr]. rewrite Hz, Hr. done. }
    destruct (_ && HasWaiting _) eqn:E1; [|destruct (_ && HasRetrying _) eqn:E2].
    + simplify_eq. apply Hidle in E1 as [E1 _]. intros Hi'. apply (linv_still w); try done; rewrite ?Epc; try done. by right; right.
    + simplify_eq. apply Hidle in E2 as [E2 _]. intros Hi'. apply (linv_still w); try done; rewrite ?Epc; try done. by right; right.
    + simplify_eq. intros Hi'. apply (linv_still w); try done; rewrite ?Epc; try done.
      simpl. intros Hid. rewrite (Hidle' Hid) in E1, E2. apply flags_no_parked; [apply Hl|done..].
  - destruct (_ && negb (CheckFinished (w_plan w))) eqn:E.
    + exfalso. apply andb_true_iff in E as [[Hz%Z.eqb_eq Ha]%andb_true_iff Hf%negb_true_iff].
      rewrite (Hact Hz) in Ha. simpl in Ha. apply bool_decide_eq_true in Ha.
      rewrite (idle_finished w a) in Hf; [done..|by split].
    + simplify_eq. intros Hi'. apply (linv_still w); try done; by rewrite Epc.
  - destruct children as [|c children]; [destruct queue as [|curr queue]|]; simplify_eq; intros Hi'.
    + apply (linv_still w); try done; rewrite Epc; try done. simpl. intros c [?|(d & ? & _)]; set_solver.
    + apply (linv_still w); try done; rewrite Epc; try done. simpl.
      intros c [?|(d & [->|Hd]%elem_of_cons & Hed)] _; [set_solver|left; left|left; right; eauto].
      rewrite (same_shape_Dependents p0) by apply (li_inv w Hl). by apply edge_dependents.
    + by apply linv_child.
  - case_bool_decide; [|done]. simplify_eq. intros Hi'. by apply linv_send.
  - destruct (all_exited w); [|done].
    pose proof (Runner_Status_cached (w_runner w) (w_plan w)) as Hc.
    destruct (Runner_Status (w_runner w) (w_plan w)) as [s p]. simpl in Hc.
    intros Hi'. destruct (eventHandlers s); [|destruct (bool_decide (s = Waiting))]; simplify_eq;
      (apply (linv_still w); try done; [by apply cached_still|rewrite Epc; try done..]; by left).
  - destruct hs; [|done]. simplify_eq. intros Hi'. apply (linv_still w); try done; rewrite Epc; try done. by left.
Qed.

Lemma handler_still h o k w pc :
  still w (set_pc pc (run_handler h o k w).2) ∧
  isCanceled (w_runner (set_pc pc (run_handler h o k w).2)) = isCanceled (w_runner w).
Proof.
  destruct (run_handler_cached h o k w) as (Hc & Heq & Hcfg & Hcan).
  split; [|done]. rewrite Heq. split; try done. intros v. by apply (plan_cached_status None).
Qed.

(** Cancellation is final. *)
Lemma step_canceled w e w' :
  step w e = Some w' → isCanceled (w_runner w) = true → isCanceled (w_runner w') = true.
Proof.
  unfold step. intros Hs Hc. destruct e as [evalErr|o| | | |dl|id a|sig ovr|i].
  - destruct (w_pc w); try done. destruct evalErr; simpl in Hs; by simplify_eq.
  - destruct (w_pc w) as [ | | | | | | | | | | | | hs | |]; try done.
    + rewrite Hc in Hs. by simplify_eq.
    + destruct hs as [|h hs]; [done|]. simplify_eq. by rewrite (proj2 (handler_still h o true w (LHandlers hs))).
    + simplify_eq. by rewrite (proj2 (handler_still HandlerOnWait o false w LReturned)).
  - unfold step_loop, step_child in Hs. rewrite Hc in Hs.
    repeat (case_match; simplify_eq/=; try done).
  - destruct (w_pc w) as [ | | | | | | | |[] | | | | | |]; try done.
    destruct (w_readyCh w); [done|]. simplify_eq. unfold start_node. by repeat case_match.
  - destruct (w_pc w); try done. destruct (w_doneCh w); [done|]. by simplify_eq.
  - destruct (w_pc w); try done. destruct (w_ctxDone w); [|done]. simplify_eq. simpl. by case_match.
  - destruct (w_gs w !! id) as [ph|]; [|done]. destruct (GetNode (w_plan w) id) as [n|]; [|done].
    unfold step_node in Hs. destruct (is_defer ph && _); [done|].
    apply bind_Some in Hs as ([[r' n'] ph'] & Hseg & [= <-]).
    apply node_segment_facts in Hseg as (_ & _ & Hcan & _). unfold isCanceled in *. simpl. congruence.
  - simplify_eq. simpl. unfold Signal_flag. by rewrite Hc.
  - destruct (w_signals w !! i) as [[sig ovr [|id rest]]|]; try done. by simplify_eq.
Qed.

Lemma linv_step w e w' :
  linv w → live_event e → step w e = Some w' → isCanceled (w_runner w') = false → linv w'.
Proof.
  intros Hl [Hv Hlive] Hs Hcan'.
  assert (isCanceled (w_runner w) = false) as Hcan.
  { destruct (isCanceled (w_runner w)) eqn:E; [|done]. apply (step_canceled w e w') in E; [|done]. congruence. }
  assert (inv p0 w') as Hi' by (eapply inv_step; [done|apply Hl|done|done]).
  revert Hs Hi' Hcan'. unfold step. destruct e as [evalErr|o| | | |dl|id a|sig ovr|i]; try done.
  - destruct (w_pc w) eqn:Epc; try done. destruct evalErr; [done|]. intros [= <-] Hi' _.
    apply (linv_still w); try done; by rewrite Epc.
  - destruct (w_pc w) as [ | | | | | | | | | | | | hs | |] eqn:Epc; try done.
    + rewrite Hcan. pose proof (handler_still HandlerOnInit o true w LScan) as [Hst _].
      destruct (run_handler HandlerOnInit o true w) as [[err|] w1]; intros [= <-] Hi' Hcan'; [done|].
      apply (linv_still w); try done; by rewrite Epc.
    + destruct hs as [|h hs]; [done|]. intros [= <-] Hi' _.
      apply (linv_still w); try done; [apply handler_still|rewrite Epc; done..|]. rewrite Epc. by left.
    + intros [= <-] Hi' _.
      apply (linv_still w); try done; [apply handler_still|rewrite Epc; done..|]. rewrite Epc. by left.
  - intros Hs Hi' _. by eapply linv_loop.
  - destruct (w_pc w) as [ | | | | | | | |[] | | | | | |] eqn:Epc; try done.
    destruct (w_readyCh w) as [|id rest] eqn:Hr; [done|]. intros [= <-] Hi' _. by apply linv_start.
  - destruct (w_pc w) as [ | | | | | | | |a | | | | | |] eqn:Epc; try done.
    destruct (w_doneCh w) as [|id rest] eqn:Hr; [done|]. simpl. rewrite Hcan. intros [= <-] Hi' _.
    by apply (linv_recv w id rest a).
  - destruct (w_pc w) as [ | | | | | | | |a | | | | | |] eqn:Epc; try done.
    destruct (w_ctxDone w); [|done]. intros [= <-] Hi' _.
    apply (linv_still w); try done; [|by rewrite Epc..]. split; try done. simpl. by case_match.
  - destruct (w_gs w !! id) as [ph|] eqn:Hid; [|done].
    destruct (GetNode (w_plan w) id) as [n|] eqn:Hn; [|done].
    unfold step_node. destruct (is_defer ph && _); [done|].
    intros ([[r' n'] ph'] & Hseg & [= <-])%bind_Some Hi' _. eapply linv_segment; try done.
    intros e ->. done.
Qed.

Lemma linv_init r pg :
  (∀ v, v ∈ p_nodes p0 → status_of p0 v = Some NodeNotStarted) →
  (0 <= cfg_MaxActiveSteps (r_cfg r))%Z → linv (init_world r p0 pg).
Proof.
  intros Hfresh Hm. split; simpl; try done.
  - by apply inv_init.
  - intros v Hv. rewrite Hfresh in Hv; [done|]. apply (wf_store p0 Hwf).
    unfold status_of in Hv. destruct (GetNode p0 v); [eauto|done].
Qed.

Lemma reachable_linv r pg w :
  (∀ v, v ∈ p_nodes p0 → status_of p0 v = Some NodeNotStarted) →
  (0 <= cfg_MaxActiveSteps (r_cfg r))%Z →
  reachable live_event (init_world r p0 pg) w → isCanceled (w_runner w) = false → linv w.
Proof.
  intros Hfresh Hm. induction 1 as [|w e w' Hr IH He Hs]; intros Hcan; [by apply linv_init|].
  eapply linv_step; [|done..]. apply IH.
  destruct (isCanceled (w_runner w)) eqn:E; [|done]. apply (step_canceled w e w') in E; [|done]. congruence.
Qed.
End Invariant.

Section Claims.
Context (p0 : Plan) (r : Runner) (progress : bool) (w : World).
Context (Hwf : plan_wf p0) (Hac : isCyclic p0 = false).
Context (Hfresh : ∀ v, v ∈ p_nodes p0 → status_of p0 v = Some NodeNotStarted).
Context (Hmax : (0 <= cfg_MaxActiveSteps (r_cfg r))%Z).
Context (Hr : reachable live_event (init_world r p0 progress) w).
Context (Hcan : isCanceled (w_runner w) = false).

(** C2. The deadlock test of the event loop never fires, in every interleaving of a run of
    a well-formed acyclic plan with nodes that were not started, when the limit of active
    steps is not negative, the preconditions of the DAG hold, executors report a status
    of their documented ones, and there are no panics, signals or cancellation: the loop
    goes on to its [select].  With a negative limit the test fires at once. *)
Theorem no_false_deadlock (a : bool) (Hpc : w_pc w = LDeadlock a) :
  step_loop w = Some (set_pc (LSelect a) w).
Proof.
  pose proof (reachable_linv p0 Hwf Hac r progress w Hfresh Hmax Hr Hcan) as Hl.
  pose proof (li_active p0 w Hl) as Ha. unfold step_loop. rewrite Hpc in *.
  destruct (w_running w =? 0)%Z eqn:Hz; [|done]. breflect. rewrite (Ha Hz). simpl.
  destruct (bool_decide (w_readyCh w = [])) eqn:Hy; [|done]. apply bool_decide_eq_true in Hy.
  by rewrite (idle_finished p0 Hwf Hac w a Hl Hpc).
Qed.

(** C34. When the event loop of such a run has ended (a fresh acyclic plan, a limit of
    active steps that is not negative, preconditions that hold, documented executor
    statuses, no panics, signals or cancellation), every node that was not started lies
    downstream of a node that waits for approval or for a retry by the parent
    scheduler. *)
Theorem loop_completes (c : Z) (Hover : after_loop (w_pc w) = true)
    (Hc : status_of (w_plan w) c = Some NodeNotStarted) :
  ∃ d, tc (edge p0) d c ∧
    (status_of (w_plan w) d = Some NodeWaiting ∨ status_of (w_plan w) d = Some NodeRetrying).
Proof.
  pose proof (reachable_linv p0 Hwf Hac r progress w Hfresh Hmax Hr Hcan) as Hl.
  destruct (li_over p0 w Hl Hover) as [Hno|Hidle]; [by destruct (Hno c)|].
  apply (idle_behind_parked p0 Hwf Hac w c Hl Hidle); [|by destruct (w_pc w)|done].
  intros v. by destruct (w_pc w).
Qed.
End Claims.
End Live.
