(* ===== verification/RunnerBounds.v ===== *)
(** * Bounds on executions

    A node is retried at most as often as its retry policy allows, and
    repeated at most as often as its repeat policy allows. *)

From stdpp Require Import gmap strings list relations.
From Stdlib Require Import ZArith Lia.
From S2P Require Import Prelude Status Step Exec Node Graph Plan PlanWf PlanBuild.
From S2P Require Import Runner RunnerLoop RunnerReady RunnerInv RunnerSteps RunnerOrder.

Definition done_count (n : Node) : Z := ns_DoneCount (n_State n).
Definition repeat_limit (n : Node) : Z := rep_Limit (st_RepeatPolicy (n_Step n)).

(** Below the repeat limit, if there is one. *)
Definition may_execute (n : Node) : Prop := (0 < repeat_limit n)%Z → (done_count n < repeat_limit n)%Z.
Definition within_repeats (n : Node) : Prop := (0 < repeat_limit n)%Z → (done_count n <= repeat_limit n)%Z.

(** The counters of a node at a program point of its goroutine. *)
Definition bounds_at (ph : GPhase) (n : Node) : Prop :=
  match ph with
  | GPrepare => GetRetryCount n = 0%Z ∧ done_count n = 0%Z
  | GPrecond | GLoop | GExec | GRun | GHandle _ | GSleep =>
      (GetRetryCount n <= Z.max 0 (nrp_Limit (n_retryPolicy n)))%Z ∧ may_execute n
  | _ => (GetRetryCount n <= Z.max 0 (nrp_Limit (n_retryPolicy n)))%Z ∧ within_repeats n
  end.

Section Bounds.
Context `{LogFiles} `{SignalTable}.

Lemma bounds_quiet ph n m : quiet_change n m → bounds_at ph n → bounds_at ph m.
Proof.
  intros [Hs Hp Hr Hd _ _]. unfold bounds_at, may_execute, within_repeats, repeat_limit, done_count.
  by rewrite Hs, Hp, Hr, Hd.
Qed.

(** Nodes with the same step, policy and counters. *)
Lemma bounds_same ph n m :
  n_Step m = n_Step n → n_retryPolicy m = n_retryPolicy n → GetRetryCount m = GetRetryCount n →
  done_count m = done_count n → bounds_at ph n → bounds_at ph m.
Proof. intros Hs Hp Hr Hd. unfold bounds_at, may_execute, within_repeats, repeat_limit. by rewrite Hs, Hp, Hr, Hd. Qed.

Definition bounded (n : Node) : Prop :=
  (GetRetryCount n <= Z.max 0 (nrp_Limit (n_retryPolicy n)))%Z ∧ within_repeats n.

(** At every program point the counters are within their bounds. *)
Lemma bounds_bounded ph n : bounds_at ph n → bounded n.
Proof.
  unfold bounded, within_repeats. destruct ph; simpl; try done; unfold may_execute; intros [? Hm];
    split; try done; try lia; intros Hl; try specialize (Hm Hl); lia.
Qed.

Lemma bounded_after ph n :
  bounded n → (match ph with GRepeat _ | GFinal | GTeardown | GDefer _ | GRecover _ | GFinish | GExited => True | _ => False end) →
  bounds_at ph n.
Proof. intros Hb. by destruct ph. Qed.

Lemma segment_bounds pr t r n ph a r' n' ph' :
  node_segment pr t r n ph a = Some (r', n', ph') → bounds_at ph n → bounds_at ph' n'.
Proof.
  intros Hseg Hb. pose proof (bounds_bounded ph n Hb) as Hbd.
  destruct ph; destruct a; simpl in Hseg; try done; simplify_eq; try (by apply bounded_after).
  - unfold prepareNode in Hseg. simpl in Hb. destruct Hb as [Hr0 Hd0].
    assert (∀ m ph, GetRetryCount m = 0%Z → done_count m = 0%Z → ph ≠ GPrepare → bounds_at ph m) as Hz.
    { intros m ph Hr Hd Hp. destruct ph; try done; (split; [lia|]); intros Hl; lia. }
    destruct (cfg_Dry (r_cfg r)); [simplify_eq; by apply Hz|].
    destruct (Prepare_config o n) as (_ & _ & Hr & Hd).
    destruct (Prepare o n) as [[e|] m]; simpl in *; simplify_eq; apply Hz; try done; unfold done_count, GetRetryCount in *; simpl; congruence.
  - destruct (meetsPreconditions evalErr n) as [ok m] eqn:Hm.
    apply meetsPreconditions_facts in Hm as (Hs & _ & Hp & Hr & Hd & _). destruct ok; simplify_eq.
    + destruct (chat_core store supportsChat m) as (Hs2 & _ & Hp2 & _ & Hr2 & Hd2 & _).
      eapply (bounds_same GPrecond n); unfold done_count; try congruence; done.
    + apply bounded_after; [|done]. apply (bounds_bounded GPrecond).
      eapply (bounds_same GPrecond n); unfold done_count; try congruence; done.
  - destruct (isCanceled r'); [by apply bounded_after|done].
  - destruct (cfg_Dry (r_cfg r)); [by simplify_eq|].
    destruct (Execute_setup_config o n) as (_ & _ & Hr & Hd & Hp & Hs).
    destruct (Execute_setup o n) as [[e|] m]; simpl in *; simplify_eq;
      eapply (bounds_same GExec n); unfold done_count; try congruence; done.
  - pose proof (Execute_run_facts o n) as Hf. destruct (Execute_run o n) as [err m].
    destruct Hf as (Hs & _ & Hp & Hr & Hd & _). simplify_eq.
    eapply (bounds_same GExec n); unfold done_count; try congruence; done.
  - destruct (handleNodeExecutionError _ _ _ _ _ _) as [[b r1] n1] eqn:Hh.
    apply handle_facts in Hh as (Hs & _ & Hp & Hd & _ & _ & Ht & Hf). simpl in Hb. destruct Hb as [Hb1 Hb2].
    assert (repeat_limit n1 = repeat_limit n) as Hrl by (unfold repeat_limit; by rewrite Hs).
    assert (done_count n1 = done_count n) as Hdc by done.
    destruct b.
    + simplify_eq. destruct (Ht eq_refl) as (_ & _ & _ & _ & _ & Hlt & Hr). simpl.
      unfold may_execute in *. rewrite Hp, Hr, Hrl, Hdc. split; [lia|done].
    + assert ((GetRetryCount n1 <= Z.max 0 (nrp_Limit (n_retryPolicy n1)))%Z) as Hr1.
      { rewrite Hp. destruct (Hf eq_refl) as [(_ & -> & _)|[(_ & _ & ->)|(_ & _ & ? & ->)]]; lia. }
      case_bool_decide; simplify_eq.
      * split; [done|]. unfold within_repeats, may_execute in *. rewrite Hrl, Hdc. intros Hl. specialize (Hb2 Hl). lia.
      * case_bool_decide; (split; [done|]); unfold within_repeats, may_execute in *; intros Hl;
          [change (done_count n1 + 1 <= repeat_limit n1)%Z; change (0 < repeat_limit n1)%Z in Hl|];
          rewrite Hrl, Hdc in *; specialize (Hb2 Hl); lia.
  - by apply (bounds_same GSleep n).
  - destruct (shouldRepeatNode condMet execErr n) eqn:Hsr; simpl in Hseg.
    2: { case_match; simplify_eq; by apply bounded_after. }
    destruct (isCanceled r); simpl in Hseg; [case_match; simplify_eq; by apply bounded_after|].
    simplify_eq. split; [apply Hbd|]. unfold may_execute. simpl. intros Hl.
    unfold shouldRepeatNode in Hsr. change (0 < repeat_limit n)%Z in Hl.
    change (done_count n < repeat_limit n)%Z. fold (repeat_limit n) in Hsr. fold (done_count n) in Hsr.
    destruct (0 <? repeat_limit n)%Z eqn:E1; breflect; [|lia].
    destruct (repeat_limit n <=? done_count n)%Z eqn:E2; breflect; [done|lia].
  - destruct (finalStatus_facts r' n) as (Hs & _ & Hp & Hr & Hd & _).
    eapply (bounds_same GFinal n); unfold done_count; try congruence; done.
  - unfold teardownNode, Teardown in Hseg.
    destruct (cfg_Dry (r_cfg r)); [by simplify_eq|]. destruct (n_done n); [by simplify_eq|].
    destruct closeErr; simplify_eq; done.
  - destruct panicked; simpl in Hseg; by simplify_eq.
Qed.

(** The counters of a node, with or without a goroutine. *)
Definition counters_ok (gs : gmap Z GPhase) (p : Plan) : Prop :=
  ∀ v n, GetNode p v = Some n →
    match gs !! v with
    | Some ph => bounds_at ph n
    | None => GetRetryCount n = 0%Z ∧ done_count n = 0%Z
    end.

Lemma counters_step p0 w e w' :
  plan_wf p0 → inv p0 w → step w e = Some w' →
  counters_ok (w_gs w) (w_plan w) → counters_ok (w_gs w') (w_plan w').
Proof.
  intros Hwf Hi Hs Hc.
  apply (step_kinds p0 Hwf) in Hs as [[Hq Hg]|[(id & m & Hm & Hst & Hp & Hg)|
    (id & a & ph & m & r' & m' & ph' & _ & Hph & Hm & Hseg & Hp & Hg)]]; [| | |done].
  - intros v n Hn. destruct (plan_quiet_back _ _ v n Hq Hn) as (k & Hk & Hqc). specialize (Hc v k Hk). rewrite Hg.
    destruct (w_gs w !! v); [by eapply bounds_quiet|].
    unfold done_count in *. by rewrite (qc_retries _ _ Hqc), (qc_done _ _ Hqc).
  - intros v n. rewrite Hp, Hg, GetNode_update, lookup_insert. case_decide; [|apply Hc]. subst v.
    rewrite Hm. intros [= <-]. specialize (Hc id m Hm). destruct (w_gs w !! id) as [ph|] eqn:E; [|done].
    destruct (iv_gs p0 w Hi id ph E) as [_ Hns]. unfold status_of in Hns. rewrite Hm in Hns. simpl in Hns. congruence.
  - intros v n. rewrite Hp, Hg, GetNode_update, lookup_insert. case_decide; [|apply Hc]. subst v.
    rewrite Hm. intros [= <-]. specialize (Hc id m Hm). rewrite Hph in Hc. by eapply segment_bounds.
Qed.

(** In every state a run reaches from a plan whose counters are zero, a node
    has been retried at most [Limit] times by its evaluated retry policy and
    has completed at most [Limit] executions of its repeat policy, where that
    limit is positive. *)
Theorem execution_bounds (p0 : Plan) (r : Runner) (progress : bool) (w : World) (v : Z) (n : Node)
    (Hwf : plan_wf p0)
    (Hzero : ∀ v n, GetNode p0 v = Some n → GetRetryCount n = 0%Z ∧ done_count n = 0%Z)
    (Hr : reachable valid_event (init_world r p0 progress) w)
    (Hn : GetNode (w_plan w) v = Some n) :
  (GetRetryCount n <= Z.max 0 (nrp_Limit (n_retryPolicy n)))%Z ∧
  ((0 < repeat_limit n)%Z → (done_count n <= repeat_limit n)%Z).
Proof.
  assert (counters_ok (w_gs w) (w_plan w)) as Hc.
  { clear Hn. induction Hr as [|w1 e w2 Hr1 IH He Hs].
    - intros u m Hm. simpl in *. rewrite lookup_empty. by apply (Hzero u m).
    - eapply counters_step; [done|by eapply reachable_inv|done|by apply IH]. }
  specialize (Hc v n Hn). destruct (w_gs w !! v) as [ph|].
  - apply (bounds_bounded ph n Hc).
  - destruct Hc as [-> ->]. split; lia.
Qed.
End Bounds.
