(* ===== verification/RunnerStatus.v ===== *)
(** * The status of a run

    What [Runner.Status] reports, in terms of the nodes' statuses. *)

From stdpp Require Import gmap strings list relations.
From Stdlib Require Import ZArith Lia.
From S2P Require Import Prelude Status Step Exec Node Graph Plan PlanWf PlanBuild.
From S2P Require Import Runner RunnerReady RunnerInv.

Section PartialSuccess.
Context `{LogFiles}.

Definition may_continue (n : Node) : bool := (ShouldContinue n).1.

(** The node after a failed node has been asked whether the run may continue. *)
Definition ask (n : Node) : Node :=
  match Node_Status n with NodeFailed => (ShouldContinue n).2 | _ => n end.

Definition tolerated (n : Node) : bool :=
  match Node_Status n with NodeFailed => may_continue n | _ => true end.

(** The first pass, over distinct nodes that have not been asked. *)
Lemma failures_spec ids : ∀ p,
  NoDup ids → (∀ v, v ∈ ids → is_Some (GetNode p v)) →
  let '(ok, q) := failures_may_continue ids p in
  (ok = true ↔ ∀ v n, v ∈ ids → GetNode p v = Some n → tolerated n = true) ∧
  (ok = true → ∀ v, GetNode q v = if decide (v ∈ ids) then ask <$> GetNode p v else GetNode p v) ∧
  p_nodes q = p_nodes p.
Proof.
  induction ids as [|id ids IH]; intros p Hnd Hin; simpl.
  { split_and!; [split; [set_solver|done]| |done]. intros _ v. done. }
  apply NoDup_cons in Hnd as [Hid Hnd]. destruct (Hin id) as [n Hn]; [by left|]. rewrite Hn.
  set (p1 := update_node id (λ _, ask n) p).
  assert (∀ v, v ∈ ids → GetNode p1 v = GetNode p v) as Hp1.
  { intros v Hv. unfold p1. rewrite GetNode_update, decide_False by (by intros ->). done. }
  assert (GetNode p1 id = Some (ask n)) as Hp1id.
  { unfold p1. by rewrite GetNode_update, decide_True, Hn by done. }
  assert (∀ v, v ≠ id → GetNode p1 v = GetNode p v) as Hp1ne.
  { intros v Hv. unfold p1. by rewrite GetNode_update, decide_False by congruence. }
  assert (tolerated n = true → failures_may_continue (id :: ids) p = failures_may_continue ids p1) as Heq.
  { unfold tolerated, may_continue, p1, ask. simpl. rewrite Hn.
    destruct (Node_Status n); intros Ht; try (by rewrite (update_node_self id n p)).
    by destruct (ShouldContinue n) as [[] m]. }
  assert (tolerated n = false → ∃ q, failures_may_continue (id :: ids) p = (false, q) ∧ p_nodes q = p_nodes p) as Heq'.
  { unfold tolerated, may_continue. simpl. rewrite Hn. destruct (Node_Status n); intros Ht; try done.
    destruct (ShouldContinue n) as [[] m]; [done|]. by eexists. }
  simpl in Heq, Heq'. rewrite Hn in Heq, Heq'. destruct (tolerated n) eqn:Ht.
  - rewrite Heq by done. specialize (IH p1 Hnd). destruct (failures_may_continue ids p1) as [ok q].
    destruct IH as (I1 & I2 & I3). { intros v Hv. rewrite Hp1 by done. apply Hin. by right. }
    split_and!.
    + rewrite I1. split.
      * intros Hall v m [->|Hv]%elem_of_cons Hm; [congruence|]. apply (Hall v); [done|]. by rewrite Hp1.
      * intros Hall v m Hv Hm. apply (Hall v); [by right|]. by rewrite <-Hp1.
    + intros Hok v. rewrite (I2 Hok). destruct (decide (v = id)) as [->|Hne].
      * rewrite decide_False, decide_True, Hp1id, Hn by set_solver. done.
      * rewrite Hp1ne by done. destruct (decide (v ∈ ids)); [rewrite decide_True by set_solver|rewrite decide_False by set_solver]; done.
    + by rewrite I3.
  - destruct (Heq' eq_refl) as (q & -> & Hq). split_and!; [|done|done].
    split; [done|]. intros Hall. specialize (Hall id n ltac:(by left) Hn). congruence.
Qed.

Definition succeeded (n : Node) : bool :=
  match Node_Status n with NodeSucceeded | NodePartiallySucceeded => true | _ => false end.

(** A failure that the run tolerates without counting it as a success. *)
Definition partial (n : Node) : bool :=
  match Node_Status n with
  | NodePartiallySucceeded => true
  | NodeFailed => may_continue n && negb (co_MarkSuccess (st_ContinueOn (n_Step n)))
  | _ => false
  end.

Definition exists_node (f : Node → bool) (p : Plan) (ids : list Z) : bool :=
  existsb (λ v, match GetNode p v with Some n => f n | None => false end) ids.

(** The second pass, over failed nodes whose answer is cached. *)
Lemma flags_spec p : (∀ v n, GetNode p v = Some n → Node_Status n = NodeFailed → (ShouldContinue n).2 = n) →
  ∀ ids s f, partial_success_flags ids s f p =
    (s || exists_node succeeded p ids, f || exists_node partial p ids, p).
Proof.
  intros Hfix. induction ids as [|id ids IH]; intros s f; simpl; [by rewrite !orb_false_r|].
  destruct (GetNode p id) as [n|] eqn:Hn; [|by rewrite IH].
  unfold succeeded at 1, partial at 1. destruct (Node_Status n) eqn:Hs; rewrite ?IH; simpl;
    rewrite ?orb_true_r; try done.
  specialize (Hfix id n Hn Hs). unfold ShouldMarkSuccess, may_continue.
  destruct (ShouldContinue n) as [c m] eqn:Hc. simpl in Hfix. subst m. destruct c; simpl.
  - rewrite Hc. rewrite (update_node_self id n p Hn), IH. by rewrite orb_assoc.
  - by rewrite (update_node_self id n p Hn), IH.
Qed.

Lemma exists_node_spec f p ids :
  exists_node f p ids = true ↔ ∃ v n, v ∈ ids ∧ GetNode p v = Some n ∧ f n = true.
Proof.
  unfold exists_node. rewrite existsb_exists. split.
  - intros (v & Hv & Hf). exists v. destruct (GetNode p v) as [n|]; [|done]. exists n.
    split_and!; try done. by apply list_elem_of_In.
  - intros (v & n & Hv & Hn & Hf). exists v. split; [by apply list_elem_of_In|]. by rewrite Hn.
Qed.

Lemma ask_status n : Node_Status (ask n) = Node_Status n.
Proof. unfold ask. destruct (Node_Status n) eqn:Hs; rewrite <-?Hs; try done. apply ShouldContinue_status. Qed.

(** Asking a failed node again, with a name the cache can hold. *)
Lemma ask_again n : contains_char eq_char (Name n) = false → Node_Status n = NodeFailed →
  ShouldContinue (ask n) = (may_continue n, ask n).
Proof. intros Hname Hs. unfold ask. rewrite Hs. by apply ShouldContinue_again. Qed.

Lemma ask_step n : n_Step (ask n) = n_Step n.
Proof. unfold ask. destruct (Node_Status n); try done. apply ShouldContinue_step. Qed.

Lemma ask_succeeded n : succeeded (ask n) = succeeded n.
Proof. unfold succeeded. by rewrite ask_status. Qed.

Lemma ask_partial n : contains_char eq_char (Name n) = false → partial (ask n) = partial n.
Proof.
  intros Hname. unfold partial. rewrite ask_status, ask_step. destruct (Node_Status n) eqn:Hs; try done.
  unfold may_continue at 1. by rewrite ask_again.
Qed.

(** A run counts as partially successful exactly when every failure is one the
    run may continue after, something succeeded, and some node is partially
    successful or failed without being marked as a success. *)
Theorem isPartialSuccess_correct (p : Plan) (Hwf : plan_wf p)
    (Hnames : ∀ v n, GetNode p v = Some n → contains_char eq_char (Name n) = false) :
  (isPartialSuccess p).1 = true ↔
  (∀ v n, GetNode p v = Some n → Node_Status n = NodeFailed → may_continue n = true) ∧
  (∃ v n, GetNode p v = Some n ∧ Node_Status n ∈ [NodeSucceeded; NodePartiallySucceeded]) ∧
  (∃ v n, GetNode p v = Some n ∧
     (Node_Status n = NodePartiallySucceeded ∨
      Node_Status n = NodeFailed ∧ may_continue n = true ∧ co_MarkSuccess (st_ContinueOn (n_Step n)) = false)).
Proof.
  pose proof (failures_spec (p_nodes p) p (wf_nodup p Hwf)) as Hf. unfold isPartialSuccess.
  destruct (failures_may_continue (p_nodes p) p) as [ok q].
  destruct Hf as (Hok & Hq & Hns); [intros v; apply (wf_store p Hwf)|].
  assert (ok = true ↔ ∀ v n, GetNode p v = Some n → Node_Status n = NodeFailed → may_continue n = true) as Hok'.
  { rewrite Hok. unfold tolerated. split.
    - intros Hall v n Hn Hs. specialize (Hall v n (proj2 (wf_store p Hwf v) ltac:(eauto)) Hn). by rewrite Hs in Hall.
    - intros Hall v n _ Hn. destruct (Node_Status n) eqn:Hs; try done. by eapply Hall. }
  destruct ok; [|split; [done|intros [Hall _]; by apply Hok' in Hall]].
  specialize (Hq eq_refl).
  assert (∀ v, GetNode q v = ask <$> GetNode p v) as Hq'.
  { intros v. rewrite Hq. case_decide as Hv; [done|]. destruct (GetNode p v) as [n|] eqn:Hn; [|done].
    destruct Hv. apply (wf_store p Hwf). eauto. }
  rewrite flags_spec.
  2: { intros v m. rewrite Hq'. destruct (GetNode p v) as [n|] eqn:Hn; [|done]. intros [= <-].
       rewrite ask_status. intros Hs. by rewrite (ask_again n (Hnames v n Hn) Hs). }
  simpl. rewrite andb_true_iff, !exists_node_spec. rewrite Hns.
  assert (∀ f, (∃ v m, v ∈ p_nodes p ∧ GetNode q v = Some m ∧ f m = true) ↔
               ∃ v n, GetNode p v = Some n ∧ f (ask n) = true) as Hex.
  { intros f. split.
    - intros (v & m & _ & Hm & Hfm). rewrite Hq' in Hm. destruct (GetNode p v) as [n|] eqn:Hn; [|done].
      simplify_eq/=. eauto.
    - intros (v & n & Hn & Hfn). exists v, (ask n). rewrite Hq', Hn. split_and!; [|done|done].
      apply (wf_store p Hwf). eauto. }
  rewrite !Hex. split.
  - intros [(v & n & Hn & H1) (u & m & Hm & H2)]. rewrite ask_succeeded in H1.
    rewrite ask_partial in H2 by by eapply Hnames. split_and!.
    + by apply Hok'.
    + exists v, n. split; [done|]. unfold succeeded in H1. destruct (Node_Status n); try done; set_solver.
    + exists u, m. split; [done|]. unfold partial in H2. destruct (Node_Status m); try done; [right|by left].
      breflect. done.
  - intros (_ & (v & n & Hn & H1) & (u & m & Hm & H2)). split.
    + exists v, n. split; [done|]. rewrite ask_succeeded. unfold succeeded.
      rewrite !elem_of_cons, elem_of_nil in H1. by destruct H1 as [->|[->|[]]].
    + exists u, m. split; [done|]. rewrite ask_partial by by eapply Hnames. unfold partial.
      destruct H2 as [->|(-> & -> & ->)]; done.
Qed.
End PartialSuccess.

Section RunStatus.
Context `{LogFiles}.

Lemma isSucceed_spec p :
  isSucceed p = true ↔
  ∀ v s, v ∈ p_nodes p → status_of p v = Some s → s ∈ [NodeSucceeded; NodeSkipped; NodePartiallySucceeded].
Proof.
  unfold isSucceed. rewrite forallb_forall. split.
  - intros Hall v s Hv Hs. assert (In s (statuses p)) as Hin.
    { apply list_elem_of_In, statuses_elem. eauto. }
    specialize (Hall s Hin). rewrite !elem_of_cons.
    repeat (apply orb_true_iff in Hall as [Hall|Hall]); apply bool_decide_eq_true in Hall; auto.
  - intros Hall s (v & Hv & Hs)%list_elem_of_In%statuses_elem. specialize (Hall v s Hv Hs).
    rewrite !elem_of_cons, elem_of_nil in Hall. by destruct Hall as [->|[->|[->|[]]]].
Qed.

(** No node is still to do something. *)
Definition settled_plan (p : Plan) : Prop :=
  ∀ v s, v ∈ p_nodes p → status_of p v = Some s →
    (s ∉ [NodeRunning; NodeRetrying; NodeRejected; NodeWaiting]) ∧
    (s = NodeNotStarted → IsFinished p = true).

Lemma settled_flags p :
  let st := NodeStates p in
  HasRunning st = false → HasRetrying st = false → HasRejected st = false → HasWaiting st = false →
  HasNotStarted st && negb (IsFinished p) = false → settled_plan p.
Proof.
  intros st H1 H2 H3 H4 H5 v s Hv Hs.
  assert (∀ t, flagged t = true → flag_of t st = false → s ≠ t) as Hne.
  { intros t Hf Ht ->. unfold st in Ht. rewrite NodeStates_flag in Ht by done.
    apply bool_decide_eq_false in Ht. apply Ht, statuses_elem. eauto. }
  split.
  - rewrite !elem_of_cons, elem_of_nil. intros [E|[E|[E|[E|[]]]]]; by apply Hne in E.
  - intros Hn. destruct (HasNotStarted st) eqn:E; [by destruct (IsFinished p)|]. by apply Hne in Hn.
Qed.

(** The final statuses a started run without a forced status reports:
    [Aborted] exactly when it was canceled before everything succeeded;
    [Succeeded] and [Failed] only when no node is left to do anything, and by
    whether an error was recorded; [PartiallySucceeded] as
    [isPartialSuccess] says. *)
Theorem Runner_Status_correct (r : Runner) (p : Plan)
    (Hstart : IsStarted p = true) (Hforced : cfg_ForcedStatus (r_cfg r) = None) :
  let s := (Runner_Status r p).1 in
  (s = Aborted ↔ isCanceled r = true ∧
     ∃ v st, v ∈ p_nodes p ∧ status_of p v = Some st ∧
       st ∉ [NodeSucceeded; NodeSkipped; NodePartiallySucceeded]) ∧
  (s = Succeeded → settled_plan p ∧ r_lastError r = None ∧ (isPartialSuccess p).1 = false) ∧
  (s = Failed → settled_plan p ∧ r_lastError r ≠ None ∧ (isPartialSuccess p).1 = false) ∧
  (s = PartiallySucceeded → settled_plan p ∧ (isPartialSuccess p).1 = true).
Proof.
  intros s.
  assert (isSucceed p = false ↔ ∃ v st, v ∈ p_nodes p ∧ status_of p v = Some st ∧
            st ∉ [NodeSucceeded; NodeSkipped; NodePartiallySucceeded]) as Hsucc.
  { rewrite <-not_true_iff_false, isSucceed_spec. split; [|intros (v & st & Hv & Hs & Hn) Hall; by eapply Hn, Hall].
    intros Hn. destruct (forallb (λ st, bool_decide (st ∈ [NodeSucceeded; NodeSkipped; NodePartiallySucceeded])) (statuses p)) eqn:E.
    - destruct Hn. intros v st Hv Hs. rewrite forallb_forall in E.
      specialize (E st). rewrite bool_decide_eq_true in E. apply E, list_elem_of_In, statuses_elem. eauto.
    - apply not_true_iff_false in E. rewrite forallb_forall in E.
      assert (¬ Forall (λ st, st ∈ [NodeSucceeded; NodeSkipped; NodePartiallySucceeded]) (statuses p)) as Hnf.
      { intros HF. apply E. intros st Hin%list_elem_of_In. rewrite bool_decide_eq_true.
        rewrite Forall_forall in HF. by apply HF. }
      apply not_Forall_Exists, Exists_exists in Hnf as (st & Hin & Hst); [|intros st; apply _].
      apply statuses_elem in Hin as (v & Hv & Hs). eauto. }
  rewrite <-Hsucc. unfold s, Runner_Status. rewrite Hstart, Hforced.
  destruct (isCanceled r && negb (isSucceed p)) eqn:Hab.
  { breflect. split_and!; try done. }
  assert (¬ (isCanceled r = true ∧ isSucceed p = false)) as Hnab.
  { intros [Hx Hy]. by rewrite Hx, Hy in Hab. }
  assert (∀ t, t ≠ Aborted → (t = Aborted ↔ isCanceled r = true ∧ isSucceed p = false)) as Hne by naive_solver.
  simpl. destruct (HasRunning _) eqn:F1; [by split_and!; [apply Hne|..]|].
  destruct (HasRetrying _) eqn:F2; [by split_and!; [apply Hne|..]|].
  destruct (HasRejected _) eqn:F3; [by split_and!; [apply Hne|..]|].
  destruct (HasWaiting _) eqn:F4; [by split_and!; [apply Hne|..]|].
  destruct (_ && negb (IsFinished p)) eqn:F5; [by split_and!; [apply Hne|..]|].
  pose proof (settled_flags p F1 F2 F3 F4 F5) as Hset. unfold isError.
  destruct (isPartialSuccess p) as [b q]. destruct b; simpl; [by split_and!; [apply Hne|..]|].
  case_bool_decide as Hb; simpl; (split_and!; [by apply Hne|try done..]).
Qed.
End RunStatus.
