(* ===== verification/RunnerExamples.v ===== *)
(** * Schedules of the runner

    Concrete runs of the transition system: the schedules that show what the
    theorems' hypotheses exclude, and the defects that modelling the loop
    showed. *)

From stdpp Require Import gmap strings list relations.
From Stdlib Require Import ZArith Lia.
From S2P Require Import Prelude Status Step Exec Node Graph Plan PlanWf Kahn PlanBuild RetryPlan.
From S2P Require Import Runner RunnerLoop RunnerReady RunnerInv RunnerSteps RunnerOrder RunnerLive RunnerBounds RunnerStatus.
Open Scope Z_scope.

#[export] Existing Instance no_logs.

(** SIGTERM (15) and SIGKILL (9) terminate. *)
#[export] Instance posix_signals : SignalTable := {|
  isTerminationSignal s := (s =? 15) || (s =? 9);
  GetSignalNum _ := 15;
|}.

Definition cfg0 : Config :=
  mkConfig 0 0 0 false None None None None None None None.

Definition plan_of (steps : list Step) : Plan :=
  match NewPlan 1 1 steps with inr p => p | inl _ => emptyPlan 1 end.

Definition ok_prepare : PrepareOutcome :=
  mkPrepareOutcome None "log" false 1 (inr "") (inr "") (inr "log.out") (λ _, None) DeadlineExceeded.

Definition exec_with (err : option GoError) (det : option (GoError + NodeStatus)) : ExecOutcome :=
  mkExecOutcome None None None (inr []) None err false 0 None None None None (inr "") det.

Definition ok_exec : ExecOutcome := exec_with None None.

(** The goroutine of [id] up to the end of its command, and from there. *)
Definition begin_node (id : Z) : list Event :=
  [ENode id (APrepare ok_prepare); ENode id (APrecond None None (λ _, false)); ENode id AStep;
   ENode id (AExec ok_exec)].
Definition end_node (id : Z) : list Event :=
  [ENode id (AHandle false 1); ENode id (ARepeat false); ENode id AStep; ENode id (ATeardown None)].
Definition send_node (id : Z) : list Event := [ENode id AStep].
Definition exit_node (id : Z) : list Event := [ENode id AStep; ENode id (AFinish 1)].
Definition succeed (id : Z) : list Event :=
  begin_node id ++ [ENode id (AExec ok_exec)] ++ end_node id.

(** The head of the loop, up to [select]; the loop up to its first iteration. *)
Definition head : list Event := [ELoop; ELoop; ELoop; ELoop; ELoop].
Definition ok_handler : HandlerOutcome := mkHandlerOutcome ok_prepare None ok_exec None 1.
Definition prologue : list Event := [EPreconditions None; EHandler ok_handler; ELoop].
Definition start : list Event := head ++ [ERecvReady].

Definition after (cfg : Config) (p : Plan) (es : list Event) : World :=
  default (init_world (New cfg) p true) (run (init_world (New cfg) p true) es).

(** ** A run in which [b] waits for [a] *)
Definition chain_steps : list Step := [plain_step "a" []; plain_step "b" ["a"]].
Definition chain_plan : Plan := plan_of chain_steps.
Definition chain_run : list Event :=
  prologue ++ start ++ succeed 1 ++ send_node 1 ++ head ++ [ERecvDone; ELoop; ELoop; ELoop] ++ start.
Definition chain_world : World := after cfg0 chain_plan chain_run.

Lemma chain_wf : plan_wf chain_plan.
Proof. by apply (NewPlan_wf 1 1 chain_steps). Qed.

Lemma chain_runs : run (init_world (New cfg0) chain_plan true) chain_run = Some chain_world.
Proof. by vm_compute. Qed.

Lemma chain_reachable : reachable valid_event (init_world (New cfg0) chain_plan true) chain_world.
Proof.
  apply (run_reachable _ _ chain_run); [|apply chain_runs].
  repeat (constructor; [done|]). constructor.
Qed.

Lemma run_limits_witness :
  (0 < max_active chain_world → Z.of_nat (unsent_count (w_gs chain_world)) <= max_active chain_world) ∧
  w_gs chain_world !! 2 = Some GPrepare.
Proof.
  split; [|by vm_compute].
  eapply (run_limits chain_plan (New cfg0) true chain_world chain_wf), chain_reachable.
Defined.

Lemma dependency_order_witness :
  ∃ n, GetNode (w_plan chain_world) 1 = Some n ∧ Node_Status n ≠ NodeNotStarted.
Proof.
  destruct (GetNode (w_plan chain_world) 1) as [n|] eqn:Hn; [|by vm_compute in Hn].
  exists n. split; [done|].
  apply (dependency_order chain_plan (New cfg0) true chain_world 2 1 n chain_wf chain_reachable).
  - vm_compute. by eexists.
  - vm_compute. left.
  - exact Hn.
  - vm_compute in Hn. injection Hn as <-. by split.
Defined.

Lemma execution_bounds_witness :
  ∃ n, GetNode (w_plan chain_world) 1 = Some n ∧ GetRetryCount n <= Z.max 0 (nrp_Limit (n_retryPolicy n)).
Proof.
  destruct (GetNode (w_plan chain_world) 1) as [n|] eqn:Hn; [|by vm_compute in Hn].
  exists n. split; [done|].
  eapply (execution_bounds chain_plan (New cfg0) true chain_world 1 n chain_wf); [|
    |exact Hn].
  - intros v m Hm. assert (v ∈ p_nodes chain_plan) as Hv by (apply (wf_store _ chain_wf); eauto).
    assert (p_nodes chain_plan = [1; 2]) as Hp by by vm_compute. rewrite Hp in Hv.
    rewrite !elem_of_cons, elem_of_nil in Hv.
    destruct Hv as [->|[->|[]]]; vm_compute in Hm; injection Hm as <-; by split.
  - apply chain_reachable.
Defined.

Lemma isReady_correct_witness :
  (isReady 2 chain_plan).1 = false ∧ verdict chain_plan (Dependencies chain_plan 2) = VWait.
Proof.
  split; [|by vm_compute].
  destruct (isReady 2 chain_plan) as [b p'] eqn:Hr.
  assert (Dependencies chain_plan 2 = [1]) as Hd by by vm_compute.
  assert (verdict chain_plan [1] = VWait) as Hv by by vm_compute.
  pose proof (isReady_correct chain_plan p' 2 b chain_wf) as Hc. rewrite Hd, Hv in Hc.
  apply Hc; [|apply NoDup_singleton|done]. unfold edge. rewrite Hd. intros Hx%list_elem_of_singleton. lia.
Defined.

(** ** A partially successful run *)
Definition tolerant_steps : list Step :=
  [{| (plain_step "a" []) with st_ContinueOn := mkContinueOn true false [] [] false |}; plain_step "b" ["a"]].
Definition tolerant_plan : Plan :=
  match NewPlanFromNodes 1 1 (stored_nodes tolerant_steps [NodeFailed; NodeSucceeded]) with
  | inr p => p | inl _ => emptyPlan 1 end.

Lemma tolerant_wf : plan_wf tolerant_plan.
Proof.
  apply (NewPlanFromNodes_wf 1 1 (stored_nodes tolerant_steps [NodeFailed; NodeSucceeded])); [|by vm_compute].
  apply ids_ok_zero; [lia|]. repeat constructor.
Qed.

Lemma isPartialSuccess_correct_witness :
  (∀ v n, GetNode tolerant_plan v = Some n → Node_Status n = NodeFailed → may_continue n = true) ∧
  statuses tolerant_plan = [NodeFailed; NodeSucceeded].
Proof.
  split; [|by vm_compute].
  eapply (isPartialSuccess_correct tolerant_plan tolerant_wf); [|by vm_compute].
  intros v n Hn. assert (v ∈ p_nodes tolerant_plan) as Hv by (apply (wf_store _ tolerant_wf); eauto).
  assert (p_nodes tolerant_plan = [1; 2]) as Hp by by vm_compute. rewrite Hp in Hv.
  rewrite !elem_of_cons, elem_of_nil in Hv.
  destruct Hv as [->|[->|[]]]; vm_compute in Hn; injection Hn as <-; reflexivity.
Defined.

Lemma Runner_Status_correct_witness :
  settled_plan tolerant_plan ∧ (Runner_Status (New cfg0) tolerant_plan).1 = PartiallySucceeded.
Proof.
  split; [|by vm_compute].
  eapply (Runner_Status_correct (New cfg0) tolerant_plan); by vm_compute.
Defined.

(** ** A run that stops at an approval *)
Definition approval_steps : list Step :=
  [{| (plain_step "a" []) with st_Approval := Some (mkApproval "" [] [] "") |}; plain_step "b" ["a"]].
Definition approval_plan : Plan := plan_of approval_steps.
Definition approval_run : list Event :=
  prologue ++ start ++ succeed 1 ++ send_node 1 ++ head ++ [ERecvDone; ELoop; ELoop] ++
  [ELoop; ELoop; ELoop].
Definition approval_world : World := after cfg0 approval_plan (approval_run ++ [ELoop]).
(* the same run, one iteration earlier, at the deadlock test *)
Definition busy_world : World := after cfg0 approval_plan (prologue ++ start ++ [ELoop; ELoop; ELoop; ELoop]).

Lemma approval_wf : plan_wf approval_plan ∧ isCyclic approval_plan = false.
Proof. by apply (NewPlan_wf 1 1 approval_steps). Qed.

Lemma approval_fresh v : v ∈ p_nodes approval_plan → status_of approval_plan v = Some NodeNotStarted.
Proof.
  assert (p_nodes approval_plan = [1; 2]) as -> by by vm_compute.
  rewrite !elem_of_cons, elem_of_nil. intros [->|[->|[]]]; by vm_compute.
Qed.

Lemma live_reachable p es :
  Forall live_event es → is_Some (run (init_world (New cfg0) p true) es) →
  reachable live_event (init_world (New cfg0) p true) (after cfg0 p es).
Proof.
  intros HF [w Hw]. apply (run_reachable _ _ es); [done|]. unfold after. by rewrite Hw.
Qed.

Lemma no_false_deadlock_witness :
  w_pc busy_world = LDeadlock true ∧ step_loop busy_world = Some (set_pc (LSelect true) busy_world).
Proof.
  split; [by vm_compute|].
  apply (no_false_deadlock approval_plan (New cfg0) true busy_world (proj1 approval_wf) (proj2 approval_wf)).
  - apply approval_fresh.
  - discriminate.
  - apply live_reachable; [|vm_compute; by eexists]. repeat (constructor; [done|]). constructor.
  - by vm_compute.
  - by vm_compute.
Defined.

Lemma loop_completes_witness :
  status_of (w_plan approval_world) 2 = Some NodeNotStarted ∧
  ∃ d, tc (edge approval_plan) d 2 ∧
    (status_of (w_plan approval_world) d = Some NodeWaiting ∨ status_of (w_plan approval_world) d = Some NodeRetrying).
Proof.
  split; [by vm_compute|].
  apply (loop_completes approval_plan (New cfg0) true approval_world (proj1 approval_wf) (proj2 approval_wf)).
  - apply approval_fresh.
  - discriminate.
  - apply live_reachable; [|vm_compute; by eexists]. repeat (constructor; [done|]). constructor.
  - by vm_compute.
  - by vm_compute.
  - by vm_compute.
Defined.

(** ** A repeating dependency

    [a] repeats and its executor reports the status of each execution; [c]
    depends on [a] and [b].  When [b] completes between an execution of [a]
    and its repetition, the loop reads the status of that execution, starts
    [c], and [a] executes again while [c] runs. *)
Definition repeat_step (name : string) : Step :=
  {| (plain_step name []) with
     st_RepeatPolicy := {| RepeatPolicy_zero with rep_Mode := RepeatModeWhile; rep_Limit := 2 |} |}.

Definition race_plan : Plan := plan_of [repeat_step "a"; plain_step "b" []; plain_step "c" ["a"; "b"]].

Definition race_run : list Event :=
  prologue ++ start ++ start ++
  begin_node 1 ++ [ENode 1 (AExec (exec_with None (Some (inr NodeSucceeded)))); ENode 1 (AHandle false 1)] ++
  succeed 2 ++ send_node 2 ++ head ++ [ERecvDone; ELoop; ELoop; ELoop] ++ start ++ begin_node 3 ++
  [ENode 1 (ARepeat true); ENode 1 AStep; ENode 1 (AExec ok_exec)].

(** A dependency with a repeat policy and its dependent node are executing at
    the same time. *)
Theorem repeating_dependency_overlaps :
  ∃ w, run (init_world (New cfg0) race_plan true) race_run = Some w ∧ Forall valid_event race_run ∧
    edge race_plan 1 3 ∧ w_gs w !! 1 = Some GRun ∧ w_gs w !! 3 = Some GRun.
Proof.
  exists (after cfg0 race_plan race_run). split; [by vm_compute|]. split.
  - repeat (constructor; [unfold valid_event, valid_outcome; simpl; set_solver|]). constructor.
  - split; [vm_compute; left|]. by vm_compute.
Qed.

(** ** The ready channel

    Two parents of the same three nodes, both complete before the loop
    receives either.  Each completion sends the three nodes, which is one
    more than the five the channel holds: the loop blocks, every goroutine
    has exited and nothing but a signal can happen any more. *)
Definition fan_plan : Plan :=
  plan_of [plain_step "p" []; plain_step "q" []; plain_step "x" ["p"; "q"];
           plain_step "y" ["p"; "q"]; plain_step "z" ["p"; "q"]].

Definition fan_run : list Event :=
  prologue ++ start ++ start ++ succeed 1 ++ succeed 2 ++ send_node 1 ++ send_node 2 ++
  exit_node 1 ++ exit_node 2 ++
  head ++ [ERecvDone] ++ [ELoop; ELoop; ELoop; ELoop; ELoop; ELoop; ELoop] ++
  head ++ [ERecvDone] ++ [ELoop; ELoop; ELoop; ELoop; ELoop].

Definition is_signal (e : Event) : bool :=
  match e with ESignal _ _ | ESignalNode _ => true | _ => false end.

Lemma exited_stuck pr t r n a : node_segment pr t r n GExited a = None.
Proof. by destruct a. Qed.

(** The run reaches a state in which the event loop is blocked on its own send
    to the full ready channel and only signals can still happen. *)
Theorem ready_channel_blocks :
  ∃ w, run (init_world (New cfg0) fan_plan true) fan_run = Some w ∧
    (∃ c children queue, w_pc w = LSend c children queue) ∧
    length (w_readyCh w) = capacity w ∧
    ∀ e w', step w e = Some w' → is_signal e = true.
Proof.
  set (w := after cfg0 fan_plan fan_run). exists w.
  assert (all_exited w = true) as Hex by by vm_compute.
  assert (w_pc w = LSend 5 [] []) as Hpc by by vm_compute.
  assert (step_loop w = None) as Hloop by by vm_compute.
  split; [by vm_compute|]. split; [exists 5, [], []; exact Hpc|]. split; [by vm_compute|]. clearbody w.
  intros e w'. unfold step. rewrite Hpc. destruct e; try done.
  - by rewrite Hloop.
  - destruct (w_gs w !! id) as [ph|] eqn:Hid; [|done]. rewrite (all_exited_spec w id ph Hex Hid).
    destruct (GetNode (w_plan w) id); [|done]. unfold step_node. by rewrite exited_stuck.
Qed.

(** ** A panicking node

    The goroutine of [a] panics.  Its deferred calls send it on [doneCh]
    before the panic is recorded, so the loop finds its dependant [b] waiting
    for a running node; once the panic is recorded nothing looks at [b]
    again, and the run ends with the deadlock error.  The panic is counted
    twice as a failed node. *)
Definition panic_run : list Event :=
  prologue ++ start ++ [ENode 1 (APrepare ok_prepare); ENode 1 (APanic (ErrExec 7 false None))] ++
  send_node 1 ++ head ++ [ERecvDone; ELoop; ELoop] ++ exit_node 1 ++
  [ELoop; ELoop; ELoop; ELoop; ELoop].

(** A panic of [a] ends the run with the deadlock error, its dependent not
    started, and two failed nodes counted. *)
Theorem panic_reported_as_deadlock :
  ∃ w, run (init_world (New cfg0) chain_plan true) panic_run = Some w ∧
    w_pc w = LWait ∧ r_lastError (w_runner w) = Some ErrDeadlockDetected ∧
    status_of (w_plan w) 1 = Some NodeFailed ∧ status_of (w_plan w) 2 = Some NodeNotStarted ∧
    m_failedNodes (r_metrics (w_runner w)) = 2.
Proof. exists (after cfg0 chain_plan panic_run). by vm_compute. Qed.

(** ** A retry plan whose initial scan strands a node

    [d] depends on [c] and is listed before it; [c] depends on [a], which was
    skipped, and on [b], which failed.  The retry resets [b], [c] and [d];
    the scan looks at [d] first, then marks [c] skipped because of [a], and
    does not come back to [d]. *)
Definition stranded_steps : list Step :=
  [plain_step "a" []; plain_step "b" []; plain_step "d" ["c"]; plain_step "c" ["a"; "b"]].
Definition stranded_nodes : list Node :=
  stored_nodes stranded_steps [NodeSkipped; NodeFailed; NodeAborted; NodeAborted].
Definition stranded_plan : Plan :=
  match CreateRetryPlan 1 1 stranded_steps stranded_nodes with
  | Some (inr p) => p
  | _ => emptyPlan 1
  end.
Definition stranded_run : list Event :=
  prologue ++ start ++ succeed 2 ++ send_node 2 ++ exit_node 2 ++
  head ++ [ERecvDone; ELoop; ELoop] ++ [ELoop; ELoop; ELoop; ELoop; ELoop].

(** The retry of a run with a skipped and a failed node ends with the deadlock
    error and a node that was never looked at again. *)
Theorem retry_scan_strands_node :
  statuses stranded_plan = [NodeSkipped; NodeNotStarted; NodeNotStarted; NodeNotStarted] ∧
  ∃ w, run (init_world (New cfg0) stranded_plan true) stranded_run = Some w ∧
    w_pc w = LWait ∧ r_lastError (w_runner w) = Some ErrDeadlockDetected ∧
    statuses (w_plan w) = [NodeSkipped; NodeSucceeded; NodeNotStarted; NodeSkipped].
Proof. split; [by vm_compute|]. exists (after cfg0 stranded_plan stranded_run). by vm_compute. Qed.

(** ** A repeating node that fails after cancellation

    [Signal] leaves a repeating node alone; the error of its current
    execution, coming after the cancellation, is recorded in the runner only,
    and the node's goroutine exits with the node still running: the wait of
    [Signal] for the absence of active nodes never ends. *)
Definition lingering_plan : Plan := plan_of [repeat_step "a"].
Definition lingering_run : list Event :=
  prologue ++ start ++ begin_node 1 ++ [ESignal 15 false; ESignalNode 0;
   ENode 1 (AExec (exec_with (Some (ErrExec 7 false (Some 1))) None)); ENode 1 (AHandle false 1);
   ENode 1 (ARepeat true)] ++ send_node 1 ++ exit_node 1.

(** Every goroutine has exited and the plan still has an active node. *)
Theorem canceled_repeat_stays_running :
  ∃ w, run (init_world (New cfg0) lingering_plan true) lingering_run = Some w ∧
    all_exited w = true ∧ HasActiveNodes (w_plan w) = true.
Proof. exists (after cfg0 lingering_plan lingering_run). by vm_compute. Qed.

(** ** A timed-out step that is retried

    The output of a timed-out step cannot be captured: the capture error
    replaces the timeout, and the step is retried in spite of the rule that
    a step-level timeout is final. *)
Definition timeout_step : Step :=
  {| (plain_step "a" []) with st_Timeout := 5 * Second; st_Output := "OUT";
     st_RetryPolicy := {| RetryPolicy_zero with rp_Limit := 3 |} |}.
Definition timeout_outcome (capture : GoError + string) : ExecOutcome :=
  mkExecOutcome None None None (inr []) None (Some (ErrExec 1 true None)) true 2 None None None None capture None.

(** A timed-out step is final when its output can be captured, and is retried
    when it cannot. *)
Theorem timed_out_step_retried :
  let n := SetStatus NodeRunning (Prepare ok_prepare (NewNode timeout_step NodeState_zero)).2 in
  let go capture :=
    let '(err, m) := Execute (timeout_outcome capture) n in
    let '(retry, _, m') := handleNodeExecutionError false 1 1 err (New cfg0) m in
    (Node_Status m, retry, Node_Status (if retry then retryAfterSleep 2 m' else m')) in
  go (inr "") = (NodeFailed, false, NodeFailed) ∧
  go (inl (ErrExec 3 false None)) = (NodeFailed, true, NodeRunning).
Proof. by vm_compute. Qed.

(** A dependency that timed out and whose failure is tolerated: its dependent is started
    before the error is looked at, and the dependency is retried while it runs. *)
Definition overlap_plan : Plan :=
  plan_of [{| timeout_step with st_ContinueOn := mkContinueOn true false [] [] false |}; plain_step "b" []; plain_step "c" ["a"; "b"]].
Definition overlap_run : list Event :=
  prologue ++ start ++ start ++ begin_node 1 ++ [ENode 1 (AExec (timeout_outcome (inl (ErrExec 3 false None))))] ++
  succeed 2 ++ send_node 2 ++ head ++ [ERecvDone; ELoop; ELoop; ELoop] ++ start ++ begin_node 3 ++
  [ENode 1 (AHandle false 1); ENode 1 (AWake 2); ENode 1 AStep; ENode 1 (AExec ok_exec)].

Example timed_out_dependency_overlaps :
  match run (init_world (New cfg0) overlap_plan true) overlap_run with
  | Some w => edge overlap_plan 1 3 ∧ w_gs w !! 1 = Some GRun ∧ w_gs w !! 3 = Some GRun
  | None => False
  end.
Proof. vm_compute. split_and!; [left|done..]. Qed.

(** ** A negative limit

    With a negative [max_active_steps] the loop takes no node, and the first iteration
    reports a deadlock. *)
Example negative_limit_deadlocks :
  let w := after (mkConfig (-1) 0 0 false None None None None None None None) chain_plan (prologue ++ head) in
  w_pc w = LWait ∧ r_lastError (w_runner w) = Some ErrDeadlockDetected ∧ w_readyCh w = [1].
Proof. by vm_compute. Qed.

(** ** A failed run reported as succeeded

    [y] fails and [x] repeats until it succeeds.  The error of the first
    execution of [x] replaces the recorded error of [y], and is cleared when
    [x] repeats: with [y] failed, the run ends without a recorded error and
    is reported as succeeded. *)
Definition until_step (name : string) : Step :=
  {| (plain_step name []) with
     st_RepeatPolicy := {| RepeatPolicy_zero with rep_Mode := RepeatModeUntil |} |}.
Definition masked_plan : Plan := plan_of [plain_step "y" []; until_step "x"].
Definition fail_exec (id : Z) : ExecOutcome := exec_with (Some (ErrExec id false (Some 1))) None.
Definition masked_run : list Event :=
  prologue ++ start ++ start ++
  begin_node 1 ++ [ENode 1 (AExec (fail_exec 7)); ENode 1 (AHandle false 1); ENode 1 (ARepeat false)] ++
  begin_node 2 ++ [ENode 2 (AExec (fail_exec 8)); ENode 2 (AHandle false 1); ENode 2 (ARepeat false);
    ENode 2 AStep; ENode 2 (AExec ok_exec); ENode 2 (AExec ok_exec)] ++ end_node 2 ++
  send_node 1 ++ send_node 2 ++ exit_node 1 ++ exit_node 2 ++ [ELoop; ELoop].

(** A run with a failed node, which it was not allowed to continue after, is
    reported as succeeded and goes on to the success handler. *)
Theorem failed_run_reported_succeeded :
  ∃ w, run (init_world (New cfg0) masked_plan true) masked_run = Some w ∧ Forall live_event masked_run ∧
    statuses (w_plan w) = [NodeFailed; NodeSucceeded] ∧
    co_Failure (st_ContinueOn (plain_step "y" [])) = false ∧
    (Runner_Status (w_runner w) (w_plan w)).1 = Succeeded ∧
    w_pc w = LHandlers [HandlerOnSuccess; HandlerOnExit].
Proof.
  exists (after cfg0 masked_plan masked_run). split; [by vm_compute|]. split.
  - repeat (constructor; [done|]). constructor.
  - by vm_compute.
Qed.
