(* ===== verification/GoStrings.v ===== *)
(** * Go string functions

    The functions of Go's [strings], [strconv] and [path/filepath] packages
    the scheduler uses, on byte strings.  White space and letter case are
    those of ASCII: names and expressions with other scripts are outside the
    model of [Fields], [TrimSpace] and [ToLower]. *)

From stdpp Require Import base strings list sorting.
From Stdlib Require Import ZArith Lia Ascii.
From S2P Require Import Prelude.

(** ** Bytes *)
Definition is_space (c : ascii) : bool :=
  let n := nat_of_ascii c in (9 <=? n) && (n <=? 13) || (n =? 32).

Definition is_digit (c : ascii) : bool :=
  let n := nat_of_ascii c in (48 <=? n) && (n <=? 57).

Definition digit_value (c : ascii) : Z := (Z.of_nat (nat_of_ascii c) - 48)%Z.

Definition to_lower (c : ascii) : ascii :=
  let n := nat_of_ascii c in if (65 <=? n) && (n <=? 90) then ascii_of_nat (n + 32) else c.

Fixpoint string_map (f : ascii → ascii) (s : string) : string :=
  match s with EmptyString => EmptyString | String c s' => String (f c) (string_map f s') end.

Fixpoint string_forallb (f : ascii → bool) (s : string) : bool :=
  match s with EmptyString => true | String c s' => f c && string_forallb f s' end.

(** ** strings *)
Definition ToLower : string → string := string_map to_lower.

Fixpoint trim_left (s : string) : string :=
  match s with
  | String c s' => if is_space c then trim_left s' else s
  | EmptyString => EmptyString
  end.

Fixpoint trim_right (s : string) : string :=
  match s with
  | EmptyString => EmptyString
  | String c s' =>
      match trim_right s' with
      | EmptyString => if is_space c then EmptyString else String c EmptyString
      | t => String c t
      end
  end.

Definition TrimSpace (s : string) : string := trim_right (trim_left s).

(** [strings.Fields]: the maximal runs of bytes that are not space; [cur] is
    the field being read. *)
Fixpoint fields_from (cur : string) (s : string) : list string :=
  let emit l := if String.eqb cur "" then l else cur :: l in
  match s with
  | EmptyString => emit []
  | String c s' =>
      if is_space c then emit (fields_from "" s')
      else fields_from (cur ++ String c EmptyString) s'
  end.

Definition Fields (s : string) : list string := fields_from "" s.

Fixpoint Join (l : list string) (sep : string) : string :=
  match l with
  | [] => ""
  | [x] => x
  | x :: l' => x ++ sep ++ Join l' sep
  end.

(** [strings.ReplaceAll] of one byte by another. *)
Definition ReplaceByte (old new : ascii) : string → string :=
  string_map (λ c, if Ascii.eqb c old then new else c).

(** [s[:n]] *)
Definition Take (n : nat) (s : string) : string := String.substring 0 n s.

(** [slices.Sort] of strings, in byte order. *)
Definition string_le (s t : string) : Prop := String.leb s t = true.

#[export] Instance string_le_dec : RelDecision string_le := λ s t, decide (String.leb s t = true).

Definition SortStrings : list string → list string := merge_sort string_le.

(** ** strconv.Atoi, for the unsigned decimal texts and signs it accepts *)
Fixpoint parse_digits (acc : Z) (s : string) : option Z :=
  match s with
  | EmptyString => Some acc
  | String c s' => if is_digit c then parse_digits (acc * 10 + digit_value c)%Z s' else None
  end.

Definition in_int64 (z : Z) : option Z :=
  if (min_int64 <=? z)%Z && (z <=? max_int64)%Z then Some z else None.

Definition Atoi (s : string) : option Z :=
  match s with
  | EmptyString => None
  | String c s' =>
      if Ascii.eqb c "+"%char || Ascii.eqb c "-"%char then
        if String.eqb s' "" then None
        else z ← parse_digits 0 s'; in_int64 (if Ascii.eqb c "-"%char then - z else z)%Z
      else z ← parse_digits 0 s; in_int64 z
  end.

(** ** Zero-padded decimals *)
Definition digit_char (d : Z) : ascii := ascii_of_nat (48 + Z.to_nat d).

(** The [w] low decimal digits of [z]. *)
Fixpoint pad (w : nat) (z : Z) : string :=
  match w with
  | 0 => EmptyString
  | S w' => pad w' (z / 10)%Z ++ String (digit_char (z mod 10)%Z) EmptyString
  end.

(** ** path/filepath on Unix *)
Definition slash : ascii := "/"%char.
Definition dot : ascii := "."%char.

Fixpoint trim_slashes (s : string) : string :=
  match s with
  | EmptyString => EmptyString
  | String c s' =>
      match trim_slashes s' with
      | EmptyString => if Ascii.eqb c slash then EmptyString else String c EmptyString
      | t => String c t
      end
  end.

(** The part after the last slash. *)
Fixpoint after_slash (cur : string) (s : string) : string :=
  match s with
  | EmptyString => cur
  | String c s' =>
      if Ascii.eqb c slash then after_slash "" s' else after_slash (cur ++ String c EmptyString) s'
  end.

Definition Base (path : string) : string :=
  if String.eqb path "" then "."
  else
    let base := after_slash "" (trim_slashes path) in
    if String.eqb base "" then "/" else base.

(** [filepath.Ext]: from the last dot of the last element on. *)
Fixpoint ext_from (ext : string) (s : string) : string :=
  match s with
  | EmptyString => ext
  | String c s' =>
      if Ascii.eqb c slash then ext_from "" s'
      else if Ascii.eqb c dot then ext_from s s'
      else ext_from ext s'
  end.

Definition Ext (path : string) : string := ext_from "" path.

Definition TrimSuffix (s suffix : string) : string :=
  let n := String.length s in
  let k := String.length suffix in
  if (k <=? n) && String.eqb (String.substring (n - k) k s) suffix then String.substring 0 (n - k) s else s.

(** ** Facts *)
Lemma length_app_string s t : String.length (s ++ t) = String.length s + String.length t.
Proof. induction s as [|c s IH]; simpl; [done|]. by rewrite IH. Qed.

Lemma length_string_map f s : String.length (string_map f s) = String.length s.
Proof. induction s as [|c s IH]; simpl; [done|]. by rewrite IH. Qed.

Lemma length_substring n m s : String.length (String.substring n m s) ≤ m.
Proof. revert n m. induction s as [|c s IH]; intros [|n] [|m]; simpl; try lia; [|apply IH..].
  specialize (IH 0 m). lia. Qed.

Lemma length_pad w z : String.length (pad w z) = w.
Proof. revert z. induction w as [|w IH]; intros z; simpl; [done|]. rewrite length_app_string, IH. simpl. lia. Qed.

Lemma app_string_inj_l (s1 s2 t1 t2 : string) :
  String.length s1 = String.length s2 → (s1 ++ t1 = s2 ++ t2)%string → s1 = s2 ∧ t1 = t2.
Proof.
  revert s2. induction s1 as [|c s1 IH]; intros [|d s2]; simpl; try done.
  intros [= Hl] [= -> H]. destruct (IH s2 Hl H) as [-> ->]. done.
Qed.

Lemma digit_char_value d : (0 <= d < 10)%Z → digit_value (digit_char d) = d.
Proof.
  intros H. unfold digit_value, digit_char. rewrite nat_ascii_embedding; lia.
Qed.

Lemma pad_inj w z1 z2 :
  (0 <= z1 < 10 ^ Z.of_nat w)%Z → (0 <= z2 < 10 ^ Z.of_nat w)%Z → pad w z1 = pad w z2 → z1 = z2.
Proof.
  revert z1 z2. induction w as [|w IH]; intros z1 z2 H1 H2; [simpl in *; lia|].
  simpl pad. intros [Hq Hr]%app_string_inj_l; [|by rewrite !length_pad].
  rewrite Nat2Z.inj_succ, Z.pow_succ_r in H1, H2 by lia.
  assert (z1 / 10 = z2 / 10)%Z as Hd.
  { apply IH; [..|done]; (split; [apply Z.div_pos; lia|apply Z.div_lt_upper_bound; lia]). }
  injection Hr as Hc. apply (f_equal digit_value) in Hc.
  rewrite !digit_char_value in Hc by (apply Z.mod_pos_bound; lia).
  rewrite (Z.div_mod z1 10), (Z.div_mod z2 10) by lia. congruence.
Qed.

Lemma app_assoc_string (s t u : string) : (s ++ (t ++ u) = (s ++ t) ++ u)%string.
Proof. induction s as [|c s IH]; [done|]. exact (f_equal (String c) IH). Qed.

Lemma app_nil_string (s : string) : (s ++ "" = s)%string.
Proof. induction s as [|c s IH]; [done|]. exact (f_equal (String c) IH). Qed.

(** ** The order of strings *)
#[export] Instance string_le_total : Total string_le.
Proof. intros s t. apply String.leb_total. Qed.

#[export] Instance string_le_antisym : AntiSymm (=) string_le.
Proof. intros s t. apply String.leb_antisym. Qed.

Lemma ascii_compare_trans a b c :
  Ascii.compare a b = Lt → Ascii.compare b c = Lt → Ascii.compare a c = Lt.
Proof. unfold Ascii.compare. rewrite !N.compare_lt_iff. lia. Qed.

Lemma string_compare_lt_trans s t u :
  String.compare s t = Lt → String.compare t u = Lt → String.compare s u = Lt.
Proof.
  revert t u. induction s as [|a s IH]; intros [|b t] [|c u]; simpl; try done.
  destruct (Ascii.compare a b) eqn:E1; try done; destruct (Ascii.compare b c) eqn:E2; try done.
  - apply Ascii.compare_eq_iff in E1 as ->. rewrite E2. apply IH.
  - apply Ascii.compare_eq_iff in E1 as ->. by rewrite E2.
  - apply Ascii.compare_eq_iff in E2 as <-. by rewrite E1.
  - by rewrite (ascii_compare_trans a b c).
Qed.

#[export] Instance string_le_trans : Transitive string_le.
Proof.
  intros s t u. unfold string_le, String.leb.
  destruct (String.compare s t) eqn:E1, (String.compare t u) eqn:E2; try done.
  - apply String.compare_eq_iff in E1 as ->. by rewrite E2.
  - apply String.compare_eq_iff in E1 as ->. by rewrite E2.
  - apply String.compare_eq_iff in E2 as <-. by rewrite E1.
  - by rewrite (string_compare_lt_trans s t u).
Qed.

Lemma SortStrings_perm l1 l2 : l1 ≡ₚ l2 → SortStrings l1 = SortStrings l2.
Proof.
  intros Hp. apply (StronglySorted_unique string_le);
    [apply StronglySorted_merge_sort; apply _..|].
  unfold SortStrings. by rewrite !merge_sort_Permutation.
Qed.
