(* ===== verification/GoDate.v ===== *)
(** * Calendar dates and the timestamps of schedules

    The part of Go's [time] package the schedules use: the proleptic
    Gregorian calendar, [time.Parse(time.RFC3339, raw)] on the texts the
    one-off pattern accepts, and the two output layouts of the scheduler. *)

From stdpp Require Import base strings list pretty.
From Stdlib Require Import ZArith Lia Ascii.
From S2P Require Import Prelude GoStrings.

Open Scope Z_scope.

(** ** Calendar

    [days_from_civil y m d]: the days from January 1, year 1 to the date, with
    years that start in March, so that the leap day is the last of its year. *)
Definition days_from_civil (y m d : Z) : Z :=
  let y' := if m <=? 2 then y - 1 else y in
  let era := y' / 400 in
  let yoe := y' - era * 400 in
  let doy := (153 * ((m + 9) mod 12) + 2) / 5 + d - 1 in
  let doe := yoe * 365 + yoe / 4 - yoe / 100 + doy in
  era * 146097 + doe - 306.

Definition civil_from_days (days : Z) : Z * Z * Z :=
  let z := days + 306 in
  let era := z / 146097 in
  let doe := z mod 146097 in
  let yoe := (doe - doe / 1460 + doe / 36524 - doe / 146096) / 365 in
  let doy := doe - (365 * yoe + yoe / 4 - yoe / 100) in
  let mp := (5 * doy + 2) / 153 in
  let d := doy - (153 * mp + 2) / 5 + 1 in
  let m := if mp <? 10 then mp + 3 else mp - 9 in
  let y := yoe + era * 400 in
  ((if m <=? 2 then y + 1 else y), m, d).

Definition isLeap (y : Z) : bool := (y mod 4 =? 0) && (negb (y mod 100 =? 0) || (y mod 400 =? 0)).

Definition daysIn (m y : Z) : Z :=
  if (m =? 2) then (if isLeap y then 29 else 28)
  else if (m =? 4) || (m =? 6) || (m =? 9) || (m =? 11) then 30 else 31.

Definition Day : Duration := 24 * Hour.

(** [time.Date] in UTC. *)
Definition Date (y m d hh mm ss : Z) : Time :=
  days_from_civil y m d * Day + hh * Hour + mm * Minute + ss * Second.

(** ** The one-off timestamp *)
Definition byte_at (s : string) (i : nat) (f : ascii → bool) : bool :=
  match String.get i s with Some c => f c | None => false end.

Definition is_byte (c : ascii) : ascii → bool := Ascii.eqb c.

(** [rfc3339MinuteOffsetRe]. *)
Definition rfc3339MinuteOffset (s : string) : bool :=
  forallb (λ i, byte_at s i is_digit) [0; 1; 2; 3; 5; 6; 8; 9; 11; 12; 14; 15]%nat &&
  forallb (λ '(i, c), byte_at s i (is_byte c))
    [(4%nat, "-"%char); (7%nat, "-"%char); (10%nat, "T"%char); (13%nat, ":"%char);
     (16%nat, ":"%char); (17%nat, "0"%char); (18%nat, "0"%char)] &&
  (bool_decide (String.length s = 20%nat) && byte_at s 19 (is_byte "Z"%char) ||
   bool_decide (String.length s = 25%nat) &&
     byte_at s 19 (λ c, is_byte "+"%char c || is_byte "-"%char c) &&
     forallb (λ i, byte_at s i is_digit) [20; 21; 23; 24]%nat &&
     byte_at s 22 (is_byte ":"%char)).

(** The number written in the [w] digits from [i] on. *)
Definition num_at (s : string) (i w : nat) : Z :=
  default 0 (parse_digits 0 (String.substring i w s)).

(** The zone offset in minutes; [time.Parse] takes offsets of 24 hours and of
    60 minutes. *)
Definition zone_minutes (s : string) : option Z :=
  if bool_decide (String.length s = 20%nat) then Some 0
  else
    let hr := num_at s 20 2 in
    let mm := num_at s 23 2 in
    if (hr <=? 24) && (mm <=? 60) then
      Some (if byte_at s 19 (is_byte "-"%char) then - (hr * 60 + mm) else hr * 60 + mm)
    else None.

(** The zone of [canonicalOneOffLayout]: "Z07:00". *)
Definition format_zone (zone : Z) : string :=
  if zone =? 0 then "Z"
  else
    let z := Z.abs zone in
    (if zone <? 0 then "-" else "+") ++ pad 2 (z / 60) ++ ":" ++ pad 2 (z mod 60).

Definition format_minutes (y m d hh mm : Z) : string :=
  pad 4 y ++ "-" ++ pad 2 m ++ "-" ++ pad 2 d ++ "T" ++ pad 2 hh ++ ":" ++ pad 2 mm ++ ":00".

(** [parseOneOffTime]: the instant and its canonical text. *)
Definition parseOneOffTime (raw : string) : option (Time * string) :=
  if negb (rfc3339MinuteOffset raw) then None
  else
    let y := num_at raw 0 4 in
    let m := num_at raw 5 2 in
    let d := num_at raw 8 2 in
    let hh := num_at raw 11 2 in
    let mm := num_at raw 14 2 in
    if (1 <=? m) && (m <=? 12) && (1 <=? d) && (d <=? daysIn m y) && (hh <=? 23) && (mm <=? 59) then
      zone ← zone_minutes raw;
      Some (Date y m d hh mm 0 - zone * Minute, (format_minutes y m d hh mm ++ format_zone zone)%string)
    else None.

(** ** The timestamp of run identifiers: "20060102T150405" in UTC *)
Definition format_year (y : Z) : string :=
  (if y <? 0 then "-" else "") ++
  (if Z.abs y <? 10000 then pad 4 (Z.abs y) else pretty (Z.abs y)).

Definition format_timestamp (t : Time) : string :=
  let '(y, m, d) := civil_from_days (t / Day) in
  let s := (t mod Day) / Second in
  format_year y ++ pad 2 m ++ pad 2 d ++ "T" ++
  pad 2 (s / 3600) ++ pad 2 (s / 60 mod 60) ++ pad 2 (s mod 60).

(** ** The calendar is sound *)
Lemma doe_bounds doe :
  0 <= doe < 146097 →
  let yoe := (doe - doe / 1460 + doe / 36524 - doe / 146096) / 365 in
  0 <= yoe < 400 ∧ 0 <= doe - (365 * yoe + yoe / 4 - yoe / 100) <= 365.
Proof. intros H yoe. subst yoe. Z.to_euclidean_division_equations. lia. Qed.

Lemma month_bounds doy : 0 <= doy <= 365 → 0 <= (5 * doy + 2) / 153 <= 11.
Proof. intros H. Z.to_euclidean_division_equations. lia. Qed.

Lemma civil_from_days_bounds days y m d :
  civil_from_days days = (y, m, d) → 1 <= m <= 12 ∧ 1 <= d <= 31.
Proof.
  unfold civil_from_days. intros [= _ Hm Hd].
  pose proof (Z.mod_pos_bound (days + 306) 146097 ltac:(lia)) as Hdoe.
  destruct (doe_bounds _ Hdoe) as [_ Hdoy]. set (doy := _ - _) in Hdoy, Hm, Hd.
  pose proof (month_bounds doy Hdoy) as Hmp.
  split; [destruct (_ <? 10) eqn:E; breflect; lia|].
  clearbody doy. Z.to_euclidean_division_equations. lia.
Qed.

Lemma days_from_civil_from_days days y m d :
  civil_from_days days = (y, m, d) → days_from_civil y m d = days.
Proof.
  unfold civil_from_days, days_from_civil. intros [= <- <- <-].
  pose proof (Z.mod_pos_bound (days + 306) 146097 ltac:(lia)) as Hdoe.
  destruct (doe_bounds _ Hdoe) as [Hyoe Hdoy].
  set (doe := (days + 306) mod 146097) in *. set (era := (days + 306) / 146097).
  set (yoe := (_ - _) / 365) in *. set (doy := doe - (365 * yoe + _ - _)) in *.
  pose proof (month_bounds doy Hdoy) as Hmp. set (mp := (5 * doy + 2) / 153) in *.
  set (m := if mp <? 10 then mp + 3 else mp - 9).
  assert ((m + 9) mod 12 = mp) as ->.
  { unfold m. destruct (mp <? 10) eqn:E; breflect.
    - replace (mp + 3 + 9) with (mp + 1 * 12) by lia. rewrite Z.mod_add, Z.mod_small; lia.
    - replace (mp - 9 + 9) with mp by lia. apply Z.mod_small; lia. }
  replace (if m <=? 2 then _ - 1 else _) with (yoe + era * 400) by (destruct (m <=? 2); lia).
  rewrite Z.div_add, (Z.div_small yoe 400) by lia.
  replace (yoe + era * 400 - (0 + era) * 400) with yoe by lia.
  pose proof (Z.div_mod (days + 306) 146097 ltac:(lia)) as Hz. fold era doe in Hz.
  assert (doe = yoe * 365 + yoe / 4 - yoe / 100 + doy) by (subst doy; lia). lia.
Qed.

(** Instants whose UTC year has at most four digits. *)
Definition four_digit_year (t : Time) : bool :=
  let '(y, _, _) := civil_from_days (t / Day) in (0 <=? y) && (y <? 10000).

Lemma format_year_pad y : (0 <=? y) && (y <? 10000) = true → format_year y = pad 4 y.
Proof.
  intros H. breflect. unfold format_year. rewrite Z.abs_eq by lia.
  destruct (y <? 0) eqn:E1; [breflect; lia|]. destruct (y <? 10000) eqn:E2; [done|breflect; lia].
Qed.

Lemma length_format_timestamp t : four_digit_year t = true → String.length (format_timestamp t) = 15%nat.
Proof.
  unfold four_digit_year, format_timestamp. destruct (civil_from_days _) as [[y m] d].
  intros H. rewrite (format_year_pad y H), !length_app_string, !length_pad. done.
Qed.

Lemma seconds_of_day t : 0 <= (t mod Day) / Second < 86400.
Proof.
  pose proof (Z.mod_pos_bound t Day ltac:(done)).
  split; [apply Z.div_pos; [lia|done]|apply Z.div_lt_upper_bound; [done|]].
  unfold Day, Hour, Second in *. lia.
Qed.

(** The timestamp determines the second. *)
Lemma format_timestamp_inj t1 t2 :
  four_digit_year t1 = true → four_digit_year t2 = true →
  format_timestamp t1 = format_timestamp t2 → t1 / Second = t2 / Second.
Proof.
  intros Y1 Y2. unfold four_digit_year, format_timestamp in *.
  destruct (civil_from_days (t1 / Day)) as [[y1 m1] d1] eqn:E1.
  destruct (civil_from_days (t2 / Day)) as [[y2 m2] d2] eqn:E2.
  rewrite !format_year_pad by done. cbv zeta.
  pose proof (civil_from_days_bounds _ _ _ _ E1). pose proof (civil_from_days_bounds _ _ _ _ E2).
  pose proof (seconds_of_day t1) as S1. pose proof (seconds_of_day t2) as S2.
  apply days_from_civil_from_days in E1, E2.
  set (s1 := t1 mod Day / Second) in *. set (s2 := t2 mod Day / Second) in *. breflect.
  intros [Hy%pad_inj Hx]%app_string_inj_l; [|lia..|by rewrite !length_pad].
  apply app_string_inj_l in Hx as [Hm%pad_inj Hx]; [|lia..|by rewrite !length_pad].
  apply app_string_inj_l in Hx as [Hd%pad_inj Hx]; [|lia..|by rewrite !length_pad].
  apply (app_string_inj_l "T" "T") in Hx as [_ Hx]; [|done].
  apply app_string_inj_l in Hx as [Hh%pad_inj Hx];
    [|Z.to_euclidean_division_equations; lia..|by rewrite !length_pad].
  apply app_string_inj_l in Hx as [Hmi%pad_inj Hx];
    [|Z.to_euclidean_division_equations; lia..|by rewrite !length_pad].
  apply pad_inj in Hx; [|Z.to_euclidean_division_equations; lia..].
  assert (s1 = s2) as Hs.
  { rewrite (Z.div_mod s1 60), (Z.div_mod s2 60) by lia.
    assert (s1 / 60 = s2 / 60); [|congruence].
    rewrite (Z.div_mod (s1 / 60) 60), (Z.div_mod (s2 / 60) 60) by lia.
    rewrite !Zdiv_Zdiv by lia. change (60 * 60) with 3600. congruence. }
  assert (t1 / Day = t2 / Day) as Hday by congruence.
  assert (∀ t, t / Second = t / Day * 86400 + t mod Day / Second) as Hsplit.
  { intros t. rewrite (Z.div_mod t Day) at 1 by done. change Day with (86400 * Second) at 1.
    rewrite <-Z.mul_assoc, (Z.mul_comm 86400), <-Z.mul_assoc, (Z.mul_comm Second).
    rewrite Z.div_add_l by done. lia. }
  rewrite (Hsplit t1), (Hsplit t2). fold s1 s2. lia.
Qed.

(** ** The canonical one-off text parses back *)
Lemma is_digit_char d : is_digit (digit_char (d mod 10)) = true.
Proof.
  pose proof (Z.mod_pos_bound d 10 ltac:(lia)). unfold is_digit, digit_char.
  rewrite nat_ascii_embedding by lia. apply andb_true_intro; split; apply Nat.leb_le; lia.
Qed.

Lemma parse_digits_pad w acc z s :
  0 <= z < 10 ^ Z.of_nat w →
  parse_digits acc (pad w z ++ s) = parse_digits (acc * 10 ^ Z.of_nat w + z) s.
Proof.
  revert acc z s. induction w as [|w IH]; intros acc z s H; [simpl in *; f_equal; lia|].
  rewrite Nat2Z.inj_succ, Z.pow_succ_r in H |- * by lia. simpl pad.
  rewrite <-app_assoc_string, IH by
    (split; [apply Z.div_pos; lia|apply Z.div_lt_upper_bound; lia]).
  match goal with |- context [(String ?c "" +:+ s)%string] =>
    change (String c "" +:+ s)%string with (String c s) end.
  cbn [parse_digits].
  rewrite is_digit_char, digit_char_value by (apply Z.mod_pos_bound; lia).
  pose proof (Z.div_mod z 10 ltac:(lia)) as Hz. set (k := 10 ^ Z.of_nat w) in *.
  match goal with |- parse_digits ?a _ = parse_digits ?b _ => replace b with a; [done|lia] end.
Qed.

Lemma num_pad s i w z :
  0 <= z < 10 ^ Z.of_nat w → String.substring i w s = pad w z → num_at s i w = z.
Proof.
  intros H Hs. unfold num_at. rewrite Hs.
  rewrite <-(app_nil_string (pad w z)), parse_digits_pad by done. simpl. lia.
Qed.

Lemma zone_sign zone : format_zone zone = "Z" ∧ zone = 0 ∨
  ∃ c, format_zone zone = (String c (pad 2 (Z.abs zone / 60)) ++ ":" ++ pad 2 (Z.abs zone mod 60))%string ∧
    (c = "+"%char ∧ 0 < zone ∨ c = "-"%char ∧ zone < 0).
Proof.
  unfold format_zone. destruct (zone =? 0) eqn:E; breflect; [by left|right].
  destruct (zone <? 0) eqn:E2; breflect; eexists; (split; [reflexivity|]); [right|left]; (split; [done|lia]).
Qed.

(** Formatting and parsing again is the identity, for offsets below 25 hours. *)
Lemma parse_format_oneoff y m d hh mm zone :
  0 <= y < 10000 → 1 <= m <= 12 → 1 <= d <= daysIn m y → 0 <= hh <= 23 → 0 <= mm <= 59 →
  Z.abs zone < 1500 →
  let c := (format_minutes y m d hh mm ++ format_zone zone)%string in
  parseOneOffTime c = Some (Date y m d hh mm 0 - zone * Minute, c).
Proof.
  intros Hy Hm Hd Hh Hmm Hz c.
  assert (0 <= d < 100) as Hd2.
  { unfold daysIn in Hd. destruct (m =? 2), (isLeap y), (m =? 4), (m =? 6), (m =? 9), (m =? 11); simpl in Hd; lia. }
  unfold parseOneOffTime.
  assert (rfc3339MinuteOffset c = true ∧ zone_minutes c = Some zone) as [-> ->].
  { destruct (zone_sign zone) as [[Hzo ->]|(s & Hzo & Hs)]; unfold c; rewrite Hzo.
    - split; [|done]. unfold rfc3339MinuteOffset, byte_at, format_minutes.
      lazy -[digit_char is_digit Z.div Z.modulo]. by rewrite !is_digit_char.
    - split.
      + unfold rfc3339MinuteOffset, byte_at, format_minutes.
        lazy -[digit_char is_digit Z.div Z.modulo Z.abs]. rewrite !is_digit_char.
        by destruct Hs as [[-> _]|[-> _]].
      + unfold zone_minutes. rewrite bool_decide_false by done.
        rewrite (num_pad _ 20 2 (Z.abs zone / 60)), (num_pad _ 23 2 (Z.abs zone mod 60)); try reflexivity;
          [|Z.to_euclidean_division_equations; simpl Z.of_nat; lia..].
        rewrite (proj2 (Z.leb_le _ _)) by (Z.to_euclidean_division_equations; lia).
        rewrite (proj2 (Z.leb_le _ _)) by (Z.to_euclidean_division_equations; lia).
        simpl. f_equal. pose proof (Z.div_mod (Z.abs zone) 60 ltac:(lia)).
        destruct Hs as [[-> ?]|[-> ?]]; unfold byte_at; simpl; lia. }
  rewrite (num_pad c 0 4 y), (num_pad c 5 2 m), (num_pad c 8 2 d), (num_pad c 11 2 hh),
    (num_pad c 14 2 mm); try reflexivity; [|simpl Z.of_nat; lia..].
  simpl negb. cbv iota.
  repeat (rewrite (proj2 (Z.leb_le _ _)) by lia). done.
Qed.
