(* ===== verification/Schedule.v ===== *)
(** * Schedules (internal/core/schedule.go, overlap_policy.go)

    A schedule is a cron expression or a one-off timestamp.  The cron library
    (robfig/cron) is a parameter: [cron_Parse] is [standardCronParser.Parse],
    and a parsed schedule is its [Next] method, which reads the wall clock of
    the location of the instant it is given. *)

From stdpp Require Import base strings list.
From Stdlib Require Import ZArith Lia Ascii.
From S2P Require Import Prelude GoStrings GoDate.

Open Scope Z_scope.

(** The location of an instant: that of the process, or the one configured
    for stop and restart schedules. *)
Inductive Loc := Local | Configured.

(** [cron.Schedule]: its [Next]. *)
Definition CronSchedule : Type := Loc → Time → Time.

Class CronParser := { cron_Parse : string → option CronSchedule }.

(** ** Misleading step values *)
Record StepWarning := mkStepWarning {
  sw_field : string;       (* the field's text *)
  sw_fieldName : string;
  sw_firesAt : list Z;
  sw_step : Z;
  sw_divisors : list Z;
}.

Definition isExpectedStepValue (fieldName : string) (base step : Z) : bool :=
  if base mod step =? 0 then true
  else bool_decide (fieldName = "hour") && (step =? 5).

(** [for i := 0; i < base; i += step]. *)
Definition fires_at (base step : Z) : list Z :=
  (λ k, k * step) <$> seqZ 0 ((base + step - 1) / step).

Definition divisors (base : Z) : list Z := filter (λ i, base mod i = 0) (seqZ 2 (base - 2)).

Definition checkStepValue (field fieldName : string) (base : Z) : list StepWarning :=
  if negb (String.prefix "*/" field) then []
  else
    match Atoi (String.substring 2 (String.length field - 2) field) with
    | None => []
    | Some step =>
        if step <=? 1 then []
        else if isExpectedStepValue fieldName base step then []
        else [mkStepWarning field fieldName (fires_at base step) step (divisors base)]
    end.

(** The warnings, as the data of their messages. *)
Definition checkMisleadingStepValues (expr : string) : list StepWarning :=
  match Fields expr with
  | [minute; hour; _; _; _] => (checkStepValue minute "minute" 60 ++ checkStepValue hour "hour" 24)%list
  | _ => []
  end.

(** ** Schedule *)
Definition ScheduleKindCron : string := "cron".
Definition ScheduleKindAt : string := "at".

Record Schedule := mkSchedule {
  sc_Kind : string;
  sc_Expression : string;
  sc_At : string;
  sc_Parsed : option CronSchedule;
  sc_AtTime : Time;
  sc_Warnings : list StepWarning;
}.

(** The zero value [core.Schedule{}]. *)
Definition Schedule_zero : Schedule := mkSchedule "" "" "" None 0 [].

Definition GetKind (s : Schedule) : string :=
  if bool_decide (sc_Kind s ≠ "") then sc_Kind s
  else if bool_decide (sc_At s ≠ "") || negb (IsZero (sc_AtTime s)) then ScheduleKindAt
  else if bool_decide (sc_Expression s ≠ "") || bool_decide (is_Some (sc_Parsed s)) then ScheduleKindCron
  else "".

Definition IsCron (s : Schedule) : bool := bool_decide (GetKind s = ScheduleKindCron).
Definition IsOneOff (s : Schedule) : bool := bool_decide (GetKind s = ScheduleKindAt).

Definition DisplayValue (s : Schedule) : string :=
  if IsCron s then sc_Expression s else if IsOneOff s then sc_At s else "".

(** The values of a schedule entry after decoding YAML or JSON. *)
Inductive AnyValue :=
  | AnyString (s : string)
  | AnyMap (m : list (string * AnyValue))            (* map[string]any *)
  | AnyAnyMap (m : list (option string * AnyValue))  (* map[any]any; [None]: a key that is not a string *)
  | AnyOther.

(** What is wrong with a schedule; messages are not modelled. *)
Inductive ScheduleErr :=
  | ErrEmptyCron | ErrInvalidCron | ErrInvalidAt | ErrUnsupportedKind (k : string)
  | ErrKeyType | ErrEntry | ErrExpressionAndAt | ErrNeither | ErrCronFields | ErrAtFields
  | ErrAtNotAllowed | ErrValueType.

Section Parsing.
Context `{CronParser}.

Definition parseCronExpression (expr : string) : ScheduleErr + (CronSchedule * string) :=
  let normalized := Join (Fields expr) " " in
  if bool_decide (normalized = "") then inl ErrEmptyCron
  else
    match cron_Parse normalized with
    | None => inl ErrInvalidCron
    | Some parsed => inr (parsed, normalized)
    end.

Definition NewCronSchedule (expr : string) : ScheduleErr + Schedule :=
  match parseCronExpression expr with
  | inl e => inl e
  | inr (parsed, normalized) =>
      inr (mkSchedule ScheduleKindCron normalized "" (Some parsed) 0 (checkMisleadingStepValues normalized))
  end.

Definition NewOneOffSchedule (at_ : string) : ScheduleErr + Schedule :=
  match parseOneOffTime at_ with
  | None => inl ErrInvalidAt
  | Some (atTime, normalized) => inr (mkSchedule ScheduleKindAt "" normalized None atTime [])
  end.

Definition normalizeSchedule (s : Schedule) : ScheduleErr + Schedule :=
  if bool_decide (GetKind s = ScheduleKindCron) then NewCronSchedule (sc_Expression s)
  else if bool_decide (GetKind s = ScheduleKindAt) then NewOneOffSchedule (sc_At s)
  else if bool_decide (GetKind s = "") then inr Schedule_zero
  else inl (ErrUnsupportedKind (sc_Kind s)).

Definition Fingerprint (s : Schedule) : string :=
  match normalizeSchedule s with
  | inl _ => ""
  | inr n =>
      if bool_decide (sc_Kind n = ScheduleKindCron) then "cron:" ++ sc_Expression n
      else if bool_decide (sc_Kind n = ScheduleKindAt) then "at:" ++ sc_At n
      else ""
  end.

Definition parsedCron (s : Schedule) : option CronSchedule :=
  match sc_Parsed s with
  | Some p => Some p
  | None =>
      if negb (IsCron s) || bool_decide (sc_Expression s = "") then None
      else match parseCronExpression (sc_Expression s) with
           | inl _ => None
           | inr (parsed, _) => Some parsed
           end
  end.

Definition OneOffTime (s : Schedule) : option Time :=
  if negb (IsZero (sc_AtTime s)) then Some (sc_AtTime s)
  else if negb (IsOneOff s) || bool_decide (sc_At s = "") then None
  else fst <$> parseOneOffTime (sc_At s).

(** [Schedule.Next]; the zero time when there is none. *)
Definition Schedule_Next (s : Schedule) (now : Time) : Time :=
  if IsCron s then
    match parsedCron s with Some next => next Local now | None => 0 end
  else if IsOneOff s then
    match OneOffTime s with
    | Some at_ => if After at_ now then at_ else 0
    | None => 0
    end
  else 0.

(** [parseScheduleMap]: the fields read from the entries of the map. *)
Record ScheduleFields := mkScheduleFields { sf_kind : string; sf_expression : string; sf_at : string }.

Definition readScheduleField (f : ScheduleFields) (kv : string * AnyValue) : ScheduleErr + ScheduleFields :=
  let '(key, value) := kv in
  if bool_decide (key = "kind") then
    match value with AnyString v => inr {| f with sf_kind := TrimSpace v |} | _ => inl ErrEntry end
  else if bool_decide (key = "expression") then
    match value with AnyString v => inr {| f with sf_expression := v |} | _ => inl ErrEntry end
  else if bool_decide (key = "at") then
    match value with AnyString v => inr {| f with sf_at := v |} | _ => inl ErrEntry end
  else inl ErrEntry.

Definition scheduleKindOf (kind expression at_ : string) : ScheduleErr + string :=
  if bool_decide (kind = "") then
    if bool_decide (at_ ≠ "") then inr ScheduleKindAt
    else if bool_decide (expression ≠ "") then inr ScheduleKindCron
    else inl ErrNeither
  else inr kind.

Definition parseScheduleMap (m : list (string * AnyValue)) (allowAt : bool) : ScheduleErr + Schedule :=
  (let? f := foldE readScheduleField (mkScheduleFields "" "" "") m in
   let expression := sf_expression f in
   let at_ := sf_at f in
   if bool_decide (expression ≠ "") && bool_decide (at_ ≠ "") then inl ErrExpressionAndAt
   else
     let? kind := scheduleKindOf (sf_kind f) expression at_ in
     if bool_decide (kind = ScheduleKindCron) && (bool_decide (expression = "") || bool_decide (at_ ≠ ""))
     then inl ErrCronFields
     else if bool_decide (kind = ScheduleKindAt) && (bool_decide (at_ = "") || bool_decide (expression ≠ ""))
     then inl ErrAtFields
     else if bool_decide (kind = ScheduleKindAt) && negb allowAt then inl ErrAtNotAllowed
     else normalizeSchedule (mkSchedule kind expression at_ None 0 []))%err.

Fixpoint convertKeys (m : list (option string * AnyValue)) : option (list (string * AnyValue)) :=
  match m with
  | [] => Some []
  | (None, _) :: _ => None
  | (Some k, v) :: rest => ((k, v) ::.) <$> convertKeys rest
  end.

Definition ParseScheduleValue (v : AnyValue) (allowAt : bool) : ScheduleErr + Schedule :=
  match v with
  | AnyString s => NewCronSchedule s
  | AnyMap m => parseScheduleMap m allowAt
  | AnyAnyMap m =>
      match convertKeys m with
      | None => inl ErrKeyType
      | Some m => parseScheduleMap m allowAt
      end
  | AnyOther => inl ErrValueType
  end.
End Parsing.

(** ** Overlap policies *)
Definition OverlapPolicySkip : string := "skip".
Definition OverlapPolicyAll : string := "all".
Definition OverlapPolicyLatest : string := "latest".

Definition ParseOverlapPolicy (s : string) : option string :=
  let t := ToLower (TrimSpace s) in
  if bool_decide (t = "") || bool_decide (t = "skip") then Some OverlapPolicySkip
  else if bool_decide (t = "all") then Some OverlapPolicyAll
  else if bool_decide (t = "latest") then Some OverlapPolicyLatest
  else None.

(** ** Normal forms *)

(** Bytes of a field: not empty, no white space. *)
Definition is_field (s : string) : Prop := s ≠ "" ∧ string_forallb (λ c, negb (is_space c)) s = true.

Lemma string_forallb_app f (s t : string) :
  string_forallb f (s ++ t)%string = string_forallb f s && string_forallb f t.
Proof.
  induction s as [|c s IH]; [done|]. change (string_forallb f (String c (s ++ t)%string) = f c && string_forallb f s && string_forallb f t).
  simpl. by rewrite IH, andb_assoc.
Qed.

Lemma fields_from_fields cur s :
  string_forallb (λ c, negb (is_space c)) cur = true → Forall is_field (fields_from cur s).
Proof.
  assert (∀ cur l, string_forallb (λ c, negb (is_space c)) cur = true → Forall is_field l →
    Forall is_field (if String.eqb cur "" then l else cur :: l)) as Hemit.
  { intros c l Hc Hl. destruct (String.eqb_spec c ""); [done|]. by constructor. }
  revert cur. induction s as [|c s IH]; intros cur Hcur; simpl; [by apply Hemit|].
  destruct (is_space c) eqn:Hc; [by apply Hemit, IH|].
  apply IH. rewrite string_forallb_app, Hcur. simpl. by rewrite Hc.
Qed.

Lemma fields_from_word cur w s :
  string_forallb (λ c, negb (is_space c)) w = true →
  fields_from cur (w ++ s)%string = fields_from (cur ++ w)%string s.
Proof.
  revert cur. induction w as [|c w IH]; intros cur; [by rewrite app_nil_string|].
  intros [Hc Hw]%andb_true_iff.
  change (fields_from cur (String c (w ++ s)%string) = fields_from (cur ++ String c w)%string s).
  simpl. apply negb_true_iff in Hc. rewrite Hc, IH by done.
  by rewrite <-app_assoc_string.
Qed.

Lemma fields_emit cur l : cur ≠ "" → (if String.eqb cur "" then l else cur :: l) = cur :: l.
Proof. intros H. by destruct (String.eqb_spec cur ""). Qed.

Lemma Fields_Join l : Forall is_field l → Fields (Join l " ") = l.
Proof.
  unfold Fields. induction 1 as [|x l [Hx Hf] Hl IH]; [done|].
  destruct l as [|y l].
  - simpl. rewrite <-(app_nil_string x) at 1. rewrite fields_from_word by done. simpl.
    by apply fields_emit.
  - change (fields_from "" (x ++ String " " (Join (y :: l) " "))%string = x :: y :: l).
    rewrite fields_from_word by done. cbn [fields_from]. change (is_space " ") with true. cbv iota.
    rewrite IH. by apply fields_emit.
Qed.

Lemma Fields_normalize expr : Fields (Join (Fields expr) " ") = Fields expr.
Proof. apply Fields_Join. by apply fields_from_fields. Qed.

(** The offset of the timestamp is less than 25 hours. *)
Definition plain_offset (at_ : string) : bool :=
  match zone_minutes at_ with Some z => (Z.abs z <? 1500)%Z | None => true end.

Lemma num_at_bounds s i w : 0 <= num_at s i w.
Proof.
  unfold num_at. generalize (String.substring i w s) as t. intros t.
  assert (∀ acc z, 0 <= acc → parse_digits acc t = Some z → 0 <= z) as Hp.
  { induction t as [|c t IH]; intros acc z Hacc; simpl; [by intros [= ->]|].
    destruct (is_digit c) eqn:Hc; [|done]. apply IH. unfold is_digit, digit_value in *.
    apply andb_true_iff in Hc as [Hc%Nat.leb_le _]. lia. }
  destruct (parse_digits 0 t) eqn:E; simpl; [by eapply Hp|lia].
Qed.

Lemma parse_digits_upper acc s z :
  parse_digits acc s = Some z → 0 <= acc → z < (acc + 1) * 10 ^ Z.of_nat (String.length s).
Proof.
  revert acc. induction s as [|c s IH]; intros acc; cbn [parse_digits String.length]; [intros [= ->]; lia|].
  destruct (is_digit c) eqn:Hc; [|done]. intros Hz Hacc. unfold is_digit, digit_value in *.
  apply andb_true_iff in Hc as [Hc1%Nat.leb_le Hc2%Nat.leb_le].
  specialize (IH _ Hz ltac:(lia)). rewrite Nat2Z.inj_succ, Z.pow_succ_r by lia.
  pose proof (Z.pow_pos_nonneg 10 (Z.of_nat (String.length s))). nia.
Qed.

Lemma num_at_upper s i w : num_at s i w < 10 ^ Z.of_nat w.
Proof.
  unfold num_at. destruct (parse_digits 0 _) eqn:E; cbn [default]; [|by apply Z.pow_pos_nonneg; lia].
  apply parse_digits_upper in E; [|done].
  assert (10 ^ Z.of_nat (String.length (String.substring i w s)) <= 10 ^ Z.of_nat w); [|simpl; lia].
  apply Z.pow_le_mono_r; [lia|]. pose proof (length_substring i w s). lia.
Qed.

(** The canonical text of a one-off timestamp denotes the same instant and is
    its own canonical text. *)
Lemma parseOneOffTime_normal raw t c :
  plain_offset raw = true → parseOneOffTime raw = Some (t, c) → parseOneOffTime c = Some (t, c).
Proof.
  unfold plain_offset, parseOneOffTime at 1. intros Hz.
  destruct (rfc3339MinuteOffset raw); cbn [negb]; [|done].
  pose proof (num_at_bounds raw) as Hlo. pose proof (num_at_upper raw) as Hhi.
  destruct (_ && (num_at raw 14 2 <=? 59)) eqn:Hr; [|done]. breflect.
  destruct (zone_minutes raw) as [zone|]; [simpl|done]. breflect. intros [= <- <-].
  by apply parse_format_oneoff; auto; try lia.
Qed.

Section NormalForm.
Context `{CronParser}.

Lemma NewCronSchedule_normal expr s :
  NewCronSchedule expr = inr s → NewCronSchedule (sc_Expression s) = inr s.
Proof.
  unfold NewCronSchedule, parseCronExpression. intros Hs.
  destruct (bool_decide (Join (Fields expr) " " = "")) eqn:He; [done|].
  destruct (cron_Parse (Join (Fields expr) " ")) eqn:Hp; [|done].
  injection Hs as <-. cbn [sc_Expression]. by rewrite Fields_normalize, He, Hp.
Qed.

(** Normalizing a schedule made by [ParseScheduleValue]'s constructors gives
    the same schedule again, so the durable state of a schedule is found again
    under its fingerprint after the DAG is reloaded: cron expressions always,
    one-off timestamps when their offset is below 25 hours. *)
Theorem normalizeSchedule_stable (raw : string) (s : Schedule)
    (Hnew : NewCronSchedule raw = inr s ∨ NewOneOffSchedule raw = inr s ∧ plain_offset raw = true) :
  normalizeSchedule s = inr s ∧
  Fingerprint s = (if IsOneOff s then "at:" ++ sc_At s else "cron:" ++ sc_Expression s)%string ∧
  IsOneOff s = negb (IsCron s).
Proof.
  assert (normalizeSchedule s = inr s ∧
    (sc_Kind s = ScheduleKindCron ∨ sc_Kind s = ScheduleKindAt)) as [Hn Hk].
  { destruct Hnew as [Hs|[Hs Hz]].
    - pose proof (NewCronSchedule_normal raw s Hs) as Hn.
      assert (sc_Kind s = ScheduleKindCron) as Hk.
      { unfold NewCronSchedule in Hs. by destruct (parseCronExpression raw) as [|[??]]; simplify_eq. }
      split; [|by left]. unfold normalizeSchedule, GetKind. by rewrite Hk.
    - unfold NewOneOffSchedule in Hs. destruct (parseOneOffTime raw) as [[t c]|] eqn:Hp; [|done].
      injection Hs as <-. split; [|by right].
      unfold normalizeSchedule, NewOneOffSchedule; simpl. by rewrite (parseOneOffTime_normal raw t c). }
  split; [done|]. unfold Fingerprint. rewrite Hn. unfold IsOneOff, IsCron, GetKind.
  by destruct Hk as [-> | ->].
Qed.
End NormalForm.

(** An offset of 24 hours and 60 minutes is accepted, but its canonical text
    is not: the schedule has no fingerprint. *)
Example odd_offset_has_no_fingerprint `{CronParser} :
  ∃ s, NewOneOffSchedule "2026-03-29T02:10:00+24:60" = inr s ∧ IsOneOff s = true ∧ Fingerprint s = "".
Proof. eexists. split; [vm_compute; reflexivity|]. by vm_compute. Qed.
