(* ===== verification/RunStatus.v ===== *)
(** * DAGs, runs and their persisted status (core/dag.go, core/dispatch.go,
    core/exec/dagrun.go, exec/node.go, exec/runstatus.go)

    The fields of a DAG the scheduler, the queue and the stores read, references
    to runs, and the status record that is written to the history of a run.  The
    times of a status are the texts of the status file.  DAGs carry their labels
    in printed form.

    FNV-1a ([hash/fnv]) and hexadecimal output are written out: the key of an
    attempt is computed with them. *)

From stdpp Require Import base strings list gmap.
From Stdlib Require Import ZArith QArith Lia Ascii.
From S2P Require Import Prelude Status Step Exec Node GoStrings Schedule.

Open Scope Z_scope.

(** ** core.DAG *)
Record DAGRetryPolicy := mkDAGRetryPolicy {
  drp_Limit : Z;
  drp_Interval : Duration;
  drp_Backoff : Q;
  drp_MaxInterval : Duration;
}.

Record HandlerOn := mkHandlerOn {
  ho_Init : option Step;
  ho_Failure : option Step;
  ho_Success : option Step;
  ho_Abort : option Step;
  ho_Exit : option Step;
  ho_Wait : option Step;
}.

Definition HandlerOn_zero : HandlerOn := mkHandlerOn None None None None None None.

Record DAG := mkDAG {
  dag_Name : string;
  dag_Location : string;
  dag_Schedule : list Schedule;
  dag_StopSchedule : list Schedule;
  dag_RestartSchedule : list Schedule;
  dag_SkipIfSuccessful : bool;
  dag_CatchupWindow : Duration;
  dag_OverlapPolicy : string;
  dag_Labels : list string;
  dag_Params : list string;
  dag_Steps : list Step;
  dag_HandlerOn : HandlerOn;
  dag_Preconditions : list Condition;
  dag_Queue : string;
  dag_RetryPolicy : option DAGRetryPolicy;
  dag_WorkerSelector : list (string * string);
  dag_ForceLocal : bool;
}.

(** A DAG with a name, a file and schedules only. *)
Definition plain_dag (name location : string) (start stop restart : list Schedule) (window : Duration)
    (overlap : string) : DAG :=
  mkDAG name location start stop restart false window overlap [] [] [] HandlerOn_zero [] "" None [] false.

Definition SuspendFlagName (d : DAG) : string :=
  let base := TrimSuffix (Base (dag_Location d)) (Ext (dag_Location d)) in
  if bool_decide (base ≠ "") && bool_decide (base ≠ ".") then base else dag_Name d.

Definition ProcGroup (d : DAG) : string :=
  if bool_decide (dag_Queue d ≠ "") then dag_Queue d else dag_Name d.

Definition ExecutionModeDistributed : string := "distributed".

Definition ShouldDispatchToCoordinator (dag : DAG) (hasCoordinator : bool) (defaultMode : string) : bool :=
  if dag_ForceLocal dag then false
  else if negb hasCoordinator then false
  else if bool_decide (dag_WorkerSelector dag ≠ []) then true
  else bool_decide (defaultMode = ExecutionModeDistributed).

(** ** References to runs *)
Record DAGRunRef := mkDAGRunRef { ref_Name : string; ref_ID : string }.

#[export] Instance DAGRunRef_eq_dec : EqDecision DAGRunRef.
Proof. solve_decision. Defined.

#[export] Instance DAGRunRef_countable : Countable DAGRunRef.
Proof.
  refine (inj_countable' (λ r, (ref_Name r, ref_ID r)) (λ p, mkDAGRunRef p.1 p.2) _). by intros [].
Defined.

Definition zeroRef : DAGRunRef := mkDAGRunRef "" "".
Definition Zero (r : DAGRunRef) : bool := bool_decide (r = zeroRef).

Definition colon : ascii := ":"%char.
Definition DAGRunRef_String (r : DAGRunRef) : string := ref_Name r ++ ":" ++ ref_ID r.

Definition ParseDAGRunRef (s : string) : option DAGRunRef :=
  match Cut colon s with
  | (name, id, true) => Some (mkDAGRunRef name id)
  | (_, _, false) => None
  end.

(** [fnv.New64a]: offset basis and prime of the 64-bit FNV-1a hash. *)
Definition fnv64_offset : Z := 14695981039346656037.
Definition fnv64_prime : Z := 1099511628211.

Fixpoint fnv64a (h : Z) (s : string) : Z :=
  match s with
  | EmptyString => h
  | String c s' => fnv64a ((Z.lxor h (Z.of_nat (nat_of_ascii c)) * fnv64_prime) mod 2 ^ 64) s'
  end.

Definition hex_digit (d : Z) : ascii :=
  ascii_of_nat (Z.to_nat (if d <? 10 then 48 + d else 87 + d)).

Fixpoint hex (w : nat) (z : Z) : string :=
  match w with
  | O => EmptyString
  | S w' => hex w' (z / 16) ++ String (hex_digit (z mod 16)) EmptyString
  end.

Definition nul : string := String (ascii_of_nat 0) EmptyString.

Definition GenerateAttemptKey (rootName rootID dagName dagRunID attemptID : string) : string :=
  hex 16 (fnv64a fnv64_offset (rootName ++ nul ++ rootID ++ nul ++ dagName ++ nul ++ dagRunID)) ++ ":" ++ attemptID.

(** ** exec.Node: the persisted state of a step *)
Record ExecNode := mkExecNode {
  en_Step : Step;
  en_Stdout : string;
  en_Stderr : string;
  en_StartedAt : string;
  en_FinishedAt : string;
  en_Status : NodeStatus;
  en_RetriedAt : string;
  en_RetryCount : Z;
  en_DoneCount : Z;
  en_Repeated : bool;
  en_SkippedByRetry : bool;
  en_Error : string;
  en_SubRuns : list SubDAGRun;
  en_SubRunsRepeated : list SubDAGRun;
  en_OutputVariables : option (gmap string string);
  en_OutputValue : option string;
  en_ApprovedAt : string;
  en_ApprovalInputs : option (gmap string string);
  en_ApprovedBy : string;
  en_RejectedAt : string;
  en_RejectedBy : string;
  en_RejectionReason : string;
  en_ApprovalIteration : Z;
  en_PushBackInputs : option (gmap string string);
  en_PushBackHistory : list PushBackEntry;
  en_PushBackPreviousStdout : string;
  en_ChatMessages : list LLMMessage;
  en_ToolDefinitions : list ToolDefinition;
}.

Definition NewNodeFromStep (step : Step) : ExecNode := {|
  en_Step := step; en_Stdout := ""; en_Stderr := ""; en_StartedAt := "-"; en_FinishedAt := "-";
  en_Status := NodeNotStarted; en_RetriedAt := ""; en_RetryCount := 0; en_DoneCount := 0;
  en_Repeated := false; en_SkippedByRetry := false; en_Error := ""; en_SubRuns := [];
  en_SubRunsRepeated := []; en_OutputVariables := None; en_OutputValue := None; en_ApprovedAt := "";
  en_ApprovalInputs := None; en_ApprovedBy := ""; en_RejectedAt := ""; en_RejectedBy := "";
  en_RejectionReason := ""; en_ApprovalIteration := 0; en_PushBackInputs := None; en_PushBackHistory := [];
  en_PushBackPreviousStdout := ""; en_ChatMessages := []; en_ToolDefinitions := [];
|}.

Definition NewNodesFromSteps (steps : list Step) : list ExecNode := map NewNodeFromStep steps.
Definition NewNodeOrNil (s : option Step) : option ExecNode := option_map NewNodeFromStep s.

(** ** exec.DAGRunStatus *)
Record PendingStepRetry := mkPendingStepRetry { psr_StepName : string; psr_Interval : Duration }.

Record DAGRunStatus := mkDAGRunStatus {
  rs_Root : DAGRunRef;
  rs_Parent : DAGRunRef;
  rs_Name : string;
  rs_DAGRunID : string;
  rs_AttemptID : string;
  rs_AttemptKey : string;
  rs_Status : Status;
  rs_TriggerType : TriggerType;
  rs_WorkerID : string;
  rs_PID : Z;
  rs_Nodes : list ExecNode;
  rs_OnInit : option ExecNode;
  rs_OnExit : option ExecNode;
  rs_OnSuccess : option ExecNode;
  rs_OnFailure : option ExecNode;
  rs_OnAbort : option ExecNode;
  rs_OnWait : option ExecNode;
  rs_CreatedAt : Z;
  rs_QueuedAt : string;
  rs_ScheduleTime : string;
  rs_StartedAt : string;
  rs_FinishedAt : string;
  rs_AutoRetryCount : Z;
  rs_AutoRetryLimit : Z;
  rs_AutoRetryInterval : Duration;
  rs_AutoRetryBackoff : Q;
  rs_AutoRetryMaxInterval : Duration;
  rs_ProcGroup : string;
  rs_SuspendFlagName : string;
  rs_Log : string;
  rs_ArchiveDir : string;
  rs_Error : string;
  rs_Params : string;
  rs_ParamsList : list string;
  rs_PendingStepRetries : option (list PendingStepRetry);
  rs_Preconditions : list Condition;
  rs_Labels : list string;
  rs_LeaseAt : Z;
}.

(** The zero value. *)
Definition DAGRunStatus_zero : DAGRunStatus := {|
  rs_Root := zeroRef; rs_Parent := zeroRef; rs_Name := ""; rs_DAGRunID := ""; rs_AttemptID := "";
  rs_AttemptKey := ""; rs_Status := NotStarted; rs_TriggerType := TriggerTypeUnknown; rs_WorkerID := "";
  rs_PID := 0; rs_Nodes := []; rs_OnInit := None; rs_OnExit := None; rs_OnSuccess := None;
  rs_OnFailure := None; rs_OnAbort := None; rs_OnWait := None; rs_CreatedAt := 0; rs_QueuedAt := "";
  rs_ScheduleTime := ""; rs_StartedAt := ""; rs_FinishedAt := ""; rs_AutoRetryCount := 0;
  rs_AutoRetryLimit := 0; rs_AutoRetryInterval := 0; rs_AutoRetryBackoff := 0%Q;
  rs_AutoRetryMaxInterval := 0; rs_ProcGroup := ""; rs_SuspendFlagName := ""; rs_Log := "";
  rs_ArchiveDir := ""; rs_Error := ""; rs_Params := ""; rs_ParamsList := [];
  rs_PendingStepRetries := None; rs_Preconditions := []; rs_Labels := []; rs_LeaseAt := 0;
|}.

(** [InitialStatus] of a DAG at an instant given in Unix milliseconds.  The zero
    times are printed as the empty text. *)
Definition InitialStatus (dag : DAG) (nowMilli : Z) : DAGRunStatus :=
  let rp := default (mkDAGRetryPolicy 0 0 0%Q 0) (dag_RetryPolicy dag) in
  let h := dag_HandlerOn dag in
  {| DAGRunStatus_zero with
     rs_Name := dag_Name dag;
     rs_Status := NotStarted;
     rs_Nodes := NewNodesFromSteps (dag_Steps dag);
     rs_OnInit := NewNodeOrNil (ho_Init h);
     rs_OnExit := NewNodeOrNil (ho_Exit h);
     rs_OnSuccess := NewNodeOrNil (ho_Success h);
     rs_OnFailure := NewNodeOrNil (ho_Failure h);
     rs_OnAbort := NewNodeOrNil (ho_Abort h);
     rs_OnWait := NewNodeOrNil (ho_Wait h);
     rs_Params := Join (dag_Params dag) " ";
     rs_ParamsList := dag_Params dag;
     rs_AutoRetryCount := 0;
     rs_AutoRetryLimit := drp_Limit rp;
     rs_AutoRetryInterval := drp_Interval rp;
     rs_AutoRetryBackoff := drp_Backoff rp;
     rs_AutoRetryMaxInterval := drp_MaxInterval rp;
     rs_ProcGroup := ProcGroup dag;
     rs_SuspendFlagName := SuspendFlagName dag;
     rs_CreatedAt := nowMilli;
     rs_Preconditions := dag_Preconditions dag;
     rs_Labels := dag_Labels dag |}.

Definition status_DAGRun (st : DAGRunStatus) : DAGRunRef := mkDAGRunRef (rs_Name st) (rs_DAGRunID st).

Definition DefaultStaleLeaseThreshold : Duration := 30 * Second.

(** [time.UnixMilli] *)
Definition UnixMilli (ms : Z) : Time := 62135596800 * Second + ms * Millisecond.

Definition IsLeaseActive (now : Time) (status : option DAGRunStatus) (staleThreshold : Duration) : bool :=
  match status with
  | None => false
  | Some st =>
      if rs_LeaseAt st =? 0 then false
      else
        let staleThreshold := if staleThreshold <=? 0 then DefaultStaleLeaseThreshold else staleThreshold in
        Sub now (UnixMilli (rs_LeaseAt st)) <? staleThreshold
  end.

Definition canonicalAbortHandlerName : string := "onAbort".
Definition legacyAbortHandlerName : string := "onCancel".

Definition handlerNodes (st : DAGRunStatus) : list (string * option ExecNode) :=
  [("onInit", rs_OnInit st); ("onExit", rs_OnExit st); ("onSuccess", rs_OnSuccess st);
   ("onFailure", rs_OnFailure st); (canonicalAbortHandlerName, rs_OnAbort st); ("onWait", rs_OnWait st)].

Definition normalizeAbortHandlerLookup (name : string) : string :=
  if bool_decide (name = legacyAbortHandlerName) then canonicalAbortHandlerName else name.

(** The texts of the errors, without the error wrapping. *)
Definition Errors (st : DAGRunStatus) : list string :=
  (if bool_decide (rs_Error st ≠ "") then [rs_Error st] else []) ++
  omap (λ n, if bool_decide (en_Error n ≠ "")
             then Some ("node " ++ st_Name (en_Step n) ++ ": " ++ en_Error n)%string else None) (rs_Nodes st) ++
  omap (λ '(name, n), match n with
        | Some n => if bool_decide (en_Error n ≠ "") then Some (name ++ ": " ++ en_Error n)%string else None
        | None => None
        end) (handlerNodes st).

Definition NodeByName (st : DAGRunStatus) (name : string) : option ExecNode :=
  let name := normalizeAbortHandlerLookup name in
  match list_find (λ n, st_Name (en_Step n) = name) (rs_Nodes st) with
  | Some (_, n) => Some n
  | None =>
      head (omap (λ '(label, n), match n with
            | Some n => if bool_decide (label = name) || bool_decide (st_Name (en_Step n) = name)
                        then Some n else None
            | None => None
            end) (handlerNodes st))
  end.

Section Retries.
Context `{Float64}.

Definition pendingStepRetryForNode (stepName : string) (node : option ExecNode) : option PendingStepRetry :=
  match node with
  | None => None
  | Some n =>
      if bool_decide (en_Status n ≠ NodeRetrying) || bool_decide (stepName = "") then None
      else
        let rp := st_RetryPolicy (en_Step n) in
        Some (mkPendingStepRetry stepName
                (CalculateBackoffInterval (rp_Interval rp) (rp_Backoff rp) (rp_MaxInterval rp)
                   (en_RetryCount n - 1)))
  end.

Definition PendingStepRetriesFromNodes (nodes : list ExecNode) : list PendingStepRetry :=
  omap (λ n, pendingStepRetryForNode (st_Name (en_Step n)) (Some n)) nodes.

Definition PendingStepRetriesFromStatus (status : option DAGRunStatus) : list PendingStepRetry :=
  match status with
  | None => []
  | Some st =>
      match rs_PendingStepRetries st with
      | Some l => l
      | None =>
          PendingStepRetriesFromNodes (rs_Nodes st) ++
          omap (λ '(name, n),
            let stepName :=
              match n with
              | Some n => if bool_decide (st_Name (en_Step n) ≠ "") then st_Name (en_Step n) else name
              | None => name
              end in
            pendingStepRetryForNode stepName n) (handlerNodes st)
      end
  end.
End Retries.

(** ** Laws *)

(** A reference is read back from its text when the name has no colon. *)
Lemma ParseDAGRunRef_String r :
  contains_char colon (ref_Name r) = false → ParseDAGRunRef (DAGRunRef_String r) = Some r.
Proof.
  intros Hn. unfold ParseDAGRunRef, DAGRunRef_String.
  change (ref_Name r ++ ":" ++ ref_ID r)%string with (ref_Name r ++ String colon (ref_ID r))%string.
  rewrite (Cut_app colon (ref_Name r) (ref_ID r) Hn). by destruct r.
Qed.
