(* ===== verification/SchedulerData.v ===== *)
(** * Data of the scheduler service

    The schedule types (scheduler/schedule.go), the suspension check
    (scheduler/suspension.go) and the catch-up buffer
    (scheduler/schedule_buffer.go) with its laws. *)

From stdpp Require Import base strings list gmap.
From Stdlib Require Import ZArith Lia Ascii.
From S2P Require Import Prelude Status GoStrings GoDate Schedule RunStatus.

Open Scope Z_scope.

(** ** Schedule types *)
Inductive ScheduleType := ScheduleTypeStart | ScheduleTypeStop | ScheduleTypeRestart.

#[export] Instance ScheduleType_eq_dec : EqDecision ScheduleType.
Proof. solve_decision. Defined.

Definition ScheduleType_String (s : ScheduleType) : string :=
  match s with
  | ScheduleTypeStart => "Start"
  | ScheduleTypeStop => "Stop"
  | ScheduleTypeRestart => "Restart"
  end.

(** ** Suspension *)
Definition isSchedulerManagedTriggerType (t : TriggerType) : bool :=
  match t with
  | TriggerTypeScheduler | TriggerTypeCatchUp | TriggerTypeRetry => true
  | TriggerTypeUnknown | TriggerTypeManual | TriggerTypeWebhook | TriggerTypeSubDAG => false
  end.

Definition suspendFlagName (status : option DAGRunStatus) (dag : option DAG) : string :=
  let fallback := match status with Some st => rs_Name st | None => "" end in
  let of_dag :=
    match dag with
    | Some d => if bool_decide (SuspendFlagName d ≠ "") then SuspendFlagName d else fallback
    | None => fallback
    end in
  match status with
  | Some st => if bool_decide (rs_SuspendFlagName st ≠ "") then rs_SuspendFlagName st else of_dag
  | None => of_dag
  end.

Definition isSuspendedDAG (isSuspended : string → bool) (status : option DAGRunStatus)
    (dag : option DAG) : bool :=
  let name := suspendFlagName status dag in
  if bool_decide (name = "") then false else isSuspended name.

(** ** The catch-up buffer *)
Definition DefaultMaxBufferItems : Z := 1000.

Record QueueItem := mkQueueItem {
  qi_DAG : DAG;
  qi_ScheduledTime : Time;
  qi_TriggerType : TriggerType;
  qi_ScheduleType : ScheduleType;
}.

Record ScheduleBuffer := mkScheduleBuffer {
  sb_items : list QueueItem;
  sb_overlapPolicy : string;
  sb_dagName : string;
  sb_maxItems : Z;
}.

Definition NewScheduleBuffer (dagName policy : string) : ScheduleBuffer :=
  mkScheduleBuffer [] policy dagName DefaultMaxBufferItems.

Definition Len (q : ScheduleBuffer) : Z := Z.of_nat (length (sb_items q)).

Definition buffer_full (q : ScheduleBuffer) : bool :=
  (0 <? sb_maxItems q) && (sb_maxItems q <=? Len q).

Definition Send (item : QueueItem) (q : ScheduleBuffer) : bool * ScheduleBuffer :=
  if buffer_full q then (false, q) else (true, {| q with sb_items := sb_items q ++ [item] |}).

Definition Peek (q : ScheduleBuffer) : option QueueItem := head (sb_items q).

Definition Pop (q : ScheduleBuffer) : option QueueItem * ScheduleBuffer :=
  match sb_items q with
  | [] => (None, q)
  | item :: rest => (Some item, {| q with sb_items := rest |})
  end.

Definition DropAllButLast (q : ScheduleBuffer) : list QueueItem * ScheduleBuffer :=
  match last (sb_items q) with
  | Some l =>
      if (Len q <=? 1) then ([], q)
      else (take (length (sb_items q) - 1) (sb_items q), {| q with sb_items := [l] |})
  | None => ([], q)
  end.

Definition Prepend (item : QueueItem) (q : ScheduleBuffer) : bool * ScheduleBuffer :=
  if buffer_full q then (false, q) else (true, {| q with sb_items := item :: sb_items q |}).

(** [for _, t := range missed { if !q.Send(...) { break } }] *)
Fixpoint SendAll (items : list QueueItem) (q : ScheduleBuffer) : ScheduleBuffer :=
  match items with
  | [] => q
  | it :: rest => let '(ok, q) := Send it q in if ok then SendAll rest q else q
  end.

(** ** Laws *)
Lemma DropAllButLast_eq q l rest :
  sb_items q = rest ++ [l] →
  DropAllButLast q = (rest, {| q with sb_items := [l] |}).
Proof.
  intros Hq. unfold DropAllButLast, Len. rewrite Hq, last_snoc, length_app. simpl.
  destruct (_ <=? 1) eqn:E; breflect.
  - destruct rest; [|simpl in E; lia]. simpl. destruct q; simpl in *. by subst.
  - replace (length rest + 1 - 1)%nat with (length rest + 0)%nat by lia.
    by rewrite take_app_add', app_nil_r.
Qed.

Lemma DropAllButLast_nil q : sb_items q = [] → DropAllButLast q = ([], q).
Proof. unfold DropAllButLast. by intros ->. Qed.

Lemma SendAll_items items q :
  0 < sb_maxItems q → Len q + Z.of_nat (length items) <= sb_maxItems q →
  SendAll items q = {| q with sb_items := sb_items q ++ items |}.
Proof.
  revert q. induction items as [|it items IH]; intros q Hmax Hlen; simpl.
  - rewrite app_nil_r. by destruct q.
  - simpl in Hlen. unfold Send, buffer_full.
    destruct (_ && _) eqn:E; [breflect; lia|].
    rewrite IH by (unfold Len in *; simpl; rewrite ?length_app; simpl; lia). simpl.
    by rewrite <-app_assoc.
Qed.
