(* ===== verification/Catchup.v ===== *)
(** * Missed intervals and run identifiers (scheduler/catchup.go, catchup_runid.go)

    [ComputeMissedIntervals] walks each cron schedule from the replay bound
    to now.  Its loop runs on fuel: the fire times of a standard cron
    expression are whole minutes, so the minutes of the window bound the
    iterations ([missed_loop_collects] shows they are enough).

    The contract of the cron library on a window is [cron_ok_on]: [Next]
    returns a later whole minute, the same one for every instant before it. *)

From stdpp Require Import base strings list gmap sorting.
From Stdlib Require Import ZArith Lia Ascii.
From S2P Require Import Prelude Status GoStrings GoDate Schedule RunStatus SchedulerData.

Open Scope Z_scope.

(** ** Replay window *)
Definition ComputeReplayFrom (catchupWindow : Duration) (lastTick lastScheduledTime now : Time) : Time :=
  let earliest := AddD now (- catchupWindow) in
  let earliest := if After lastTick earliest then lastTick else earliest in
  if After lastScheduledTime earliest then lastScheduledTime else earliest.

Definition MaxMissedRuns : nat := 1000.

(** ** Missed intervals *)
Record Collected := mkCollected { c_seen : gset Time; c_result : list Time }.

Definition collect (t : Time) (c : Collected) : Collected :=
  if bool_decide (t ∈ c_seen c) then c
  else mkCollected ({[t]} ∪ c_seen c) (c_result c ++ [t]).

Fixpoint missed_loop (fuel : nat) (next : Time → Time) (replayTo t : Time) (c : Collected)
    : option Collected :=
  if After t replayTo then Some c
  else
    match fuel with
    | O => None
    | S fuel' =>
        let c := collect t c in
        let next_t := next t in
        if negb (After next_t t) then Some c else missed_loop fuel' next replayTo next_t c
    end.

Definition minutes_between (a b : Time) : nat := Z.to_nat ((b - a) / Minute + 1).

Fixpoint missed_schedules (schedules : list Schedule) (replayFrom replayTo : Time) (c : Collected)
    : option Collected :=
  match schedules with
  | [] => Some c
  | sched :: rest =>
      match sc_Parsed sched with
      | None => missed_schedules rest replayFrom replayTo c
      | Some next =>
          c ← missed_loop (minutes_between replayFrom replayTo) (next Local) replayTo
                (next Local replayFrom) c;
          missed_schedules rest replayFrom replayTo c
      end
  end.

Definition ComputeMissedIntervals (schedules : list Schedule) (replayFrom replayTo : Time)
    : option (list Time) :=
  c ← missed_schedules schedules replayFrom replayTo (mkCollected ∅ []);
  let result := merge_sort Z.le (c_result c) in
  Some (drop (length result - MaxMissedRuns) result).

(** ** Run identifiers

    [sha256_hex] is [hex.EncodeToString(sha256.Sum256(...))]. *)
Class Digest := { sha256_hex : string → string }.

Definition catchupPrefix : string := "catchup-".
Definition oneOffPrefix : string := "oneoff-".
Definition maxRunIDLen : nat := 64.
Definition hashLen : nat := 8.
Definition timestampLayoutLen : nat := 15. (* len("20060102T150405") *)

Definition is_alnum (c : ascii) : bool :=
  let n := nat_of_ascii c in
  ((48 <=? n) && (n <=? 57) || (65 <=? n) && (n <=? 90) || (97 <=? n) && (n <=? 122))%nat.

(** [a-zA-Z0-9_-], the alphabet of run identifiers, and with the dot that of
    DAG names. *)
Definition run_id_char (c : ascii) : bool := is_alnum c || Ascii.eqb c "_" || Ascii.eqb c "-".
Definition dag_name_char (c : ascii) : bool := run_id_char c || Ascii.eqb c ".".

(** [exec.ValidateDAGRunID] (internal/core/exec/dagrun.go): whether it returns nil. *)
Definition ValidateDAGRunID (dagRunID : string) : bool :=
  negb (bool_decide (dagRunID = "")) && string_forallb run_id_char dagRunID &&
  (String.length dagRunID <=? maxRunIDLen)%nat.

Definition sanitizeDagName (name : string) : string := ReplaceByte "." "_" name.

Section RunIDs.
Context `{Digest}.

Definition dagNameHash (name : string) : string := Take hashLen (sha256_hex name).

Definition generateScheduledRunID (prefix dagName hashSource : string) (scheduledTime : Time) : string :=
  let sanitized := sanitizeDagName dagName in
  let hash := dagNameHash hashSource in
  let ts := format_timestamp scheduledTime in
  let maxNameLen := (maxRunIDLen - String.length prefix - 1 - hashLen - 1 - timestampLayoutLen)%nat in
  let sanitized :=
    if (maxNameLen <? String.length sanitized)%nat then Take maxNameLen sanitized else sanitized in
  (prefix ++ sanitized ++ "-" ++ hash ++ "-" ++ ts)%string.

Definition GenerateCatchupRunID (dagName : string) (scheduledTime : Time) : string :=
  generateScheduledRunID catchupPrefix dagName dagName scheduledTime.

Definition GenerateOneOffRunID (dagName fingerprint : string) (scheduledTime : Time) : string :=
  generateScheduledRunID oneOffPrefix dagName (dagName ++ ":" ++ fingerprint) scheduledTime.
End RunIDs.

(** ** The contract of [Next] *)
Definition cron_ok_on (a b : Time) (next : Time → Time) : Prop :=
  ∀ t, a <= t <= b →
    t < next t ∧ next t mod Minute = 0 ∧ ∀ u, t <= u < next t → next u = next t.

(** [t] is a fire time. *)
Definition fires (next : Time → Time) (t : Time) : Prop := next (t - 1) = t.

#[export] Instance fires_dec next t : Decision (fires next t) := decide (next (t - 1) = t).

Section Contract.
Context (a b : Time) (next : Time → Time) (Hok : cron_ok_on a b next).

Lemma next_fires t : a <= t <= b → fires next (next t).
Proof. intros Ht. destruct (Hok t Ht) as (Hlt & _ & Hc). apply Hc. lia. Qed.

Lemma no_fire_between t u : a <= t <= b → t < u < next t → ¬ fires next u.
Proof. intros Ht Hu Hf. destruct (Hok t Ht) as (_ & _ & Hc). unfold fires in Hf. rewrite Hc in Hf; lia. Qed.

Lemma fires_aligned t : a < t <= b + 1 → fires next t → t mod Minute = 0.
Proof. intros Ht Hf. destruct (Hok (t - 1) ltac:(lia)) as (_ & Hm & _). by rewrite Hf in Hm. Qed.

Lemma next_least t u : a <= t <= b → t < u → fires next u → next t <= u.
Proof.
  intros Ht Hu Hf. destruct (decide (next t <= u)); [done|]. exfalso. apply (no_fire_between t u); auto. lia.
Qed.

(** Two fire times are at least a minute apart. *)
Lemma next_step t : a < t <= b → fires next t → t + Minute <= next t.
Proof.
  intros Ht Hf. pose proof (fires_aligned t ltac:(lia) Hf) as Ha.
  destruct (Hok t ltac:(lia)) as (Hlt & Hm & _). unfold Minute in *.
  Z.to_euclidean_division_equations. lia.
Qed.
End Contract.

(** ** The loop collects the fire times of the window *)
Record collected_ok (c : Collected) : Prop := {
  co_seen : ∀ t, t ∈ c_seen c ↔ t ∈ c_result c;
  co_nodup : NoDup (c_result c);
}.

Lemma collect_ok t c : collected_ok c →
  collected_ok (collect t c) ∧ ∀ u, u ∈ c_result (collect t c) ↔ u ∈ c_result c ∨ u = t.
Proof.
  intros [Hs Hn]. unfold collect. case_bool_decide as Ht.
  - split; [done|]. intros u. apply Hs in Ht. naive_solver.
  - rewrite Hs in Ht. split; [split; simpl|simpl].
    + set_solver.
    + apply NoDup_app. split_and!; [done| |apply NoDup_singleton]. set_solver.
    + set_solver.
Qed.

Section Collects.
Context (a b : Time) (next : Time → Time) (Hok : cron_ok_on a b next).

Lemma missed_loop_collects fuel t c :
  a < t → fires next t → (b - t) / Minute + 1 <= Z.of_nat fuel → collected_ok c →
  ∃ c', missed_loop fuel next b t c = Some c' ∧ collected_ok c' ∧
    ∀ u, u ∈ c_result c' ↔ u ∈ c_result c ∨ (t <= u <= b ∧ fires next u).
Proof.
  revert t c. induction fuel as [|fuel IH]; intros t c Ha Hf Hfuel Hc; simpl; unfold After.
  - destruct (b <? t) eqn:E; breflect.
    + exists c. split_and!; [done..|]. intros u. naive_solver lia.
    + pose proof (Z.div_pos (b - t) Minute ltac:(lia) ltac:(done)). lia.
  - destruct (b <? t) eqn:E; breflect; [exists c; split_and!; [done..|]; intros u; naive_solver lia|].
    destruct (collect_ok t c Hc) as [Hc' Hr].
    destruct (Hok t ltac:(lia)) as (Hlt & _). destruct (t <? next t) eqn:E2; [|breflect; lia]. simpl.
    pose proof (next_step a b next Hok t ltac:(lia) Hf) as Hstep.
    destruct (IH (next t) (collect t c)) as (c' & -> & Hok' & Hr'); [lia| |..|done|].
    { apply (next_fires a b next Hok). lia. }
    { assert ((b - next t) / Minute <= (b - t) / Minute - 1); [|lia].
      replace ((b - t) / Minute - 1) with ((b - t + (-1) * Minute) / Minute) by (rewrite Z.div_add; [lia|done]).
      apply Z.div_le_mono; [done|]. lia. }
    exists c'. split_and!; [done..|]. intros u. rewrite Hr', Hr.
    pose proof (next_least a b next Hok t u ltac:(lia)) as Hleast.
    split.
    + intros [[Hu | ->]|[Hu Hfu]]; [by left|right; split; [lia|done]|right; split; [lia|done]].
    + intros [Hu|[Hu Hfu]]; [by do 2 left|].
      destruct (decide (u = t)) as [->|]; [left; by right|].
      right. split; [|done]. split; [apply Hleast; [lia|done]|lia].
Qed.
End Collects.

(** A schedule of the list fires at [t]. *)
Definition some_fires (schedules : list Schedule) (t : Time) : Prop :=
  ∃ s p, s ∈ schedules ∧ sc_Parsed s = Some p ∧ fires (p Local) t.

Definition schedules_ok (schedules : list Schedule) (a b : Time) : Prop :=
  ∀ s p, s ∈ schedules → sc_Parsed s = Some p → cron_ok_on a b (p Local).

Lemma missed_schedules_collects schedules a b c :
  a <= b → schedules_ok schedules a b → collected_ok c →
  ∃ c', missed_schedules schedules a b c = Some c' ∧ collected_ok c' ∧
    ∀ u, u ∈ c_result c' ↔ u ∈ c_result c ∨ (a < u <= b ∧ some_fires schedules u).
Proof.
  intros Hab. revert c. induction schedules as [|s rest IH]; intros c Hok Hc; simpl.
  - exists c. split_and!; [done..|]. intros u. split; [by left|].
    intros [?|[_ (s & p & Hs & _)]]; [done|]. by apply not_elem_of_nil in Hs.
  - assert (schedules_ok rest a b) as Hrest by (intros s' p Hs'; apply Hok; by right).
    assert (∀ u, some_fires (s :: rest) u ↔
      (∃ p, sc_Parsed s = Some p ∧ fires (p Local) u) ∨ some_fires rest u) as Hsf.
    { intros u. unfold some_fires. setoid_rewrite elem_of_cons. naive_solver. }
    destruct (sc_Parsed s) as [p|] eqn:Hp.
    + pose proof (Hok s p ltac:(by left) Hp) as Hcron.
      destruct (Hcron a ltac:(lia)) as (Hlt & _).
      destruct (missed_loop_collects a b (p Local) Hcron (minutes_between a b) (p Local a) c)
        as (c1 & -> & Hc1 & Hr1); [lia| | |done|].
      { apply (next_fires a b (p Local) Hcron). lia. }
      { unfold minutes_between. pose proof (Z.div_pos (b - a) Minute ltac:(lia) ltac:(done)).
        rewrite Z2Nat.id by lia. pose proof (Z.div_le_mono (b - p Local a) (b - a) Minute ltac:(done)). lia. }
      simpl. destruct (IH c1 Hrest Hc1) as (c' & -> & Hc' & Hr').
      exists c'. split_and!; [done..|]. intros u. rewrite Hr', Hr1, Hsf.
      pose proof (next_least a b (p Local) Hcron a u ltac:(lia)) as Hleast. split.
      * intros [[?|[? ?]]|[? ?]]; [by left|right; split; [lia|left; by exists p]|right; split; [lia|by right]].
      * intros [?|[? [(p' & [= <-] & Hf)|?]]]; [by do 2 left| |by right].
        left. right. split; [|done]. split; [apply Hleast; [lia|done]|lia].
    + destruct (IH c Hrest Hc) as (c' & -> & Hc' & Hr'). exists c'. split_and!; [done..|].
      intros u. rewrite Hr', Hsf. naive_solver.
Qed.

(** [ComputeMissedIntervals] terminates and returns the fire times of the
    schedules after [replayFrom] and up to [replayTo], each once and in
    chronological order, or the latest 1000 of them. *)
Theorem ComputeMissedIntervals_correct schedules replayFrom replayTo
    (Hwin : replayFrom <= replayTo) (Hok : schedules_ok schedules replayFrom replayTo) :
  ∃ all l, ComputeMissedIntervals schedules replayFrom replayTo = Some l ∧
    StronglySorted Z.lt all ∧
    (∀ t, t ∈ all ↔ replayFrom < t <= replayTo ∧ some_fires schedules t) ∧
    l = drop (length all - MaxMissedRuns) all ∧ (length l <= MaxMissedRuns)%nat.
Proof.
  destruct (missed_schedules_collects schedules replayFrom replayTo (mkCollected ∅ []) Hwin Hok)
    as (c & Hc & [_ Hn] & Hr).
  { split; simpl; [set_solver|constructor]. }
  unfold ComputeMissedIntervals. rewrite Hc. simpl.
  set (all := merge_sort Z.le (c_result c)).
  assert (all ≡ₚ c_result c) as Hperm by apply merge_sort_Permutation.
  exists all, (drop (length all - MaxMissedRuns) all). split_and!; [done| | |done|].
  - apply StronglySorted_lt; [by apply StronglySorted_merge_sort; apply _|by rewrite Hperm].
  - intros t. rewrite Hperm, Hr. simpl. set_solver.
  - rewrite length_drop. lia.
Qed.

(** ** Run identifiers are valid and determine their slot *)
Lemma string_forallb_substring f n m s :
  string_forallb f s = true → string_forallb f (String.substring n m s) = true.
Proof.
  revert n m. induction s as [|c s IH]; intros [|n] [|m]; simpl; try done.
  - intros [Hc Hs]%andb_true_iff. rewrite Hc. by apply IH.
  - intros [Hc Hs]%andb_true_iff. by apply IH.
  - intros [Hc Hs]%andb_true_iff. by apply IH.
Qed.

Lemma sanitize_chars name :
  string_forallb dag_name_char name = true → string_forallb run_id_char (sanitizeDagName name) = true.
Proof.
  induction name as [|c name IH]; simpl; [done|]. intros [Hc Hn]%andb_true_iff.
  apply andb_true_iff; split; [|by apply IH]. unfold dag_name_char in Hc.
  by destruct (Ascii.eqb c ".") eqn:E; [|rewrite orb_false_r in Hc].
Qed.

Lemma pad_chars w z : string_forallb run_id_char (pad w z) = true.
Proof.
  revert z. induction w as [|w IH]; intros z; [done|]. cbn [pad]. rewrite string_forallb_app, IH. cbn [string_forallb].
  pose proof (is_digit_char z) as H. unfold run_id_char, is_alnum, is_digit in *.
  apply andb_true_iff in H as [-> ->]. done.
Qed.

Lemma timestamp_chars t :
  four_digit_year t = true → string_forallb run_id_char (format_timestamp t) = true.
Proof.
  unfold four_digit_year, format_timestamp. destruct (civil_from_days _) as [[y m] d]. intros H.
  by rewrite (format_year_pad y H), !string_forallb_app, !pad_chars.
Qed.

Lemma length_Take n s : (String.length (Take n s) <= n)%nat.
Proof. apply length_substring. Qed.

Section RunIDLaws.
Context `{Digest}.
Context (Hhex : ∀ s, string_forallb is_alnum (sha256_hex s) = true).

Lemma hash_chars s : string_forallb run_id_char (dagNameHash s) = true.
Proof using Hhex.
  apply string_forallb_substring. specialize (Hhex s). revert Hhex.
  generalize (sha256_hex s) as t. intros t. induction t as [|c t IH]; cbn [string_forallb]; [done|].
  intros [Hc Ht]%andb_true_iff. rewrite IH by done. unfold run_id_char. by rewrite Hc.
Qed.

(** A generated run identifier is accepted by [ValidateDAGRunID] (at most 64
    bytes, all of the alphabet of run identifiers), and for one DAG and
    schedule it determines the second of its slot: two slots never share an
    identifier. *)
Theorem generateScheduledRunID_correct (prefix dagName hashSource : string) (t : Time)
    (Hprefix : prefix = catchupPrefix ∨ prefix = oneOffPrefix)
    (Hname : string_forallb dag_name_char dagName = true)
    (Hyear : four_digit_year t = true) :
  ValidateDAGRunID (generateScheduledRunID prefix dagName hashSource t) = true ∧
  ∀ t', four_digit_year t' = true →
    generateScheduledRunID prefix dagName hashSource t = generateScheduledRunID prefix dagName hashSource t' →
    t / Second = t' / Second.
Proof using Hhex.
  unfold generateScheduledRunID. cbv zeta. set (mx := (_ - timestampLayoutLen)%nat).
  set (name := if (_ <? _)%nat then _ else _).
  assert (String.length name <= mx)%nat as Hlen.
  { unfold name. destruct (_ <? _)%nat eqn:E; [apply length_Take|by apply Nat.ltb_ge in E]. }
  assert (string_forallb run_id_char name = true) as Hch.
  { pose proof (sanitize_chars _ Hname). unfold name.
    destruct (_ <? _)%nat; [by apply string_forallb_substring|done]. }
  split.
  - unfold ValidateDAGRunID. apply andb_true_iff; split; [apply andb_true_iff; split|].
    { by destruct Hprefix as [-> | ->]. }
    { rewrite !string_forallb_app, Hch, hash_chars, timestamp_chars by done.
      by destruct Hprefix as [-> | ->]. }
    apply Nat.leb_le. rewrite !length_app_string, length_format_timestamp by done.
    pose proof (length_Take hashLen (sha256_hex hashSource)) as Hh. fold (dagNameHash hashSource) in Hh.
    unfold mx, maxRunIDLen, hashLen, timestampLayoutLen in *.
    destruct Hprefix as [-> | ->]; simpl in *; lia.
  - intros t' Ht' Heq. apply app_string_inj_l in Heq as [_ Heq]; [|done].
    apply app_string_inj_l in Heq as [_ Heq]; [|done].
    apply (app_string_inj_l "-" "-") in Heq as [_ Heq]; [|done].
    apply app_string_inj_l in Heq as [_ Heq]; [|done].
    apply (app_string_inj_l "-" "-") in Heq as [_ Heq]; [|done].
    by apply format_timestamp_inj.
Qed.
End RunIDLaws.
