(* ===== verification/ScheduleState.v ===== *)
(** * Durable schedule state (scheduler/watermark.go, schedule_state.go)

    The watermarks the scheduler keeps per DAG, and how they are reconciled
    with the schedules of a DAG that was loaded or edited.  Maps the source
    copies before it changes them are values here. *)

From stdpp Require Import base strings list gmap sorting.
From Stdlib Require Import ZArith Lia Ascii.
From S2P Require Import Prelude Status GoStrings GoDate Schedule RunStatus SchedulerData.

Open Scope Z_scope.

(** ** Watermarks *)
Definition OneOffStatusPending : string := "pending".
Definition OneOffStatusConsumed : string := "consumed".

Record OneOffScheduleState := mkOneOff {
  oo_ScheduledTime : Time;
  oo_Status : string;
}.

Record DAGWatermark := mkDAGWatermark {
  wm_LastScheduledTime : Time;
  wm_StartScheduleFingerprint : string;
  wm_SkipSuccessResetAt : Time;
  wm_OneOffs : gmap string OneOffScheduleState;
}.

(** The zero value, which a lookup of a missing key yields. *)
Definition DAGWatermark_zero : DAGWatermark := mkDAGWatermark 0 "" 0 ∅.
Definition OneOff_zero : OneOffScheduleState := mkOneOff 0 "".

Definition SchedulerStateVersion : Z := 3.

Record SchedulerState := mkSchedulerState {
  ss_Version : Z;
  ss_LastTick : Time;
  ss_DAGs : gmap string DAGWatermark;
}.

Definition SchedulerState_new : SchedulerState := mkSchedulerState SchedulerStateVersion 0 ∅.

Definition cloneDAGWatermark (w : DAGWatermark) : DAGWatermark :=
  mkDAGWatermark (wm_LastScheduledTime w) (wm_StartScheduleFingerprint w)
    (wm_SkipSuccessResetAt w) (wm_OneOffs w).

Definition isZeroDAGWatermark (w : DAGWatermark) : bool :=
  IsZero (wm_LastScheduledTime w) && bool_decide (wm_StartScheduleFingerprint w = "") &&
  IsZero (wm_SkipSuccessResetAt w) && bool_decide (wm_OneOffs w = ∅).

Definition oneOffSchedules (dag : DAG) : list Schedule :=
  filter (λ s, IsOneOff s = true) (dag_Schedule dag).

Definition set_oneoffs (m : gmap string OneOffScheduleState) (w : DAGWatermark) : DAGWatermark :=
  {| w with wm_OneOffs := m |}.

Section State.
Context `{CronParser}.

(** ** One-off schedules *)

(** The loop state: the map, the active fingerprints, whether it changed. *)
Record Reconcile := mkReconcile {
  rc_OneOffs : gmap string OneOffScheduleState;
  rc_active : gset string;
  rc_changed : bool;
}.

Definition reconcile_schedule (now : Time) (r : Reconcile) (schedule : Schedule) : Reconcile :=
  let fingerprint := Fingerprint schedule in
  if bool_decide (fingerprint = "") then r
  else
    let r := {| r with rc_active := {[fingerprint]} ∪ rc_active r |} in
    match OneOffTime schedule with
    | None => r
    | Some scheduledTime =>
        match rc_OneOffs r !! fingerprint with
        | Some existing =>
            if IsZero (oo_ScheduledTime existing) then
              {| r with rc_OneOffs :=
                   <[fingerprint := {| existing with oo_ScheduledTime := scheduledTime |}]> (rc_OneOffs r);
                 rc_changed := true |}
            else r
        | None =>
            let status := if negb (Before scheduledTime now) then OneOffStatusPending
                          else OneOffStatusConsumed in
            {| r with rc_OneOffs := <[fingerprint := mkOneOff scheduledTime status]> (rc_OneOffs r);
               rc_changed := true |}
        end
    end.

Definition reconcileOneOffState (current : DAGWatermark) (dag : DAG) (now : Time)
    : DAGWatermark * bool :=
  let next := cloneDAGWatermark current in
  let r := foldl (reconcile_schedule now) (mkReconcile (wm_OneOffs next) ∅ false) (oneOffSchedules dag) in
  let kept := filter (λ kv, kv.1 ∈ rc_active r) (rc_OneOffs r) in
  let changed := rc_changed r || bool_decide (size kept ≠ size (rc_OneOffs r)) in
  (set_oneoffs kept next, changed).

(** ** Cron schedules *)
Definition startFingerprints (dag : DAG) : list string :=
  filter (λ f, f ≠ "") (Fingerprint <$> filter (λ s, IsCron s = true) (dag_Schedule dag)).

Definition startScheduleFingerprint (dag : DAG) : string :=
  match startFingerprints dag with
  | [] => ""
  | fps => ("skip:" ++ (if dag_SkipIfSuccessful dag then "true" else "false") ++ "|" ++
            Join (SortStrings fps) ",")%string
  end.

Definition reconcileStartScheduleState (current : DAGWatermark) (dag : DAG) (observedAt : Time)
    : DAGWatermark * bool :=
  let next := cloneDAGWatermark current in
  let fingerprint := startScheduleFingerprint dag in
  if bool_decide (wm_StartScheduleFingerprint next = fingerprint) then (next, false)
  else if bool_decide (fingerprint = "") then
    if bool_decide (wm_StartScheduleFingerprint next = "") && IsZero (wm_SkipSuccessResetAt next)
    then (next, false)
    else ({| next with wm_StartScheduleFingerprint := ""; wm_SkipSuccessResetAt := 0 |}, true)
  else if bool_decide (wm_StartScheduleFingerprint next = "") then
    ({| next with wm_StartScheduleFingerprint := fingerprint |}, true)
  else
    ({| next with wm_StartScheduleFingerprint := fingerprint; wm_SkipSuccessResetAt := observedAt |}, true).

(** ** The next run shown to users *)
Definition next_candidate (dagState : DAGWatermark) (now : Time) (schedule : Schedule) : Time :=
  if IsCron schedule then Schedule_Next schedule now
  else if IsOneOff schedule then
    match wm_OneOffs dagState !! Fingerprint schedule with
    | Some oneOff =>
        if bool_decide (oo_Status oneOff ≠ OneOffStatusPending) then 0 (* continue *)
        else oo_ScheduledTime oneOff
    | None => Schedule_Next schedule now
    end
  else 0.

Definition next_step_min (next candidate : Time) : Time :=
  if IsZero candidate then next
  else if IsZero next || Before candidate next then candidate else next.

Definition NextPlannedRun (dag : DAG) (now : Time) (state : option SchedulerState) : Time :=
  let dagState :=
    match state with
    | Some st => default DAGWatermark_zero (ss_DAGs st !! dag_Name dag)
    | None => DAGWatermark_zero
    end in
  foldl (λ next s, next_step_min next (next_candidate dagState now s)) 0 (dag_Schedule dag).
End State.

(** ** Reconciling one-off schedules *)
Section ReconcileLaws.
Context `{CronParser}.

(** What the loop does to the entry of one fingerprint. *)
Definition entry_step (now : Time) (fp : string) (e : option OneOffScheduleState) (s : Schedule)
    : option OneOffScheduleState :=
  if bool_decide (Fingerprint s = fp) then
    match OneOffTime s with
    | None => e
    | Some t =>
        match e with
        | Some ex => if IsZero (oo_ScheduledTime ex) then Some {| ex with oo_ScheduledTime := t |} else e
        | None => Some (mkOneOff t (if Before t now then OneOffStatusConsumed else OneOffStatusPending))
        end
    end
  else e.

Lemma reconcile_lookup now fp l r :
  fp ≠ "" →
  rc_OneOffs (foldl (reconcile_schedule now) r l) !! fp = foldl (entry_step now fp) (rc_OneOffs r !! fp) l.
Proof.
  intros Hfp. revert r. induction l as [|s l IH]; intros r; [done|]. simpl. rewrite IH. f_equal.
  unfold reconcile_schedule, entry_step.
  case_bool_decide as He; case_bool_decide as Hs; [congruence|done| |].
  - subst fp. simpl. destruct (OneOffTime s) as [t|]; [|done].
    destruct (rc_OneOffs r !! Fingerprint s) as [ex|] eqn:Hex.
    + destruct (IsZero _); simpl; [by rewrite lookup_insert_eq|done].
    + simpl. rewrite lookup_insert_eq. by destruct (Before t now).
  - simpl. destruct (OneOffTime s) as [t|]; [|done].
    destruct (rc_OneOffs r !! Fingerprint s) as [ex|].
    + destruct (IsZero _); simpl; [by rewrite lookup_insert_ne|done].
    + simpl. by rewrite lookup_insert_ne.
Qed.

Lemma reconcile_active now l r fp :
  fp ∈ rc_active (foldl (reconcile_schedule now) r l) ↔
  fp ∈ rc_active r ∨ fp ≠ "" ∧ ∃ s, s ∈ l ∧ Fingerprint s = fp.
Proof.
  revert r. induction l as [|s l IH]; intros r; simpl; [set_solver|]. rewrite IH.
  assert (rc_active (reconcile_schedule now r s) =
    if bool_decide (Fingerprint s = "") then rc_active r else {[Fingerprint s]} ∪ rc_active r) as ->.
  { unfold reconcile_schedule. case_bool_decide; [done|]. simpl. by repeat (case_match; simpl). }
  setoid_rewrite elem_of_cons. case_bool_decide; set_solver.
Qed.

(** A step that leaves [changed] alone leaves the map alone. *)
Lemma reconcile_unchanged now l r :
  rc_changed (foldl (reconcile_schedule now) r l) = false →
  rc_changed r = false ∧ rc_OneOffs (foldl (reconcile_schedule now) r l) = rc_OneOffs r.
Proof.
  revert r. induction l as [|s l IH]; intros r; [done|]. simpl. intros Hc.
  destruct (IH _ Hc) as [Hr Hm]. rewrite Hm. revert Hr. clear.
  unfold reconcile_schedule. case_bool_decide; [done|]. simpl.
  destruct (OneOffTime s); [|done]. destruct (rc_OneOffs r !! _); [|done]. by destruct (IsZero _).
Qed.

Definition timed (l : list Schedule) : Prop := ∀ s t, s ∈ l → OneOffTime s = Some t → t ≠ 0.

(** An entry that has its time is final. *)
Lemma entry_final now fp l ex :
  oo_ScheduledTime ex ≠ 0 → foldl (entry_step now fp) (Some ex) l = Some ex.
Proof.
  intros Hz. induction l as [|s l IH]; [done|]. simpl. rewrite <-IH at 2. f_equal. unfold entry_step.
  case_bool_decide; [|done]. destruct (OneOffTime s); [|done].
  unfold IsZero. by destruct (Z.eqb_spec (oo_ScheduledTime ex) 0).
Qed.

Lemma entry_existing now fp l ex :
  ∃ ex', foldl (entry_step now fp) (Some ex) l = Some ex' ∧ oo_Status ex' = oo_Status ex.
Proof.
  revert ex. induction l as [|s l IH]; intros ex; simpl; [by exists ex|]. unfold entry_step at 2.
  case_bool_decide; [|apply IH]. destruct (OneOffTime s) as [t|]; [|apply IH].
  destruct (IsZero _); [|apply IH]. destruct (IH {| ex with oo_ScheduledTime := t |}) as (e & -> & He). by exists e.
Qed.

Lemma entry_timed now fp l e s t :
  timed l → s ∈ l → Fingerprint s = fp → OneOffTime s = Some t →
  ∃ ex, foldl (entry_step now fp) e l = Some ex ∧ oo_ScheduledTime ex ≠ 0.
Proof.
  intros Ht Hs Hfp Hot. revert e. induction l as [|x l IH]; intros e; [by apply not_elem_of_nil in Hs|].
  simpl. assert (timed l) as Htl by (intros y u Hy; apply Ht; by right).
  apply elem_of_cons in Hs as [<-|Hs]; [|by apply IH].
  assert (t ≠ 0) as Hnz by (eapply Ht; [by left|done]).
  unfold entry_step at 2. rewrite bool_decide_true, Hot by done.
  destruct e as [ex|].
  - unfold IsZero. destruct (Z.eqb_spec (oo_ScheduledTime ex) 0); [|by exists ex; rewrite entry_final].
    eexists. by rewrite entry_final.
  - eexists. by rewrite entry_final.
Qed.

Lemma entry_new now fp l :
  timed l →
  (∀ s, s ∈ l → Fingerprint s = fp → OneOffTime s = None) ∧
    foldl (entry_step now fp) None l = None ∨
  ∃ s t, s ∈ l ∧ Fingerprint s = fp ∧ OneOffTime s = Some t ∧
    foldl (entry_step now fp) None l =
      Some (mkOneOff t (if Before t now then OneOffStatusConsumed else OneOffStatusPending)).
Proof.
  induction l as [|s l IH]; intros Ht; [left; split; [|done]; by intros s Hs%not_elem_of_nil|].
  assert (timed l) as Htl by (intros y u Hy; apply Ht; by right).
  simpl. unfold entry_step at 2 4. case_bool_decide as Hfp.
  - destruct (OneOffTime s) as [t|] eqn:Ho.
    + right. exists s, t. split_and!; [by left|done..|]. rewrite entry_final; [done|].
      by apply (Ht s t ltac:(by left)).
    + destruct (IH Htl) as [[Hn ->]|(x & u & Hx & ?)].
      * left. split; [|done]. intros x [->|Hx]%elem_of_cons; auto.
      * right. exists x, u. split; [by right|done].
  - destruct (IH Htl) as [[Hn ->]|(x & u & Hx & ?)].
    + left. split; [|done]. intros x [->|Hx]%elem_of_cons; [done|auto].
    + right. exists x, u. split; [by right|done].
Qed.

Definition active_fp (dag : DAG) (fp : string) : Prop :=
  fp ≠ "" ∧ ∃ s, s ∈ oneOffSchedules dag ∧ Fingerprint s = fp.

Lemma reconcileOneOffState_lookup cur dag now fp :
  (active_fp dag fp →
    wm_OneOffs (reconcileOneOffState cur dag now).1 !! fp =
    foldl (entry_step now fp) (wm_OneOffs cur !! fp) (oneOffSchedules dag)) ∧
  (¬ active_fp dag fp → wm_OneOffs (reconcileOneOffState cur dag now).1 !! fp = None).
Proof.
  unfold reconcileOneOffState. simpl. set (r := foldl _ _ _).
  assert (fp ∈ rc_active r ↔ active_fp dag fp) as Hact.
  { unfold r. rewrite reconcile_active. set_solver. }
  rewrite map_lookup_filter. split; intros Hfp.
  - unfold r. rewrite (reconcile_lookup now fp) by apply Hfp. simpl.
    destruct (foldl (entry_step now fp) _ _); simpl; [|done]. rewrite option_guard_True; [done|]. by apply Hact.
  - destruct (rc_OneOffs r !! fp); simpl; [|done]. rewrite option_guard_False; [done|]. by rewrite Hact.
Qed.

Lemma filter_size_eq {A} (P : string * A → Prop) `{∀ x, Decision (P x)} (m : gmap string A) :
  size (filter P m) = size m → filter P m = m.
Proof.
  intros Hs. apply map_subseteq_size_eq; [apply map_filter_subseteq|lia].
Qed.

Lemma reconcileOneOffState_unchanged cur dag now :
  (reconcileOneOffState cur dag now).2 = false → (reconcileOneOffState cur dag now).1 = cur.
Proof.
  unfold reconcileOneOffState. simpl. intros [Hc Hs]%orb_false_iff.
  apply bool_decide_eq_false in Hs. apply dec_stable, filter_size_eq in Hs.
  rewrite Hs. apply reconcile_unchanged in Hc as [_ ->]. by destruct cur.
Qed.

(** Steps that find their entry timed change nothing. *)
Lemma reconcile_idle now l r :
  (∀ s t, s ∈ l → Fingerprint s ≠ "" → OneOffTime s = Some t →
     ∃ ex, rc_OneOffs r !! Fingerprint s = Some ex ∧ oo_ScheduledTime ex ≠ 0) →
  rc_changed r = false →
  rc_changed (foldl (reconcile_schedule now) r l) = false ∧
  rc_OneOffs (foldl (reconcile_schedule now) r l) = rc_OneOffs r.
Proof.
  revert r. induction l as [|s l IH]; intros r Hl Hc; [done|]. simpl.
  assert (rc_changed (reconcile_schedule now r s) = false ∧
          rc_OneOffs (reconcile_schedule now r s) = rc_OneOffs r) as [Hc' Hm].
  { unfold reconcile_schedule. case_bool_decide as Hfp; [done|]. simpl.
    destruct (OneOffTime s) as [t|] eqn:Ho; [|done].
    destruct (Hl s t ltac:(by left) Hfp Ho) as (ex & -> & Hz).
    unfold IsZero. by destruct (Z.eqb_spec (oo_ScheduledTime ex) 0). }
  rewrite <-Hm. apply IH; [|done]. intros x t Hx. rewrite Hm. apply Hl. by right.
Qed.

Lemma reconcileOneOffState_idempotent cur dag now now' :
  timed (oneOffSchedules dag) →
  reconcileOneOffState (reconcileOneOffState cur dag now).1 dag now' =
    ((reconcileOneOffState cur dag now).1, false).
Proof.
  intros Ht. set (w := (reconcileOneOffState cur dag now).1).
  assert (∀ fp, wm_OneOffs w !! fp ≠ None → active_fp dag fp) as Hact.
  { intros fp Hfp. unfold active_fp. destruct (decide (fp = "")) as [->|Hne].
    - exfalso. apply Hfp. apply reconcileOneOffState_lookup. by intros [? _].
    - split; [done|]. destruct (decide (Exists (λ s, Fingerprint s = fp) (oneOffSchedules dag))) as [He|He].
      + by apply Exists_exists in He.
      + exfalso. apply Hfp. apply reconcileOneOffState_lookup. intros [_ (s & Hs & Hf)].
        apply He, Exists_exists. eauto. }
  assert (∀ s t, s ∈ oneOffSchedules dag → Fingerprint s ≠ "" → OneOffTime s = Some t →
    ∃ ex, wm_OneOffs w !! Fingerprint s = Some ex ∧ oo_ScheduledTime ex ≠ 0) as Htm.
  { intros s t Hs Hfp Ho.
    destruct (reconcileOneOffState_lookup cur dag now (Fingerprint s)) as [Hl _].
    fold w in Hl. rewrite Hl by (split; [done|by exists s]). by eapply entry_timed. }
  clearbody w.
  assert ((reconcileOneOffState w dag now').2 = false) as Hc;
    [|rewrite (surjective_pairing (reconcileOneOffState w dag now')), Hc; f_equal; by apply reconcileOneOffState_unchanged].
  unfold reconcileOneOffState. simpl.
  destruct (reconcile_idle now' (oneOffSchedules dag) (mkReconcile (wm_OneOffs w) ∅ false))
    as [-> Hm]; [done|done|].
  simpl. apply bool_decide_eq_false. rewrite Hm. simpl. 
  intros Hne. apply Hne. f_equal. apply map_filter_id. intros fp e Hfp. simpl.
  apply reconcile_active. right. apply Hact. by rewrite Hfp.
Qed.

(** Reconciling the one-off schedules of a DAG keeps exactly the entries of its
    current schedules, keeps the status of every entry it already had (a
    consumed schedule is never pending again), marks a new schedule pending
    unless its time has passed, reports a change only when there is one, and
    does nothing when it is repeated later. *)
Theorem reconcileOneOffState_correct cur dag now (Htimed : timed (oneOffSchedules dag)) :
  let '(next, changed) := reconcileOneOffState cur dag now in
  (∀ fp, ¬ active_fp dag fp → wm_OneOffs next !! fp = None) ∧
  (∀ fp old, active_fp dag fp → wm_OneOffs cur !! fp = Some old →
     ∃ new, wm_OneOffs next !! fp = Some new ∧ oo_Status new = oo_Status old ∧
            (oo_ScheduledTime old ≠ 0 → new = old)) ∧
  (∀ fp new, wm_OneOffs cur !! fp = None → wm_OneOffs next !! fp = Some new →
     ∃ s, s ∈ oneOffSchedules dag ∧ Fingerprint s = fp ∧ OneOffTime s = Some (oo_ScheduledTime new) ∧
          oo_Status new = if Before (oo_ScheduledTime new) now
                          then OneOffStatusConsumed else OneOffStatusPending) ∧
  (∀ s t, s ∈ oneOffSchedules dag → Fingerprint s ≠ "" → OneOffTime s = Some t →
     is_Some (wm_OneOffs next !! Fingerprint s)) ∧
  next = set_oneoffs (wm_OneOffs next) cur ∧
  (changed = false → next = cur) ∧
  (∀ later, reconcileOneOffState next dag later = (next, false)).
Proof.
  pose proof (reconcileOneOffState_idempotent cur dag now) as Hidem.
  pose proof (reconcileOneOffState_unchanged cur dag now) as Hunch.
  pose proof (reconcileOneOffState_lookup cur dag now) as Hl.
  assert (∀ fp, is_Some (wm_OneOffs (reconcileOneOffState cur dag now).1 !! fp) → ¬ ¬ active_fp dag fp) as Hdn.
  { intros fp [e He] Hn. rewrite (proj2 (Hl fp) Hn) in He. done. }
  assert ((reconcileOneOffState cur dag now).1 =
    set_oneoffs (wm_OneOffs (reconcileOneOffState cur dag now).1) cur) as Hset by done.
  destruct (reconcileOneOffState cur dag now) as [next changed]. simpl in *.
  split_and!; [|..|done|done|by intros later; apply Hidem].
  - intros fp. apply Hl.
  - intros fp old Hact Hold. rewrite (proj1 (Hl fp) Hact), Hold.
    destruct (entry_existing now fp (oneOffSchedules dag) old) as (new & Hnew & Hst).
    exists new. split_and!; [done..|]. intros Hz. rewrite entry_final in Hnew by done. congruence.
  - intros fp new Hnone Hnew. destruct (decide (Exists (λ s, Fingerprint s = fp) (oneOffSchedules dag))) as [He|He].
    + apply Exists_exists in He as (s0 & Hs0 & Hf0). destruct (decide (fp = "")) as [->|Hne].
      { exfalso. apply (Hdn ""); [by eexists|]. by intros [? _]. }
      rewrite (proj1 (Hl fp)), Hnone in Hnew by (split; [done|by exists s0]).
      destruct (entry_new now fp _ Htimed) as [[_ Hn]|(s & t & Hs & Hf & Ho & Hn)]; [congruence|].
      rewrite Hn in Hnew. injection Hnew as <-. exists s. by split_and!.
    + exfalso. apply (Hdn fp); [by eexists|]. intros [_ (s & Hs & Hf)]. apply He, Exists_exists. eauto.
  - intros s t Hs Hfp Ho. rewrite (proj1 (Hl (Fingerprint s))) by (split; [done|by exists s]).
    destruct (entry_timed now (Fingerprint s) _ (wm_OneOffs cur !! Fingerprint s) s t Htimed Hs eq_refl Ho)
      as (e & -> & _). by eexists.
Qed.
End ReconcileLaws.

(** ** The next planned run *)
Lemma next_step_min_spec cands acc :
  let r := foldl next_step_min acc cands in
  (r = 0 ↔ acc = 0 ∧ ∀ c, c ∈ cands → c = 0) ∧
  (r ≠ 0 → (r = acc ∨ r ∈ cands) ∧ (acc ≠ 0 → r <= acc) ∧ ∀ c, c ∈ cands → c ≠ 0 → r <= c).
Proof.
  revert acc. induction cands as [|c cands IH]; intros acc; simpl.
  - split.
    + split; [intros ->; split; [done|]; by intros c Hc%not_elem_of_nil|by intros [? _]].
    + intros _. split_and!; [by left|lia|by intros c Hc%not_elem_of_nil].
  - destruct (IH (next_step_min acc c)) as [Hz Hm]. clear IH.
    setoid_rewrite elem_of_cons. set (r := foldl _ _ _) in *.
    assert (next_step_min acc c = acc ∧ c = 0 ∨
            next_step_min acc c = c ∧ c ≠ 0 ∧ (acc = 0 ∨ c < acc) ∨
            next_step_min acc c = acc ∧ c ≠ 0 ∧ acc ≠ 0 ∧ acc <= c) as Hs.
    { unfold next_step_min, IsZero, Before. destruct (c =? 0) eqn:E1; [breflect; by left|].
      destruct (acc =? 0) eqn:E2; simpl; breflect; [right; left; by auto|].
      destruct (c <? acc) eqn:E3; breflect; right; [left|right]; split_and!; auto; lia. }
    clearbody r. split.
    + rewrite Hz. clear Hz Hm. destruct Hs as [[-> ->]|[(-> & ? & ?)|(-> & ? & ? & ?)]]; split.
      * intros [-> Ha]. split; [done|]. intros x [->|Hx]; auto.
      * intros [-> Ha]. split; [done|]. intros x Hx. apply Ha. by right.
      * by intros [? _].
      * intros [_ Ha]. specialize (Ha c). naive_solver.
      * by intros [? _].
      * by intros [? _].
    + intros Hr. destruct (Hm Hr) as (Hin & Hle & Hall).
      destruct Hs as [[E ->]|[(E & ? & ?)|(E & ? & ? & ?)]]; rewrite E in Hin, Hle.
      * split_and!; [naive_solver|naive_solver|]. intros x [->|Hx]; naive_solver.
      * split_and!; [naive_solver|intros; lia|]. intros x [->|Hx]; naive_solver.
      * split_and!; [naive_solver|naive_solver|]. intros x [->|Hx] ?; [lia|naive_solver].
Qed.

(** [NextPlannedRun] is the earliest of the runs its schedules have ahead (a
    consumed one-off schedule has none), and the zero time when there is none. *)
Theorem NextPlannedRun_correct `{CronParser} (dag : DAG) (now : Time) (state : SchedulerState) :
  let r := NextPlannedRun dag now (Some state) in
  let candidate := next_candidate (default DAGWatermark_zero (ss_DAGs state !! dag_Name dag)) now in
  (r = 0 ↔ ∀ s, s ∈ dag_Schedule dag → candidate s = 0) ∧
  (r ≠ 0 → (∃ s, s ∈ dag_Schedule dag ∧ candidate s = r) ∧
           ∀ s, s ∈ dag_Schedule dag → candidate s ≠ 0 → r <= candidate s).
Proof.
  cbv zeta. unfold NextPlannedRun. set (cand := next_candidate _ _).
  assert (foldl (λ next s, next_step_min next (cand s)) 0 (dag_Schedule dag) =
          foldl next_step_min 0 (cand <$> dag_Schedule dag)) as ->.
  { generalize 0. induction (dag_Schedule dag) as [|s l IH]; intros z; simpl; [done|]. apply IH. }
  destruct (next_step_min_spec (cand <$> dag_Schedule dag) 0) as [Hz Hm].
  setoid_rewrite list_elem_of_fmap in Hz. setoid_rewrite list_elem_of_fmap in Hm.
  split; [rewrite Hz; naive_solver|]. intros Hr. destruct (Hm Hr) as (Hin & _ & Hall).
  split; [destruct Hin as [?|(s & ? & ?)]; [done|by exists s]|]. intros s Hs. apply Hall. by exists s.
Qed.

(** ** Detecting edits of the start schedules *)
Section Edits.
Context `{CronParser}.

Lemma startScheduleFingerprint_perm d1 d2 :
  dag_Schedule d1 ≡ₚ dag_Schedule d2 → dag_SkipIfSuccessful d1 = dag_SkipIfSuccessful d2 →
  startScheduleFingerprint d1 = startScheduleFingerprint d2.
Proof.
  intros Hp Hs. unfold startScheduleFingerprint. rewrite Hs.
  assert (startFingerprints d1 ≡ₚ startFingerprints d2) as Hf by (unfold startFingerprints; by rewrite Hp).
  destruct (startFingerprints d1) as [|x l1] eqn:E1.
  - by apply Permutation_nil_l in Hf as <-.
  - destruct (startFingerprints d2) as [|y l2] eqn:E2; [by apply Permutation_nil_r in Hf|].
    by rewrite (SortStrings_perm _ _ Hf).
Qed.

(** Reconciling the cron schedules records the current fingerprint; it resets
    the success marker exactly when an already recorded, different set of
    schedules is replaced; putting the schedules in another order is not an
    edit, and a second look at the same DAG finds nothing to do. *)
Theorem reconcileStartScheduleState_correct cur d1 d2 observedAt later
    (Hperm : dag_Schedule d1 ≡ₚ dag_Schedule d2)
    (Hskip : dag_SkipIfSuccessful d1 = dag_SkipIfSuccessful d2) :
  let '(next, changed) := reconcileStartScheduleState cur d1 observedAt in
  let fp := startScheduleFingerprint d1 in
  let old := wm_StartScheduleFingerprint cur in
  wm_StartScheduleFingerprint next = fp ∧
  wm_SkipSuccessResetAt next =
    (if bool_decide (old = fp) then wm_SkipSuccessResetAt cur
     else if bool_decide (fp = "") then 0
     else if bool_decide (old = "") then wm_SkipSuccessResetAt cur else observedAt) ∧
  wm_LastScheduledTime next = wm_LastScheduledTime cur ∧ wm_OneOffs next = wm_OneOffs cur ∧
  changed = bool_decide (old ≠ fp) ∧
  reconcileStartScheduleState next d2 later = (next, false).
Proof.
  assert (∀ w, wm_StartScheduleFingerprint w = startScheduleFingerprint d2 →
    reconcileStartScheduleState w d2 later = (w, false)) as Hagain.
  { intros w Hw. unfold reconcileStartScheduleState. simpl. rewrite bool_decide_true by done. by destruct w. }
  rewrite <-(startScheduleFingerprint_perm d1 d2 Hperm Hskip) in Hagain.
  unfold reconcileStartScheduleState at 1. cbv zeta. set (fp := startScheduleFingerprint d1) in *. simpl.
  repeat case_bool_decide; simpl; try congruence;
    (split_and!; [simpl; congruence|try done..|by apply Hagain]).
Qed.
End Edits.
