(* ===== verification/TickPlanner.v ===== *)
(** * The tick planner (scheduler/tick_planner.go)

    The planner decides at each tick which runs to start, stop and restart.
    Its operations are state-passing functions on [TickPlanner]; the locks the
    source takes make each of them one atomic step.

    The functions of [TickPlannerConfig] are the parameter [PlannerEnv].  Two
    calls of one of them may answer differently, so each call is given its
    number ([tp_calls] counts them); what is sent to the outside is recorded
    in [tp_trace].  An operation that does not return is [None]: the loops
    over fire times run on fuel, and [TickPlannerLaws] shows it is enough.

    The range over the map of entries visits them in the order given to
    [Plan], an arbitrary one. *)

From stdpp Require Import base strings list gmap.
From Stdlib Require Import ZArith Lia Ascii.
From S2P Require Import Prelude Status GoStrings GoDate Schedule RunStatus SchedulerData Catchup ScheduleState.

Open Scope Z_scope.

(** ** Data *)
Inductive DAGChangeType := DAGChangeAdded | DAGChangeUpdated | DAGChangeDeleted.

Record DAGChangeEvent := mkEvent {
  ev_Type : DAGChangeType;
  ev_DAG : option DAG;
  ev_DAGName : string;
}.

Definition deletedWatermarkGrace : Duration := 2 * Minute.

Record PlannedRun := mkPlannedRun {
  pr_DAG : DAG;
  pr_RunID : string;
  pr_ScheduledTime : Time;
  pr_TriggerType : TriggerType;
  pr_ScheduleType : ScheduleType;
  pr_Schedule : Schedule;
  pr_Fingerprint : string;
}.

(** What the planner asks of its collaborators, with whether it succeeded. *)
Inductive Call :=
  | CallSave (snapshot : SchedulerState) (ok : bool)
  | CallEnqueue (run : PlannedRun) (ok : bool)
  | CallDispatch (run : PlannedRun) (ok : bool)
  | CallStop (dag : DAG) (ok : bool)
  | CallRestart (dag : DAG) (scheduleTime : Time) (ok : bool).

Class PlannerEnv := {
  IsSuspended : nat → string → bool;
  IsRunning : nat → DAG → option bool;           (* [None]: an error *)
  IsQueued : nat → DAG → option bool;
  GetLatestStatus : nat → DAG → option DAGRunStatus;
  GenRunID : nat → option string;
  RunExists : nat → DAG → string → option bool;
  Clock : nat → Time;
  SaveOk : nat → SchedulerState → bool;          (* whether the call succeeds *)
  DispatchOk : nat → PlannedRun → bool;
  StopOk : nat → DAG → bool;
  RestartOk : nat → DAG → Time → bool;
  EnqueueOk : option (nat → PlannedRun → bool);  (* [None]: not configured *)
  QueuesEnabled : bool;
  ParseInLocation : string → string → option Time; (* layout, text, in the local zone *)
}.

Record TickPlanner := mkTickPlanner {
  tp_watermarkState : SchedulerState;
  tp_watermarkDirty : bool;
  tp_entries : gmap string DAG;
  tp_buffers : gmap string ScheduleBuffer;
  tp_deletedGrace : gmap string Time;
  tp_lastPlanResult : list PlannedRun;
  tp_calls : nat;
  tp_trace : list Call;
}.

(** ** State passing *)
Definition M (A : Type) : Type := TickPlanner → option (A * TickPlanner).

Definition ret {A} (a : A) : M A := λ tp, Some (a, tp).
Definition bindM {A B} (m : M A) (k : A → M B) : M B :=
  λ tp, match m tp with Some (a, tp') => k a tp' | None => None end.
Definition gets {A} (f : TickPlanner → A) : M A := λ tp, Some (f tp, tp).
Definition modify (f : TickPlanner → TickPlanner) : M unit := λ tp, Some (tt, f tp).

(** One call of a configured function. *)
Definition io {A} (f : nat → A) : M A :=
  λ tp, Some (f (tp_calls tp), {| tp with tp_calls := S (tp_calls tp) |}).

(** A computation that may not return. *)
Definition loops {A} (o : option A) : M A := λ tp, match o with Some a => Some (a, tp) | None => None end.

Definition emit (c : Call) : M unit := modify (λ tp, {| tp with tp_trace := tp_trace tp ++ [c] |}).

Declare Scope planner_scope.
Delimit Scope planner_scope with planner.
Notation "'let!' x := m 'in' k" := (bindM m (λ x, k))
  (at level 10, x binder, m at level 100, k at level 200) : planner_scope.
Notation "m ;! k" := (bindM m (λ _, k)) (at level 100, k at level 200, right associativity) : planner_scope.
Open Scope planner_scope.

Fixpoint foldM {A B} (f : B → A → M B) (acc : B) (l : list A) : M B :=
  match l with
  | [] => ret acc
  | x :: l' => let! acc := f acc x in foldM f acc l'
  end.

(** ** Fire times *)
Definition scheduleDueAt (loc : Loc) (schedule : Schedule) (now : Time) : option Time :=
  match sc_Parsed schedule with
  | None => None
  | Some p =>
      let next := p loc (AddD now (- Second)) in
      if After next now then None else Some next
  end.

Definition scheduleMatchesFireTime (schedule : Schedule) (scheduledTime : Time) : bool :=
  match scheduleDueAt Local schedule scheduledTime with
  | Some next => Equal next scheduledTime
  | None => false
  end.

(** The walk of [computePrevExecTime]: the last fire time before [next], zero
    if there was none. *)
Fixpoint prev_loop (fuel : nat) (cron : Time → Time) (next t prev : Time) : option Time :=
  if Before t next then
    match fuel with
    | O => None
    | S fuel' => prev_loop fuel' cron next (cron t) t
    end
  else Some prev.

Definition prev_window : Duration := 32 * 24 * Hour.

Definition computePrevExecTime (next : Time) (schedule : Schedule) : option Time :=
  match sc_Parsed schedule with
  | None => Some next
  | Some p =>
      let seed := AddD next (- prev_window) in
      prev ← prev_loop (minutes_between seed next) (p Local) next (p Local seed) 0;
      if IsZero prev then
        let nextNext := p Local (AddD next Second) in
        Some (AddD next (- (Sub nextNext next)))
      else Some prev
  end.

Section Planner.
Context `{CronParser, Digest, PlannerEnv}.

(** ** Times of a run's status *)

(** [stringutil.ParseTime]; the layouts are time.RFC3339 and the legacy one. *)
Definition ParseTime (val : string) : option Time :=
  if bool_decide (val = "") || bool_decide (val = "-") then Some 0
  else
    match ParseInLocation "2006-01-02T15:04:05Z07:00" val with
    | Some t => Some t
    | None => ParseInLocation "2006-01-02 15:04:05" val
    end.

Definition latestRunReferenceTime (status : DAGRunStatus) : option Time :=
  latestStartedAt ← ParseTime (rs_StartedAt status);
  let latestStartedAt :=
    if bool_decide (rs_QueuedAt status ≠ "") then
      match ParseTime (rs_QueuedAt status) with
      | Some queuedAt => if Before queuedAt latestStartedAt then queuedAt else latestStartedAt
      | None => latestStartedAt
      end
    else latestStartedAt in
  Some (Truncate latestStartedAt Minute).

Definition nonzero_time (val : string) : option Time :=
  match ParseTime val with Some t => if IsZero t then None else Some t | None => None end.

Definition latestSuccessReferenceTime (status : DAGRunStatus) : option Time :=
  match nonzero_time (rs_FinishedAt status) with
  | Some finishedAt => Some finishedAt
  | None => nonzero_time (rs_StartedAt status)
  end.

Inductive LatestSlot := SlotUnknown | SlotCurrent (t : Time) | SlotStale (t : Time).

Definition latestScheduledSlot (status : DAGRunStatus) (schedule : Schedule) : LatestSlot :=
  if bool_decide (rs_ScheduleTime status = "") then SlotUnknown
  else
    match ParseTime (rs_ScheduleTime status) with
    | None => SlotUnknown
    | Some t =>
        let scheduledAt := Truncate t Minute in
        if negb (scheduleMatchesFireTime schedule scheduledAt) then SlotStale scheduledAt
        else SlotCurrent scheduledAt
    end.

(** ** Watermarks *)
Definition watermark_of (dagName : string) (tp : TickPlanner) : DAGWatermark :=
  default DAGWatermark_zero (ss_DAGs (tp_watermarkState tp) !! dagName).

Definition set_DAGs (f : gmap string DAGWatermark → gmap string DAGWatermark) (tp : TickPlanner)
    : TickPlanner :=
  {| tp with tp_watermarkState := {| (tp_watermarkState tp) with
       ss_DAGs := f (ss_DAGs (tp_watermarkState tp)) |} |}.

Definition set_dirty (b : bool) (tp : TickPlanner) : TickPlanner := {| tp with tp_watermarkDirty := b |}.

Definition set_buffers (f : gmap string ScheduleBuffer → gmap string ScheduleBuffer) (tp : TickPlanner)
    : TickPlanner := {| tp with tp_buffers := f (tp_buffers tp) |}.

Definition advanceDAGWatermark (dagName : string) (scheduledTime : Time) : M bool :=
  let! dagState := gets (λ tp, cloneDAGWatermark (watermark_of dagName tp)) in
  if Equal (wm_LastScheduledTime dagState) scheduledTime then ret false
  else
    modify (λ tp, set_dirty true
      (set_DAGs <[dagName := {| dagState with wm_LastScheduledTime := scheduledTime |}]> tp)) ;!
    ret true.

Definition markOneOffConsumed (dagName fingerprint : string) (scheduledTime : Time) : M bool :=
  if bool_decide (fingerprint = "") then ret false
  else
    let! dagState := gets (λ tp, cloneDAGWatermark (watermark_of dagName tp)) in
    let state := default OneOff_zero (wm_OneOffs dagState !! fingerprint) in
    let state := if IsZero (oo_ScheduledTime state)
                 then {| state with oo_ScheduledTime := scheduledTime |} else state in
    if bool_decide (oo_Status state = OneOffStatusConsumed) then ret false
    else
      let state := {| state with oo_Status := OneOffStatusConsumed |} in
      modify (λ tp, set_dirty true (set_DAGs
        <[dagName := set_oneoffs (<[fingerprint := state]> (wm_OneOffs dagState)) dagState]> tp)) ;!
      ret true.

Definition Flush : M unit :=
  let! dirty := gets tp_watermarkDirty in
  if negb dirty then ret tt
  else
    modify (set_dirty false) ;!
    let! state := gets tp_watermarkState in
    let snapshot := mkSchedulerState (ss_Version state) (ss_LastTick state)
                      (cloneDAGWatermark <$> ss_DAGs state) in
    let! ok := io (λ n, SaveOk n snapshot) in
    emit (CallSave snapshot ok) ;!
    (if ok then ret tt else modify (set_dirty true)).

Definition skipSuccessResetAt (dagName : string) (tp : TickPlanner) : Time :=
  wm_SkipSuccessResetAt (watermark_of dagName tp).

Definition isPreEditSuccess (dagName : string) (status : DAGRunStatus) (tp : TickPlanner) : bool :=
  let resetAt := skipSuccessResetAt dagName tp in
  if IsZero resetAt then false
  else match latestSuccessReferenceTime status with
       | Some successAt => Before successAt resetAt
       | None => false
       end.

Definition pendingOneOffState (dagName fingerprint : string) (tp : TickPlanner)
    : option OneOffScheduleState :=
  dagState ← ss_DAGs (tp_watermarkState tp) !! dagName;
  oneOff ← wm_OneOffs dagState !! fingerprint;
  if bool_decide (oo_Status oneOff ≠ OneOffStatusPending) then None else Some oneOff.

(** ** Guards *)

(** Guard 3: a run that succeeded since the previous fire time; [reference] is
    the slot or the start of that run. *)
Definition skip_successful (dag : DAG) (schedule : Schedule) (scheduledTime reference : Time)
    (status : DAGRunStatus) : M bool :=
  if dag_SkipIfSuccessful dag && bool_decide (rs_Status status = Succeeded) &&
     bool_decide (is_Some (sc_Parsed schedule)) then
    let! preEdit := gets (isPreEditSuccess (dag_Name dag) status) in
    if preEdit then ret true
    else
      let! prevExecTime := loops (computePrevExecTime scheduledTime schedule) in
      if negb (Before reference prevExecTime) && Before reference scheduledTime then ret false
      else ret true
  else ret true.

Definition shouldRun (dag : DAG) (scheduledTime : Time) (schedule : Schedule) : M bool :=
  let! running := io (λ n, IsRunning n dag) in
  match running with
  | None | Some true => ret false
  | Some false =>
      let! queued := io (λ n, IsQueued n dag) in
      match queued with
      | None | Some true => ret false
      | Some false =>
          let! latest := io (λ n, GetLatestStatus n dag) in
          match latest with
          | None => ret false
          | Some status =>
              if bool_decide (rs_Status status = Running) then ret false
              else
                match latestScheduledSlot status schedule with
                | SlotCurrent latestScheduleTime =>
                    if negb (Before latestScheduleTime scheduledTime) then ret false
                    else skip_successful dag schedule scheduledTime latestScheduleTime status
                | SlotStale _ => ret true
                | SlotUnknown =>
                    match latestRunReferenceTime status with
                    | Some latestStartedAt =>
                        if negb (Before latestStartedAt scheduledTime) then ret false
                        else skip_successful dag schedule scheduledTime latestStartedAt status
                    | None => ret true
                    end
                end
          end
      end
  end.

Definition shouldRunOneOff (dag : DAG) : M bool :=
  let! running := io (λ n, IsRunning n dag) in
  match running with
  | None | Some true => ret false
  | Some false =>
      let! queued := io (λ n, IsQueued n dag) in
      match queued with
      | None | Some true => ret false
      | Some false =>
          let! latest := io (λ n, GetLatestStatus n dag) in
          match latest with
          | None => ret false
          | Some status => ret (bool_decide (rs_Status status ≠ Running))
          end
      end
  end.

Definition createPlannedRun (dag : DAG) (schedule : Schedule) (scheduledTime : Time)
    (triggerType : TriggerType) : M (option PlannedRun) :=
  let! runID :=
    if bool_decide (triggerType = TriggerTypeCatchUp)
    then ret (Some (GenerateCatchupRunID (dag_Name dag) scheduledTime))
    else if IsOneOff schedule
    then ret (Some (GenerateOneOffRunID (dag_Name dag) (Fingerprint schedule) scheduledTime))
    else io (λ n, GenRunID n) in
  ret (match runID with
       | None => None
       | Some runID => Some (mkPlannedRun dag runID scheduledTime triggerType ScheduleTypeStart
                               schedule (Fingerprint schedule))
       end).

Definition shouldPreferStartCandidate (candidate : PlannedRun) (current : option PlannedRun) : bool :=
  match current with
  | None => true
  | Some current =>
      if Before (pr_ScheduledTime candidate) (pr_ScheduledTime current) then true
      else Equal (pr_ScheduledTime candidate) (pr_ScheduledTime current) &&
           IsOneOff (pr_Schedule candidate) && negb (IsOneOff (pr_Schedule current))
  end.

Definition prefer (run : option PlannedRun) (current : option PlannedRun) : option PlannedRun :=
  match run with
  | Some r => if shouldPreferStartCandidate r current then Some r else current
  | None => current
  end.

(** ** Plan *)

(** The DAGs whose grace is over, that have no entry and still have a watermark. *)
Definition expired_watermarks (now : Time) (tp : TickPlanner) : gmap string Time :=
  filter (λ kv, Before now kv.2 = false ∧ tp_entries tp !! kv.1 = None ∧
                is_Some (ss_DAGs (tp_watermarkState tp) !! kv.1)) (tp_deletedGrace tp).

Definition pruneExpiredDeletedWatermarks (now : Time) : M unit :=
  modify (λ tp,
    let dead := expired_watermarks now tp in
    let tp := {| tp with tp_deletedGrace := filter (λ kv, Before now kv.2 = true) (tp_deletedGrace tp) |} in
    let tp := set_DAGs (λ m, m ∖ (const DAGWatermark_zero <$> dead)) tp in
    if bool_decide (dead = ∅) then tp else set_dirty true tp).

Definition dropSuspendedCatchupState (dagName : string) (dag : DAG) (now : Time) : M unit :=
  let! buf := gets (λ tp, tp_buffers tp !! dagName) in
  match buf with
  | Some _ =>
      modify (set_buffers (delete dagName)) ;!
      advanceDAGWatermark dagName now ;! ret tt
  | None =>
      if (0 <? dag_CatchupWindow dag) then advanceDAGWatermark dagName now ;! ret tt else ret tt
  end.

Inductive CatchupOutcome := CatchupNone | CatchupProduced (run : PlannedRun) | CatchupDeferred.

(** The watermark passes the items a collapse discarded. *)
Definition advance_past (dagName : string) (dropped : list QueueItem) : M unit :=
  match last dropped with
  | Some it => advanceDAGWatermark dagName (qi_ScheduledTime it) ;! ret tt
  | None => ret tt
  end.

(** The DAG is free: the front item, or the last one for "latest", is popped. *)
Definition catchup_free (dagName : string) (buf : ScheduleBuffer) (item : QueueItem)
    : M (CatchupOutcome * ScheduleBuffer) :=
  let! collapsed :=
    if bool_decide (sb_overlapPolicy buf = OverlapPolicyLatest) && (1 <? Len buf) then
      let '(dropped, buf) := DropAllButLast buf in
      advance_past dagName dropped ;! ret (default item (Peek buf), buf)
    else ret (item, buf) in
  let '(item, buf) := collapsed in
  let buf := (Pop buf).2 in
  let! run := createPlannedRun (qi_DAG item) Schedule_zero (qi_ScheduledTime item) (qi_TriggerType item) in
  ret (match run with Some r => CatchupProduced r | None => CatchupNone end, buf).

(** The DAG is running or queued: the overlap policy decides. *)
Definition catchup_busy (dagName : string) (buf : ScheduleBuffer) : M ScheduleBuffer :=
  if bool_decide (sb_overlapPolicy buf = OverlapPolicyAll) then ret buf
  else if bool_decide (sb_overlapPolicy buf = OverlapPolicyLatest) then
    let '(dropped, buf) := DropAllButLast buf in
    advance_past dagName dropped ;! ret buf
  else (* "skip", and policies that are not known *)
    let '(popped, buf) := Pop buf in
    match popped with
    | Some it => advanceDAGWatermark dagName (qi_ScheduledTime it) ;! ret buf
    | None => ret buf
    end.

Definition plan_catchup (dagName : string) : M CatchupOutcome :=
  let! buf := gets (λ tp, tp_buffers tp !! dagName) in
  match buf with
  | None => ret CatchupNone
  | Some buf =>
      match Peek buf with
      | None => modify (set_buffers (delete dagName)) ;! ret CatchupNone
      | Some item =>
          let! running := io (λ n, IsRunning n (qi_DAG item)) in
          let running := default false running in
          let! queued := io (λ n, IsQueued n (qi_DAG item)) in
          match queued with
          | None => ret CatchupDeferred
          | Some queued =>
              let! res :=
                if negb (running || queued) then catchup_free dagName buf item
                else let! buf := catchup_busy dagName buf in ret (CatchupNone, buf) in
              let '(outcome, buf) := res in
              modify (set_buffers (if Len buf =? 0 then delete dagName else <[dagName := buf]>)) ;!
              ret outcome
          end
      end
  end.

Definition plan_oneoff (dag : DAG) (now : Time) (cand : option PlannedRun) (schedule : Schedule)
    : M (option PlannedRun) :=
  if negb (IsOneOff schedule) then ret cand
  else
    let fingerprint := Fingerprint schedule in
    if bool_decide (fingerprint = "") then ret cand
    else
      let! state := gets (pendingOneOffState (dag_Name dag) fingerprint) in
      match state with
      | None => ret cand
      | Some oneOff =>
          if After (oo_ScheduledTime oneOff) now then ret cand
          else
            let! ok := shouldRunOneOff dag in
            if negb ok then ret cand
            else
              let! run := createPlannedRun dag schedule (oo_ScheduledTime oneOff) TriggerTypeScheduler in
              ret (prefer run cand)
      end.

Definition plan_cron (dag : DAG) (now : Time) (cand : option PlannedRun) (schedule : Schedule)
    : M (option PlannedRun) :=
  if negb (IsCron schedule) then ret cand
  else
    match scheduleDueAt Local schedule now with
    | None => ret cand
    | Some next =>
        let! ok := shouldRun dag next schedule in
        if negb ok then ret cand
        else
          let! run := createPlannedRun dag schedule next TriggerTypeScheduler in
          ret (prefer run cand)
    end.

Definition plan_stop (dag : DAG) (now : Time) (runs : list PlannedRun) (schedule : Schedule)
    : M (list PlannedRun) :=
  match scheduleDueAt Configured schedule now with
  | None => ret runs
  | Some next =>
      let! latest := io (λ n, GetLatestStatus n dag) in
      match latest with
      | None => ret runs
      | Some status =>
          if bool_decide (rs_Status status ≠ Running) then ret runs
          else ret (runs ++ [mkPlannedRun dag "" next TriggerTypeUnknown ScheduleTypeStop Schedule_zero ""])
      end
  end.

Definition plan_restart (dag : DAG) (now : Time) (runs : list PlannedRun) (schedule : Schedule)
    : list PlannedRun :=
  match scheduleDueAt Configured schedule now with
  | None => runs
  | Some next => runs ++ [mkPlannedRun dag "" next TriggerTypeUnknown ScheduleTypeRestart Schedule_zero ""]
  end.

(** One turn of the range over the entries. *)
Definition plan_entry (now : Time) (runs : list PlannedRun) (dagName : string) : M (list PlannedRun) :=
  let! entry := gets (λ tp, tp_entries tp !! dagName) in
  match entry with
  | None => ret runs
  | Some dag =>
      let! suspended := io (λ n, isSuspendedDAG (IsSuspended n) None (Some dag)) in
      if suspended then dropSuspendedCatchupState dagName dag now ;! ret runs
      else
        let! catchup := plan_catchup dagName in
        match catchup with
        | CatchupProduced run => ret (runs ++ [run])
        | CatchupDeferred => ret runs
        | CatchupNone =>
            let! cand := foldM (plan_oneoff dag now) None (dag_Schedule dag) in
            let! cand := foldM (plan_cron dag now) cand (dag_Schedule dag) in
            let runs := runs ++ option_list cand in
            let! runs := foldM (plan_stop dag now) runs (dag_StopSchedule dag) in
            ret (foldl (plan_restart dag now) runs (dag_RestartSchedule dag))
        end
  end.

Definition Plan (order : list string) (now : Time) : M (list PlannedRun) :=
  pruneExpiredDeletedWatermarks now ;!
  let! candidates := foldM (plan_entry now) [] order in
  modify (λ tp, {| tp with tp_lastPlanResult := candidates |}) ;!
  ret candidates.

(** ** Advance *)
Definition advances (run : PlannedRun) : bool :=
  bool_decide (pr_ScheduleType run = ScheduleTypeStart) &&
  negb (bool_decide (pr_TriggerType run = TriggerTypeCatchUp)) && IsCron (pr_Schedule run).

Definition advance_run (tp : TickPlanner) (run : PlannedRun) : TickPlanner :=
  if advances run then
    let name := dag_Name (pr_DAG run) in
    let dagState := cloneDAGWatermark (watermark_of name tp) in
    set_DAGs <[name := {| dagState with wm_LastScheduledTime := pr_ScheduledTime run |}]> tp
  else tp.

Definition Advance (now : Time) : M unit :=
  modify (λ tp,
    let tp := {| tp with tp_watermarkState := {| (tp_watermarkState tp) with ss_LastTick := now |} |} in
    let tp := foldl advance_run tp (tp_lastPlanResult tp) in
    {| (set_dirty true tp) with tp_lastPlanResult := [] |}).

(** ** Catch-up buffers *)
Definition catchup_items (dag : DAG) (missed : list Time) : list QueueItem :=
  (λ t, mkQueueItem dag t TriggerTypeCatchUp ScheduleTypeStart) <$> missed.

(** The buffer of the missed intervals, collapsed for "latest". *)
Definition fill_buffer (dag : DAG) (missed : list Time) : list QueueItem * ScheduleBuffer :=
  let q := SendAll (catchup_items dag missed) (NewScheduleBuffer (dag_Name dag) (dag_OverlapPolicy dag)) in
  if bool_decide (dag_OverlapPolicy dag = OverlapPolicyLatest) && (1 <? Len q)
  then DropAllButLast q else ([], q).

Definition initBuffer (lastTick : Time) (watermarks : gmap string DAGWatermark) (now : Time)
    (u : unit) (dag : DAG) : M unit :=
  if (dag_CatchupWindow dag <=? 0) then ret tt
  else
    let lastScheduledTime :=
      match watermarks !! dag_Name dag with Some wm => wm_LastScheduledTime wm | None => 0 end in
    let replayFrom := ComputeReplayFrom (dag_CatchupWindow dag) lastTick lastScheduledTime now in
    let! missed := loops (ComputeMissedIntervals (dag_Schedule dag) replayFrom now) in
    if bool_decide (missed = []) then ret tt
    else
      let '(dropped, q) := fill_buffer dag missed in
      modify (set_buffers <[dag_Name dag := q]>) ;!
      advance_past (dag_Name dag) dropped.

Definition initBuffers (dags : list DAG) : M unit :=
  if negb QueuesEnabled then ret tt
  else
    let! state := gets tp_watermarkState in
    let! now := io Clock in
    foldM (initBuffer (ss_LastTick state) (ss_DAGs state) now) tt dags.

Definition recomputeBuffer (dag : DAG) : M bool :=
  if negb QueuesEnabled then ret false
  else
    let! state := gets tp_watermarkState in
    let lastScheduledTime :=
      match ss_DAGs state !! dag_Name dag with Some wm => wm_LastScheduledTime wm | None => 0 end in
    let! now := io Clock in
    let replayFrom := ComputeReplayFrom (dag_CatchupWindow dag) (ss_LastTick state) lastScheduledTime now in
    let! missed := loops (ComputeMissedIntervals (dag_Schedule dag) replayFrom now) in
    if bool_decide (missed = []) then ret false
    else
      let '(dropped, q) := fill_buffer dag missed in
      let! advanced :=
        match last dropped with
        | Some it => advanceDAGWatermark (dag_Name dag) (qi_ScheduledTime it)
        | None => ret false
        end in
      modify (set_buffers <[dag_Name dag := q]>) ;!
      ret advanced.

(** ** Init *)
Definition reconcile_loaded (observedAt : Time) (st : gmap string DAGWatermark * bool) (dag : DAG)
    : gmap string DAGWatermark * bool :=
  let '(DAGs, stateChanged) := st in
  let current := default DAGWatermark_zero (DAGs !! dag_Name dag) in
  let '(next, changed) := reconcileOneOffState current dag observedAt in
  let '(next, startChanged) := reconcileStartScheduleState next dag observedAt in
  if negb (changed || startChanged) then st
  else if isZeroDAGWatermark next then (delete (dag_Name dag) DAGs, true)
  else (<[dag_Name dag := next]> DAGs, true).

(** [Init] of a planner made by [NewTickPlanner]; [loaded] is the result of
    [WatermarkStore.Load], [None] for an error. *)
Definition Init (loaded : option SchedulerState) (dags : list DAG) : M unit :=
  modify (λ tp, {| tp with tp_entries := foldl (λ m d, <[dag_Name d := d]> m) (tp_entries tp) dags |}) ;!
  let state := default SchedulerState_new loaded in
  let state := if (ss_Version state =? 0) then {| state with ss_Version := SchedulerStateVersion |} else state in
  let active : gset string := list_to_set (dag_Name <$> dags) in
  let kept := filter (λ kv, kv.1 ∈ active) (ss_DAGs state) in
  let pruned := bool_decide (size kept ≠ size (ss_DAGs state)) in
  let! observedAt := io Clock in
  let '(DAGs, stateChanged) := foldl (reconcile_loaded observedAt) (kept, pruned) dags in
  modify (λ tp, {| tp with tp_watermarkState := {| state with ss_DAGs := DAGs |} |}) ;!
  modify (λ tp, if stateChanged then set_dirty true tp else tp) ;!
  initBuffers dags ;!
  (if stateChanged then Flush else ret tt).

Definition NewTickPlanner : TickPlanner := mkTickPlanner SchedulerState_new false ∅ ∅ ∅ [] 0 [].

(** ** Events *)
Definition store_reconciled (dagName : string) (next : DAGWatermark) (changed : bool) : M bool :=
  if negb changed then ret false
  else
    modify (λ tp, set_dirty true (set_DAGs
      (if isZeroDAGWatermark next then delete dagName else <[dagName := next]>) tp)) ;!
    ret true.

Definition reconcileOneOffSchedules (dag : DAG) : M bool :=
  let! current := gets (watermark_of (dag_Name dag)) in
  let! now := io Clock in
  let '(next, changed) := reconcileOneOffState current dag now in
  store_reconciled (dag_Name dag) next changed.

Definition planner_reconcileStartScheduleState (dag : DAG) : M bool :=
  let! current := gets (watermark_of (dag_Name dag)) in
  let! now := io Clock in
  let '(next, changed) := reconcileStartScheduleState current dag now in
  store_reconciled (dag_Name dag) next changed.

Definition hasDAGWatermark (dagName : string) (tp : TickPlanner) : bool :=
  bool_decide (is_Some (ss_DAGs (tp_watermarkState tp) !! dagName)).

Definition set_entry (dagName : string) (dag : DAG) (tp : TickPlanner) : TickPlanner :=
  {| tp with tp_deletedGrace := delete dagName (tp_deletedGrace tp);
             tp_entries := <[dagName := dag]> (tp_entries tp) |}.

Definition handleEvent (event : DAGChangeEvent) : M unit :=
  let name := ev_DAGName event in
  match ev_Type event, ev_DAG event with
  | DAGChangeAdded, None | DAGChangeUpdated, None => ret tt
  | DAGChangeAdded, Some dag =>
      modify (set_entry name dag) ;!
      let! now := io Clock in
      let! f1 := advanceDAGWatermark name now in
      let! f2 := planner_reconcileStartScheduleState dag in
      let! f3 := reconcileOneOffSchedules dag in
      if f1 || f2 || f3 then Flush else ret tt
  | DAGChangeUpdated, Some dag =>
      modify (set_entry name dag) ;!
      modify (set_buffers (delete name)) ;!
      let! f1 := if (0 <? dag_CatchupWindow dag) then recomputeBuffer dag else ret false in
      let! f2 := planner_reconcileStartScheduleState dag in
      let! f3 := reconcileOneOffSchedules dag in
      if f1 || f2 || f3 then Flush else ret tt
  | DAGChangeDeleted, _ =>
      modify (λ tp, set_buffers (delete name) {| tp with tp_entries := delete name (tp_entries tp) |}) ;!
      let! known := gets (hasDAGWatermark name) in
      if known then
        let! now := io Clock in
        modify (λ tp, {| tp with tp_deletedGrace :=
          <[name := AddD now deletedWatermarkGrace]> (tp_deletedGrace tp) |})
      else ret tt
  end.

(** ** Dispatch *)
Definition reinsertCatchupItem (run : PlannedRun) : M unit :=
  let name := dag_Name (pr_DAG run) in
  modify (set_buffers (λ m,
    let buf := default (NewScheduleBuffer name (dag_OverlapPolicy (pr_DAG run))) (m !! name) in
    <[name := (Prepend (mkQueueItem (pr_DAG run) (pr_ScheduledTime run) (pr_TriggerType run)
                          (pr_ScheduleType run)) buf).2]> m)).

Definition is_start (run : PlannedRun) : bool := bool_decide (pr_ScheduleType run = ScheduleTypeStart).
Definition is_catchup (run : PlannedRun) : bool := bool_decide (pr_TriggerType run = TriggerTypeCatchUp).
Definition is_oneoff_start (run : PlannedRun) : bool := is_start run && IsOneOff (pr_Schedule run).

Definition consume_oneoff (run : PlannedRun) : M unit :=
  let! marked := markOneOffConsumed (dag_Name (pr_DAG run)) (pr_Fingerprint run) (pr_ScheduledTime run) in
  if marked then Flush else ret tt.

(** The call that starts, stops or restarts; [None] when catch-up needs a
    queue that is not configured. *)
Definition invoke (run : PlannedRun) : M (option bool) :=
  match pr_ScheduleType run with
  | ScheduleTypeStart =>
      if is_catchup run then
        match EnqueueOk with
        | None => ret None
        | Some enqueue =>
            let! ok := io (λ n, enqueue n run) in emit (CallEnqueue run ok) ;! ret (Some ok)
        end
      else let! ok := io (λ n, DispatchOk n run) in emit (CallDispatch run ok) ;! ret (Some ok)
  | ScheduleTypeStop =>
      let! ok := io (λ n, StopOk n (pr_DAG run)) in emit (CallStop (pr_DAG run) ok) ;! ret (Some ok)
  | ScheduleTypeRestart =>
      let! ok := io (λ n, RestartOk n (pr_DAG run) (pr_ScheduledTime run)) in
      emit (CallRestart (pr_DAG run) (pr_ScheduledTime run) ok) ;! ret (Some ok)
  end.

(** Whether the dag-run of a one-off start exists; other runs are not asked for. *)
Definition oneoff_exists (run : PlannedRun) : M (option bool) :=
  if is_oneoff_start run then io (λ n, RunExists n (pr_DAG run) (pr_RunID run)) else ret (Some false).

Definition DispatchRun (run : PlannedRun) : M unit :=
  let! suspended :=
    if is_start run && isSchedulerManagedTriggerType (pr_TriggerType run)
    then io (λ n, isSuspendedDAG (IsSuspended n) None (Some (pr_DAG run))) else ret false in
  if suspended then
    if is_catchup run
    then advanceDAGWatermark (dag_Name (pr_DAG run)) (pr_ScheduledTime run) ;! ret tt
    else ret tt
  else
    let! exists_ := oneoff_exists run in
    match exists_ with
    | None => ret tt
    | Some true => consume_oneoff run
    | Some false =>
        let! result := invoke run in
        match result with
        | None => ret tt
        | Some false =>
            let! exists_ := oneoff_exists run in
            match exists_ with
            | None => ret tt
            | Some true => consume_oneoff run
            | Some false => if is_catchup run && is_start run then reinsertCatchupItem run else ret tt
            end
        | Some true =>
            (if is_catchup run && is_start run
             then advanceDAGWatermark (dag_Name (pr_DAG run)) (pr_ScheduledTime run) ;! ret tt
             else ret tt) ;!
            (if is_oneoff_start run then consume_oneoff run else ret tt)
        end
    end.

(** ** Ticks (scheduler/scheduler.go)

    [runTick] with the goroutines of the other runs started at once; other
    orders are sequences of [DispatchRun] and the operations above. *)
Definition runTick (order : list string) (tickTime : Time) : M unit :=
  let! runs := Plan order tickTime in
  foldM (λ _ run, DispatchRun run) tt runs ;!
  Advance tickTime.

Definition NextTick (now : Time) : Time := AddD (Truncate now Minute) Minute.
End Planner.
