(* ===== verification/TickPlannerLaws.v ===== *)
(** * What a planning round may do

    [respects R m]: every run of the operation [m] that returns relates the
    states before and after it by [R].  For a preorder [R] this is closed
    under the operators of the planner's monad, so the frame of an operation
    follows from those of its parts ([solve_respects]).

    The well-formedness of a planner ([planner_wf]) is an invariant of every
    operation, and a planning round returns justified runs only, at most one
    start per DAG. *)

From stdpp Require Import base strings list gmap.
From Stdlib Require Import ZArith Lia Ascii.
From S2P Require Import Prelude Status GoStrings GoDate Schedule RunStatus SchedulerData Catchup ScheduleState TickPlanner.

Open Scope Z_scope.
Open Scope planner_scope.

(** ** Relations respected by operations *)
Definition respects (R : TickPlanner → TickPlanner → Prop) {A} (m : M A) : Prop :=
  ∀ tp a tp', m tp = Some (a, tp') → R tp tp'.

Lemma bindM_inv {A B} (m : M A) (k : A → M B) tp b tp' :
  bindM m k tp = Some (b, tp') → ∃ a tp1, m tp = Some (a, tp1) ∧ k a tp1 = Some (b, tp').
Proof. unfold bindM. destruct (m tp) as [[a tp1]|]; [|done]. eauto. Qed.

Create HintDb planner.

Section Respects.
Context (R : TickPlanner → TickPlanner → Prop) `{!PreOrder R}.

Lemma respects_ret {A} (a : A) : respects R (ret a).
Proof. intros tp ? ? [= -> ->]. done. Qed.

Lemma respects_gets {A} (f : TickPlanner → A) : respects R (gets f).
Proof. intros tp ? ? [= _ ->]. done. Qed.

Lemma respects_loops {A} (o : option A) : respects R (loops o).
Proof. intros tp a tp'. unfold loops. destruct o; [|done]. by intros [= _ ->]. Qed.

Lemma respects_bind {A B} (m : M A) (k : A → M B) :
  respects R m → (∀ a, respects R (k a)) → respects R (bindM m k).
Proof. intros Hm Hk tp b tp' (a & tp1 & H1 & H2)%bindM_inv. by etrans; [eapply Hm|eapply Hk]. Qed.

Lemma respects_modify (f : TickPlanner → TickPlanner) : (∀ tp, R tp (f tp)) → respects R (modify f).
Proof. intros Hf tp a tp' [= _ <-]. apply Hf. Qed.

Lemma respects_io {A} (f : nat → A) :
  (∀ tp, R tp {| tp with tp_calls := S (tp_calls tp) |}) → respects R (io f).
Proof. intros Hf tp a tp' [= _ <-]. apply Hf. Qed.

Lemma respects_foldM {A B} (f : B → A → M B) acc l :
  (∀ b x, respects R (f b x)) → respects R (foldM f acc l).
Proof.
  intros Hf. revert acc. induction l as [|x l IH]; intros acc; [apply respects_ret|].
  simpl. apply respects_bind; [done|]. intros b. apply IH.
Qed.
End Respects.

(** Peels an operation down to its [modify]s and calls. *)
Ltac solve_respects :=
  repeat first
    [ progress intros
    | apply respects_ret; apply _
    | apply respects_gets; apply _
    | apply respects_loops; apply _
    | solve [eauto with planner]
    | apply respects_bind; [apply _| |]
    | apply respects_foldM; [apply _|]
    | apply respects_io; [solve [intros; simpl; eauto with planner]]
    | case_match ].

(** ** The state Plan may touch *)
Record plan_frame (tp tp' : TickPlanner) : Prop := {
  pf_entries : tp_entries tp' = tp_entries tp;
  pf_grace : tp_deletedGrace tp' = tp_deletedGrace tp;
  pf_last : tp_lastPlanResult tp' = tp_lastPlanResult tp;
  pf_trace : tp_trace tp' = tp_trace tp;
  pf_tick : ss_LastTick (tp_watermarkState tp') = ss_LastTick (tp_watermarkState tp);
  pf_oneoffs : ∀ d, wm_OneOffs (watermark_of d tp') = wm_OneOffs (watermark_of d tp);
  pf_reset : ∀ d, wm_SkipSuccessResetAt (watermark_of d tp') = wm_SkipSuccessResetAt (watermark_of d tp);
}.

#[export] Instance plan_frame_preorder : PreOrder plan_frame.
Proof.
  split; [by intros tp|]. intros a b c [] []. split; intros; congruence.
Qed.

(** Only the buffer and the watermark of [n] change. *)
Record entry_frame (n : string) (tp tp' : TickPlanner) : Prop := {
  ef_plan : plan_frame tp tp';
  ef_buffers : ∀ k, k ≠ n → tp_buffers tp' !! k = tp_buffers tp !! k;
}.

#[export] Instance entry_frame_preorder n : PreOrder (entry_frame n).
Proof.
  split; [by intros tp|]. intros a b c [H1 H2] [H3 H4].
  split; [by etrans|]. intros k Hk. rewrite H4, H2; done.
Qed.

Lemma watermark_of_set d n w tp :
  watermark_of d (set_dirty true (set_DAGs <[n := w]> tp)) = if bool_decide (n = d) then w else watermark_of d tp.
Proof.
  unfold watermark_of, set_dirty, set_DAGs. simpl. case_bool_decide as E.
  - subst n. by rewrite lookup_insert_eq.
  - by rewrite lookup_insert_ne.
Qed.

Section Frames.
Context `{CronParser, Digest, PlannerEnv} (n : string).

Lemma frame_io tp : entry_frame n tp {| tp with tp_calls := S (tp_calls tp) |}.
Proof. by split. Qed.

Lemma frame_buffers f tp :
  (∀ m k, k ≠ n → f m !! k = m !! k) → entry_frame n tp (set_buffers f tp).
Proof. intros Hf. split; [done|]. intros k Hk. simpl. by apply Hf. Qed.

Lemma frame_delete tp : entry_frame n tp (set_buffers (delete n) tp).
Proof. apply frame_buffers. intros m k Hk. by rewrite lookup_delete_ne. Qed.

Lemma frame_store (b : ScheduleBuffer) tp :
  entry_frame n tp (set_buffers (if Len b =? 0 then delete n else <[n := b]>) tp).
Proof.
  apply frame_buffers. intros m k Hk. destruct (_ =? 0); [by rewrite lookup_delete_ne|by rewrite lookup_insert_ne].
Qed.

Lemma frame_advance d t : respects (entry_frame n) (advanceDAGWatermark d t).
Proof.
  unfold advanceDAGWatermark. intros tp a tp' (w & tp1 & Hw & Hk)%bindM_inv. injection Hw as <- <-.
  destruct (Equal _ _).
  - by injection Hk as <- <-.
  - injection Hk as <- <-. split; [|done].
    split; try done; intros k; rewrite watermark_of_set; by case_bool_decide; subst.
Qed.
End Frames.

#[export] Hint Resolve frame_io frame_delete frame_store frame_advance : planner.
#[export] Hint Resolve respects_modify : planner.

Section PlanFrames.
Context `{CronParser, Digest, PlannerEnv} (n : string).

Lemma frame_create dag s t tr : respects (entry_frame n) (createPlannedRun dag s t tr).
Proof. unfold createPlannedRun. solve_respects. Qed.

Lemma frame_shouldRun dag t s : respects (entry_frame n) (shouldRun dag t s).
Proof. unfold shouldRun, skip_successful. solve_respects. Qed.

Lemma frame_shouldRunOneOff dag : respects (entry_frame n) (shouldRunOneOff dag).
Proof. unfold shouldRunOneOff. solve_respects. Qed.

Lemma frame_drop dag now : respects (entry_frame n) (dropSuspendedCatchupState n dag now).
Proof. unfold dropSuspendedCatchupState. solve_respects. Qed.

Lemma frame_catchup : respects (entry_frame n) (plan_catchup n).
Proof.
  pose proof frame_create. unfold plan_catchup, catchup_free, catchup_busy, advance_past. solve_respects.
Qed.

Lemma frame_oneoff dag now c s : respects (entry_frame n) (plan_oneoff dag now c s).
Proof. pose proof frame_create. pose proof frame_shouldRunOneOff. unfold plan_oneoff. solve_respects. Qed.

Lemma frame_cron dag now c s : respects (entry_frame n) (plan_cron dag now c s).
Proof. pose proof frame_create. pose proof frame_shouldRun. unfold plan_cron. solve_respects. Qed.

Lemma frame_stop dag now c s : respects (entry_frame n) (plan_stop dag now c s).
Proof. unfold plan_stop. solve_respects. Qed.

Lemma frame_entry now runs : respects (entry_frame n) (plan_entry now runs n).
Proof.
  pose proof frame_drop. pose proof frame_catchup. pose proof frame_oneoff.
  pose proof frame_cron. pose proof frame_stop. unfold plan_entry. solve_respects.
Qed.
End PlanFrames.

(** ** Well-formed planners *)
Definition item_ok (n : string) (it : QueueItem) : Prop :=
  dag_Name (qi_DAG it) = n ∧ qi_TriggerType it = TriggerTypeCatchUp ∧ qi_ScheduleType it = ScheduleTypeStart.

Record buffer_ok (n : string) (b : ScheduleBuffer) : Prop := {
  bo_items : Forall (item_ok n) (sb_items b);
  bo_max : sb_maxItems b = DefaultMaxBufferItems;
  bo_len : Len b <= DefaultMaxBufferItems;
}.

(** Entries and buffers are keyed by the name of their DAG; buffers hold
    catch-up starts, at most 1000 of them. *)
Record planner_wf (tp : TickPlanner) : Prop := {
  pw_entries : ∀ n d, tp_entries tp !! n = Some d → dag_Name d = n;
  pw_buffers : ∀ n b, tp_buffers tp !! n = Some b → buffer_ok n b;
}.

(** ** Justified runs *)
Section Justified.
Context `{CronParser, Digest, PlannerEnv}.

(** The collaborators reported that the DAG is neither running nor queued. *)
Definition reported_free (dag : DAG) : Prop :=
  (∃ k, IsRunning k dag = Some false) ∧ (∃ k, IsQueued k dag = Some false).

Definition reported_not_suspended (dag : DAG) : Prop :=
  ∃ k, isSuspendedDAG (IsSuspended k) None (Some dag) = false.

(** The reason for a run planned for the entry [dag] in the state [tp]. *)
Inductive justified (tp : TickPlanner) (now : Time) (dag : DAG) : PlannedRun → Prop :=
  | just_catchup b it :
      tp_buffers tp !! dag_Name dag = Some b → it ∈ sb_items b →
      (∃ k front, Peek b = Some front ∧ IsQueued k (qi_DAG front) = Some false) →
      justified tp now dag
        (mkPlannedRun (qi_DAG it) (GenerateCatchupRunID (dag_Name dag) (qi_ScheduledTime it))
           (qi_ScheduledTime it) TriggerTypeCatchUp ScheduleTypeStart Schedule_zero (Fingerprint Schedule_zero))
  | just_cron s t runID :
      s ∈ dag_Schedule dag → IsCron s = true → scheduleDueAt Local s now = Some t → reported_free dag →
      justified tp now dag
        (mkPlannedRun dag runID t TriggerTypeScheduler ScheduleTypeStart s (Fingerprint s))
  | just_oneoff s st :
      s ∈ dag_Schedule dag → IsOneOff s = true → Fingerprint s ≠ "" →
      pendingOneOffState (dag_Name dag) (Fingerprint s) tp = Some st →
      oo_ScheduledTime st <= now → reported_free dag →
      justified tp now dag
        (mkPlannedRun dag (GenerateOneOffRunID (dag_Name dag) (Fingerprint s) (oo_ScheduledTime st))
           (oo_ScheduledTime st) TriggerTypeScheduler ScheduleTypeStart s (Fingerprint s))
  | just_stop s t :
      s ∈ dag_StopSchedule dag → scheduleDueAt Configured s now = Some t →
      (∃ k st, GetLatestStatus k dag = Some st ∧ rs_Status st = Running) →
      justified tp now dag (mkPlannedRun dag "" t TriggerTypeUnknown ScheduleTypeStop Schedule_zero "")
  | just_restart s t :
      s ∈ dag_RestartSchedule dag → scheduleDueAt Configured s now = Some t →
      justified tp now dag (mkPlannedRun dag "" t TriggerTypeUnknown ScheduleTypeRestart Schedule_zero "").

Lemma createPlannedRun_inv dag s t tr tp r tp' :
  createPlannedRun dag s t tr tp = Some (Some r, tp') →
  ∃ runID, r = mkPlannedRun dag runID t tr ScheduleTypeStart s (Fingerprint s) ∧
    (tr = TriggerTypeCatchUp → runID = GenerateCatchupRunID (dag_Name dag) t) ∧
    (tr ≠ TriggerTypeCatchUp → IsOneOff s = true → runID = GenerateOneOffRunID (dag_Name dag) (Fingerprint s) t).
Proof.
  unfold createPlannedRun. intros (rid & tp1 & Hrid & Hk)%bindM_inv. injection Hk as Hr _.
  destruct rid as [rid|]; [|done]. injection Hr as <-. exists rid. split; [done|].
  case_bool_decide as Hc.
  - injection Hrid as <- _. done.
  - split; [done|]. intros _ Ho. rewrite Ho in Hrid. by injection Hrid as <- _.
Qed.

Lemma createPlannedRun_catchup dag t tp :
  createPlannedRun dag Schedule_zero t TriggerTypeCatchUp tp =
  Some (Some (mkPlannedRun dag (GenerateCatchupRunID (dag_Name dag) t) t TriggerTypeCatchUp
                ScheduleTypeStart Schedule_zero (Fingerprint Schedule_zero)), tp).
Proof. done. Qed.

Lemma shouldRun_free dag t s tp tp' : shouldRun dag t s tp = Some (true, tp') → reported_free dag.
Proof.
  unfold shouldRun. intros (running & tp1 & Hr & Hk)%bindM_inv. injection Hr as Hr _.
  destruct running as [[]|]; [done| |done].
  apply bindM_inv in Hk as (queued & tp2 & Hq & Hk). injection Hq as Hq _.
  destruct queued as [[]|]; [done| |done]. by split; eexists.
Qed.

Lemma shouldRunOneOff_free dag tp tp' : shouldRunOneOff dag tp = Some (true, tp') → reported_free dag.
Proof.
  unfold shouldRunOneOff. intros (running & tp1 & Hr & Hk)%bindM_inv. injection Hr as Hr _.
  destruct running as [[]|]; [done| |done].
  apply bindM_inv in Hk as (queued & tp2 & Hq & Hk). injection Hq as Hq _.
  destruct queued as [[]|]; [done| |done]. by split; eexists.
Qed.

Lemma pending_same d fp tp1 tp2 :
  wm_OneOffs (watermark_of d tp2) = wm_OneOffs (watermark_of d tp1) →
  pendingOneOffState d fp tp2 = pendingOneOffState d fp tp1.
Proof.
  unfold pendingOneOffState, watermark_of. intros Ho.
  destruct (ss_DAGs (tp_watermarkState tp2) !! _), (ss_DAGs (tp_watermarkState tp1) !! _); simpl in *;
    [by rewrite Ho| | |done].
  - by rewrite Ho, lookup_empty.
  - by rewrite <-Ho, lookup_empty.
Qed.

(** Justification only looks at the buffer and the one-off states of the DAG. *)
Lemma justified_frame tp1 tp2 now dag r :
  tp_buffers tp2 !! dag_Name dag = tp_buffers tp1 !! dag_Name dag →
  wm_OneOffs (watermark_of (dag_Name dag) tp2) = wm_OneOffs (watermark_of (dag_Name dag) tp1) →
  justified tp2 now dag r → justified tp1 now dag r.
Proof.
  intros Hb Ho Hj.
  pose proof (λ fp, pending_same (dag_Name dag) fp tp1 tp2 Ho) as Hp.
  destruct Hj; [eapply just_catchup|eapply just_cron|eapply just_oneoff|eapply just_stop|eapply just_restart]; eauto; congruence.
Qed.
End Justified.

Lemma foldM_inv {A B} (P : B → TickPlanner → Prop) (f : B → A → M B) acc l tp b tp' :
  (∀ b x tp b' tp', x ∈ l → P b tp → f b x tp = Some (b', tp') → P b' tp') →
  P acc tp → foldM f acc l tp = Some (b, tp') → P b tp'.
Proof.
  revert acc tp. induction l as [|x l IH]; intros acc tp Hf HP; simpl.
  - by intros [= <- <-].
  - intros (b1 & tp1 & H1 & H2)%bindM_inv. eapply IH; [|eapply Hf; [by left|done|done]|done].
    intros c y t c' t' Hy. apply Hf. by right.
Qed.

Section PlanSound.
Context `{CronParser, Digest, PlannerEnv} (now : Time).

Definition cand_ok (tp : TickPlanner) (dag : DAG) (c : option PlannedRun) : Prop :=
  ∀ r, c = Some r → justified tp now dag r ∧ is_start r = true.

Lemma prefer_ok tp dag run c : cand_ok tp dag run → cand_ok tp dag c → cand_ok tp dag (prefer run c).
Proof.
  unfold prefer. intros Hr Hc. destruct run as [r|]; [|done]. by destruct (shouldPreferStartCandidate r c).
Qed.

Lemma plan_oneoff_ok tp dag c s tp1 c' tp2 :
  s ∈ dag_Schedule dag → plan_frame tp tp1 → cand_ok tp dag c →
  plan_oneoff dag now c s tp1 = Some (c', tp2) → cand_ok tp dag c'.
Proof.
  intros Hs Hf Hc. unfold plan_oneoff. destruct (IsOneOff s) eqn:Ho; [simpl|by intros [= <- _]].
  case_bool_decide as Hfp; [by intros [= <- _]|].
  intros (st & tp3 & Hst & Hk)%bindM_inv. injection Hst as Hst <-.
  rewrite (pending_same _ _ tp tp1 (pf_oneoffs _ _ Hf _)) in Hst.
  destruct st as [st|]; [|by injection Hk as <- _].
  unfold After in Hk. destruct (now <? oo_ScheduledTime st) eqn:Ht; [by injection Hk as <- _|]. breflect.
  apply bindM_inv in Hk as (ok & tp4 & Hok & Hk). destruct ok; simpl in Hk; [|by injection Hk as <- _].
  apply shouldRunOneOff_free in Hok.
  apply bindM_inv in Hk as (run & tp5 & Hrun & Hk). injection Hk as <- _.
  apply prefer_ok; [|done]. intros r ->. apply createPlannedRun_inv in Hrun as (rid & -> & _ & Hid).
  rewrite (Hid ltac:(done) Ho). split; [|done]. by eapply just_oneoff.
Qed.

Lemma plan_cron_ok tp dag c s tp1 c' tp2 :
  s ∈ dag_Schedule dag → cand_ok tp dag c →
  plan_cron dag now c s tp1 = Some (c', tp2) → cand_ok tp dag c'.
Proof.
  intros Hs Hc. unfold plan_cron. destruct (IsCron s) eqn:Ho; [simpl|by intros [= <- _]].
  destruct (scheduleDueAt Local s now) as [next|] eqn:Hd; [|by intros [= <- _]].
  intros (ok & tp4 & Hok & Hk)%bindM_inv. destruct ok; simpl in Hk; [|by injection Hk as <- _].
  apply shouldRun_free in Hok.
  apply bindM_inv in Hk as (run & tp5 & Hrun & Hk). injection Hk as <- _.
  apply prefer_ok; [|done]. intros r ->. apply createPlannedRun_inv in Hrun as (rid & -> & _).
  split; [|done]. by eapply just_cron.
Qed.

(** [new] extends [runs] by justified runs, at most one of them a start. *)
Definition extends (tp : TickPlanner) (dag : DAG) (runs runs' : list PlannedRun) : Prop :=
  ∃ new, runs' = runs ++ new ∧ Forall (justified tp now dag) new ∧
         (length (filter (λ r, is_start r = true) new) <= 1)%nat.

Lemma extends_refl tp dag runs : extends tp dag runs runs.
Proof. exists []. rewrite app_nil_r. split_and!; [done|constructor|simpl; lia]. Qed.

Lemma extends_start tp dag runs c : cand_ok tp dag c → extends tp dag runs (runs ++ option_list c).
Proof.
  intros Hc. exists (option_list c). split; [done|]. destruct c as [r|]; simpl; [|split; [constructor|lia]].
  destruct (Hc r eq_refl) as [Hj Hs]. split; [by constructor|]. rewrite filter_cons_True by done. simpl. lia.
Qed.

Lemma extends_other tp dag runs runs' r :
  justified tp now dag r → is_start r = false → extends tp dag runs runs' → extends tp dag runs (runs' ++ [r]).
Proof.
  intros Hj Hs (new & -> & Hf & Hl). exists (new ++ [r]). rewrite app_assoc. split_and!; [done| |].
  - apply Forall_app. split; [done|by constructor].
  - rewrite filter_app, filter_cons_False by (by rewrite Hs). by rewrite filter_nil, app_nil_r.
Qed.

Lemma plan_stop_ok tp dag runs runs1 s tp1 runs' tp2 :
  s ∈ dag_StopSchedule dag → extends tp dag runs runs1 →
  plan_stop dag now runs1 s tp1 = Some (runs', tp2) → extends tp dag runs runs'.
Proof.
  intros Hs He. unfold plan_stop.
  destruct (scheduleDueAt Configured s now) as [next|] eqn:Hd; [|by intros [= <- _]].
  intros (st & tp3 & Hst & Hk)%bindM_inv. injection Hst as Hst _.
  destruct st as [st|]; [|by injection Hk as <- _].
  case_bool_decide as Hr; [by injection Hk as <- _|]. injection Hk as <- _.
  apply extends_other; [|done|done]. eapply just_stop; eauto.
Qed.

Lemma plan_restarts_ok tp dag runs runs1 l :
  (∀ s, s ∈ l → s ∈ dag_RestartSchedule dag) → extends tp dag runs runs1 →
  extends tp dag runs (foldl (plan_restart dag now) runs1 l).
Proof.
  revert runs1. induction l as [|s l IH]; intros runs1 Hl He; simpl; [done|].
  apply IH; [intros x Hx; apply Hl; by right|]. unfold plan_restart.
  destruct (scheduleDueAt Configured s now) eqn:Hd; [|done].
  apply extends_other; [|done|done]. eapply just_restart; [|done]. apply Hl. by left.
Qed.

(** What [catchup_free] pops is the front item, or the last for "latest". *)
Lemma catchup_free_inv n b it tp out b' tp' :
  Peek b = Some it →
  catchup_free n b it tp = Some ((out, b'), tp') →
  ∃ it' tp1 run tp2, it' ∈ sb_items b ∧
    createPlannedRun (qi_DAG it') Schedule_zero (qi_ScheduledTime it') (qi_TriggerType it') tp1 = Some (run, tp2) ∧
    out = match run with Some r => CatchupProduced r | None => CatchupNone end ∧
    sb_overlapPolicy b' = sb_overlapPolicy b ∧
    (if bool_decide (sb_overlapPolicy b = OverlapPolicyLatest)
     then last (sb_items b) = Some it' ∧ sb_items b' = []
     else sb_items b = it' :: sb_items b') ∧
    sb_maxItems b' = sb_maxItems b.
Proof.
  intros Hp. unfold catchup_free. intros ([it' b1] & tp1 & Hc & Hk)%bindM_inv.
  apply bindM_inv in Hk as (run & tp2 & Hrun & Hk). injection Hk as <- <- <-.
  unfold Peek in Hp. destruct (sb_items b) as [|x items] eqn:Hitems; [done|]. injection Hp as ->.
  exists it', tp1, run, tp2.
  destruct (bool_decide (sb_overlapPolicy b = OverlapPolicyLatest)) eqn:Hpol; simpl in Hc.
  - destruct (1 <? Len b) eqn:Hlen.
    + destruct (exists_last (l := it :: items)) as (rest & l & Hl); [done|].
      rewrite (DropAllButLast_eq b l rest) in Hc by congruence.
      apply bindM_inv in Hc as (u & tp3 & _ & Hc). simpl in Hc. injection Hc as <- <- _.
      rewrite Hl. split_and!; [set_solver|done..|by rewrite last_snoc|done|done].
    + injection Hc as <- <- _. unfold Len in Hlen. rewrite Hitems in Hlen. breflect.
      destruct items; [|simpl in Hlen; lia]. unfold Pop. rewrite Hitems. simpl. split_and!; [by left|done..].
  - injection Hc as <- <- _. unfold Pop. rewrite Hitems. simpl. split_and!; [by left|done..].
Qed.

Lemma plan_catchup_ok n dag tp r tp' :
  planner_wf tp → dag_Name dag = n →
  plan_catchup n tp = Some (CatchupProduced r, tp') → justified tp now dag r ∧ is_start r = true.
Proof.
  intros [_ Hw] Hn. unfold plan_catchup. intros (b & tp1 & Hb & Hk)%bindM_inv. injection Hb as Hb <-.
  destruct b as [b|]; [|done]. specialize (Hw n b Hb). destruct Hw as [Hitems _ _].
  destruct (Peek b) as [it|] eqn:Hp; [|apply bindM_inv in Hk as (u & ? & _ & Hk); done].
  apply bindM_inv in Hk as (running & tp2 & _ & Hk). apply bindM_inv in Hk as (queued & tp3 & Hq & Hk).
  destruct queued as [queued|]; [|done]. injection Hq as Hq _.
  apply bindM_inv in Hk as ([out b'] & tp4 & Hres & Hk).
  apply bindM_inv in Hk as (u & tp5 & _ & Hk). injection Hk as -> _.
  destruct (negb (default false running || queued)) eqn:Hbusy; cycle 1.
  { apply bindM_inv in Hres as (b2 & ? & _ & Hres). by injection Hres as ? _ _. }
  apply negb_true_iff, orb_false_iff in Hbusy as [_ ->].
  apply catchup_free_inv in Hres as (it' & tpa & run & tpb & Hin & Hrun & Hout & _); [|done].
  destruct run as [r'|]; [|done]. injection Hout as <-.
  rewrite Forall_forall in Hitems. destruct (Hitems it' Hin) as (Hname & Htr & _).
  rewrite Htr, createPlannedRun_catchup in Hrun. injection Hrun as <- _.
  split; [|done]. rewrite Hname, <-Hn. eapply just_catchup; [by rewrite Hn|done|]. by do 2 eexists.
Qed.
End PlanSound.

Section PlanTheorem.
Context `{CronParser, Digest, PlannerEnv} (now : Time).

Lemma plan_entry_ok n runs tp runs' tp' :
  planner_wf tp → plan_entry now runs n tp = Some (runs', tp') →
  runs' = runs ∨ ∃ dag, tp_entries tp !! n = Some dag ∧ reported_not_suspended dag ∧
    extends now tp dag runs runs'.
Proof.
  intros Hwf. unfold plan_entry. intros (entry & tp1 & He & Hk)%bindM_inv. injection He as He <-.
  destruct entry as [dag|]; [|injection Hk as <- _; by left].
  pose proof (pw_entries tp Hwf n dag He) as Hn.
  apply bindM_inv in Hk as (susp & tp2 & Hs & Hk).
  pose proof (respects_io (entry_frame n) _ (frame_io n) _ _ _ Hs) as F2. injection Hs as Hs Htp2.
  destruct susp; [apply bindM_inv in Hk as (u & ? & _ & Hk); injection Hk as <- _; by left|].
  right. exists dag. split_and!; [done|by eexists|].
  assert (planner_wf tp2) as Hwf2 by (subst tp2; by destruct Hwf).
  apply bindM_inv in Hk as (out & tp3 & Hc & Hk).
  pose proof (frame_catchup n _ _ _ Hc) as F3.
  assert (∀ r, justified tp2 now dag r → justified tp now dag r) as Hback.
  { intros r. apply justified_frame; [by subst tp2|apply F2]. }
  destruct out as [|run|]; cycle 1.
  { injection Hk as <- _. destruct (plan_catchup_ok now n dag tp2 run tp3) as [Hj Hst]; [done..|].
    change [run] with (option_list (Some run)). apply extends_start. intros r [= <-]. auto. }
  { injection Hk as <- _. apply extends_refl. }
  assert (plan_frame tp tp3) as G3 by (etrans; [apply F2|apply F3]).
  apply bindM_inv in Hk as (c1 & tp4 & H4 & Hk).
  assert (cand_ok now tp dag c1 ∧ plan_frame tp tp4) as [C4 G4].
  { eapply (foldM_inv (λ c t, cand_ok now tp dag c ∧ plan_frame tp t)); [| |exact H4]; [|by split].
    intros c s t c' t' Hin [Hc1 Hf] Hst. split; [by eapply plan_oneoff_ok|].
    etrans; [done|]. by apply (frame_oneoff n) in Hst as [? _]. }
  apply bindM_inv in Hk as (c2 & tp5 & H5 & Hk).
  assert (cand_ok now tp dag c2) as C5.
  { eapply (foldM_inv (λ c t, cand_ok now tp dag c)); [|exact C4|exact H5].
    intros c s t c' t' Hin Hc1. by eapply plan_cron_ok. }
  apply bindM_inv in Hk as (runs2 & tp6 & H6 & Hk). injection Hk as <- _.
  apply plan_restarts_ok; [done|].
  eapply (foldM_inv (λ r t, extends now tp dag runs r)); [|by apply extends_start|exact H6].
  intros c s t c' t' Hin Hc1. by eapply plan_stop_ok.
Qed.

(** Expired watermarks of deleted DAGs go; entries keep theirs. *)
Lemma prune_keeps tp u tp' d :
  pruneExpiredDeletedWatermarks now tp = Some (u, tp') → is_Some (tp_entries tp !! d) →
  watermark_of d tp' = watermark_of d tp ∧ tp_entries tp' = tp_entries tp ∧ tp_buffers tp' = tp_buffers tp.
Proof.
  unfold pruneExpiredDeletedWatermarks. intros [= _ <-] [e Hd].
  assert ((const DAGWatermark_zero <$> expired_watermarks now tp) !! d = None) as Hdead.
  { rewrite lookup_fmap, fmap_None. apply map_lookup_filter_None. right.
    intros t _ (_ & Hn & _). simpl in Hn. congruence. }
  destruct (bool_decide _); (split_and!; [|done..]); unfold watermark_of; simpl;
    by rewrite lookup_difference, Hdead.
Qed.

(** The names of the DAGs a list of runs starts. *)
Definition started (runs : list PlannedRun) : list string :=
  (λ r, dag_Name (pr_DAG r)) <$> filter (λ r, is_start r = true) runs.

Lemma justified_name tp dag r : planner_wf tp → justified tp now dag r → dag_Name (pr_DAG r) = dag_Name dag.
Proof.
  intros Hwf Hj. destruct Hj as [b it Hb Hin _| | | |]; simpl; try done.
  destruct (pw_buffers tp Hwf _ _ Hb) as [Hi _ _]. rewrite Forall_forall in Hi. by apply Hi.
Qed.
End PlanTheorem.

(** ** Planning keeps the planner well-formed *)
Definition sub_buffer (b b' : ScheduleBuffer) : Prop :=
  sb_items b' `suffix_of` sb_items b ∧ sb_maxItems b' = sb_maxItems b ∧
  sb_overlapPolicy b' = sb_overlapPolicy b.

Lemma sub_buffer_ok n b b' : sub_buffer b b' → buffer_ok n b → buffer_ok n b'.
Proof.
  intros ([pre Hpre] & Hm & _) [Hi Hmax Hlen]. unfold Len in *. rewrite Hpre in Hi, Hlen.
  apply Forall_app in Hi as [_ Hi]. rewrite length_app in Hlen. split; [done|congruence|unfold Len; lia].
Qed.

Lemma DropAllButLast_sub b : sub_buffer b (DropAllButLast b).2.
Proof.
  destruct (sb_items b) as [|x l] eqn:E using rev_ind.
  - by rewrite DropAllButLast_nil.
  - rewrite (DropAllButLast_eq b x l) by done. split_and!; [|done..]. simpl. rewrite E. by exists l.
Qed.

Lemma Pop_sub b : sub_buffer b (Pop b).2.
Proof.
  unfold Pop. destruct (sb_items b) as [|x l] eqn:E; [by split_and!|]. split_and!; [|done..]. simpl.
  rewrite E. by exists [x].
Qed.

Lemma wf_same tp tp' :
  tp_entries tp' = tp_entries tp → tp_buffers tp' = tp_buffers tp → planner_wf tp → planner_wf tp'.
Proof. intros He Hb [H1 H2]. split; [by rewrite He|by rewrite Hb]. Qed.

Lemma wf_delete n tp : planner_wf tp → planner_wf (set_buffers (delete n) tp).
Proof.
  intros [H1 H2]. split; [done|]. intros k b. simpl. intros [_ Hk]%lookup_delete_Some. by apply H2.
Qed.

Lemma wf_insert n b tp : buffer_ok n b → planner_wf tp → planner_wf (set_buffers <[n := b]> tp).
Proof.
  intros Hb [H1 H2]. split; [done|]. intros k b'. simpl.
  intros [[<- <-]|[_ Hk]]%lookup_insert_Some; [done|by apply H2].
Qed.

(** Operations that leave the entries and the buffers alone. *)
Definition keeps_buffers (tp tp' : TickPlanner) : Prop :=
  tp_entries tp' = tp_entries tp ∧ tp_buffers tp' = tp_buffers tp.

#[export] Instance keeps_buffers_preorder : PreOrder keeps_buffers.
Proof. split; [by intros tp|]. intros a b c [] []. split; congruence. Qed.

Lemma keeps_refl tp tp' :
  tp_entries tp' = tp_entries tp → tp_buffers tp' = tp_buffers tp → keeps_buffers tp tp'.
Proof. by split. Qed.

Lemma keeps_wf tp tp' : keeps_buffers tp tp' → planner_wf tp → planner_wf tp'.
Proof. intros []. by apply wf_same. Qed.

#[export] Hint Resolve keeps_refl : planner.

Section PlanWf.
Context `{CronParser, Digest, PlannerEnv}.

Lemma keeps_advance d t : respects keeps_buffers (advanceDAGWatermark d t).
Proof. unfold advanceDAGWatermark. solve_respects. Qed.

Lemma keeps_past d l : respects keeps_buffers (advance_past d l).
Proof. pose proof keeps_advance. unfold advance_past. solve_respects. Qed.

Lemma keeps_create dag s t tr : respects keeps_buffers (createPlannedRun dag s t tr).
Proof. unfold createPlannedRun. solve_respects. Qed.

Lemma catchup_free_sub n b it tp out b' tp' :
  catchup_free n b it tp = Some ((out, b'), tp') → sub_buffer b b' ∧ keeps_buffers tp tp'.
Proof.
  unfold catchup_free. intros ([it' b1] & tp1 & Hc & Hk)%bindM_inv.
  apply bindM_inv in Hk as (run & tp2 & Hrun & Hk). injection Hk as _ <- <-.
  apply keeps_create in Hrun.
  assert (sub_buffer b b1 ∧ keeps_buffers tp tp1) as [Hs Hkeep].
  { destruct (_ && _); [|by injection Hc as _ <- <-].
    pose proof (DropAllButLast_sub b) as Hd. destruct (DropAllButLast b) as [dropped b2].
    apply bindM_inv in Hc as (u & tp3 & Hp & Hc). injection Hc as _ <- <-. split; [done|].
    by apply keeps_past in Hp. }
  split; [|by etrans]. destruct (Pop_sub b1) as (? & ? & ?), Hs as (? & ? & ?).
  split_and!; [by etrans|congruence..].
Qed.

Lemma catchup_busy_sub n b tp b' tp' :
  catchup_busy n b tp = Some (b', tp') → sub_buffer b b' ∧ keeps_buffers tp tp'.
Proof.
  unfold catchup_busy. case_bool_decide; [by intros [= <- <-]|]. case_bool_decide.
  - pose proof (DropAllButLast_sub b) as Hd. destruct (DropAllButLast b) as [dropped b2].
    intros (u & tp3 & Hp & Hc)%bindM_inv. injection Hc as <- <-. split; [done|]. by apply keeps_past in Hp.
  - pose proof (Pop_sub b) as Hd. destruct (Pop b) as [[it|] b2]; [|by intros [= <- <-]].
    intros (u & tp3 & Hp & Hc)%bindM_inv. injection Hc as <- <-. split; [done|]. by apply keeps_advance in Hp.
Qed.

Lemma plan_catchup_wf n tp out tp' : plan_catchup n tp = Some (out, tp') → planner_wf tp → planner_wf tp'.
Proof.
  unfold plan_catchup. intros (b & tp1 & Hb & Hk)%bindM_inv Hwf. injection Hb as Hb <-.
  destruct b as [b|]; [|by injection Hk as _ <-]. pose proof (pw_buffers tp Hwf n b Hb) as Hok.
  destruct (Peek b) as [it|].
  2: { apply bindM_inv in Hk as (u & tp2 & Hm & Hk). injection Hm as _ <-. injection Hk as _ <-.
       by apply wf_delete. }
  apply bindM_inv in Hk as (running & tp2 & Hr & Hk).
  assert (planner_wf tp2) as Hwf2 by (injection Hr as _ <-; by eapply wf_same; [| |exact Hwf]).
  apply bindM_inv in Hk as (queued & tp3 & Hq & Hk).
  assert (planner_wf tp3) as Hwf3 by (injection Hq as _ <-; by eapply wf_same; [| |exact Hwf2]).
  destruct queued as [queued|]; [|by injection Hk as _ <-].
  apply bindM_inv in Hk as ([out' b'] & tp4 & Hres & Hk).
  assert (sub_buffer b b' ∧ planner_wf tp4) as [Hs Hwf4].
  { destruct (negb _).
    - apply catchup_free_sub in Hres as [? Hkeep]. split; [done|]. by eapply keeps_wf; [exact Hkeep|].
    - apply bindM_inv in Hres as (b2 & tp5 & Hres & He). injection He as _ <- <-.
      apply catchup_busy_sub in Hres as [? Hkeep]. split; [done|]. by eapply keeps_wf; [exact Hkeep|]. }
  apply bindM_inv in Hk as (u & tp5 & Hm & Hk). injection Hm as _ <-. injection Hk as _ <-.
  destruct (_ =? 0); [by apply wf_delete|]. apply wf_insert; [|done]. by eapply sub_buffer_ok.
Qed.

End PlanWf.

Definition wf_step (tp tp' : TickPlanner) : Prop := planner_wf tp → planner_wf tp'.

#[export] Instance wf_step_preorder : PreOrder wf_step.
Proof. split; [by intros tp ?|]. intros a b c H1 H2 Hw. auto. Qed.

Lemma wf_step_same tp tp' :
  tp_entries tp' = tp_entries tp → tp_buffers tp' = tp_buffers tp → wf_step tp tp'.
Proof. intros ? ? ?. by eapply wf_same. Qed.

#[export] Hint Resolve wf_step_same wf_delete keeps_advance : planner.

Lemma not_full n b : buffer_ok n b → buffer_full b = false → Len b + 1 <= DefaultMaxBufferItems.
Proof.
  intros [_ Hm _]. unfold buffer_full. rewrite Hm. intros Hf. apply andb_false_iff in Hf as [Hf|Hf]; breflect; [done|lia].
Qed.

Lemma Prepend_ok n it b : item_ok n it → buffer_ok n b → buffer_ok n (Prepend it b).2.
Proof.
  intros Hit Hb. unfold Prepend. destruct (buffer_full b) eqn:E; [done|]. pose proof (not_full n b Hb E) as Hl.
  destruct Hb as [Hi Hm _]. split; [by constructor|done|]. unfold Len in *. simpl. lia.
Qed.

Lemma SendAll_ok n items b : Forall (item_ok n) items → buffer_ok n b → buffer_ok n (SendAll items b).
Proof.
  intros Hi. revert b. induction Hi as [|it items Hit Hi IH]; intros b Hb; simpl; [done|].
  unfold Send. destruct (buffer_full b) eqn:E; [done|]. apply IH. pose proof (not_full n b Hb E) as Hl.
  destruct Hb as [Hx Hm _]. split; simpl; [apply Forall_app; split; [done|by constructor]|done|].
  unfold Len in *. simpl. rewrite length_app. simpl. lia.
Qed.

Lemma new_buffer_ok n p : buffer_ok n (NewScheduleBuffer n p).
Proof. split; [constructor|done|done]. Qed.

Lemma catchup_items_ok dag missed : Forall (item_ok (dag_Name dag)) (catchup_items dag missed).
Proof. apply Forall_fmap, Forall_forall. by intros t _. Qed.

Lemma fill_buffer_ok dag missed : buffer_ok (dag_Name dag) (fill_buffer dag missed).2.
Proof.
  unfold fill_buffer. set (q := SendAll _ _).
  assert (buffer_ok (dag_Name dag) q) as Hq by (apply SendAll_ok; [apply catchup_items_ok|apply new_buffer_ok]).
  destruct (_ && _); [|done]. eapply sub_buffer_ok; [apply DropAllButLast_sub|done].
Qed.

Section Wf.
Context `{CronParser, Digest, PlannerEnv}.

Lemma wf_advance d t : respects wf_step (advanceDAGWatermark d t).
Proof. intros tp a tp' Ha%keeps_advance Hw. by eapply keeps_wf. Qed.

Lemma wf_past d l : respects wf_step (advance_past d l).
Proof. intros tp a tp' Ha%keeps_past Hw. by eapply keeps_wf. Qed.

Lemma wf_fill dag missed : respects wf_step (modify (set_buffers <[dag_Name dag := (fill_buffer dag missed).2]>)).
Proof. apply respects_modify. intros tp Hw. apply wf_insert; [apply fill_buffer_ok|done]. Qed.

Lemma wf_remove n : respects wf_step (modify (set_buffers (delete n))).
Proof. apply respects_modify. intros tp Hw. by apply wf_delete. Qed.

Lemma wf_create dag s t tr : respects wf_step (createPlannedRun dag s t tr).
Proof. unfold createPlannedRun. solve_respects. Qed.

Lemma wf_shouldRun dag t s : respects wf_step (shouldRun dag t s).
Proof. unfold shouldRun, skip_successful. solve_respects. Qed.

Lemma wf_shouldRunOneOff dag : respects wf_step (shouldRunOneOff dag).
Proof. unfold shouldRunOneOff. solve_respects. Qed.

Lemma wf_entry now runs n : respects wf_step (plan_entry now runs n).
Proof.
  pose proof wf_advance. pose proof wf_remove. pose proof wf_create. pose proof wf_shouldRun.
  pose proof wf_shouldRunOneOff.
  assert (respects wf_step (plan_catchup n)) by (intros tp a tp' Hc Hw; by eapply plan_catchup_wf).
  unfold plan_entry, dropSuspendedCatchupState, plan_oneoff, plan_cron, plan_stop. solve_respects.
Qed.

Lemma wf_prune now : respects wf_step (pruneExpiredDeletedWatermarks now).
Proof. apply respects_modify. intros tp. cbv zeta. apply wf_step_same; by case_bool_decide. Qed.

Lemma wf_Plan order now : respects wf_step (Plan order now).
Proof. pose proof wf_entry. pose proof wf_prune. unfold Plan. solve_respects. Qed.

Lemma wf_Advance now : respects wf_step (Advance now).
Proof.
  apply respects_modify. intros tp.
  set (tp1 := {| tp with tp_watermarkState := _ |}).
  assert (∀ l t, tp_entries (foldl advance_run t l) = tp_entries t ∧ tp_buffers (foldl advance_run t l) = tp_buffers t) as Hf.
  { induction l as [|r l IH]; intros t; [done|]. simpl. destruct (IH (advance_run t r)) as [-> ->].
    unfold advance_run. by destruct (advances r). }
  destruct (Hf (tp_lastPlanResult tp1) tp1). by apply wf_step_same.
Qed.

Lemma wf_Flush : respects wf_step Flush.
Proof. unfold Flush, emit. solve_respects. Qed.

Lemma wf_initBuffer lt wms now u dag : respects wf_step (initBuffer lt wms now u dag).
Proof.
  pose proof wf_past. pose proof wf_fill as Hfill. unfold initBuffer. solve_respects.
  match goal with E : fill_buffer ?d ?m = (_, _) |- _ => specialize (Hfill d m); by rewrite E in Hfill end.
Qed.

Lemma wf_initBuffers dags : respects wf_step (initBuffers dags).
Proof. pose proof wf_initBuffer. unfold initBuffers. solve_respects. Qed.

Lemma wf_recompute dag : respects wf_step (recomputeBuffer dag).
Proof.
  pose proof wf_advance. pose proof wf_fill as Hfill. unfold recomputeBuffer. solve_respects.
  all: match goal with E : fill_buffer ?d ?m = (_, _) |- _ => specialize (Hfill d m); by rewrite E in Hfill end.
Qed.

Lemma wf_reconcileStart dag : respects wf_step (planner_reconcileStartScheduleState dag).
Proof. unfold planner_reconcileStartScheduleState, store_reconciled. solve_respects. Qed.

Lemma wf_reconcileOneOff dag : respects wf_step (reconcileOneOffSchedules dag).
Proof. unfold reconcileOneOffSchedules, store_reconciled. solve_respects. Qed.

(** The entry reader names an event after its DAG. *)
Definition event_ok (ev : DAGChangeEvent) : Prop :=
  ∀ d, ev_DAG ev = Some d → dag_Name d = ev_DAGName ev.

Lemma wf_entry_set n d : dag_Name d = n → respects wf_step (modify (set_entry n d)).
Proof.
  intros Hn. apply respects_modify. intros tp [He Hb]. split; [|done]. intros k d'. simpl.
  intros [[<- <-]|[_ Hk]]%lookup_insert_Some; [done|by apply He].
Qed.

Lemma wf_entry_delete n :
  respects wf_step (modify (λ tp, set_buffers (delete n) {| tp with tp_entries := delete n (tp_entries tp) |})).
Proof.
  apply respects_modify. intros tp [He Hb]. apply wf_delete. split; [|done]. intros k d. simpl.
  intros [_ Hk]%lookup_delete_Some. by apply He.
Qed.

Lemma wf_handleEvent ev : event_ok ev → respects wf_step (handleEvent ev).
Proof.
  intros Hev. pose proof wf_advance. pose proof wf_Flush. pose proof wf_recompute. pose proof wf_remove.
  pose proof wf_reconcileStart. pose proof wf_reconcileOneOff.
  pose proof (wf_entry_delete (ev_DAGName ev)).
  assert (∀ d, ev_DAG ev = Some d → respects wf_step (modify (set_entry (ev_DAGName ev) d)))
    by (intros d Hd; by apply wf_entry_set, Hev).
  unfold handleEvent. solve_respects.
Qed.

Lemma wf_reinsert run : is_catchup run && is_start run = true → respects wf_step (reinsertCatchupItem run).
Proof.
  intros [Hc Hs]%andb_true_iff. apply bool_decide_eq_true in Hc, Hs.
  apply respects_modify. intros tp Hw.
  set (n := dag_Name (pr_DAG run)).
  assert (buffer_ok n (default (NewScheduleBuffer n (dag_OverlapPolicy (pr_DAG run))) (tp_buffers tp !! n))) as Hb.
  { destruct (tp_buffers tp !! n) as [b|] eqn:E; [by apply (pw_buffers tp Hw)|apply new_buffer_ok]. }
  pose proof (wf_insert n (Prepend (mkQueueItem (pr_DAG run) (pr_ScheduledTime run) (pr_TriggerType run)
     (pr_ScheduleType run)) (default (NewScheduleBuffer n (dag_OverlapPolicy (pr_DAG run))) (tp_buffers tp !! n))).2 tp) as Hi.
  apply Hi; [|done]. by apply Prepend_ok.
Qed.

Lemma wf_consume run : respects wf_step (consume_oneoff run).
Proof. pose proof wf_Flush. unfold consume_oneoff, markOneOffConsumed. solve_respects. Qed.

Lemma wf_Dispatch run : respects wf_step (DispatchRun run).
Proof.
  pose proof wf_advance. pose proof wf_consume. pose proof (wf_reinsert run).
  unfold DispatchRun, oneoff_exists, invoke, emit. solve_respects.
Qed.
End Wf.
