(* ===== verification/PlannerSafety.v ===== *)
(** * Safety of the tick planner

    The planner as a transition system: its operations in any order, as the
    cron loop, the event drainer, the flusher and the goroutines of dispatched
    runs interleave them.  Planned runs are justified and start a DAG at most
    once per round; a dispatched one-off schedule is never planned again. *)

From stdpp Require Import base strings list gmap.
From Stdlib Require Import ZArith Lia Ascii.
From S2P Require Import Prelude Status GoStrings GoDate Schedule RunStatus SchedulerData Catchup ScheduleState TickPlanner TickPlannerLaws.

Open Scope Z_scope.
Open Scope planner_scope.

Section Steps.
Context `{CronParser, Digest, PlannerEnv}.

(** One operation of the planner. *)
Inductive planner_op :=
  | OpPlan (order : list string) (now : Time)
  | OpDispatch (run : PlannedRun)
  | OpAdvance (now : Time)
  | OpFlush
  | OpEvent (ev : DAGChangeEvent).

Definition run_op (op : planner_op) : M unit :=
  match op with
  | OpPlan order now => Plan order now ;! ret tt
  | OpDispatch run => DispatchRun run
  | OpAdvance now => Advance now
  | OpFlush => Flush
  | OpEvent ev => handleEvent ev
  end.

(** Sequences of operations allowed by [ok]. *)
Inductive reaches (ok : planner_op → Prop) (tp : TickPlanner) : TickPlanner → Prop :=
  | reaches_refl : reaches ok tp tp
  | reaches_step op tp1 tp2 : reaches ok tp tp1 → ok op → run_op op tp1 = Some (tt, tp2) → reaches ok tp tp2.

Definition op_ok (op : planner_op) : Prop := match op with OpEvent ev => event_ok ev | _ => True end.

Lemma wf_run_op op : op_ok op → respects wf_step (run_op op).
Proof.
  destruct op; simpl; intros Hop; [|apply wf_Dispatch|apply wf_Advance|apply wf_Flush|by apply wf_handleEvent].
  apply respects_bind; [apply _|apply wf_Plan|]. intros _. apply respects_ret, _.
Qed.

Lemma reaches_wf ok tp tp' :
  (∀ op, ok op → op_ok op) → reaches ok tp tp' → planner_wf tp → planner_wf tp'.
Proof.
  intros Hok Hr Hw. induction Hr as [|op tp1 tp2 _ IH Hop Hs]; [done|]. by eapply wf_run_op; [apply Hok| |].
Qed.

Lemma wf_init_entries dags :
  respects wf_step (modify (λ tp, {| tp with tp_entries := foldl (λ m d, <[dag_Name d := d]> m) (tp_entries tp) dags |})).
Proof.
  apply respects_modify. intros tp [He Hb]. split; [|done]. simpl. revert He. generalize (tp_entries tp). clear.
  induction dags as [|d dags IH]; intros m Hm; simpl; [done|].
  apply IH. intros n d' [[<- <-]|[_ Hn]]%lookup_insert_Some; [done|by apply Hm].
Qed.

Lemma wf_Init loaded dags : respects wf_step (Init loaded dags).
Proof.
  pose proof wf_init_entries. pose proof wf_initBuffers. pose proof wf_Flush. unfold Init. solve_respects.
  all: apply respects_modify; intros tp; by apply wf_step_same.
Qed.

Lemma NewTickPlanner_wf : planner_wf NewTickPlanner.
Proof. split; [intros n d|intros n b]; simpl; by rewrite lookup_empty. Qed.

(** C40. From [Init] on, whatever the order of planning rounds, dispatches, ticks,
    flushes and DAG changes and whatever the collaborators answer, entries and
    buffers are keyed by the name of their DAG and no catch-up buffer holds
    anything but catch-up starts, nor more than 1000 of them. *)
Theorem planner_invariant loaded dags u tp0 tp
    (Hinit : Init loaded dags NewTickPlanner = Some (u, tp0)) (Hr : reaches op_ok tp0 tp) :
  (∀ n d, tp_entries tp !! n = Some d → dag_Name d = n) ∧
  (∀ n b it, tp_buffers tp !! n = Some b → it ∈ sb_items b →
     dag_Name (qi_DAG it) = n ∧ qi_TriggerType it = TriggerTypeCatchUp ∧ qi_ScheduleType it = ScheduleTypeStart) ∧
  (∀ n b, tp_buffers tp !! n = Some b → Len b <= DefaultMaxBufferItems).
Proof.
  assert (planner_wf tp) as [He Hb].
  { eapply reaches_wf; [|exact Hr|]; [done|]. eapply wf_Init; [exact Hinit|apply NewTickPlanner_wf]. }
  split_and!; [done| |]; intros n b.
  - intros it Hn Hin. destruct (Hb n b Hn) as [Hi _ _]. rewrite Forall_forall in Hi. by apply Hi.
  - intros Hn. by destruct (Hb n b Hn).
Qed.
End Steps.

(** ** Planning rounds *)
Section PlanSound.
Context `{CronParser, Digest, PlannerEnv} (now : Time).

(** The state of the round after the entries [done] of the order: the runs
    are justified by the state [tp0] the round began with. *)
Record round_ok (tp0 : TickPlanner) (done : list string) (runs : list PlannedRun) (tp : TickPlanner) : Prop := {
  ro_wf : planner_wf tp;
  ro_frame : plan_frame tp0 tp;
  ro_buffers : ∀ k, k ∉ done → tp_buffers tp !! k = tp_buffers tp0 !! k;
  ro_runs : ∀ r, r ∈ runs → ∃ n dag, n ∈ done ∧ tp_entries tp0 !! n = Some dag ∧ dag_Name dag = n ∧
              reported_not_suspended dag ∧ justified tp0 now dag r;
  ro_names : ∀ n, n ∈ started runs → n ∈ done;
  ro_nodup : NoDup (started runs);
}.

Lemma started_app r1 r2 : started (r1 ++ r2) = started r1 ++ started r2.
Proof. unfold started. by rewrite filter_app, fmap_app. Qed.

Lemma round_step tp0 done runs tp n runs' tp' :
  n ∉ done → planner_wf tp0 → round_ok tp0 done runs tp →
  plan_entry now runs n tp = Some (runs', tp') → round_ok tp0 (done ++ [n]) runs' tp'.
Proof.
  intros Hn Hw0 [Hwf Hfr Hb Hruns Hnames Hnd] Hp.
  destruct (frame_entry n now runs _ _ _ Hp) as [Hf' Hb'].
  assert (planner_wf tp') as Hwf' by (by eapply wf_entry).
  assert (plan_frame tp0 tp') as Hfr' by (by etrans).
  assert (∀ k, k ∉ done ++ [n] → tp_buffers tp' !! k = tp_buffers tp0 !! k) as Hbk.
  { intros k Hk. rewrite Hb' by set_solver. apply Hb. set_solver. }
  assert (runs' = runs → round_ok tp0 (done ++ [n]) runs' tp') as Hsame.
  { intros ->. split; [done..| | |done]; [|set_solver].
    intros r Hr. destruct (Hruns r Hr) as (m & dag & Hm & ?). exists m, dag. split; [set_solver|done]. }
  destruct (plan_entry_ok now n runs tp runs' tp' Hwf Hp) as [->|(dag & He & Hsus & new & -> & Hnew & Hlen)]; [by apply Hsame|].
  assert (dag_Name dag = n) as Hname by (by apply (pw_entries tp Hwf)).
  assert (∀ r, r ∈ new → justified tp0 now dag r) as Hj0.
  { intros r Hr. rewrite Forall_forall in Hnew. apply (justified_frame tp0 tp); [|apply Hfr|by apply Hnew].
    rewrite Hname. by apply Hb. }
  assert (started new = [] ∨ started new = [n]) as Hst.
  { unfold started. destruct (filter _ new) as [|r [|r' l]] eqn:E; [by left| |simpl in Hlen; lia]. right. simpl.
    f_equal. rewrite <-Hname. apply (justified_name now tp0 dag r Hw0), Hj0.
    apply (list_elem_of_filter (λ r, is_start r = true)). rewrite E. by left. }
  split; [done..| | |].
  - intros r [Hr|Hr]%elem_of_app.
    + destruct (Hruns r Hr) as (m & d & Hm & ?). exists m, d. split; [set_solver|done].
    + exists n, dag. rewrite <-(pf_entries _ _ Hfr). split_and!; [set_solver|done..|by apply Hj0].
  - intros m. rewrite started_app. intros [Hm|Hm]%elem_of_app; [apply Hnames in Hm; set_solver|].
    destruct Hst as [Hst|Hst]; rewrite Hst in Hm; set_solver.
  - rewrite started_app. apply NoDup_app. split_and!; [done| |].
    + intros m Hm Hm'. apply Hnames in Hm. destruct Hst as [Hst|Hst]; rewrite Hst in Hm'; set_solver.
    + destruct Hst as [-> | ->]; [constructor|apply NoDup_singleton].
Qed.

Lemma round_fold tp0 done order runs tp runs' tp' :
  NoDup (done ++ order) → planner_wf tp0 → round_ok tp0 done runs tp →
  foldM (plan_entry now) runs order tp = Some (runs', tp') → round_ok tp0 (done ++ order) runs' tp'.
Proof.
  revert done runs tp. induction order as [|n order IH]; intros done runs tp Hnd Hw0 Hro; simpl.
  - intros [= <- <-]. by rewrite app_nil_r.
  - intros (runs1 & tp1 & H1' & H2')%bindM_inv.
    change (n :: order) with ([n] ++ order) in Hnd |- *. rewrite app_assoc in Hnd |- *.
    eapply IH; [done|done| |exact H2']. eapply round_step; [|done|done|done].
    apply NoDup_app in Hnd as [Hnd _]. apply NoDup_app in Hnd as (_ & Hd & _). intros Hin. apply (Hd n Hin). by left.
Qed.

Lemma Plan_planned order tp runs tp' :
  planner_wf tp → NoDup order → Plan order now tp = Some (runs, tp') →
  NoDup (started runs) ∧
  (∀ r, r ∈ runs → ∃ dag, dag_Name dag ∈ order ∧ tp_entries tp !! dag_Name dag = Some dag ∧
     reported_not_suspended dag ∧ justified tp now dag r).
Proof.
  intros Hwf Horder Hplan.
  unfold Plan in Hplan. apply bindM_inv in Hplan as (u & tp1 & Hprune & Hplan).
  apply bindM_inv in Hplan as (cands & tp2 & Hfold & Hplan). injection Hplan as <- <-.
  assert (planner_wf tp1) as Hwf1 by (by eapply wf_prune).
  assert (tp_entries tp1 = tp_entries tp) as He1 by (injection Hprune as _ <-; by case_bool_decide).
  destruct (round_fold tp1 [] order [] tp1 cands tp2) as [_ _ _ Hruns _ Hnd]; [done..| |exact Hfold|].
  { split; [done..|set_solver|set_solver|constructor]. }
  split; [done|].
  intros r Hr. destruct (Hruns r Hr) as (n & dag & Hn & Hd & <- & Hs & Hj). exists dag.
  rewrite He1 in Hd. destruct (prune_keeps now tp u tp1 (dag_Name dag) Hprune) as (Hwm & _ & Hbuf); [by eexists|].
  split_and!; [done..|]. apply (justified_frame tp tp1); [by rewrite Hbuf|by rewrite Hwm|done].
Qed.

Lemma Plan_quiet order tp runs tp' :
  Plan order now tp = Some (runs, tp') → tp_lastPlanResult tp' = runs ∧ tp_trace tp' = tp_trace tp.
Proof.
  unfold Plan. intros (u & tp1 & Hprune & Hplan)%bindM_inv.
  apply bindM_inv in Hplan as (cands & tp2 & Hfold & Hplan). injection Hplan as <- <-. split; [done|]. simpl.
  transitivity (tp_trace tp1); [|injection Hprune as _ <-; by case_bool_decide].
  apply (pf_trace _ _ (respects_foldM plan_frame (plan_entry now) [] order
    (λ b x t a t' Hs, ef_plan _ _ _ (frame_entry x now b t a t' Hs)) _ _ _ Hfold)).
Qed.

(** C4. A planning round, for any order of the entries and any answers of the
    collaborators: every run it returns has its reason in the state the round
    began with (a buffered catch-up item of a DAG that is not queued; a due
    cron schedule or a due pending one-off schedule of a DAG that is neither
    running nor queued; a due stop of a running DAG; a due restart) and belongs
    to an entry that is not suspended; no DAG is started twice; and the round
    itself starts nothing. *)
Theorem Plan_sound (order : list string) (tp : TickPlanner) (runs : list PlannedRun) (tp' : TickPlanner)
    (Hwf : planner_wf tp) (Horder : NoDup order) (Hplan : Plan order now tp = Some (runs, tp')) :
  NoDup (started runs) ∧
  (∀ r, r ∈ runs → ∃ dag, dag_Name dag ∈ order ∧ tp_entries tp !! dag_Name dag = Some dag ∧
     reported_not_suspended dag ∧ justified tp now dag r) ∧
  tp_lastPlanResult tp' = runs ∧ tp_trace tp' = tp_trace tp.
Proof.
  destruct (Plan_planned order tp runs tp' Hwf Horder Hplan). destruct (Plan_quiet order tp runs tp' Hplan).
  by split_and!.
Qed.
End PlanSound.

(** ** One-off schedules run once *)
Definition oneoff_consumed (d fp : string) (tp : TickPlanner) : Prop :=
  ∃ st, wm_OneOffs (watermark_of d tp) !! fp = Some st ∧ oo_Status st = OneOffStatusConsumed.

(** [tp'] still has the entry [d] and its consumed schedule [fp] if [tp] had. *)
Definition consumed_step (d fp : string) (tp tp' : TickPlanner) : Prop :=
  is_Some (tp_entries tp !! d) ∧ oneoff_consumed d fp tp →
  is_Some (tp_entries tp' !! d) ∧ oneoff_consumed d fp tp'.

#[export] Instance consumed_step_preorder d fp : PreOrder (consumed_step d fp).
Proof. split; [by intros tp ?|]. intros a b c Ha Hb Hc. auto. Qed.

Lemma consumed_same d fp tp tp' :
  (is_Some (tp_entries tp !! d) → is_Some (tp_entries tp' !! d)) →
  wm_OneOffs (watermark_of d tp') = wm_OneOffs (watermark_of d tp) → consumed_step d fp tp tp'.
Proof. intros He Ho [H1 H2]. split; [auto|]. unfold oneoff_consumed. by rewrite Ho. Qed.

Lemma consumed_insert d fp n w tp :
  (n = d → oneoff_consumed d fp tp → ∃ st, wm_OneOffs w !! fp = Some st ∧ oo_Status st = OneOffStatusConsumed) →
  consumed_step d fp tp (set_dirty true (set_DAGs <[n := w]> tp)).
Proof.
  intros Hw [He Hc]. split; [done|]. unfold oneoff_consumed. rewrite watermark_of_set.
  case_bool_decide as E; [by apply Hw|done].
Qed.

Section OneOff.
Context `{CronParser, Digest, PlannerEnv} (d fp : string).

Lemma consumed_easy tp tp' :
  tp_entries tp' = tp_entries tp → tp_watermarkState tp' = tp_watermarkState tp → consumed_step d fp tp tp'.
Proof. intros He Hs. apply consumed_same; [by rewrite He|]. unfold watermark_of. by rewrite Hs. Qed.

Hint Resolve consumed_easy : planner.

Lemma consumed_frame tp tp' : plan_frame tp tp' → consumed_step d fp tp tp'.
Proof. intros Hf. apply consumed_same; [by rewrite (pf_entries _ _ Hf)|apply Hf]. Qed.

Lemma consumed_advance n t : respects (consumed_step d fp) (advanceDAGWatermark n t).
Proof. intros tp a tp' Ha. apply consumed_frame. by eapply (frame_advance n). Qed.

Lemma consumed_Flush : respects (consumed_step d fp) Flush.
Proof. unfold Flush, emit. solve_respects. Qed.

Lemma consumed_Plan order now : respects (consumed_step d fp) (Plan order now).
Proof.
  unfold Plan. apply respects_bind; [apply _| |intros _; apply respects_bind; [apply _| |intros runs]].
  - intros tp u tp' Hp [[e He] Hc]. destruct (prune_keeps now tp u tp' d Hp) as (Hw & Hen & _); [by eexists|].
    split; [rewrite Hen; by eexists|]. unfold oneoff_consumed. by rewrite Hw.
  - apply respects_foldM; [apply _|]. intros runs n tp u tp' Hp. apply consumed_frame. by eapply frame_entry.
  - solve_respects.
Qed.

Lemma consumed_Advance now : respects (consumed_step d fp) (Advance now).
Proof.
  apply respects_modify. intros tp. set (tp1 := {| tp with tp_watermarkState := _ |}).
  assert (∀ l t, tp_entries (foldl advance_run t l) = tp_entries t ∧
    wm_OneOffs (watermark_of d (foldl advance_run t l)) = wm_OneOffs (watermark_of d t)) as Hf.
  { induction l as [|r l IH]; intros t; [done|]. simpl. destruct (IH (advance_run t r)) as [-> ->].
    unfold advance_run. destruct (advances r); [|done]. split; [done|]. set (w := {| _ with wm_LastScheduledTime := _ |}).
    pose proof (watermark_of_set d (dag_Name (pr_DAG r)) w t) as Hset. unfold watermark_of in Hset |- *.
    simpl in Hset |- *. rewrite Hset. case_bool_decide as E; [|done]. by rewrite <-E. }
  destruct (Hf (tp_lastPlanResult tp1) tp1) as [He Ho]. apply consumed_same.
  { intros Hd. change (is_Some (tp_entries (foldl advance_run tp1 (tp_lastPlanResult tp1)) !! d)). by rewrite He. }
  transitivity (wm_OneOffs (watermark_of d tp1)); [exact Ho|done].
Qed.

Lemma consumed_mark n fp' t : respects (consumed_step d fp) (markOneOffConsumed n fp' t).
Proof.
  unfold markOneOffConsumed. case_bool_decide; [solve_respects|].
  intros tp a tp' (w & tp1 & Hw & Hk)%bindM_inv. injection Hw as <- <-.
  set (st := if IsZero _ then _ else _) in Hk. case_bool_decide; [by injection Hk as _ <-|]. injection Hk as _ <-.
  apply consumed_insert. intros -> (st' & Hst & Hc). simpl.
  destruct (decide (fp' = fp)) as [->|]; [rewrite lookup_insert_eq; by eexists|].
  rewrite lookup_insert_ne by done. by exists st'.
Qed.

Lemma consumed_consume run : respects (consumed_step d fp) (consume_oneoff run).
Proof. pose proof consumed_mark. pose proof consumed_Flush. unfold consume_oneoff. solve_respects. Qed.

Lemma consumed_Dispatch run : respects (consumed_step d fp) (DispatchRun run).
Proof.
  pose proof consumed_advance. pose proof consumed_consume.
  unfold DispatchRun, oneoff_exists, invoke, emit, reinsertCatchupItem. solve_respects.
Qed.

(** *** DAG changes *)
Lemma consumed_store n next changed tp b tp' :
  (n = d → oneoff_consumed d fp tp →
     ∃ st, wm_OneOffs next !! fp = Some st ∧ oo_Status st = OneOffStatusConsumed) →
  store_reconciled n next changed tp = Some (b, tp') → consumed_step d fp tp tp'.
Proof.
  intros Hn. unfold store_reconciled. destruct changed; simpl; [|by intros [= _ <-]]. intros [= _ <-].
  destruct (isZeroDAGWatermark next) eqn:Hz; [|by apply consumed_insert]. intros [He Hc].
  split; [done|]. destruct (decide (n = d)) as [E|E].
  - exfalso. destruct (Hn E Hc) as (st & Hst & _). unfold isZeroDAGWatermark in Hz.
    apply andb_true_iff in Hz as [_ Hz]. apply bool_decide_eq_true in Hz. by rewrite Hz, lookup_empty in Hst.
  - destruct Hc as (st & Hst & Hc). exists st. split; [|done]. rewrite <-Hst. unfold watermark_of. simpl.
    by rewrite lookup_delete_ne.
Qed.

Lemma consumed_reconcileOneOff dag :
  (dag_Name dag = d → active_fp dag fp) → respects (consumed_step d fp) (reconcileOneOffSchedules dag).
Proof.
  intros Hact tp a tp'. unfold reconcileOneOffSchedules. intros (w & tp1 & Hw & Hk)%bindM_inv.
  injection Hw as <- <-. apply bindM_inv in Hk as (now & tp1 & Hnow & Hk). injection Hnow as _ <-.
  destruct (reconcileOneOffState (watermark_of (dag_Name dag) tp) dag now) as [next changed] eqn:E.
  apply consumed_store in Hk; [intros Hc; apply Hk; by destruct Hc|]. intros Hn (st & Hst & Hc).
  pose proof (proj1 (reconcileOneOffState_lookup (watermark_of (dag_Name dag) tp) dag now fp) (Hact Hn)) as Hl.
  rewrite E in Hl. simpl in Hl. rewrite Hl, Hn.
  change (wm_OneOffs (watermark_of d tp) !! fp = Some st) in Hst. rewrite Hst.
  destruct (entry_existing now fp (oneOffSchedules dag) st) as (st' & -> & Hs). exists st'. split; [done|congruence].
Qed.

Lemma consumed_reconcileStart dag : respects (consumed_step d fp) (planner_reconcileStartScheduleState dag).
Proof.
  intros tp a tp'. unfold planner_reconcileStartScheduleState. intros (w & tp1 & Hw & Hk)%bindM_inv.
  injection Hw as <- <-. apply bindM_inv in Hk as (now & tp1 & Hnow & Hk). injection Hnow as _ <-.
  destruct (reconcileStartScheduleState (watermark_of (dag_Name dag) tp) dag now) as [next changed] eqn:E.
  apply consumed_store in Hk; [intros Hc; apply Hk; by destruct Hc|]. intros Hn (st & Hst & Hc).
  exists st. split; [|done]. rewrite <-Hst, <-Hn. f_equal. clear -E. unfold reconcileStartScheduleState in E.
  repeat (case_bool_decide || destruct (_ && _)); by injection E as <- _.
Qed.

(** An operation after which the one-off schedule [fp] is still one of [d]'s. *)
Definition keeps_schedule (op : planner_op) : Prop :=
  match op with
  | OpEvent ev => event_ok ev ∧
      (ev_DAGName ev = d → ev_Type ev ≠ DAGChangeDeleted ∧ ∀ dag, ev_DAG ev = Some dag → active_fp dag fp)
  | _ => True
  end.

Lemma consumed_recompute dag : respects (consumed_step d fp) (recomputeBuffer dag).
Proof. pose proof consumed_advance. unfold recomputeBuffer. solve_respects. Qed.

Lemma consumed_set_entry n dag : respects (consumed_step d fp) (modify (set_entry n dag)).
Proof.
  apply respects_modify. intros tp. apply consumed_same; [|done]. simpl. intros [e He].
  destruct (decide (n = d)) as [->|]; [rewrite lookup_insert_eq; by eexists|].
  rewrite lookup_insert_ne by done. by exists e.
Qed.

Lemma consumed_handleEvent ev : keeps_schedule (OpEvent ev) → respects (consumed_step d fp) (handleEvent ev).
Proof.
  intros [Hev Hkeep]. pose proof consumed_advance. pose proof consumed_Flush. pose proof consumed_recompute.
  pose proof consumed_reconcileStart. pose proof consumed_set_entry.
  assert (∀ dag, ev_DAG ev = Some dag → respects (consumed_step d fp) (reconcileOneOffSchedules dag)).
  { intros dag Hd. apply consumed_reconcileOneOff. rewrite (Hev dag Hd). intros Hn. by apply (Hkeep Hn). }
  unfold handleEvent. destruct (ev_Type ev) eqn:Ht; [solve_respects..|].
  assert (respects (consumed_step d fp) (modify (λ tp, set_buffers (delete (ev_DAGName ev))
    {| tp with tp_entries := delete (ev_DAGName ev) (tp_entries tp) |}))).
  { apply respects_modify. intros tp. apply consumed_same; [|done]. simpl. intros [e He].
    rewrite lookup_delete_ne; [by exists e|]. intros Hn. by destruct (Hkeep Hn). }
  destruct (ev_DAG ev); solve_respects.
Qed.

Lemma consumed_run_op op : keeps_schedule op → respects (consumed_step d fp) (run_op op).
Proof.
  destruct op; intros Hop; simpl; [|apply consumed_Dispatch|apply consumed_Advance|apply consumed_Flush|by apply consumed_handleEvent].
  apply respects_bind; [apply _|apply consumed_Plan|]. intros _. apply respects_ret, _.
Qed.

Lemma consumed_reaches tp tp' : reaches keeps_schedule tp tp' → consumed_step d fp tp tp'.
Proof.
  induction 1 as [|op tp1 tp2 _ IH Hop Hs]; [done|]. etrans; [exact IH|]. by eapply consumed_run_op.
Qed.
End OneOff.

(** [f] reads the same in both states. *)
Definition same_on {A} (f : TickPlanner → A) (tp tp' : TickPlanner) : Prop := f tp' = f tp.

#[export] Instance same_on_preorder {A} (f : TickPlanner → A) : PreOrder (same_on f).
Proof. unfold same_on. split; [by intros tp|]. intros a b c. congruence. Qed.

Lemma same_on_intro {A} (f : TickPlanner → A) tp tp' : f tp' = f tp → same_on f tp tp'.
Proof. done. Qed.

#[export] Hint Resolve same_on_intro : planner.

Section Once.
Context `{CronParser, Digest, PlannerEnv}.

Lemma Dispatch_entries run : respects (same_on tp_entries) (DispatchRun run).
Proof.
  assert (∀ d t, respects (same_on tp_entries) (advanceDAGWatermark d t)) by (intros d t; intros tp a tp' [? _]%keeps_advance; done).
  unfold DispatchRun, oneoff_exists, invoke, emit, reinsertCatchupItem, consume_oneoff, markOneOffConsumed, Flush, emit.
  solve_respects.
Qed.

Lemma mark_consumes d fp t tp b tp' :
  fp ≠ "" → markOneOffConsumed d fp t tp = Some (b, tp') → oneoff_consumed d fp tp'.
Proof.
  intros Hfp. unfold markOneOffConsumed. rewrite bool_decide_false by done.
  intros (w & tp1 & Hw & Hk)%bindM_inv. injection Hw as <- <-. cbv zeta in Hk.
  set (st0 := default OneOff_zero _) in Hk. case_bool_decide as Hc; injection Hk as _ <-.
  - unfold st0 in Hc. simpl in Hc.
    destruct (wm_OneOffs (watermark_of d tp) !! fp) as [st|] eqn:E; simpl in Hc; [|done].
    exists st. split; [done|]. by destruct (IsZero (oo_ScheduledTime st)).
  - unfold oneoff_consumed. rewrite watermark_of_set, bool_decide_true by done. simpl.
    rewrite lookup_insert_eq. by eexists.
Qed.

Lemma Flush_state tp u tp' : Flush tp = Some (u, tp') → tp_watermarkState tp' = tp_watermarkState tp.
Proof.
  revert tp u tp'. change (respects (same_on tp_watermarkState) Flush). unfold Flush, emit. solve_respects.
Qed.

Lemma consume_consumes run tp u tp' :
  pr_Fingerprint run ≠ "" → consume_oneoff run tp = Some (u, tp') →
  oneoff_consumed (dag_Name (pr_DAG run)) (pr_Fingerprint run) tp'.
Proof.
  intros Hfp. unfold consume_oneoff. intros (b & tp1 & Hm & Hk)%bindM_inv. apply mark_consumes in Hm; [|done].
  destruct b; [|by injection Hk as _ <-]. apply Flush_state in Hk. unfold oneoff_consumed, watermark_of in *.
  by rewrite Hk.
Qed.

(** A dispatched one-off start that is not consumed was not dispatched successfully. *)
Lemma DispatchRun_oneoff run tp u tp' :
  is_oneoff_start run = true → is_catchup run = false → pr_Fingerprint run ≠ "" →
  DispatchRun run tp = Some (u, tp') →
  oneoff_consumed (dag_Name (pr_DAG run)) (pr_Fingerprint run) tp' ∨
  (tp_trace tp' = tp_trace tp ∨ tp_trace tp' = tp_trace tp ++ [CallDispatch run false]).
Proof.
  intros Hone Hcat Hfp. unfold DispatchRun, oneoff_exists, invoke. rewrite Hone, Hcat.
  assert (is_start run = true ∧ pr_ScheduleType run = ScheduleTypeStart) as [Hstart Htype].
  { unfold is_oneoff_start in Hone. apply andb_true_iff in Hone as [Hs _]. split; [done|]. by apply bool_decide_eq_true in Hs. }
  rewrite Htype, Hstart. intros (susp & tp1 & Hs & Hk)%bindM_inv.
  assert (tp_trace tp1 = tp_trace tp) as T1 by (destruct (_ && _); by injection Hs as _ <-).
  destruct susp; [injection Hk as _ <-; right; by left|].
  apply bindM_inv in Hk as (ex & tp2 & Hex & Hk).
  assert (tp_trace tp2 = tp_trace tp) as T2 by (injection Hex as _ <-; done).
  destruct ex as [[]|]; [left; by eapply consume_consumes| |injection Hk as _ <-; right; by left].
  apply bindM_inv in Hk as (ok & tp3 & Hok & Hk).
  apply bindM_inv in Hok as (ok' & tp4 & Hd & Hok). simpl in Hok.
  assert (tp_trace tp4 = tp_trace tp) as T4 by (injection Hd as _ <-; done).
  injection Hok as <- <-. destruct ok'.
  - apply bindM_inv in Hk as (u1 & tp5 & _ & Hk). left. by eapply consume_consumes.
  - apply bindM_inv in Hk as (ex & tp5 & Hex2 & Hk).
    assert (tp_trace tp5 = tp_trace tp ++ [CallDispatch run false]) as T5 by (injection Hex2 as _ <-; simpl; by rewrite T4).
    destruct ex as [[]|]; [left; by eapply consume_consumes|simpl in Hk; injection Hk as _ <-; right; by right..].
Qed.

(** A planned one-off start is that of a pending schedule. *)
Lemma justified_oneoff tp now dag r :
  justified tp now dag r → is_oneoff_start r = true →
  pr_DAG r = dag ∧ is_Some (pendingOneOffState (dag_Name dag) (pr_Fingerprint r) tp).
Proof.
  intros Hj. destruct Hj as [|s t runID _ Hcron| | |]; unfold is_oneoff_start; simpl; try done.
  unfold IsCron, IsOneOff in *. apply bool_decide_eq_true in Hcron. by rewrite Hcron.
Qed.

Lemma consumed_not_pending d fp tp : oneoff_consumed d fp tp → pendingOneOffState d fp tp = None.
Proof.
  intros (st & Hst & Hc). unfold pendingOneOffState, watermark_of in *.
  destruct (ss_DAGs (tp_watermarkState tp) !! d) as [w|]; simpl in *; [|by rewrite lookup_empty in Hst].
  rewrite Hst. simpl. rewrite Hc. done.
Qed.

(** A one-off schedule runs once: after a dispatch of its run succeeded, no
    planning round plans it again, whatever happens in between, as long as the
    DAG exists and has the schedule. *)
Theorem oneoff_runs_once (run : PlannedRun) (tp0 tp1 tp2 tp3 : TickPlanner)
    (order : list string) (now : Time) (runs : list PlannedRun)
    (Hkind : is_oneoff_start run = true ∧ is_catchup run = false ∧ pr_Fingerprint run ≠ "")
    (Hwf : planner_wf tp0) (Hentry : is_Some (tp_entries tp0 !! dag_Name (pr_DAG run)))
    (Hdispatch : DispatchRun run tp0 = Some (tt, tp1))
    (Hstarted : CallDispatch run true ∈ drop (length (tp_trace tp0)) (tp_trace tp1))
    (Hreach : reaches (keeps_schedule (dag_Name (pr_DAG run)) (pr_Fingerprint run)) tp1 tp2)
    (Horder : NoDup order) (Hplan : Plan order now tp2 = Some (runs, tp3)) :
  ∀ r, r ∈ runs → dag_Name (pr_DAG r) = dag_Name (pr_DAG run) →
    pr_Fingerprint r = pr_Fingerprint run → is_oneoff_start r = false.
Proof.
  destruct Hkind as (Hone & Hcat & Hfp).
  assert (oneoff_consumed (dag_Name (pr_DAG run)) (pr_Fingerprint run) tp1) as Hc1.
  { destruct (DispatchRun_oneoff run tp0 tt tp1) as [?|Ht]; [done..|exfalso].
    destruct Ht as [Ht|Ht]; rewrite Ht, ?drop_all, ?drop_app_length in Hstarted; set_solver. }
  assert (is_Some (tp_entries tp1 !! dag_Name (pr_DAG run))) as He1
    by (by rewrite (Dispatch_entries run _ _ _ Hdispatch)).
  destruct (consumed_reaches _ _ tp1 tp2 Hreach (conj He1 Hc1)) as [_ Hc2].
  assert (planner_wf tp2) as Hw2.
  { eapply reaches_wf; [|exact Hreach|by eapply wf_Dispatch]. intros []; simpl; naive_solver. }
  destruct (Plan_planned now order tp2 runs tp3 Hw2 Horder Hplan) as [_ Hj].
  intros r Hr Hname Hfpr. destruct (is_oneoff_start r) eqn:Ho; [|done]. exfalso.
  destruct (Hj r Hr) as (dag & _ & _ & _ & Hjr). apply justified_oneoff in Hjr as [<- [st Hst]]; [|done].
  rewrite Hname, Hfpr, (consumed_not_pending _ _ _ Hc2) in Hst. done.
Qed.
End Once.
