(* ===== verification/PlannerTime.v ===== *)
(** * Fire times seen by the planner, and termination of a planning round

    Under the contract of the cron library on the window a decision looks at
    ([cron_ok_on]), a schedule is due at a tick exactly when it fires there,
    [computePrevExecTime] finds the fire time before a slot, and a planning
    round returns. *)

From stdpp Require Import base strings list gmap.
From Stdlib Require Import ZArith Lia Ascii.
From S2P Require Import Prelude Status GoStrings GoDate Schedule RunStatus SchedulerData Catchup ScheduleState TickPlanner TickPlannerLaws.

Open Scope Z_scope.
Open Scope planner_scope.

(** ** Due schedules *)
Lemma scheduleDueAt_iff loc s p now t :
  sc_Parsed s = Some p → cron_ok_on (now - Second) now (p loc) → now mod Minute = 0 →
  scheduleDueAt loc s now = Some t ↔ t = now ∧ fires (p loc) now.
Proof.
  intros Hp Hok Hmin. unfold scheduleDueAt, AddD, After. rewrite Hp.
  replace (now + - Second) with (now - Second) by lia.
  assert (now - Second <= now - Second <= now) as Hw by (unfold Second; lia).
  destruct (Hok (now - Second) Hw) as (Hlt & Hal & _). set (nx := p loc (now - Second)) in *.
  assert (nx <= now → nx = now) as Heq.
  { intros Hle. unfold Minute, Second in *. Z.to_euclidean_division_equations. lia. }
  destruct (now <? nx) eqn:E; breflect.
  - split; [done|]. intros [-> Hf].
    pose proof (next_least _ _ _ Hok (now - Second) now Hw ltac:(unfold Second; lia) Hf). fold nx in H. lia.
  - specialize (Heq E). split.
    + intros [= <-]. split; [done|]. rewrite <-Heq. by apply (next_fires _ _ _ Hok).
    + intros [-> _]. by rewrite Heq.
Qed.

(** ** The fire time before a slot *)
Section PrevLoop.
Context (a b : Time) (cron : Time → Time) (Hok : cron_ok_on a b cron).

Lemma prev_loop_finds fuel t prev :
  a < t → fires cron t → (b - t) / Minute + 1 <= Z.of_nat fuel →
  ∃ r, prev_loop fuel cron b t prev = Some r ∧
    ((∀ u, t <= u < b → ¬ fires cron u) ∧ r = prev ∨
     t <= r < b ∧ fires cron r ∧ ∀ u, r < u < b → ¬ fires cron u).
Proof.
  revert t prev. induction fuel as [|fuel IH]; intros t prev Ha Hf Hfuel; simpl; unfold Before.
  - destruct (t <? b) eqn:E; breflect.
    + pose proof (Z.div_pos (b - t) Minute ltac:(lia) ltac:(done)). lia.
    + exists prev. split; [done|]. left. split; [lia|done].
  - destruct (t <? b) eqn:E; breflect; [|exists prev; split; [done|]; left; split; [lia|done]].
    pose proof (next_step a b cron Hok t ltac:(lia) Hf) as Hstep.
    destruct (Hok t ltac:(lia)) as (Hlt & _).
    destruct (IH (cron t) t) as (r & -> & Hr); [lia|by apply (next_fires a b cron Hok); lia| |].
    { assert ((b - cron t) / Minute <= (b - t) / Minute - 1); [|lia].
      replace ((b - t) / Minute - 1) with ((b - t + (-1) * Minute) / Minute) by (rewrite Z.div_add; [lia|done]).
      apply Z.div_le_mono; [done|]. lia. }
    exists r. split; [done|]. right. pose proof (no_fire_between a b cron Hok t) as Hgap.
    destruct Hr as [[Hno ->]|(Hr & Hfr & Hno)].
    + split_and!; [lia|lia|done|]. intros u Hu. destruct (decide (u < cron t)); [apply Hgap; lia|apply Hno; lia].
    + split_and!; [lia|lia|done|done].
Qed.
End PrevLoop.

Lemma prev_fuel next s p :
  sc_Parsed s = Some p → cron_ok_on (next - prev_window) next (p Local) →
  ∃ r, prev_loop (minutes_between (AddD next (- prev_window)) next) (p Local) next
         (p Local (AddD next (- prev_window))) 0 = Some r ∧
    ((∀ u, next - prev_window < u < next → ¬ fires (p Local) u) ∧ r = 0 ∨
     next - prev_window < r < next ∧ fires (p Local) r ∧ ∀ u, r < u < next → ¬ fires (p Local) u).
Proof.
  intros Hp Hok. unfold AddD. replace (next + - prev_window) with (next - prev_window) by lia.
  set (seed := next - prev_window) in *. assert (seed <= seed <= next) as Hw by (unfold seed, prev_window, Hour; lia).
  destruct (Hok seed Hw) as (Hlt & _). pose proof (no_fire_between _ _ _ Hok seed) as Hgap.
  destruct (prev_loop_finds _ _ _ Hok (minutes_between seed next) (p Local seed) 0) as (r & -> & Hr).
  - lia.
  - by apply (next_fires _ _ _ Hok).
  - unfold minutes_between. pose proof (Z.div_pos (next - seed) Minute ltac:(lia) ltac:(done)).
    rewrite Z2Nat.id by lia.
    pose proof (Z.div_le_mono (next - p Local seed) (next - seed) Minute ltac:(done) ltac:(lia)). lia.
  - exists r. split; [done|]. destruct Hr as [[Hno ->]|(Hr & Hfr & Hno)]; [left|right].
    + split; [|done]. intros u Hu. destruct (decide (u < p Local seed)); [apply Hgap; lia|apply Hno; lia].
    + split_and!; [lia|lia|done|done].
Qed.

(** [computePrevExecTime] returns the last fire time before the slot [next] if
    the schedule fired in the 32 days before it, and otherwise goes back by
    the time to the following slot.  The walk is not bounded by the 7 days
    its fallback comment mentions. *)
Theorem computePrevExecTime_correct (next : Time) (s : Schedule) (p : CronSchedule)
    (Hp : sc_Parsed s = Some p) (Hok : cron_ok_on (next - prev_window) next (p Local))
    (Hpos : prev_window <= next) :
  ∃ prev, computePrevExecTime next s = Some prev ∧
    ((∃ u, next - prev_window < u < next ∧ fires (p Local) u) →
       prev < next ∧ fires (p Local) prev ∧ ∀ u, prev < u < next → ¬ fires (p Local) u) ∧
    ((∀ u, next - prev_window < u < next → ¬ fires (p Local) u) →
       prev = next - Sub (p Local (next + Second)) next).
Proof.
  unfold computePrevExecTime. rewrite Hp. destruct (prev_fuel next s p Hp Hok) as (r & -> & Hr). simpl.
  unfold IsZero, AddD. destruct Hr as [[Hno ->]|(Hr & Hf & Hno)].
  - simpl. eexists. split; [done|]. split; [|intros _; lia]. intros (u & Hu & Hfu). by destruct (Hno u Hu).
  - destruct (r =? 0) eqn:E; breflect; [lia|]. exists r. split; [done|].
    split; [intros _; split_and!; [lia|done..]|]. intros Hn. by destruct (Hn r Hr).
Qed.

(** ** Total correctness *)
Definition thoare (I : TickPlanner → Prop) {A} (m : M A) (Q : A → Prop) : Prop :=
  ∀ tp, I tp → ∃ a tp', m tp = Some (a, tp') ∧ I tp' ∧ Q a.

Section Hoare.
Context (I : TickPlanner → Prop).

Lemma thoare_ret {A} (a : A) (Q : A → Prop) : Q a → thoare I (ret a) Q.
Proof. intros Ha tp Hi. by exists a, tp. Qed.

Lemma thoare_gets {A} (f : TickPlanner → A) (Q : A → Prop) : (∀ tp, I tp → Q (f tp)) → thoare I (gets f) Q.
Proof. intros Hf tp Hi. exists (f tp), tp. auto. Qed.

Lemma thoare_io {A} (f : nat → A) :
  (∀ tp, I tp → I {| tp with tp_calls := S (tp_calls tp) |}) → thoare I (io f) (λ _, True).
Proof. intros Hf tp Hi. do 2 eexists. split; [done|]. auto. Qed.

Lemma thoare_modify f : (∀ tp, I tp → I (f tp)) → thoare I (modify f) (λ _, True).
Proof. intros Hf tp Hi. do 2 eexists. split; [done|]. auto. Qed.

Lemma thoare_loops {A} (o : option A) : is_Some o → thoare I (loops o) (λ _, True).
Proof. intros [a ->] tp Hi. by exists a, tp. Qed.

Lemma thoare_bind {A B} (m : M A) (k : A → M B) Q R :
  thoare I m Q → (∀ a, Q a → thoare I (k a) R) → thoare I (bindM m k) R.
Proof.
  intros Hm Hk tp Hi. unfold bindM. destruct (Hm tp Hi) as (a & tp1 & -> & Hi1 & Hq). by apply Hk.
Qed.

Lemma thoare_foldM {A B} (f : B → A → M B) acc l :
  (∀ b x, x ∈ l → thoare I (f b x) (λ _, True)) → thoare I (foldM f acc l) (λ _, True).
Proof.
  revert acc. induction l as [|x l IH]; intros acc Hf; [by apply thoare_ret|]. simpl.
  apply (thoare_bind _ _ (λ _, True)); [apply Hf; by left|]. intros b _. apply IH. intros c y Hy. apply Hf. by right.
Qed.
End Hoare.

(** Peels an operation that ends in [True] postconditions. *)
Ltac solve_total :=
  repeat first
    [ done
    | progress intros
    | solve [eauto with total]
    | apply thoare_ret; done
    | apply thoare_gets; done
    | apply thoare_io; solve [intros; done]
    | apply thoare_modify; solve [intros; done]
    | eapply (thoare_bind _ _ _ (λ _, True)); [|intros ? _]
    | apply thoare_foldM; intros
    | case_match ].

Create HintDb total.

(** The cron schedules of the entries keep the contract on the window a
    planning round at [now] looks at. *)
Definition entries_ok (now : Time) (tp : TickPlanner) : Prop :=
  ∀ n dag s p, tp_entries tp !! n = Some dag → s ∈ dag_Schedule dag → sc_Parsed s = Some p →
    cron_ok_on (now - Second - prev_window) now (p Local).

Section Total.
Context `{CronParser, Digest, PlannerEnv} (now : Time).

Lemma total_advance d t : thoare (entries_ok now) (advanceDAGWatermark d t) (λ _, True).
Proof. unfold advanceDAGWatermark. solve_total. Qed.

Hint Resolve total_advance : total.

Lemma total_create dag s t tr : thoare (entries_ok now) (createPlannedRun dag s t tr) (λ _, True).
Proof. unfold createPlannedRun. solve_total. Qed.

Hint Resolve total_create : total.

Lemma total_shouldRunOneOff dag : thoare (entries_ok now) (shouldRunOneOff dag) (λ _, True).
Proof. unfold shouldRunOneOff. solve_total. Qed.

Hint Resolve total_shouldRunOneOff : total.

Lemma total_shouldRun dag t s :
  is_Some (computePrevExecTime t s) → thoare (entries_ok now) (shouldRun dag t s) (λ _, True).
Proof.
  intros Hs. pose proof (thoare_loops (entries_ok now) _ Hs). unfold shouldRun, skip_successful. solve_total.
Qed.

Lemma total_drop n dag t : thoare (entries_ok now) (dropSuspendedCatchupState n dag t) (λ _, True).
Proof. unfold dropSuspendedCatchupState. solve_total. Qed.

Lemma total_catchup n : thoare (entries_ok now) (plan_catchup n) (λ _, True).
Proof. unfold plan_catchup, catchup_free, catchup_busy, advance_past. solve_total. Qed.

Lemma total_oneoff dag c s : thoare (entries_ok now) (plan_oneoff dag now c s) (λ _, True).
Proof. unfold plan_oneoff. solve_total. Qed.

Lemma total_stop dag c s : thoare (entries_ok now) (plan_stop dag now c s) (λ _, True).
Proof. unfold plan_stop. solve_total. Qed.

Lemma prev_some s next :
  (∀ p, sc_Parsed s = Some p → cron_ok_on (now - Second - prev_window) now (p Local)) →
  scheduleDueAt Local s now = Some next → is_Some (computePrevExecTime next s).
Proof.
  intros Hok. unfold scheduleDueAt, computePrevExecTime, After, AddD.
  destruct (sc_Parsed s) as [p|] eqn:Hp; [|done]. specialize (Hok p eq_refl).
  destruct (now <? _) eqn:E; [done|]. intros [= Hnext]. breflect.
  destruct (Hok (now - Second)) as (Hlt & _); [unfold prev_window, Hour, Second; lia|].
  replace (now + - Second) with (now - Second) in * by lia.
  destruct (prev_fuel next s p Hp) as (r & Hr & _).
  { intros t Ht. apply Hok. lia. }
  unfold AddD in Hr. rewrite Hr. simpl. destruct (IsZero r); by eexists.
Qed.

Lemma total_cron dag c s :
  (∀ p, sc_Parsed s = Some p → cron_ok_on (now - Second - prev_window) now (p Local)) →
  thoare (entries_ok now) (plan_cron dag now c s) (λ _, True).
Proof.
  intros Hok. unfold plan_cron. destruct (IsCron s); [simpl|solve_total].
  destruct (scheduleDueAt Local s now) as [next|] eqn:Hd; [|solve_total].
  pose proof (total_shouldRun dag next s (prev_some s next Hok Hd)). solve_total.
Qed.

Hint Resolve total_drop total_catchup total_oneoff total_stop : total.

Lemma total_entry runs n : thoare (entries_ok now) (plan_entry now runs n) (λ _, True).
Proof.
  unfold plan_entry.
  apply (thoare_bind _ _ _ (λ e, ∀ dag, e = Some dag → ∀ s p, s ∈ dag_Schedule dag → sc_Parsed s = Some p →
    cron_ok_on (now - Second - prev_window) now (p Local))).
  { apply thoare_gets. intros tp Hok dag Hd s p. by eapply Hok. }
  intros [dag|] He; [|solve_total]. specialize (He dag eq_refl).
  assert (∀ c s, s ∈ dag_Schedule dag → thoare (entries_ok now) (plan_cron dag now c s) (λ _, True))
    by (intros c s Hs; apply total_cron; eauto).
  solve_total.
Qed.

Lemma total_prune : thoare (entries_ok now) (pruneExpiredDeletedWatermarks now) (λ _, True).
Proof. apply thoare_modify. intros tp Ht. cbv zeta. by case_bool_decide. Qed.

(** A planning round returns, whatever the collaborators answer, when the cron
    schedules of the entries keep the contract of the cron library. *)
Theorem Plan_total (order : list string) (tp : TickPlanner) (Hok : entries_ok now tp) :
  ∃ runs tp', Plan order now tp = Some (runs, tp').
Proof.
  assert (thoare (entries_ok now) (Plan order now) (λ _, True)) as Ht.
  { pose proof total_entry. pose proof total_prune. unfold Plan. solve_total. }
  destruct (Ht tp Hok) as (runs & tp' & Hp & _). by exists runs, tp'.
Qed.
End Total.
