(* ===== verification/PlannerCatchup.v ===== *)
(** * Catch-up runs are not lost on a failed dispatch

    The life of the front item of a catch-up buffer through [Plan] and
    [DispatchRun]: it is enqueued and the watermark passes it, or it is back
    at the front of the buffer. *)

From stdpp Require Import base strings list gmap.
From Stdlib Require Import ZArith Lia Ascii.
From S2P Require Import Prelude Status GoStrings GoDate Schedule RunStatus SchedulerData Catchup ScheduleState TickPlanner TickPlannerLaws.

Open Scope Z_scope.
Open Scope planner_scope.

(** The items waiting for the DAG [n]. *)
Definition backlog (n : string) (tp : TickPlanner) : list QueueItem :=
  match tp_buffers tp !! n with Some b => sb_items b | None => [] end.

(** The run [createPlannedRun] makes of a catch-up item. *)
Definition catchup_run `{CronParser, Digest} (it : QueueItem) : PlannedRun :=
  mkPlannedRun (qi_DAG it) (GenerateCatchupRunID (dag_Name (qi_DAG it)) (qi_ScheduledTime it))
    (qi_ScheduledTime it) TriggerTypeCatchUp ScheduleTypeStart Schedule_zero (Fingerprint Schedule_zero).

Section CatchupLife.
Context `{CronParser, Digest, PlannerEnv}.
Context (n : string) (tp : TickPlanner) (b : ScheduleBuffer) (it : QueueItem) (rest : list QueueItem).
Context (Hwf : planner_wf tp) (Hb : tp_buffers tp !! n = Some b) (Hitems : sb_items b = it :: rest).
Context (Hpolicy : sb_overlapPolicy b ≠ OverlapPolicyLatest).

Lemma front_item_ok : item_ok n it.
Proof using Hwf Hb Hitems.
  destruct (pw_buffers tp Hwf n b Hb) as [Hi _ _]. rewrite Hitems in Hi. by apply Forall_cons in Hi as [? _].
Qed.

(** Planning pops the front item and leaves the watermark alone. *)
Lemma plan_catchup_pops run tp1 :
  plan_catchup n tp = Some (CatchupProduced run, tp1) →
  run = catchup_run it ∧ backlog n tp1 = rest ∧
  (∀ b1, tp_buffers tp1 !! n = Some b1 → sb_maxItems b1 = DefaultMaxBufferItems) ∧
  tp_watermarkState tp1 = tp_watermarkState tp ∧ tp_trace tp1 = tp_trace tp.
Proof using Hwf Hb Hitems Hpolicy.
  destruct front_item_ok as (Hname & Htr & _). destruct (pw_buffers tp Hwf n b Hb) as [_ Hmax _].
  unfold plan_catchup. intros (b' & tp2 & Hb' & Hk)%bindM_inv. injection Hb' as Hb' <-. rewrite Hb in Hb'. subst b'.
  unfold Peek in Hk. rewrite Hitems in Hk. simpl in Hk.
  apply bindM_inv in Hk as (running & tp2 & H1' & Hk). injection H1' as _ <-.
  apply bindM_inv in Hk as (queued & tp3 & H2' & Hk). injection H2' as _ <-.
  destruct queued as [queued|]; [|done].
  destruct (negb (default false running || queued)); cycle 1.
  { apply bindM_inv in Hk as ([out b2] & tp4 & H3' & Hk). apply bindM_inv in H3' as (b3 & tp5 & _ & H3').
    injection H3' as <- <- <-. apply bindM_inv in Hk as (u & tp6 & _ & Hk). by injection Hk. }
  unfold catchup_free in Hk. rewrite bool_decide_false in Hk by done. simpl in Hk.
  unfold bindM at 1 2 3 in Hk. simpl in Hk. rewrite Htr, createPlannedRun_catchup in Hk. simpl in Hk.
  unfold Pop in Hk. rewrite Hitems in Hk. simpl in Hk. injection Hk as <- <-.
  split; [done|]. unfold backlog. simpl. unfold Len. simpl.
  destruct rest as [|x l]; simpl.
  - rewrite lookup_delete_eq. split_and!; [done|done|done|done].
  - rewrite lookup_insert_eq. simpl. split_and!; [done| |done|done]. by intros b1 [= <-].
Qed.

(** A front item that [Plan] produced is dispatched in one of these ways: it
    is enqueued, and the watermark of the DAG is its slot; enqueuing failed,
    and the buffer is as it was, the item at its front, and the watermark did
    not move; the DAG was suspended meanwhile, and the watermark passes the
    item; or no queue is configured.  Its run identifier is that of its slot. *)
Theorem catchup_item_fate (run : PlannedRun) (tp1 tp2 : TickPlanner)
    (Hplan : plan_catchup n tp = Some (CatchupProduced run, tp1))
    (Hdispatch : DispatchRun run tp1 = Some (tt, tp2)) :
  run = catchup_run it ∧
  (tp_trace tp2 = tp_trace tp ++ [CallEnqueue run true] ∧
     wm_LastScheduledTime (watermark_of n tp2) = qi_ScheduledTime it ∧ backlog n tp2 = rest ∨
   tp_trace tp2 = tp_trace tp ++ [CallEnqueue run false] ∧
     tp_watermarkState tp2 = tp_watermarkState tp ∧ backlog n tp2 = it :: rest ∨
   tp_trace tp2 = tp_trace tp ∧ (∃ k, isSuspendedDAG (IsSuspended k) None (Some (qi_DAG it)) = true) ∧
     wm_LastScheduledTime (watermark_of n tp2) = qi_ScheduledTime it ∧ backlog n tp2 = rest ∨
   EnqueueOk = None).
Proof using Hwf Hb Hitems Hpolicy.
  destruct front_item_ok as (Hname & Htr & Hty).
  destruct (plan_catchup_pops run tp1 Hplan) as (-> & Hrest & Hmax & Hst & Htrace).
  split; [done|].
  assert (∀ t t' u, advanceDAGWatermark n (qi_ScheduledTime it) t = Some (u, t') →
    wm_LastScheduledTime (watermark_of n t') = qi_ScheduledTime it ∧ backlog n t' = backlog n t ∧
    tp_trace t' = tp_trace t) as Hadv.
  { intros t t' u. unfold advanceDAGWatermark. intros (w & t1 & Hw & Hk)%bindM_inv. injection Hw as <- <-.
    unfold Equal in Hk. simpl in Hk. destruct (_ =? _) eqn:E; injection Hk as _ <-; breflect; [done|].
    split_and!; [|done|done]. by rewrite watermark_of_set, bool_decide_true. }
  unfold DispatchRun in Hdispatch. apply bindM_inv in Hdispatch as (susp & tp3 & Hs & Hk).
  simpl in Hs. assert (backlog n tp3 = backlog n tp1 ∧ tp_trace tp3 = tp_trace tp1 ∧
    tp_watermarkState tp3 = tp_watermarkState tp1 ∧ tp_buffers tp3 = tp_buffers tp1) as (B3 & T3 & W3 & Bu3)
    by (injection Hs as _ <-; done).
  destruct susp.
  { simpl in Hk. apply bindM_inv in Hk as (u & tp4 & Ha & Hk). injection Hk as <-. rewrite Hname in Ha.
    destruct (Hadv _ _ _ Ha) as (? & ? & ?). right. right. left.
    injection Hs as Hs _. split_and!; [congruence|by eexists|done|congruence]. }
  simpl in Hk. unfold invoke in Hk. simpl in Hk. unfold bindM at 1 in Hk. simpl in Hk.
  destruct EnqueueOk as [enqueue|]; [|by do 3 right].
  apply bindM_inv in Hk as (res & tp4 & Hi & Hk). apply bindM_inv in Hi as (ok & tp5 & Hio & Hi).
  injection Hio as Hio <-. simpl in Hi. injection Hi as <- <-. destruct ok.
  - left. simpl in Hk. apply bindM_inv in Hk as (u & tp6 & Ha & Hk). injection Hk as <-.
    apply bindM_inv in Ha as (u' & tp7 & Ha & Hk). injection Hk as _ <-. rewrite Hname in Ha.
    destruct (Hadv _ _ _ Ha) as (? & Hb2 & Ht2). split_and!; [rewrite Ht2; simpl; congruence|done|].
    rewrite Hb2. unfold backlog in *. simpl. by rewrite Bu3.
  - right. left. simpl in Hk. injection Hk as <-. simpl. split_and!; [congruence|congruence|].
    unfold backlog in *. simpl. rewrite Hname, lookup_insert_eq, Bu3.
    assert (mkQueueItem (qi_DAG it) (qi_ScheduledTime it) TriggerTypeCatchUp ScheduleTypeStart = it) as ->
      by (rewrite <-Htr, <-Hty; by destruct it).
    assert (Z.of_nat (length rest) < DefaultMaxBufferItems) as Hroom.
    { destruct (pw_buffers tp Hwf n b Hb) as [_ _ Hlen]. unfold Len in Hlen. rewrite Hitems in Hlen. simpl in Hlen. lia. }
    destruct (tp_buffers tp1 !! n) as [b1|]; simpl; [|by subst rest].
    specialize (Hmax b1 eq_refl). unfold Prepend, buffer_full, Len. rewrite Hmax, Hrest.
    destruct (_ && _) eqn:E; [breflect; lia|done].
Qed.
End CatchupLife.
