(* ===== verification/PlannerExamples.v ===== *)
(** * The scheduler on concrete inputs

    An hourly cron schedule that keeps the contract of the cron library, an
    environment whose collaborators always answer the same, witnesses for the
    theorems on the scheduler, and schedules of events that show where the
    code departs from what its comments and documentation promise. *)

From stdpp Require Import base strings list gmap sorting.
From Stdlib Require Import ZArith Lia Ascii.
From S2P Require Import Prelude Status GoStrings GoDate Schedule RunStatus SchedulerData Catchup ScheduleState TickPlanner TickPlannerLaws PlannerSafety PlannerTime PlannerCatchup.

Open Scope Z_scope.
Open Scope planner_scope.

(** ** The environment *)
Definition hourly : CronSchedule := λ _ t, (t / Hour + 1) * Hour.

Definition hourly_parser : CronParser := {| cron_Parse := λ _, Some hourly |}.
Definition plain_digest : Digest := {| sha256_hex := λ _, "0123456789abcdef" |}.

Definition no_runs : DAGRunStatus := {| DAGRunStatus_zero with rs_Name := "d" |}.

(** Nothing is suspended, running or queued; [enqueues] tells whether
    enqueuing works, [clock] is the time between ticks. *)
Definition quiet_env (clock : Time) (enqueues : bool) : PlannerEnv := {|
  IsSuspended := λ _ _, false;
  IsRunning := λ _ _, Some false;
  IsQueued := λ _ _, Some false;
  GetLatestStatus := λ _ _, Some no_runs;
  GenRunID := λ _, Some "id";
  RunExists := λ _ _ _, Some false;
  Clock := λ _, clock;
  SaveOk := λ _ _, true;
  DispatchOk := λ _ _, true;
  StopOk := λ _ _, true;
  RestartOk := λ _ _ _, true;
  EnqueueOk := Some (λ _ _, enqueues);
  QueuesEnabled := true;
  ParseInLocation := λ _ _, None;
|}.

#[local] Existing Instance hourly_parser.
#[local] Existing Instance plain_digest.

(** Hours and minutes of one day. *)
Definition at_ (h m : Z) : Time := 739000 * Day + h * Hour + m * Minute.

Definition hourly_schedule : Schedule := mkSchedule ScheduleKindCron "0 * * * *" "" (Some hourly) 0 [].
Definition once_schedule : Schedule :=
  match NewOneOffSchedule "2026-03-29T02:10:00Z" with inr s => s | inl _ => Schedule_zero end.

Definition dag_all : DAG := plain_dag "d" "/dags/d.yaml" [hourly_schedule] [] [] (6 * Hour) OverlapPolicyAll.

Lemma hourly_ok a b : cron_ok_on a b (hourly Local).
Proof.
  intros t _. unfold hourly, Hour, Minute. split_and!.
  - pose proof (Z.mod_pos_bound t 3600000000000 ltac:(lia)). pose proof (Z.div_mod t 3600000000000 ltac:(lia)). lia.
  - replace 3600000000000 with (60 * 60000000000) at 2 by lia. rewrite Z.mul_assoc. apply Z.mod_mul. lia.
  - intros u Hu. f_equal. f_equal. symmetry. apply (Z.div_unique u _ _ (u - t / 3600000000000 * 3600000000000)); [|lia].
    left. pose proof (Z.mod_pos_bound t 3600000000000 ltac:(lia)). pose proof (Z.div_mod t 3600000000000 ltac:(lia)). lia.
Qed.

Lemma hourly_schedules_ok l a b : (∀ s, s ∈ l → sc_Parsed s = Some hourly ∨ sc_Parsed s = None) → schedules_ok l a b.
Proof. intros Hl s p Hs Hp. destruct (Hl s Hs) as [Hq|Hq]; rewrite Hq in Hp; simplify_eq. apply hourly_ok. Qed.

(** ** Planners *)
Definition start_env : PlannerEnv := quiet_env (at_ 12 58 + 30 * Second) true.

Definition down_since (h : Z) : SchedulerState := mkSchedulerState 3 (at_ h 0) ∅.

Fixpoint ticks `{PlannerEnv} (l : list Time) : M unit :=
  match l with [] => ret tt | t :: rest => runTick ["d"] t ;! ticks rest end.

Definition state_after {A} (m : M A) (tp : TickPlanner) : option TickPlanner := snd <$> m tp.

(** The slots of the calls that start runs. *)
Definition started_slots (tp : TickPlanner) : list Time :=
  omap (λ c, match c with
             | CallEnqueue r true | CallDispatch r true => Some (pr_ScheduledTime r)
             | _ => None
             end) (tp_trace tp).

Definition backlog_times (tp : TickPlanner) : list Time := qi_ScheduledTime <$> backlog "d" tp.

(** ** Departures *)

(** The scheduler was down from 9:00 to 12:58 and has three hourly slots to
    catch up.  At 13:00 the last of them is enqueued, and the slot of 13:00,
    which a planner without a backlog dispatches, is never started: a tick
    that produces a catch-up run does not look at the live schedules, and no
    later tick looks back. *)
Theorem catchup_hides_live_slot :
  let later := [at_ 12 58; at_ 12 59; at_ 13 0; at_ 13 1; at_ 14 0] in
  let run := λ since, @state_after unit
    (@Init hourly_parser start_env (Some (down_since since)) [dag_all] ;!
     @ticks start_env later) NewTickPlanner in
  fires (hourly Local) (at_ 13 0) ∧
  (started_slots <$> run 12) = Some [at_ 13 0; at_ 14 0] ∧
  (started_slots <$> run 9) = Some [at_ 10 0; at_ 11 0; at_ 12 0; at_ 14 0] ∧
  (backlog_times <$> run 9) = Some [].
Proof. vm_compute. split_and!; reflexivity. Qed.

(** With two slots still to catch up, an update of the DAG, or a restart of the
    scheduler from the state it saved, forgets them: the replay starts at the
    last tick, although neither slot was enqueued nor passed by the watermark. *)
Theorem backlog_forgotten :
  let first := @state_after unit
    (@Init hourly_parser start_env (Some (down_since 9)) [dag_all] ;!
     @ticks start_env [at_ 12 58]) NewTickPlanner in
  let update := tp ← first;
    @state_after unit (@handleEvent hourly_parser start_env (mkEvent DAGChangeUpdated (Some dag_all) "d")) tp in
  let restart := tp ← first;
    @state_after unit (@Init hourly_parser start_env (Some (tp_watermarkState tp)) [dag_all]) NewTickPlanner in
  (started_slots <$> first) = Some [at_ 10 0] ∧
  (backlog_times <$> first) = Some [at_ 11 0; at_ 12 0] ∧
  ((λ tp, wm_LastScheduledTime (watermark_of "d" tp)) <$> first) = Some (at_ 10 0) ∧
  (backlog_times <$> update) = Some [] ∧
  (backlog_times <$> restart) = Some [].
Proof. vm_compute. split_and!; reflexivity. Qed.

(** A cron expression that never fires, such as February 30: [Next] of the
    cron library returns the zero time. *)
Definition never : CronSchedule := λ _ _, 0.
Definition never_schedule : Schedule := mkSchedule ScheduleKindCron "0 0 30 2 *" "" (Some never) 0 [].

Lemma never_due loc now : 0 <= now → scheduleDueAt loc never_schedule now = Some 0.
Proof. intros Hn. unfold scheduleDueAt, After. simpl. unfold never. destruct (now <? 0) eqn:E; [breflect; lia|done]. Qed.

(** A restart schedule that never fires is due at every tick: [Plan] returns a
    restart of the DAG each time, whatever else it plans. *)
Theorem never_firing_restart `{CronParser, Digest, PlannerEnv} (dag : DAG) (now : Time)
    (runs : list PlannedRun) (Hnow : 0 <= now) (Hin : never_schedule ∈ dag_RestartSchedule dag) :
  mkPlannedRun dag "" 0 TriggerTypeUnknown ScheduleTypeRestart Schedule_zero "" ∈
    foldl (plan_restart dag now) runs (dag_RestartSchedule dag).
Proof.
  revert runs Hin. generalize (dag_RestartSchedule dag) as l. induction l as [|s l IH]; intros runs Hin; [set_solver|].
  simpl. assert (∀ acc, (∀ r, r ∈ acc → r ∈ foldl (plan_restart dag now) acc l)) as Hmono.
  { clear. induction l as [|s l IH]; intros acc r Hr; simpl; [done|]. apply IH. unfold plan_restart.
    destruct (scheduleDueAt Configured s now); set_solver. }
  apply elem_of_cons in Hin as [<-|Hin]; [|by apply IH]. apply Hmono. unfold plan_restart.
  rewrite (never_due Configured now Hnow). set_solver.
Qed.

Definition dag_never : DAG := plain_dag "d" "/dags/d.yaml" [] [] [never_schedule] 0 "".

Lemma never_firing_restart_witness :
  mkPlannedRun dag_never "" 0 TriggerTypeUnknown ScheduleTypeRestart Schedule_zero "" ∈
    foldl (plan_restart dag_never (at_ 9 0)) [] (dag_RestartSchedule dag_never).
Proof. apply (@never_firing_restart hourly_parser plain_digest start_env); [vm_compute; discriminate|by left]. Defined.

(** A catch-up run is planned, the DAG is deleted before its dispatch, which
    fails, and a DAG of the same name is added; in between, whether the DAG has
    an entry and what is in its buffer. *)
Definition failing_env : PlannerEnv := quiet_env (at_ 12 58 + 30 * Second) false.
Definition dag_new : DAG := plain_dag "d" "/dags/new.yaml" [] [] [] 0 "".

Definition delete_and_add `{PlannerEnv} : M (bool * list Time * list PlannedRun) :=
  Init (Some (down_since 9)) [dag_all] ;!
  let! runs := Plan ["d"] (at_ 12 58) in
  handleEvent (mkEvent DAGChangeDeleted None "d") ;!
  foldM (λ _ run, DispatchRun run) tt runs ;!
  let! entry := gets (λ tp, bool_decide (is_Some (tp_entries tp !! "d"))) in
  let! buffered := gets backlog_times in
  handleEvent (mkEvent DAGChangeAdded (Some dag_new) "d") ;!
  let! runs := Plan ["d"] (at_ 12 59) in
  ret (entry, buffered, runs).

(** The failed item goes back into a buffer of a DAG that has no entry, and
    when a DAG of that name is added, which should have no catch-up, the next
    tick plans the slot of the deleted DAG, with the deleted definition. *)
Theorem deleted_dag_caught_up :
  match @delete_and_add failing_env NewTickPlanner with
  | Some ((entry, buffered, runs), _) =>
      entry = false ∧ buffered = [at_ 10 0] ∧
      map (λ r, (dag_Location (pr_DAG r), pr_ScheduledTime r)) runs = [("/dags/d.yaml", at_ 10 0)]
  | None => False
  end.
Proof. vm_compute. split_and!; reflexivity. Qed.

(** ** Witnesses *)
Lemma normalizeSchedule_stable_witness :
  normalizeSchedule once_schedule = inr once_schedule ∧
  Fingerprint once_schedule = "at:2026-03-29T02:10:00Z".
Proof.
  destruct (normalizeSchedule_stable "2026-03-29T02:10:00Z" once_schedule) as (H1 & H2 & _).
  - right. split; by vm_compute.
  - split; [exact H1|]. rewrite H2. by vm_compute.
Defined.

Lemma ComputeMissedIntervals_correct_witness :
  ∃ all l, ComputeMissedIntervals [hourly_schedule] (at_ 9 0) (at_ 12 58) = Some l ∧
    StronglySorted Z.lt all ∧ l = drop (length all - MaxMissedRuns) all.
Proof.
  destruct (ComputeMissedIntervals_correct [hourly_schedule] (at_ 9 0) (at_ 12 58)) as (all & l & Hl & Hs & _ & Hd & _).
  - by vm_compute.
  - apply hourly_schedules_ok. intros s ->%list_elem_of_singleton. by left.
  - exact (ex_intro _ all (ex_intro _ l (conj Hl (conj Hs Hd)))).
Defined.

Lemma generateScheduledRunID_correct_witness :
  ValidateDAGRunID (generateScheduledRunID catchupPrefix "team.daily" "team.daily" (at_ 9 0)) = true.
Proof.
  refine (proj1 (generateScheduledRunID_correct _ catchupPrefix "team.daily" "team.daily" (at_ 9 0) _ _ _)).
  - intros s. by vm_compute.
  - by left.
  - by vm_compute.
  - by vm_compute.
Defined.

Definition dag_once : DAG := plain_dag "d" "/dags/d.yaml" [once_schedule] [] [] 0 "".

Lemma once_timed : timed (oneOffSchedules dag_once).
Proof.
  intros s t Hs. assert (oneOffSchedules dag_once = [once_schedule]) as E by by vm_compute.
  rewrite E in Hs. apply list_elem_of_singleton in Hs as ->. vm_compute. by intros [= <-].
Qed.

Lemma reconcileOneOffState_correct_witness :
  timed (oneOffSchedules dag_once) ∧
  ∀ later, reconcileOneOffState (reconcileOneOffState DAGWatermark_zero dag_once 0).1 dag_once later =
    ((reconcileOneOffState DAGWatermark_zero dag_once 0).1, false).
Proof.
  split; [exact once_timed|].
  pose proof (reconcileOneOffState_correct DAGWatermark_zero dag_once 0 once_timed) as Hc.
  destruct (reconcileOneOffState DAGWatermark_zero dag_once 0) as [next changed].
  destruct Hc as (_ & _ & _ & _ & _ & _ & Hc). exact Hc.
Defined.

Definition half_hourly_schedule : Schedule :=
  mkSchedule ScheduleKindCron "30 * * * *" "" (Some hourly) 0 [].
Definition dag_two (l : list Schedule) : DAG := plain_dag "d" "" l [] [] 0 "".

Lemma reconcileStartScheduleState_correct_witness :
  wm_StartScheduleFingerprint
    (reconcileStartScheduleState DAGWatermark_zero (dag_two [hourly_schedule; half_hourly_schedule]) 0).1 =
  startScheduleFingerprint (dag_two [hourly_schedule; half_hourly_schedule]).
Proof.
  pose proof (reconcileStartScheduleState_correct DAGWatermark_zero
    (dag_two [hourly_schedule; half_hourly_schedule]) (dag_two [half_hourly_schedule; hourly_schedule]) 0 0
    ltac:(simpl; apply Permutation_swap) eq_refl) as Hc.
  destruct (reconcileStartScheduleState _ _ _) as [next changed] in Hc |- *. exact (proj1 Hc).
Defined.

Lemma computePrevExecTime_correct_witness :
  ∃ prev, computePrevExecTime (at_ 12 0) hourly_schedule = Some prev ∧
    fires (hourly Local) prev ∧ prev < at_ 12 0.
Proof.
  destruct (computePrevExecTime_correct (at_ 12 0) hourly_schedule hourly) as (prev & Hp & Hf & _).
  - done.
  - apply hourly_ok.
  - by vm_compute.
  - destruct Hf as (Hlt & Hfires & _).
    + exists (at_ 11 0). split; [split; vm_compute; reflexivity|vm_compute; reflexivity].
    + exact (ex_intro _ prev (conj Hp (conj Hfires Hlt))).
Defined.

(** Whether an operation returns, computed. *)
Definition returns {A} (m : M A) (tp : TickPlanner) : bool :=
  match m tp with Some _ => true | None => false end.

Definition run_of {A} (m : M A) (dflt : A) (tp : TickPlanner) : A * TickPlanner := default (dflt, tp) (m tp).

Lemma run_of_eq {A} (m : M A) dflt tp :
  returns m tp = true → m tp = Some ((run_of m dflt tp).1, (run_of m dflt tp).2).
Proof. unfold returns, run_of. by destruct (m tp) as [[a tp']|]. Qed.

#[local] Opaque Plan DispatchRun Init plan_catchup run_of.

(** The planner after [Init], with three slots to catch up. *)
Definition init_d : M unit := @Init hourly_parser start_env (Some (down_since 9)) [dag_all].

Lemma init_returns : returns init_d NewTickPlanner = true.
Proof. vm_compute. reflexivity. Qed.

Definition caught : TickPlanner := (run_of init_d tt NewTickPlanner).2.

Lemma caught_init : init_d NewTickPlanner = Some ((run_of init_d tt NewTickPlanner).1, caught).
Proof. exact (run_of_eq init_d tt NewTickPlanner init_returns). Qed.

Lemma caught_wf : planner_wf caught.
Proof. exact (wf_Init (Some (down_since 9)) [dag_all] NewTickPlanner _ caught caught_init NewTickPlanner_wf). Qed.

#[local] Existing Instance start_env.

Lemma planner_invariant_witness :
  reaches op_ok caught caught ∧ ∀ n b, tp_buffers caught !! n = Some b → Len b <= DefaultMaxBufferItems.
Proof.
  split; [exact (reaches_refl _ _)|].
  exact (proj2 (proj2 (planner_invariant (Some (down_since 9)) [dag_all] _ caught caught caught_init
    (reaches_refl _ _)))).
Defined.

Definition plan_d : M (list PlannedRun) := Plan ["d"] (at_ 12 58).

Lemma plan_returns : returns plan_d caught = true.
Proof. vm_compute. reflexivity. Qed.

Definition planned : list PlannedRun * TickPlanner := run_of plan_d [] caught.

Lemma planned_eq : plan_d caught = Some (planned.1, planned.2).
Proof. exact (run_of_eq plan_d [] caught plan_returns). Qed.

Lemma Plan_sound_witness : started planned.1 = ["d"] ∧ NoDup (started planned.1).
Proof.
  split; [vm_compute; reflexivity|].
  exact (proj1 (Plan_sound (at_ 12 58) ["d"] caught planned.1 planned.2 caught_wf (NoDup_singleton "d") planned_eq)).
Defined.

Lemma caught_entries : tp_entries caught = {["d" := dag_all]}.
Proof.  reflexivity. Qed.

Lemma Plan_total_witness : ∃ runs tp', Plan ["d"] (at_ 13 0) caught = Some (runs, tp').
Proof.
  apply (Plan_total (at_ 13 0) ["d"] caught). intros n dag s p Hd Hs Hp.
  rewrite caught_entries in Hd. apply lookup_singleton_Some in Hd as [_ <-].
  apply list_elem_of_singleton in Hs as ->. injection Hp as <-. apply hourly_ok.
Defined.

(** The front item of [caught]'s buffer. *)
Definition front_of (tp : TickPlanner) : QueueItem :=
  match backlog "d" tp with
  | it :: _ => it
  | [] => mkQueueItem dag_all 0 TriggerTypeCatchUp ScheduleTypeStart
  end.

Definition caught_buffer : ScheduleBuffer :=
  default (NewScheduleBuffer "d" "") (tp_buffers caught !! "d").

Definition produce_d : M CatchupOutcome := plan_catchup "d".

Definition produced : CatchupOutcome * TickPlanner := run_of produce_d CatchupNone caught.

Definition the_run (o : CatchupOutcome) : PlannedRun :=
  match o with
  | CatchupProduced r => r
  | _ => mkPlannedRun dag_all "" 0 TriggerTypeCatchUp ScheduleTypeStart Schedule_zero ""
  end.

Lemma caught_buffer_eq : tp_buffers caught !! "d" = Some caught_buffer.
Proof. reflexivity. Qed.

Lemma caught_items : sb_items caught_buffer = front_of caught :: tail (sb_items caught_buffer).
Proof. reflexivity. Qed.

Lemma produce_returns : returns produce_d caught = true.
Proof. vm_compute. reflexivity. Qed.

Definition is_produced (o : CatchupOutcome) : bool := match o with CatchupProduced _ => true | _ => false end.

Lemma produced_run : is_produced produced.1 = true.
Proof. vm_compute. reflexivity. Qed.

Lemma the_run_eq o : is_produced o = true → o = CatchupProduced (the_run o).
Proof. by destruct o. Qed.

Lemma produced_eq : plan_catchup "d" caught = Some (CatchupProduced (the_run produced.1), produced.2).
Proof.
  rewrite <-(the_run_eq produced.1 produced_run). exact (run_of_eq produce_d CatchupNone caught produce_returns).
Qed.

Definition dispatch_d : M unit := DispatchRun (the_run produced.1).
Definition dispatched : unit * TickPlanner := run_of dispatch_d tt produced.2.

Lemma dispatch_returns : returns dispatch_d produced.2 = true.
Proof. vm_compute. reflexivity. Qed.

Lemma unit_eq (u : unit) : u = tt.
Proof. by destruct u. Qed.

Lemma dispatched_eq : DispatchRun (the_run produced.1) produced.2 = Some (tt, dispatched.2).
Proof.
  rewrite <-(unit_eq (dispatched.1)). exact (run_of_eq dispatch_d tt produced.2 dispatch_returns).
Qed.

Lemma catchup_item_fate_witness : the_run produced.1 = catchup_run (front_of caught).
Proof.
  exact (proj1 (catchup_item_fate "d" caught caught_buffer (front_of caught) (tail (sb_items caught_buffer))
    caught_wf caught_buffer_eq caught_items ltac:(vm_compute; discriminate)
    (the_run produced.1) produced.2 dispatched.2 produced_eq dispatched_eq)).
Defined.

(** A planner with a pending one-off schedule, from [Init] to its dispatch. *)
Definition once_time : Time := default 0 (OneOffTime once_schedule).

Definition once0 : TickPlanner := (run_of (Init None [dag_once]) tt NewTickPlanner).2.
Definition once1 : list PlannedRun * TickPlanner := run_of (Plan ["d"] once_time) [] once0.
Definition once_run : PlannedRun :=
  default (mkPlannedRun dag_once "" 0 TriggerTypeUnknown ScheduleTypeStop Schedule_zero "") (head once1.1).
Definition once2 : unit * TickPlanner := run_of (DispatchRun once_run) tt once1.2.
Definition once3 : list PlannedRun * TickPlanner := run_of (Plan ["d"] (NextTick once_time)) [] once2.2.

Lemma once_returns :
  returns (Init None [dag_once]) NewTickPlanner && returns (Plan ["d"] once_time) once0 &&
  returns (DispatchRun once_run) once1.2 && returns (Plan ["d"] (NextTick once_time)) once2.2 = true.
Proof. vm_compute. reflexivity. Qed.

Lemma once_wf : planner_wf once1.2.
Proof.
  pose proof once_returns as Hr. apply andb_true_iff in Hr as [[[H1 H2]%andb_true_iff _]%andb_true_iff _].
  eapply (wf_Plan ["d"] once_time); [exact (run_of_eq (Plan ["d"] once_time) [] once0 H2)|].
  exact (wf_Init None [dag_once] NewTickPlanner _ once0 (run_of_eq (Init None [dag_once]) tt NewTickPlanner H1) NewTickPlanner_wf).
Qed.

Lemma once_dispatched : DispatchRun once_run once1.2 = Some (tt, once2.2).
Proof.
  pose proof once_returns as Hr. apply andb_true_iff in Hr as [[_ H3]%andb_true_iff _].
  rewrite <-(unit_eq once2.1). exact (run_of_eq (DispatchRun once_run) tt once1.2 H3).
Qed.

Definition trace_grows (tp tp' : TickPlanner) : Prop := tp_trace tp `prefix_of` tp_trace tp'.

#[local] Instance trace_grows_preorder : PreOrder trace_grows.
Proof. unfold trace_grows. split; [by intros tp|]. intros a b c. by apply transitivity. Qed.

Lemma trace_same tp tp' : tp_trace tp' = tp_trace tp → trace_grows tp tp'.
Proof. unfold trace_grows. by intros ->. Qed.

Lemma trace_emit tp c : trace_grows tp {| tp with tp_trace := tp_trace tp ++ [c] |}.
Proof. by exists [c]. Qed.

#[local] Hint Resolve trace_same trace_emit : planner.

Lemma consume_grows run : respects trace_grows (consume_oneoff run).
Proof. unfold consume_oneoff, markOneOffConsumed, Flush, emit. solve_respects. Qed.

#[local] Transparent DispatchRun.

(** In the quiet environment a one-off start is dispatched. *)
Lemma quiet_dispatch run tp tp' :
  is_oneoff_start run = true → is_catchup run = false → DispatchRun run tp = Some (tt, tp') →
  CallDispatch run true ∈ drop (length (tp_trace tp)) (tp_trace tp').
Proof.
  intros Hone Hcat. unfold DispatchRun, oneoff_exists, invoke. rewrite Hone, Hcat.
  assert (is_start run = true ∧ pr_ScheduleType run = ScheduleTypeStart) as [Hstart Htype].
  { unfold is_oneoff_start in Hone. apply andb_true_iff in Hone as [Hs _]. split; [done|]. by apply bool_decide_eq_true in Hs. }
  rewrite Htype, Hstart. intros (susp & tp1 & Hs & Hk)%bindM_inv.
  assert (tp_trace tp1 = tp_trace tp ∧ susp = false) as [T1 ->].
  { destruct (_ && _); injection Hs as <- <-; [|done]. split; [done|]. unfold isSuspendedDAG. by case_bool_decide. }
  apply bindM_inv in Hk as (ex & tp2 & Hex & Hk). injection Hex as <- <-. simpl in Hk.
  apply bindM_inv in Hk as (ok & tp3 & Hok & Hk). apply bindM_inv in Hok as (ok' & tp4 & Hd & Hok).
  injection Hd as <- <-. simpl in Hok. injection Hok as <- <-.
  apply bindM_inv in Hk as (u & tp5 & Hu & Hk). injection Hu as _ <-.
  apply consume_grows in Hk as [l Hl]. simpl in Hl. rewrite Hl, T1, <-app_assoc, drop_app_length. by left.
Qed.

#[local] Opaque DispatchRun.

Lemma once_planned : Plan ["d"] (NextTick once_time) once2.2 = Some (once3.1, once3.2).
Proof.
  pose proof once_returns as Hr. apply andb_true_iff in Hr as [_ H4].
  exact (run_of_eq (Plan ["d"] (NextTick once_time)) [] once2.2 H4).
Qed.

Lemma oneoff_runs_once_witness :
  started once1.1 = ["d"] ∧ is_oneoff_start once_run = true ∧
  ∀ r, r ∈ once3.1 → dag_Name (pr_DAG r) = dag_Name (pr_DAG once_run) →
    pr_Fingerprint r = pr_Fingerprint once_run → is_oneoff_start r = false.
Proof.
  assert (is_oneoff_start once_run = true) as Hone by (vm_compute; reflexivity).
  assert (is_catchup once_run = false) as Hcat by (vm_compute; reflexivity).
  assert (pr_Fingerprint once_run ≠ "") as Hfp by (vm_compute; discriminate).
  assert (bool_decide (is_Some (tp_entries once1.2 !! dag_Name (pr_DAG once_run))) = true) as Hentry
    by (vm_compute; reflexivity).
  apply bool_decide_eq_true in Hentry.
  split; [vm_compute; reflexivity|]. split; [exact Hone|].
  exact (oneoff_runs_once once_run once1.2 once2.2 once2.2 once3.2 ["d"] (NextTick once_time) once3.1
    (conj Hone (conj Hcat Hfp)) once_wf Hentry once_dispatched
    (quiet_dispatch once_run once1.2 once2.2 Hone Hcat once_dispatched)
    (reaches_refl _ _) (NoDup_singleton "d")
    once_planned).
Defined.
