(* ===== verification/FileSys.v ===== *)
(** * Files, clocks and fallible operations

    The file-backed stores share this model of the operating system.  A
    directory maps the names of its entries to files; a file has a decoded
    content and a modification time.  Every system call may fail for reasons
    of its own: [SysOk] answers for the call with a given number, and [Now] and
    [FreshToken] are what the clock and the random source return at it.

    An operation passes a state and returns a value or an error, as a Go
    function that returns [(T, error)]. *)

From stdpp Require Import base strings list gmap.
From Stdlib Require Import ZArith Lia.
From S2P Require Import Prelude.

(** The errors of the stores of users, API keys and webhooks and of the service on
    top of them ([errors.Is] looks through what a message wraps). *)
Inductive AuthErr :=
  | ErrUserNotFound
  | ErrUserAlreadyExists
  | ErrInvalidUsername
  | ErrInvalidUserID
  | ErrOIDCIdentityNotFound
  | ErrOIDCIdentityAlreadyExists
  | ErrAPIKeyNotFound
  | ErrAPIKeyAlreadyExists
  | ErrInvalidAPIKeyName
  | ErrInvalidAPIKeyID
  | ErrInvalidAPIKeyHash
  | ErrInvalidRole
  | ErrWebhookNotFound
  | ErrWebhookAlreadyExists
  | ErrInvalidWebhookDAGName
  | ErrInvalidWebhookID
  | ErrInvalidWebhookTokenHash
  | ErrWebhookHMACEncryptorRequired
  | ErrWebhookHMACDecryptFailed
  | ErrInvalidWorkspaceAccess
  | ErrInvalidTokenSecret
  | ErrInvalidCredentials
  | ErrInvalidToken
  | ErrTokenExpired
  | ErrMissingSecret
  | ErrPasswordMismatch
  | ErrWeakPassword
  | ErrCannotDeleteSelf
  | ErrInvalidAPIKey
  | ErrAPIKeyNotConfigured
  | ErrInvalidCreatorID
  | ErrInvalidWebhookToken
  | ErrWebhookNotConfigured
  | ErrWebhookDisabled
  | ErrInvalidWebhookAuthMode
  | ErrInvalidWebhookHMACEnforcementMode
  | ErrWebhookHMACNotSupported
  | ErrMissingWebhookHMACSignature
  | ErrInvalidWebhookHMACSignature
  | ErrWebhookHMACNotConfigured
  | ErrUserDisabled
  | EInvalidRoleText             (* "invalid role: ..." *)
  | EHashFailed                  (* bcrypt refused the password *)
  | ERandomFailed
  | EEncryptFailed
  | ESignFailed
  | EBaseDirEmpty.

#[export] Instance AuthErr_eq_dec : EqDecision AuthErr.
Proof. solve_decision. Defined.

Inductive Err :=
  | EIO                          (* a system call failed *)
  | ENotExist
  | EExist
  | EUnmarshal
  | EContext                     (* the context is done *)
  | ErrLockConflict
  | ErrNotLocked
  | ErrLockNotHeld
  | ErrQueueFileEmpty
  | ErrQueueFileItemNotFound
  | ErrQueueEmpty
  | ErrQueueItemNotFound
  | ErrInvalidPriority
  | ErrInvalidCursor
  | ErrEOF                       (* no status in a status file *)
  | ErrReadFailed
  | ErrWriteFailed
  | ErrCompactFailed
  | ErrStatusFileOpen
  | ErrStatusFileNotOpen
  | ErrCorruptedStatusFile
  | ErrNoStatusData
  | ErrInvalidDAGRunsDir
  | ErrDAGRunIDEmpty
  | ErrDAGRunIDNotFound
  | ErrDAGRunAlreadyExists
  | ErrDAGRunActive
  | ErrRetryStaleLatest
  | ErrProcGroupEmpty
  | ErrAutoRetryNotEligible
  | ErrAutoRetryStateChanged
  | ErrNotQueued
  | ErrDAGRequired
  | ErrInvalidProcFile
  | ErrInvalidProcMeta
  | ErrHeartbeatAlreadyStarted
  | ErrHeartbeatNotStarted
  | EAuth (e : AuthErr).

#[export] Instance Err_eq_dec : EqDecision Err.
Proof. solve_decision. Defined.

(** ** Operations *)
Definition Op (S A : Type) : Type := S → (Err + A) * S.

Section Operations.
Context {S : Type}.

Definition ret {A} (a : A) : Op S A := λ s, (inr a, s).
Definition fail {A} (e : Err) : Op S A := λ s, (inl e, s).
Definition bind {A B} (m : Op S A) (k : A → Op S B) : Op S B :=
  λ s, match m s with (inl e, s') => (inl e, s') | (inr a, s') => k a s' end.
Definition gets {A} (f : S → A) : Op S A := λ s, (inr (f s), s).
Definition modify (f : S → S) : Op S unit := λ s, (inr tt, f s).

(** The error as a value, for the calls whose error the source looks at. *)
Definition try {A} (m : Op S A) : Op S (Err + A) := λ s, let '(r, s') := m s in (inr r, s').

(** [_ = f()] *)
Definition ignore {A} (m : Op S A) : Op S unit := λ s, (inr tt, (m s).2).

(** An operation on a part of the state. *)
Definition zoom {T A} (get : S → T) (put : T → S → S) (m : Op T A) : Op S A :=
  λ s, let '(r, t) := m (get s) in (r, put t s).

Fixpoint each {A B} (f : B → A → Op S B) (b : B) (l : list A) : Op S B :=
  match l with
  | [] => ret b
  | x :: l' => bind (f b x) (λ b', each f b' l')
  end.
End Operations.

Declare Scope op_scope.
Delimit Scope op_scope with op.
Notation "'let*' x := m 'in' k" := (bind m (λ x, k))
  (at level 10, x binder, m at level 100, k at level 200) : op_scope.
Notation "m ;* k" := (bind m (λ _, k)) (at level 100, right associativity) : op_scope.

(** ** The file system *)
Inductive Entry (C : Type) :=
  | File (c : C) (mtime : Time)
  | LockDir (owner : option string) (mtime : Time)  (* a lock directory and its owner file *)
  | SubDir.                      (* any other directory, not empty *)
Arguments File {C} _ _.
Arguments LockDir {C} _ _.
Arguments SubDir {C}.

Record FS (C : Type) := mkFS {
  fs_dirs : gmap string (gmap string (Entry C));
  fs_calls : nat;
}.
Arguments mkFS {C} _ _.
Arguments fs_dirs {C} _.
Arguments fs_calls {C} _.

Class OS := {
  SysOk : nat → bool;
  Now : nat → Time;
  FreshToken : nat → string;
}.

Section Calls.
Context {C : Type} `{OS}.

Definition tick (fs : FS C) : FS C := mkFS (fs_dirs fs) (S (fs_calls fs)).

(** One system call: an error of its own, or its effect. *)
Definition syscall : Op (FS C) unit :=
  λ fs, (if SysOk (fs_calls fs) then inr tt else inl EIO, tick fs).

Definition now : Op (FS C) Time := λ fs, (inr (Now (fs_calls fs)), tick fs).
Definition fresh_token : Op (FS C) string := λ fs, (inr (FreshToken (fs_calls fs)), tick fs).

Definition dir_of (d : string) (fs : FS C) : option (gmap string (Entry C)) := fs_dirs fs !! d.
Definition entry_of (d n : string) (fs : FS C) : option (Entry C) := dir ← dir_of d fs; dir !! n.

Definition set_dir (d : string) (dir : gmap string (Entry C)) (fs : FS C) : FS C :=
  mkFS (<[d := dir]> (fs_dirs fs)) (fs_calls fs).

(** [os.Stat]: [inl ENotExist] when the directory or the entry is missing. *)
Definition stat_dir (d : string) : Op (FS C) unit :=
  (syscall ;* let* r := gets (dir_of d) in
   match r with Some _ => ret tt | None => fail ENotExist end)%op.

Definition stat (d n : string) : Op (FS C) (Entry C) :=
  (syscall ;* let* r := gets (entry_of d n) in
   match r with Some e => ret e | None => fail ENotExist end)%op.

Definition mkdir_all (d : string) : Op (FS C) unit :=
  (syscall ;* modify (λ fs, match dir_of d fs with Some _ => fs | None => set_dir d ∅ fs end))%op.

(** A file renamed into place: readers see all of it or nothing. *)
Definition rename_into (d n : string) (c : C) (mtime : Time) : Op (FS C) unit :=
  (syscall ;* let* r := gets (dir_of d) in
   match r with
   | Some dir => modify (set_dir d (<[n := File c mtime]> dir))
   | None => fail ENotExist
   end)%op.

(** [os.Remove] of a file. *)
Definition remove (d n : string) : Op (FS C) unit :=
  (syscall ;* let* r := gets (dir_of d) in
   match r with
   | Some dir =>
       match dir !! n with
       | Some (File _ _) => modify (set_dir d (delete n dir))
       | Some _ => fail EIO
       | None => fail ENotExist
       end
   | None => fail ENotExist
   end)%op.

(** [os.Remove] of a directory, which must be empty. *)
Definition remove_dir (d : string) : Op (FS C) unit :=
  (syscall ;* let* r := gets (dir_of d) in
   match r with
   | Some dir =>
       if bool_decide (dir = ∅) then modify (λ fs, mkFS (delete d (fs_dirs fs)) (fs_calls fs)) else fail EIO
   | None => fail ENotExist
   end)%op.

Definition read_file (d n : string) : Op (FS C) C :=
  (syscall ;* let* r := gets (entry_of d n) in
   match r with Some (File c _) => ret c | Some _ => fail EIO | None => fail ENotExist end)%op.

(** [os.ReadDir]: the names of the entries that are not directories. *)
Definition read_dir_files (d : string) : Op (FS C) (list string) :=
  (syscall ;* let* r := gets (dir_of d) in
   match r with
   | Some dir => ret (filter (λ n, match dir !! n with Some (File _ _) => true | _ => false end = true)
                        (map_to_list dir).*1)
   | None => fail ENotExist
   end)%op.
End Calls.

(** *** Lookups after updates *)
Section Lookups.
Context {C : Type}.
Implicit Types fs : FS C.

Lemma entry_set_dir d d' n dir fs :
  entry_of d n (set_dir d' dir fs) = if bool_decide (d = d') then dir !! n else entry_of d n fs.
Proof.
  unfold entry_of, dir_of. simpl. case_bool_decide as E; [subst; by rewrite lookup_insert_eq|].
  by rewrite lookup_insert_ne by done.
Qed.

Lemma dir_set_dir d dir fs : dir_of d (set_dir d dir fs) = Some dir.
Proof. unfold dir_of. simpl. by rewrite lookup_insert_eq. Qed.

Lemma entry_some d n fs e : entry_of d n fs = Some e → ∃ dir, dir_of d fs = Some dir ∧ dir !! n = Some e.
Proof. unfold entry_of. destruct (dir_of d fs) as [dir|]; [|done]. eauto. Qed.
End Lookups.

(** ** Laws of operations *)
Section Laws.
Context {S : Type}.
Implicit Types s : S.

Lemma bind_inr {A B} (m : Op S A) (k : A → Op S B) s b s' :
  bind m k s = (inr b, s') → ∃ a s1, m s = (inr a, s1) ∧ k a s1 = (inr b, s').
Proof. unfold bind. destruct (m s) as [[e|a] s1]; [done|]. eauto. Qed.

Lemma bind_inv {A B} (m : Op S A) (k : A → Op S B) s r s' :
  bind m k s = (r, s') →
  (∃ e, m s = (inl e, s') ∧ r = inl e) ∨ (∃ a s1, m s = (inr a, s1) ∧ k a s1 = (r, s')).
Proof. unfold bind. destruct (m s) as [[e|a] s1]; [intros [= <- <-]|]; eauto. Qed.

Lemma bind_step {A B} (m : Op S A) (k : A → Op S B) s a s1 : m s = (inr a, s1) → bind m k s = k a s1.
Proof. unfold bind. by intros ->. Qed.
Lemma bind_fail {A B} (m : Op S A) (k : A → Op S B) s e s1 : m s = (inl e, s1) → bind m k s = (inl e, s1).
Proof. unfold bind. by intros ->. Qed.
Lemma try_step {A} (m : Op S A) s r s1 : m s = (r, s1) → try m s = (inr r, s1).
Proof. unfold try. by intros ->. Qed.
Lemma ignore_step {A} (m : Op S A) s r s1 : m s = (r, s1) → ignore m s = (inr tt, s1).
Proof. unfold ignore. by intros ->. Qed.

(** *** A relation every run of an operation is in *)
Definition respects {A} (R : relation S) (m : Op S A) : Prop := ∀ s r s', m s = (r, s') → R s s'.

Section Respects.
Context (R : relation S) `{!PreOrder R}.

Lemma op_ret_respects {A} (a : A) : respects R (ret a).
Proof. by intros s r s' [= <- <-]. Qed.
Lemma op_fail_respects {A} e : respects R (A := A) (fail e).
Proof. by intros s r s' [= <- <-]. Qed.
Lemma op_gets_respects {A} (f : S → A) : respects R (gets f).
Proof. by intros s r s' [= <- <-]. Qed.
Lemma op_modify_respects f : (∀ s, R s (f s)) → respects R (modify f).
Proof. intros Hf s r s' [= <- <-]. apply Hf. Qed.
Lemma op_bind_respects {A B} (m : Op S A) (k : A → Op S B) :
  respects R m → (∀ a, respects R (k a)) → respects R (bind m k).
Proof.
  intros Hm Hk s r s' Hb. destruct (bind_inv _ _ _ _ _ Hb) as [(e & He & _)|(a & s1 & Ha & Hr)].
  - by eapply Hm.
  - transitivity s1; [by eapply Hm|by eapply Hk].
Qed.
Lemma op_try_respects {A} (m : Op S A) : respects R m → respects R (try m).
Proof. intros Hm s r s'. unfold try. destruct (m s) eqn:E. intros [= <- <-]. by eapply Hm. Qed.
Lemma op_ignore_respects {A} (m : Op S A) : respects R m → respects R (ignore m).
Proof. intros Hm s r s'. unfold ignore. destruct (m s) eqn:E. intros [= <- <-]. by eapply Hm. Qed.
Lemma respects_each {A B} (f : B → A → Op S B) l b :
  (∀ b x, respects R (f b x)) → respects R (each f b l).
Proof.
  intros Hf. revert b. induction l as [|x l IH]; intros b; simpl; [apply op_ret_respects|].
  apply op_bind_respects; [apply Hf|apply IH].
Qed.
End Respects.
End Laws.

Lemma respects_zoom {S T A} (R : relation S) (R' : relation T) (get : S → T) (put : T → S → S) (m : Op T A) :
  (∀ s t, R' (get s) t → R s (put t s)) → respects R' m → respects R (zoom get put m).
Proof.
  intros HR Hm s r s'. unfold zoom. destruct (m (get s)) as [r1 t] eqn:E. intros [= <- <-].
  apply HR. by eapply Hm.
Qed.

Lemma respects_weaken {S A} (R R' : relation S) (m : Op S A) :
  respects R m → (∀ s s', R s s' → R' s s') → respects R' m.
Proof. intros Hm HR s r s' Hs. by eapply HR, Hm. Qed.

Create HintDb ops.
#[export] Hint Resolve op_ret_respects op_fail_respects op_gets_respects op_try_respects op_ignore_respects : ops.

(** Walk through an operation; what is left are its calls and updates. *)
Ltac walk_op :=
  repeat first
    [ progress intros
    | apply op_bind_respects; [typeclasses eauto| |]
    | apply op_ret_respects; typeclasses eauto | apply op_fail_respects; typeclasses eauto
    | apply op_gets_respects; typeclasses eauto
    | apply op_try_respects | apply op_ignore_respects
    | apply respects_each; [typeclasses eauto|]
    | assumption
    | match goal with |- respects _ (match ?x with _ => _ end) => destruct x end
    | match goal with |- respects _ (if ?x then _ else _) => destruct x end ].

(** ** Weakest preconditions

    [wp m s Q]: [Q] holds of the result of [m] in [s]; the operations are total,
    so this is total correctness. *)
Definition wp {S A} (m : Op S A) (s : S) (Q : Err + A → S → Prop) : Prop := Q (m s).1 (m s).2.

Section WP.
Context {S : Type}.
Implicit Types s : S.

Lemma wp_eq {A} (m : Op S A) s Q r s' : wp m s Q → m s = (r, s') → Q r s'.
Proof. unfold wp. intros HQ E. by rewrite E in HQ. Qed.
Lemma wp_intro {A} (m : Op S A) s (Q : Err + A → S → Prop) : (∀ r s', m s = (r, s') → Q r s') → wp m s Q.
Proof. intros HQ. unfold wp. apply HQ. by destruct (m s). Qed.
Lemma wp_mono {A} (m : Op S A) s (Q Q' : Err + A → S → Prop) :
  wp m s Q → (∀ r s', Q r s' → Q' r s') → wp m s Q'.
Proof. unfold wp. auto. Qed.
Lemma wp_ret {A} (a : A) s (Q : Err + A → S → Prop) : Q (inr a) s → wp (ret a) s Q.
Proof. done. Qed.
Lemma wp_fail {A} e s (Q : Err + A → S → Prop) : Q (inl e) s → wp (fail e) s Q.
Proof. done. Qed.
Lemma wp_gets {A} (f : S → A) s (Q : Err + A → S → Prop) : Q (inr (f s)) s → wp (gets f) s Q.
Proof. done. Qed.
Lemma wp_modify f s (Q : Err + unit → S → Prop) : Q (inr tt) (f s) → wp (modify f) s Q.
Proof. done. Qed.
Lemma wp_bind {A B} (m : Op S A) (k : A → Op S B) s Q :
  wp m s (λ r s1, match r with inr a => wp (k a) s1 Q | inl e => Q (inl e) s1 end) → wp (bind m k) s Q.
Proof. unfold wp, bind. destruct (m s) as [[e|a] s1]; auto. Qed.
Lemma wp_try {A} (m : Op S A) s Q : wp m s (λ r s1, Q (inr r) s1) → wp (try m) s Q.
Proof. unfold wp, try. by destruct (m s). Qed.
Lemma wp_ignore {A} (m : Op S A) s Q : wp m s (λ _ s1, Q (inr tt) s1) → wp (ignore m) s Q.
Proof. unfold wp, ignore. by destruct (m s). Qed.
Lemma wp_zoom {T A} (get : S → T) put (m : Op T A) s Q :
  wp m (get s) (λ r t, Q r (put t s)) → wp (zoom get put m) s Q.
Proof. unfold wp, zoom. by destruct (m (get s)). Qed.

(** A loop that does not fail: an invariant over the elements done so far. *)
Lemma wp_each {A B} (f : B → A → Op S B) (I : list A → B → S → Prop) l b s Q :
  I [] b s →
  (∀ done x rest b s, l = done ++ x :: rest → I done b s →
     wp (f b x) s (λ r s1, ∃ b', r = inr b' ∧ I (done ++ [x]) b' s1)) →
  (∀ b s, I l b s → Q (inr b) s) →
  wp (each f b l) s Q.
Proof.
  intros H0 Hstep HQ.
  assert (∀ rest done b s, l = done ++ rest → I done b s → wp (each f b rest) s Q) as Hgen.
  { induction rest as [|x rest IH]; intros pre b1 s1 -> HI; simpl.
    - apply wp_ret, HQ. by rewrite app_nil_r in *.
    - apply wp_bind. eapply wp_mono; [by eapply Hstep|]. intros r s2 (b' & -> & HI'). simpl.
      apply (IH (pre ++ [x])); [by rewrite <-app_assoc|done]. }
  by apply (Hgen l []).
Qed.
End WP.

(** Walk through an operation by its weakest precondition. *)
Ltac wp_step :=
  first
    [ apply wp_bind | apply wp_try | apply wp_ignore | apply wp_ret | apply wp_fail | apply wp_gets | apply wp_modify ].

(** *** System calls that succeed *)
Section Succeeds.
Context {C : Type} `{OS} (Hok : ∀ n, SysOk n = true).
Implicit Types fs : FS C.

Lemma wp_syscall fs Q : Q (inr tt) (tick fs) → wp (syscall (C := C)) fs Q.
Proof using Hok. unfold wp, syscall. simpl. by rewrite Hok. Qed.
Lemma wp_now fs Q : Q (inr (Now (fs_calls fs))) (tick fs) → wp (now (C := C)) fs Q.
Proof. done. Qed.
Lemma wp_stat_dir d fs Q :
  Q (match dir_of d fs with Some _ => inr tt | None => inl ENotExist end) (tick fs) → wp (stat_dir d) fs Q.
Proof using Hok.
  intros HQ. unfold stat_dir. apply wp_bind, wp_syscall, wp_bind, wp_gets.
  unfold dir_of in *. simpl. by destruct (fs_dirs fs !! d).
Qed.
Lemma wp_stat d n fs Q :
  Q (match entry_of d n fs with Some e => inr e | None => inl ENotExist end) (tick fs) → wp (stat d n) fs Q.
Proof using Hok.
  intros HQ. unfold stat. apply wp_bind, wp_syscall, wp_bind, wp_gets.
  change (entry_of d n (tick fs)) with (entry_of d n fs). by destruct (entry_of d n fs).
Qed.
Lemma wp_read_file d n fs Q :
  Q (match entry_of d n fs with Some (File c _) => inr c | Some _ => inl EIO | None => inl ENotExist end) (tick fs) →
  wp (read_file d n) fs Q.
Proof using Hok.
  intros HQ. unfold read_file. apply wp_bind, wp_syscall, wp_bind, wp_gets.
  change (entry_of d n (tick fs)) with (entry_of d n fs). by destruct (entry_of d n fs) as [[]|].
Qed.
Lemma wp_mkdir_all d fs Q :
  Q (inr tt) (match dir_of d fs with Some _ => tick fs | None => set_dir d ∅ (tick fs) end) → wp (mkdir_all d) fs Q.
Proof using Hok. intros HQ. unfold mkdir_all. apply wp_bind, wp_syscall, wp_modify. exact HQ. Qed.
Lemma wp_rename_into d n c mtime fs Q :
  is_Some (dir_of d fs) →
  (∀ fs', fs_calls fs' = S (fs_calls fs) →
     (∀ d' n', entry_of d' n' fs' = if bool_decide (d' = d ∧ n' = n) then Some (File c mtime) else entry_of d' n' fs) →
     is_Some (dir_of d fs') → Q (inr tt) fs') →
  wp (rename_into d n c mtime) fs Q.
Proof using Hok.
  intros [dir Hd] HQ. unfold rename_into. apply wp_bind, wp_syscall, wp_bind, wp_gets.
  change (dir_of d (tick fs)) with (dir_of d fs). rewrite Hd. apply wp_modify, HQ; [done| |].
  - intros d' n'. rewrite entry_set_dir. change (entry_of d' n' (tick fs)) with (entry_of d' n' fs).
    destruct (decide (d' = d)) as [->|Hne].
    + rewrite bool_decide_true by done. destruct (decide (n' = n)) as [->|Hn].
      * rewrite bool_decide_true by done. by rewrite lookup_insert_eq.
      * rewrite bool_decide_false by naive_solver. rewrite lookup_insert_ne by done. unfold entry_of. by rewrite Hd.
    + by rewrite !bool_decide_false by naive_solver.
  - rewrite dir_set_dir. by eexists.
Qed.

Lemma wp_remove_file d n c m fs Q :
  entry_of d n fs = Some (File c m) →
  (∀ fs', fs_calls fs' = S (fs_calls fs) →
     (∀ d' n', entry_of d' n' fs' = if bool_decide (d' = d ∧ n' = n) then None else entry_of d' n' fs) →
     Q (inr tt) fs') →
  wp (remove d n) fs Q.
Proof using Hok.
  intros (dir & Hd & Hn)%entry_some HQ. unfold remove. apply wp_bind, wp_syscall, wp_bind, wp_gets.
  change (dir_of d (tick fs)) with (dir_of d fs). rewrite Hd, Hn. apply wp_modify, HQ; [done|].
  intros d' n'. rewrite entry_set_dir. change (entry_of d' n' (tick fs)) with (entry_of d' n' fs).
  destruct (decide (d' = d)) as [->|Hne].
  - rewrite bool_decide_true by done. destruct (decide (n' = n)) as [->|Hne].
    + rewrite bool_decide_true by done. by rewrite lookup_delete_eq.
    + rewrite bool_decide_false by naive_solver. rewrite lookup_delete_ne by done. unfold entry_of. by rewrite Hd.
  - by rewrite !bool_decide_false by naive_solver.
Qed.

Lemma wp_remove_none d n fs Q : entry_of d n fs = None → Q (inl ENotExist) (tick fs) → wp (remove d n) fs Q.
Proof using Hok.
  intros He HQ. unfold remove. apply wp_bind, wp_syscall, wp_bind, wp_gets.
  change (dir_of d (tick fs)) with (dir_of d fs). unfold entry_of in He.
  destruct (dir_of d fs) as [dir|]; [|done]. simpl in He. by rewrite He.
Qed.

Lemma wp_remove_dir d fs Q :
  (∀ r fs', fs_calls fs' = S (fs_calls fs) → (∀ d' n, entry_of d' n fs' = entry_of d' n fs) → Q r fs') →
  wp (remove_dir d) fs Q.
Proof using Hok.
  intros HQ. unfold remove_dir. apply wp_bind, wp_syscall, wp_bind, wp_gets.
  change (dir_of d (tick fs)) with (dir_of d fs). destruct (dir_of d fs) as [dir|] eqn:Hd; [|by apply wp_fail, HQ].
  case_bool_decide as E; [|by apply wp_fail, HQ]. apply wp_modify, HQ; [done|]. intros d' n.
  unfold entry_of, dir_of in *. simpl. destruct (decide (d' = d)) as [->|Hne].
  - rewrite lookup_delete_eq, Hd, E. simpl. by rewrite lookup_empty.
  - by rewrite lookup_delete_ne by done.
Qed.
End Succeeds.
