(* ===== verification/DirLock.v ===== *)
(** * Directory locks (cmn/dirlock/dirlock.go)

    A lock on a directory is the subdirectory [.dagu_lock] in it, with a file
    [owner] that holds the token of the instance that created it.  A lock older
    than [StaleThreshold] may be taken away.  The state of an operation is the
    file system and the instance.

    Each operation is given twice: as a whole ([TryLock], [Unlock], ...), for clients
    whose process is alone on the directory, and cut into its system calls ([turn]), for
    instances that run at the same time.  The mutex of an instance serialises its
    operations.  The Windows-only retry classification is left out. *)

From stdpp Require Import base strings list gmap.
From Stdlib Require Import ZArith Lia.
From S2P Require Import Prelude FileSys.

Open Scope op_scope.

Definition lockName : string := ".dagu_lock".

Record LockOptions := mkLockOptions {
  StaleThreshold : Duration;
  RetryInterval : Duration;
}.

Record LockInfo := mkLockInfo { AcquiredAt : Time; LockDirName : string }.

Record dirLock := mkDirLock {
  dl_targetDir : string;
  dl_opts : LockOptions;
  dl_isHeld : bool;
  dl_fenceToken : string;
}.

(** [dirlock.New]: a zero option is replaced by its default. *)
Definition NewDirLock (directory : string) (opts : option LockOptions) : dirLock :=
  let opts := default (mkLockOptions 0 0) opts in
  mkDirLock directory
    (mkLockOptions (if (StaleThreshold opts =? 0)%Z then (30 * Second)%Z else StaleThreshold opts)
                   (if (RetryInterval opts =? 0)%Z then (50 * Millisecond)%Z else RetryInterval opts))
    false "".

Section DirLock.
Context {C : Type} `{OS}.

Abbreviation LS := (FS C * dirLock)%type.
Abbreviation LOp A := (Op LS A).

Definition on_fs {A} (m : Op (FS C) A) : LOp A := zoom fst (λ fs s, (fs, s.2)) m.
Definition this : LOp dirLock := gets snd.
Definition set_held (h : bool) : LOp unit := modify (λ '(fs, l), (fs, {| l with dl_isHeld := h |})).
Definition set_token (t : string) : LOp unit := modify (λ '(fs, l), (fs, {| l with dl_fenceToken := t |})).

(** [isStaleInfo] *)
Definition isStaleInfo (mtime : Time) : LOp bool :=
  let* l := this in
  let* t := on_fs now in
  ret (StaleThreshold (dl_opts l) <? Sub t mtime)%Z.

(** [os.Stat(l.lockPath)]: the modification time. *)
Definition stat_lock : LOp Time :=
  let* l := this in
  let* e := on_fs (stat (dl_targetDir l) lockName) in
  match e with LockDir _ m => ret m | File _ m => ret m | SubDir => ret 0%Z end.

(** [os.RemoveAll(l.lockPath)]: no error when there is nothing. *)
Definition remove_lock : LOp unit :=
  let* l := this in
  on_fs (syscall ;* modify (λ fs,
    match dir_of (dl_targetDir l) fs with
    | Some dir => set_dir (dl_targetDir l) (delete lockName dir) fs
    | None => fs
    end)).

(** [os.Mkdir(l.lockPath)] *)
Definition make_lock : LOp unit :=
  let* l := this in
  on_fs (syscall ;* let* t := now in let* r := gets (dir_of (dl_targetDir l)) in
    match r with
    | None => fail ENotExist
    | Some dir =>
        match dir !! lockName with
        | Some _ => fail EExist
        | None => modify (set_dir (dl_targetDir l) (<[lockName := LockDir None t]> dir))
        end
    end).

(** [os.WriteFile(tokenPath, token)] *)
Definition write_token (token : string) : LOp unit :=
  let* l := this in
  on_fs (syscall ;* let* t := now in let* r := gets (dir_of (dl_targetDir l)) in
    match r with
    | None => fail ENotExist
    | Some dir =>
        match dir !! lockName with
        | Some (LockDir _ _) => modify (set_dir (dl_targetDir l) (<[lockName := LockDir (Some token) t]> dir))
        | _ => fail ENotExist
        end
    end).

(** [os.ReadFile(tokenPath)] *)
Definition read_token : LOp string :=
  let* l := this in
  let* e := on_fs (stat (dl_targetDir l) lockName) in
  match e with LockDir (Some owner) _ => ret owner | _ => fail ENotExist end.

(** [os.Chtimes(l.lockPath, now, now)] *)
Definition touch_lock (t : Time) : LOp unit :=
  let* l := this in
  on_fs (syscall ;* let* r := gets (dir_of (dl_targetDir l)) in
    match r with
    | None => fail ENotExist
    | Some dir =>
        match dir !! lockName with
        | Some (LockDir o _) => modify (set_dir (dl_targetDir l) (<[lockName := LockDir o t]> dir))
        | _ => fail ENotExist
        end
    end).

(** The ownership check of [Heartbeat] and [Unlock]: an instance that lost the
    lock notices it here. *)
Definition verify_token : LOp unit :=
  let* l := this in
  let* data := try read_token in
  match data with
  | inl _ => set_held false ;* fail ErrLockNotHeld
  | inr token =>
      if bool_decide (token ≠ dl_fenceToken l) then set_held false ;* fail ErrLockNotHeld else ret tt
  end.

Definition Heartbeat : LOp unit :=
  let* l := this in
  if negb (dl_isHeld l) then fail ErrNotLocked
  else
    verify_token ;*
    let* t := on_fs now in
    touch_lock t.

(** The part of [TryLock] after the lock directory is known to be free. *)
Definition acquire : LOp unit :=
  let* l := this in
  on_fs (mkdir_all (dl_targetDir l)) ;*
  let* r := try make_lock in
  match r with
  | inl EExist => fail ErrLockConflict
  | inl e => fail e
  | inr _ =>
      let* token := on_fs fresh_token in
      let* w := try (write_token token) in
      match w with
      | inl e => ignore remove_lock ;* fail e
      | inr _ => set_token token ;* set_held true
      end
  end.

Definition TryLock : LOp unit :=
  let* l := this in
  if dl_isHeld l then ret tt
  else
    let* info := try stat_lock in
    match info with
    | inr mtime =>
        let* stale := isStaleInfo mtime in
        if stale then remove_lock ;* acquire else fail ErrLockConflict
    | inl ENotExist => acquire
    | inl e => fail e
    end.

(** [Lock]: one attempt, then one per tick of the retry timer until the
    context is done; [ticks] is the number of ticks before that. *)
Fixpoint lock_ticks (ticks : nat) : LOp unit :=
  match ticks with
  | O => fail EContext
  | S ticks' =>
      let* r := try TryLock in
      match r with
      | inr _ => ret tt
      | inl ErrLockConflict => lock_ticks ticks'
      | inl e => fail e
      end
  end.

Definition Lock (ticks : nat) : LOp unit :=
  let* r := try TryLock in
  match r with
  | inr _ => ret tt
  | inl ErrLockConflict => lock_ticks ticks
  | inl e => fail e
  end.

Definition Unlock : LOp unit :=
  let* l := this in
  if negb (dl_isHeld l) then ret tt
  else verify_token ;* remove_lock ;* set_held false.

Definition IsLocked : LOp bool :=
  let* info := try stat_lock in
  match info with
  | inl _ => ret false
  | inr mtime => let* stale := isStaleInfo mtime in ret (negb stale)
  end.

Definition IsHeldByMe : LOp bool :=
  let* l := this in
  if negb (dl_isHeld l) then ret false
  else
    let* data := try read_token in
    match data with
    | inr token =>
        if bool_decide (token = dl_fenceToken l) then ret true else set_held false ;* ret false
    | inl _ => set_held false ;* ret false
    end.

Definition Info : LOp (option LockInfo) :=
  let* info := try stat_lock in
  match info with
  | inl ENotExist => ret None
  | inl e => fail e
  | inr mtime =>
      let* stale := isStaleInfo mtime in
      ret (if stale then None else Some (mkLockInfo mtime lockName))
  end.

Definition ForceUnlock (directory : string) : Op (FS C) unit :=
  syscall ;* modify (λ fs,
    match dir_of directory fs with
    | Some dir => set_dir directory (delete lockName dir) fs
    | None => fs
    end).

(** ** Operations as sequences of system calls

    The operations of an instance, and the program points of one that is under way: each
    is before a system call. *)
Inductive lock_op := OpTryLock | OpHeartbeat | OpUnlock | OpIsHeldByMe.

Inductive LockPC :=
  | PStart (o : lock_op)       (* os.Stat of TryLock, os.ReadFile of the others *)
  | PAge (mtime : Time)        (* TryLock: isStaleInfo *)
  | PRemoveStale               (* TryLock: os.RemoveAll of a stale lock *)
  | PMkdirAll
  | PMkdir
  | PWriteToken                (* newFenceToken, os.WriteFile *)
  | PUndo (e : Err)            (* os.RemoveAll after a failed write *)
  | PClock                     (* Heartbeat: time.Now *)
  | PTouch (t : Time)          (* Heartbeat: os.Chtimes *)
  | PRemove.                   (* Unlock: os.RemoveAll *)

(** What a turn leads to: the next system call, or the end of the operation. *)
Inductive Turn := Next (pc : LockPC) | Done (r : Err + unit).

(** The ownership check, before [next]. *)
Definition turn_verify (next : LockPC) : LOp Turn :=
  let* l := this in
  let* data := try read_token in
  match data with
  | inl _ => set_held false ;* ret (Done (inl ErrLockNotHeld))
  | inr token =>
      if bool_decide (token ≠ dl_fenceToken l) then set_held false ;* ret (Done (inl ErrLockNotHeld)) else ret (Next next)
  end.

Definition turn_start (o : lock_op) : LOp Turn :=
  let* l := this in
  match o with
  | OpTryLock =>
      if dl_isHeld l then ret (Done (inr tt))
      else
        let* info := try stat_lock in
        match info with
        | inr mtime => ret (Next (PAge mtime))
        | inl ENotExist => ret (Next PMkdirAll)
        | inl e => ret (Done (inl e))
        end
  | OpHeartbeat => if negb (dl_isHeld l) then ret (Done (inl ErrNotLocked)) else turn_verify PClock
  | OpUnlock => if negb (dl_isHeld l) then ret (Done (inr tt)) else turn_verify PRemove
  | OpIsHeldByMe =>
      if negb (dl_isHeld l) then ret (Done (inr tt))
      else
        let* data := try read_token in
        match data with
        | inr token => if bool_decide (token = dl_fenceToken l) then ret (Done (inr tt)) else set_held false ;* ret (Done (inr tt))
        | inl _ => set_held false ;* ret (Done (inr tt))
        end
  end.

(** One system call of an operation, up to the next. *)
Definition turn (pc : LockPC) : LOp Turn :=
  match pc with
  | PStart o => turn_start o
  | PAge mtime =>
      let* stale := isStaleInfo mtime in
      ret (if stale then Next PRemoveStale else Done (inl ErrLockConflict))
  | PRemoveStale =>
      let* r := try remove_lock in
      ret (match r with inl e => Done (inl e) | inr _ => Next PMkdirAll end)
  | PMkdirAll =>
      let* l := this in
      let* r := try (on_fs (mkdir_all (dl_targetDir l))) in
      ret (match r with inl e => Done (inl e) | inr _ => Next PMkdir end)
  | PMkdir =>
      let* r := try make_lock in
      ret (match r with inl EExist => Done (inl ErrLockConflict) | inl e => Done (inl e) | inr _ => Next PWriteToken end)
  | PWriteToken =>
      let* token := on_fs fresh_token in
      let* w := try (write_token token) in
      match w with
      | inl e => ret (Next (PUndo e))
      | inr _ => set_token token ;* set_held true ;* ret (Done (inr tt))
      end
  | PUndo e => ignore remove_lock ;* ret (Done (inl e))
  | PClock => let* t := on_fs now in ret (Next (PTouch t))
  | PTouch t => let* r := try (touch_lock t) in ret (Done r)
  | PRemove =>
      let* r := try remove_lock in
      match r with
      | inl e => ret (Done (inl e))
      | inr _ => set_held false ;* ret (Done (inr tt))
      end
  end.

(** The turns of an operation with nobody else at work: it has seven at most. *)
Fixpoint alone (turns : nat) (pc : LockPC) : LOp unit :=
  match turns with
  | O => fail EContext
  | S turns' =>
      let* t := turn pc in
      match t with
      | Next pc' => alone turns' pc'
      | Done (inl e) => fail e
      | Done (inr _) => ret tt
      end
  end.

(** [os.RemoveAll] under way: the owner file is gone, the directory is not. *)
Definition drop_owner (d : string) (fs : FS C) : FS C :=
  match dir_of d fs with
  | Some dir =>
      match dir !! lockName with
      | Some (LockDir _ m) => set_dir d (<[lockName := LockDir None m]> dir) fs
      | _ => fs
      end
  | None => fs
  end.
End DirLock.
