(* ===== verification/DirLockLaws.v ===== *)
(** * Laws of the directory lock

    What an operation does to the lock directory and to the instance, for any
    failures of system calls; and exclusion between instances that share a directory and
    whose system calls are interleaved in any way. *)

From stdpp Require Import base strings list gmap.
From Stdlib Require Import ZArith Lia.
From S2P Require Import Prelude FileSys DirLock.

Open Scope op_scope.

Section Laws.
Context {C : Type} `{OS}.
Implicit Types (fs : FS C) (l : dirLock).

Definition lock_of (d : string) fs : option (Entry C) := entry_of d lockName fs.

Definition owner_of (d : string) fs : option string :=
  match lock_of d fs with Some (LockDir o _) => o | _ => None end.

(** The instance holds the lock and its token is in the owner file. *)
Definition owns fs l : Prop := dl_isHeld l = true ∧ owner_of (dl_targetDir l) fs = Some (dl_fenceToken l).

(** The operations as a whole. *)
Definition run_lock (o : lock_op) : Op (FS C * dirLock) unit :=
  match o with
  | OpTryLock => TryLock
  | OpHeartbeat => Heartbeat
  | OpUnlock => Unlock
  | OpIsHeldByMe => IsHeldByMe ;* ret tt
  end.

(** ** What every operation respects

    The instance keeps its directory and options, calls only add up, and a
    token changes only to a fresh one. *)
Definition token_step : relation (FS C * dirLock) := λ s s',
  dl_targetDir s'.2 = dl_targetDir s.2 ∧ dl_opts s'.2 = dl_opts s.2 ∧ fs_calls s.1 ≤ fs_calls s'.1 ∧
  (dl_fenceToken s'.2 = dl_fenceToken s.2 ∧ (dl_isHeld s'.2 = true → dl_isHeld s.2 = true) ∨
   ∃ n, fs_calls s.1 ≤ n < fs_calls s'.1 ∧ dl_fenceToken s'.2 = FreshToken n).

#[export] Instance token_step_preorder : PreOrder token_step.
Proof.
  split.
  - intros s. unfold token_step. split_and!; [done..|]. by left.
  - intros a b c (Hd1 & Ho1 & Hc1 & Ht1) (Hd2 & Ho2 & Hc2 & Ht2).
    split_and!; [congruence|congruence|lia|].
    destruct Ht2 as [[Ht2 Hh2]|(n & Hn & Ht2)].
    + destruct Ht1 as [[Ht1 Hh1]|(n & Hn & Ht1)]; [left; split; [congruence|auto]|].
      right. exists n. split; [lia|congruence].
    + right. exists n. split; [lia|congruence].
Qed.

(** Operations on the file system leave the instance alone. *)
Definition calls_le : relation (FS C) := λ fs fs', fs_calls fs ≤ fs_calls fs'.
#[local] Instance calls_le_preorder : PreOrder calls_le.
Proof. split; [by intros fs; unfold calls_le|]. intros a b c. unfold calls_le. lia. Qed.

Lemma calls_syscall : respects calls_le (syscall (C := C)).
Proof. intros fs r fs' [= <- <-]. unfold calls_le. simpl. lia. Qed.
Lemma calls_now : respects calls_le (now (C := C)).
Proof. intros fs r fs' [= <- <-]. unfold calls_le. simpl. lia. Qed.
Lemma calls_modify f : (∀ fs, fs_calls (f fs) = fs_calls fs) → respects calls_le (modify f).
Proof. intros Hf. apply op_modify_respects. intros fs. unfold calls_le. by rewrite Hf. Qed.

Definition fs_step : relation (FS C * dirLock) := λ s s', s'.2 = s.2 ∧ fs_calls s.1 ≤ fs_calls s'.1.
#[local] Instance fs_step_preorder : PreOrder fs_step.
Proof.
  split; [by intros [fs l]|]. intros a b c [E1 L1] [E2 L2]. split; [congruence|lia].
Qed.

Lemma fs_step_on_fs {A} (m : Op (FS C) A) : respects calls_le m → respects fs_step (on_fs m).
Proof. apply respects_zoom. by intros [fs l] fs' Hle. Qed.

Ltac fs_walk :=
  repeat first
    [ progress walk_op
    | apply fs_step_on_fs
    | apply calls_syscall | apply calls_now
    | apply calls_modify; intros ?; simpl; repeat case_match; done
    | progress (unfold stat, mkdir_all) ].

Lemma fs_stat_lock : respects fs_step (stat_lock (C := C)).
Proof. unfold stat_lock, this. fs_walk. Qed.
Lemma fs_read_token : respects fs_step (read_token (C := C)).
Proof. unfold read_token, this. fs_walk. Qed.
Lemma fs_remove_lock : respects fs_step (remove_lock (C := C)).
Proof. unfold remove_lock, this. fs_walk. Qed.
Lemma fs_make_lock : respects fs_step (make_lock (C := C)).
Proof. unfold make_lock, this. fs_walk. Qed.
Lemma fs_write_token t : respects fs_step (write_token (C := C) t).
Proof. unfold write_token, this. fs_walk. Qed.
Lemma fs_touch_lock t : respects fs_step (touch_lock (C := C) t).
Proof. unfold touch_lock, this. fs_walk. Qed.
Lemma fs_isStaleInfo t : respects fs_step (isStaleInfo (C := C) t).
Proof. unfold isStaleInfo, this. fs_walk. Qed.
Lemma fs_now : respects fs_step (on_fs (now (C := C))).
Proof. fs_walk. Qed.

#[local] Opaque stat_lock read_token remove_lock make_lock write_token touch_lock isStaleInfo.

(** The last part of [acquire]. *)
Definition install (token : string) : Op (FS C * dirLock) unit :=
  let* w := try (write_token token) in
  match w with
  | inl e => ignore remove_lock ;* fail e
  | inr _ => set_token token ;* set_held true
  end.

Lemma install_token n s r s' :
  install (FreshToken n) s = (r, s') →
  dl_targetDir s'.2 = dl_targetDir s.2 ∧ dl_opts s'.2 = dl_opts s.2 ∧ fs_calls s.1 ≤ fs_calls s'.1 ∧
  (s'.2 = s.2 ∨ dl_fenceToken s'.2 = FreshToken n).
Proof.
  intros Hr. destruct (bind_inv _ _ _ _ _ Hr) as [(e & He & _)|(w & s1 & Hw & Hk)].
  { unfold try in He. by destruct (write_token _ s). }
  destruct (op_try_respects _ _ (fs_write_token (FreshToken n)) _ _ _ Hw) as [Hi Hc].
  destruct w as [e|[]].
  - assert (respects fs_step (ignore remove_lock ;* fail (A := unit) e)) as Hrm.
    { walk_op. apply fs_remove_lock. }
    destruct (Hrm _ _ _ Hk) as [Hi2 Hc2]. rewrite Hi2, Hi. split_and!; [done..|lia|by left].
  - injection Hk as <- <-. destruct s1 as [fs1 l1], s as [fs l]. simpl in *. subst. split_and!; [done..|].
    by right.
Qed.

Lemma fs_token s s' : fs_step s s' → token_step s s'.
Proof. intros [E L]. unfold token_step. rewrite E. split_and!; [done..|]. by left. Qed.

Lemma token_acquire : respects token_step (acquire (C := C)).
Proof.
  unfold acquire. apply op_bind_respects; [apply _|unfold this; walk_op|intros l].
  apply op_bind_respects; [apply _|eapply respects_weaken; [|apply fs_token]; fs_walk|intros _].
  apply op_bind_respects; [apply _|apply op_try_respects; eapply respects_weaken; [apply fs_make_lock|apply fs_token]|].
  intros [e|_]; [destruct e; walk_op|].
  change (respects token_step (let* token := on_fs fresh_token in install token)).
  intros [fs l0] r s' Hr. destruct (bind_inv _ _ _ _ _ Hr) as [(e & He & _)|(w & s1 & Hw & Hk)]; [done|].
  injection Hw as <- <-. destruct (install_token _ _ _ _ Hk) as (Hd & Ho & Hc & Ht). simpl in *.
  unfold token_step. simpl. split_and!; [done..|lia|].
  destruct Ht as [->|Ht]; [by left|]. right. eexists. split; [|done]. lia.
Qed.

Lemma token_set_held_false : respects token_step (set_held (C := C) false).
Proof.
  apply op_modify_respects. intros [fs l]. unfold token_step. simpl. split_and!; [done..|]. left. by split.
Qed.

#[local] Opaque acquire set_held.

Lemma token_run o : respects token_step (run_lock o).
Proof.
  assert (∀ A (m : Op (FS C * dirLock) A), respects fs_step m → respects token_step m) as Hfs.
  { intros A m Hm. eapply respects_weaken; [done|apply fs_token]. }
  destruct o; unfold run_lock, TryLock, Heartbeat, Unlock, IsHeldByMe, verify_token, this; walk_op;
    first [ apply token_acquire | apply token_set_held_false
          | apply Hfs; first [ apply fs_stat_lock | apply fs_read_token | apply fs_remove_lock
                             | apply fs_touch_lock | apply fs_isStaleInfo | apply fs_now ] ].
Qed.
(** ** The operations and their turns *)
#[local] Transparent acquire set_held.

(** With nobody else at work an operation is the sequence of its turns. *)
Lemma alone_run o s : alone 7 (PStart o) s = run_lock o s.
Proof.
  destruct s as [fs l].
  destruct o; cbv [alone turn turn_start turn_verify run_lock TryLock Heartbeat Unlock IsHeldByMe verify_token acquire this
    bind try ret fail gets ignore]; simpl; repeat (case_match; simplify_eq/=); try done.
  by destruct u.
Qed.

#[local] Transparent stat_lock read_token isStaleInfo.

Lemma stat_lock_eq fs l o m :
  lock_of (dl_targetDir l) fs = Some (LockDir o m) →
  stat_lock (fs, l) = (if SysOk (fs_calls fs) then inr m else inl EIO, (tick fs, l)).
Proof.
  unfold lock_of. intros Hl. cbv [stat_lock this on_fs zoom bind gets stat syscall ret]. simpl.
  unfold entry_of, dir_of in *. simpl. rewrite Hl. by destruct (SysOk _).
Qed.

Lemma read_token_eq fs l o m :
  lock_of (dl_targetDir l) fs = Some (LockDir (Some o) m) →
  read_token (fs, l) = (if SysOk (fs_calls fs) then inr o else inl EIO, (tick fs, l)).
Proof.
  unfold lock_of. intros Hl. cbv [read_token this on_fs zoom bind gets stat syscall ret]. simpl.
  unfold entry_of, dir_of in *. simpl. rewrite Hl. by destruct (SysOk _).
Qed.

Lemma isStaleInfo_eq fs l m :
  isStaleInfo m (fs, l) =
  (inr (StaleThreshold (dl_opts l) <? Sub (Now (fs_calls fs)) m)%Z, (tick fs, l)).
Proof. done. Qed.

#[local] Opaque stat_lock read_token isStaleInfo.

#[local] Transparent stat_lock read_token isStaleInfo touch_lock write_token make_lock remove_lock.

(** *** What a system call does to the lock *)
Definition is_lock (e : option (Entry C)) : Prop := ∃ o m, e = Some (LockDir o m).

Lemma lock_same d fs fs' : fs_dirs fs' = fs_dirs fs → lock_of d fs' = lock_of d fs.
Proof. unfold lock_of, entry_of, dir_of. by intros ->. Qed.

Lemma lock_set_dir d dir fs : lock_of d (set_dir d dir fs) = dir !! lockName.
Proof. unfold lock_of, entry_of. by rewrite dir_set_dir. Qed.

Lemma stat_lock_cases fs l r fs' l' : stat_lock (fs, l) = (r, (fs', l')) → l' = l ∧ fs_dirs fs' = fs_dirs fs.
Proof. cbv [stat_lock this on_fs zoom bind gets stat syscall ret fail]. simpl. intros Hr. repeat case_match; by simplify_eq/=. Qed.

Lemma read_token_cases fs l r fs' l' :
  read_token (fs, l) = (r, (fs', l')) →
  l' = l ∧ fs_dirs fs' = fs_dirs fs ∧ ∀ token, r = inr token → owner_of (dl_targetDir l) fs = Some token.
Proof.
  cbv [read_token this on_fs zoom bind gets stat syscall ret fail owner_of lock_of entry_of dir_of]. simpl. intros Hr.
  repeat case_match; simplify_eq/=; split_and!; try done; by intros ? [= <-].
Qed.

Lemma make_lock_cases fs l r fs' l' :
  make_lock (fs, l) = (r, (fs', l')) →
  l' = l ∧ match r with
           | inl _ => fs_dirs fs' = fs_dirs fs
           | inr _ => lock_of (dl_targetDir l) fs = None ∧ is_lock (lock_of (dl_targetDir l) fs')
           end.
Proof.
  cbv [make_lock this on_fs zoom bind gets syscall now modify ret fail]. simpl. intros Hr.
  repeat case_match; simplify_eq/=; (split; [done|]); try done.
  split; [unfold lock_of, entry_of; unfold dir_of in *; simpl in *; by simplify_option_eq|].
  rewrite lock_set_dir, lookup_insert_eq. unfold is_lock. eauto.
Qed.

Lemma write_token_cases t fs l r fs' l' :
  write_token t (fs, l) = (r, (fs', l')) →
  l' = l ∧ match r with inl _ => fs_dirs fs' = fs_dirs fs | inr _ => is_lock (lock_of (dl_targetDir l) fs') end.
Proof.
  cbv [write_token this on_fs zoom bind gets syscall now modify ret fail]. simpl. intros Hr.
  repeat case_match; simplify_eq/=; (split; [done|]); try done. rewrite lock_set_dir, lookup_insert_eq. unfold is_lock. eauto.
Qed.

Lemma touch_lock_cases t fs l r fs' l' :
  touch_lock t (fs, l) = (r, (fs', l')) →
  l' = l ∧ match r with inl _ => fs_dirs fs' = fs_dirs fs | inr _ => is_lock (lock_of (dl_targetDir l) fs') end.
Proof.
  cbv [touch_lock this on_fs zoom bind gets syscall now modify ret fail]. simpl. intros Hr.
  repeat case_match; simplify_eq/=; (split; [done|]); try done. rewrite lock_set_dir, lookup_insert_eq. unfold is_lock. eauto.
Qed.

Lemma remove_lock_cases fs l r fs' l' :
  remove_lock (fs, l) = (r, (fs', l')) → l' = l ∧ match r with inl _ => fs_dirs fs' = fs_dirs fs | inr _ => True end.
Proof. cbv [remove_lock this on_fs zoom bind gets syscall modify ret fail]. simpl. intros Hr. repeat case_match; by simplify_eq/=. Qed.

Lemma mkdir_all_cases d fs l r fs' l' :
  on_fs (mkdir_all d) (fs, l) = (r, (fs', l')) → l' = l ∧ ∀ d', lock_of d' fs' = lock_of d' fs.
Proof.
  cbv [mkdir_all on_fs zoom bind gets syscall modify ret fail]. simpl. intros Hr.
  repeat case_match; simplify_eq/=; (split; [done|]); try done. intros d'. unfold lock_of. rewrite entry_set_dir.
  case_bool_decide; [|done]. subst. unfold entry_of, dir_of in *. simpl in *. by simplify_option_eq.
Qed.

#[local] Opaque stat_lock read_token isStaleInfo touch_lock write_token make_lock remove_lock on_fs.

(** A turn always leads somewhere. *)
Lemma turn_total pc fs l : ∃ t s', turn pc (fs, l) = (inr t, s').
Proof.
  destruct pc as [[]| | | | | | | | |]; cbv [turn turn_start turn_verify set_token set_held modify this bind try ret fail gets ignore];
    simpl; repeat case_match; simplify_eq/=; try (by do 2 eexists).
Qed.

(** ** Instances at work at the same time

    An instance is idle or inside an operation.  A step starts an operation, makes one
    system call of one, removes the first part of what [os.RemoveAll] is removing, or ends
    the process of an instance. *)
Record LockSys := mkLockSys { sys_fs : FS C; sys_inst : gmap nat (dirLock * option LockPC) }.

Definition after_turn (t : Turn) : option LockPC := match t with Next pc => Some pc | Done _ => None end.
Definition removing (pc : LockPC) : bool := match pc with PRemoveStale | PUndo _ | PRemove => true | _ => false end.

Inductive lock_step : LockSys → LockSys → Prop :=
  | step_call i l o fs insts :
      insts !! i = Some (l, None) → lock_step (mkLockSys fs insts) (mkLockSys fs (<[i := (l, Some (PStart o))]> insts))
  | step_turn i l pc t fs fs' l' insts :
      insts !! i = Some (l, Some pc) → turn pc (fs, l) = (inr t, (fs', l')) →
      lock_step (mkLockSys fs insts) (mkLockSys fs' (<[i := (l', after_turn t)]> insts))
  | step_removing i l pc fs insts :
      insts !! i = Some (l, Some pc) → removing pc = true →
      lock_step (mkLockSys fs insts) (mkLockSys (drop_owner (dl_targetDir l) fs) insts)
  | step_dies i fs insts : lock_step (mkLockSys fs insts) (mkLockSys fs (delete i insts)).

(** A step by its cause, to run a schedule. *)
Inductive LockAct := Call (i : nat) (o : lock_op) | Turns (i : nat) | Removing (i : nat) | Dies (i : nat).

Definition lock_act (a : LockAct) (sys : LockSys) : option LockSys :=
  match a with
  | Call i o =>
      match sys_inst sys !! i with
      | Some (l, None) => Some (mkLockSys (sys_fs sys) (<[i := (l, Some (PStart o))]> (sys_inst sys)))
      | _ => None
      end
  | Turns i =>
      match sys_inst sys !! i with
      | Some (l, Some pc) =>
          match turn pc (sys_fs sys, l) with
          | (inr t, (fs', l')) => Some (mkLockSys fs' (<[i := (l', after_turn t)]> (sys_inst sys)))
          | _ => None
          end
      | _ => None
      end
  | Removing i =>
      match sys_inst sys !! i with
      | Some (l, Some pc) =>
          if removing pc then Some (mkLockSys (drop_owner (dl_targetDir l) (sys_fs sys)) (sys_inst sys)) else None
      | _ => None
      end
  | Dies i => Some (mkLockSys (sys_fs sys) (delete i (sys_inst sys)))
  end.

Fixpoint schedule (acts : list LockAct) (sys : LockSys) : option LockSys :=
  match acts with [] => Some sys | a :: acts' => lock_act a sys ≫= schedule acts' end.

Lemma lock_act_step a sys sys' : lock_act a sys = Some sys' → lock_step sys sys'.
Proof.
  destruct sys as [fs insts], a as [i o|i|i|i]; simpl; intros Ha; repeat case_match; simplify_eq/=;
    by econstructor.
Qed.

Lemma schedule_run acts sys sys' : schedule acts sys = Some sys' → rtc lock_step sys sys'.
Proof.
  revert sys. induction acts as [|a acts IH]; simpl; intros sys Hs; [by injection Hs as <-|].
  apply bind_Some in Hs as (sys1 & Ha & Hs). eapply rtc_l; [by eapply lock_act_step|by apply IH].
Qed.

(** Instances as [New] leaves them, for one directory. *)
Definition lock_init (d : string) (sys : LockSys) : Prop :=
  ∀ i x, sys_inst sys !! i = Some x → dl_targetDir x.1 = d ∧ dl_isHeld x.1 = false ∧ dl_fenceToken x.1 = "" ∧ x.2 = None.

(** *** Tokens *)
#[local] Transparent on_fs.
Lemma token_write : respects token_step (turn (C := C) PWriteToken).
Proof.
  intros [fs l] r s' Hr. cbn [turn] in Hr. destruct (bind_inv _ _ _ _ _ Hr) as [(e & He & _)|(token & s1 & Hw & Hk)]; [done|].
  injection Hw as <- <-. simpl in Hk. unfold bind, try in Hk. destruct (write_token _ _) as [w s2] eqn:Ew.
  destruct (fs_write_token _ _ _ _ Ew) as [Hl Hc]. simpl in *. destruct s2 as [fs2 l2]. simpl in *. subst l2.
  destruct w as [e|[]]; injection Hk as <- <-; unfold token_step; simpl; (split_and!; [done..|lia|]); [by left|].
  right. eexists. split; [|done]. lia.
Qed.

Lemma token_turn pc : respects token_step (turn (C := C) pc).
Proof.
  assert (∀ A (m : Op (FS C * dirLock) A), respects fs_step m → respects token_step m) as Hfs.
  { intros A m Hm. eapply respects_weaken; [done|apply fs_token]. }
  destruct pc as [[]| | | | | | | | |]; [..|apply token_write|idtac|idtac|idtac|idtac].
  all: unfold turn, turn_start, turn_verify, this; walk_op;
    first [ apply token_set_held_false
          | apply Hfs; first [ apply fs_stat_lock | apply fs_read_token | apply fs_remove_lock | apply fs_make_lock
                             | apply fs_touch_lock | apply fs_isStaleInfo | apply fs_now | fs_walk ] ].
Qed.

Record tokens_ok (d : string) (sys : LockSys) : Prop := {
  tok_dir i x : sys_inst sys !! i = Some x → dl_targetDir x.1 = d;
  tok_drawn i x : sys_inst sys !! i = Some x → dl_fenceToken x.1 = "" ∧ dl_isHeld x.1 = false ∨
    ∃ n, n < fs_calls (sys_fs sys) ∧ dl_fenceToken x.1 = FreshToken n;
  tok_inj i j x y : sys_inst sys !! i = Some x → sys_inst sys !! j = Some y →
    dl_fenceToken x.1 = dl_fenceToken y.1 → dl_fenceToken x.1 ≠ "" → i = j;
}.

Definition tokens_unique : Prop := (∀ n m, FreshToken n = FreshToken m → n = m) ∧ ∀ n, FreshToken n ≠ "".

(** An instance changes as [token_step] says; the others stay. *)
Lemma tokens_ok_change d sys i x fs' x' :
  tokens_unique → tokens_ok d sys → sys_inst sys !! i = Some x → token_step (sys_fs sys, x.1) (fs', x'.1) →
  tokens_ok d (mkLockSys fs' (<[i := x']> (sys_inst sys))).
Proof.
  intros [Hinj Hne] [Hdir Hdrawn Hij] Hi (Hd & _ & Hc & Ht). simpl in *.
  assert (∀ j y n, sys_inst sys !! j = Some y → fs_calls (sys_fs sys) ≤ n → dl_fenceToken y.1 ≠ FreshToken n) as Hnew.
  { intros j y n Hj Hn. destruct (Hdrawn j y Hj) as [[-> _]|(k & Hk & ->)]; [done|]. intros ->%Hinj. lia. }
  split; simpl.
  - intros j y [[<- <-]|[_ Hj]]%lookup_insert_Some; [|by eapply Hdir]. rewrite Hd. by eapply Hdir.
  - intros j y [[<- <-]|[_ Hj]]%lookup_insert_Some.
    + destruct Ht as [[-> Hheld]|(n & Hn & ->)]; [|right; exists n; split; [lia|done]].
      destruct (Hdrawn i x Hi) as [[? Hno]|(n & Hn & ?)]; [left|right; exists n; split; [lia|done]].
      split; [done|]. destruct (dl_isHeld x'.1); [|done]. rewrite Hheld in Hno; done.
    + destruct (Hdrawn j y Hj) as [?|(n & Hn & ?)]; [by left|right; exists n; split; [lia|done]].
  - intros j k y z [[<- <-]|[Hne1 Hj]]%lookup_insert_Some [[<- <-]|[Hne2 Hk]]%lookup_insert_Some Heq Hemp;
      [done|..|by eapply (Hij j k)].
    + destruct Ht as [[Ht _]|(n & Hn & Ht)]; [rewrite Ht in Heq, Hemp; by eapply (Hij i k)|].
      rewrite Ht in Heq. exfalso. eapply (Hnew k z n); [done|lia|done].
    + destruct Ht as [[Ht _]|(n & Hn & Ht)]; [rewrite Ht in Heq; by eapply (Hij j i)|].
      rewrite Ht in Heq. exfalso. eapply (Hnew j y n); [done|lia|done].
Qed.

Lemma drop_owner_calls d fs : fs_calls (drop_owner d fs) = fs_calls fs.
Proof. unfold drop_owner. by repeat case_match. Qed.

Lemma tokens_ok_step d sys sys' : tokens_unique → tokens_ok d sys → lock_step sys sys' → tokens_ok d sys'.
Proof.
  intros Hu Hok Hs. destruct Hs as [i l o fs insts Hi|i l pc t fs fs' l' insts Hi Ht|i l pc fs insts Hi Hr|i fs insts].
  - apply (tokens_ok_change d (mkLockSys fs insts) i (l, None)); [done..|reflexivity].
  - apply (tokens_ok_change d (mkLockSys fs insts) i (l, Some pc)); [done..|]. exact (token_turn pc _ _ _ Ht).
  - destruct Hok as [Hdir Hdrawn Hij]. split; simpl; [done| |done]. by rewrite drop_owner_calls.
  - destruct Hok as [Hdir Hdrawn Hij]. split; simpl; intros; repeat match goal with H : delete _ _ !! _ = Some _ |- _ =>
      apply lookup_delete_Some in H as [_ H] end; eauto.
Qed.

(** *** Exclusion *)

(** The instance is past its [os.Mkdir] and has not given the lock up. *)
Definition inside (x : dirLock * option LockPC) : bool :=
  dl_isHeld x.1 || match x.2 with Some (PWriteToken | PUndo _ | PRemove) => true | _ => false end.

(** Who acquires does not hold the lock; who refreshes or removes it does. *)
Definition pc_ok (x : dirLock * option LockPC) : Prop :=
  match x.2 with
  | Some (PAge _ | PRemoveStale | PMkdirAll | PMkdir | PWriteToken | PUndo _) => dl_isHeld x.1 = false
  | Some (PClock | PTouch _ | PRemove) => dl_isHeld x.1 = true
  | _ => True
  end.

(** The lock directory stays if it is there. *)
Definition lock_stays (d : string) fs fs' : Prop := is_lock (lock_of d fs) → is_lock (lock_of d fs').

Lemma stays_same d fs fs' : fs_dirs fs' = fs_dirs fs → lock_stays d fs fs'.
Proof. intros Hd. unfold lock_stays. by rewrite (lock_same d fs fs'). Qed.

(** A turn enters by creating the lock, leaves, or keeps what there is. *)
Definition turn_effect (d : string) (x x' : dirLock * option LockPC) fs fs' : Prop :=
  (inside x = false ∧ lock_of d fs = None ∧ is_lock (lock_of d fs')) ∨
  inside x' = false ∧ (inside x = true ∨ lock_stays d fs fs') ∨
  (inside x = true ∧ lock_stays d fs fs').

Lemma start_effect o fs l t fs' l' :
  turn_start o (fs, l) = (inr t, (fs', l')) →
  fs_dirs fs' = fs_dirs fs ∧ pc_ok (l', after_turn t) ∧ dl_targetDir l' = dl_targetDir l ∧
  (inside (l', after_turn t) = true → dl_isHeld l = true).
Proof.
  intros Hr. destruct o; cbv [turn_start turn_verify this set_held modify bind try ret fail gets] in Hr; simpl in Hr.
  all: unfold inside, pc_ok; simpl; destruct (dl_isHeld l) eqn:Hh; simpl in Hr;
    [try (injection Hr as <- <- <-; by rewrite ?Hh)|try (injection Hr as <- <- <-; by rewrite ?Hh)].
  all: first [destruct (stat_lock _) as [x [fs1 l1]] eqn:E; apply stat_lock_cases in E as [-> Hd]
             |destruct (read_token _) as [x [fs1 l1]] eqn:E; apply read_token_cases in E as (-> & Hd & _)].
  all: repeat case_match; simplify_eq/=; by rewrite ?Hh.
Qed.

Lemma effect_stays d x x' fs fs' :
  (inside x' = true → inside x = true) → lock_stays d fs fs' → turn_effect d x x' fs fs'.
Proof.
  unfold turn_effect. intros Hin Hs. destruct (inside x'); [|right; left; by split; [|right]].
  right. right. by split; [apply Hin|].
Qed.

Ltac turn_call H :=
  cbv [bind try ret fail gets ignore set_held set_token modify this] in H; simpl in H;
  match type of H with context [match ?m ?s with pair _ _ => _ end] => destruct (m s) as [? [? ?]] eqn:? end.

Lemma turn_effects pc fs l t fs' l' :
  turn pc (fs, l) = (inr t, (fs', l')) → pc ≠ PRemoveStale → pc_ok (l, Some pc) →
  dl_targetDir l' = dl_targetDir l ∧ pc_ok (l', after_turn t) ∧
  turn_effect (dl_targetDir l) (l, Some pc) (l', after_turn t) fs fs'.
Proof.
  intros Hr Hpc Hok. destruct pc as [o|m| | | | |e| |tm|]; simpl in Hr; unfold pc_ok in Hok; simpl in Hok.
  - apply start_effect in Hr as (Hd & Hok' & Ht & Hin). split_and!; [done..|].
    apply effect_stays; [|by apply stays_same]. intros Hx. unfold inside. simpl. by rewrite Hin.
  - unfold bind in Hr. rewrite isStaleInfo_eq in Hr. injection Hr as <- <- <-.
    unfold pc_ok. destruct (_ <? _)%Z; (split_and!; [done..|]); (apply effect_stays; [|by apply stays_same]); unfold inside; simpl; by rewrite Hok.
  - done.
  - turn_call Hr. apply mkdir_all_cases in Heqp as [-> Hl]. unfold pc_ok.
    case_match; simplify_eq/=; (split_and!; [done..|]); (apply effect_stays; [done|]); unfold lock_stays; by rewrite Hl.
  - turn_call Hr. apply make_lock_cases in Heqp as [-> Hl]. unfold pc_ok. repeat case_match; simplify_eq/=; (split_and!; [done..|]);
      try (apply effect_stays; [done|by apply stays_same]). left. unfold inside. simpl. by rewrite Hok.
  - turn_call Hr. apply write_token_cases in Heqp as [-> Hl]. case_match; simplify_eq/=; (split_and!; [done..|]);
      (apply effect_stays; [unfold inside; simpl; by rewrite orb_true_r|]).
    + by apply stays_same.
    + by intros _.
  - unfold bind, ignore in Hr. destruct (remove_lock (fs, l)) as [r [fs1 l1]] eqn:E. apply remove_lock_cases in E as [-> _].
    injection Hr as <- <- <-. split_and!; [done..|]. right. left.
    unfold inside. simpl. rewrite Hok. by split; [|left; rewrite orb_true_r].
  - injection Hr as <- <- <-. split_and!; [done..|]. apply effect_stays; [done|by apply stays_same].
  - turn_call Hr. apply touch_lock_cases in Heqp as [-> Hl]. simplify_eq/=. split_and!; [done..|]. apply effect_stays; [done|].
    case_match; [by apply stays_same|by intros _].
  - turn_call Hr. apply remove_lock_cases in Heqp as [-> Hl]. case_match; simplify_eq/=; (split_and!; [done..|]).
    + apply effect_stays; [|by apply stays_same]. intros _. unfold inside. simpl. by rewrite Hok.
    + right. left. unfold inside. simpl. rewrite Hok. by split; [|left].
Qed.

Lemma drop_owner_stays d d' fs : lock_stays d fs (drop_owner d' fs).
Proof.
  intros Hl. unfold drop_owner. destruct (dir_of d' fs) as [dir|] eqn:Ed; [|done].
  destruct (dir !! lockName) as [[o m| |]|] eqn:El; try done. unfold lock_of. rewrite entry_set_dir.
  case_bool_decide; [|done]. rewrite lookup_insert_eq. unfold is_lock. eauto.
Qed.

Record excl (d : string) (sys : LockSys) : Prop := {
  ex_dir i x : sys_inst sys !! i = Some x → dl_targetDir x.1 = d;
  ex_pc i x : sys_inst sys !! i = Some x → pc_ok x;
  ex_one i j x y : sys_inst sys !! i = Some x → sys_inst sys !! j = Some y → inside x = true → inside y = true → i = j;
  ex_lock i x : sys_inst sys !! i = Some x → inside x = true → is_lock (lock_of d (sys_fs sys));
}.

(** An instance that found the lock stale is about to remove it. *)
Definition judged_stale (sys : LockSys) : Prop := ∃ i l, sys_inst sys !! i = Some (l, Some PRemoveStale).

(** A step after which nobody has judged the lock stale. *)
Definition calm_step (sys sys' : LockSys) : Prop := lock_step sys sys' ∧ ¬ judged_stale sys'.

Definition calm (sys : LockSys) : bool :=
  forallb (λ ix, match ix.2.2 with Some PRemoveStale => false | _ => true end) (map_to_list (sys_inst sys)).

Lemma calm_spec sys : calm sys = true → ¬ judged_stale sys.
Proof.
  unfold calm. rewrite forallb_forall. intros Hc (i & l & Hi). specialize (Hc (i, (l, Some PRemoveStale))).
  simpl in Hc. discriminate Hc. by apply list_elem_of_In, elem_of_map_to_list.
Qed.

(** A schedule with nobody judging the lock stale. *)
Fixpoint calm_schedule (acts : list LockAct) (sys : LockSys) : option LockSys :=
  match acts with
  | [] => Some sys
  | a :: acts' => sys1 ← lock_act a sys; if calm sys1 then calm_schedule acts' sys1 else None
  end.

Lemma calm_schedule_schedule acts sys sys' : calm_schedule acts sys = Some sys' → schedule acts sys = Some sys'.
Proof.
  revert sys. induction acts as [|a acts IH]; simpl; intros sys Hs; [done|].
  apply bind_Some in Hs as (sys1 & -> & Hs). destruct (calm sys1); [|done]. by apply IH.
Qed.

Lemma calm_schedule_run acts sys sys' : calm_schedule acts sys = Some sys' → rtc calm_step sys sys'.
Proof.
  revert sys. induction acts as [|a acts IH]; simpl; intros sys Hs; [by injection Hs as <-|].
  apply bind_Some in Hs as (sys1 & Ha & Hs). destruct (calm sys1) eqn:Hc; [|done].
  eapply rtc_l; [split; [by eapply lock_act_step|by apply calm_spec]|by apply IH].
Qed.

Lemma excl_turn d fs insts i x x' fs' :
  excl d (mkLockSys fs insts) → insts !! i = Some x → dl_targetDir x'.1 = d → pc_ok x' → turn_effect d x x' fs fs' →
  excl d (mkLockSys fs' (<[i := x']> insts)).
Proof.
  intros [Hdir Hpc Hone Hlock] Hi Hd Hok Heff. simpl in *.
  assert (∀ j y, j ≠ i → insts !! j = Some y → inside y = true → inside x' = false ∧ is_lock (lock_of d fs')) as Hother.
  { intros j y Hj Hy Hin. destruct Heff as [(_ & Hn & _)|[[Hx [Hx'|Hs]]|[Hx Hs]]].
    - destruct (Hlock j y Hy Hin) as (o & m & E). congruence.
    - destruct Hj. by eapply Hone.
    - split; [done|]. by eapply Hs, Hlock.
    - destruct Hj. by eapply Hone. }
  split; simpl.
  - intros j y [[<- <-]|[_ Hj]]%lookup_insert_Some; [done|by eapply Hdir].
  - intros j y [[<- <-]|[_ Hj]]%lookup_insert_Some; [done|by eapply Hpc].
  - intros j k y z [[<- <-]|[Hne1 Hj]]%lookup_insert_Some [[<- <-]|[Hne2 Hk]]%lookup_insert_Some Hy Hz; [done|..|by eapply Hone].
    + destruct (Hother k z) as [? _]; [done..|congruence].
    + destruct (Hother j y) as [? _]; [done..|congruence].
  - intros j y [[<- <-]|[Hne Hj]]%lookup_insert_Some Hy; [|by eapply Hother].
    destruct Heff as [(_ & _ & ?)|[[? _]|[Hx Hs]]]; [done|congruence|by eapply Hs, Hlock].
Qed.

Lemma excl_step d sys sys' : excl d sys → ¬ judged_stale sys → lock_step sys sys' → excl d sys'.
Proof.
  intros Hex Hcalm Hs. destruct Hs as [i l o fs insts Hi|i l pc t fs fs' l' insts Hi Ht|i l pc fs insts Hi Hr|i fs insts].
  - eapply excl_turn; [done..|exact (ex_dir _ _ Hex i _ Hi)|done|]. apply effect_stays; [done|by apply stays_same].
  - pose proof (ex_dir _ _ Hex i _ Hi) as Hd. simpl in Hd.
    destruct (turn_effects _ _ _ _ _ _ Ht) as (Hd' & Hok & Heff); [|exact (ex_pc _ _ Hex i _ Hi)|].
    { intros ->. apply Hcalm. by exists i, l. }
    eapply excl_turn; [done..|simpl; congruence|done|]. by rewrite Hd in Heff.
  - destruct Hex as [Hdir Hpc Hone Hlock]. split; simpl; [done..|]. intros j y Hj Hy. by eapply drop_owner_stays, Hlock.
  - destruct Hex as [Hdir Hpc Hone Hlock]. split; simpl; intros; repeat match goal with H : delete _ _ !! _ = Some _ |- _ =>
      apply lookup_delete_Some in H as [_ H] end; eauto.
Qed.

Lemma excl_init d sys : lock_init d sys → excl d sys ∧ tokens_ok d sys ∧ ¬ judged_stale sys.
Proof.
  intros Hi. assert (∀ i x, sys_inst sys !! i = Some x → inside x = false) as Hout.
  { intros i [l pc] Hx. destruct (Hi _ _ Hx) as (_ & Hh & _ & Hp). simpl in *. subst. unfold inside. simpl. by rewrite Hh. }
  split_and!.
  - split; intros.
    + by eapply Hi.
    + destruct (Hi _ _ ltac:(done)) as (_ & _ & _ & Hp). unfold pc_ok. by rewrite Hp.
    + erewrite Hout in *; done.
    + erewrite Hout in *; done.
  - split; intros.
    + by eapply Hi.
    + left. destruct (Hi _ _ ltac:(done)) as (_ & ? & ? & _). done.
    + destruct (Hi i x) as (_ & _ & ? & _); done.
  - intros (i & l & Hx). by destruct (Hi _ _ Hx) as (_ & _ & _ & ?).
Qed.

Lemma calm_excl d sys sys' : lock_init d sys → rtc calm_step sys sys' → excl d sys'.
Proof.
  intros Hi Hr. destruct (excl_init d sys Hi) as (Hex & _ & Hc). clear Hi.
  induction Hr as [|a b c [Hs Hb] _ IH]; [done|]. apply IH; [by eapply excl_step|done].
Qed.

Lemma run_tokens d sys sys' : tokens_unique → lock_init d sys → rtc lock_step sys sys' → tokens_ok d sys'.
Proof.
  intros Hu Hi Hr. destruct (excl_init d sys Hi) as (_ & Hok & _). clear Hi.
  induction Hr as [|a b c Hs _ IH]; [done|]. apply IH. by eapply tokens_ok_step.
Qed.

(** An instance that lost the lock notices at its next check, and leaves the directory alone. *)
Lemma start_lost o fs l :
  o ≠ OpTryLock → dl_isHeld l = true → ¬ owns fs l →
  ∃ r fs', turn (PStart o) (fs, l) = (inr (Done r), (fs', {| l with dl_isHeld := false |})) ∧ fs_dirs fs' = fs_dirs fs ∧
    (o ≠ OpIsHeldByMe → r = inl ErrLockNotHeld).
Proof.
  intros Ho Hh Hlost. destruct (read_token (fs, l)) as [data [fs1 l1]] eqn:E.
  destruct (read_token_cases _ _ _ _ _ E) as (-> & Hd & Hown).
  assert (∀ token, data = inr token → token ≠ dl_fenceToken l) as Hne.
  { intros token -> ->. apply Hlost. split; [done|]. by apply Hown. }
  destruct o; cbv [turn turn_start turn_verify this bind try ret fail gets set_held modify]; simpl; rewrite ?Hh; simpl; [done|..].
  all: rewrite E; destruct data as [e|token]; [by do 2 eexists|].
  all: specialize (Hne token eq_refl); first [rewrite bool_decide_true by done|rewrite bool_decide_false by done]; by do 2 eexists.
Qed.

(** C36.  Instances of one directory lock, each in its own process, with their system calls
    interleaved in any way, any call failing and any process dying.
    As long as no instance has judged the lock stale, at most one holds it.
    A stale lock is removed without further agreement, so that two instances may then hold
    it, as the comment in [TryLock] says ([stale_race_two_holders]); but in every run at most one of the holders has its token in the owner
    file, and one that has not gives the lock up at the read of its next heartbeat, check or
    release and removes nothing.  An instance with nobody else at work does what the whole
    operations do. *)
Theorem lock_exclusive d sys0 sys
    (Htokens : tokens_unique)
    (Hinit : lock_init d sys0) (Hrun : rtc lock_step sys0 sys) :
  (rtc calm_step sys0 sys → ∀ i j x y,
     sys_inst sys !! i = Some x → sys_inst sys !! j = Some y → dl_isHeld x.1 = true → dl_isHeld y.1 = true → i = j) ∧
  (∀ i j x y, sys_inst sys !! i = Some x → sys_inst sys !! j = Some y → owns (sys_fs sys) x.1 → owns (sys_fs sys) y.1 → i = j) ∧
  (∀ i l o, sys_inst sys !! i = Some (l, Some (PStart o)) → o ≠ OpTryLock → dl_isHeld l = true → ¬ owns (sys_fs sys) l →
     ∃ r fs', turn (PStart o) (sys_fs sys, l) = (inr (Done r), (fs', {| l with dl_isHeld := false |})) ∧
       fs_dirs fs' = fs_dirs (sys_fs sys) ∧ (o ≠ OpIsHeldByMe → r = inl ErrLockNotHeld)) ∧
  ∀ o s, alone 7 (PStart o) s = run_lock o s.
Proof.
  split_and!.
  - intros Hcalm i j x y Hi Hj Hx Hy. eapply (ex_one d sys); [by eapply calm_excl|done..| |]; unfold inside; [by rewrite Hx|by rewrite Hy].
  - intros i j x y Hi Hj [Hx Ox] [Hy Oy]. destruct (run_tokens d sys0 sys Htokens Hinit Hrun) as [Hdir Hdrawn Hij].
    rewrite (Hdir _ _ Hi) in Ox. rewrite (Hdir _ _ Hj) in Oy. eapply (Hij i j); [done..|congruence|].
    destruct (Hdrawn _ _ Hi) as [[_ ?]|(n & _ & ->)]; [congruence|apply Htokens].
  - intros i l o _. apply start_lost.
  - apply alone_run.
Qed.

(** ** Operations touch nothing but the lock *)
Definition lock_frame : relation (FS C * dirLock) := λ s s',
  dl_targetDir s'.2 = dl_targetDir s.2 ∧
  ∀ d n, n ≠ lockName ∨ d ≠ dl_targetDir s.2 → entry_of d n s'.1 = entry_of d n s.1.

#[local] Instance lock_frame_preorder : PreOrder lock_frame.
Proof.
  split; [by intros [fs l]|]. intros a b c [Hd1 H1] [Hd2 H2]. split; [congruence|].
  intros d n Hn. rewrite H2, H1; [done|done|by rewrite Hd1].
Qed.

(** An update of one directory that changes only the lock entry. *)
Lemma frame_set_dir fs l dir0 dir :
  dir_of (dl_targetDir l) fs = Some dir0 → (∀ n, n ≠ lockName → dir !! n = dir0 !! n) →
  ∀ d n, n ≠ lockName ∨ d ≠ dl_targetDir l →
    entry_of d n (set_dir (dl_targetDir l) dir fs) = entry_of d n fs.
Proof.
  intros Hd Hdir d n Hn. rewrite entry_set_dir. case_bool_decide as E; [|done]. subst.
  unfold entry_of. rewrite Hd. simpl. apply Hdir. by destruct Hn.
Qed.

Definition fs_frame (d0 : string) : relation (FS C) := λ fs fs',
  ∀ d n, n ≠ lockName ∨ d ≠ d0 → entry_of d n fs' = entry_of d n fs.

#[local] Instance fs_frame_preorder d0 : PreOrder (fs_frame d0).
Proof. split; [by intros fs d n _|]. intros a b c H1 H2 d n Hn. by rewrite H2, H1. Qed.

Lemma frame_on_fs {A} (m : dirLock → Op (FS C) A) :
  (∀ l, respects (fs_frame (dl_targetDir l)) (m l)) → respects lock_frame (let* l := this in on_fs (m l)).
Proof.
  intros Hm [fs l] r s' Hr. unfold bind, this, gets, on_fs, zoom in Hr. simpl in Hr.
  destruct (m l fs) as [r0 fs0] eqn:E. injection Hr as _ <-. split; [done|]. exact (Hm l _ _ _ E).
Qed.

Lemma frame_syscall d0 : respects (fs_frame d0) (syscall (C := C)).
Proof. by intros fs r fs' [= <- <-]. Qed.
Lemma frame_now d0 : respects (fs_frame d0) (now (C := C)).
Proof. by intros fs r fs' [= <- <-]. Qed.
Lemma frame_mkdir d0 d : respects (fs_frame d0) (mkdir_all (C := C) d).
Proof.
  unfold mkdir_all. walk_op; [apply frame_syscall|]. apply op_modify_respects. intros fs.
  destruct (dir_of d fs) eqn:E; [done|]. intros d' n _. rewrite entry_set_dir. case_bool_decide; [subst|done].
  unfold entry_of. by rewrite E, lookup_empty.
Qed.

(** The updates of the lock entry, as one shape. *)
Lemma frame_update l (f : gmap string (Entry C) → FS C → (Err + unit) * FS C) :
  (∀ dir fs r fs', dir_of (dl_targetDir l) fs = Some dir → f dir fs = (r, fs') → fs_frame (dl_targetDir l) fs fs') →
  respects (fs_frame (dl_targetDir l))
    (let* r := gets (dir_of (dl_targetDir l)) in match r with None => fail ENotExist | Some dir => f dir end).
Proof.
  intros Hf fs r fs' Hr. unfold bind, gets in Hr. simpl in Hr.
  destruct (dir_of _ fs) as [dir|] eqn:E; [|by injection Hr as _ <-]. by eapply Hf.
Qed.

Ltac lock_update :=
  repeat (apply op_bind_respects; [apply _|first [apply frame_syscall|apply frame_now]|intros ?]);
  apply frame_update; intros dir fs r fs' Hdir Hf; repeat case_match; injection Hf as _ <-; try done;
  intros d n Hn; eapply frame_set_dir; [done| |done]; intros k Hk; by rewrite lookup_insert_ne by done.

#[local] Transparent stat_lock read_token isStaleInfo touch_lock write_token make_lock remove_lock acquire.

Lemma frame_make_lock : respects lock_frame (make_lock (C := C)).
Proof. apply frame_on_fs. intros l. lock_update. Qed.
Lemma frame_write_token t : respects lock_frame (write_token (C := C) t).
Proof. apply frame_on_fs. intros l. lock_update. Qed.
Lemma frame_touch_lock t : respects lock_frame (touch_lock (C := C) t).
Proof. apply frame_on_fs. intros l. lock_update. Qed.
Lemma frame_remove_lock : respects lock_frame (remove_lock (C := C)).
Proof.
  apply frame_on_fs. intros l. walk_op; [apply frame_syscall|]. apply op_modify_respects. intros fs.
  destruct (dir_of _ fs) eqn:E; [|done]. intros d n Hn. eapply frame_set_dir; [done| |done].
  intros k Hk. by rewrite lookup_delete_ne by done.
Qed.

Lemma frame_read {A} (m : Op (FS C * dirLock) A) :
  (∀ s r s', m s = (r, s') → fs_dirs s'.1 = fs_dirs s.1 ∧ s'.2 = s.2) → respects lock_frame m.
Proof.
  intros Hm s r s' Hr. destruct (Hm _ _ _ Hr) as [Hd Hl]. split; [by rewrite Hl|].
  intros d n _. unfold entry_of, dir_of. by rewrite Hd.
Qed.

Lemma frame_stat_lock : respects lock_frame (stat_lock (C := C)).
Proof.
  apply frame_read. intros [fs l] r s'. cbv [stat_lock this on_fs zoom bind gets stat syscall ret fail]. simpl.
  intros Hr. repeat case_match; simplify_eq/=; done.
Qed.
Lemma frame_read_token : respects lock_frame (read_token (C := C)).
Proof.
  apply frame_read. intros [fs l] r s'. cbv [read_token this on_fs zoom bind gets stat syscall ret fail]. simpl.
  intros Hr. repeat case_match; simplify_eq/=; done.
Qed.
Lemma frame_isStaleInfo t : respects lock_frame (isStaleInfo (C := C) t).
Proof. apply frame_read. by intros [fs l] r s' [= <- <-]. Qed.
Lemma frame_clock : respects lock_frame (on_fs (now (C := C))).
Proof. apply frame_read. by intros [fs l] r s' [= <- <-]. Qed.
Lemma frame_token : respects lock_frame (on_fs (fresh_token (C := C))).
Proof. apply frame_read. by intros [fs l] r s' [= <- <-]. Qed.
Lemma frame_set_held h : respects lock_frame (set_held (C := C) h).
Proof. apply op_modify_respects. by intros [fs l]. Qed.
Lemma frame_set_token t : respects lock_frame (set_token (C := C) t).
Proof. apply op_modify_respects. by intros [fs l]. Qed.
Lemma frame_mkdir_on d : respects lock_frame (on_fs (mkdir_all (C := C) d)).
Proof.
  intros [fs l] r s'. unfold on_fs, zoom. destruct (mkdir_all d _) eqn:E. intros [= <- <-]. split; [done|].
  exact (frame_mkdir _ _ _ _ _ E).
Qed.

#[local] Opaque stat_lock read_token isStaleInfo touch_lock write_token make_lock remove_lock set_held set_token on_fs.

Create HintDb lock_frame.
#[local] Hint Resolve frame_stat_lock frame_read_token frame_isStaleInfo frame_clock frame_token frame_set_held
  frame_set_token frame_mkdir_on frame_make_lock frame_write_token frame_touch_lock frame_remove_lock : lock_frame.

Lemma frame_TryLock : respects lock_frame (TryLock (C := C)).
Proof. unfold TryLock, acquire, this. walk_op; auto with lock_frame. Qed.
Lemma frame_Unlock : respects lock_frame (Unlock (C := C)).
Proof. unfold Unlock, verify_token, this. walk_op; auto with lock_frame. Qed.

#[local] Opaque TryLock.
Lemma frame_lock_ticks n : respects lock_frame (lock_ticks (C := C) n).
Proof. induction n; simpl; walk_op; apply frame_TryLock. Qed.
#[local] Opaque lock_ticks.
Lemma frame_Lock n : respects lock_frame (Lock (C := C) n).
Proof. unfold Lock. walk_op; first [apply frame_TryLock|apply frame_lock_ticks]. Qed.
#[local] Transparent stat_lock read_token isStaleInfo touch_lock write_token make_lock remove_lock set_held
  set_token on_fs TryLock lock_ticks.

(** ** Without failures *)
Section NoFailure.
Context (Hok : ∀ n, SysOk n = true).

Lemma this_step {A} (k : dirLock → Op (FS C * dirLock) A) fs l : bind this k (fs, l) = k l (fs, l).
Proof. done. Qed.

Lemma mkdir_all_eq d fs :
  mkdir_all d fs =
  (inr tt, match dir_of d fs with Some _ => tick fs | None => set_dir d ∅ (tick fs) end).
Proof using Hok. unfold mkdir_all, bind, syscall, modify. by rewrite Hok. Qed.

Lemma make_lock_eq fs l dir :
  dir_of (dl_targetDir l) fs = Some dir → dir !! lockName = None →
  make_lock (fs, l) =
  (inr tt, (set_dir (dl_targetDir l) (<[lockName := LockDir None (Now (S (fs_calls fs)))]> dir) (tick (tick fs)), l)).
Proof using Hok.
  intros Hd Hn. cbv [make_lock this on_fs zoom bind gets syscall now modify]. simpl. rewrite Hok.
  unfold dir_of in *. simpl. by rewrite Hd, Hn.
Qed.

Lemma write_token_eq fs l dir o m token :
  dir_of (dl_targetDir l) fs = Some dir → dir !! lockName = Some (LockDir o m) →
  write_token token (fs, l) =
  (inr tt, (set_dir (dl_targetDir l) (<[lockName := LockDir (Some token) (Now (S (fs_calls fs)))]> dir)
     (tick (tick fs)), l)).
Proof using Hok.
  intros Hd Hn. cbv [write_token this on_fs zoom bind gets syscall now modify]. simpl. rewrite Hok.
  unfold dir_of in *. simpl. by rewrite Hd, Hn.
Qed.

Lemma remove_lock_eq fs l :
  remove_lock (fs, l) =
  (inr tt, (match dir_of (dl_targetDir l) fs with
            | Some dir => set_dir (dl_targetDir l) (delete lockName dir) (tick fs)
            | None => tick fs
            end, l)).
Proof using Hok. cbv [remove_lock this on_fs zoom bind gets syscall modify]. simpl. by rewrite Hok. Qed.

Definition grabbed (fs : FS C) (l : dirLock) : (Err + unit) * (FS C * dirLock) → Prop := λ res,
  ∃ n m fs', fs_calls fs ≤ n ∧
    res = (inr tt, (fs', {| l with dl_isHeld := true; dl_fenceToken := FreshToken n |})) ∧
    lock_of (dl_targetDir l) fs' = Some (LockDir (Some (FreshToken n)) m).

Lemma acquire_ok fs l : lock_of (dl_targetDir l) fs = None → grabbed fs l (acquire (fs, l)).
Proof using Hok.
  intros Hl. unfold acquire. rewrite this_step.
  set (d := dl_targetDir l) in *.
  assert (∃ dir fs1, on_fs (mkdir_all d) (fs, l) = (inr tt, (fs1, l)) ∧ dir_of d fs1 = Some dir ∧
    dir !! lockName = None ∧ fs_calls fs1 = S (fs_calls fs)) as (dir & fs1 & Hmk & Hd1 & Hn1 & Hc1).
  { unfold on_fs, zoom. simpl. rewrite mkdir_all_eq. unfold lock_of, entry_of in Hl.
    destruct (dir_of d fs) as [dir|] eqn:E; simpl in Hl.
    - exists dir, (tick fs). by split_and!.
    - exists ∅, (set_dir d ∅ (tick fs)). split_and!; [done|apply dir_set_dir|by rewrite lookup_empty|done]. }
  erewrite bind_step by done.
  erewrite bind_step by (apply try_step, make_lock_eq; done). cbv beta iota.
  erewrite bind_step by reflexivity.
  erewrite bind_step; [|apply try_step; eapply write_token_eq; [apply dir_set_dir|apply lookup_insert_eq]].
  cbv beta iota. eexists _, _, _. split; [|split; [reflexivity|]].
  - simpl. lia.
  - unfold lock_of, entry_of. rewrite dir_set_dir. simpl. by rewrite lookup_insert_eq.
Qed.

Lemma Unlock_ok fs l m :
  dl_isHeld l = true → lock_of (dl_targetDir l) fs = Some (LockDir (Some (dl_fenceToken l)) m) →
  ∃ fs', Unlock (fs, l) = (inr tt, (fs', {| l with dl_isHeld := false |})) ∧ lock_of (dl_targetDir l) fs' = None.
Proof using Hok.
  intros Hh Hl. unfold Unlock. rewrite this_step, Hh. simpl.
  assert (verify_token (fs, l) = (inr tt, (tick fs, l))) as Hv.
  { unfold verify_token. rewrite this_step.
    erewrite bind_step; [|apply try_step; by eapply read_token_eq]. rewrite Hok. simpl.
    by rewrite bool_decide_false by auto. }
  erewrite bind_step by done. erewrite bind_step by apply remove_lock_eq.
  unfold lock_of, entry_of in Hl. destruct (dir_of (dl_targetDir l) fs) as [dir|] eqn:E; [|done].
  eexists. split.
  - unfold set_held, modify. reflexivity.
  - unfold dir_of in E |- *. simpl. rewrite E. unfold lock_of, entry_of. rewrite dir_set_dir. simpl.
    by rewrite lookup_delete_eq.
Qed.

(** When the lock counts as free for an attempt: absent or stale. *)
Definition lock_free fs l : bool :=
  match lock_of (dl_targetDir l) fs with
  | None => true
  | Some e =>
      let m := match e with LockDir _ m | File _ m => m | SubDir => 0%Z end in
      (StaleThreshold (dl_opts l) <? Sub (Now (S (fs_calls fs))) m)%Z
  end.

Lemma TryLock_free fs l :
  dl_isHeld l = false → lock_free fs l = true → grabbed fs l (TryLock (fs, l)).
Proof using Hok.
  intros Hnot Hfree. unfold TryLock, lock_free in *. rewrite this_step, Hnot.
  cbv beta iota. destruct (lock_of (dl_targetDir l) fs) as [e|] eqn:Hl.
  - assert (stat_lock (fs, l) = (inr match e with LockDir _ m | File _ m => m | SubDir => 0%Z end, (tick fs, l)))
      as Hstat.
    { unfold lock_of in Hl. cbv [stat_lock this on_fs zoom bind gets stat syscall ret]. simpl. rewrite Hok.
      unfold entry_of, dir_of in *. simpl. rewrite Hl. by destruct e. }
    erewrite bind_step by by apply try_step. cbv beta iota.
    erewrite bind_step by apply isStaleInfo_eq. simpl. rewrite Hfree. erewrite bind_step by apply remove_lock_eq.
    unfold lock_of, entry_of in Hl. destruct (dir_of (dl_targetDir l) fs) as [dir|] eqn:E; [|done].
    unfold dir_of in E |- *. simpl. rewrite E. destruct (acquire_ok (set_dir (dl_targetDir l) (delete lockName dir)
      (tick (tick (tick fs)))) l) as (n & m & fs' & Hn & Hr & Hl').
    { unfold lock_of, entry_of. rewrite dir_set_dir. simpl. by rewrite lookup_delete_eq. }
    exists n, m, fs'. split_and!; [simpl in Hn; lia|exact Hr|done].
  - assert (stat_lock (fs, l) = (inl ENotExist, (tick fs, l))) as Hstat.
    { unfold lock_of in Hl. cbv [stat_lock this on_fs zoom bind gets stat syscall fail]. simpl. rewrite Hok.
      unfold entry_of, dir_of in *. simpl. by rewrite Hl. }
    erewrite bind_step by by apply try_step. cbv beta iota.
    destruct (acquire_ok (tick fs) l) as (n & m & fs' & Hn & Hr & Hl'); [done|].
    exists n, m, fs'. split_and!; [simpl in Hn; lia|exact Hr|done].
Qed.

(** Without failures of system calls, [TryLock] of an instance that does not
    hold the lock acquires it exactly when the lock is free or stale, and nothing
    else in the directories changes; the [Unlock] that follows frees the lock. *)
Theorem TryLock_correct fs l (Hnot : dl_isHeld l = false)
    (Hlock : lock_of (dl_targetDir l) fs = None ∨ ∃ o m, lock_of (dl_targetDir l) fs = Some (LockDir o m)) :
  let '(r, (fs', l')) := TryLock (fs, l) in
  (if lock_free fs l then
     r = inr tt ∧ owns fs' l' ∧ (∃ n, fs_calls fs ≤ n ∧ dl_fenceToken l' = FreshToken n) ∧
     ∃ fs2, Unlock (fs', l') = (inr tt, (fs2, {| l' with dl_isHeld := false |})) ∧
            lock_of (dl_targetDir l) fs2 = None
   else r = inl ErrLockConflict ∧ fs_dirs fs' = fs_dirs fs ∧ l' = l) ∧
  ∀ d n, n ≠ lockName ∨ d ≠ dl_targetDir l → entry_of d n fs' = entry_of d n fs.
Proof using Hok.
  destruct (TryLock (fs, l)) as [r [fs' l']] eqn:Hr. split; [|exact (proj2 (frame_TryLock _ _ _ Hr))].
  destruct (lock_free fs l) eqn:Hfree.
  - destruct (TryLock_free fs l Hnot Hfree) as (n & m & fs1 & Hn & Hr' & Hl'). rewrite Hr in Hr'.
    injection Hr' as -> -> ->. split_and!; [done| |by eexists|].
    + split; [done|]. simpl. unfold owner_of. by rewrite Hl'.
    + by apply (Unlock_ok fs1 (mkDirLock (dl_targetDir l) (dl_opts l) true (FreshToken n)) m).
  - unfold lock_free in Hfree. destruct Hlock as [Hl|(o & m & Hl)]; rewrite Hl in Hfree; [done|].
    unfold TryLock in Hr. rewrite this_step, Hnot in Hr.
    cbv beta iota in Hr. erewrite bind_step in Hr by (apply try_step; by eapply stat_lock_eq).
    rewrite Hok in Hr. cbv beta iota in Hr. erewrite bind_step in Hr by apply isStaleInfo_eq.
    simpl in Hr. rewrite Hfree in Hr. injection Hr as <- <- <-. done.
Qed.
End NoFailure.
End Laws.
