(* ===== verification/QueueName.v ===== *)
(** * Names of queue items (persis/filequeue/queuefile.go, index.go)

    A queued run is a file [item_<priority>_<date>_<time>_<nanoseconds>Z_<run>.json].
    The functions here build and parse these names; the theorems show that a
    name parses back to the run and the instant it was built from, and that
    the byte order of names is the order of the instants. *)

From stdpp Require Import base strings list gmap sorting.
From Stdlib Require Import ZArith Lia Ascii.
From S2P Require Import Prelude GoStrings GoDate RunStatus.

Open Scope Z_scope.

(** ** Strings *)
Fixpoint strip_prefix (p s : string) : option string :=
  match p, s with
  | EmptyString, _ => Some s
  | String c p', String d s' => if Ascii.eqb c d then strip_prefix p' s' else None
  | String _ _, EmptyString => None
  end.

Definition HasPrefix (s p : string) : bool := bool_decide (is_Some (strip_prefix p s)).
Definition HasSuffix (s p : string) : bool :=
  let n := String.length s in let k := String.length p in
  (k <=? n)%nat && String.eqb (String.substring (n - k) k s) p.

(** [\d{n}] *)
Fixpoint take_digits (n : nat) (s : string) : option (string * string) :=
  match n with
  | O => Some (EmptyString, s)
  | S n' =>
      match s with
      | String c s' =>
          if is_digit c then '(ds, rest) ← take_digits n' s'; Some (String c ds, rest) else None
      | EmptyString => None
      end
  end.

Definition number (s : string) : Z := default 0 (parse_digits 0 s).

(** ** Names *)
Definition itemPrefix : string := "item_".
Definition highPrefix : string := "high_".
Definition lowPrefix : string := "low_".
Definition jsonSuffix : string := ".json".
Definition newline : ascii := ascii_of_nat 10.

(** The Unix epoch. *)
Definition unixEpoch : Time := 62135596800 * Second.
Definition UnixNano (t : Time) : Z := wrap64 (t - unixEpoch).

(** [fmt.Sprintf("%09d", z)] for nine digits at most. *)
Definition fmt_09d (z : Z) : string :=
  if z <? 0 then "-" ++ pad (if - z <? 10 ^ 8 then 8 else 9) (- z) else pad 9 z.

(** The layout "20060102_150405" in UTC. *)
Definition format_dateTimeUTC (t : Time) : string :=
  let '(y, m, d) := civil_from_days (t / Day) in
  let s := (t mod Day) / Second in
  format_year y ++ pad 2 m ++ pad 2 d ++ "_" ++
  pad 2 (s / 3600) ++ pad 2 (s / 60 mod 60) ++ pad 2 (s mod 60).

Definition queueFileName (priority dagRunID : string) (t : Time) : string :=
  let timestamp := (format_dateTimeUTC t ++ "_" ++ fmt_09d (Z.rem (UnixNano t) Second) ++ "Z")%string in
  itemPrefix ++ priority ++ timestamp ++ "_" ++ dagRunID ++ jsonSuffix.

(** The pattern of [NewQueueFile]: the prefix, eight digits, six digits, nine
    digits and [Z], joined by underscores, then the run and [.json]. *)
Record NameMatch := mkNameMatch {
  nm_date : string;
  nm_clock : string;
  nm_nanos : string;
  nm_id : string;
}.

Definition match_name (prefix fileName : string) : option NameMatch :=
  s ← strip_prefix (itemPrefix ++ prefix) fileName;
  '(d8, s) ← take_digits 8 s;
  s ← strip_prefix "_" s;
  '(d6, s) ← take_digits 6 s;
  s ← strip_prefix "_" s;
  '(d9, s) ← take_digits 9 s;
  s ← strip_prefix "Z_" s;
  if HasSuffix s jsonSuffix then
    let id := TrimSuffix s jsonSuffix in
    if contains_char newline id then None else Some (mkNameMatch d8 d6 d9 id)
  else None.

(** [time.Parse("20060102_150405", ...)] on what the pattern accepts. *)
Definition parse_dateTimeUTC (d8 d6 : string) : option Time :=
  let y := number (String.substring 0 4 d8) in
  let m := number (String.substring 4 2 d8) in
  let d := number (String.substring 6 2 d8) in
  let hh := number (String.substring 0 2 d6) in
  let mm := number (String.substring 2 2 d6) in
  let ss := number (String.substring 4 2 d6) in
  if (1 <=? m) && (m <=? 12) && (1 <=? d) && (d <=? daysIn m y) && (hh <=? 23) && (mm <=? 59) && (ss <=? 59)
  then Some (Date y m d hh mm ss) else None.

Record ItemData := mkItemData {
  it_FileName : string;
  it_DAGRun : DAGRunRef;
  it_QueuedAt : Time;
}.

#[export] Instance ItemData_eq_dec : EqDecision ItemData.
Proof. solve_decision. Defined.

(** [parseRegex] accepts both priorities. *)
Definition parseQueueFileName (queue fileName : string) : option ItemData :=
  matches ← match match_name highPrefix fileName with
            | Some x => Some x
            | None => match_name lowPrefix fileName
            end;
  timestamp ← parse_dateTimeUTC (nm_date matches) (nm_clock matches);
  nanos ← Atoi (nm_nanos matches);
  Some (mkItemData fileName (mkDAGRunRef queue (nm_id matches)) (timestamp + nanos)).

Definition queueItemIDFromFileName (fileName : string) : string :=
  let base := Base fileName in TrimSuffix base (Ext base).

Definition isHighQueueFileName (fileName : string) : bool :=
  HasPrefix fileName "item_high_" && HasSuffix fileName ".json".
Definition isLowQueueFileName (fileName : string) : bool :=
  HasPrefix fileName "item_low_" && HasSuffix fileName ".json".

(** ** The names the store writes *)
Definition instant_ok (t : Time) : Prop :=
  four_digit_year t = true ∧ unixEpoch <= t ∧ t - unixEpoch <= max_int64.

Definition id_ok (id : string) : Prop := contains_char newline id = false ∧ contains_char slash id = false.

Lemma strip_prefix_app p s : strip_prefix p (p ++ s) = Some s.
Proof. induction p as [|c p IH]; [done|]. simpl. rewrite Ascii.eqb_refl. exact IH. Qed.

Lemma strip_prefix_Some p s r : strip_prefix p s = Some r → s = (p ++ r)%string.
Proof.
  revert s. induction p as [|c p IH]; intros s; simpl; [by intros [= ->]|].
  destruct s as [|d s]; [done|]. destruct (Ascii.eqb c d) eqn:E; [|done].
  apply Ascii.eqb_eq in E as ->. intros ->%IH. done.
Qed.

Lemma forallb_app f t u : string_forallb f (t ++ u) = string_forallb f t && string_forallb f u.
Proof.
  induction t as [|c t IH]; [done|].
  change (String c t ++ u)%string with (String c (t ++ u)). cbn [string_forallb]. by rewrite IH, andb_assoc.
Qed.

Lemma pad_digits w z : string_forallb is_digit (pad w z) = true.
Proof.
  revert z. induction w as [|w IH]; intros z; [done|]. cbn [pad].
  rewrite forallb_app, IH. cbn [string_forallb]. by rewrite is_digit_char.
Qed.

Lemma take_digits_app n t u :
  string_forallb is_digit t = true → n = String.length t → take_digits n (t ++ u) = Some (t, u).
Proof.
  revert n. induction t as [|c t IH]; intros n Hd Hn; simpl in Hn; subst n; [done|].
  simpl in Hd. apply andb_prop in Hd as [Hc Ht].
  change (String c t ++ u)%string with (String c (t ++ u)). cbn [take_digits]. rewrite Hc.
  by rewrite (IH (String.length t)).
Qed.

Lemma substring_prefix a b n : n = String.length a → String.substring 0 n (a ++ b) = a.
Proof.
  revert n. induction a as [|c a IH]; intros n ->; [by destruct b|].
  change (String c a ++ b)%string with (String c (a ++ b)). simpl. by rewrite IH.
Qed.

Lemma substring_skip a b i k n : n = (String.length a + i)%nat → String.substring n k (a ++ b) = String.substring i k b.
Proof.
  revert n. induction a as [|c a IH]; intros n ->; [done|].
  change (String c a ++ b)%string with (String c (a ++ b)). simpl. by apply IH.
Qed.

Lemma substring_all s n : n = String.length s → String.substring 0 n s = s.
Proof. intros ->. rewrite <-(app_nil_string s) at 2. by apply substring_prefix. Qed.

Lemma has_suffix_app s p : HasSuffix (s ++ p) p = true.
Proof.
  unfold HasSuffix. rewrite length_app_string. apply andb_true_intro; split; [apply Nat.leb_le; lia|].
  rewrite (substring_skip s p 0) by lia. rewrite substring_all by done. apply String.eqb_refl.
Qed.

Lemma trim_suffix_app s p : TrimSuffix (s ++ p) p = s.
Proof.
  pose proof (has_suffix_app s p) as Hs. unfold HasSuffix in Hs. unfold TrimSuffix. cbv zeta in *. rewrite Hs.
  apply substring_prefix. rewrite length_app_string. lia.
Qed.

Lemma number_pad w z : 0 <= z < 10 ^ Z.of_nat w → number (pad w z) = z.
Proof.
  intros Hz. unfold number. rewrite <-(app_nil_string (pad w z)), parse_digits_pad by done.
  change (0 * 10 ^ Z.of_nat w + z = z). lia.
Qed.

(** ** The calendar in March-based years *)
Definition march (days : Z) : Z * Z * Z :=
  let z := days + 306 in
  let doe := z mod 146097 in
  let yoe := (doe - doe / 1460 + doe / 36524 - doe / 146096) / 365 in
  let doy := doe - (365 * yoe + yoe / 4 - yoe / 100) in
  let mp := (5 * doy + 2) / 153 in
  (yoe + z / 146097 * 400, mp, doy - (153 * mp + 2) / 5 + 1).

Lemma doe_year doe :
  0 <= doe < 146097 →
  let yoe := (doe - doe / 1460 + doe / 36524 - doe / 146096) / 365 in
  yoe < 399 → doe < 365 * (yoe + 1) + (yoe + 1) / 4 - (yoe + 1) / 100.
Proof. intros H yoe. subst yoe. Z.to_euclidean_division_equations. lia. Qed.

Lemma doy_leap doe :
  0 <= doe < 146097 →
  let yoe := (doe - doe / 1460 + doe / 36524 - doe / 146096) / 365 in
  doe - (365 * yoe + yoe / 4 - yoe / 100) = 365 →
  (yoe + 1) mod 4 = 0 ∧ ((yoe + 1) mod 100 ≠ 0 ∨ yoe = 399).
Proof. intros H yoe. subst yoe. Z.to_euclidean_division_equations. lia. Qed.

Lemma march_bounds days Y mp d : march days = (Y, mp, d) → 0 <= mp <= 11 ∧ 1 <= d <= 31.
Proof.
  unfold march. intros [= _ <- <-].
  pose proof (Z.mod_pos_bound (days + 306) 146097 ltac:(lia)) as Hdoe.
  destruct (doe_bounds _ Hdoe) as [_ Hdoy]. set (doy := _ - (365 * _ + _ - _)) in *. clearbody doy.
  split; [by apply month_bounds|]. Z.to_euclidean_division_equations. lia.
Qed.

(** Later days have later dates. *)
Lemma march_mono days1 days2 Y1 mp1 d1 Y2 mp2 d2 :
  march days1 = (Y1, mp1, d1) → march days2 = (Y2, mp2, d2) → days1 < days2 →
  12 * Y1 + mp1 < 12 * Y2 + mp2 ∨ 12 * Y1 + mp1 = 12 * Y2 + mp2 ∧ d1 < d2.
Proof.
  intros M1 M2 Hlt. pose proof (march_bounds _ _ _ _ M1) as B1. pose proof (march_bounds _ _ _ _ M2) as B2.
  unfold march in M1, M2. injection M1 as <- <- <-. injection M2 as <- <- <-.
  pose proof (Z.mod_pos_bound (days1 + 306) 146097 ltac:(lia)) as D1.
  pose proof (Z.mod_pos_bound (days2 + 306) 146097 ltac:(lia)) as D2.
  pose proof (Z.div_mod (days1 + 306) 146097 ltac:(lia)) as E1.
  pose proof (Z.div_mod (days2 + 306) 146097 ltac:(lia)) as E2.
  set (doe1 := (days1 + 306) mod 146097) in *. set (doe2 := (days2 + 306) mod 146097) in *.
  set (era1 := (days1 + 306) / 146097) in *. set (era2 := (days2 + 306) / 146097) in *.
  destruct (doe_bounds doe1 D1) as [Y1 F1], (doe_bounds doe2 D2) as [Y2 F2].
  pose proof (doe_year doe1 D1) as U1. pose proof (doe_year doe2 D2) as U2. cbv zeta in U1, U2.
  set (yoe1 := (doe1 - _ + _ - _) / 365) in *. set (yoe2 := (doe2 - _ + _ - _) / 365) in *.
  clearbody yoe1 yoe2 doe1 doe2 era1 era2.
  set (doy1 := doe1 - _) in *. set (doy2 := doe2 - _) in *.
  assert (doe1 = 365 * yoe1 + yoe1 / 4 - yoe1 / 100 + doy1) as G1 by (subst doy1; lia).
  assert (doe2 = 365 * yoe2 + yoe2 / 4 - yoe2 / 100 + doy2) as G2 by (subst doy2; lia).
  clearbody doy1 doy2.
  assert (era1 < era2 ∨ era1 = era2 ∧ doe1 < doe2) as [He|[-> Hd]] by lia; [left; lia|].
  assert (yoe1 < yoe2 ∨ yoe1 = yoe2) as [Hy|Hy] by (Z.to_euclidean_division_equations; lia); [left; lia|].
  subst yoe2. assert (doy1 < doy2) as Hdd by lia. clear U1 U2 G1 G2 D1 D2 E1 E2.
  assert ((5 * doy1 + 2) / 153 <= (5 * doy2 + 2) / 153) by (apply Z.div_le_mono; lia).
  destruct (Z.eq_dec ((5 * doy1 + 2) / 153) ((5 * doy2 + 2) / 153)) as [Heq|]; [right|left; lia].
  rewrite Heq. lia.
Qed.

Lemma civil_march days y m d :
  civil_from_days days = (y, m, d) → ∃ Y mp, march days = (Y, mp, d) ∧ 12 * y + m = 12 * Y + mp + 3.
Proof.
  destruct (march days) as [[Y mp] d'] eqn:M. pose proof (march_bounds _ _ _ _ M) as [B _].
  unfold march in M. unfold civil_from_days. intros [= <- <- <-]. injection M as <- <- <-. eexists _, _.
  split; [reflexivity|]. repeat case_match; breflect; lia.
Qed.

Lemma civil_mono days1 days2 y1 m1 d1 y2 m2 d2 :
  civil_from_days days1 = (y1, m1, d1) → civil_from_days days2 = (y2, m2, d2) → days1 < days2 →
  y1 < y2 ∨ y1 = y2 ∧ (m1 < m2 ∨ m1 = m2 ∧ d1 < d2).
Proof.
  intros C1 C2 Hlt.
  destruct (civil_from_days_bounds _ _ _ _ C1) as [B1 _], (civil_from_days_bounds _ _ _ _ C2) as [B2 _].
  apply civil_march in C1 as (Y1 & mp1 & M1 & E1). apply civil_march in C2 as (Y2 & mp2 & M2 & E2).
  destruct (march_mono _ _ _ _ _ _ _ _ M1 M2 Hlt) as [?|[? ?]]; lia.
Qed.

Lemma civil_days_in days y m d : civil_from_days days = (y, m, d) → 1 <= d <= daysIn m y.
Proof.
  intros Hc. destruct (civil_from_days_bounds _ _ _ _ Hc) as [Hm Hd]. split; [lia|].
  unfold civil_from_days in Hc. injection Hc as Hy Hm' Hd'.
  pose proof (Z.mod_pos_bound (days + 306) 146097 ltac:(lia)) as D.
  set (doe := (days + 306) mod 146097) in *. set (era := (days + 306) / 146097) in *.
  destruct (doe_bounds doe D) as [Yb Fb]. pose proof (doy_leap doe D) as Hleap. cbv zeta in Hleap.
  set (yoe := (doe - _ + _ - _) / 365) in *.
  set (doy := doe - (365 * yoe + yoe / 4 - yoe / 100)) in *. clearbody doy yoe doe era.
  pose proof (month_bounds doy Fb) as Hmp. set (mp := (5 * doy + 2) / 153) in *.
  assert (doy <= 364 ∨ doy = 365) as [Hn|Hl] by lia.
  - assert (d <= if m =? 2 then 28 else if (m =? 4) || (m =? 6) || (m =? 9) || (m =? 11) then 30 else 31) as Hb.
    { subst mp. repeat case_match; breflect; Z.to_euclidean_division_equations; lia. }
    unfold daysIn. destruct (m =? 2); [destruct (isLeap y); lia|done].
  - destruct (Hleap Hl) as [L4 L100].
    assert (m = 2 ∧ d = 29 ∧ y = yoe + era * 400 + 1) as (-> & -> & ->).
    { assert (mp = 11) as E by (subst mp; rewrite Hl; done). rewrite E in *. subst doy.
      change ((153 * 11 + 2) / 5) with 337 in *. change (11 <? 10) with false in *. cbv iota in *.
      change (11 - 9 <=? 2) with true in *. cbv iota in *. lia. }
    unfold daysIn, isLeap. simpl.
    assert (∀ k, k ≠ 0 → (yoe + era * 400 + 1) mod k = (yoe + 1 + era * (400 / k) * k + era * (400 mod k)) mod k) as Hmod.
    { intros k Hk. f_equal. pose proof (Z.div_mod 400 k Hk). nia. }
    assert (((yoe + era * 400 + 1) mod 4 =? 0) = true) as ->.
    { apply Z.eqb_eq. rewrite Hmod by done. change (400 mod 4) with 0. rewrite Z.mul_0_r, Z.add_0_r, Z.mod_add; done. }
    destruct L100 as [L| ->].
    + assert (((yoe + era * 400 + 1) mod 100 =? 0) = false) as ->; [|done]. apply Z.eqb_neq.
      rewrite Hmod by done. change (400 mod 100) with 0. rewrite Z.mul_0_r, Z.add_0_r, Z.mod_add; done.
    + assert (((399 + era * 400 + 1) mod 400 =? 0) = true) as ->; [|by rewrite orb_true_r]. apply Z.eqb_eq.
      rewrite Hmod by done. change (400 mod 400) with 0. rewrite Z.mul_0_r, Z.add_0_r, Z.mod_add; done.
Qed.

(** ** The order of texts *)
Definition string_lt (s t : string) : Prop := String.compare s t = Lt.

Lemma ascii_compare_refl c : Ascii.compare c c = Eq.
Proof. unfold Ascii.compare. apply N.compare_refl. Qed.

Lemma cmp_app_eq a s t : String.compare (a ++ s) (a ++ t) = String.compare s t.
Proof.
  induction a as [|c a IH]; [done|].
  change (String c a ++ s)%string with (String c (a ++ s)). change (String c a ++ t)%string with (String c (a ++ t)).
  cbn [String.compare]. by rewrite ascii_compare_refl.
Qed.

Lemma cmp_app_lt a b s t :
  String.length a = String.length b → string_lt a b → string_lt (a ++ s) (b ++ t).
Proof.
  unfold string_lt. revert b. induction a as [|c a IH]; intros [|d b]; [done..|].
  intros [= Hl]. change (String c a ++ s)%string with (String c (a ++ s)).
  change (String d b ++ t)%string with (String d (b ++ t)). cbn [String.compare].
  destruct (Ascii.compare c d); [by apply IH|done..].
Qed.

Lemma digit_lt d1 d2 : 0 <= d1 < d2 → d2 < 10 → Ascii.compare (digit_char d1) (digit_char d2) = Lt.
Proof.
  intros H1 H2. unfold Ascii.compare, digit_char. apply N.compare_lt_iff.
  pose proof (nat_ascii_embedding (48 + Z.to_nat d1) ltac:(lia)).
  pose proof (nat_ascii_embedding (48 + Z.to_nat d2) ltac:(lia)). unfold nat_of_ascii in *. lia.
Qed.

Lemma cmp_pad w z1 z2 : 0 <= z1 < z2 → z2 < 10 ^ Z.of_nat w → string_lt (pad w z1) (pad w z2).
Proof.
  revert z1 z2. induction w as [|w IH]; intros z1 z2 H1 H2; [simpl in *; lia|].
  rewrite Nat2Z.inj_succ, Z.pow_succ_r in H2 by lia. cbn [pad].
  assert (z1 / 10 < z2 / 10 ∨ z1 / 10 = z2 / 10 ∧ z1 mod 10 < z2 mod 10) as [Hq|[Hq Hr]]
    by (Z.to_euclidean_division_equations; lia).
  - apply cmp_app_lt; [by rewrite !length_pad|]. apply IH; [split; [apply Z.div_pos; lia|done]|].
    apply Z.div_lt_upper_bound; lia.
  - rewrite Hq. unfold string_lt. rewrite cmp_app_eq. cbn [String.compare].
    rewrite digit_lt; [done|..]; pose proof (Z.mod_pos_bound z1 10 ltac:(lia));
      pose proof (Z.mod_pos_bound z2 10 ltac:(lia)); lia.
Qed.

(** Texts made of a fixed-width number and a rest. *)
Lemma cmp_field w z1 z2 s t :
  0 <= z1 → z2 < 10 ^ Z.of_nat w → z1 < z2 ∨ z1 = z2 ∧ string_lt s t →
  string_lt (pad w z1 ++ s) (pad w z2 ++ t).
Proof.
  intros H1 H2 [Hlt|[-> Hs]].
  - apply cmp_app_lt; [by rewrite !length_pad|]. by apply cmp_pad.
  - unfold string_lt. by rewrite cmp_app_eq.
Qed.

(** The second of an instant, split as the text shows it. *)
Lemma split_seconds t : t / Second = t / Day * 86400 + t mod Day / Second.
Proof.
  rewrite (Z.div_mod t Day) at 1 by done. change Day with (86400 * Second) at 1.
  rewrite <-Z.mul_assoc, (Z.mul_comm 86400), <-Z.mul_assoc, (Z.mul_comm Second).
  rewrite Z.div_add_l by done. lia.
Qed.

Lemma format_dateTimeUTC_eq t1 t2 : t1 / Second = t2 / Second → format_dateTimeUTC t1 = format_dateTimeUTC t2.
Proof.
  intros E. rewrite (split_seconds t1), (split_seconds t2) in E. pose proof (seconds_of_day t1). pose proof (seconds_of_day t2).
  assert (t1 / Day = t2 / Day) as Hd by lia. assert (t1 mod Day / Second = t2 mod Day / Second) as Hs by lia.
  unfold format_dateTimeUTC. by rewrite Hd, Hs.
Qed.

Lemma format_dateTimeUTC_lt t1 t2 s u :
  four_digit_year t1 = true → four_digit_year t2 = true → t1 / Second < t2 / Second →
  string_lt (format_dateTimeUTC t1 ++ s) (format_dateTimeUTC t2 ++ u).
Proof.
  unfold four_digit_year, format_dateTimeUTC. intros F1 F2 Hlt. rewrite (split_seconds t1), (split_seconds t2) in Hlt.
  pose proof (seconds_of_day t1) as B1. pose proof (seconds_of_day t2) as B2.
  destruct (civil_from_days (t1 / Day)) as [[y1 m1] d1] eqn:C1.
  destruct (civil_from_days (t2 / Day)) as [[y2 m2] d2] eqn:C2.
  rewrite !format_year_pad by done. cbv zeta. breflect.
  destruct (civil_from_days_bounds _ _ _ _ C1), (civil_from_days_bounds _ _ _ _ C2).
  assert (t1 / Day < t2 / Day ∨ t1 / Day = t2 / Day ∧ t1 mod Day / Second < t2 mod Day / Second) as [Hd|[Hd Hs]] by lia;
    rewrite <-!app_assoc_string.
  - pose proof (civil_mono _ _ _ _ _ _ _ _ C1 C2 Hd) as Hm.
    apply cmp_field; [lia|change (10 ^ Z.of_nat 4) with 10000; lia|].
    destruct Hm as [?|[-> Hm]]; [by left|right; split; [done|]].
    apply cmp_field; [lia|change (10 ^ Z.of_nat 2) with 100; lia|].
    destruct Hm as [?|[-> Hm]]; [by left|right; split; [done|]].
    apply cmp_field; [lia|change (10 ^ Z.of_nat 2) with 100; lia|]. by left.
  - rewrite Hd in C1. rewrite C1 in C2. injection C2 as <- <- <-.
    set (s1 := t1 mod Day / Second) in *. set (s2 := t2 mod Day / Second) in *.
    unfold string_lt. rewrite !cmp_app_eq. fold (string_lt (pad 2 (s1 / 3600) ++ (pad 2 (s1 / 60 mod 60) ++
      (pad 2 (s1 mod 60) ++ s))) (pad 2 (s2 / 3600) ++ (pad 2 (s2 / 60 mod 60) ++ (pad 2 (s2 mod 60) ++ u)))).
    change (10 ^ Z.of_nat 2) with 100.
    apply cmp_field; [apply Z.div_pos; lia|change (10 ^ Z.of_nat 2) with 100; Z.to_euclidean_division_equations; lia|].
    assert (s1 / 3600 < s2 / 3600 ∨ s1 / 3600 = s2 / 3600 ∧ s1 / 60 <= s2 / 60) as [?|[E Hs2]]
      by (Z.to_euclidean_division_equations; lia); [by left|right; split; [done|]].
    apply cmp_field; [Z.to_euclidean_division_equations; lia|
      change (10 ^ Z.of_nat 2) with 100; Z.to_euclidean_division_equations; lia|].
    assert (s1 / 60 mod 60 < s2 / 60 mod 60 ∨ s1 / 60 mod 60 = s2 / 60 mod 60 ∧ s1 mod 60 < s2 mod 60) as [?|[? ?]]
      by (Z.to_euclidean_division_equations; lia); [by left|right; split; [done|]].
    apply cmp_field; [Z.to_euclidean_division_equations; lia|
      change (10 ^ Z.of_nat 2) with 100; Z.to_euclidean_division_equations; lia|]. by left.
Qed.

(** ** Names parse back *)
Lemma fmt_nanos t : instant_ok t → fmt_09d (Z.rem (UnixNano t) Second) = pad 9 (t mod Second).
Proof.
  intros (_ & Hlo & Hhi). unfold UnixNano, unixEpoch in *. rewrite wrap64_id by (unfold min_int64; lia).
  rewrite Z.rem_mod_nonneg by (unfold Second in *; lia).
  replace (t - 62135596800 * Second) with (t + (-62135596800) * Second) by lia.
  rewrite Z.mod_add by done. unfold fmt_09d.
  destruct (_ <? 0) eqn:E; [|done]. breflect. pose proof (Z.mod_pos_bound t Second ltac:(done)). lia.
Qed.

Lemma Date_split t y m d :
  civil_from_days (t / Day) = (y, m, d) →
  let s := t mod Day / Second in
  Date y m d (s / 3600) (s / 60 mod 60) (s mod 60) + t mod Second = t.
Proof.
  intros Hc s. unfold Date. rewrite (days_from_civil_from_days _ _ _ _ Hc).
  assert (s = s / 3600 * 3600 + s / 60 mod 60 * 60 + s mod 60) as Hs
    by (Z.to_euclidean_division_equations; lia).
  pose proof (split_seconds t) as Ht. fold s in Ht. pose proof (Z.div_mod t Second ltac:(done)) as Hd.
  unfold Day, Hour, Minute, Second in *. lia.
Qed.

(** The fields of a timestamp parse to its second. *)
Lemma parse_dateTimeUTC_pads t y m d :
  civil_from_days (t / Day) = (y, m, d) → 0 <= y < 10000 →
  let s := t mod Day / Second in
  parse_dateTimeUTC (pad 4 y ++ pad 2 m ++ pad 2 d)
    (pad 2 (s / 3600) ++ pad 2 (s / 60 mod 60) ++ pad 2 (s mod 60)) =
  Some (Date y m d (s / 3600) (s / 60 mod 60) (s mod 60)).
Proof.
  intros Hc Hy s. pose proof (civil_from_days_bounds _ _ _ _ Hc) as [Bm Bd]. pose proof (civil_days_in _ _ _ _ Hc) as Bdi.
  pose proof (seconds_of_day t) as Bs. fold s in Bs. unfold parse_dateTimeUTC.
  rewrite (substring_prefix (pad 4 y)) by (by rewrite length_pad).
  rewrite (substring_skip (pad 4 y) _ 0 2 4), (substring_prefix (pad 2 m)) by (by rewrite length_pad).
  rewrite (substring_skip (pad 4 y) _ 2 2 6), (substring_skip (pad 2 m) _ 0 2 2), (substring_all (pad 2 d))
    by (by rewrite length_pad).
  rewrite (substring_prefix (pad 2 (s / 3600))) by (by rewrite length_pad).
  rewrite (substring_skip (pad 2 (s / 3600)) _ 0 2 2), (substring_prefix (pad 2 (s / 60 mod 60)))
    by (by rewrite length_pad).
  rewrite (substring_skip (pad 2 (s / 3600)) _ 2 2 4), (substring_skip (pad 2 (s / 60 mod 60)) _ 0 2 2),
    (substring_all (pad 2 (s mod 60))) by (by rewrite length_pad).
  change 10000 with (10 ^ Z.of_nat 4) in Hy.
  rewrite !number_pad by (try done; change (10 ^ Z.of_nat 2) with 100; Z.to_euclidean_division_equations; lia).
  rewrite (proj2 (Z.leb_le 1 m)), (proj2 (Z.leb_le m 12)), (proj2 (Z.leb_le 1 d)),
    (proj2 (Z.leb_le d (daysIn m y))), (proj2 (Z.leb_le (s / 3600) 23)), (proj2 (Z.leb_le (s / 60 mod 60) 59)),
    (proj2 (Z.leb_le (s mod 60) 59)); [done|Z.to_euclidean_division_equations; lia..].
Qed.

(** The text of an instant: eight and six digits that parse to its second. *)
Lemma format_dateTimeUTC_fields t :
  four_digit_year t = true →
  ∃ d8 d6, format_dateTimeUTC t = (d8 ++ "_" ++ d6)%string ∧
    String.length d8 = 8%nat ∧ string_forallb is_digit d8 = true ∧
    String.length d6 = 6%nat ∧ string_forallb is_digit d6 = true ∧
    parse_dateTimeUTC d8 d6 = Some (t - t mod Second).
Proof.
  intros Hy. unfold format_dateTimeUTC, four_digit_year in *.
  destruct (civil_from_days (t / Day)) as [[y m] d] eqn:Hc. rewrite (format_year_pad y Hy). breflect.
  set (s := t mod Day / Second).
  exists (pad 4 y ++ pad 2 m ++ pad 2 d)%string, (pad 2 (s / 3600) ++ pad 2 (s / 60 mod 60) ++ pad 2 (s mod 60))%string.
  split_and!; [by rewrite <-!app_assoc_string| | | | |]; rewrite ?length_app_string, ?length_pad, ?forallb_app, ?pad_digits;
    [done..|].
  pose proof (parse_dateTimeUTC_pads t y m d Hc ltac:(lia)) as Hp. cbv zeta in Hp. fold s in Hp. rewrite Hp.
  pose proof (Date_split t y m d Hc) as Hd. cbv zeta in Hd. fold s in Hd. f_equal. lia.
Qed.

Lemma match_queueFileName pre id t :
  instant_ok t → contains_char newline id = false →
  ∃ y m d, civil_from_days (t / Day) = (y, m, d) ∧ 0 <= y < 10000 ∧
  let s := t mod Day / Second in
  match_name pre (queueFileName pre id t) =
  Some (mkNameMatch (pad 4 y ++ pad 2 m ++ pad 2 d) (pad 2 (s / 3600) ++ pad 2 (s / 60 mod 60) ++ pad 2 (s mod 60))
          (pad 9 (t mod Second)) id).
Proof.
  intros Hok Hid. pose proof (fmt_nanos t Hok) as Hn. destruct Hok as (Hy & _ & _).
  unfold queueFileName, format_dateTimeUTC, four_digit_year in *.
  destruct (civil_from_days (t / Day)) as [[y m] d]. rewrite Hn, (format_year_pad y Hy). breflect.
  exists y, m, d. split_and!; [done|lia..|]. cbv zeta. set (s := t mod Day / Second).
  unfold match_name. rewrite (app_assoc_string itemPrefix pre), strip_prefix_app. cbn [mbind option_bind].
  rewrite <-!app_assoc_string, !(app_assoc_string (pad 4 y)), !(app_assoc_string (pad 4 y ++ pad 2 m)).
  rewrite <-(app_assoc_string (pad 4 y)).
  rewrite (take_digits_app 8) by (rewrite ?forallb_app, ?pad_digits, ?length_app_string, ?length_pad; done).
  cbn [mbind option_bind]. rewrite strip_prefix_app. cbn [mbind option_bind].
  rewrite !(app_assoc_string (pad 2 (s / 3600))), !(app_assoc_string (pad 2 (s / 3600) ++ pad 2 (s / 60 mod 60))).
  rewrite <-(app_assoc_string (pad 2 (s / 3600))).
  rewrite (take_digits_app 6) by (rewrite ?forallb_app, ?pad_digits, ?length_app_string, ?length_pad; done).
  cbn [mbind option_bind]. rewrite strip_prefix_app. cbn [mbind option_bind].
  rewrite (take_digits_app 9) by (rewrite ?pad_digits, ?length_pad; done). cbn [mbind option_bind].
  rewrite (app_assoc_string "Z" "_"). change ("Z" ++ "_")%string with "Z_". rewrite strip_prefix_app.
  cbn [mbind option_bind]. by rewrite has_suffix_app, trim_suffix_app, Hid.
Qed.

Lemma Atoi_pad w z : (0 < w <= 9)%nat → 0 <= z < 10 ^ Z.of_nat w → Atoi (pad w z) = Some z.
Proof.
  intros Hw Hz. pose proof (pad_digits w z) as Hd. pose proof (length_pad w z) as Hl.
  pose proof (parse_digits_pad w 0 z "" Hz) as Hp. rewrite app_nil_string in Hp.
  unfold Atoi. destruct (pad w z) as [|c r]; [simpl in Hl; lia|].
  cbn [string_forallb] in Hd. apply andb_prop in Hd as [Hc _].
  assert (Ascii.eqb c "+" || Ascii.eqb c "-" = false) as ->.
  { apply orb_false_iff; split; apply Ascii.eqb_neq; intros ->; done. }
  rewrite Hp. cbn [parse_digits mbind option_bind]. change (0 * 10 ^ Z.of_nat w + z) with z.
  unfold in_int64. assert (10 ^ Z.of_nat w <= 10 ^ 9) by (apply Z.pow_le_mono_r; lia).
  rewrite (proj2 (Z.leb_le _ _)), (proj2 (Z.leb_le _ _)); [done|unfold max_int64, min_int64; lia..].
Qed.

Lemma parse_queueFileName pre queue id t :
  pre = highPrefix ∨ pre = lowPrefix → instant_ok t → id_ok id →
  parseQueueFileName queue (queueFileName pre id t) =
  Some (mkItemData (queueFileName pre id t) (mkDAGRunRef queue id) t).
Proof.
  intros Hpre Ht Hid.
  destruct (match_queueFileName pre id t Ht (proj1 Hid)) as (y & m & d & Hc & Hy & Hm).
  set (s := t mod Day / Second) in Hm. unfold parseQueueFileName.
  assert (match match_name highPrefix (queueFileName pre id t) with
          | Some x => Some x | None => match_name lowPrefix (queueFileName pre id t) end =
          match_name pre (queueFileName pre id t)) as ->.
  { destruct Hpre as [-> | ->]; [by destruct (match_name _ _)|done]. }
  rewrite Hm. cbn [mbind option_bind nm_date nm_clock nm_nanos nm_id].
  pose proof (parse_dateTimeUTC_pads t y m d Hc Hy) as Hp. cbv zeta in Hp. fold s in Hp. rewrite Hp.
  cbn [mbind option_bind].
  assert (Atoi (pad 9 (t mod Second)) = Some (t mod Second)) as ->.
  { apply Atoi_pad; [lia|]. change (10 ^ Z.of_nat 9) with Second. by apply Z.mod_pos_bound. }
  cbn [mbind option_bind]. pose proof (Date_split t y m d Hc) as Hd. cbv zeta in Hd. fold s in Hd. by rewrite Hd.
Qed.

(** A queue file name parses back to the run and the instant it was built from,
    for either priority and for every instant from 1970 on whose nanoseconds fit an
    int64. *)
Theorem queueFileName_roundtrip pre queue id t
    (Hpre : pre = highPrefix ∨ pre = lowPrefix) (Ht : instant_ok t) (Hid : id_ok id) :
  parseQueueFileName queue (queueFileName pre id t) =
  Some (mkItemData (queueFileName pre id t) (mkDAGRunRef queue id) t).
Proof. by apply parse_queueFileName. Qed.

Lemma name_order pre id1 id2 t1 t2 :
  instant_ok t1 → instant_ok t2 → t1 < t2 →
  string_lt (queueFileName pre id1 t1) (queueFileName pre id2 t2).
Proof.
  intros H1 H2 Hlt.
  unfold queueFileName. rewrite (fmt_nanos t1 H1), (fmt_nanos t2 H2). unfold string_lt.
  rewrite !cmp_app_eq. rewrite <-!app_assoc_string.
  assert (t1 / Second < t2 / Second ∨ t1 / Second = t2 / Second ∧ t1 mod Second < t2 mod Second) as [Hs|[Hs Hn]].
  { pose proof (Z.div_le_mono t1 t2 Second ltac:(done) ltac:(lia)).
    pose proof (Z.div_mod t1 Second ltac:(done)). pose proof (Z.div_mod t2 Second ltac:(done)).
    unfold Second in *. lia. }
  - apply format_dateTimeUTC_lt; [apply H1|apply H2|done].
  - rewrite (format_dateTimeUTC_eq t1 t2 Hs), !cmp_app_eq. apply cmp_field.
    + by apply Z.mod_pos_bound.
    + change (10 ^ Z.of_nat 9) with Second. by apply Z.mod_pos_bound.
    + by left.
Qed.

(** The byte order of the names of one priority is the order of their instants:
    sorting the names, as the index does, sorts the runs by the time they were
    queued. *)
Theorem queueFileName_order pre id1 id2 t1 t2
    (H1 : instant_ok t1) (H2 : instant_ok t2) (Hlt : t1 < t2) :
  string_lt (queueFileName pre id1 t1) (queueFileName pre id2 t2).
Proof. by apply name_order. Qed.

Lemma queueFileName_inj pre id1 id2 t1 t2 :
  instant_ok t1 → instant_ok t2 → id_ok id1 → id_ok id2 →
  queueFileName pre id1 t1 = queueFileName pre id2 t2 → id1 = id2.
Proof.
  intros H1 H2 I1 I2 E.
  destruct (match_queueFileName pre id1 t1 H1 (proj1 I1)) as (? & ? & ? & _ & _ & M1).
  destruct (match_queueFileName pre id2 t2 H2 (proj1 I2)) as (? & ? & ? & _ & _ & M2).
  cbv zeta in *. rewrite E, M2 in M1. by injection M1.
Qed.

(** ** Identifiers of items *)
Lemma Base_plain s : contains_char slash s = false → s ≠ "" → Base s = s.
Proof.
  intros Hs Hne. unfold Base. rewrite (proj2 (String.eqb_neq s "") Hne).
  assert (∀ t, contains_char slash t = false → trim_slashes t = t) as Htrim.
  { induction t as [|c t IH]; [done|]. cbn [contains_char trim_slashes]. intros [Hc Ht]%orb_false_iff.
    rewrite (IH Ht), Hc. by destruct t. }
  assert (∀ t cur, contains_char slash t = false → after_slash cur t = (cur ++ t)%string) as Hafter.
  { induction t as [|c t IH]; intros cur; cbn [contains_char after_slash]; [by rewrite app_nil_string|].
    intros [Hc Ht]%orb_false_iff. by rewrite Hc, IH, <-app_assoc_string. }
  rewrite (Htrim s Hs), (Hafter s "" Hs). change ("" ++ s)%string with s.
  by rewrite (proj2 (String.eqb_neq s "") Hne).
Qed.

Lemma Ext_suffix s e : contains_char slash s = false → (∀ cur, ext_from cur e = e) → Ext (s ++ e) = e.
Proof.
  intros Hs He. unfold Ext. generalize "". revert Hs. induction s as [|c s IH]; intros Hs cur; [apply He|].
  change (String c s ++ e)%string with (String c (s ++ e)). cbn [contains_char ext_from] in *.
  apply orb_false_iff in Hs as [Hc Hs]. rewrite Hc. destruct (Ascii.eqb c dot); by apply IH.
Qed.

Lemma Ext_json s : contains_char slash s = false → Ext (s ++ jsonSuffix) = jsonSuffix.
Proof. intros Hs. by apply Ext_suffix. Qed.

Lemma class_no_slash f s : f slash = false → string_forallb f s = true → contains_char slash s = false.
Proof.
  intros Hf. induction s as [|c s IH]; [done|]. cbn [string_forallb contains_char]. intros [Hc Hs]%andb_prop.
  destruct (Ascii.eqb c slash) eqn:E; [apply Ascii.eqb_eq in E as ->; congruence|]. by apply IH.
Qed.

(** A file name that ends in [.json] is its identifier and the suffix. *)
Lemma item_id_json s :
  contains_char slash s = false → queueItemIDFromFileName (s ++ jsonSuffix) = s.
Proof.
  intros Hs. unfold queueItemIDFromFileName. rewrite Base_plain.
  - cbv zeta. by rewrite Ext_json, trim_suffix_app.
  - by rewrite contains_char_app, Hs.
  - by destruct s.
Qed.
