(* ===== verification/QueueFile.v ===== *)
(** * Queue directories (persis/filequeue/queuefile.go, job.go, queue.go)

    A queue is a directory with one file per queued run.  [QueueFile] is the
    part of it with one priority, [DualQueue] both of them; a file of a queue
    directory holds an item, the read index or other bytes.

    Names passed to [filepath.Glob] have no pattern characters (queue names are
    names of DAGs).  The temporary file of a write is not represented: its name
    has neither of the item prefixes, so no operation reads it. *)

From stdpp Require Import base strings list gmap sorting.
From Stdlib Require Import ZArith Lia Ascii.
From S2P Require Import Prelude GoStrings GoDate FileSys RunStatus QueueName.

Open Scope op_scope.

(** ** Data *)
Abbreviation QueuePriority := Z (only parsing).
Definition QueuePriorityHigh : QueuePriority := 0%Z.
Definition QueuePriorityLow : QueuePriority := 1%Z.

Definition priorities : list QueuePriority := [QueuePriorityHigh; QueuePriorityLow].

(** The [files] map of a [DualQueue]: the prefix of each priority. *)
Definition prefix_of (p : QueuePriority) : option string :=
  if (p =? QueuePriorityHigh)%Z then Some highPrefix
  else if (p =? QueuePriorityLow)%Z then Some lowPrefix
  else None.

Record queueReadIndex := mkIndex {
  idx_Version : Z;
  idx_Revision : Z;
  idx_High : list string;
  idx_Low : list string;
}.

Inductive Content :=
  | CItem (d : ItemData)
  | CIndex (i : queueReadIndex)
  | CBytes (b : string).         (* not JSON of either type *)

(** [json.Unmarshal] ignores unknown fields and leaves missing ones zero. *)
Definition unmarshalItem (c : Content) : option ItemData :=
  match c with
  | CItem d => Some d
  | CIndex _ => Some (mkItemData "" (mkDAGRunRef "" "") 0)
  | CBytes _ => None
  end.

Definition unmarshalIndex (c : Content) : option queueReadIndex :=
  match c with
  | CIndex i => Some i
  | CItem _ => Some (mkIndex 0 0 [] [])
  | CBytes _ => None
  end.

(** A queued file whose content is not read yet, and a job that holds it. *)
Record QueuedFile := mkQueuedFile { qf_id : string; qf_queue : string; qf_file : string }.
Record Job := mkJob { job_id : string; job_data : ItemData }.

Inductive QueuedItemData := IFile (f : QueuedFile) | IJob (j : Job).

Definition ItemID (i : QueuedItemData) : string :=
  match i with IFile f => qf_id f | IJob j => job_id j end.

(** [base[:len(base)-len(ext)]] *)
Definition stripExt (base : string) : string :=
  String.substring 0 (String.length base - String.length (Ext base)) base.

Definition NewQueuedFile (queue fileName : string) : QueuedFile :=
  mkQueuedFile (stripExt (Base fileName)) queue fileName.

Record queuedItem := mkQueuedItem { qi_file : string; qi_data : ItemData }.

(** [sort.Slice] by [QueuedAt]; items queued at the same instant may come in
    either order, and no theorem depends on it. *)
Definition queued_le (a b : queuedItem) : Prop := (it_QueuedAt (qi_data a) <= it_QueuedAt (qi_data b))%Z.
#[export] Instance queued_le_dec : RelDecision queued_le := λ a b, decide (_ <= _)%Z.

Definition sortItems : list queuedItem → list queuedItem := merge_sort queued_le.

Section QueueFile.
Context `{OS}.

Abbreviation QFS := (FS Content).
Abbreviation QOp A := (Op QFS A).

(** ** job.go *)
Definition loadData (queue fileName : string) : QOp ItemData :=
  let* fileData := read_file queue fileName in
  match unmarshalItem fileData with
  | Some d => ret d
  | None => fail EUnmarshal
  end.

Definition ExtractJob (f : QueuedFile) : QOp Job :=
  let* data := loadData (qf_queue f) (qf_file f) in
  ret (mkJob (qf_id f) data).

Definition Data (i : QueuedItemData) : QOp DAGRunRef :=
  match i with
  | IFile f => let* d := loadData (qf_queue f) (qf_file f) in ret (it_DAGRun d)
  | IJob j => ret (it_DAGRun (job_data j))
  end.

(** ** queuefile.go

    [QueueFile q prefix]: [q] is the directory. *)
Definition glob (q pattern : string) : QOp (list string) :=
  let* r := try syscall in
  match r with
  | inl _ => ret []              (* Glob ignores errors of reading directories *)
  | inr _ => gets (λ fs, SortStrings (filter (λ n, HasPrefix n pattern = true)
                (map_to_list (default ∅ (dir_of q fs))).*1))
  end.

(** The items of the directory with this priority, by queueing time. *)
Definition parseItem (q prefix fileName : string) : option queuedItem :=
  if bool_decide (is_Some (match_name prefix fileName))
  then item ← parseQueueFileName q fileName; Some (mkQueuedItem fileName item)
  else None.

Definition listItems (q prefix : string) : QOp (list queuedItem) :=
  let* files := glob q (itemPrefix ++ prefix)%string in
  ret (sortItems (omap (parseItem q prefix) files)).

Definition Push (q prefix : string) (dagRun : DAGRunRef) : QOp string :=
  let* timestamp := now in
  let fileName := queueFileName prefix (ref_ID dagRun) timestamp in
  mkdir_all q ;*
  syscall ;*                      (* os.CreateTemp *)
  syscall ;*                      (* tmpFile.Write *)
  syscall ;*                      (* tmpFile.Close *)
  let* mtime := now in
  rename_into q fileName (CItem (mkItemData fileName dagRun timestamp)) mtime ;*
  ret fileName.

(** The directory is missing; other errors of [os.Stat] are not looked at. *)
Definition dir_missing (q : string) : QOp bool :=
  let* r := try (stat_dir q) in
  ret (match r with inl ENotExist => true | _ => false end).

(** One file of [PopByDAGRunID]. *)
Definition popIfRun (q : string) (dagRun : DAGRunRef) (removed : list QueuedItemData) (item : queuedItem)
    : QOp (list QueuedItemData) :=
  let job := NewQueuedFile q (qi_file item) in
  let* data := try (ExtractJob job) in
  match data with
  | inl _ => ret removed
  | inr unwrapped =>
      if bool_decide (it_DAGRun (job_data unwrapped) = dagRun) then
        let* r := try (remove q (qi_file item)) in
        match r with
        | inl _ => ret removed
        | inr _ => ret (removed ++ [IJob unwrapped])
        end
      else ret removed
  end.

Definition PopByDAGRunID (q prefix : string) (dagRun : DAGRunRef) : QOp (list QueuedItemData) :=
  let* missing := dir_missing q in
  if missing then ret []
  else
    let* items := listItems q prefix in
    each (popIfRun q dagRun) [] items.

Definition QueueFile_List (q prefix : string) : QOp (list QueuedFile) :=
  let* missing := dir_missing q in
  if missing then ret []
  else
    let* items := listItems q prefix in
    ret (map (λ item, NewQueuedFile q (qi_file item)) items).

Definition Pop (q prefix : string) : QOp QueuedItemData :=
  let* missing := dir_missing q in
  if missing then fail ErrQueueFileEmpty
  else
    let* items := listItems q prefix in
    match items with
    | [] => fail ErrQueueFileEmpty
    | item :: _ =>
        let* unwrapped := ExtractJob (NewQueuedFile q (qi_file item)) in
        remove q (it_FileName (qi_data item)) ;*
        ret (IJob unwrapped)
    end.

Definition QueueFile_FindByDAGRunID (q prefix dagRunID : string) : QOp QueuedFile :=
  let* missing := dir_missing q in
  if missing then fail ErrQueueFileItemNotFound
  else
    let* items := listItems q prefix in
    match list_find (λ item, ref_ID (it_DAGRun (qi_data item)) = dagRunID) items with
    | Some (_, item) => ret (NewQueuedFile q (qi_file item))
    | None => fail ErrQueueFileItemNotFound
    end.

Definition QueueFile_Len (q prefix : string) : QOp Z :=
  let* missing := dir_missing q in
  if missing then ret 0%Z
  else
    let* items := listItems q prefix in
    ret (Z.of_nat (length items)).

(** ** queue.go: both priorities *)
Definition prefixes : list string := omap prefix_of priorities.

Fixpoint DualQueue_find (q dagRunID : string) (ps : list string) : QOp QueuedItemData :=
  match ps with
  | [] => fail ErrQueueItemNotFound
  | p :: ps' =>
      let* r := try (QueueFile_FindByDAGRunID q p dagRunID) in
      match r with
      | inr item => ret (IFile item)
      | inl ErrQueueFileItemNotFound => DualQueue_find q dagRunID ps'
      | inl e => fail e
      end
  end.

Definition DualQueue_FindByDAGRunID (q dagRunID : string) : QOp QueuedItemData :=
  DualQueue_find q dagRunID prefixes.

Definition DualQueue_DequeueByDAGRunID (q : string) (dagRun : DAGRunRef) : QOp (list QueuedItemData) :=
  let* items := each (λ items p,
    let* r := try (PopByDAGRunID q p dagRun) in
    match r with
    | inr popped => ret (items ++ popped)
    | inl ErrQueueFileEmpty => ret items
    | inl e => fail e
    end) [] prefixes in
  ignore (remove_dir q) ;*
  ret items.

(** One identifier of [DeleteByItemIDs]. *)
Definition deleteItem (q : string) (deleted : Z) (itemID : string) : QOp Z :=
  if bool_decide (itemID = "") then ret deleted
  else
    let fileName := Base (itemID ++ ".json")%string in
    if bool_decide (fileName = ".json") then ret deleted
    else
      let* r := try (remove q fileName) in
      match r with
      | inr _ => ret (deleted + 1)%Z
      | inl ENotExist => ret deleted
      | inl e => fail e
      end.

Definition DualQueue_DeleteByItemIDs (q : string) (itemIDs : list string) : QOp Z :=
  let* deleted := each (deleteItem q) 0%Z itemIDs in
  ignore (remove_dir q) ;*
  ret deleted.

Definition DualQueue_List (q : string) : QOp (list QueuedItemData) :=
  each (λ items p, let* qItems := QueueFile_List q p in ret (items ++ map IFile qItems)) [] prefixes.

Definition DualQueue_Len (q : string) : QOp Z :=
  each (λ total p, let* l := QueueFile_Len q p in ret (total + l)%Z) 0%Z prefixes.

Definition DualQueue_Enqueue (q : string) (priority : QueuePriority) (dagRun : DAGRunRef) : QOp string :=
  match prefix_of priority with
  | None => fail ErrInvalidPriority
  | Some prefix => Push q prefix dagRun
  end.

Fixpoint DualQueue_pop (q : string) (ps : list string) : QOp QueuedItemData :=
  match ps with
  | [] => ignore (remove_dir q) ;* fail ErrQueueEmpty
  | p :: ps' =>
      let* r := try (Pop q p) in
      match r with
      | inr item => ret item
      | inl ErrQueueFileEmpty => DualQueue_pop q ps'
      | inl e => fail e
      end
  end.

Definition DualQueue_Dequeue (q : string) : QOp QueuedItemData := DualQueue_pop q prefixes.
End QueueFile.
