(* ===== verification/QueueStore.v ===== *)
(** * The queue store (persis/filequeue/index.go, store.go)

    A [Store] serves the queues below one base directory.  It keeps an index of
    each queue in the queue's directory, a copy of it in memory that is used
    while the modification time of the file is the remembered one, and a
    directory lock per queue.  The state of an operation is the file system and
    the store; the mutex of the store makes each operation one step of its
    process.

    [ticks] is how often [Lock] retries before its context is done.  Encoded
    cursors are values of [RawCursor]: the JSON and base64 layers are not
    unfolded.

    The source changes the index object that the memory cache points to.  Every
    change is followed, under the same mutex, by a save that replaces or removes
    the cache entry or by an invalidation that removes it, so no later operation
    sees an object that was changed and not saved; the model passes values.  The
    retries of [RemoveWithRetry] and [RenameWithRetry] are for Windows only. *)

From stdpp Require Import base strings list gmap sorting.
From Stdlib Require Import ZArith Lia Ascii.
From S2P Require Import Prelude GoStrings GoDate FileSys DirLock RunStatus QueueName QueueFile.

Open Scope op_scope.

(** ** index.go: the index *)
Definition queueIndexFileName : string := ".queue-index.json".
Definition queueIndexVersion : Z := 1.

Record queueReadIndexCache := mkCache { c_index : queueReadIndex; c_modTime : Time }.

Record queueReadCursor := mkCursor {
  cur_Version : Z;
  cur_Queue : string;
  cur_Revision : Z;
  cur_Offset : Z;
  cur_AfterItemID : string;
}.

Inductive RawCursor := NoCursor | Encoded (c : queueReadCursor) | Garbage.

Definition newQueueReadIndex (t : Time) : queueReadIndex := mkIndex queueIndexVersion (UnixNano t) [] [].

Definition ensureDefaults (t : Time) (idx : queueReadIndex) : queueReadIndex :=
  mkIndex (if (idx_Version idx =? 0)%Z then queueIndexVersion else idx_Version idx)
          (if (idx_Revision idx =? 0)%Z then UnixNano t else idx_Revision idx)
          (idx_High idx) (idx_Low idx).

Definition total (idx : queueReadIndex) : Z := Z.of_nat (length (idx_High idx) + length (idx_Low idx)).

Definition touch (t : Time) (idx : queueReadIndex) : queueReadIndex :=
  let now := UnixNano t in
  let now := if (now <=? idx_Revision idx)%Z then wrap64 (idx_Revision idx + 1) else now in
  {| idx with idx_Revision := now |}.

Definition index_append (t : Time) (priority : QueuePriority) (fileName : string) (idx : queueReadIndex)
    : queueReadIndex :=
  touch t
    (if (priority =? QueuePriorityHigh)%Z then {| idx with idx_High := idx_High idx ++ [fileName] |}
     else if (priority =? QueuePriorityLow)%Z then {| idx with idx_Low := idx_Low idx ++ [fileName] |}
     else idx).

(** The list without its first file of this identifier, and whether there was one. *)
Fixpoint removeQueueFileNameByID (target : list string) (itemID : string) : list string * bool :=
  match target with
  | [] => ([], false)
  | fileName :: rest =>
      if bool_decide (queueItemIDFromFileName fileName = itemID) then (rest, true)
      else let '(rest', removed) := removeQueueFileNameByID rest itemID in (fileName :: rest', removed)
  end.

Definition removeItemID (t : Time) (itemID : string) (idx : queueReadIndex) : queueReadIndex * bool :=
  if bool_decide (itemID = "") then (idx, false)
  else
    let '(high, r1) := removeQueueFileNameByID (idx_High idx) itemID in
    let '(low, r2) := removeQueueFileNameByID (idx_Low idx) itemID in
    let idx := {| idx with idx_High := high; idx_Low := low |} in
    let removed := r1 || r2 in
    ((if removed then touch t idx else idx), removed).

Definition itemFileNameAt (idx : queueReadIndex) (offset : Z) : option string :=
  if (offset <? 0)%Z then None
  else if (offset <? Z.of_nat (length (idx_High idx)))%Z then idx_High idx !! Z.to_nat offset
  else idx_Low idx !! Z.to_nat (offset - Z.of_nat (length (idx_High idx))).

(** [findItemOffset]: [None] for the source's [-1]. *)
Definition findItemOffset (idx : queueReadIndex) (itemID : string) : option Z :=
  match list_find (λ f, queueItemIDFromFileName f = itemID) (idx_High idx) with
  | Some (pos, _) => Some (Z.of_nat pos)
  | None =>
      match list_find (λ f, queueItemIDFromFileName f = itemID) (idx_Low idx) with
      | Some (pos, _) => Some (Z.of_nat (length (idx_High idx) + pos))
      | None => None
      end
  end.

Definition resolveStart (idx : queueReadIndex) (cursor : queueReadCursor) : Err + Z :=
  if (cur_Offset cursor <? 0)%Z then inl ErrInvalidCursor
  else if bool_decide (cur_AfterItemID cursor = "") then
    if negb (cur_Offset cursor =? 0)%Z then inl ErrInvalidCursor else inr 0%Z
  else
    let here :=
      if (0 <? cur_Offset cursor)%Z then
        match itemFileNameAt idx (cur_Offset cursor - 1) with
        | Some fileName => bool_decide (queueItemIDFromFileName fileName = cur_AfterItemID cursor)
        | None => false
        end
      else false in
    if here then inr (cur_Offset cursor)
    else
      match findItemOffset idx (cur_AfterItemID cursor) with
      | Some offset => inr (offset + 1)%Z
      | None => inl ErrInvalidCursor
      end.

(** The loop of [slice]: [n] positions from [pos] on. *)
Fixpoint slice_from (idx : queueReadIndex) (pos : Z) (n : nat) : list string :=
  match n with
  | O => []
  | S n' =>
      match itemFileNameAt idx pos with
      | None => []
      | Some fileName => fileName :: slice_from idx (pos + 1) n'
      end
  end.

(** [start + limit] is taken not to overflow an [int]. *)
Definition slice (idx : queueReadIndex) (start limit : Z) : list string :=
  let start := Z.max start 0 in
  if (limit <=? 0)%Z || (total idx <=? start)%Z then []
  else slice_from idx start (Z.to_nat (Z.min (start + limit) (total idx) - start)).

Definition encodeQueueReadCursor (name : string) (idx : queueReadIndex) (offset : Z) (fileName : string)
    : RawCursor :=
  if bool_decide (fileName = "") then NoCursor
  else Encoded (mkCursor queueIndexVersion name (idx_Revision idx) offset (queueItemIDFromFileName fileName)).

Definition decodeQueueReadCursor (name : string) (raw : RawCursor) : Err + queueReadCursor :=
  match raw with
  | NoCursor => inr (mkCursor queueIndexVersion name 0 0 "")
  | Garbage => inl ErrInvalidCursor
  | Encoded c =>
      if negb (cur_Version c =? queueIndexVersion)%Z || bool_decide (cur_Queue c ≠ name)
      then inl ErrInvalidCursor else inr c
  end.

(** ** The store *)
Record Store := mkStore {
  st_indices : gmap string queueReadIndexCache;
  st_queues : gmap string dirLock;
}.

Definition NewStore : Store := mkStore ∅ ∅.

(** The lock options of [NewDualQueue]; a [time.Duration] counts nanoseconds. *)
Definition dualQueueLockOptions : LockOptions := mkLockOptions 30 50.

Definition createDualQueue (name : string) : dirLock := NewDirLock name (Some dualQueueLockOptions).

Section Store.
Context `{OS} (ticks : nat).

Abbreviation World := (FS Content * Store)%type.
Abbreviation SOp A := (Op World A).

Definition io {A} (m : Op (FS Content) A) : SOp A := zoom fst (λ fs w, (fs, w.2)) m.
Definition set_indices (f : gmap string queueReadIndexCache → gmap string queueReadIndexCache) : SOp unit :=
  modify (λ '(fs, st), (fs, {| st with st_indices := f (st_indices st) |})).

Definition ensureQueue (name : string) : SOp unit :=
  modify (λ '(fs, st),
    match st_queues st !! name with
    | Some _ => (fs, st)
    | None => (fs, {| st with st_queues := <[name := createDualQueue name]> (st_queues st) |})
    end).

(** An operation of the lock of a queue. *)
Definition on_lock {A} (name : string) (m : Op (FS Content * dirLock) A) : SOp A :=
  zoom (λ w, (w.1, default (createDualQueue name) (st_queues w.2 !! name)))
       (λ s w, (s.1, mkStore (st_indices w.2) (<[name := s.2]> (st_queues w.2)))) m.

(** [defer q.Unlock()] *)
Definition locked {A} (name : string) (body : SOp A) : SOp A :=
  on_lock name (Lock ticks) ;*
  λ w, let '(r, w1) := body w in (r, (ignore (on_lock name Unlock) w1).2).

(** *** index.go: load, rebuild, save *)
Definition entry_mtime {C} (e : Entry C) : Time :=
  match e with File _ m | LockDir _ m => m | SubDir => 0%Z end.

Definition saveQueueIndexLocked (name : string) (idx : queueReadIndex) : SOp unit :=
  if (total idx =? 0)%Z then
    set_indices (delete name) ;*
    let* r := try (io (remove name queueIndexFileName)) in
    match r with
    | inr _ | inl ENotExist => ret tt
    | inl e => fail e
    end
  else
    let* t := io now in
    let idx := ensureDefaults t idx in
    io (mkdir_all name) ;*
    io syscall ;*                 (* os.CreateTemp *)
    io syscall ;*                 (* tmpFile.Write *)
    io syscall ;*                 (* tmpFile.Close *)
    let* mtime := io now in
    io (rename_into name queueIndexFileName (CIndex idx) mtime) ;*
    let* info := try (io (stat name queueIndexFileName)) in
    let modTime := match info with inr e => entry_mtime e | inl _ => 0%Z end in
    set_indices <[name := mkCache idx modTime]>.

Definition rebuildQueueIndexLocked (name : string) : SOp queueReadIndex :=
  let* t := io now in
  let idx := newQueueReadIndex t in
  let* entries := try (io (read_dir_files name)) in
  match entries with
  | inl ENotExist => ret idx
  | inl e => fail e
  | inr files =>
      let idx := {| idx with
        idx_High := SortStrings (filter (λ n, isHighQueueFileName n = true) files);
        idx_Low := SortStrings (filter (λ n, isLowQueueFileName n = true) files) |} in
      saveQueueIndexLocked name idx ;*
      ret idx
  end.

Definition loadOrRebuildQueueIndexLocked (name : string) : SOp queueReadIndex :=
  let* dir := try (io (stat_dir name)) in
  match dir with
  | inl ENotExist =>
      set_indices (delete name) ;*
      let* t := io now in
      ret (newQueueReadIndex t)
  | inl e => fail e
  | inr _ =>
      let* info := try (io (stat name queueIndexFileName)) in
      let* cached := gets (λ w, st_indices w.2 !! name) in
      let hit :=
        match info, cached with
        | inr e, Some c => if (c_modTime c =? entry_mtime e)%Z then Some (c_index c) else None
        | _, _ => None
        end in
      match hit with
      | Some idx => ret idx
      | None =>
          let* data := try (io (read_file name queueIndexFileName)) in
          match data with
          | inl _ => rebuildQueueIndexLocked name
          | inr content =>
              match unmarshalIndex content with
              | Some idx =>
                  if (idx_Version idx =? queueIndexVersion)%Z then
                    let* t := io now in
                    let idx := ensureDefaults t idx in
                    let modTime := match info with inr e => entry_mtime e | inl _ => 0%Z end in
                    set_indices <[name := mkCache idx modTime]> ;*
                    ret idx
                  else rebuildQueueIndexLocked name
              | None => rebuildQueueIndexLocked name
              end
          end
      end
  end.

Definition invalidateQueueIndexLocked (name : string) : SOp unit :=
  set_indices (delete name) ;*
  ignore (io (remove name queueIndexFileName)).

(** The tail of the writing operations: save, or drop the index. *)
Definition saveOrInvalidate (name : string) (idx : queueReadIndex) : SOp unit :=
  let* r := try (saveQueueIndexLocked name idx) in
  match r with
  | inr _ => ret tt
  | inl _ => invalidateQueueIndexLocked name
  end.

(** Loading for the tail of a removal: a failure drops the index. *)
Definition refreshIndex (name : string) (update : queueReadIndex → SOp queueReadIndex) : SOp unit :=
  let* r := try (loadOrRebuildQueueIndexLocked name) in
  match r with
  | inl _ => invalidateQueueIndexLocked name
  | inr idx =>
      let* idx := update idx in
      saveOrInvalidate name idx
  end.

Definition drop_id (idx : queueReadIndex) (itemID : string) : SOp queueReadIndex :=
  let* t := io now in ret (removeItemID t itemID idx).1.

(** *** store.go *)
Definition Enqueue_push (name : string) (p : QueuePriority) (dagRun : DAGRunRef) (idx : queueReadIndex)
    : SOp queueReadIndex :=
  let* fileName := io (DualQueue_Enqueue name p dagRun) in
  let* t := io now in
  ret (index_append t p fileName idx).

Definition Enqueue (name : string) (p : QueuePriority) (dagRun : DAGRunRef) : SOp unit :=
  ensureQueue name ;*
  let* idx := loadOrRebuildQueueIndexLocked name in
  let* idx := Enqueue_push name p dagRun idx in
  saveOrInvalidate name idx.

Definition DequeueByName (name : string) : SOp QueuedItemData :=
  ensureQueue name ;*
  locked name (
    let* r := try (io (DualQueue_Dequeue name)) in
    match r with
    | inl e => fail e
    | inr item =>
        refreshIndex name (λ idx, drop_id idx (ItemID item)) ;*
        ret item
    end).

Definition DequeueByDAGRunID (name : string) (dagRun : DAGRunRef) : SOp (list QueuedItemData) :=
  ensureQueue name ;*
  locked name (
    let* items := io (DualQueue_DequeueByDAGRunID name dagRun) in
    if bool_decide (items = []) then fail ErrQueueItemNotFound
    else
      refreshIndex name (λ idx, each (λ idx item, drop_id idx (ItemID item)) idx items) ;*
      ret items).

Definition DeleteByItemIDs (name : string) (itemIDs : list string) : SOp Z :=
  ensureQueue name ;*
  locked name (
    let* deleted := io (DualQueue_DeleteByItemIDs name itemIDs) in
    refreshIndex name (λ idx, each drop_id idx itemIDs) ;*
    ret deleted).

Definition Len (name : string) : SOp Z :=
  ensureQueue name ;*
  let* idx := loadOrRebuildQueueIndexLocked name in
  ret (total idx).

Definition List (name : string) : SOp (list QueuedItemData) :=
  ensureQueue name ;*
  let* idx := loadOrRebuildQueueIndexLocked name in
  ret (map (λ f, IFile (NewQueuedFile name f)) (idx_High idx ++ idx_Low idx)).

Record CursorResult := mkCursorResult {
  cr_Items : list QueuedItemData;
  cr_HasMore : bool;
  cr_NextCursor : RawCursor;
}.

Definition ListCursor (name : string) (cursor : RawCursor) (limit : Z) : SOp CursorResult :=
  let limit := if (limit <=? 0)%Z then 1%Z else limit in
  let* idx := loadOrRebuildQueueIndexLocked name in
  match decodeQueueReadCursor name cursor with
  | inl e => fail e
  | inr decoded =>
      match resolveStart idx decoded with
      | inl e => fail e
      | inr start =>
          let files := slice idx start limit in
          let next := (start + Z.of_nat (length files))%Z in
          let hasMore := (next <? total idx)%Z in
          let nextCursor :=
            match last files with
            | Some f => if hasMore then encodeQueueReadCursor name idx next f else NoCursor
            | None => NoCursor
            end in
          ret (mkCursorResult (map (λ f, IFile (NewQueuedFile name f)) files) hasMore nextCursor)
      end
  end.

Definition ListByDAGName (name dagName : string) : SOp (list QueuedItemData) :=
  let* items := List name in
  each (λ found item,
    let* data := try (io (Data item)) in
    ret (match data with
         | inr d => if bool_decide (ref_Name d = dagName) then found ++ [item] else found
         | inl _ => found
         end)) [] items.

(** [QueueList]: the directories, in name order, that hold an item. *)
Definition QueueList : SOp (list string) :=
  io syscall ;*
  let* names := gets (λ w, SortStrings (map_to_list (fs_dirs w.1)).*1) in
  each (λ found name,
    let* entries := try (io (read_dir_files name)) in
    ret (match entries with
         | inr files =>
             if existsb (λ n, isHighQueueFileName n || isLowQueueFileName n) files then found ++ [name] else found
         | inl _ => found
         end)) [] names.

(** [All]: the items of every queue, high priority first, by path. *)
Definition path_of (f : string * string) : string := (f.1 ++ "/" ++ f.2)%string.
Definition path_le (a b : string * string) : Prop := string_le (path_of a) (path_of b).
#[local] Instance path_le_dec : RelDecision path_le := λ a b, string_le_dec _ _.

Definition globAll (is_item : string → bool) : SOp (list (string * string)) :=
  gets (λ w, merge_sort path_le
    (map_to_list (fs_dirs w.1) ≫= λ '(q, dir),
       map (pair q) (filter (λ n, is_item n = true) (map_to_list dir).*1))).

Definition All : SOp (list QueuedItemData) :=
  let* high := globAll isHighQueueFileName in
  let* low := globAll isLowQueueFileName in
  ret (map (λ '(q, f), IFile (NewQueuedFile q f)) (high ++ low)).
End Store.
