(* ===== verification/QueueRep.v ===== *)
(** * What a queue directory holds

    [rep q p fs l]: the items of priority [p] in the directory [q] are the list
    [l], oldest first.  The laws here say what reading, adding and removing
    files does to it, and what the operations of [QueueFile] and [DualQueue]
    compute, when system calls succeed and the clock advances between two
    readings. *)

From stdpp Require Import base strings list gmap sorting.
From Stdlib Require Import ZArith Lia Ascii.
From S2P Require Import Prelude GoStrings GoDate FileSys DirLock RunStatus QueueName QueueFile.

(** ** Names *)
Lemma has_prefix_name p id t : HasPrefix (queueFileName p id t) (itemPrefix ++ p) = true.
Proof.
  unfold HasPrefix, queueFileName. apply bool_decide_eq_true.
  rewrite (app_assoc_string itemPrefix p), strip_prefix_app. by eexists.
Qed.

Definition is_priority (p : string) : Prop := p = highPrefix ∨ p = lowPrefix.

Lemma has_prefix_disjoint p p' n :
  is_priority p → is_priority p' →
  HasPrefix n (itemPrefix ++ p) = true → HasPrefix n (itemPrefix ++ p') = true → p = p'.
Proof.
  intros Hp Hp' [s Hs]%bool_decide_eq_true [s' Hs']%bool_decide_eq_true.
  apply strip_prefix_Some in Hs as ->. apply strip_prefix_Some in Hs'.
  destruct Hp as [-> | ->], Hp' as [-> | ->]; done.
Qed.

(** The name without its extension. *)
Definition stem (p id : string) (t : Time) : string :=
  itemPrefix ++ p ++ format_dateTimeUTC t ++ "_" ++ fmt_09d (Z.rem (UnixNano t) Second) ++ "Z" ++ "_" ++ id.

Lemma queueFileName_stem p id t : queueFileName p id t = (stem p id t ++ jsonSuffix)%string.
Proof. unfold queueFileName, stem. by rewrite <-!app_assoc_string. Qed.

Lemma pad_no_slash w z : contains_char slash (pad w z) = false.
Proof.
  assert (∀ t, string_forallb is_digit t = true → contains_char slash t = false) as Hd.
  { induction t as [|c t IH]; [done|]. cbn [string_forallb contains_char]. intros [Hc Ht]%andb_prop.
    rewrite (IH Ht), orb_false_r. apply Ascii.eqb_neq. by intros ->. }
  apply Hd, pad_digits.
Qed.

Lemma stem_no_slash p id t :
  is_priority p → instant_ok t → id_ok id → contains_char slash (stem p id t) = false.
Proof.
  intros Hp Ht [_ Hid]. unfold stem. rewrite (fmt_nanos t Ht). destruct Ht as (Hy & _ & _).
  unfold format_dateTimeUTC, four_digit_year in *. destruct (civil_from_days _) as [[y m] d].
  rewrite (format_year_pad y Hy). cbv zeta. rewrite !contains_char_app, !pad_no_slash, Hid.
  by destruct Hp as [-> | ->].
Qed.

Lemma item_id_stem p id t :
  is_priority p → instant_ok t → id_ok id → queueItemIDFromFileName (queueFileName p id t) = stem p id t.
Proof. intros. rewrite queueFileName_stem. apply item_id_json. by apply stem_no_slash. Qed.

Lemma strip_stem p id t :
  is_priority p → instant_ok t → id_ok id → stripExt (Base (queueFileName p id t)) = stem p id t.
Proof.
  intros Hp Ht Hid. rewrite queueFileName_stem. pose proof (stem_no_slash p id t Hp Ht Hid) as Hs.
  rewrite Base_plain; [|by rewrite contains_char_app, Hs|by destruct (stem p id t)].
  unfold stripExt. rewrite Ext_json by done. apply substring_prefix. rewrite length_app_string. lia.
Qed.

(** ** The representation *)
Definition earlier (a b : ItemData) : Prop := (it_QueuedAt a < it_QueuedAt b)%Z.

#[export] Instance earlier_trans : Transitive earlier.
Proof. intros a b c. unfold earlier. lia. Qed.

Section Rep.
Context `{OS}.

Abbreviation QFS := (FS Content).
Implicit Types (fs : QFS) (l : list ItemData).

Record item_at (q p : string) fs (d : ItemData) : Prop := {
  ia_name : it_FileName d = queueFileName p (ref_ID (it_DAGRun d)) (it_QueuedAt d);
  ia_id : id_ok (ref_ID (it_DAGRun d));
  ia_time : instant_ok (it_QueuedAt d);
  ia_past : ∃ k, (k < fs_calls fs)%nat ∧ it_QueuedAt d = Now k;
  ia_file : ∃ m, entry_of q (it_FileName d) fs = Some (File (CItem d) m);
}.

Record rep (q p : string) fs l : Prop := {
  rep_names n : HasPrefix n (itemPrefix ++ p) = true → is_Some (entry_of q n fs) ↔ n ∈ it_FileName <$> l;
  rep_items : Forall (item_at q p fs) l;
  rep_sorted : StronglySorted earlier l;
}.

Lemma rep_item q p fs l d : rep q p fs l → d ∈ l → item_at q p fs d.
Proof. intros [_ Hi _] Hd. rewrite Forall_forall in Hi. by apply Hi. Qed.

Lemma item_prefix q p fs d : item_at q p fs d → HasPrefix (it_FileName d) (itemPrefix ++ p) = true.
Proof. intros [-> _ _ _ _]. apply has_prefix_name. Qed.

(** Names in the order of the items. *)
Lemma rep_name_order q p fs l : rep q p fs l → StronglySorted string_lt (it_FileName <$> l).
Proof.
  intros [_ Hi Hs]. induction Hs as [|d l Hs IH Hd]; [constructor|].
  inversion Hi as [|? ? Hid Hil]; subst. simpl. constructor; [by apply IH|].
  rewrite Forall_fmap, Forall_forall in *. intros d' Hd'. specialize (Hd d' Hd'). specialize (Hil d' Hd').
  simpl. rewrite (ia_name _ _ _ _ Hid), (ia_name _ _ _ _ Hil).
  apply name_order; [apply Hid|apply Hil|exact Hd].
Qed.

Lemma string_lt_irrefl s : ¬ string_lt s s.
Proof. unfold string_lt. intros E. pose proof (String.compare_antisym s s) as A. by rewrite E in A. Qed.

Lemma rep_nodup q p fs l : rep q p fs l → NoDup (it_FileName <$> l).
Proof.
  intros Hr. apply rep_name_order in Hr. induction Hr as [|n ns Hs IH Hn]; [constructor|].
  constructor; [|done]. rewrite Forall_forall in Hn. intros Hin. by apply (string_lt_irrefl n), Hn.
Qed.

Lemma rep_name_inj q p fs l d d' :
  rep q p fs l → d ∈ l → d' ∈ l → it_FileName d = it_FileName d' → d = d'.
Proof.
  intros Hr Hd Hd' E. destruct (ia_file _ _ _ _ (rep_item _ _ _ _ _ Hr Hd)) as [m Hm].
  destruct (ia_file _ _ _ _ (rep_item _ _ _ _ _ Hr Hd')) as [m' Hm']. congruence.
Qed.

(** Sorting a listing of the names gives the order of the items. *)
Lemma sort_names q p fs l L :
  rep q p fs l → NoDup L → (∀ n, n ∈ L ↔ n ∈ it_FileName <$> l) → SortStrings L = it_FileName <$> l.
Proof.
  intros Hr HL Hin. apply (StronglySorted_unique string_le).
  - unfold SortStrings. apply StronglySorted_merge_sort; apply _.
  - pose proof (rep_name_order _ _ _ _ Hr) as Hs. clear Hin. induction Hs as [|n ns _ IH Hn]; constructor; [done|].
    eapply Forall_impl; [done|]. intros x Hx. unfold string_le, String.leb, string_lt in *. by rewrite Hx.
  - unfold SortStrings. rewrite merge_sort_Permutation. apply NoDup_Permutation; [done| |done].
    by eapply rep_nodup.
Qed.

Lemma rep_mono q p fs fs' l :
  rep q p fs l → (fs_calls fs <= fs_calls fs')%nat →
  (∀ n, HasPrefix n (itemPrefix ++ p) = true → entry_of q n fs' = entry_of q n fs) → rep q p fs' l.
Proof.
  intros Hr Hc He. split; [|rewrite Forall_forall; intros d Hd|apply Hr].
  - intros n Hn. rewrite He by done. by apply Hr.
  - pose proof (rep_item _ _ _ _ _ Hr Hd) as Hi. pose proof (item_prefix _ _ _ _ Hi) as Hpre.
    destruct Hi as [? ? ? (k & Hk & ?) (m & ?)]. split; [done..| |].
    + exists k. split; [lia|done].
    + exists m. by rewrite He.
Qed.

(** A directory that does not exist has no items. *)
Lemma rep_missing q p fs l : rep q p fs l → dir_of q fs = None → l = [].
Proof.
  intros Hr Hd. destruct l as [|d l]; [done|].
  destruct (ia_file _ _ _ _ (rep_item _ _ _ _ d Hr ltac:(by left))) as [m Hm].
  unfold entry_of in Hm. by rewrite Hd in Hm.
Qed.

(** Removing files by a predicate on the items. *)
Lemma rep_filter q p fs fs' l (P : ItemData → Prop) `{∀ d, Decision (P d)} :
  rep q p fs l → (fs_calls fs <= fs_calls fs')%nat →
  (∀ n, HasPrefix n (itemPrefix ++ p) = true →
     (∀ d, d ∈ l → it_FileName d = n → P d → entry_of q n fs' = entry_of q n fs) ∧
     (∀ d, d ∈ l → it_FileName d = n → ¬ P d → entry_of q n fs' = None) ∧
     (n ∉ it_FileName <$> l → entry_of q n fs' = entry_of q n fs)) →
  rep q p fs' (filter P l).
Proof.
  intros Hr Hc He. split.
  - intros n Hn. destruct (He n Hn) as (Hk & Hrm & Hno). rewrite list_elem_of_fmap. split.
    + intros Hs. destruct (decide (n ∈ it_FileName <$> l)) as [Hin|Hnin].
      * apply list_elem_of_fmap in Hin as (d & -> & Hd). exists d. split; [done|].
        apply list_elem_of_filter. split; [|done]. destruct (decide (P d)) as [|HP]; [done|].
        rewrite (Hrm d Hd eq_refl HP) in Hs. by destruct Hs.
      * rewrite (Hno Hnin) in Hs. apply (rep_names _ _ _ _ Hr n Hn) in Hs. done.
    + intros (d & -> & [HP Hd]%list_elem_of_filter). rewrite (Hk d Hd eq_refl HP).
      apply (rep_names _ _ _ _ Hr _ Hn). apply list_elem_of_fmap. by exists d.
  - rewrite Forall_forall. intros d [HP Hd]%list_elem_of_filter.
    pose proof (rep_item _ _ _ _ _ Hr Hd) as Hi. pose proof (item_prefix _ _ _ _ Hi) as Hpre.
    destruct Hi as [? ? ? (k & Hk & ?) (m & ?)]. split; [done..| |].
    + exists k. split; [lia|done].
    + exists m. destruct (He _ Hpre) as (Hk' & _ & _). by rewrite (Hk' d Hd eq_refl HP).
  - destruct Hr as [_ _ Hs]. clear He. induction Hs as [|d l Hs IH Hd]; [constructor|].
    rewrite filter_cons. case_decide; [|done]. constructor; [done|].
    rewrite Forall_forall in *. intros d' [_ Hd']%list_elem_of_filter. by apply Hd.
Qed.

(** ** With a clock that advances *)
Context (N : nat) (Hok : ∀ n, SysOk n = true)
  (Hclock : ∀ n m, (n < m < N)%nat → (Now n < Now m)%Z) (Hinst : ∀ n, (n < N)%nat → instant_ok (Now n)).

Lemma rep_push q p fs fs' l d k m :
  rep q p fs l → is_priority p → id_ok (ref_ID (it_DAGRun d)) →
  (fs_calls fs <= k < fs_calls fs')%nat → (k < N)%nat → it_QueuedAt d = Now k →
  it_FileName d = queueFileName p (ref_ID (it_DAGRun d)) (Now k) →
  (∀ n, entry_of q n fs' = if bool_decide (n = it_FileName d) then Some (File (CItem d) m) else entry_of q n fs) →
  rep q p fs' (l ++ [d]).
Proof using Hclock Hinst.
  intros Hr Hp Hid Hk HkN Ht Hname He.
  assert (it_FileName d ∉ it_FileName <$> l) as Hnew.
  { intros (d' & E & Hd')%list_elem_of_fmap. pose proof (rep_item _ _ _ _ _ Hr Hd') as [En _ Hi (j & Hj & Ej) _].
    assert (string_lt (it_FileName d') (it_FileName d)) as Hlt.
    { rewrite En, Hname. apply name_order; [done|by apply Hinst|]. rewrite Ej. apply Hclock. lia. }
    rewrite E in Hlt. by apply string_lt_irrefl in Hlt. }
  split.
  - intros n Hn. rewrite He. case_bool_decide as E.
    + subst n. split; [|by eexists]. intros _. rewrite fmap_app. apply elem_of_app. right. by left.
    + rewrite fmap_app, elem_of_app. rewrite (rep_names _ _ _ _ Hr n Hn). split; [by left|].
      intros [?|Hx]; [done|]. by apply list_elem_of_singleton in Hx.
  - apply Forall_app; split; [|apply Forall_singleton].
    + rewrite Forall_forall. intros d' Hd'. pose proof (rep_item _ _ _ _ _ Hr Hd') as [? ? ? (j & ? & ?) (m' & ?)].
      split; [done..|exists j; split; [lia|done]|]. exists m'. rewrite He, bool_decide_false; [done|].
      intros E. apply Hnew. rewrite <-E. by apply list_elem_of_fmap_2.
    + split; [by rewrite Ht|done|rewrite Ht; by apply Hinst|exists k; split; [lia|done]|].
      exists m. by rewrite He, bool_decide_true.
  - assert (Forall (λ d', earlier d' d) l) as Hall.
    { rewrite Forall_forall. intros d' Hd'. pose proof (rep_item _ _ _ _ _ Hr Hd') as [_ _ _ (j & Hj & Ej) _].
      unfold earlier. rewrite Ej, Ht. apply Hclock. lia. }
    destruct Hr as [_ _ Hs]. clear -Hs Hall. induction Hs as [|x l Hs IH Hx]; simpl; [repeat constructor|].
    inversion Hall; subst. constructor; [by apply IH|]. apply Forall_app. split; [done|by constructor].
Qed.

(** ** Reading *)
Definition parsed (q : string) (d : ItemData) : queuedItem :=
  mkQueuedItem (it_FileName d) (mkItemData (it_FileName d) (mkDAGRunRef q (ref_ID (it_DAGRun d))) (it_QueuedAt d)).

Lemma glob_names q p fs l :
  rep q p fs l →
  SortStrings (filter (λ n, HasPrefix n (itemPrefix ++ p) = true) (map_to_list (default ∅ (dir_of q fs))).*1) =
  it_FileName <$> l.
Proof.
  intros Hr. eapply sort_names; [done|apply NoDup_filter, NoDup_fst_map_to_list|].
  intros n. rewrite list_elem_of_filter, list_elem_of_fmap. split.
  - intros [Hn ([n' e] & -> & Hin)]. apply elem_of_map_to_list in Hin.
    apply (rep_names _ _ _ _ Hr n' Hn). unfold entry_of. destruct (dir_of q fs) as [dir|]; simpl in Hin.
    + by exists e.
    + by rewrite lookup_empty in Hin.
  - intros Hin. assert (HasPrefix n (itemPrefix ++ p) = true) as Hn.
    { apply list_elem_of_fmap in Hin as (d & -> & Hd). eapply item_prefix. by eapply rep_item. }
    split; [done|]. apply (rep_names _ _ _ _ Hr n Hn) in Hin as [e He].
    unfold entry_of in He. destruct (dir_of q fs) as [dir|]; [|done]. exists (n, e). split; [done|].
    by apply elem_of_map_to_list.
Qed.

Lemma parse_items q p fs l :
  is_priority p → Forall (item_at q p fs) l → omap (parseItem q p) (it_FileName <$> l) = parsed q <$> l.
Proof.
  intros Hp. induction 1 as [|d l Hd Hl IH]; [done|]. simpl.
  destruct Hd as [En Hid Ht _ _]. unfold parseItem. rewrite En.
  destruct (match_queueFileName p (ref_ID (it_DAGRun d)) (it_QueuedAt d) Ht (proj1 Hid)) as (? & ? & ? & _ & _ & Hm).
  cbv zeta in Hm. rewrite Hm, bool_decide_true by (by eexists).
  rewrite (parse_queueFileName p q _ _ Hp Ht Hid). simpl. unfold parsed. rewrite En. f_equal. exact IH.
Qed.

Lemma sorted_items q l : StronglySorted earlier l → sortItems (parsed q <$> l) = parsed q <$> l.
Proof.
  intros Hs. unfold sortItems.
  assert (StronglySorted queued_le (parsed q <$> l)) as Hle.
  { induction Hs as [|d l Hs IH Hd]; simpl; constructor; [done|].
    rewrite Forall_fmap. eapply Forall_impl; [done|]. unfold earlier, queued_le. simpl. intros x Hx. lia. }
  apply (StronglySorted_unique_strong queued_le).
  - intros x1 x2 Hx1 Hx2. rewrite merge_sort_Permutation in Hx1.
    apply list_elem_of_fmap in Hx1 as (d1 & -> & H1). apply list_elem_of_fmap in Hx2 as (d2 & -> & H2).
    intros L1 L2. unfold queued_le in L1, L2. simpl in L1, L2.
    assert (∀ a b, a ∈ l → b ∈ l → it_QueuedAt a = it_QueuedAt b → a = b) as Hinj.
    { clear -Hs. induction Hs as [|d l Hs IH Hd]; [intros a b Ha; inversion Ha|].
      rewrite Forall_forall in Hd. unfold earlier in Hd.
      intros a b [->|Ha]%elem_of_cons [->|Hb]%elem_of_cons E; [done|..|by apply IH].
      - specialize (Hd b Hb). lia.
      - specialize (Hd a Ha). lia. }
    by rewrite (Hinj d1 d2 H1 H2 ltac:(lia)).
  - apply StronglySorted_merge_sort; [intros a b c; unfold queued_le; lia|intros a b; unfold queued_le; lia].
  - done.
  - apply merge_sort_Permutation.
Qed.

Lemma wp_listItems q p fs l Q :
  rep q p fs l → is_priority p → Q (inr (parsed q <$> l)) (tick fs) → wp (listItems q p) fs Q.
Proof using Hok.
  intros Hr Hp HQ. unfold listItems, glob. apply wp_bind, wp_bind, wp_try, (wp_syscall Hok).
  apply wp_gets, wp_ret. change (dir_of q (tick fs)) with (dir_of q fs).
  rewrite (glob_names q p fs l Hr), (parse_items q p fs l Hp (rep_items _ _ _ _ Hr)).
  rewrite sorted_items by apply Hr. done.
Qed.

(** ** Writing *)
Lemma wp_Push q p r fs Q :
  (let t := Now (fs_calls fs) in let f := queueFileName p (ref_ID r) t in
   ∀ fs' m, (fs_calls fs < fs_calls fs')%nat →
     (∀ q' n, entry_of q' n fs' =
        if bool_decide (q' = q ∧ n = f) then Some (File (CItem (mkItemData f r t)) m) else entry_of q' n fs) →
     Q (inr f) fs') →
  wp (Push q p r) fs Q.
Proof using Hok.
  intros HQ. unfold Push. apply wp_bind, wp_now. cbv zeta in *. apply wp_bind, (wp_mkdir_all Hok).
  set (f := queueFileName _ _ _) in *.
  assert (∃ fs1, (match dir_of q (tick fs) with Some _ => tick (tick fs) | None => set_dir q ∅ (tick (tick fs)) end) = fs1 ∧
    is_Some (dir_of q fs1) ∧ fs_calls fs1 = S (S (fs_calls fs)) ∧ ∀ q' n, entry_of q' n fs1 = entry_of q' n fs)
    as (fs1 & -> & [dir Hd1] & Hc1 & He1).
  { destruct (dir_of q (tick fs)) eqn:E; (eexists; split; [reflexivity|]).
    - split; [|done]. exists g. exact E.
    - split; [rewrite dir_set_dir; by eexists|]. split; [done|]. intros q' n. rewrite entry_set_dir.
      change (dir_of q (tick fs)) with (dir_of q fs) in E. case_bool_decide; [subst|done].
      unfold entry_of. by rewrite E, lookup_empty. }
  do 3 (apply wp_bind, (wp_syscall Hok)). apply wp_bind, wp_now, wp_bind, (wp_rename_into Hok); [by exists dir|].
  intros fs2 Hc2 He2 _. apply wp_ret, (HQ fs2 (Now (S (S (S (fs_calls fs1)))))).
  - simpl in Hc2. lia.
  - intros q' n. rewrite He2. simpl. case_bool_decide; [done|]. apply He1.
Qed.

(** The directory is only looked at. *)
Lemma wp_dir_missing q fs Q :
  Q (inr (bool_decide (dir_of q fs = None))) (tick fs) → wp (dir_missing q) fs Q.
Proof using Hok.
  intros HQ. unfold dir_missing. apply wp_bind, wp_try, (wp_stat_dir Hok), wp_ret.
  destruct (dir_of q fs); [by rewrite bool_decide_false in HQ|by rewrite bool_decide_true in HQ].
Qed.

Definition job_of (d : ItemData) : QueuedItemData := IJob (mkJob (queueItemIDFromFileName (it_FileName d)) d).

Lemma wp_ExtractJob q p fs d Q :
  is_priority p → item_at q p fs d →
  Q (inr (mkJob (queueItemIDFromFileName (it_FileName d)) d)) (tick fs) →
  wp (ExtractJob (NewQueuedFile q (it_FileName d))) fs Q.
Proof using Hok.
  intros Hp [En Hid Ht _ (m & Hm)] HQ. unfold ExtractJob, loadData. simpl.
  apply wp_bind, wp_bind, (wp_read_file Hok). rewrite Hm. simpl. apply wp_ret, wp_ret.
  by rewrite En, strip_stem, <-(item_id_stem p) by done; rewrite <-En.
Qed.

(** The entries of [q] that satisfy [P] are gone, all others are kept. *)
Definition removed (q : string) (P : string → Prop) `{∀ n, Decision (P n)} fs fs' : Prop :=
  (fs_calls fs <= fs_calls fs')%nat ∧
  ∀ q' n, entry_of q' n fs' = if bool_decide (q' = q ∧ P n) then None else entry_of q' n fs.

Lemma wp_Pop q p fs l Q :
  rep q p fs l → is_priority p →
  match l with
  | [] => ∀ fs', (fs_calls fs <= fs_calls fs')%nat → fs_dirs fs' = fs_dirs fs → Q (inl ErrQueueFileEmpty) fs'
  | d :: _ => ∀ fs', removed q (λ n, n = it_FileName d) fs fs' → Q (inr (job_of d)) fs'
  end → wp (Pop q p) fs Q.
Proof using Hok.
  intros Hr Hp HQ. unfold Pop. apply wp_bind, wp_dir_missing. case_bool_decide as Hd.
  { rewrite (rep_missing _ _ _ _ Hr Hd) in HQ. apply wp_fail, HQ; [simpl; lia|done]. }
  assert (rep q p (tick fs) l) as Hr1 by (eapply rep_mono; [done|simpl; lia|done]).
  apply wp_bind. eapply wp_listItems; [done..|]. destruct l as [|d l]; simpl.
  { apply wp_fail, HQ; [simpl; lia|done]. }
  pose proof (rep_item _ _ _ _ d Hr ltac:(by left)) as Hi.
  apply wp_bind, (wp_ExtractJob q p); [done| |].
  { destruct Hi as [? ? ? (k & ? & ?) (m & ?)]. split; [done..|exists k; split; [simpl; lia|done]|by exists m]. }
  destruct (ia_file _ _ _ _ Hi) as [m Hm]. apply wp_bind. eapply (wp_remove_file Hok); [exact Hm|].
  intros fs' Hc He. apply wp_ret, HQ. split; [simpl in Hc; lia|]. intros q' n. by rewrite He.
Qed.

(** ** Removals and the representation *)
Definition item_id (d : ItemData) : string := queueItemIDFromFileName (it_FileName d).

Lemma item_id_name q p fs d :
  is_priority p → item_at q p fs d → it_FileName d = (item_id d ++ jsonSuffix)%string ∧ contains_char slash (item_id d) = false.
Proof.
  intros Hp [En Hid Ht _ _]. unfold item_id. rewrite En, (item_id_stem p) by done.
  split; [apply queueFileName_stem|by apply stem_no_slash].
Qed.

Lemma rep_other q q0 p fs fs' l P `{∀ n, Decision (P n)} :
  rep q p fs l → removed q0 P fs fs' → (q = q0 → ∀ n, HasPrefix n (itemPrefix ++ p) = true → ¬ P n) → rep q p fs' l.
Proof.
  intros Hr [Hc He] HP. eapply rep_mono; [done|done|]. intros n Hn. rewrite He, bool_decide_false; [done|].
  intros [-> HPn]. by apply (HP eq_refl n).
Qed.

Lemma rep_removed q p fs fs' l (R : ItemData → Prop) `{∀ d, Decision (R d)} P `{∀ n, Decision (P n)} :
  rep q p fs l → removed q P fs fs' → (∀ d, d ∈ l → P (it_FileName d) ↔ R d) →
  (∀ n, HasPrefix n (itemPrefix ++ p) = true → n ∉ it_FileName <$> l → entry_of q n fs = None) →
  rep q p fs' (filter (λ d, ¬ R d) l).
Proof.
  intros Hr [Hc He] HPR Hnone. eapply rep_filter; [done|done|]. intros n Hn. rewrite He. split_and!.
  - intros d Hd <- HR. rewrite bool_decide_false; [done|]. intros [_ HP]. by apply HR, (HPR d Hd).
  - intros d Hd <- HR%dec_stable. rewrite bool_decide_true; [done|]. split; [done|]. by apply HPR.
  - intros Hnin. rewrite (Hnone n Hn Hnin). by case_bool_decide.
Qed.

Lemma rep_absent q p fs l n :
  rep q p fs l → HasPrefix n (itemPrefix ++ p) = true → n ∉ it_FileName <$> l → entry_of q n fs = None.
Proof.
  intros Hr Hn Hnin. destruct (entry_of q n fs) eqn:E; [|done]. exfalso. apply Hnin, (rep_names _ _ _ _ Hr n Hn).
  by rewrite E.
Qed.

Lemma rep_removed_run q p fs fs' l (R : ItemData → Prop) `{∀ d, Decision (R d)} :
  rep q p fs l → removed q (λ n, n ∈ it_FileName <$> filter R l) fs fs' → rep q p fs' (filter (λ d, ¬ R d) l).
Proof.
  intros Hr Hrm. eapply rep_removed; [done|exact Hrm| |intros n; by apply rep_absent].
  intros d Hd. rewrite list_elem_of_fmap. split.
  - intros (d' & E & [HR Hd']%list_elem_of_filter). by rewrite (rep_name_inj _ _ _ _ _ _ Hr Hd Hd' E).
  - intros HR. exists d. split; [done|]. by apply list_elem_of_filter.
Qed.

Lemma rep_pop q p fs fs' d l :
  rep q p fs (d :: l) → removed q (λ n, n = it_FileName d) fs fs' → rep q p fs' l.
Proof.
  intros Hr Hrm. pose proof (rep_nodup _ _ _ _ Hr) as Hnd. simpl in Hnd. apply NoDup_cons in Hnd as [Hnd _].
  assert (rep q p fs' (filter (λ x, ¬ it_FileName x = it_FileName d) (d :: l))) as Hr'.
  { eapply rep_removed; [done|exact Hrm|done|intros n; by apply rep_absent]. }
  rewrite filter_cons_False in Hr' by tauto.
  rewrite filter_all in Hr'; [done|]. intros x Hx E. apply Hnd. rewrite <-E. by apply list_elem_of_fmap_2.
Qed.

(** ** Removing the items of a run *)
Definition of_run (r : DAGRunRef) (d : ItemData) : Prop := it_DAGRun d = r.
#[export] Instance of_run_dec r d : Decision (of_run r d) := decide (it_DAGRun d = r).

Lemma wp_popIfRun_loop q p r l : is_priority p → ∀ acc fs Q,
  Forall (item_at q p fs) l → NoDup (it_FileName <$> l) →
  (∀ fs', removed q (λ n, n ∈ it_FileName <$> filter (of_run r) l) fs fs' →
     Q (inr (acc ++ (job_of <$> filter (of_run r) l))) fs') →
  wp (each (popIfRun q r) acc (parsed q <$> l)) fs Q.
Proof using Hok.
  intros Hp. induction l as [|d l IH]; intros acc fs Q Hl Hnd HQ; simpl.
  { apply wp_ret. rewrite <-(app_nil_r acc). apply HQ. split; [done|]. intros q' n.
    rewrite bool_decide_false; [done|]. intros [_ Hn]. inversion Hn. }
  inversion Hl as [|? ? Hd Hl']; subst. simpl in Hnd. apply NoDup_cons in Hnd as [Hnew Hnd].
  assert (∀ fs1, (fs_calls fs <= fs_calls fs1)%nat → (∀ d', d' ∈ l → entry_of q (it_FileName d') fs1 = entry_of q (it_FileName d') fs) →
    Forall (item_at q p fs1) l) as Hkeep.
  { intros fs1 Hc He. rewrite Forall_forall in *. intros d' Hd'. specialize (Hl' d' Hd').
    destruct Hl' as [? ? ? (k & ? & ?) (m & ?)]. split; [done..|exists k; split; [lia|done]|].
    exists m. by rewrite He. }
  apply wp_bind. unfold popIfRun at 1. simpl. apply wp_bind, wp_try, (wp_ExtractJob q p); [done|done|]. simpl.
  destruct (ia_file _ _ _ _ Hd) as [m Hm]. rewrite filter_cons in HQ.
  case_bool_decide as E.
  - apply wp_bind, wp_try. eapply (wp_remove_file Hok); [exact Hm|]. intros fs1 Hc1 He1. apply wp_ret.
    apply IH; [apply Hkeep; [simpl in *; lia|]|done|].
    { intros d' Hd'. rewrite He1, bool_decide_false; [done|]. intros [_ E']. apply Hnew. rewrite <-E'.
      by apply list_elem_of_fmap_2. }
    intros fs2 [Hc2 He2]. rewrite decide_True in HQ by done. simpl in HQ. rewrite <-app_assoc. apply HQ.
    split; [simpl in *; lia|]. intros q' n. rewrite He2, He1.
    destruct (decide (q' = q ∧ n ∈ it_FileName <$> filter (of_run r) l)) as [[-> Hin]|Hnin].
    + by rewrite !bool_decide_true by (split; [done|first [done|by right]]).
    + rewrite (bool_decide_false (q' = q ∧ n ∈ _)) by done. destruct (decide (q' = q ∧ n = it_FileName d)) as [[-> ->]|Hne].
      * by rewrite !bool_decide_true by (split; [done|first [done|by left]]).
      * rewrite !bool_decide_false; [done| |done]. intros [-> [->|?]%elem_of_cons]; [by apply Hne|by apply Hnin].
  - apply wp_ret. rewrite decide_False in HQ by done.
    apply IH; [apply Hkeep; [simpl; lia|done]|done|]. intros fs2 [Hc2 He2]. apply HQ. split; [simpl in *; lia|].
    intros q' n. by rewrite He2.
Qed.

Lemma wp_PopByDAGRunID q p r fs l Q :
  rep q p fs l → is_priority p →
  (∀ fs', removed q (λ n, n ∈ it_FileName <$> filter (of_run r) l) fs fs' →
     Q (inr (job_of <$> filter (of_run r) l)) fs') →
  wp (PopByDAGRunID q p r) fs Q.
Proof using Hok.
  intros Hr Hp HQ. unfold PopByDAGRunID. apply wp_bind, wp_dir_missing. case_bool_decide as Hd.
  { rewrite (rep_missing _ _ _ _ Hr Hd) in HQ. apply wp_ret, HQ. split; [simpl; lia|]. intros q' n.
    rewrite bool_decide_false; [done|]. intros [_ Hn]. inversion Hn. }
  assert (rep q p (tick fs) l) as Hr1 by (eapply rep_mono; [done|simpl; lia|done]).
  apply wp_bind. eapply wp_listItems; [done..|].
  eapply wp_popIfRun_loop; [done| |by eapply rep_nodup|].
  - assert (rep q p (tick (tick fs)) l) as Hr2 by (eapply rep_mono; [done|simpl; lia|done]). apply Hr2.
  - intros fs' [Hc He]. apply HQ. split; [simpl in *; lia|done].
Qed.

(** ** Both priorities *)
Definition rep2 (q : string) fs (h l : list ItemData) : Prop := rep q highPrefix fs h ∧ rep q lowPrefix fs l.

Lemma high_priority : is_priority highPrefix. Proof. by left. Qed.
Lemma low_priority : is_priority lowPrefix. Proof. by right. Qed.

Lemma rep2_keep q fs fs' h l :
  rep2 q fs h l → (fs_calls fs <= fs_calls fs')%nat →
  (∀ n, HasPrefix n itemPrefix = true → entry_of q n fs' = entry_of q n fs) → rep2 q fs' h l.
Proof.
  intros [Hh Hl] Hc He. assert (∀ p n, HasPrefix n (itemPrefix ++ p) = true → HasPrefix n itemPrefix = true) as Hp.
  { intros p n [s Hs]%bool_decide_eq_true. apply bool_decide_eq_true. apply strip_prefix_Some in Hs as ->.
    rewrite <-app_assoc_string, strip_prefix_app. by eexists. }
  split; (eapply rep_mono; [done|done|]); intros n Hn; by eapply He, Hp.
Qed.

(** A name of one priority is no name of the other. *)
Lemma other_priority q p p' fs l d n :
  is_priority p → is_priority p' → p ≠ p' → rep q p' fs l → d ∈ l → HasPrefix n (itemPrefix ++ p) = true →
  n ≠ it_FileName d.
Proof.
  intros Hp Hp' Hne Hr Hd Hn ->. apply Hne. eapply has_prefix_disjoint; [done|done|done|].
  eapply item_prefix, rep_item; [exact Hr|done].
Qed.

Lemma wp_DualQueue_Dequeue q fs h l Q :
  rep2 q fs h l →
  match h ++ l with
  | [] => ∀ fs', (fs_calls fs <= fs_calls fs')%nat → (∀ q' n, entry_of q' n fs' = entry_of q' n fs) →
            Q (inl ErrQueueEmpty) fs'
  | d :: _ => ∀ fs', removed q (λ n, n = it_FileName d) fs fs' → Q (inr (job_of d)) fs'
  end →
  wp (DualQueue_Dequeue q) fs Q.
Proof using Hok.
  intros [Hh Hl] HQ. unfold DualQueue_Dequeue. simpl.
  apply wp_bind, wp_try. eapply wp_Pop; [exact Hh|apply high_priority|]. destruct h as [|d h]; simpl in HQ |- *.
  2:{ intros fs' Hrm. apply wp_ret. by apply HQ. }
  intros fs1 Hc1 Hd1. assert (∀ q' n, entry_of q' n fs1 = entry_of q' n fs) as He1.
  { intros q' n. unfold entry_of, dir_of. by rewrite Hd1. }
  assert (rep q lowPrefix fs1 l) as Hl1 by (eapply rep_mono; [done|done|by intros; apply He1]).
  apply wp_bind, wp_try. eapply wp_Pop; [exact Hl1|apply low_priority|]. destruct l as [|d l]; simpl.
  - intros fs2 Hc2 Hd2. apply wp_bind, wp_ignore, (wp_remove_dir Hok). intros _ fs3 Hc3 He3. apply wp_fail, HQ; [lia|].
    intros q' n. rewrite He3. unfold entry_of, dir_of. rewrite Hd2. apply He1.
  - intros fs2 [Hc2 He2]. apply wp_ret, HQ. split; [lia|]. intros q' n. by rewrite He2, He1.
Qed.

Lemma removed_trans q P1 P2 P `{∀ n, Decision (P1 n), ∀ n, Decision (P2 n), ∀ n, Decision (P n)} fs1 fs2 fs3 :
  removed q P1 fs1 fs2 → removed q P2 fs2 fs3 → (∀ n, P n ↔ P1 n ∨ P2 n) → removed q P fs1 fs3.
Proof.
  intros [C1 E1] [C2 E2] HP. split; [lia|]. intros q' n. rewrite E2, E1.
  destruct (decide (q' = q ∧ P n)) as [[-> Hn]|Hn].
  - rewrite (bool_decide_true (q = q ∧ P n)) by done. apply HP in Hn as [?|?].
    + rewrite (bool_decide_true (q = q ∧ P1 n)) by done. by destruct (bool_decide _).
    + by rewrite bool_decide_true by done.
  - rewrite !bool_decide_false; [done| | |]; [done|intros [-> ?]; apply Hn; split; [done|apply HP; auto]..].
Qed.

Lemma wp_DualQueue_DequeueByDAGRunID q r fs h l Q :
  rep2 q fs h l →
  (∀ fs', removed q (λ n, n ∈ it_FileName <$> filter (of_run r) (h ++ l)) fs fs' →
     Q (inr (job_of <$> filter (of_run r) (h ++ l))) fs') →
  wp (DualQueue_DequeueByDAGRunID q r) fs Q.
Proof using Hok.
  intros [Hh Hl] HQ. unfold DualQueue_DequeueByDAGRunID. apply wp_bind. simpl.
  apply wp_bind, wp_bind, wp_try. eapply wp_PopByDAGRunID; [exact Hh|apply high_priority|].
  intros fs1 Hrm1. apply wp_ret.
  assert (rep q lowPrefix fs1 l) as Hl1.
  { eapply rep_other; [exact Hl|exact Hrm1|]. intros _ n Hn (d & -> & [_ Hd]%list_elem_of_filter)%list_elem_of_fmap.
    by eapply (other_priority q lowPrefix highPrefix); [apply low_priority|apply high_priority|done|exact Hh|exact Hd|exact Hn|]. }
  apply wp_bind, wp_bind, wp_try. eapply wp_PopByDAGRunID; [exact Hl1|apply low_priority|].
  intros fs2 Hrm2. apply wp_ret, wp_ret, wp_bind, wp_ignore, (wp_remove_dir Hok). intros _ fs3 Hc3 He3. apply wp_ret.
  simpl. rewrite <-fmap_app, <-filter_app. apply HQ. rewrite filter_app.
  assert (removed q (λ n, n ∈ it_FileName <$> (filter (of_run r) h ++ filter (of_run r) l)) fs fs2) as [Hc He].
  { eapply removed_trans; [exact Hrm1|exact Hrm2|]. intros n. by rewrite fmap_app, elem_of_app. }
  split; [lia|]. intros q' n. by rewrite He3, He.
Qed.

(** ** Deleting by identifier *)
Definition item_id_ok (id : string) : Prop :=
  (HasPrefix id (itemPrefix ++ highPrefix) = true ∨ HasPrefix id (itemPrefix ++ lowPrefix) = true) ∧
  contains_char slash id = false.

Lemma has_prefix_app s t p : HasPrefix s p = true → HasPrefix (s ++ t) p = true.
Proof.
  intros [u Hu]%bool_decide_eq_true. apply strip_prefix_Some in Hu as ->. apply bool_decide_eq_true.
  rewrite <-app_assoc_string, strip_prefix_app. by eexists.
Qed.

Definition file_of_id (id : string) : string := (id ++ jsonSuffix)%string.

Lemma file_of_id_inj id1 id2 : file_of_id id1 = file_of_id id2 → id1 = id2.
Proof.
  unfold file_of_id. intros E. by rewrite <-(trim_suffix_app id1 jsonSuffix), E, trim_suffix_app.
Qed.

Lemma file_is_item q p fs l d id :
  is_priority p → rep q p fs l → d ∈ l → it_FileName d = file_of_id id ↔ item_id d = id.
Proof.
  intros Hp Hr Hd. destruct (item_id_name q p fs d Hp (rep_item _ _ _ _ _ Hr Hd)) as [-> _].
  split; [apply file_of_id_inj|by intros ->].
Qed.

Lemma item_id_inj q p fs l d d' :
  is_priority p → rep q p fs l → d ∈ l → d' ∈ l → item_id d = item_id d' → d = d'.
Proof.
  intros Hp Hr Hd Hd' E. eapply rep_name_inj; [exact Hr|done|done|].
  rewrite (proj1 (item_id_name q p fs d Hp (rep_item _ _ _ _ _ Hr Hd))).
  by rewrite (proj1 (item_id_name q p fs d' Hp (rep_item _ _ _ _ _ Hr Hd'))), E.
Qed.

Lemma filter_id_length (f : ItemData → string) (id : string) l :
  NoDup (f <$> l) → length (filter (λ d, f d = id) l) = if bool_decide (id ∈ f <$> l) then 1%nat else 0%nat.
Proof.
  induction l as [|d l IH]; [intros _; case_bool_decide as X; [by apply not_elem_of_nil in X|done]|].
  rewrite fmap_cons. intros [Hn Hnd]%NoDup_cons. rewrite filter_cons. destruct (decide (f d = id)) as [E|E].
  - rewrite bool_decide_true by (rewrite <-E; by left). rewrite filter_none; [done|].
    intros x Hx Ex. apply Hn. rewrite E, <-Ex. by apply list_elem_of_fmap_2.
  - rewrite (IH Hnd). destruct (decide (id ∈ f <$> l)) as [Hin|Hnin].
    + by rewrite !bool_decide_true by (first [done|by right]).
    + rewrite !bool_decide_false; [done| |done]. by intros [->|?]%elem_of_cons.
Qed.

Lemma filter_split_length (f : ItemData → string) id ids l :
  (length (filter (λ d, f d = id) l) + length (filter (λ d, f d ∈ ids) (filter (λ d, ¬ f d = id) l)) =
   length (filter (λ d, f d ∈ id :: ids) l))%nat.
Proof.
  induction l as [|d l IH]; [done|]. rewrite !(filter_cons _ d l).
  destruct (decide (f d = id)) as [E|E].
  - rewrite (decide_True (P := f d ∈ id :: ids)) by (rewrite E; by left).
    rewrite (decide_False (P := ¬ f d = id)) by tauto. simpl. lia.
  - rewrite (decide_True (P := ¬ f d = id)) by done. rewrite filter_cons.
    destruct (decide (f d ∈ ids)) as [Hin|Hin].
    + rewrite (decide_True (P := f d ∈ id :: ids)) by (by right). simpl. lia.
    + rewrite (decide_False (P := f d ∈ id :: ids)); [done|]. by intros [?|?]%elem_of_cons.
Qed.

Lemma rep2_ids_nodup q fs h l : rep2 q fs h l → NoDup (item_id <$> h ++ l).
Proof.
  intros [Hh Hl]. rewrite fmap_app. apply NoDup_app.
  assert (∀ p l0, is_priority p → rep q p fs l0 → NoDup (item_id <$> l0)) as Hone.
  { intros p l0 Hp Hr. pose proof (rep_nodup _ _ _ _ Hr) as Hn. destruct Hr as [_ Hi _].
    induction Hi as [|d l0 Hd Hl0 IH]; [constructor|]. rewrite fmap_cons in *.
    apply NoDup_cons in Hn as [Hn Hnd]. constructor; [|by apply IH].
    intros (d' & E & Hd')%list_elem_of_fmap. apply Hn. apply list_elem_of_fmap. exists d'. split; [|done].
    rewrite Forall_forall in Hl0. rewrite (proj1 (item_id_name q p fs d Hp Hd)).
    by rewrite (proj1 (item_id_name q p fs d' Hp (Hl0 d' Hd'))), E. }
  split_and!; [by eapply Hone; [apply high_priority|]| |by eapply Hone; [apply low_priority|]].
  intros x (d & -> & Hd)%list_elem_of_fmap (d' & E & Hd')%list_elem_of_fmap.
  pose proof (rep_item _ _ _ _ _ Hh Hd) as Hi. pose proof (rep_item _ _ _ _ _ Hl Hd') as Hi'.
  eapply (other_priority q highPrefix lowPrefix); [apply high_priority|apply low_priority|done|exact Hl|exact Hd'| |].
  - eapply item_prefix, Hi.
  - rewrite (proj1 (item_id_name _ _ _ _ high_priority Hi)), E.
    by rewrite <-(proj1 (item_id_name _ _ _ _ low_priority Hi')).
Qed.

Lemma rep2_find q fs h l id :
  rep2 q fs h l → item_id_ok id →
  entry_of q (file_of_id id) fs = None ∧ id ∉ item_id <$> h ++ l ∨
  id ∈ item_id <$> h ++ l ∧ ∃ d m, entry_of q (file_of_id id) fs = Some (File (CItem d) m).
Proof.
  intros [Hh Hl] [Hp _]. assert (∀ p l0, is_priority p → rep q p fs l0 → HasPrefix id (itemPrefix ++ p) = true →
    entry_of q (file_of_id id) fs = None ∧ id ∉ item_id <$> l0 ∨
    id ∈ item_id <$> l0 ∧ ∃ d m, entry_of q (file_of_id id) fs = Some (File (CItem d) m)) as Hone.
  { intros p l0 Hpp Hr Hpre. apply (has_prefix_app _ jsonSuffix) in Hpre. fold (file_of_id id) in Hpre.
    destruct (decide (id ∈ item_id <$> l0)) as [Hin|Hnin].
    - right. split; [done|]. apply list_elem_of_fmap in Hin as (d & -> & Hd).
      destruct (ia_file _ _ _ _ (rep_item _ _ _ _ _ Hr Hd)) as [m Hm]. exists d, m.
      unfold file_of_id. by rewrite <-(proj1 (item_id_name q p fs d Hpp (rep_item _ _ _ _ _ Hr Hd))).
    - left. split; [|done]. eapply rep_absent; [exact Hr|done|]. intros (d & E & Hd)%list_elem_of_fmap.
      apply Hnin, list_elem_of_fmap. exists d. split; [|done]. symmetry.
      by apply (file_is_item q p fs l0 d id Hpp Hr Hd). }
  assert (∀ p p' l0, is_priority p → is_priority p' → p ≠ p' → rep q p' fs l0 → HasPrefix id (itemPrefix ++ p) = true →
    id ∉ item_id <$> l0) as Hnot.
  { intros p p' l0 Hpp Hpp' Hne Hr Hpre (d & -> & Hd)%list_elem_of_fmap. apply (has_prefix_app _ jsonSuffix) in Hpre.
    eapply (other_priority q p p'); [done|done|done|exact Hr|exact Hd|exact Hpre|].
    by rewrite <-(proj1 (item_id_name q p' fs d Hpp' (rep_item _ _ _ _ _ Hr Hd))). }
  rewrite fmap_app. destruct Hp as [Hp|Hp].
  - destruct (Hone _ _ high_priority Hh Hp) as [[? ?]|[? ?]]; [left|right; split; [apply elem_of_app; auto|done]].
    split; [done|]. rewrite not_elem_of_app. split; [done|].
    by eapply (Hnot highPrefix lowPrefix); [apply high_priority|apply low_priority| |exact Hl|].
  - destruct (Hone _ _ low_priority Hl Hp) as [[? ?]|[? ?]]; [left|right; split; [apply elem_of_app; auto|done]].
    split; [done|]. rewrite not_elem_of_app. split; [|done].
    by eapply (Hnot lowPrefix highPrefix); [apply low_priority|apply high_priority| |exact Hh|].
Qed.

Lemma rep2_delete q fs fs' h l id :
  rep2 q fs h l → removed q (λ n, n = file_of_id id) fs fs' →
  rep2 q fs' (filter (λ d, ¬ item_id d = id) h) (filter (λ d, ¬ item_id d = id) l).
Proof.
  intros [Hh Hl] Hrm. split; (eapply rep_removed; [done|exact Hrm| |intros n; by apply rep_absent]); intros d Hd.
  - by eapply file_is_item; [apply high_priority|exact Hh|].
  - by eapply file_is_item; [apply low_priority|exact Hl|].
Qed.

Lemma wp_deleteItem q c id fs h l Q :
  rep2 q fs h l → item_id_ok id →
  (∀ fs', removed q (λ n, n = file_of_id id) fs fs' →
     Q (inr (c + Z.of_nat (length (filter (λ d, item_id d = id) (h ++ l)))))%Z fs') →
  wp (deleteItem q c id) fs Q.
Proof using Hok.
  intros Hr Hid HQ. rewrite (filter_id_length item_id id (h ++ l) (rep2_ids_nodup _ _ _ _ Hr)) in HQ.
  assert (id ≠ "") as Hne by (destruct Hid as [[?|?] _]; by intros ->). unfold deleteItem.
  rewrite bool_decide_false by done. change (id ++ ".json")%string with (file_of_id id).
  rewrite Base_plain; [| |by destruct id].
  2:{ unfold file_of_id. rewrite contains_char_app. by rewrite (proj2 Hid). }
  rewrite bool_decide_false. 2:{ intros E. apply (file_of_id_inj id "") in E. done. }
  apply wp_bind, wp_try. destruct (rep2_find q fs h l id Hr Hid) as [[He Hnin]|[Hin (d & m & He)]].
  - apply (wp_remove_none Hok); [done|]. apply wp_ret. rewrite bool_decide_false in HQ by done.
    rewrite Z.add_0_r in HQ. apply HQ. split; [simpl; lia|]. intros q' n. case_bool_decide as E; [|done].
    by destruct E as [-> ->].
  - eapply (wp_remove_file Hok); [exact He|]. intros fs' Hc He'. apply wp_ret.
    rewrite bool_decide_true in HQ by done. apply HQ. split; [lia|]. intros q' n. by rewrite He'.
Qed.

Lemma wp_delete_loop q ids : Forall item_id_ok ids → ∀ c fs h l Q,
  rep2 q fs h l →
  (∀ fs', removed q (λ n, n ∈ file_of_id <$> ids) fs fs' →
     rep2 q fs' (filter (λ d, ¬ item_id d ∈ ids) h) (filter (λ d, ¬ item_id d ∈ ids) l) →
     Q (inr (c + Z.of_nat (length (filter (λ d, item_id d ∈ ids) (h ++ l)))))%Z fs') →
  wp (each (deleteItem q) c ids) fs Q.
Proof using Hok.
  induction 1 as [|id ids Hid _ IH]; intros c fs h l Q Hr HQ; simpl.
  - apply wp_ret. rewrite (filter_none (λ d, item_id d ∈ [])) in HQ by (intros; apply not_elem_of_nil).
    rewrite Z.add_0_r in HQ. apply HQ.
    + split; [done|]. intros q' n. rewrite bool_decide_false; [done|]. intros [_ Hn]. inversion Hn.
    + rewrite !filter_all by (intros; apply not_elem_of_nil). done.
  - apply wp_bind. eapply wp_deleteItem; [done|done|]. intros fs1 Hrm1.
    pose proof (rep2_delete _ _ _ _ _ _ Hr Hrm1) as Hr1. eapply IH; [exact Hr1|]. intros fs2 Hrm2 Hr2.
    rewrite <-filter_app in *. rewrite <-Z.add_assoc, <-Nat2Z.inj_add, filter_split_length. apply HQ.
    + eapply removed_trans; [exact Hrm1|exact Hrm2|]. intros n. rewrite fmap_cons, elem_of_cons. done.
    + assert (∀ l0, filter (λ d, ¬ item_id d ∈ ids) (filter (λ d, ¬ item_id d = id) l0) =
        filter (λ d, ¬ item_id d ∈ id :: ids) l0) as Hff.
      { intros l0. rewrite list_filter_filter. apply list_filter_iff. intros d. rewrite elem_of_cons. tauto. }
      by rewrite !Hff in Hr2.
Qed.
End Rep.
