(* ===== verification/QueueIndexLaws.v ===== *)
(** * The read index follows the directory

    [stored q w h l]: the directory [q] holds the items [h] (high priority) and
    [l] (low priority), and the index file and its copy in memory list exactly
    them.  Loading and saving keep this, and a removal restores it. *)

From stdpp Require Import base strings list gmap sorting.
From Stdlib Require Import ZArith Lia Ascii.
From S2P Require Import Prelude GoStrings GoDate FileSys DirLock RunStatus QueueName QueueFile QueueStore QueueRep.

Section IndexLaws.
Context `{OS} (Hok : ∀ n, SysOk n = true).

Abbreviation World := (FS Content * Store)%type.
Implicit Types (w : World) (h l : list ItemData) (idx : queueReadIndex).

Definition lists_of idx h l : Prop :=
  idx_High idx = it_FileName <$> h ∧ idx_Low idx = it_FileName <$> l ∧ idx_Version idx = queueIndexVersion.

(** The items of the directory are [h] and [l]; the index, where there is one,
    lists [hi] and [li]. *)
Record stored_ix (q : string) w h l hi li : Prop := {
  sd_rep : rep2 q w.1 h l;
  sd_index : match entry_of q queueIndexFileName w.1 with
             | None => True
             | Some (File c _) =>
                 ∀ i, c = CIndex i → idx_Version i = queueIndexVersion → lists_of i hi li
             | Some _ => False
             end;
  sd_cache c : st_indices w.2 !! q = Some c → lists_of (c_index c) hi li;
}.

Definition stored (q : string) w h l : Prop := stored_ix q w h l h l.

(** Only the index of [q] changed, with at most [k] system calls. *)
Definition idx_only (q : string) (k : nat) w w' : Prop :=
  (fs_calls w.1 <= fs_calls w'.1 <= fs_calls w.1 + k)%nat ∧
  (∀ q' n, ¬ (q' = q ∧ n = queueIndexFileName) → entry_of q' n w'.1 = entry_of q' n w.1) ∧
  (∀ q', q' ≠ q → st_indices w'.2 !! q' = st_indices w.2 !! q') ∧
  st_queues w'.2 = st_queues w.2.

Lemma idx_only_refl q w : idx_only q 0 w w.
Proof. split_and!; try done; lia. Qed.

Lemma idx_only_trans q k1 k2 k w1 w2 w3 :
  idx_only q k1 w1 w2 → idx_only q k2 w2 w3 → (k1 + k2 <= k)%nat → idx_only q k w1 w3.
Proof.
  intros (C1 & E1 & I1 & Q1) (C2 & E2 & I2 & Q2) Hk. split_and!; [lia|lia| | |congruence].
  - intros q' n Hn. by rewrite E2, E1.
  - intros q' Hq. by rewrite I2, I1.
Qed.

Lemma idx_only_tick q k fs st : (1 <= k)%nat → idx_only q k (fs, st) (tick fs, st).
Proof. intros Hk. split_and!; simpl; try done; lia. Qed.

Lemma idx_only_rep q k w w' h l : idx_only q k w w' → rep2 q w.1 h l → rep2 q w'.1 h l.
Proof.
  intros (C & E & _ & _) Hr. eapply rep2_keep; [done|lia|]. intros n Hn. apply E. by intros [_ ->].
Qed.

Lemma wp_io {A} (m : Op (FS Content) A) w Q : wp m w.1 (λ r fs', Q r (fs', w.2)) → wp (io m) w Q.
Proof. intros Hm. unfold io. by apply wp_zoom. Qed.

Lemma wp_set_indices f w Q :
  Q (inr tt) (w.1, mkStore (f (st_indices w.2)) (st_queues w.2)) → wp (set_indices f) w Q.
Proof. destruct w as [fs st]. done. Qed.

(** ** Saving *)
Lemma wp_save q w h l idx Q :
  rep2 q w.1 h l → lists_of idx h l →
  match entry_of q queueIndexFileName w.1 with None | Some (File _ _) => True | _ => False end →
  (∀ w', idx_only q 8 w w' → stored q w' h l → Q (inr tt) w') →
  wp (saveQueueIndexLocked q idx) w Q.
Proof using Hok.
  intros Hr (Hh & Hl & Hv) Hentry HQ. unfold saveQueueIndexLocked. destruct (total idx =? 0)%Z eqn:Ht.
  - assert (h = [] ∧ l = []) as [-> ->].
    { breflect. unfold total in Ht. rewrite Hh, Hl, !length_fmap in Ht. destruct h, l; simpl in *; [done|lia..]. }
    apply wp_bind, wp_set_indices, wp_bind, wp_try, wp_io. simpl.
    destruct (entry_of q queueIndexFileName w.1) as [[c m| |]|] eqn:E; [|done|done|].
    + eapply (wp_remove_file Hok); [done|]. intros fs' Hc He. apply wp_ret, HQ.
      * split_and!; simpl; [lia|lia| | |done].
        -- intros q' n Hn. by rewrite He, bool_decide_false.
        -- intros q' Hq. by rewrite lookup_delete_ne.
      * split; simpl.
        -- eapply rep2_keep; [done|lia|]. intros n Hn. rewrite He, bool_decide_false; [done|]. by intros [_ ->].
        -- by rewrite He, bool_decide_true.
        -- intros c'. by rewrite lookup_delete_eq.
    + apply (wp_remove_none Hok); [done|]. apply wp_ret, HQ.
      * split_and!; simpl; [lia|lia|done| |done]. intros q' Hq. by rewrite lookup_delete_ne.
      * split; simpl; [eapply rep2_keep; [done|simpl; lia|done]| |].
        -- change (entry_of q queueIndexFileName (tick w.1)) with (entry_of q queueIndexFileName w.1). by rewrite E.
        -- intros c'. by rewrite lookup_delete_eq.
  - apply wp_bind, wp_io, wp_now. set (idx' := ensureDefaults _ idx).
    assert (lists_of idx' h l) as Hl'. { unfold idx', lists_of, ensureDefaults. simpl. by rewrite Hv. }
    apply wp_bind, wp_io. simpl. apply (wp_mkdir_all Hok).
    set (fs1 := match dir_of q (tick w.1) with Some _ => _ | None => _ end).
    assert (is_Some (dir_of q fs1) ∧ fs_calls fs1 = S (S (fs_calls w.1)) ∧
      ∀ q' n, entry_of q' n fs1 = entry_of q' n w.1) as (Hd1 & Hc1 & He1).
    { unfold fs1. change (dir_of q (tick w.1)) with (dir_of q w.1). destruct (dir_of q w.1) as [dir|] eqn:E.
      - split_and!; [by exists dir|done|done].
      - rewrite dir_set_dir. split_and!; [by eexists|done|]. intros q' n. rewrite entry_set_dir.
        case_bool_decide; [subst|done]. unfold entry_of. by rewrite E, lookup_empty. }
    clearbody fs1. do 3 (apply wp_bind, wp_io, (wp_syscall Hok)). apply wp_bind, wp_io, wp_now.
    apply wp_bind, wp_io, (wp_rename_into Hok); [done|]. intros fs2 Hc2 He2 Hd2. simpl in Hc2.
    apply wp_bind, wp_try, wp_io, (wp_stat Hok). simpl.
    rewrite (He2 q queueIndexFileName), bool_decide_true by done. simpl.
    apply wp_set_indices, HQ.
    + split_and!; simpl; [lia|lia| | |done].
      * intros q' n Hn. change (entry_of q' n (tick fs2)) with (entry_of q' n fs2). rewrite He2.
        rewrite bool_decide_false by done. apply He1.
      * intros q' Hq. by rewrite lookup_insert_ne.
    + split; simpl.
      * eapply rep2_keep; [exact Hr|simpl; lia|]. intros n Hn.
        change (entry_of q n (tick fs2)) with (entry_of q n fs2). rewrite He2, bool_decide_false; [apply He1|].
        by intros [_ ->].
      * change (entry_of q queueIndexFileName (tick fs2)) with (entry_of q queueIndexFileName fs2).
        rewrite He2, bool_decide_true by done. by intros i [= <-] _.
      * intros c. rewrite lookup_insert_eq. by intros [= <-].
Qed.

(** ** Rebuilding *)
Definition is_file {C} (dir : gmap string (Entry C)) (n : string) : bool :=
  match dir !! n with Some (File _ _) => true | _ => false end.

Lemma rebuilt_names q p fs l dir (is_item : string → bool) :
  is_priority p → rep q p fs l → dir_of q fs = Some dir →
  (∀ n, is_item n = true ↔ HasPrefix n (itemPrefix ++ p) = true ∧ HasSuffix n jsonSuffix = true) →
  SortStrings (filter (λ n, is_item n = true) (filter (λ n, is_file dir n = true) (map_to_list dir).*1)) =
  it_FileName <$> l.
Proof.
  intros Hp Hr Hd Hitem. eapply sort_names; [exact Hr|do 2 apply NoDup_filter; apply NoDup_fst_map_to_list|].
  intros n. rewrite !list_elem_of_filter, Hitem. split.
  - intros ([Hn _] & Hf & _). apply (rep_names _ _ _ _ Hr n Hn). unfold entry_of. rewrite Hd. simpl.
    unfold is_file in Hf. destruct (dir !! n); [by eexists|done].
  - intros (d & -> & Hd')%list_elem_of_fmap. pose proof (rep_item _ _ _ _ _ Hr Hd') as Hi.
    destruct (ia_file _ _ _ _ Hi) as [m Hm]. unfold entry_of in Hm. rewrite Hd in Hm. simpl in Hm.
    split_and!; [by eapply item_prefix| |by unfold is_file; rewrite Hm|].
    + rewrite (ia_name _ _ _ _ Hi), queueFileName_stem. apply has_suffix_app.
    + apply list_elem_of_fmap. exists (it_FileName d, File (CItem d) m). split; [done|]. by apply elem_of_map_to_list.
Qed.

Lemma wp_rebuild q w h l hi li Q :
  stored_ix q w h l hi li → is_Some (dir_of q w.1) →
  (∀ idx w', idx_only q 10 w w' → lists_of idx h l → stored q w' h l → Q (inr idx) w') →
  wp (rebuildQueueIndexLocked q) w Q.
Proof using Hok.
  intros [Hr Hix _] [dir Hd] HQ. unfold rebuildQueueIndexLocked. apply wp_bind, wp_io, wp_now.
  apply wp_bind, wp_try, wp_io. simpl. unfold read_dir_files. apply wp_bind, (wp_syscall Hok), wp_bind, wp_gets.
  change (dir_of q (tick (tick w.1))) with (dir_of q w.1). rewrite Hd. apply wp_ret.
  set (idx := mkIndex _ _ _ _).
  assert (lists_of idx h l) as Hl.
  { unfold idx, lists_of. simpl. split_and!; [| |done].
    - eapply rebuilt_names; [apply high_priority|apply Hr|done|]. intros n. unfold isHighQueueFileName.
      by rewrite andb_true_iff.
    - eapply rebuilt_names; [apply low_priority|apply Hr|done|]. intros n. unfold isLowQueueFileName.
      by rewrite andb_true_iff. }
  apply wp_bind. eapply (wp_save q (tick (tick w.1), w.2) h l); [| done| |].
  - eapply rep2_keep; [exact Hr|simpl; lia|done].
  - simpl. change (entry_of q queueIndexFileName (tick (tick w.1))) with (entry_of q queueIndexFileName w.1).
    destruct (entry_of _ _ _) as [[]|]; [done..|done].
  - intros w' Hw' Hst. apply wp_ret, HQ; [|done|done].
    eapply (idx_only_trans q 2 8); [|exact Hw'|lia]. destruct w as [fs st]. split_and!; simpl; try done; lia.
Qed.

(** ** Loading *)
Lemma wp_load q w h l hi li Q :
  stored_ix q w h l hi li →
  (∀ idx hi' li' w', idx_only q 14 w w' → lists_of idx hi' li' →
     hi' = hi ∧ li' = li ∨ hi' = h ∧ li' = l → stored_ix q w' h l hi' li' → Q (inr idx) w') →
  wp (loadOrRebuildQueueIndexLocked q) w Q.
Proof using Hok.
  intros Hst HQ. destruct w as [fs st]. unfold loadOrRebuildQueueIndexLocked.
  apply wp_bind, wp_try, wp_io, (wp_stat_dir Hok). simpl. destruct (dir_of q fs) as [dir|] eqn:Hd.
  2:{ apply wp_bind, wp_set_indices, wp_bind, wp_io, wp_now, wp_ret. simpl.
      destruct Hst as [[Hh Hl] _ _]. simpl in Hh, Hl.
      assert (h = []) as -> by (by eapply rep_missing). assert (l = []) as -> by (by eapply rep_missing).
      apply (HQ _ [] []).
      - split_and!; simpl; [lia|lia|done| |done]. intros q' Hq. by rewrite lookup_delete_ne.
      - done.
      - by right.
      - split; simpl.
        + eapply rep2_keep; [by split|simpl; lia|done].
        + unfold entry_of. change (dir_of q (tick (tick fs))) with (dir_of q fs). by rewrite Hd.
        + intros c. by rewrite lookup_delete_eq. }
  apply wp_bind, wp_try, wp_io, (wp_stat Hok). simpl.
  change (entry_of q queueIndexFileName (tick fs)) with (entry_of q queueIndexFileName fs).
  apply wp_bind, wp_gets. simpl.
  assert (∀ k, k = 1%nat ∨ k = 2%nat ∨ k = 3%nat → ∀ fs' , fs_dirs fs' = fs_dirs fs → fs_calls fs' = (k + fs_calls fs)%nat →
    idx_only q k (fs, st) (fs', st) ∧ stored_ix q (fs', st) h l hi li) as Htick.
  { intros k Hk fs' Hdirs Hc. assert (∀ q' n, entry_of q' n fs' = entry_of q' n fs) as He.
    { intros q' n. unfold entry_of, dir_of. by rewrite Hdirs. }
    split; [split_and!; simpl; [lia|lia|by intros|done|done]|]. destruct Hst as [Hr Hix Hca]. split; simpl in *.
    - eapply rep2_keep; [exact Hr|lia|by intros].
    - by rewrite He.
    - done. }
  assert (∀ fs', fs_dirs fs' = fs_dirs fs → fs_calls fs' = (3 + fs_calls fs)%nat →
    wp (rebuildQueueIndexLocked q) (fs', st) Q) as Hrebuild.
  { intros fs' Hdirs Hc. destruct (Htick 3%nat ltac:(auto) fs' Hdirs Hc) as [Hio Hst'].
    eapply wp_rebuild; [exact Hst'|simpl; unfold dir_of in *; rewrite Hdirs, Hd; by eexists|].
    intros idx w' Hw' Hl' Hs'. apply (HQ idx h l); [|done|by right|done].
    eapply idx_only_trans; [exact Hio|exact Hw'|lia]. }
  assert (∀ e, entry_of q queueIndexFileName fs = Some e → ∃ c m, e = File c m) as Hfile.
  { intros e He. destruct Hst as [_ Hix _]. simpl in Hix. rewrite He in Hix. destruct e; [eauto|done..]. }
  destruct (entry_of q queueIndexFileName fs) as [e|] eqn:He.
  2:{ apply wp_bind, wp_try, wp_io, (wp_read_file Hok). simpl.
      change (entry_of q queueIndexFileName (tick (tick fs))) with (entry_of q queueIndexFileName fs).
      rewrite He. by apply Hrebuild. }
  destruct (Hfile e eq_refl) as (c & m & ->). simpl.
  match goal with |- wp (match ?hit with Some _ => _ | None => _ end) _ _ => destruct hit as [idx|] eqn:Hhit end.
  - apply wp_ret. destruct (st_indices st !! q) as [ca|] eqn:Hca; [|done].
    destruct (c_modTime ca =? m)%Z; [|done]. injection Hhit as <-.
    destruct (Htick 2%nat ltac:(auto) (tick (tick fs)) eq_refl eq_refl) as [Hio Hst']. apply (HQ _ hi li).
    + eapply idx_only_trans; [exact Hio|apply idx_only_refl|lia].
    + by apply Hst.
    + by left.
    + done.
  - apply wp_bind, wp_try, wp_io, (wp_read_file Hok). simpl.
    change (entry_of q queueIndexFileName (tick (tick fs))) with (entry_of q queueIndexFileName fs). rewrite He.
    assert (wp (rebuildQueueIndexLocked q) (tick (tick (tick fs)), st) Q) as Hre by by apply Hrebuild.
    destruct c as [d|i|b]; [exact Hre| |exact Hre].
    cbn [unmarshalIndex]. destruct (idx_Version i =? queueIndexVersion)%Z eqn:Hv; [|exact Hre]. breflect.
    apply wp_bind, wp_io, wp_now, wp_bind, wp_set_indices, wp_ret. simpl.
    assert (lists_of i hi li) as Hl. { destruct Hst as [_ Hix _]. simpl in Hix. rewrite He in Hix. by apply Hix. }
    assert (∀ t, lists_of (ensureDefaults t i) hi li) as Hl'.
    { intros t. destruct Hl as (Hh1 & Hl1 & _). unfold lists_of, ensureDefaults. simpl. by rewrite Hv. }
    destruct (Htick 3%nat ltac:(auto) (tick (tick (tick fs))) eq_refl eq_refl) as [Hio Hst'].
    apply (HQ _ hi li); [|apply Hl'|by left|].
    + split_and!; simpl; [lia|lia|done| |done]. intros q' Hq. by rewrite lookup_insert_ne.
    + destruct Hst' as [Hr' Hix' _]. split; simpl in *.
      * eapply rep2_keep; [exact Hr'|simpl; lia|done].
      * exact Hix'.
      * intros ca. rewrite lookup_insert_eq. intros [= <-]. apply Hl'.
Qed.

(** ** Dropping identifiers *)
Definition without (ids : list string) l : list ItemData := filter (λ d, item_id d ∉ ids) l.

Lemma removeQueueFileNameByID_names l id :
  NoDup (item_id <$> l) →
  (removeQueueFileNameByID (it_FileName <$> l) id).1 = it_FileName <$> without [id] l.
Proof.
  induction l as [|d l IH]; [done|]. rewrite !fmap_cons. intros [Hn Hnd]%NoDup_cons. simpl.
  change (queueItemIDFromFileName (it_FileName d)) with (item_id d). unfold without in *. rewrite filter_cons.
  case_bool_decide as E.
  - rewrite decide_False by (rewrite list_elem_of_singleton; tauto). simpl. rewrite filter_all; [done|].
    intros x Hx. rewrite list_elem_of_singleton. intros Ex. apply Hn. rewrite E, <-Ex. by apply list_elem_of_fmap_2.
  - rewrite decide_True by (by rewrite list_elem_of_singleton). specialize (IH Hnd).
    destruct (removeQueueFileNameByID _ id) as [rest b]. simpl in *. by rewrite IH.
Qed.

Lemma removeItemID_lists t idx h l id :
  lists_of idx h l → NoDup (item_id <$> h) → NoDup (item_id <$> l) → (id = "" → id ∉ item_id <$> h ++ l) →
  lists_of (removeItemID t id idx).1 (without [id] h) (without [id] l).
Proof.
  intros (Hh & Hl & Hv) Nh Nl Hne. unfold removeItemID. case_bool_decide as E.
  - specialize (Hne E). rewrite fmap_app, not_elem_of_app in Hne. destruct Hne as [N1 N2].
    assert (∀ k, id ∉ item_id <$> k → without [id] k = k) as Hw.
    { intros k Hk. apply filter_all. intros x Hx. rewrite list_elem_of_singleton. intros Ex. apply Hk.
      rewrite <-Ex. by apply list_elem_of_fmap_2. }
    unfold lists_of. simpl. by rewrite !Hw.
  - pose proof (removeQueueFileNameByID_names h id Nh) as Rh. pose proof (removeQueueFileNameByID_names l id Nl) as Rl.
    rewrite Hh, Hl. destruct (removeQueueFileNameByID (it_FileName <$> h) id) as [h' r1].
    destruct (removeQueueFileNameByID (it_FileName <$> l) id) as [l' r2]. simpl in *. subst.
    by destruct (r1 || r2).
Qed.

Lemma without_without ids1 ids2 l : without ids2 (without ids1 l) = without (ids1 ++ ids2) l.
Proof.
  unfold without. rewrite list_filter_filter. apply list_filter_iff. intros d. rewrite not_elem_of_app. tauto.
Qed.

Lemma without_nodup ids l : NoDup (item_id <$> l) → NoDup (item_id <$> without ids l).
Proof.
  unfold without. induction l as [|d l IH]; [done|]. rewrite fmap_cons. intros [Hn Hnd]%NoDup_cons.
  rewrite filter_cons. case_decide; [|by apply IH]. rewrite fmap_cons. apply NoDup_cons. split; [|by apply IH].
  intros (d' & E & [_ Hd']%list_elem_of_filter)%list_elem_of_fmap. apply Hn. rewrite E. by apply list_elem_of_fmap_2.
Qed.

Lemma wp_drop_id w h l idx id Q :
  lists_of idx h l → NoDup (item_id <$> h) → NoDup (item_id <$> l) → (id = "" → id ∉ item_id <$> h ++ l) →
  (∀ idx', lists_of idx' (without [id] h) (without [id] l) → Q (inr idx') (tick w.1, w.2)) →
  wp (drop_id idx id) w Q.
Proof.
  intros Hl Nh Nl Hne HQ. unfold drop_id. apply wp_bind, wp_io, wp_now, wp_ret, HQ. by apply removeItemID_lists.
Qed.

Lemma wp_drop_ids {X} (g : X → string) (xs : list X) : ∀ w h l idx Q,
  lists_of idx h l → NoDup (item_id <$> h) → NoDup (item_id <$> l) → "" ∉ item_id <$> h ++ l →
  (∀ idx' fs', fs_dirs fs' = fs_dirs w.1 → (fs_calls w.1 <= fs_calls fs')%nat →
     lists_of idx' (without (g <$> xs) h) (without (g <$> xs) l) → Q (inr idx') (fs', w.2)) →
  wp (each (λ idx x, drop_id idx (g x)) idx xs) w Q.
Proof.
  induction xs as [|x xs IH]; intros w h l idx Q Hl Nh Nl Hne HQ; simpl.
  - apply wp_ret. destruct w as [fs st]. apply HQ; [done|done|]. unfold without.
    by rewrite !filter_all by (intros; apply not_elem_of_nil).
  - apply wp_bind. eapply wp_drop_id; [done..|by intros ->|]. intros idx' Hl'.
    eapply IH; [exact Hl'|by apply without_nodup..| |].
    { intros Hin. apply Hne. rewrite fmap_app in Hin |- *.
      apply elem_of_app in Hin as [(d & -> & [_ Hd]%list_elem_of_filter)%list_elem_of_fmap|
        (d & -> & [_ Hd]%list_elem_of_filter)%list_elem_of_fmap]; apply elem_of_app; [left|right]; by apply list_elem_of_fmap_2. }
    intros idx2 fs' Hd Hc Hl2. rewrite !without_without in Hl2. simpl in *. apply HQ; [done|lia|done].
Qed.

(** ** The index after a removal

    [hi] and [li] are the items before the removal of [ids]. *)
Lemma wp_refresh q w h l hi li ids (update : queueReadIndex → Op World queueReadIndex) Q :
  stored_ix q w h l hi li →
  h = without ids hi → l = without ids li →
  (∀ idx h0 l0 w1, (h0 = hi ∧ l0 = li ∨ h0 = h ∧ l0 = l) → lists_of idx h0 l0 →
     wp (update idx) w1 (λ r w2, ∃ idx', r = inr idx' ∧ lists_of idx' (without ids h0) (without ids l0) ∧
       fs_dirs w2.1 = fs_dirs w1.1 ∧ (fs_calls w1.1 <= fs_calls w2.1)%nat ∧ w2.2 = w1.2)) →
  (∀ w', (∃ k, idx_only q k w w') → stored q w' h l → Q (inr tt) w') →
  wp (refreshIndex q update) w Q.
Proof using Hok.
  intros Hst Hh Hl Hup HQ. unfold refreshIndex. apply wp_bind, wp_try. eapply wp_load; [exact Hst|].
  intros idx h0 l0 w1 Hio1 Hlists Hor Hst1. apply wp_bind. eapply wp_mono; [eapply Hup; [exact Hor|exact Hlists]|].
  intros r w2 (idx' & -> & Hl' & Hd2 & Hc2 & Hs2). simpl.
  assert (without ids h0 = h ∧ without ids l0 = l) as [Eh El].
  { destruct Hor as [[-> ->]|[-> ->]]; [by split|]. rewrite Hh, Hl, !without_without. split; unfold without;
      apply list_filter_iff; intros d; rewrite not_elem_of_app; tauto. }
  rewrite Eh, El in Hl'.
  assert (∀ q' n, entry_of q' n w2.1 = entry_of q' n w1.1) as He2.
  { intros q' n. unfold entry_of, dir_of. by rewrite Hd2. }
  unfold saveOrInvalidate. apply wp_bind, wp_try. eapply (wp_save q w2 h l); [|exact Hl'| |].
  - eapply rep2_keep; [apply Hst1|done|by intros].
  - rewrite He2. pose proof (sd_index _ _ _ _ _ _ Hst1) as Hix. by destruct (entry_of _ _ w1.1) as [[]|].
  - intros w3 Hio3 Hst3. apply wp_ret, HQ; [|done]. destruct Hio1 as (C1 & E1 & I1 & Q1), Hio3 as (C3 & E3 & I3 & Q3).
    exists (fs_calls w3.1). split_and!; [lia|lia| | |congruence].
    + intros q' n Hn. by rewrite E3, He2, E1.
    + intros q' Hq. by rewrite I3, Hs2, I1.
Qed.
End IndexLaws.
