(* ===== verification/QueueRefine.v ===== *)
(** * The queue store implements a priority queue

    The abstract queue is a pair of lists, the high and the low priority items,
    oldest first ([spec_step]).  Every operation of the store, run by one process
    whose system calls succeed and whose clock advances, takes a store that
    represents an abstract queue to one that represents the queue the
    specification says, with the result the specification says, and leaves the
    other queues alone. *)

From stdpp Require Import base strings list gmap sorting.
From Stdlib Require Import ZArith Lia Ascii.
From S2P Require Import Prelude GoStrings GoDate FileSys DirLock DirLockLaws RunStatus QueueName QueueFile QueueStore QueueRep QueueIndexLaws.

(** ** The specification *)
Inductive qop :=
  | QEnqueue (p : QueuePriority) (r : DAGRunRef)
  | QDequeue
  | QDequeueRun (r : DAGRunRef)
  | QDelete (ids : list string)
  | QLen
  | QList.

Inductive qres := RUnit | RItems (l : list QueuedItemData) | RCount (z : Z).

Definition AQueue : Type := list ItemData * list ItemData.

(** The operation, the queue before, the result and the queue after. *)
Inductive spec_step (q : string) : qop → AQueue → Err + qres → AQueue → Prop :=
  | spec_high r h l d : it_DAGRun d = r → (∀ d', d' ∈ h ++ l → earlier d' d) →
      spec_step q (QEnqueue QueuePriorityHigh r) (h, l) (inr RUnit) (h ++ [d], l)
  | spec_low r h l d : it_DAGRun d = r → (∀ d', d' ∈ h ++ l → earlier d' d) →
      spec_step q (QEnqueue QueuePriorityLow r) (h, l) (inr RUnit) (h, l ++ [d])
  | spec_priority p r h l : p ≠ QueuePriorityHigh → p ≠ QueuePriorityLow →
      spec_step q (QEnqueue p r) (h, l) (inl ErrInvalidPriority) (h, l)
  | spec_dequeue_high d h l : spec_step q QDequeue (d :: h, l) (inr (RItems [job_of d])) (h, l)
  | spec_dequeue_low d l : spec_step q QDequeue ([], d :: l) (inr (RItems [job_of d])) ([], l)
  | spec_dequeue_empty : spec_step q QDequeue ([], []) (inl ErrQueueEmpty) ([], [])
  | spec_run r h l : filter (of_run r) (h ++ l) ≠ [] →
      spec_step q (QDequeueRun r) (h, l) (inr (RItems (job_of <$> filter (of_run r) (h ++ l))))
        (filter (λ d, ¬ of_run r d) h, filter (λ d, ¬ of_run r d) l)
  | spec_run_none r h l : filter (of_run r) (h ++ l) = [] →
      spec_step q (QDequeueRun r) (h, l) (inl ErrQueueItemNotFound) (h, l)
  | spec_delete ids h l :
      spec_step q (QDelete ids) (h, l)
        (inr (RCount (Z.of_nat (length (filter (λ d, item_id d ∈ ids) (h ++ l))))))
        (without ids h, without ids l)
  | spec_len h l : spec_step q QLen (h, l) (inr (RCount (Z.of_nat (length (h ++ l))))) (h, l)
  | spec_list h l :
      spec_step q QList (h, l)
        (inr (RItems ((λ d, IFile (NewQueuedFile q (it_FileName d))) <$> (h ++ l)))) (h, l).

Section Refine.
Context `{OS} (ticks : nat) (N : nat).

Abbreviation World := (FS Content * Store)%type.
Implicit Types (w : World) (h l : list ItemData).

Definition run_qop (q : string) (o : qop) : Op World qres :=
  (match o with
   | QEnqueue p r => Enqueue q p r ;* ret RUnit
   | QDequeue => let* i := DequeueByName ticks q in ret (RItems [i])
   | QDequeueRun r => let* items := DequeueByDAGRunID ticks q r in ret (RItems items)
   | QDelete ids => let* z := DeleteByItemIDs ticks q ids in ret (RCount z)
   | QLen => let* z := Len q in ret (RCount z)
   | QList => let* items := QueueStore.List q in ret (RItems items)
   end)%op.

(** The operations the specification covers: runs with an identifier that can be
    part of a file name, and item identifiers of the form the store gives out. *)
Definition qop_ok (o : qop) : Prop :=
  match o with
  | QEnqueue _ r => id_ok (ref_ID r)
  | QDelete ids => Forall item_id_ok ids
  | _ => True
  end.

(** ** The invariant of a queue between two operations *)
Definition unlocked (q : string) w : Prop :=
  lock_of q w.1 = None ∧
  ∀ lk, st_queues w.2 !! q = Some lk → dl_isHeld lk = false ∧ dl_targetDir lk = q.

Definition queue_inv (q : string) w (a : AQueue) : Prop := stored q w a.1 a.2 ∧ unlocked q w.

(** The other queues are as they were. *)
Definition others (q : string) w w' : Prop :=
  (fs_calls w.1 <= fs_calls w'.1)%nat ∧
  ∀ q', q' ≠ q → (∀ n, entry_of q' n w'.1 = entry_of q' n w.1) ∧
    st_indices w'.2 !! q' = st_indices w.2 !! q' ∧ st_queues w'.2 !! q' = st_queues w.2 !! q'.

Lemma others_inv q q' w w' a : others q w w' → q' ≠ q → queue_inv q' w a → queue_inv q' w' a.
Proof.
  intros [Hc Ho] Hq [[Hr Hix Hca] [Hlk Hqs]]. destruct (Ho q' Hq) as (He & Hi & Hq'). split.
  - split; [eapply rep2_keep; [exact Hr|done|by intros]|by rewrite He|intros c; rewrite Hi; apply Hca].
  - split; [unfold lock_of; by rewrite He|]. intros lk. rewrite Hq'. apply Hqs.
Qed.

#[local] Instance others_preorder q : PreOrder (others q).
Proof.
  split; [by intros w|]. intros a b c [C1 H1] [C2 H2]. split; [lia|]. intros q' Hq.
  destruct (H1 q' Hq) as (E1 & I1 & Q1), (H2 q' Hq) as (E2 & I2 & Q2). split_and!; [|congruence..].
  intros n. by rewrite E2.
Qed.

(** What the body of a locked operation keeps. *)
Definition kept (q : string) w w' : Prop :=
  others q w w' ∧ entry_of q lockName w'.1 = entry_of q lockName w.1 ∧ st_queues w'.2 = st_queues w.2.

Lemma kept_trans q w1 w2 w3 : kept q w1 w2 → kept q w2 w3 → kept q w1 w3.
Proof. intros (O1 & E1 & Q1) (O2 & E2 & Q2). split_and!; [by etrans|congruence|congruence]. Qed.

Lemma idx_only_kept q k w w' : idx_only q k w w' → kept q w w'.
Proof.
  intros (C & E & I & Q). split_and!; [split; [lia|]|apply E; by intros [_ ?]|done].
  intros q' Hq. split_and!; [|by apply I|by rewrite Q]. intros n. apply E. by intros [-> _].
Qed.

(** Only the lock of [q] changed. *)
Definition lock_only (q : string) w w' : Prop :=
  (fs_calls w.1 <= fs_calls w'.1)%nat ∧
  (∀ q' n, n ≠ lockName ∨ q' ≠ q → entry_of q' n w'.1 = entry_of q' n w.1) ∧
  st_indices w'.2 = st_indices w.2 ∧ ∀ q', q' ≠ q → st_queues w'.2 !! q' = st_queues w.2 !! q'.

Lemma lock_only_stored q w w' h l : lock_only q w w' → stored q w h l → stored q w' h l.
Proof.
  intros (C & E & I & _) [Hr Hix Hca]. split.
  - eapply rep2_keep; [exact Hr|done|]. intros n Hn. apply E. left. by intros ->.
  - rewrite E by (by left). exact Hix.
  - rewrite I. exact Hca.
Qed.

Lemma lock_only_others q w w' : lock_only q w w' → others q w w'.
Proof.
  intros (C & E & I & Q). split; [done|]. intros q' Hq. split_and!; [|by rewrite I|by apply Q].
  intros n. apply E. by right.
Qed.

Context (Hok : ∀ n, SysOk n = true).

(** ** Taking and releasing the lock *)
Lemma wp_on_lock_Lock q w lk Q :
  st_queues w.2 !! q = Some lk → dl_isHeld lk = false → dl_targetDir lk = q → lock_of q w.1 = None →
  (∀ w1 lk1, lock_only q w w1 → st_queues w1.2 !! q = Some lk1 → owns w1.1 lk1 → dl_targetDir lk1 = q → Q (inr tt) w1) →
  wp (on_lock q (Lock ticks)) w Q.
Proof using Hok.
  intros Hq Hh Ht Hfree HQ. unfold on_lock. apply wp_zoom. rewrite Hq. simpl.
  assert (lock_free w.1 lk = true) as Hf by (unfold lock_free; by rewrite Ht, Hfree).
  destruct (TryLock_free Hok w.1 lk Hh Hf) as (n & m & fs1 & _ & Hr & Hl).
  assert (Lock ticks (w.1, lk) = TryLock (w.1, lk)) as HL.
  { unfold Lock. rewrite Hr. erewrite bind_step by (by apply try_step). done. }
  pose proof (token_run OpTryLock _ _ _ Hr) as (_ & _ & Hc & _). pose proof (frame_TryLock _ _ _ Hr) as [_ He].
  unfold wp. rewrite HL, Hr. simpl in *. eapply HQ.
  - split_and!; simpl; [done| |done|].
    + intros q' n0 Hn. apply He. by rewrite Ht.
    + intros q' Hq'. by rewrite lookup_insert_ne.
  - simpl. by rewrite lookup_insert_eq.
  - split; simpl; [done|]. unfold owner_of. by rewrite Hl.
  - done.
Qed.

Lemma wp_on_lock_Unlock q w lk Q :
  st_queues w.2 !! q = Some lk → owns w.1 lk → dl_targetDir lk = q →
  (∀ w1, lock_only q w w1 → unlocked q w1 → Q (inr tt) w1) → wp (on_lock q Unlock) w Q.
Proof using Hok.
  intros Hq [Hh Ho] Ht HQ. unfold on_lock. apply wp_zoom. rewrite Hq. simpl. unfold owner_of in Ho.
  destruct (lock_of (dl_targetDir lk) w.1) as [[| |]|] eqn:E; try done. subst owner.
  destruct (Unlock_ok Hok w.1 lk mtime Hh E) as (fs' & Hr & Hl).
  pose proof (token_run OpUnlock _ _ _ Hr) as (_ & _ & Hc & _). pose proof (frame_Unlock _ _ _ Hr) as [_ He].
  unfold wp. rewrite Hr. simpl in *. eapply HQ.
  - split_and!; simpl; [done| |done|].
    + intros q' n Hn. apply He. by rewrite Ht.
    + intros q' Hq'. by rewrite lookup_insert_ne.
  - split; simpl; [by rewrite <-Ht|]. intros lk'. rewrite lookup_insert_eq. by intros [= <-].
Qed.

(** An operation under the lock. *)
Lemma wp_locked {A} q (body : Op World A) w a (P : Err + A → World → Prop) :
  queue_inv q w a → is_Some (st_queues w.2 !! q) →
  (∀ w1, stored q w1 a.1 a.2 → wp body w1 (λ r w2, kept q w1 w2 ∧ P r w2)) →
  (∀ r w2 w3, P r w2 → lock_only q w2 w3 → P r w3) →
  wp (locked ticks q body) w (λ r w', P r w' ∧ unlocked q w' ∧ others q w w').
Proof using Hok.
  intros [Hst [Hfree Hqs]] [lk Hlk] Hbody HP. destruct (Hqs lk Hlk) as [Hh Ht].
  unfold locked. apply wp_bind. eapply wp_on_lock_Lock; [done..|]. intros w1 lk1 Hl1 Hq1 Ho1 Ht1.
  apply wp_intro. intros r w3. destruct (body w1) as [r2 w2] eqn:Hb.
  destruct (wp_eq _ _ _ _ _ (Hbody w1 (lock_only_stored _ _ _ _ _ Hl1 Hst)) Hb) as [(Ho2 & He2 & Hq2) HP2].
  intros [= <- <-]. change ((ignore (on_lock q Unlock) w2).2) with (on_lock q Unlock w2).2.
  apply (wp_on_lock_Unlock q w2 lk1 (λ _ w3, P r2 w3 ∧ unlocked q w3 ∧ others q w w3)).
  - by rewrite Hq2.
  - destruct Ho1 as [Hh1 Ho1]. split; [done|]. unfold owner_of, lock_of in *. rewrite Ht1 in *. by rewrite He2.
  - done.
  - intros w3 Hl3 Hu3. split_and!; [by eapply HP|done|].
    etrans; [by apply lock_only_others|]. etrans; [exact Ho2|by apply lock_only_others].
Qed.

Lemma wp_ensureQueue q w a Q :
  queue_inv q w a →
  (∀ w1, queue_inv q w1 a → others q w w1 → is_Some (st_queues w1.2 !! q) → w1.1 = w.1 → Q (inr tt) w1) →
  wp (ensureQueue q) w Q.
Proof.
  intros [Hst [Hf Hqs]] HQ. unfold ensureQueue. apply wp_modify. destruct w as [fs st].
  destruct (st_queues st !! q) as [lk|] eqn:E.
  - apply HQ; [by split|done|by eexists|done].
  - apply HQ; simpl.
    + destruct Hst as [Hr Hix Hca]. split; [by split|]. split; [done|]. simpl. intros lk.
      rewrite lookup_insert_eq. by intros [= <-].
    + split; [done|]. intros q' Hq. simpl. rewrite lookup_insert_ne by done. done.
    + rewrite lookup_insert_eq. by eexists.
    + done.
Qed.

(** The part of a queue the lock does not protect is not touched by loading. *)
Lemma idx_only_inv q k w w' h l : idx_only q k w w' → stored q w' h l → unlocked q w → queue_inv q w' (h, l).
Proof.
  intros (C & E & I & Q) Hst [Hl Hq]. split; [done|]. split; [|by rewrite Q].
  unfold lock_of. rewrite E; [done|]. by intros [_ ?].
Qed.

Lemma wp_load_same q w h l Q :
  stored q w h l →
  (∀ idx w', idx_only q 14 w w' → lists_of idx h l → stored q w' h l → Q (inr idx) w') →
  wp (loadOrRebuildQueueIndexLocked q) w Q.
Proof using Hok.
  intros Hst HQ. eapply wp_load; [done|exact Hst|]. intros idx hi' li' w' Hio Hl Hor Hst'.
  assert (hi' = h ∧ li' = l) as [-> ->] by (destruct Hor as [[-> ->]|[-> ->]]; done). by apply HQ.
Qed.

Definition refines (q : string) (o : qop) w (a : AQueue) : Err + qres → World → Prop := λ r w',
  ∃ a', spec_step q o a r a' ∧ queue_inv q w' a' ∧ others q w w'.

(** ** Reading operations *)
Lemma refine_len q w a : queue_inv q w a → wp (run_qop q QLen) w (refines q QLen w a).
Proof using Hok.
  destruct a as [h l]. intros Hi. unfold run_qop, Len. apply wp_bind, wp_bind. eapply wp_ensureQueue; [exact Hi|].
  intros w1 [Hst1 Hu1] Ho1 _ _. apply wp_bind. eapply wp_load_same; [exact Hst1|].
  intros idx w2 Hio (Hh & Hl & _) Hst2. apply wp_ret, wp_ret. exists (h, l). split_and!.
  - unfold total. rewrite Hh, Hl, !length_fmap, <-length_app. constructor.
  - by eapply idx_only_inv.
  - etrans; [exact Ho1|]. by apply (idx_only_kept q 14).
Qed.

Lemma refine_list q w a : queue_inv q w a → wp (run_qop q QList) w (refines q QList w a).
Proof using Hok.
  destruct a as [h l]. intros Hi. unfold run_qop, QueueStore.List. apply wp_bind, wp_bind.
  eapply wp_ensureQueue; [exact Hi|]. intros w1 [Hst1 Hu1] Ho1 _ _. apply wp_bind. eapply wp_load_same; [exact Hst1|].
  intros idx w2 Hio (Hh & Hl & _) Hst2. apply wp_ret, wp_ret. exists (h, l). split_and!.
  - rewrite Hh, Hl, <-fmap_app. change (map ?f ?x) with (f <$> x). rewrite <-list_fmap_compose. constructor.
  - by eapply idx_only_inv.
  - etrans; [exact Ho1|]. by apply (idx_only_kept q 14).
Qed.

(** ** Removing operations *)
Lemma rep2_ids q fs h l :
  rep2 q fs h l → NoDup (item_id <$> h) ∧ NoDup (item_id <$> l) ∧ "" ∉ item_id <$> h ++ l.
Proof.
  intros Hr. pose proof (rep2_ids_nodup _ _ _ _ Hr) as Hn. rewrite fmap_app in Hn.
  apply NoDup_app in Hn as (Nh & _ & Nl). split_and!; [done|done|].
  intros (d & E & Hd)%list_elem_of_fmap. destruct Hr as [Hh Hl].
  assert (∀ p l0, is_priority p → rep q p fs l0 → d ∉ l0) as Hno.
  { intros p l0 Hp Hr Hin. pose proof (rep_item _ _ _ _ _ Hr Hin) as Hi.
    pose proof (item_prefix _ _ _ _ Hi) as Hpre. rewrite (proj1 (item_id_name _ _ _ _ Hp Hi)), <-E in Hpre.
    by destruct Hp as [-> | ->]. }
  apply elem_of_app in Hd as [Hd|Hd]; [by eapply (Hno highPrefix); [by left| |]|by eapply (Hno lowPrefix); [by right| |]].
Qed.

(** After files of items were removed, before the index is refreshed. *)
Lemma removed_stored q w h l fs' h' l' P `{∀ n, Decision (P n)} :
  stored q w h l → removed q P w.1 fs' → (∀ n, P n → HasPrefix n itemPrefix = true) → rep2 q fs' h' l' →
  stored_ix q (fs', w.2) h' l' h l ∧ kept q w (fs', w.2).
Proof.
  intros [Hr Hix Hca] [Hc He] HP Hr'.
  assert (∀ q' n, HasPrefix n itemPrefix = false ∨ q' ≠ q → entry_of q' n fs' = entry_of q' n w.1) as Hk.
  { intros q' n Hn. rewrite He, bool_decide_false; [done|]. intros [-> Hpn%HP]. destruct Hn as [Hn|Hn]; [congruence|done]. }
  split; [split; simpl; [done| |done]; by rewrite Hk by (by left)|].
  split_and!; [|by apply Hk; left|done]. split; [done|]. intros q' Hq. split_and!; [|done..]. intros n. apply Hk. by right.
Qed.

(** How the removing operations take identifiers out of the index. *)
Inductive drops (ids : list string) : (queueReadIndex → Op World queueReadIndex) → Prop :=
  | drops_one id : ids = [id] → drops ids (λ idx, drop_id idx id)
  | drops_each {X} (g : X → string) (xs : list X) :
      ids = g <$> xs → drops ids (λ idx, each (λ idx x, drop_id idx (g x)) idx xs).

Lemma wp_refresh_ids q w h l hi li ids (update : queueReadIndex → Op World queueReadIndex) Q :
  stored_ix q w h l hi li → (∃ fs, rep2 q fs hi li) → h = without ids hi → l = without ids li →
  drops ids update →
  (∀ w', kept q w w' → stored q w' h l → Q (inr tt) w') →
  wp (refreshIndex q update) w Q.
Proof using Hok.
  intros Hst [fs0 Hr0] Hh Hl Hup HQ. eapply (wp_refresh Hok q w h l hi li ids); [exact Hst|done|done| |].
  - intros idx h0 l0 w1 Hor Hlists.
    assert (NoDup (item_id <$> h0) ∧ NoDup (item_id <$> l0) ∧ "" ∉ item_id <$> h0 ++ l0) as (N1 & N2 & N3).
    { destruct Hor as [[-> ->]|[-> ->]]; eapply rep2_ids; [exact Hr0|apply Hst]. }
    destruct Hup as [id ->|X g xs ->].
    + eapply wp_drop_id; [done..|by intros ->|]. intros idx' Hl'. exists idx'. split_and!; simpl; try done. lia.
    + eapply wp_drop_ids; [done..|]. intros idx' fs' Hd Hc Hl'. by exists idx'.
  - intros w' [k Hio] Hst'. apply HQ; [by eapply idx_only_kept|done].
Qed.

(** The tail of a removal: the result, when the index is refreshed. *)
Lemma wp_after_removal {A} q w h l fs' h' l' ids P `{∀ n, Decision (P n)} update (k : A) Q :
  stored q w h l → removed q P w.1 fs' → (∀ n, P n → HasPrefix n itemPrefix = true) → rep2 q fs' h' l' →
  h' = without ids h → l' = without ids l →
  drops ids update →
  (∀ w', kept q w w' → stored q w' h' l' → Q (inr k) w') →
  wp (refreshIndex q update ;* ret k)%op (fs', w.2) Q.
Proof using Hok.
  intros Hst Hrm HP Hr' Hh Hl Hup HQ. destruct (removed_stored q w h l fs' h' l' P Hst Hrm HP Hr') as [Hst' Hk].
  apply wp_bind. eapply wp_refresh_ids; [exact Hst'|exists w.1; apply Hst|done|done|done|].
  intros w' Hk' Hst2. apply wp_ret, HQ; [by eapply kept_trans|done].
Qed.

Lemma item_prefix_name q p fs d : item_at q p fs d → HasPrefix (it_FileName d) itemPrefix = true.
Proof.
  intros Hi. apply item_prefix in Hi. apply bool_decide_eq_true in Hi as [s Hs]. apply strip_prefix_Some in Hs as ->.
  apply bool_decide_eq_true. rewrite <-app_assoc_string, strip_prefix_app. by eexists.
Qed.

Lemma without_one d l : d ∉ l → NoDup (item_id <$> d :: l) → without [item_id d] (d :: l) = l.
Proof.
  intros _ [Hn _]%NoDup_cons. unfold without. rewrite filter_cons, decide_False by (rewrite list_elem_of_singleton; tauto).
  apply filter_all. intros x Hx. rewrite list_elem_of_singleton. intros E. apply Hn. rewrite <-E.
  by apply list_elem_of_fmap_2.
Qed.

Lemma without_absent ids l : (∀ x, x ∈ ids → x ∉ item_id <$> l) → without ids l = l.
Proof.
  intros Hx. apply filter_all. intros d Hd Hin. apply (Hx _ Hin). by apply list_elem_of_fmap_2.
Qed.

(** The oldest item of the highest priority, and the queue without it. *)
Lemma pop_queue q fs fs' d h l h' l' :
  rep2 q fs h l → (h = d :: h' ∧ l = l' ∨ h = [] ∧ h' = [] ∧ l = d :: l') →
  removed q (λ n, n = it_FileName d) fs fs' →
  rep2 q fs' h' l' ∧ h' = without [item_id d] h ∧ l' = without [item_id d] l ∧
  HasPrefix (it_FileName d) itemPrefix = true.
Proof.
  intros Hr Hor Hrm. pose proof (rep2_ids_nodup _ _ _ _ Hr) as Hn. destruct Hr as [Hh Hl].
  destruct Hor as [[-> <-]|(-> & -> & ->)].
  - pose proof (rep_item _ _ _ _ d Hh ltac:(by left)) as Hi. rewrite fmap_app in Hn.
    apply NoDup_app in Hn as (Nh & Hdisj & Nl). split_and!.
    + split; [by eapply rep_pop|]. eapply rep_other; [exact Hl|exact Hrm|]. intros _ n Hpre ->.
      by eapply (other_priority q lowPrefix highPrefix); [by right|by left|done|exact Hh|by left|exact Hpre|].
    + symmetry. apply without_one; [|done]. apply NoDup_cons in Nh as [Nh _]. intros Hd. apply Nh.
      by apply list_elem_of_fmap_2.
    + symmetry. apply without_absent. intros x ->%list_elem_of_singleton. apply Hdisj. by left.
    + by eapply item_prefix_name.
  - pose proof (rep_item _ _ _ _ d Hl ltac:(by left)) as Hi. split_and!.
    + split; [|by eapply rep_pop]. eapply rep_other; [exact Hh|exact Hrm|]. intros _ n Hpre ->.
      by eapply (other_priority q highPrefix lowPrefix); [by left|by right|done|exact Hl|by left|exact Hpre|].
    + done.
    + symmetry. apply without_one; [|done]. apply NoDup_cons in Hn as [Hn _]. intros Hd. apply Hn.
      by apply list_elem_of_fmap_2.
    + by eapply item_prefix_name.
Qed.

(** What the body of a locked operation has to show. *)
Definition body_ok {A} (q : string) (o : qop) (a : AQueue) (f : A → qres) w : Err + A → World → Prop := λ r w',
  kept q w w' ∧
  ∃ a', spec_step q o a (match r with inl e => inl e | inr x => inr (f x) end) a' ∧ stored q w' a'.1 a'.2.

Lemma refine_locked {A} q o w a (body : Op World A) (f : A → qres) :
  queue_inv q w a → (∀ w2, stored q w2 a.1 a.2 → wp body w2 (body_ok q o a f w2)) →
  wp (let* x := (ensureQueue q ;* locked ticks q body) in ret (f x))%op w (refines q o w a).
Proof using Hok.
  intros Hi Hbody. apply wp_bind, wp_bind. eapply wp_ensureQueue; [exact Hi|]. intros w1 Hi1 Ho1 Hq1 _.
  eapply wp_mono.
  - apply (wp_locked q body w1 a (λ r w', ∃ a', spec_step q o a
      (match r with inl e => inl e | inr x => inr (f x) end) a' ∧ stored q w' a'.1 a'.2)); [done|done|done|].
    intros r w2 w3 (a' & Hs & Hst) Hl. exists a'. split; [done|]. by eapply lock_only_stored.
  - intros r w' ((a' & Hs & Hst) & Hu & Ho). destruct r as [e|x]; [|apply wp_ret];
      (exists a'; split_and!; [done|by split|by etrans]).
Qed.

(** The body when nothing was removed. *)
Lemma body_unchanged {A} q o h l (f : A → qres) w fs' r :
  stored q w h l → (fs_calls w.1 <= fs_calls fs')%nat → (∀ q' n, entry_of q' n fs' = entry_of q' n w.1) →
  spec_step q o (h, l) (match r with inl e => inl e | inr x => inr (f x) end) (h, l) →
  body_ok q o (h, l) f w r (fs', w.2).
Proof.
  intros [Hr Hix Hca] Hc He Hs. split.
  - split_and!; [|apply He|done]. split; [done|]. intros q' _. split_and!; [intros; apply He|done..].
  - exists (h, l). split; [done|]. split; simpl; [|by rewrite He|done]. eapply rep2_keep; [exact Hr|done|by intros].
Qed.

Lemma refine_dequeue q w a : queue_inv q w a → wp (run_qop q QDequeue) w (refines q QDequeue w a).
Proof using Hok.
  destruct a as [h l]. intros Hi. apply refine_locked; [done|]. simpl. intros w2 Hst.
  apply wp_bind, wp_try, wp_io. eapply (wp_DualQueue_Dequeue Hok); [apply Hst|].
  assert (∀ d h' l' fs', (h = d :: h' ∧ l = l' ∨ h = [] ∧ h' = [] ∧ l = d :: l') →
    removed q (λ n, n = it_FileName d) w2.1 fs' →
    wp (refreshIndex q (λ idx, drop_id idx (ItemID (job_of d))) ;* ret (job_of d))%op (fs', w2.2)
      (body_ok q QDequeue (h, l) (λ i, RItems [i]) w2)) as Hpop.
  { intros d h' l' fs' Hor Hrm.
    destruct (pop_queue q w2.1 fs' d h l h' l' (sd_rep _ _ _ _ _ _ Hst) Hor Hrm) as (Hr' & Eh & El & Hpre).
    eapply wp_after_removal; [exact Hst|exact Hrm|by intros n ->|exact Hr'|exact Eh|exact El| |].
    - by constructor.
    - intros w' Hk Hst'. split; [done|]. exists (h', l'). split; [|done].
      destruct Hor as [[-> <-]|(-> & -> & ->)]; constructor. }
  destruct h as [|d h]; [destruct l as [|d l]|]; simpl.
  - intros fs' Hc He. apply wp_fail, body_unchanged; [done..|constructor].
  - intros fs' Hrm. apply (Hpop d [] l); [by right|done].
  - intros fs' Hrm. apply (Hpop d h l); [by left|done].
Qed.

(** The items of a run, by identifier. *)
Lemma rep2_id_inj q fs h l d d' :
  rep2 q fs h l → d ∈ h ++ l → d' ∈ h ++ l → item_id d = item_id d' → d = d'.
Proof.
  intros Hr [i Hi]%list_elem_of_lookup [j Hj]%list_elem_of_lookup E. assert (i = j) as ->; [|congruence].
  eapply (NoDup_lookup _ _ _ (item_id d) (rep2_ids_nodup _ _ _ _ Hr)); rewrite list_lookup_fmap;
    [by rewrite Hi|by rewrite Hj, E].
Qed.

Lemma rep2_run q fs fs' h l r :
  rep2 q fs h l → removed q (λ n, n ∈ it_FileName <$> filter (of_run r) (h ++ l)) fs fs' →
  rep2 q fs' (filter (λ d, ¬ of_run r d) h) (filter (λ d, ¬ of_run r d) l) ∧
  filter (λ d, ¬ of_run r d) h = without (item_id <$> filter (of_run r) (h ++ l)) h ∧
  filter (λ d, ¬ of_run r d) l = without (item_id <$> filter (of_run r) (h ++ l)) l.
Proof.
  intros Hr Hrm.
  assert (∀ d, d ∈ h ++ l → item_id d ∈ item_id <$> filter (of_run r) (h ++ l) ↔ of_run r d) as Hid.
  { intros d Hd. rewrite list_elem_of_fmap. split.
    - intros (d' & E & [Hd' Hin]%list_elem_of_filter). by rewrite (rep2_id_inj q fs h l d d' Hr Hd Hin E).
    - intros HR. exists d. split; [done|]. by apply list_elem_of_filter. }
  assert (∀ d, d ∈ h ++ l → it_FileName d ∈ it_FileName <$> filter (of_run r) (h ++ l) ↔ of_run r d) as Hname.
  { intros d Hd. split.
    - intros (d' & E & Hd')%list_elem_of_fmap. apply (Hid d Hd). apply list_elem_of_fmap. exists d'. split; [|done].
      unfold item_id. by rewrite E.
    - intros HR. apply list_elem_of_fmap_2. by apply list_elem_of_filter. }
  split_and!.
  - destruct Hr as [Hh Hl]. split; (eapply rep_removed; [done|exact Hrm| |intros n; by apply rep_absent]);
      intros d Hd; apply Hname, elem_of_app; auto.
  - apply filter_iff_elem. intros d Hd. rewrite Hid; [done|]. apply elem_of_app; auto.
  - apply filter_iff_elem. intros d Hd. rewrite Hid; [done|]. apply elem_of_app; auto.
Qed.

Lemma rep2_prefix q fs h l d : rep2 q fs h l → d ∈ h ++ l → HasPrefix (it_FileName d) itemPrefix = true.
Proof.
  intros [Hh Hl] [Hd|Hd]%elem_of_app; eapply item_prefix_name, rep_item; [exact Hh|done|exact Hl|done].
Qed.

Lemma refine_run q w a r : queue_inv q w a → wp (run_qop q (QDequeueRun r)) w (refines q (QDequeueRun r) w a).
Proof using Hok.
  destruct a as [h l]. intros Hi. apply refine_locked; [done|]. simpl. intros w2 Hst.
  pose proof (sd_rep _ _ _ _ _ _ Hst) as Hr. apply wp_bind, wp_io.
  eapply (wp_DualQueue_DequeueByDAGRunID Hok); [exact Hr|]. intros fs' Hrm.
  destruct (rep2_run q w2.1 fs' h l r Hr Hrm) as (Hr' & Eh & El). case_bool_decide as E.
  - apply fmap_nil_inv in E. rewrite E in Hrm. destruct Hrm as [Hc He].
    apply wp_fail, body_unchanged; [done|done| |by constructor].
    intros q' n. rewrite He, bool_decide_false; [done|]. intros [_ Hn]. inversion Hn.
  - eapply wp_after_removal; [exact Hst|exact Hrm| |exact Hr'|exact Eh|exact El| |].
    + intros n (d & -> & [_ Hd]%list_elem_of_filter)%list_elem_of_fmap. eapply rep2_prefix; [exact Hr|exact Hd].
    + apply (drops_each _ ItemID). by rewrite <-list_fmap_compose.
    + intros w' Hk Hst'. split; [done|]. eexists (_, _). split; [|exact Hst']. constructor. intros E'. apply E. by rewrite E'.
Qed.

Lemma refine_delete q w a ids :
  queue_inv q w a → Forall item_id_ok ids → wp (run_qop q (QDelete ids)) w (refines q (QDelete ids) w a).
Proof using Hok.
  destruct a as [h l]. intros Hi Hids. apply refine_locked; [done|]. simpl. intros w2 Hst.
  pose proof (sd_rep _ _ _ _ _ _ Hst) as Hr. apply wp_bind, wp_io. unfold DualQueue_DeleteByItemIDs.
  apply wp_bind. eapply (wp_delete_loop Hok); [done|exact Hr|]. intros fs1 Hrm1 Hr1.
  apply wp_bind, wp_ignore, (wp_remove_dir Hok). intros _ fs2 Hc2 He2. apply wp_ret.
  assert (removed q (λ n, n ∈ file_of_id <$> ids) w2.1 fs2) as Hrm.
  { destruct Hrm1 as [Hc1 He1]. split; [lia|]. intros q' n. by rewrite He2. }
  eapply (wp_after_removal q w2 h l fs2 (without ids h) (without ids l) ids); [exact Hst|exact Hrm| | |done|done| |].
  - intros n (id & -> & Hid)%list_elem_of_fmap. rewrite Forall_forall in Hids. destruct (Hids id Hid) as [[Hp|Hp] _];
      apply (has_prefix_app _ jsonSuffix) in Hp; apply bool_decide_eq_true in Hp as [s Hs];
      apply strip_prefix_Some in Hs; unfold file_of_id; rewrite Hs; done.
  - eapply rep2_keep; [exact Hr1|lia|by intros].
  - apply (drops_each _ (λ x, x)). by rewrite list_fmap_id.
  - intros w' Hk Hst'. split; [done|]. eexists (_, _). split; [|exact Hst']. constructor.
Qed.

(** ** Enqueueing *)
Context (Hclock : ∀ n m, (n < m < N)%nat → (Now n < Now m)%Z) (Hinst : ∀ n, (n < N)%nat → instant_ok (Now n)).

Lemma rep_times q p fs l d d' k :
  rep q p fs l → d' ∈ l → (fs_calls fs <= k < N)%nat → it_QueuedAt d = Now k → earlier d' d.
Proof using Hclock.
  intros Hr Hd Hk Ht. destruct (ia_past _ _ _ _ (rep_item _ _ _ _ _ Hr Hd)) as (j & Hj & Ej).
  unfold earlier. rewrite Ej, Ht. apply Hclock. lia.
Qed.

(** The queue after a push. *)
Definition pushed (p : QueuePriority) (d : ItemData) (a : AQueue) : AQueue :=
  if (p =? QueuePriorityHigh)%Z then (a.1 ++ [d], a.2) else (a.1, a.2 ++ [d]).

Lemma prefix_cases p pf :
  prefix_of p = Some pf →
  is_priority pf ∧ (p = QueuePriorityHigh ∧ pf = highPrefix ∨ p = QueuePriorityLow ∧ pf = lowPrefix).
Proof.
  unfold prefix_of. intros Hp. repeat case_match; simplify_eq; breflect; split; [by left|by left|by right|by right].
Qed.

Lemma push_queue q fs fs' m p pf r h l :
  let k := fs_calls fs in let f := queueFileName pf (ref_ID r) (Now k) in let d := mkItemData f r (Now k) in
  rep2 q fs h l → prefix_of p = Some pf → id_ok (ref_ID r) → (k < fs_calls fs')%nat → (k < N)%nat →
  (∀ q' n, entry_of q' n fs' = if bool_decide (q' = q ∧ n = f) then Some (File (CItem d) m) else entry_of q' n fs) →
  rep2 q fs' (pushed p d (h, l)).1 (pushed p d (h, l)).2 ∧ spec_step q (QEnqueue p r) (h, l) (inr RUnit) (pushed p d (h, l)) ∧
  (∀ q' n, HasPrefix n itemPrefix = false ∨ q' ≠ q → entry_of q' n fs' = entry_of q' n fs).
Proof using Hclock Hinst.
  intros k f d [Hh Hl] [Hpp Hcase]%prefix_cases Hid Hk HN He.
  assert (∀ q' n, n ≠ f ∨ q' ≠ q → entry_of q' n fs' = entry_of q' n fs) as Hkeep.
  { intros q' n Hn. rewrite He, bool_decide_false; [done|]. intros [-> ->]. by destruct Hn. }
  assert (∀ p' l', is_priority p' → p' ≠ pf → rep q p' fs l' → rep q p' fs' l') as Hother.
  { intros p' l' Hp' Hne Hr. eapply rep_mono; [exact Hr|lia|]. intros n Hn. apply Hkeep. left. intros ->.
    apply Hne. eapply has_prefix_disjoint; [done|done|exact Hn|apply has_prefix_name]. }
  assert (∀ l', rep q pf fs l' → rep q pf fs' (l' ++ [d])) as Hself.
  { intros l' Hr. eapply (rep_push N Hclock Hinst q pf fs fs' l' d k m); try done.
    intros n. rewrite He. destruct (decide (n = f)) as [->|Hn]; [by rewrite !bool_decide_true|].
    by rewrite !bool_decide_false by (intros ?; tauto). }
  assert (∀ d', d' ∈ h ++ l → earlier d' d) as Hearlier.
  { intros d' [Hd|Hd]%elem_of_app; [eapply (rep_times q highPrefix fs h d d' k)|eapply (rep_times q lowPrefix fs l d d' k)];
      done. }
  split_and!.
  - destruct Hcase as [[-> ->]|[-> ->]]; unfold pushed; simpl; split; auto using high_priority, low_priority.
  - destruct Hcase as [[-> ->]|[-> ->]]; unfold pushed; simpl; by constructor.
  - intros q' n Hn. apply Hkeep. destruct Hn as [Hn|Hn]; [left|by right]. intros ->.
    pose proof (has_prefix_name pf (ref_ID r) (Now k)) as Hx. fold f in Hx.
    apply bool_decide_eq_true in Hx as [s Hs]. apply strip_prefix_Some in Hs. by rewrite Hs in Hn.
Qed.

Lemma index_append_lists t p pf idx h l d :
  prefix_of p = Some pf → lists_of idx h l →
  lists_of (index_append t p (it_FileName d) idx) (pushed p d (h, l)).1 (pushed p d (h, l)).2.
Proof.
  intros [_ Hcase]%prefix_cases (Hh & Hl & Hv). unfold index_append, touch, lists_of, pushed.
  destruct Hcase as [[-> ->]|[-> ->]]; simpl; rewrite Hh, Hl, ?fmap_app; done.
Qed.

Lemma refine_enqueue q w a p r :
  queue_inv q w a → id_ok (ref_ID r) → (fs_calls w.1 + 64 <= N)%nat →
  wp (run_qop q (QEnqueue p r)) w (refines q (QEnqueue p r) w a).
Proof using Hok Hclock Hinst.
  destruct a as [h l]. intros Hi Hid HN. unfold run_qop, Enqueue. apply wp_bind, wp_bind.
  eapply wp_ensureQueue; [exact Hi|]. intros w1 [Hst1 Hu1] Ho1 _ Ew1. apply wp_bind.
  eapply wp_load_same; [exact Hst1|]. intros idx w2 Hio2 Hl2 Hst2. apply wp_bind. unfold Enqueue_push, DualQueue_Enqueue.
  assert (others q w w2) as Ho2 by (etrans; [exact Ho1|by apply (idx_only_kept q 14)]).
  pose proof (idx_only_inv q 14 w1 w2 h l Hio2 Hst2 Hu1) as Hi2.
  assert (fs_calls w2.1 < N)%nat as Hc2 by (destruct Hio2 as [Hc2 _]; rewrite Ew1 in Hc2; lia).
  destruct (prefix_of p) as [pf|] eqn:Hpf.
  2:{ apply wp_bind, wp_io, wp_fail. exists (h, l). split_and!; [|by destruct w2|by destruct w2].
      unfold prefix_of in Hpf. repeat case_match; try done. breflect. by constructor. }
  apply wp_bind, wp_io, (wp_Push Hok). cbv zeta. intros fs3 m Hc3 He3.
  destruct (push_queue q w2.1 fs3 m p pf r h l (sd_rep _ _ _ _ _ _ Hst2) Hpf Hid Hc3 Hc2 He3) as (Hr3 & Hs3 & Hk3).
  set (d := mkItemData _ r _) in *. apply wp_bind, wp_io, wp_now, wp_ret. simpl.
  unfold saveOrInvalidate. apply wp_bind, wp_try.
  eapply (wp_save Hok q (tick fs3, w2.2) (pushed p d (h, l)).1 (pushed p d (h, l)).2).
  - eapply rep2_keep; [exact Hr3|simpl; lia|done].
  - by apply (index_append_lists _ p pf idx h l d).
  - cbn [fst]. change (entry_of q queueIndexFileName (tick fs3)) with (entry_of q queueIndexFileName fs3).
    rewrite Hk3 by (by left). pose proof (sd_index _ _ _ _ _ _ Hst2). by destruct (entry_of _ _ w2.1) as [[]|].
  - intros w4 Hio4 Hst4. apply wp_ret, wp_ret. exists (pushed p d (h, l)). split_and!; [done| |].
    + rewrite (surjective_pairing (pushed p d (h, l))). eapply idx_only_inv; [exact Hio4|done|].
      destruct Hi2 as [_ [Hlk Hqs]]. split; [|done]. unfold lock_of in *. simpl.
      change (entry_of q lockName (tick fs3)) with (entry_of q lockName fs3). by rewrite Hk3 by (by left).
    + etrans; [exact Ho2|]. etrans; [|apply (idx_only_kept q 8 (tick fs3, w2.2)); done].
      split; [simpl; lia|]. intros q' Hq. simpl. split_and!; [|done..]. intros n. apply Hk3. by right.
Qed.

(** ** Sequences of operations *)
Lemma refine_op q o w a :
  queue_inv q w a → qop_ok o → (fs_calls w.1 + 64 <= N)%nat → wp (run_qop q o) w (refines q o w a).
Proof using Hok Hclock Hinst.
  intros Hi Ho HN. destruct o as [p r| |r|ids| |].
  - by apply refine_enqueue.
  - by apply refine_dequeue.
  - by apply refine_run.
  - by apply refine_delete.
  - by apply refine_len.
  - by apply refine_list.
Qed.

Fixpoint run_trace (ops : list (string * qop)) w : list (Err + qres) * World :=
  match ops with
  | [] => ([], w)
  | (q, o) :: ops' =>
      let '(r, w1) := run_qop q o w in
      let '(rs, w2) := run_trace ops' w1 in (r :: rs, w2)
  end.

(** The abstract queues, by name. *)
Inductive spec_trace : list (string * qop) → (string → AQueue) → list (Err + qres) → (string → AQueue) → Prop :=
  | spec_nil A : spec_trace [] A [] A
  | spec_cons q o ops r rs A a A' :
      spec_step q o (A q) r a → spec_trace ops (λ q', if bool_decide (q' = q) then a else A q') rs A' →
      spec_trace ((q, o) :: ops) A (r :: rs) A'.

(** *** Calls only add up *)
Definition more_calls : relation World := λ w w', (fs_calls w.1 <= fs_calls w'.1)%nat.
#[local] Instance more_calls_preorder : PreOrder more_calls.
Proof. split; [by intros w; unfold more_calls|]. intros a b c. unfold more_calls. lia. Qed.
Definition more_fs : relation (FS Content) := λ fs fs', (fs_calls fs <= fs_calls fs')%nat.
#[local] Instance more_fs_preorder : PreOrder more_fs.
Proof. split; [by intros w; unfold more_fs|]. intros a b c. unfold more_fs. lia. Qed.

Lemma more_io {A} (m : Op (FS Content) A) : respects more_fs m → respects more_calls (io m).
Proof. apply respects_zoom. by intros [fs st] t. Qed.
Lemma more_syscall : respects more_fs (syscall (C := Content)).
Proof. intros fs r fs' [= <- <-]. unfold more_fs. simpl. lia. Qed.
Lemma more_now : respects more_fs (now (C := Content)).
Proof. intros fs r fs' [= <- <-]. unfold more_fs. simpl. lia. Qed.
Lemma more_modify f : (∀ fs, fs_calls (f fs) = fs_calls fs) → respects more_fs (modify f).
Proof. intros Hf. apply op_modify_respects. intros fs. unfold more_fs. by rewrite Hf. Qed.

Ltac more_walk :=
  repeat first
    [ progress walk_op
    | apply more_syscall | apply more_now
    | apply more_modify; intros ?; repeat case_match; done ].

Lemma more_stat_dir d : respects more_fs (stat_dir (C := Content) d). Proof. unfold stat_dir. more_walk. Qed.
Lemma more_stat d n : respects more_fs (stat (C := Content) d n). Proof. unfold stat. more_walk. Qed.
Lemma more_mkdir d : respects more_fs (mkdir_all (C := Content) d). Proof. unfold mkdir_all. more_walk. Qed.
Lemma more_rename d n c m : respects more_fs (rename_into (C := Content) d n c m).
Proof. unfold rename_into. more_walk. Qed.
Lemma more_remove d n : respects more_fs (remove (C := Content) d n). Proof. unfold remove. more_walk. Qed.
Lemma more_remove_dir d : respects more_fs (remove_dir (C := Content) d). Proof. unfold remove_dir. more_walk. Qed.
Lemma more_read d n : respects more_fs (read_file (C := Content) d n). Proof. unfold read_file. more_walk. Qed.
Lemma more_read_dir d : respects more_fs (read_dir_files (C := Content) d). Proof. unfold read_dir_files. more_walk. Qed.

Create HintDb more.
#[local] Hint Resolve more_syscall more_now more_stat_dir more_stat more_mkdir more_rename more_remove more_remove_dir
  more_read more_read_dir : more.
#[local] Opaque syscall now stat_dir stat mkdir_all rename_into remove remove_dir read_file read_dir_files.

Lemma more_listItems d p : respects more_fs (listItems d p).
Proof. unfold listItems, glob. walk_op; auto with more. Qed.
Lemma more_Extract f : respects more_fs (ExtractJob f).
Proof. unfold ExtractJob, loadData. walk_op; auto with more. Qed.
Lemma more_missing d : respects more_fs (dir_missing d).
Proof. unfold dir_missing. walk_op; auto with more. Qed.
#[local] Hint Resolve more_listItems more_Extract more_missing : more.
#[local] Opaque listItems ExtractJob dir_missing.

Lemma more_Pop d p : respects more_fs (Pop d p).
Proof. unfold Pop. walk_op; auto with more. Qed.
Lemma more_PopRun d p r : respects more_fs (PopByDAGRunID d p r).
Proof. unfold PopByDAGRunID, popIfRun. walk_op; auto with more. Qed.
Lemma more_Push d p r : respects more_fs (Push d p r).
Proof. unfold Push. walk_op; auto with more. Qed.
#[local] Hint Resolve more_Pop more_PopRun more_Push : more.
#[local] Opaque Pop PopByDAGRunID Push.

Lemma more_Dequeue d : respects more_fs (DualQueue_Dequeue d).
Proof. unfold DualQueue_Dequeue. simpl. walk_op; auto with more. Qed.
Lemma more_DequeueRun d r : respects more_fs (DualQueue_DequeueByDAGRunID d r).
Proof. unfold DualQueue_DequeueByDAGRunID. walk_op; auto with more. Qed.
Lemma more_Delete d ids : respects more_fs (DualQueue_DeleteByItemIDs d ids).
Proof. unfold DualQueue_DeleteByItemIDs, deleteItem. walk_op; auto with more. Qed.
Lemma more_Enqueue d p r : respects more_fs (DualQueue_Enqueue d p r).
Proof. unfold DualQueue_Enqueue. walk_op; auto with more. Qed.
#[local] Hint Resolve more_Dequeue more_DequeueRun more_Delete more_Enqueue more_io : more.
#[local] Opaque DualQueue_Dequeue DualQueue_DequeueByDAGRunID DualQueue_DeleteByItemIDs DualQueue_Enqueue io.

Lemma more_set f : respects more_calls (set_indices f).
Proof. apply op_modify_respects. intros [fs st]. unfold more_calls. simpl. lia. Qed.
Lemma more_ensure d : respects more_calls (ensureQueue d).
Proof. apply op_modify_respects. intros [fs st]. unfold more_calls. destruct (st_queues st !! d); simpl; lia. Qed.
#[local] Hint Resolve more_set more_ensure : more.
#[local] Opaque set_indices ensureQueue.

Lemma more_save d idx : respects more_calls (saveQueueIndexLocked d idx).
Proof. unfold saveQueueIndexLocked. walk_op; auto with more. Qed.
#[local] Hint Resolve more_save : more.
#[local] Opaque saveQueueIndexLocked.
Lemma more_load d : respects more_calls (loadOrRebuildQueueIndexLocked d).
Proof. unfold loadOrRebuildQueueIndexLocked, rebuildQueueIndexLocked. walk_op; auto with more. Qed.
#[local] Hint Resolve more_load : more.
#[local] Opaque loadOrRebuildQueueIndexLocked.

Lemma more_refresh d update : (∀ idx, respects more_calls (update idx)) → respects more_calls (refreshIndex d update).
Proof.
  intros Hu. unfold refreshIndex, saveOrInvalidate, invalidateQueueIndexLocked. walk_op; auto with more.
Qed.

Lemma more_lock {A} d (m : Op (FS Content * dirLock) A) :
  respects (token_step (C := Content)) m → respects more_calls (on_lock d m).
Proof.
  apply respects_zoom. intros [fs st] [fs' lk] (_ & _ & Hc & _). exact Hc.
Qed.

#[local] Opaque TryLock.
Lemma token_Lock k : respects (token_step (C := Content)) (Lock k).
Proof.
  pose proof (token_run (C := Content) OpTryLock) as Ht. cbn [run_lock] in Ht.
  assert (∀ n, respects (token_step (C := Content)) (lock_ticks n)) as Hl.
  { induction n as [|n IHn]; simpl; [apply op_fail_respects; apply _|]. apply op_bind_respects; [apply _|by apply op_try_respects|].
    intros [[]|]; first [apply op_fail_respects; apply _|apply op_ret_respects; apply _|exact IHn]. }
  unfold Lock. apply op_bind_respects; [apply _|by apply op_try_respects|].
  intros [[]|]; first [apply op_fail_respects; apply _|apply op_ret_respects; apply _|apply Hl].
Qed.
#[local] Transparent TryLock.

Lemma more_locked {A} d (body : Op World A) : respects more_calls body → respects more_calls (locked ticks d body).
Proof.
  intros Hb. unfold locked. apply op_bind_respects; [apply _|apply more_lock, token_Lock|]. intros _ w r w' Hr.
  destruct (body w) as [r1 w1] eqn:E. injection Hr as _ <-. transitivity w1; [by eapply Hb|].
  eapply (op_ignore_respects _ _ (more_lock d _ (token_run OpUnlock))). reflexivity.
Qed.

#[local] Opaque locked refreshIndex.
Lemma more_run q o : respects more_calls (run_qop q o).
Proof.
  destruct o; unfold run_qop, Enqueue, Enqueue_push, DequeueByName, DequeueByDAGRunID, DeleteByItemIDs, Len,
    QueueStore.List, saveOrInvalidate, invalidateQueueIndexLocked; walk_op; auto with more;
  apply more_locked; walk_op; auto with more; apply more_refresh; intros; unfold drop_id; walk_op; auto with more.
Qed.

Lemma run_trace_calls ops : ∀ w, (fs_calls w.1 <= fs_calls (run_trace ops w).2.1)%nat.
Proof.
  induction ops as [|[q o] ops IH]; intros w; simpl; [done|].
  destruct (run_qop q o w) as [r w1] eqn:E. specialize (IH w1). destruct (run_trace ops w1) as [rs w2].
  pose proof (more_run q o _ _ _ E) as Hm. unfold more_calls in Hm. simpl in *. lia.
Qed.

Lemma refine_trace ops : ∀ w A,
  (∀ q, queue_inv q w (A q)) → Forall (λ x, qop_ok x.2) ops → (fs_calls (run_trace ops w).2.1 + 64 <= N)%nat →
  ∃ A', spec_trace ops A (run_trace ops w).1 A' ∧ ∀ q, queue_inv q (run_trace ops w).2 (A' q).
Proof using Hok Hclock Hinst.
  induction ops as [|[q o] ops IH]; intros w A Hinv Hops HN; simpl.
  - exists A. split; [constructor|done].
  - inversion Hops as [|? ? Ho Hops']; subst. simpl in HN, Ho. pose proof (run_trace_calls ((q, o) :: ops) w) as Hc.
    simpl in Hc. destruct (run_qop q o w) as [r w1] eqn:E.
    assert (fs_calls w.1 + 64 <= N)%nat as HN0 by lia.
    destruct (wp_eq _ _ _ _ _ (refine_op q o w (A q) (Hinv q) Ho HN0) E) as (a & Hs & Hi & Hoth).
    destruct (IH w1 (λ q', if bool_decide (q' = q) then a else A q')) as (A' & Hsp & HA').
    + intros q'. case_bool_decide as Hq; [by subst|]. by eapply others_inv.
    + done.
    + by destruct (run_trace ops w1).
    + exists A'. destruct (run_trace ops w1) as [rs w2]. simpl in *. split; [by econstructor|done].
Qed.
End Refine.

Definition no_items : string → AQueue := λ _, ([], []).

Lemma fresh_store_inv `{OS} q k : queue_inv q (mkFS ∅ k, NewStore) ([], []).
Proof.
  split; [split; simpl|split; simpl].
  - split; (split; [|constructor|constructor]); intros n _; unfold entry_of, dir_of; simpl; rewrite lookup_empty;
      simpl; (split; [by intros []|intros Hn; inversion Hn]).
  - unfold entry_of, dir_of. simpl. by rewrite lookup_empty.
  - intros c. by rewrite lookup_empty.
  - unfold lock_of, entry_of, dir_of. simpl. by rewrite lookup_empty.
  - intros lk. by rewrite lookup_empty.
Qed.

(** C3. The queue store implements a two-level priority queue: from a new store on an
    empty base directory, every sequence of operations on any of its queues
    returns what the abstract queues return (first in, first out within a
    priority, high before low, removal by run and by item, lengths and listings in
    order), and index, files and cache agree with them.  The conditions: one process
    uses the store, runs its operations one after the other and to the end, no system
    call fails, the clock advances between two readings and stays within four-digit
    years, identifiers of enqueued runs have no slash or newline, and identifiers of
    items to delete have the form of item names.  Outside them the queue is not kept:
    [enqueue_race_hides_run] and [crash_hides_run] lose a run from the index. *)
Theorem queue_store_refines `{OS} (ticks N k : nat) (ops : list (string * qop))
    (Hok : ∀ n, SysOk n = true)
    (Hclock : ∀ n m, (n < m < N)%nat → (Now n < Now m)%Z)
    (Hinst : ∀ n, (n < N)%nat → instant_ok (Now n))
    (Hops : Forall (λ x, qop_ok x.2) ops) :
  let '(results, w) := run_trace ticks ops (mkFS ∅ k, NewStore) in
  (fs_calls w.1 + 64 <= N)%nat →
  ∃ A, spec_trace ops no_items results A ∧ ∀ q, queue_inv q w (A q).
Proof.
  pose proof (refine_trace ticks N Hok Hclock Hinst ops (mkFS ∅ k, NewStore) no_items) as Hr.
  destruct (run_trace ticks ops (mkFS ∅ k, NewStore)) as [results w]. intros HN.
  apply Hr; [intros q; apply fresh_store_inv|done|done].
Qed.
