(* ===== verification/QueueExamples.v ===== *)
(** * Queues: concrete runs

    A clock that advances by a fixed step at every system call, the witnesses of
    the theorems about locks, names and queues, and runs that show where the
    store does not do what its comments say. *)

From stdpp Require Import base strings list gmap sorting pretty.
From Stdlib Require Import ZArith Lia Ascii.
From S2P Require Import Prelude GoStrings GoDate FileSys DirLock DirLockLaws RunStatus QueueName QueueFile QueueStore QueueRep QueueIndexLaws QueueRefine.

(** January 1, 2026. *)
Definition day0 : Z := 739616.
Definition base : Time := (day0 * Day)%Z.

(** [step] nanoseconds between two system calls. *)
Definition steady (step : Z) : OS :=
  Build_OS (λ _, true) (λ n, base + Z.of_nat n * step)%Z (λ n, "t" +:+ pretty n).

Lemma steady_ok step n : @SysOk (steady step) n = true.
Proof. done. Qed.

Lemma steady_clock n m : (n < m < 1000)%nat → (@Now (steady 1) n < @Now (steady 1) m)%Z.
Proof. simpl. lia. Qed.

Lemma steady_instant n : (n < 1000)%nat → instant_ok (@Now (steady 1) n).
Proof.
  intros Hn. change (@Now (steady 1) n) with (base + Z.of_nat n * 1)%Z. rewrite Z.mul_1_r.
  assert ((base + Z.of_nat n) / Day = day0)%Z as Hd.
  { unfold base. rewrite Z.add_comm, Z.div_add by done. rewrite Z.div_small; [done|]. split; [lia|].
    transitivity 1000%Z; [lia|done]. }
  split; [unfold four_digit_year; by rewrite Hd|].
  split; [unfold base, day0, unixEpoch, Day, Hour, Second; lia|].
  unfold base, day0, unixEpoch, Day, Hour, Second, max_int64. lia.
Qed.

Lemma steady_tokens step : @tokens_unique (steady step).
Proof.
  split; [|done]. intros n m E. simpl in E. apply (app_string_inj_l "t" "t") in E as [_ E]; [|done].
  by apply (inj pretty) in E.
Qed.

(** ** Witnesses *)
Definition run1 : DAGRunRef := mkDAGRunRef "etl" "r1".
Definition run2 : DAGRunRef := mkDAGRunRef "etl" "r2".
Definition run3 : DAGRunRef := mkDAGRunRef "etl" "r3".

Lemma queueFileName_roundtrip_witness :
  instant_ok base ∧
  parseQueueFileName "etl" (queueFileName lowPrefix "r1" base) =
    Some (mkItemData (queueFileName lowPrefix "r1" base) run1 base).
Proof.
  assert (instant_ok base) as Hb.
  { split; [vm_compute; reflexivity|]. unfold base, day0, unixEpoch, Day, Hour, Second, max_int64. lia. }
  split; [exact Hb|]. apply (queueFileName_roundtrip lowPrefix "etl" "r1" base); [by right|exact Hb|by split].
Defined.

Lemma queueFileName_order_witness :
  instant_ok base ∧ string_lt (queueFileName highPrefix "r2" base) (queueFileName highPrefix "r1" (base + 1)).
Proof.
  assert (instant_ok base ∧ instant_ok (base + 1)) as [H0 H1].
  { split; (split; [vm_compute; reflexivity|]); unfold base, day0, unixEpoch, Day, Hour, Second, max_int64; lia. }
  split; [exact H0|]. apply (queueFileName_order highPrefix "r2" "r1" base (base + 1)); [exact H0|exact H1|lia].
Defined.

Definition sample_ops : list (string * qop) :=
  [("q", QEnqueue QueuePriorityLow run1); ("q", QEnqueue QueuePriorityHigh run2); ("q", QEnqueue QueuePriorityLow run3);
   ("q", QDequeue); ("q", QLen)].

Definition runs_of (r : Err + qres) : list DAGRunRef :=
  match r with
  | inr (RItems l) => l ≫= λ i, match i with IJob j => [it_DAGRun (job_data j)] | IFile _ => [] end
  | _ => []
  end.

Definition sample : list (Err + qres) * (FS Content * Store) :=
  @run_trace (steady 1) 0 sample_ops (mkFS ∅ 0, NewStore).

Lemma sample_calls : ((fs_calls sample.2.1 + 64 <=? 1000)%nat = true).
Proof. vm_compute. reflexivity. Qed.

Lemma queue_store_refines_witness :
  runs_of <$> sample.1 !! 3%nat = Some [run2] ∧
  ∃ A, @spec_trace sample_ops no_items sample.1 A ∧ ∀ q, @queue_inv (steady 1) q sample.2 (A q).
Proof.
  split; [vm_compute; reflexivity|].
  pose proof (@queue_store_refines (steady 1) 0 1000 0 sample_ops (steady_ok 1) steady_clock steady_instant) as Hr.
  assert (Forall (λ x, qop_ok x.2) sample_ops) as Hops by (repeat constructor).
  specialize (Hr Hops). fold sample in Hr. pose proof sample_calls as Hc. apply Nat.leb_le in Hc.
  destruct sample as [results w]. exact (Hr Hc).
Defined.

(** ** Locks *)
Definition plain_lock : dirLock := NewDirLock "q" None.
Definition no_files : FS Content := mkFS ∅ 0.
Definition acquired (o : OS) (fs : FS Content) (l : dirLock) : (Err + unit) * (FS Content * dirLock) :=
  @TryLock Content o (fs, l).

(** Three instances of one lock. *)
Definition idle : LockSys (C := Content) :=
  mkLockSys no_files {[ 0%nat := (plain_lock, None); 1%nat := (plain_lock, None); 2%nat := (plain_lock, None) ]}.

Definition holds (sys : LockSys (C := Content)) (i : nat) : bool :=
  match sys_inst sys !! i with Some (l, _) => dl_isHeld l | None => false end.
Definition owner (sys : LockSys (C := Content)) (i : nat) : bool :=
  match sys_inst sys !! i with Some (l, _) => bool_decide (owner_of "q" (sys_fs sys) = Some (dl_fenceToken l)) | None => false end.

Lemma idle_init : lock_init "q" idle.
Proof.
  intros i x Hx. simpl in Hx. apply lookup_insert_Some in Hx as [[_ <-]|[_ Hx]]; [done|].
  apply lookup_insert_Some in Hx as [[_ <-]|[_ [_ <-]%lookup_singleton_Some]]; done.
Qed.

Definition run_acts (o : OS) (acts : list LockAct) : LockSys := default idle (@schedule Content o acts idle).

(** [n] turns of an instance that starts an operation. *)
Definition does (i : nat) (o : lock_op) (n : nat) : list LockAct := Call i o :: repeat (Turns i) n.

(** The two find no lock and race for it; the second is refused by [os.Mkdir]. *)
Definition contest : list LockAct := does 0 OpTryLock 2 ++ does 1 OpTryLock 3 ++ [Turns 0; Turns 1].

Lemma lock_exclusive_witness :
  holds (run_acts (steady 1) contest) 1 = true ∧
  ∀ j y, sys_inst (run_acts (steady 1) contest) !! j = Some y → dl_isHeld y.1 = true → 1%nat = j.
Proof.
  assert (holds (run_acts (steady 1) contest) 1 = true) as Hh by (vm_compute; reflexivity). split; [exact Hh|].
  unfold holds in Hh. destruct (sys_inst _ !! 1%nat) as [[l pc]|] eqn:El; [|discriminate Hh].
  intros j y Hj Hy.
  assert (is_Some (@calm_schedule Content (steady 1) contest idle)) as [sys Hs] by (vm_compute; by eexists).
  assert (@schedule Content (steady 1) contest idle = Some sys) as Hs' by by apply calm_schedule_schedule.
  refine (proj1 (@lock_exclusive Content (steady 1) "q" idle (run_acts (steady 1) contest) (steady_tokens 1) idle_init _) _
    1%nat j (l, pc) y El Hj Hh Hy); unfold run_acts; rewrite Hs'; simpl.
  - by eapply schedule_run.
  - by eapply calm_schedule_run.
Defined.

(** The race the comment in [TryLock] speaks of: two instances find the lock of a dead process
    stale, and the second removes the lock the first has just created.  Both hold it; the
    token names the second, and the first notices at its next check. *)
Definition stale_race : list LockAct :=
  does 2 OpTryLock 4 ++ [Dies 2] ++ does 0 OpTryLock 2 ++ does 1 OpTryLock 2 ++ repeat (Turns 0) 4 ++ repeat (Turns 1) 4.

Example stale_race_two_holders :
  let sys := run_acts (steady (20 * Second)) stale_race in
  let sys' := run_acts (steady (20 * Second)) (stale_race ++ does 0 OpIsHeldByMe 1) in
  (holds sys 0, owner sys 0, holds sys 1, owner sys 1) = (true, false, true, true) ∧ holds sys' 0 = false.
Proof. vm_compute. done. Qed.

(** [Unlock] reads the token and removes the directory in two calls: a lock that turns stale
    in between and is taken over by another instance is removed with it, and a third instance
    may acquire it. *)
Example unlock_removes_other_lock :
  let sys := run_acts (steady (20 * Second))
    (does 0 OpTryLock 4 ++ does 0 OpUnlock 1 ++ does 1 OpTryLock 6 ++ [Turns 0] ++ does 2 OpTryLock 4) in
  (holds sys 0, holds sys 1, owner sys 1, holds sys 2) = (false, true, false, true).
Proof. vm_compute. done. Qed.

Lemma TryLock_correct_witness :
  let '(r, (fs', l')) := acquired (steady 1) no_files plain_lock in r = inr tt ∧ owns fs' l'.
Proof.
  pose proof (@TryLock_correct Content (steady 1) (steady_ok 1) no_files plain_lock eq_refl (or_introl eq_refl)) as Ht.
  unfold acquired. destruct (TryLock (no_files, plain_lock)) as [r [fs' l']].
  change (lock_free no_files plain_lock) with true in Ht. destruct Ht as [(Hr & Ho & _) _]. exact (conj Hr Ho).
Defined.

(** The lock of a queue directory is stale after 30 nanoseconds, because
    [NewDualQueue] gives the numbers 30 and 50, meant as seconds and milliseconds,
    as durations: 100 nanoseconds after one process took the lock, another one
    takes it away, and both go on as its holder. *)
Theorem queue_lock_stolen :
  let '(r1, (fs1, first)) := acquired (steady 100) no_files (createDualQueue "q") in
  let '(r2, (fs2, second)) := acquired (steady 100) fs1 (createDualQueue "q") in
  r1 = inr tt ∧ owns fs1 first ∧ r2 = inr tt ∧ owns fs2 second ∧ ¬ owns fs2 first.
Proof.
  vm_compute. split_and!; try reflexivity; try (split; reflexivity). intros [_ E]. discriminate E.
Qed.

(** ** Two processes

    Each has its own store on the same files; [Enqueue] takes no directory lock, so
    another process can run between its reading of the index and its writing. *)
Section Processes.
#[local] Instance one_ns : OS := steady 1.

Definition seeded : FS Content * Store := (Enqueue "q" QueuePriorityLow run1 (no_files, NewStore)).2.

(** The first process has read the index and queues [run3]; meanwhile the second
    one has queued [run2]. *)
Definition raced : (Err + unit) * (FS Content * Store) :=
  let first := seeded in
  match loadOrRebuildQueueIndexLocked "q" first with
  | (inl e, w) => (inl e, w)
  | (inr idx, (fs1, st1)) =>
      let '(_, (fs2, _)) := Enqueue "q" QueuePriorityLow run2 (fs1, NewStore) in
      (let* idx := Enqueue_push "q" QueuePriorityLow run3 idx in saveOrInvalidate "q" idx)%op (fs2, st1)
  end.

Definition listed (w : FS Content * Store) : list (Err + DAGRunRef) :=
  match QueueStore.List "q" w with
  | (inr items, (fs, _)) => map (λ i, (Data i fs).1) items
  | (inl e, _) => [inl e]
  end.

(** Both calls succeed and three runs are in the directory, but the index has lost
    the run of the second process: no listing shows it, so the queue processor
    does not start it before the index is rebuilt. *)
Theorem enqueue_race_hides_run :
  raced.1 = inr tt ∧ (DualQueue_Len "q" raced.2.1).1 = inr 3%Z ∧ listed raced.2 = [inr run1; inr run3] ∧
  listed (raced.2.1, NewStore) = [inr run1; inr run3].
Proof. split_and!; vm_compute; reflexivity. Qed.

(** A process that dies after the item file is in place and before the index is
    written leaves the same state. *)
Theorem crash_hides_run :
  let '(r, (fs, _)) := io (DualQueue_Enqueue "q" QueuePriorityLow run2) seeded in
  (∃ f, r = inr f) ∧ (DualQueue_Len "q" fs).1 = inr 2%Z ∧ listed (fs, NewStore) = [inr run1].
Proof. vm_compute. split; [by eexists|]. split; reflexivity. Qed.

(** [Dequeue] means to delete the directory of an empty queue, but the lock it runs
    under is a directory inside: the deletion fails and the directory stays. *)
Theorem emptied_queue_keeps_directory :
  let '(r1, w1) := DequeueByName 0 "q" seeded in
  let '(r2, w2) := DequeueByName 0 "q" w1 in
  r2 = inl ErrQueueEmpty ∧ dir_of "q" w2.1 = Some ∅ ∧
  dir_of "q" (DualQueue_Dequeue "q" w2.1).2 = None.
Proof. vm_compute. split_and!; reflexivity. Qed.
End Processes.
