(* ===== verification/RunFiles.v ===== *)
(** * Attempts of a run and their status files (persis/filedagrun/attempt.go,
    writer.go, cmn/fileutil/cache.go)

    An attempt is a directory with a status file of JSON lines, the DAG and a
    cancel flag.  A status file is modelled by its lines, a line being the status
    it decodes to or [None], and by whether it ends inside a line: the text that
    is appended to such an end is one line with it, and decodes to nothing.

    [ReadStatus] returns a pointer.  With a cache, two calls return the same
    object while the file keeps its size and time, and whoever changes the object
    changes it for all: status objects live in [rw_heap] and a pointer is their
    position.

    Outputs, chat messages, the work directory and events are left out. *)

From stdpp Require Import base strings list gmap.
From Stdlib Require Import ZArith Lia Ascii.
From S2P Require Import Prelude Status Step GoStrings RunStatus FileSys.

Open Scope op_scope.

(** ** Files *)
Record StatusFile := mkStatusFile {
  sf_lines : list (option DAGRunStatus);
  sf_torn : bool;                (* bytes after the last newline *)
  sf_size : Z;
  sf_mtime : Time;
}.

Record AttemptDir := mkAttemptDir {
  ad_status : option StatusFile;  (* status.jsonl *)
  ad_dag : option DAG;            (* dag.json *)
  ad_cancel : bool;               (* CANCEL_REQUESTED *)
}.

Definition AttemptDir_new : AttemptDir := mkAttemptDir None None false.

(** A run directory: its attempts and the runs of its sub-DAGs. *)
Record RunDir := mkRunDir {
  rd_attempts : gmap string AttemptDir;
  rd_children : gmap string (gmap string AttemptDir);
}.

Definition RunDir_new : RunDir := mkRunDir ∅ ∅.

Abbreviation DayDir := (gmap string RunDir).
Abbreviation MonthDir := (gmap string DayDir).
Abbreviation YearDir := (gmap string MonthDir).
Abbreviation Tree := (gmap string YearDir).

(** [rp_root] is the directory of the DAG; [rp_child] a run below it. *)
Record RunPath := mkRunPath {
  rp_root : string;
  rp_year : string;
  rp_month : string;
  rp_day : string;
  rp_dir : string;
  rp_child : option string;
}.

#[export] Instance RunPath_eq_dec : EqDecision RunPath.
Proof. solve_decision. Defined.

Record AttemptPath := mkAttemptPath { ap_run : RunPath; ap_dir : string }.

#[export] Instance AttemptPath_eq_dec : EqDecision AttemptPath.
Proof. solve_decision. Defined.

#[export] Instance RunPath_countable : Countable RunPath.
Proof.
  refine (inj_countable' (λ p, (rp_root p, rp_year p, rp_month p, rp_day p, rp_dir p, rp_child p))
            (λ '(a, b, c, d, e, f), mkRunPath a b c d e f) _). by intros [].
Defined.

#[export] Instance AttemptPath_countable : Countable AttemptPath.
Proof.
  refine (inj_countable' (λ p, (ap_run p, ap_dir p)) (λ '(a, b), mkAttemptPath a b) _). by intros [].
Defined.

(** ** The world of the run store *)
Record CacheEntry := mkCacheEntry { ce_data : nat; ce_size : Z; ce_lastModified : Time }.

Record RunWorld := mkRunWorld {
  rw_fs : FS unit;                      (* locks, clock and call counter *)
  rw_trees : gmap string Tree;
  rw_heap : list DAGRunStatus;          (* status objects *)
  rw_cache : gmap AttemptPath CacheEntry;
}.

Abbreviation ROp A := (Op RunWorld A).

(** [status_len]: the bytes of a status line; [CacheOn]: the store has a cache;
    [Evicted]: the cache has dropped an entry at a call; [PartialWrite]: a failed
    write has left bytes behind. *)
Class RunEnv := {
  status_len : DAGRunStatus → Z;
  CacheOn : bool;
  Evicted : nat → bool;
  PartialWrite : nat → bool;
}.

Definition get_tree (root : string) (w : RunWorld) : Tree := default ∅ (rw_trees w !! root).

Definition find_run (p : RunPath) (w : RunWorld) : option RunDir :=
  months ← get_tree (rp_root p) w !! rp_year p;
  days ← months !! rp_month p;
  runs ← days !! rp_day p;
  runs !! rp_dir p.

Definition set_run (p : RunPath) (r : RunDir) (w : RunWorld) : RunWorld :=
  let years := get_tree (rp_root p) w in
  let months := default ∅ (years !! rp_year p) in
  let days := default ∅ (months !! rp_month p) in
  let runs := default ∅ (days !! rp_day p) in
  {| w with rw_trees :=
       <[rp_root p := <[rp_year p := <[rp_month p := <[rp_day p := <[rp_dir p := r]> runs]> days]> months]> years]>
         (rw_trees w) |}.

(** The attempts of a run or of a run of a sub-DAG. *)
Definition attempts_of (p : RunPath) (w : RunWorld) : option (gmap string AttemptDir) :=
  r ← find_run p w;
  match rp_child p with
  | None => Some (rd_attempts r)
  | Some c => rd_children r !! c
  end.

Definition set_attempts (p : RunPath) (m : gmap string AttemptDir) (w : RunWorld) : RunWorld :=
  let r := default RunDir_new (find_run p w) in
  set_run p (match rp_child p with
             | None => {| r with rd_attempts := m |}
             | Some c => {| r with rd_children := <[c := m]> (rd_children r) |}
             end) w.

Definition find_attempt (p : AttemptPath) (w : RunWorld) : option AttemptDir :=
  attempts ← attempts_of (ap_run p) w; attempts !! ap_dir p.

Definition put_attempt (p : AttemptPath) (a : AttemptDir) (w : RunWorld) : RunWorld :=
  set_attempts (ap_run p) (<[ap_dir p := a]> (default ∅ (attempts_of (ap_run p) w))) w.

Definition status_of (p : AttemptPath) (w : RunWorld) : option StatusFile :=
  a ← find_attempt p w; ad_status a.

Definition put_status (p : AttemptPath) (f : StatusFile) (w : RunWorld) : RunWorld :=
  let a := default AttemptDir_new (find_attempt p w) in
  put_attempt p {| a with ad_status := Some f |} w.

(** ** Attempts

    The writer of an open attempt remembers a failed write ([bufio.Writer] keeps
    its first error). *)
Record Attempt := mkAttempt {
  att_path : AttemptPath;
  att_writer : option bool;      (* [Some failed] when open *)
  att_dag : option DAG;
}.

Definition NewAttemptAt (p : AttemptPath) (dag : option DAG) : Attempt := mkAttempt p None dag.

(** The last status of the lines; [None] is [io.EOF]. *)
Definition keep_last (acc line : option DAGRunStatus) : option DAGRunStatus :=
  match line with Some s => Some s | None => acc end.

Definition last_status (lines : list (option DAGRunStatus)) : option DAGRunStatus :=
  foldl keep_last None lines.

Section Attempts.
Context `{OS, RunEnv}.

Definition rsys : ROp unit := zoom rw_fs (λ fs w, {| w with rw_fs := fs |}) syscall.
Definition rnow : ROp Time := zoom rw_fs (λ fs w, {| w with rw_fs := fs |}) now.
Definition rcall : ROp nat := zoom rw_fs (λ fs w, {| w with rw_fs := fs |}) (λ fs, (inr (fs_calls fs), tick fs)).

Definition alloc (s : DAGRunStatus) : ROp nat := λ w,
  (inr (length (rw_heap w)), {| w with rw_heap := rw_heap w ++ [s] |}).
Definition deref (l : nat) : ROp DAGRunStatus :=
  gets (λ w, default DAGRunStatus_zero (rw_heap w !! l)).
Definition store_at (l : nat) (s : DAGRunStatus) : ROp unit :=
  modify (λ w, {| w with rw_heap := <[l := s]> (rw_heap w) |}).

Definition Invalidate (p : AttemptPath) : ROp unit :=
  modify (λ w, if CacheOn then {| w with rw_cache := delete p (rw_cache w) |} else w).

(** *** Reading *)

(** [parseStatusFileWithContext]: one call opens the file, one reads each line
    and one sees the end. *)
Definition parseStatusFile (p : AttemptPath) : ROp DAGRunStatus :=
  let* o := try rsys in
  let* f := gets (status_of p) in
  match o, f with
  | inl _, _ | _, None => fail ErrReadFailed
  | inr _, Some f =>
      let* r := try (each (λ acc l, rsys ;* ret (keep_last acc l)) None (sf_lines f)) in
      let* e := try rsys in
      match r, e with
      | inl _, _ | _, inl _ => fail ErrReadFailed
      | inr None, _ => fail ErrEOF
      | inr (Some s), _ => ret s
      end
  end.

(** [fileutil.Cache.LoadLatest] *)
Definition LoadLatest (p : AttemptPath) : ROp nat :=
  rsys ;*
  let* f := gets (status_of p) in
  match f with
  | None => fail ENotExist
  | Some f =>
      let* n := rcall in
      let* e := gets (λ w, if Evicted n then None else rw_cache w !! p) in
      let hit :=
        match e with
        | Some e => if (ce_lastModified e <? sf_mtime f)%Z || negb (ce_size e =? sf_size f)%Z
                    then None else Some (ce_data e)
        | None => None
        end in
      match hit with
      | Some l => ret l
      | None =>
          let* s := parseStatusFile p in
          let* l := alloc s in
          modify (λ w, {| w with rw_cache := <[p := mkCacheEntry l (sf_size f) (sf_mtime f)]> (rw_cache w) |}) ;*
          ret l
      end
  end.

Definition read_directly (p : AttemptPath) : ROp nat :=
  let* r := try (parseStatusFile p) in
  match r with
  | inr s => alloc s
  | inl ErrEOF => fail ErrCorruptedStatusFile
  | inl e => fail e
  end.

Definition ReadStatus (p : AttemptPath) : ROp nat :=
  if CacheOn then
    let* r := try (LoadLatest p) in
    match r with
    | inr l => ret l
    | inl _ => read_directly p
    end
  else read_directly p.

Definition ReadDAG (p : AttemptPath) : ROp DAG :=
  rsys ;* rsys ;*
  let* a := gets (find_attempt p) in
  match a ≫= ad_dag with
  | Some d => ret d
  | None => fail ENotExist
  end.

Definition Exists (p : AttemptPath) : ROp bool :=
  let* r := try rsys in
  let* f := gets (status_of p) in
  ret (match r, f with inr _, None => false | _, _ => true end).

Definition dot_prefix : string := ".".
Definition Hidden (p : AttemptPath) : bool :=
  match ap_dir p with String c _ => Ascii.eqb c dot | EmptyString => false end.

(** *** Writing *)
Abbreviation AOp A := (Op (RunWorld * Attempt) A).

Definition on_world {A} (m : ROp A) : AOp A := zoom fst (λ w s, (w, s.2)) m.
Definition the_attempt : AOp Attempt := gets snd.
Definition set_writer (x : option bool) : AOp unit :=
  modify (λ '(w, a), (w, {| a with att_writer := x |})).

(** An attempt object that only this operation uses. *)
Definition with_attempt {A} (att : Attempt) (m : AOp A) : ROp A :=
  λ w, let '(r, s) := m (w, att) in (r, s.1).

Definition status_file (t : Time) (f : option StatusFile) : StatusFile :=
  default (mkStatusFile [] false 0 t) f.

(** A line appended to the file. *)
Definition append_line (s : DAGRunStatus) (t : Time) (f : StatusFile) : StatusFile :=
  mkStatusFile (sf_lines f ++ [if sf_torn f then None else Some s]) false (sf_size f + status_len s) t.

(** Some bytes of a line. *)
Definition tear (t : Time) (f : StatusFile) : StatusFile :=
  mkStatusFile (sf_lines f) true (sf_size f + 1) t.

(** The creation of the attempt directory and of its files. *)
Definition make_attempt (dag : option DAG) (p : AttemptPath) : ROp unit :=
  modify (λ w,
    let a := default AttemptDir_new (find_attempt p w) in
    put_attempt p (match dag with Some _ => {| a with ad_dag := dag |} | None => a end) w).

Definition Attempt_Open : AOp unit :=
  let* att := the_attempt in
  match att_writer att with
  | Some _ => fail ErrStatusFileOpen
  | None =>
      on_world rsys ;* on_world (make_attempt None (att_path att)) ;*          (* os.MkdirAll *)
      (match att_dag att with
       | Some _ => on_world rsys ;* on_world (make_attempt (att_dag att) (att_path att))
       | None => ret tt
       end) ;*
      on_world rsys ;*                                                        (* work directory *)
      on_world rsys ;* on_world rsys ;*                                       (* Writer.Open *)
      let* t := on_world rnow in
      on_world (modify (λ w, put_status (att_path att) (status_file t (status_of (att_path att) w)) w)) ;*
      set_writer (Some false) ;*
      ignore (on_world (parseStatusFile (att_path att)))                      (* lastPersistedEventTypeLocked *)
  end.

(** [Writer.write]: one write of the encoded line, then a sync.  A failed write
    may leave a part of the line, and fails all later ones. *)
Definition Writer_write (s : DAGRunStatus) : AOp unit :=
  let* att := the_attempt in
  match att_writer att with
  | None | Some true => fail EIO
  | Some false =>
      let* t := on_world rnow in
      let* n := on_world rcall in
      let update g := on_world (modify (λ w,
        put_status (att_path att) (g (status_file t (status_of (att_path att) w))) w)) in
      if SysOk n then update (append_line s t) ;* on_world rsys               (* file.Sync *)
      else (if PartialWrite n then update (tear t) else ret tt) ;* set_writer (Some true) ;* fail EIO
  end.

Definition Attempt_Write (s : DAGRunStatus) : AOp unit :=
  let* att := the_attempt in
  match att_writer att with
  | None => fail ErrStatusFileNotOpen
  | Some _ =>
      let* r := try (Writer_write s) in
      match r with
      | inl _ => fail ErrWriteFailed
      | inr _ => on_world (Invalidate (att_path att))
      end
  end.

(** [compactLocked] without an open writer: the last status is written to a
    temporary file that replaces the file. *)
Definition compact (p : AttemptPath) : ROp unit :=
  let* r := try (parseStatusFile p) in
  match r with
  | inl ErrEOF => ret tt
  | inl _ => fail ErrCompactFailed
  | inr s =>
      rsys ;* rsys ;* rsys ;* rsys ;*          (* CreateTemp, Close, Writer.Open *)
      let* t := rnow in
      rsys ;* rsys ;* rsys ;* rsys ;*          (* Write, Sync, Writer.close *)
      rsys ;*                                  (* ReplaceFileWithRetry *)
      modify (put_status p (mkStatusFile [Some s] false (status_len s) t)) ;*
      Invalidate p
  end.

Definition Attempt_Close : AOp unit :=
  let* att := the_attempt in
  match att_writer att with
  | None => ret tt
  | Some failed =>
      set_writer None ;*
      let* s := try (on_world rsys) in         (* flush and sync *)
      let* c := try (on_world rsys) in         (* file.Close *)
      match failed, s, c with
      | false, inr _, inr _ =>
          ignore (on_world (compact (att_path att))) ;*
          on_world (Invalidate (att_path att))
      | _, _, _ => fail EIO
      end
  end.

(** *** Flags and hiding *)
Definition Abort (p : AttemptPath) : ROp unit :=
  rsys ;* make_attempt None p ;*
  let* a := gets (find_attempt p) in
  let* r := try rsys in
  match r, a with
  | inr _, Some a =>
      if ad_cancel a then ret tt
      else rsys ;* modify (λ w, put_attempt p {| a with ad_cancel := true |} w)
  | _, _ => rsys ;* modify (λ w,
      let a := default AttemptDir_new (find_attempt p w) in put_attempt p {| a with ad_cancel := true |} w)
  end.

Definition IsAborting (p : AttemptPath) : ROp bool :=
  rsys ;*
  let* a := gets (find_attempt p) in
  ret (match a with Some a => ad_cancel a | None => false end).

Definition hidden_path (p : AttemptPath) : AttemptPath :=
  mkAttemptPath (ap_run p) (dot_prefix ++ ap_dir p).

(** The path of the attempt afterwards. *)
Definition Hide (att : Attempt) : ROp AttemptPath :=
  let p := att_path att in
  match att_writer att with
  | Some _ => fail ErrStatusFileOpen
  | None =>
      if Hidden p then ret p
      else
        let* r := try rsys in
        let* there := gets (find_attempt (hidden_path p)) in
        match r, there with
        | inr _, Some _ => fail EExist
        | _, _ =>
            rsys ;*
            let* a := gets (find_attempt p) in
            match a with
            | None => fail ENotExist
            | Some a =>
                modify (λ w,
                  let m := default ∅ (attempts_of (ap_run p) w) in
                  set_attempts (ap_run p) (<[ap_dir (hidden_path p) := a]> (delete (ap_dir p) m)) w) ;*
                Invalidate (hidden_path p) ;*
                ret (hidden_path p)
            end
        end
  end.
End Attempts.
