(* ===== verification/RunStore.v ===== *)
(** * The store of runs (persis/filedagrun/dagrun.go, dataroot.go, store.go)

    The runs of a DAG are directories by year, month and day of their creation;
    an operation that changes them holds the directory lock of the DAG.  The
    attempts of a run are ordered by the timestamps in their names.

    Names of DAGs are ASCII ([SafeName] replaces a longer character by one
    underscore).  Identifiers have no pattern characters, so [filepath.Glob] on a name finds the
    name.  A context that is done shows as a call that fails.  Log files and
    artifacts of a removed run are outside the model; so are the listing of
    statuses, its index, retention and renaming. *)

From stdpp Require Import base strings list gmap sorting.
From Stdlib Require Import ZArith Lia Ascii.
From S2P Require Import Prelude Status GoStrings GoDate RunStatus Catchup FileSys DirLock QueueName RunFiles.

Open Scope op_scope.

(** ** Names *)
Definition DAGRunDirPrefix : string := "dag-run_".
Definition AttemptDirPrefix : string := "attempt_".
Definition SubDAGRunDirPrefix : string := "child_".

Definition MaxSafeNameLength : nat := 100.
Definition safe_char (c : ascii) : ascii :=
  if is_alnum c || Ascii.eqb c "_" || Ascii.eqb c "-" then c else "_"%char.
Definition SafeName (str : string) : string := Take MaxSafeNameLength (string_map safe_char str).

Definition IsYAMLFile (filename : string) : bool :=
  bool_decide (Ext filename = ".yaml") || bool_decide (Ext filename = ".yml").

(** [NewDataRoot]: the directory of a DAG. *)
Definition dataRootPrefix `{Digest} (dagName : string) : string :=
  let base := Base dagName in
  let base := if IsYAMLFile dagName then TrimSuffix base (Ext dagName) else base in
  let prefix := SafeName base in
  if bool_decide (prefix ≠ base) then prefix ++ "-" ++ Take 4 (sha256_hex dagName) else prefix.

Definition dagRunsDir (root : string) : string := root ++ "/dag-runs".

Definition dataRootLockOptions : LockOptions := mkLockOptions (30 * Second) (50 * Millisecond).

(** [reYear], [reMonth] and [reDay] *)
Definition is_number (w : nat) (s : string) : bool :=
  bool_decide (String.length s = w) && string_forallb is_digit s.

(** [reDAGRunDir] and the timestamp: the creation time and the identifier. *)
Definition parseRunDir (dir : string) : option (Time * string) :=
  s ← strip_prefix DAGRunDirPrefix dir;
  '(d8, s) ← take_digits 8 s;
  s ← strip_prefix "_" s;
  '(d6, s) ← take_digits 6 s;
  id ← strip_prefix "Z_" s;
  if contains_char newline id then None
  else t ← parse_dateTimeUTC d8 d6; Some (t, id).

(** [isMatchingDAGRunDir]: the characters at the places of the timestamp. *)
Definition isDAGRunTimestamp (ts : string) : bool :=
  match take_digits 8 ts with
  | Some (_, s) =>
      match strip_prefix "_" s with
      | Some s => match take_digits 6 s with Some (_, s) => String.eqb s "Z" | None => false end
      | None => false
      end
  | None => false
  end.

Definition dagRunTimestampLen : nat := 16.

Definition isMatchingDAGRunDir (dirName dagRunID : string) : bool :=
  match strip_prefix DAGRunDirPrefix dirName with
  | None => false
  | Some remainder =>
      isDAGRunTimestamp (Take dagRunTimestampLen remainder) &&
      String.eqb (String.substring dagRunTimestampLen (String.length remainder) remainder) ("_" ++ dagRunID)
  end.

(** [reAttemptDir]: the identifier of the attempt. *)
Definition parseAttemptDir (dir : string) : option string :=
  s ← strip_prefix AttemptDirPrefix dir;
  '(_, s) ← take_digits 8 s;
  s ← strip_prefix "_" s;
  '(_, s) ← take_digits 6 s;
  s ← strip_prefix "_" s;
  '(_, s) ← take_digits 3 s;
  id ← strip_prefix "Z_" s;
  if contains_char newline id then None else Some id.

Definition is_attempt_dir (dir : string) : bool := bool_decide (is_Some (parseAttemptDir dir)).

(** [ID] of an attempt, hidden or not. *)
Definition AttemptID (p : AttemptPath) : string :=
  let dir := match strip_prefix dot_prefix (ap_dir p) with Some d => d | None => ap_dir p end in
  default "" (parseAttemptDir dir).

Definition UnixMilliOf (t : Time) : Z := ((t - unixEpoch) / Millisecond)%Z.

(** [fmt.Sprintf("%03d", z)] for three digits at most. *)
Definition fmt_03d (z : Z) : string :=
  if (z <? 0)%Z then "-" ++ pad (if (- z <? 100)%Z then 2 else 3) (- z) else pad 3 z.

Definition formatAttemptTimestamp (t : Time) : string :=
  format_dateTimeUTC t ++ "_" ++ fmt_03d (Z.rem (UnixMilliOf t) 1000) ++ "Z".

Definition formatDAGRunTimestamp (t : Time) : string := format_dateTimeUTC t ++ "Z".

Definition run_path (root : string) (ts : Time) (dagRunID : string) : RunPath :=
  let '(y, m, d) := civil_from_days (ts / Day) in
  mkRunPath root (format_year y) (pad 2 m) (pad 2 d)
    (DAGRunDirPrefix ++ formatDAGRunTimestamp ts ++ "_" ++ dagRunID) None.

Section RunStore.
Context `{OS, RunEnv, Digest} (ticks : nat).

(** ** Listing *)
Fixpoint first_some {A B} (f : A → ROp (option B)) (l : list A) : ROp (option B) :=
  match l with
  | [] => ret None
  | x :: l' => let* r := f x in match r with Some b => ret (Some b) | None => first_some f l' end
  end.

(** [listDirsSorted(path, true, pattern)] *)
Definition listDirsReverse (names : RunWorld → list string) (ok : string → bool) : ROp (list string) :=
  rsys ;* gets (λ w, rev (SortStrings (filter (λ n, ok n = true) (names w)))).

Definition keys {A} (m : gmap string A) : list string := (map_to_list m).*1.

Definition year_dir (root y : string) (w : RunWorld) : YearDir := default ∅ (get_tree root w !! y).
Definition month_dir (root y m : string) (w : RunWorld) : MonthDir := default ∅ (year_dir root y w !! m).
Definition day_dir (root y m d : string) (w : RunWorld) : DayDir := default ∅ (month_dir root y m w !! d).

Definition findDAGRunInDay (root y m d dagRunID : string) : ROp (option RunPath) :=
  rsys ;*
  let* entries := gets (λ w, rev (SortStrings (keys (day_dir root y m d w)))) in
  match list_find (λ n, isMatchingDAGRunDir n dagRunID = true) entries with
  | None => ret None
  | Some (_, dir) =>
      match parseRunDir dir with
      | Some _ => ret (Some (mkRunPath root y m d dir None))
      | None => fail ErrInvalidDAGRunsDir
      end
  end.

Definition FindByDAGRunID (root dagRunID : string) : ROp RunPath :=
  let* years := listDirsReverse (λ w, keys (get_tree root w)) (is_number 4) in
  let* run := first_some (λ y,
    let* months := listDirsReverse (λ w, keys (year_dir root y w)) (is_number 2) in
    first_some (λ m,
      let* days := listDirsReverse (λ w, keys (month_dir root y m w)) (is_number 2) in
      first_some (λ d, findDAGRunInDay root y m d dagRunID) days) months) years in
  match run with
  | Some p => ret p
  | None => fail ErrDAGRunIDNotFound
  end.

(** ** Runs *)
Definition CreateDAGRun (root : string) (ts : Time) (dagRunID : string) : ROp RunPath :=
  let p := run_path root ts dagRunID in
  rsys ;*
  modify (λ w, match find_run p w with Some _ => w | None => set_run p RunDir_new w end) ;*
  match parseRunDir (rp_dir p) with
  | Some _ => ret p
  | None => fail ErrInvalidDAGRunsDir
  end.

Definition genAttemptID : ROp string :=
  rsys ;* zoom rw_fs (λ fs w, {| w with rw_fs := fs |}) fresh_token.

Definition DAGRun_CreateAttempt (p : RunPath) (ts : Time) (attemptID : string) (dag : option DAG) : ROp Attempt :=
  let* attID := (if bool_decide (attemptID = "") then genAttemptID else ret attemptID) in
  let dir := (AttemptDirPrefix ++ formatAttemptTimestamp ts ++ "_" ++ attID)%string in
  let path := mkAttemptPath p dir in
  let* r := try rsys in
  let* there := gets (find_attempt path) in
  match r, there with
  | inr _, Some _ => fail EExist
  | _, _ =>
      rsys ;* make_attempt None path ;*
      match parseAttemptDir dir with
      | Some _ => ret (NewAttemptAt path dag)
      | None => fail ErrInvalidDAGRunsDir
      end
  end.

Definition with_child (p : RunPath) (dagRunID : string) : RunPath :=
  {| p with rp_child := Some (SubDAGRunDirPrefix ++ dagRunID)%string |}.

Definition CreateSubDAGRun (p : RunPath) (dagRunID : string) : ROp RunPath :=
  let c := with_child p dagRunID in
  rsys ;*
  modify (λ w, match attempts_of c w with Some _ => w | None => set_attempts c ∅ w end) ;*
  (if contains_char newline dagRunID then fail ErrInvalidDAGRunsDir else ret c).

Definition FindSubDAGRun (p : RunPath) (dagRunID : string) : ROp RunPath :=
  let c := with_child p dagRunID in
  let* r := try rsys in
  let* there := gets (attempts_of c) in
  match r, there with
  | inr _, Some _ => if contains_char newline dagRunID then fail ErrInvalidDAGRunsDir else ret c
  | _, _ => fail ErrDAGRunIDNotFound
  end.

(** The newest attempt with a status file; hidden directories do not match the
    pattern. *)
Definition DAGRun_LatestAttempt (p : RunPath) : ROp AttemptPath :=
  let* dirs := listDirsReverse (λ w, keys (default ∅ (attempts_of p w))) is_attempt_dir in
  let* r := first_some (λ dir,
    let path := mkAttemptPath p dir in
    let* e := Exists path in
    ret (if e then Some path else None)) dirs in
  match r with
  | Some path => ret path
  | None => fail ErrNoStatusData
  end.

(** ** The store *)

(** A new lock object on the runs of the DAG, held for the operation. *)
Definition root_locked {A} (root : string) (body : ROp A) : ROp A := λ w,
  let lock := NewDirLock (dagRunsDir root) (Some dataRootLockOptions) in
  let '(r, (fs, l)) := Lock ticks (rw_fs w, lock) in
  match r with
  | inl e => (inl e, {| w with rw_fs := fs |})
  | inr _ =>
      let '(r, w1) := body {| w with rw_fs := fs |} in
      let '(_, (fs2, _)) := Unlock (rw_fs w1, l) in
      (r, {| w1 with rw_fs := fs2 |})
  end.

Definition FindAttempt (ref : DAGRunRef) : ROp AttemptPath :=
  if bool_decide (ref_ID ref = "") then fail ErrDAGRunIDEmpty
  else
    let* run := FindByDAGRunID (dataRootPrefix (ref_Name ref)) (ref_ID ref) in
    DAGRun_LatestAttempt run.

Definition FindSubAttempt (ref : DAGRunRef) (subDAGRunID : string) : ROp AttemptPath :=
  if bool_decide (ref_ID ref = "") then fail ErrDAGRunIDEmpty
  else
    let* run := FindByDAGRunID (dataRootPrefix (ref_Name ref)) (ref_ID ref) in
    let* sub := FindSubDAGRun run subDAGRunID in
    DAGRun_LatestAttempt sub.

(** Change the object and write it, unless the change returned an error; the file is
    closed, and with it the cache entry dropped, whatever happened. *)
Definition swap_status (p : AttemptPath) (l : nat) (mutate : DAGRunStatus → option Err * DAGRunStatus) : ROp (nat * bool) :=
  with_attempt (NewAttemptAt p None) (
    Attempt_Open ;*
    let* s := on_world (deref l) in
    on_world (store_at l (mutate s).2) ;*
    let* r := match (mutate s).1 with
              | Some e => ret (inl e)
              | None => try (Attempt_Write (mutate s).2)
              end in
    ignore Attempt_Close ;*
    match r with
    | inl e => fail e
    | inr _ => ret (l, true)
    end).

(** The status object, which is nil with an error only, and whether it was
    swapped; [mutate] changes the object that [ReadStatus] returned, and may return an
    error. *)
Definition CompareAndSwapLatestAttemptStatus (dagRun : DAGRunRef) (expectedAttemptID : string)
    (expectedStatus : Status) (mutate : DAGRunStatus → option Err * DAGRunStatus) : ROp (nat * bool) :=
  if bool_decide (ref_ID dagRun = "") then fail ErrDAGRunIDEmpty
  else
    let root := dataRootPrefix (ref_Name dagRun) in
    root_locked root (
      let* run := FindByDAGRunID root (ref_ID dagRun) in
      let* p := DAGRun_LatestAttempt run in
      let* l := ReadStatus p in
      let* status := deref l in
      if bool_decide (expectedAttemptID ≠ "") && bool_decide (rs_AttemptID status ≠ expectedAttemptID)
      then ret (l, false)
      else if bool_decide (rs_Status status ≠ expectedStatus) then ret (l, false)
      else swap_status p l mutate).

Record NewDAGRunAttemptOptions := mkNewDAGRunAttemptOptions {
  na_RootDAGRun : option DAGRunRef;
  na_Retry : bool;
  na_AttemptID : string;
}.

Definition newChildRecord (dag : DAG) (ts : Time) (dagRunID : string) (opts : NewDAGRunAttemptOptions)
    (rootRef : DAGRunRef) : ROp Attempt :=
  let* root := FindByDAGRunID (dataRootPrefix (ref_Name rootRef)) (ref_ID rootRef) in
  let* run := (if na_Retry opts then FindSubDAGRun root dagRunID else CreateSubDAGRun root dagRunID) in
  DAGRun_CreateAttempt run ts (na_AttemptID opts) (Some dag).

Definition CreateAttempt (dag : DAG) (ts : Time) (dagRunID : string) (opts : NewDAGRunAttemptOptions) : ROp Attempt :=
  if bool_decide (dagRunID = "") then fail ErrDAGRunIDEmpty
  else
    match na_RootDAGRun opts with
    | Some rootRef => newChildRecord dag ts dagRunID opts rootRef
    | None =>
        let root := dataRootPrefix (dag_Name dag) in
        root_locked root (
          let* run :=
            (if na_Retry opts then FindByDAGRunID root dagRunID
             else
               let* existing := try (FindByDAGRunID root dagRunID) in
               match existing with
               | inr _ => fail ErrDAGRunAlreadyExists
               | inl _ => CreateDAGRun root ts dagRunID
               end) in
          DAGRun_CreateAttempt run ts (na_AttemptID opts) (Some dag))
    end.

Definition CreateSubAttempt (rootRef : DAGRunRef) (subDAGRunID : string) : ROp Attempt :=
  if bool_decide (ref_ID rootRef = "") then fail ErrDAGRunIDEmpty
  else
    let root := dataRootPrefix (ref_Name rootRef) in
    root_locked root (
      let* run := FindByDAGRunID root (ref_ID rootRef) in
      let* sub := CreateSubDAGRun run subDAGRunID in
      let* ts := rnow in
      DAGRun_CreateAttempt sub ts "" None).

(** [os.RemoveAll] of a run directory. *)
Definition remove_run (p : RunPath) : ROp unit :=
  rsys ;*
  modify (λ w,
    let years := get_tree (rp_root p) w in
    let months := default ∅ (years !! rp_year p) in
    let days := default ∅ (months !! rp_month p) in
    match days !! rp_day p with
    | None => w
    | Some runs =>
        {| w with rw_trees :=
             <[rp_root p := <[rp_year p := <[rp_month p := <[rp_day p := delete (rp_dir p) runs]> days]> months]> years]>
               (rw_trees w) |}
    end).

Definition RemoveDAGRun (dagRun : DAGRunRef) (rejectActive : bool) : ROp unit :=
  if bool_decide (ref_ID dagRun = "") then fail ErrDAGRunIDEmpty
  else
    let root := dataRootPrefix (ref_Name dagRun) in
    root_locked root (
      let* run := FindByDAGRunID root (ref_ID dagRun) in
      (if rejectActive then
         let* p := DAGRun_LatestAttempt run in
         let* l := ReadStatus p in
         let* status := deref l in
         if Status_IsActive (rs_Status status) then fail ErrDAGRunActive else ret tt
       else ret tt) ;*
      remove_run run).
End RunStore.
