(* ===== verification/RunLife.v ===== *)
(** * Retrying, cancelling, aborting and repairing runs (core/exec/enqueue_retry.go,
    failed_auto_retry_cancel.go, queue_abort.go, queued_status.go,
    runtime/stale_run.go)

    These operations combine the store of runs with the queue.  The state has
    both; each of the two stores has its own system calls ([osr] for the runs,
    [osq] for the queue), so that either can fail alone.

    A status is passed as the pointer to its object ([RunFiles]): the callbacks
    that undo a change read the caller's object when they run. *)

From stdpp Require Import base strings list gmap.
From Stdlib Require Import ZArith Lia Ascii.
From S2P Require Import Prelude Status Step GoStrings RunStatus Catchup FileSys DirLock QueueFile QueueStore RunFiles RunStore.

Open Scope op_scope.

(** [Time.Format] with [time.RFC3339], in the local zone and in UTC, and its parser. *)
Class TimeText := {
  FormatRFC3339 : Time → string;
  FormatUTC : Time → string;
  parseTimeRFC3339 : string → option Time;
}.

(** stringutil.go: the zero time is the empty text. *)
Definition FormatTime `{TimeText} (t : Time) : string := if IsZero t then "" else FormatRFC3339 t.

(** The same, for a time that was brought to UTC first. *)
Definition FormatTimeUTC `{TimeText} (t : Time) : string := if IsZero t then "" else FormatUTC t.

(** ** queued_status.go *)
Definition IsQueuedCatchup (status : option DAGRunStatus) : bool :=
  match status with
  | None => false
  | Some st => bool_decide (rs_Status st = Queued) && bool_decide (rs_TriggerType st = TriggerTypeCatchUp)
  end.

Definition PreservedQueueTriggerType (status : option DAGRunStatus) : TriggerType :=
  if IsQueuedCatchup status then TriggerTypeCatchUp else TriggerTypeUnknown.

(** ** failed_auto_retry_cancel.go: eligibility *)
Inductive FailedAutoRetryCancelEligibility :=
  | FailedAutoRetryCancelEligible
  | FailedAutoRetryCancelMissingStatus
  | FailedAutoRetryCancelNotRoot
  | FailedAutoRetryCancelNotPending.

#[export] Instance FailedAutoRetryCancelEligibility_eq_dec : EqDecision FailedAutoRetryCancelEligibility.
Proof. solve_decision. Defined.

Definition FailedAutoRetryCancelEligibilityOf (status : option DAGRunStatus) : FailedAutoRetryCancelEligibility :=
  match status with
  | None => FailedAutoRetryCancelMissingStatus
  | Some st =>
      if bool_decide (rs_Status st ≠ Failed) then FailedAutoRetryCancelNotPending
      else if negb (Zero (rs_Parent st)) then FailedAutoRetryCancelNotRoot
      else if (rs_AutoRetryLimit st <=? 0)%Z || (rs_AutoRetryLimit st <=? rs_AutoRetryCount st)%Z
      then FailedAutoRetryCancelNotPending
      else FailedAutoRetryCancelEligible
  end.

Definition CanCancelFailedAutoRetryPendingRun (status : option DAGRunStatus) : bool :=
  bool_decide (FailedAutoRetryCancelEligibilityOf status = FailedAutoRetryCancelEligible).

(** ** enqueue_retry.go: the callbacks *)
Definition retryProcGroup (dag : option DAG) (status : option DAGRunStatus) : string :=
  match status with
  | Some st =>
      if bool_decide (rs_ProcGroup st ≠ "") then rs_ProcGroup st
      else match dag with Some d => ProcGroup d | None => rs_Name st end
  | None => match dag with Some d => ProcGroup d | None => "" end
  end.

(** The change to [Queued]; [root] is the root the caller's status has. *)
Definition mark_queued (queuedAt : string) (autoRetry : bool) (root : DAGRunRef) (latest : DAGRunStatus) : DAGRunStatus :=
  {| latest with
     rs_Status := Queued;
     rs_QueuedAt := queuedAt;
     rs_TriggerType := TriggerTypeRetry;
     rs_AutoRetryCount := if autoRetry then (rs_AutoRetryCount latest + 1)%Z else rs_AutoRetryCount latest;
     rs_Root := if Zero (rs_Root latest) && negb (Zero root) then root else rs_Root latest |}.

(** What a rollback takes back from the caller's status. *)
Definition restore_from (status latest : DAGRunStatus) : DAGRunStatus :=
  {| latest with
     rs_Status := rs_Status status;
     rs_QueuedAt := rs_QueuedAt status;
     rs_TriggerType := rs_TriggerType status;
     rs_AutoRetryCount := rs_AutoRetryCount status |}.

Definition abort_queued (finishedAt : string) (latest : DAGRunStatus) : DAGRunStatus :=
  {| latest with
     rs_Status := Aborted;
     rs_FinishedAt := finishedAt;
     rs_WorkerID := "";
     rs_PID := 0%Z;
     rs_LeaseAt := 0%Z |}.

(** ** stale_run.go: the repaired status *)
Definition staleLocalRunError : string :=
  "process terminated unexpectedly - stale local process detected".

Definition failNode (reason finishedAt : string) (n : ExecNode) : ExecNode :=
  match en_Status n with
  | NodeRunning | NodeNotStarted | NodeRetrying | NodeWaiting =>
      {| n with en_Status := NodeFailed; en_FinishedAt := finishedAt; en_Error := reason |}
  | NodeFailed | NodeAborted | NodeSucceeded | NodeSkipped | NodePartiallySucceeded | NodeRejected => n
  end.

Definition markActiveStatusFailed (status : DAGRunStatus) (reason finishedAt : string) : DAGRunStatus :=
  {| status with
     rs_Status := Failed;
     rs_FinishedAt := finishedAt;
     rs_Error := reason;
     rs_Nodes := map (failNode reason finishedAt) (rs_Nodes status) |}.

Definition is_local_worker (workerID : string) : bool :=
  bool_decide (workerID = "") || bool_decide (workerID = "local").

Section RunLife.
Context (osr osq : OS) `{RunEnv, Digest, TimeText} (ticks : nat).

#[local] Existing Instance osr.

Abbreviation Sys := (RunWorld * (FS Content * Store))%type.
Abbreviation LOp A := (Op Sys A).

Definition on_runs {A} (m : ROp A) : LOp A := zoom fst (λ w s, (w, s.2)) m.
Definition on_queue {A} (m : Op (FS Content * Store) A) : LOp A := zoom snd (λ q s, (s.1, q)) m.

(** A swap whose change does not fail. *)
Definition CAS (dagRun : DAGRunRef) (expectedAttemptID : string) (expectedStatus : Status) (mutate : DAGRunStatus → DAGRunStatus)
    : ROp (nat * bool) :=
  CompareAndSwapLatestAttemptStatus ticks dagRun expectedAttemptID expectedStatus (λ s, (None, mutate s)).

(** ** enqueue_retry.go *)
Definition undo_queued (dagRun : DAGRunRef) (attemptID : string) (status : nat) : LOp unit :=
  let* st := on_runs (deref status) in
  ignore (on_runs (CAS dagRun attemptID Queued (restore_from st))).

(** After the swap: the item is pushed, or the swap undone; [u] and [updated] are
    the updated object and what it holds. *)
Definition push_retry (dag : option DAG) (dagRun : DAGRunRef) (status : nat) (u : nat) (updated : DAGRunStatus)
    (OnQueued : option (nat → LOp unit)) : LOp unit :=
  let procGroup := retryProcGroup dag (Some updated) in
  if bool_decide (procGroup = "") then undo_queued dagRun (rs_AttemptID updated) status ;* fail ErrProcGroupEmpty
  else
    let* r := try (on_queue (@Enqueue osq procGroup QueuePriorityLow dagRun)) in
    match r with
    | inl e => undo_queued dagRun (rs_AttemptID updated) status ;* fail e
    | inr _ => match OnQueued with Some f => f u | None => ret tt end
    end.

(** [status] is the caller's object; [OnQueued] gets the updated one. *)
Definition EnqueueRetry (dag : option DAG) (status : nat) (autoRetry : bool)
    (OnQueued : option (nat → LOp unit)) : LOp unit :=
  let* st := on_runs (deref status) in
  if bool_decide (rs_Status st = Queued) then ret tt
  else
    let* t := on_runs rnow in
    let* '(updatedStatus, swapped) :=
      on_runs (CAS (status_DAGRun st) (rs_AttemptID st) (rs_Status st)
                 (mark_queued (FormatTime t) autoRetry (rs_Root st))) in
    let* updated := on_runs (deref updatedStatus) in
    if (swapped : bool) then push_retry dag (status_DAGRun st) status updatedStatus updated OnQueued
    else if bool_decide (rs_Status updated = Queued) then ret tt else fail ErrRetryStaleLatest.

(** ** failed_auto_retry_cancel.go *)
Definition CancelFailedAutoRetryPendingRun (status : nat) : LOp unit :=
  let* st := on_runs (deref status) in
  if negb (CanCancelFailedAutoRetryPendingRun (Some st)) then fail ErrAutoRetryNotEligible
  else
    let* '(_, swapped) := on_runs (CAS (status_DAGRun st) (rs_AttemptID st) Failed
                             (λ latest, {| latest with rs_Status := Aborted |})) in
    if (swapped : bool) then ret tt else fail ErrAutoRetryStateChanged.

(** ** queue_abort.go *)
Definition AbortQueuedDAGRun (dagRun : DAGRunRef) : LOp unit :=
  let* p := on_runs (FindAttempt dagRun) in
  let* l := on_runs (ReadStatus p) in
  let* st := on_runs (deref l) in
  if bool_decide (rs_Status st ≠ Queued) then fail ErrNotQueued
  else
    let* t := on_runs rnow in
    let* '(_, swapped) := on_runs (CAS dagRun (AttemptID p) Queued (abort_queued (FormatUTC t))) in
    if negb swapped then fail ErrNotQueued
    else
      on_runs (Hide (NewAttemptAt p None)) ;*
      let* r := try (on_runs (FindAttempt dagRun)) in
      match r with
      | inl ErrNoStatusData => on_runs (RemoveDAGRun ticks dagRun false)
      | inl e => fail e
      | inr _ => ret tt
      end.

(** ** stale_run.go *)
Definition writeAttemptStatus (p : AttemptPath) (s : DAGRunStatus) : ROp unit :=
  with_attempt (NewAttemptAt p None) (
    Attempt_Open ;*
    let* r := try (Attempt_Write s) in
    ignore Attempt_Close ;*
    match r with inl e => fail e | inr _ => ret tt end).

(** The status and whether it was repaired. *)
Definition RepairStaleLocalRun (p : AttemptPath) (dag : option DAG) : ROp (DAGRunStatus * bool) :=
  let* l := ReadStatus p in
  let* st := deref l in
  if negb (Status_IsActive (rs_Status st)) || negb (is_local_worker (rs_WorkerID st)) then ret (st, false)
  else
    let* nodes :=
      match rs_Nodes st with
      | [] => match dag with
              | None => fail ErrDAGRequired
              | Some d => ret (NewNodesFromSteps (dag_Steps d))
              end
      | ns => ret ns
      end in
    let* t := rnow in
    let repaired := markActiveStatusFailed {| st with rs_Nodes := nodes |} staleLocalRunError (FormatTime t) in
    writeAttemptStatus p repaired ;*
    ret (repaired, true).
End RunLife.
