(* ===== verification/RunStoreLaws.v ===== *)
(** * Laws of the store of runs

    Finding a run and its latest attempt reads the names of directories and
    which attempts have a status file, and changes nothing ([pure_op]).  A cache
    is coherent when an entry that is not stale points to the last status of its
    file; reading keeps it coherent, and so does a swap, which changes the object
    it was given and drops the entry of its file. *)

From stdpp Require Import base strings list gmap sorting.
From Stdlib Require Import ZArith Lia Ascii.
From S2P Require Import Prelude Status GoStrings GoDate RunStatus Catchup FileSys DirLock DirLockLaws QueueName RunFiles RunStore.

Open Scope op_scope.

(** ** What finding an attempt looks at *)
Definition att_shape (a : AttemptDir) : bool := bool_decide (is_Some (ad_status a)).

Definition RunShape : Type := gmap string bool * gmap string (gmap string bool).
Definition atts_shape (m : gmap string AttemptDir) : gmap string bool := att_shape <$> m.
Definition run_shape (r : RunDir) : RunShape := (atts_shape (rd_attempts r), atts_shape <$> rd_children r).

Definition day_shape (d : DayDir) : gmap string RunShape := run_shape <$> d.
Definition month_shape (m : MonthDir) : gmap string (gmap string RunShape) := day_shape <$> m.
Definition year_shape (y : YearDir) : gmap string (gmap string (gmap string RunShape)) := month_shape <$> y.
Definition tree_shape (t : Tree) : gmap string (gmap string (gmap string (gmap string RunShape))) := year_shape <$> t.
Definition shape (w : RunWorld) : gmap string (gmap string (gmap string (gmap string (gmap string RunShape)))) :=
  tree_shape <$> rw_trees w.

Lemma shape_tree root w : tree_shape (get_tree root w) = default ∅ (shape w !! root).
Proof. unfold shape, get_tree. rewrite lookup_fmap. destruct (rw_trees w !! root); [done|]. apply fmap_empty. Qed.
Lemma shape_year root y w : year_shape (year_dir root y w) = default ∅ (tree_shape (get_tree root w) !! y).
Proof. unfold tree_shape, year_dir. rewrite lookup_fmap. destruct (_ !! y); [done|]. apply fmap_empty. Qed.
Lemma shape_month root y m w : month_shape (month_dir root y m w) = default ∅ (year_shape (year_dir root y w) !! m).
Proof. unfold year_shape, month_dir. rewrite lookup_fmap. destruct (_ !! m); [done|]. apply fmap_empty. Qed.
Lemma shape_day root y m d w :
  day_shape (day_dir root y m d w) = default ∅ (month_shape (month_dir root y m w) !! d).
Proof. unfold month_shape, day_dir. rewrite lookup_fmap. destruct (_ !! d); [done|]. apply fmap_empty. Qed.

Lemma find_run_day p w : find_run p w = day_dir (rp_root p) (rp_year p) (rp_month p) (rp_day p) w !! rp_dir p.
Proof.
  unfold find_run, day_dir, month_dir, year_dir.
  destruct (get_tree _ _ !! _) as [ms|]; simpl; [|by rewrite !lookup_empty].
  destruct (ms !! _) as [ds|]; simpl; [|by rewrite !lookup_empty].
  destruct (ds !! _) as [rs|]; simpl; [done|by rewrite lookup_empty].
Qed.

(** The shape of the attempts of a run. *)
Definition attempts_shape (p : RunPath) (w : RunWorld) : gmap string bool :=
  att_shape <$> default ∅ (attempts_of p w).

Lemma sorted_keys {A B} (f : A → B) (m : gmap string A) ok :
  SortStrings (filter (λ n, ok n = true) (keys (f <$> m))) = SortStrings (filter (λ n, ok n = true) (keys m)).
Proof.
  apply SortStrings_perm. apply filter_Permutation. unfold keys. rewrite map_to_list_fmap, <-list_fmap_compose.
  done.
Qed.

Lemma same_shape_year root y w1 w2 :
  shape w1 = shape w2 → year_shape (year_dir root y w1) = year_shape (year_dir root y w2).
Proof. intros E. by rewrite !shape_year, !shape_tree, E. Qed.
Lemma same_shape_month root y m w1 w2 :
  shape w1 = shape w2 → month_shape (month_dir root y m w1) = month_shape (month_dir root y m w2).
Proof. intros E. by rewrite !shape_month, (same_shape_year root y w1 w2 E). Qed.
Lemma same_shape_day root y m d w1 w2 :
  shape w1 = shape w2 → day_shape (day_dir root y m d w1) = day_shape (day_dir root y m d w2).
Proof. intros E. by rewrite !shape_day, (same_shape_month root y m w1 w2 E). Qed.

Lemma same_shape_run p w1 w2 : shape w1 = shape w2 → run_shape <$> find_run p w1 = run_shape <$> find_run p w2.
Proof.
  intros E. rewrite !find_run_day.
  assert (∀ w, run_shape <$> day_dir (rp_root p) (rp_year p) (rp_month p) (rp_day p) w !! rp_dir p =
    day_shape (day_dir (rp_root p) (rp_year p) (rp_month p) (rp_day p) w) !! rp_dir p) as Hd
    by (intros w; unfold day_shape; by rewrite lookup_fmap).
  by rewrite !Hd, (same_shape_day _ _ _ _ w1 w2 E).
Qed.

Lemma same_shape_attempts p w1 w2 :
  shape w1 = shape w2 → atts_shape <$> attempts_of p w1 = atts_shape <$> attempts_of p w2.
Proof.
  intros E%(same_shape_run p). unfold attempts_of.
  destruct (find_run p w1) as [r1|], (find_run p w2) as [r2|]; simpl in E; try done.
  injection E as [= Ea Ec]. simpl. destruct (rp_child p) as [c|]; simpl; [|by rewrite Ea].
  by rewrite <-!lookup_fmap, Ec.
Qed.

Lemma same_shape_attempts_shape p w1 w2 : shape w1 = shape w2 → attempts_shape p w1 = attempts_shape p w2.
Proof.
  intros E%(same_shape_attempts p). unfold attempts_shape.
  destruct (attempts_of p w1), (attempts_of p w2); simpl in E; try done. by injection E.
Qed.

Lemma status_of_shape p w : bool_decide (is_Some (status_of p w)) = default false (attempts_shape (ap_run p) w !! ap_dir p).
Proof.
  unfold status_of, find_attempt, attempts_shape. rewrite lookup_fmap.
  destruct (attempts_of (ap_run p) w) as [m|]; simpl; [|done].
  by destruct (m !! ap_dir p) as [a|].
Qed.

(** ** Operations that change nothing but the call counter *)
Definition quiet (w w' : RunWorld) : Prop :=
  rw_trees w' = rw_trees w ∧ rw_heap w' = rw_heap w ∧ rw_cache w' = rw_cache w ∧
  fs_dirs (rw_fs w') = fs_dirs (rw_fs w) ∧ (fs_calls (rw_fs w) <= fs_calls (rw_fs w'))%nat.

#[export] Instance quiet_preorder : PreOrder quiet.
Proof.
  split; [done|]. intros w1 w2 w3 (A1 & A2 & A3 & A4 & A5) (B1 & B2 & B3 & B4 & B5).
  split_and!; [congruence..|lia].
Qed.

Lemma quiet_shape w w' : quiet w w' → shape w' = shape w.
Proof. intros (E & _). unfold shape. by rewrite E. Qed.

(** Read-only, with a result that depends on the shape only. *)
Definition pure_op {A} (m : ROp A) : Prop :=
  ∀ w, quiet w (m w).2 ∧ ∀ w2, shape w2 = shape w → (m w2).1 = (m w).1.

Section Pure.
Context `{OS, RunEnv, Digest} (Hok : ∀ n, SysOk n = true).

Lemma rsys_eq w : rsys w = (inr tt, {| w with rw_fs := tick (rw_fs w) |}).
Proof using Hok. unfold rsys, zoom, syscall. by rewrite Hok. Qed.
Lemma rcall_eq w : rcall w = (inr (fs_calls (rw_fs w)), {| w with rw_fs := tick (rw_fs w) |}).
Proof. done. Qed.
Lemma rnow_eq w : rnow w = (inr (Now (fs_calls (rw_fs w))), {| w with rw_fs := tick (rw_fs w) |}).
Proof. done. Qed.

Lemma quiet_tick w : quiet w {| w with rw_fs := tick (rw_fs w) |}.
Proof. split_and!; simpl; try done. lia. Qed.

Lemma pure_rsys : pure_op rsys.
Proof using Hok. intros w. split; [rewrite rsys_eq; apply quiet_tick|]. intros w2 _. by rewrite !rsys_eq. Qed.
Lemma pure_ret {A} (a : A) : pure_op (ret a).
Proof. by intros w. Qed.
Lemma pure_fail {A} e : pure_op (fail (A := A) e).
Proof. by intros w. Qed.
Lemma pure_gets {A} (f : RunWorld → A) : (∀ w w2, shape w2 = shape w → f w2 = f w) → pure_op (gets f).
Proof. intros Hf w. split; [done|]. intros w2 E. unfold gets. simpl. by rewrite (Hf w w2 E). Qed.

Lemma pure_bind {A B} (m : ROp A) (k : A → ROp B) : pure_op m → (∀ a, pure_op (k a)) → pure_op (bind m k).
Proof.
  intros Hm Hk w. destruct (Hm w) as [Hq Hr]. split.
  - unfold bind. destruct (m w) as [[e|a] w1]; [done|]. simpl in *. etrans; [exact Hq|apply Hk].
  - intros w2 E. specialize (Hr w2 E). destruct (Hm w2) as [Hq2 _]. unfold bind.
    destruct (m w) as [r w1], (m w2) as [r2 w3]. simpl in *. subst r2. destruct r as [e|a]; [done|].
    apply (Hk a w1). by rewrite (quiet_shape _ _ Hq), (quiet_shape _ _ Hq2).
Qed.

Lemma pure_try {A} (m : ROp A) : pure_op m → pure_op (try m).
Proof.
  intros Hm w. destruct (Hm w) as [Hq Hr]. split; [unfold try; by destruct (m w)|]. intros w2 E.
  specialize (Hr w2 E). unfold try. destruct (m w), (m w2). simpl in *. by subst.
Qed.

Lemma pure_first_some {A B} (f : A → ROp (option B)) l : (∀ x, pure_op (f x)) → pure_op (first_some f l).
Proof.
  intros Hf. induction l as [|x l IH]; [apply pure_ret|]. simpl. apply pure_bind; [done|].
  intros [b|]; [apply pure_ret|done].
Qed.

Lemma pure_listDirs names ok :
  (∀ w w2, shape w2 = shape w → SortStrings (filter (λ n, ok n = true) (names w2)) =
     SortStrings (filter (λ n, ok n = true) (names w))) →
  pure_op (listDirsReverse names ok).
Proof using Hok.
  intros Hn. apply pure_bind; [apply pure_rsys|]. intros _. apply pure_gets. intros w w2 E. by rewrite (Hn w w2 E).
Qed.

Lemma sorted_keys_shape {A B} (f : A → B) (m1 m2 : gmap string A) ok :
  f <$> m2 = f <$> m1 →
  SortStrings (filter (λ n, ok n = true) (keys m2)) = SortStrings (filter (λ n, ok n = true) (keys m1)).
Proof. intros E. by rewrite <-(sorted_keys f m1), <-(sorted_keys f m2), E. Qed.

Lemma pure_find_in_day root y m d id : pure_op (findDAGRunInDay root y m d id).
Proof using Hok.
  apply pure_bind; [apply pure_rsys|]. intros _. apply pure_bind.
  - apply pure_gets. intros w w2 E. f_equal.
    pose proof (sorted_keys_shape run_shape (day_dir root y m d w) (day_dir root y m d w2) (λ _, true)) as Hs.
    rewrite !filter_all in Hs by done. apply Hs. by apply same_shape_day.
  - intros l. destruct (list_find _ l) as [[i dir]|]; [|apply pure_ret].
    destruct (parseRunDir dir); [apply pure_ret|apply pure_fail].
Qed.

Lemma pure_FindByDAGRunID root id : pure_op (FindByDAGRunID root id).
Proof using Hok.
  apply pure_bind.
  - apply pure_listDirs. intros w w2 E. apply (sorted_keys_shape year_shape).
    change (year_shape <$> get_tree root w2) with (tree_shape (get_tree root w2)).
    change (year_shape <$> get_tree root w) with (tree_shape (get_tree root w)). by rewrite !shape_tree, E.
  - intros years. apply pure_bind.
    + apply pure_first_some. intros y. apply pure_bind.
      { apply pure_listDirs. intros w w2 E. by apply (sorted_keys_shape month_shape), same_shape_year. }
      intros months. apply pure_first_some. intros m. apply pure_bind.
      { apply pure_listDirs. intros w w2 E. by apply (sorted_keys_shape day_shape), same_shape_month. }
      intros days. apply pure_first_some. intros d. apply pure_find_in_day.
    + intros [p|]; [apply pure_ret|apply pure_fail].
Qed.

Lemma pure_LatestAttempt p : pure_op (DAGRun_LatestAttempt p).
Proof using Hok.
  apply pure_bind.
  - apply pure_listDirs. intros w w2 E. by apply (sorted_keys_shape att_shape), same_shape_attempts_shape.
  - intros dirs. apply pure_bind.
    + apply pure_first_some. intros dir. apply pure_bind; [|intros e; apply pure_ret].
      intros w. unfold Exists. split.
      * unfold bind, try. rewrite rsys_eq. simpl. apply quiet_tick.
      * intros w2 E. unfold bind, try. rewrite !rsys_eq. simpl. unfold gets, ret. simpl.
        change (status_of _ {| w2 with rw_fs := tick (rw_fs w2) |}) with (status_of (mkAttemptPath p dir) w2).
        change (status_of _ {| w with rw_fs := tick (rw_fs w) |}) with (status_of (mkAttemptPath p dir) w).
        pose proof (status_of_shape (mkAttemptPath p dir) w) as Hs1.
        pose proof (status_of_shape (mkAttemptPath p dir) w2) as Hs2. simpl in Hs1, Hs2.
        rewrite (same_shape_attempts_shape p w2 w E), <-Hs1 in Hs2.
        destruct (status_of _ w2), (status_of _ w); simpl in Hs2; done.
    + intros [p'|]; [apply pure_ret|apply pure_fail].
Qed.

Lemma pure_FindAttempt ref : pure_op (FindAttempt ref).
Proof using Hok.
  unfold FindAttempt. case_bool_decide; [apply pure_fail|].
  apply pure_bind; [apply pure_FindByDAGRunID|apply pure_LatestAttempt].
Qed.
End Pure.

(** ** Files after updates *)
Lemma find_run_set p p' r w :
  find_run p' (set_run p r w) =
  if bool_decide ({| p' with rp_child := None |} = {| p with rp_child := None |}) then Some r else find_run p' w.
Proof.
  rewrite !find_run_day. destruct p as [a b c d e ch], p' as [a' b' c' d' e' ch'].
  unfold day_dir, month_dir, year_dir, get_tree, set_run. simpl.
  destruct (decide (a' = a)) as [->|Ha]; [|rewrite lookup_insert_ne by done; by rewrite bool_decide_false by congruence].
  rewrite lookup_insert_eq. simpl.
  destruct (decide (b' = b)) as [->|Hb]; [|rewrite lookup_insert_ne by done; by rewrite bool_decide_false by congruence].
  rewrite lookup_insert_eq. simpl.
  destruct (decide (c' = c)) as [->|Hc]; [|rewrite lookup_insert_ne by done; by rewrite bool_decide_false by congruence].
  rewrite lookup_insert_eq. simpl.
  destruct (decide (d' = d)) as [->|Hd]; [|rewrite lookup_insert_ne by done; by rewrite bool_decide_false by congruence].
  rewrite lookup_insert_eq. simpl.
  destruct (decide (e' = e)) as [->|He]; [|rewrite lookup_insert_ne by done; by rewrite bool_decide_false by congruence].
  rewrite lookup_insert_eq. by rewrite bool_decide_true.
Qed.

Lemma find_run_child p ch w : find_run {| p with rp_child := ch |} w = find_run p w.
Proof. done. Qed.

Lemma attempts_set p p' m w :
  is_Some (find_run p w) →
  attempts_of p' (set_attempts p m w) = if bool_decide (p' = p) then Some m else attempts_of p' w.
Proof.
  intros [r Hr]. unfold attempts_of, set_attempts. rewrite find_run_set, Hr. simpl.
  destruct p as [a b c d e ch], p' as [a' b' c' d' e' ch']. simpl in *. case_bool_decide as E2.
  - injection E2 as -> -> -> -> ->. change (find_run _ w) with (find_run (mkRunPath a b c d e ch) w). rewrite Hr.
    simpl. destruct ch as [c1|], ch' as [c2|]; simpl; try by rewrite ?bool_decide_false by congruence.
    + destruct (decide (c2 = c1)) as [->|Hne].
      * by rewrite bool_decide_true, lookup_insert_eq by done.
      * by rewrite bool_decide_false, lookup_insert_ne by congruence.
    + by rewrite bool_decide_true by done.
  - by rewrite bool_decide_false by congruence.
Qed.

(** An attempt that is there is replaced, the others are kept. *)
Lemma find_put_attempt p q a w :
  is_Some (find_attempt p w) →
  find_attempt q (put_attempt p a w) = if bool_decide (q = p) then Some a else find_attempt q w.
Proof.
  intros [a0 Ha]. unfold find_attempt, put_attempt in *.
  destruct (attempts_of (ap_run p) w) as [m|] eqn:Hm; [|done]. simpl in *.
  assert (is_Some (find_run (ap_run p) w)) as Hr.
  { unfold attempts_of in Hm. by destruct (find_run (ap_run p) w). }
  rewrite attempts_set by done.
  destruct p as [rp dp], q as [rq dq]. simpl in *. destruct (decide (rq = rp)) as [->|Hne].
  - rewrite bool_decide_true by done. simpl. destruct (decide (dq = dp)) as [->|Hd].
    + by rewrite bool_decide_true, lookup_insert_eq by done.
    + rewrite bool_decide_false by congruence. rewrite lookup_insert_ne by done. by rewrite Hm.
  - by rewrite !bool_decide_false by congruence.
Qed.

Lemma status_put_status p q f w :
  is_Some (find_attempt p w) →
  status_of q (put_status p f w) = if bool_decide (q = p) then Some f else status_of q w.
Proof. intros Ha. unfold status_of, put_status. rewrite find_put_attempt by done. by case_bool_decide. Qed.

Lemma status_find p w f : status_of p w = Some f → is_Some (find_attempt p w).
Proof. unfold status_of. by destruct (find_attempt p w). Qed.

(** Replacing what a run holds without changing its shape. *)
Lemma shape_set_run p r r0 w : find_run p w = Some r0 → run_shape r = run_shape r0 → shape (set_run p r w) = shape w.
Proof.
  unfold find_run, set_run, shape. intros Hf Hs. unfold get_tree in *.
  destruct (rw_trees w !! rp_root p) as [years|] eqn:E0; simpl in *; [|by rewrite lookup_empty in Hf].
  destruct (years !! rp_year p) as [months|] eqn:E1; [|done]. simpl in *.
  destruct (months !! rp_month p) as [days|] eqn:E2; [|done]. simpl in *.
  destruct (days !! rp_day p) as [runs|] eqn:E3; [|done]. simpl in *.
  rewrite fmap_insert. apply insert_id. rewrite lookup_fmap, E0. simpl. f_equal. symmetry.
  unfold tree_shape. rewrite fmap_insert. apply insert_id. rewrite lookup_fmap, E1. simpl. f_equal. symmetry.
  unfold year_shape. rewrite fmap_insert. apply insert_id. rewrite lookup_fmap, E2. simpl. f_equal. symmetry.
  unfold month_shape. rewrite fmap_insert. apply insert_id. rewrite lookup_fmap, E3. simpl. f_equal. symmetry.
  unfold day_shape. rewrite fmap_insert. apply insert_id. rewrite lookup_fmap, Hf. simpl. by rewrite Hs.
Qed.

Lemma shape_put_status p f w : is_Some (status_of p w) → shape (put_status p f w) = shape w.
Proof.
  unfold status_of, find_attempt, put_status, put_attempt, set_attempts. intros [f0 Hf].
  destruct (attempts_of (ap_run p) w) as [m|] eqn:Hm; [|done]. simpl in *.
  destruct (m !! ap_dir p) as [a|] eqn:Ha; [|done]. simpl in *.
  unfold find_attempt. rewrite Hm. simpl. rewrite Ha. simpl.
  assert (atts_shape (<[ap_dir p := {| a with ad_status := Some f |}]> m) = atts_shape m) as Hsh.
  { unfold atts_shape. rewrite fmap_insert. apply insert_id. rewrite lookup_fmap, Ha. simpl. unfold att_shape.
    simpl. by rewrite Hf. }
  unfold attempts_of in Hm. destruct (find_run (ap_run p) w) as [r|] eqn:Hr; [|done]. simpl in *.
  apply (shape_set_run _ _ r); [done|]. destruct (rp_child (ap_run p)) as [c|].
  - unfold run_shape. simpl. f_equal. rewrite fmap_insert, Hsh. apply insert_id. by rewrite lookup_fmap, Hm.
  - injection Hm as <-. unfold run_shape. simpl. by rewrite Hsh.
Qed.

(** ** The cache *)
Definition stale (e : CacheEntry) (f : StatusFile) : bool :=
  (ce_lastModified e <? sf_mtime f)%Z || negb (ce_size e =? sf_size f)%Z.

Record coherent `{RunEnv} (w : RunWorld) : Prop := {
  co_entry p e f : rw_cache w !! p = Some e → status_of p w = Some f → stale e f = false →
    rw_heap w !! ce_data e = last_status (sf_lines f);
  co_loc p e : rw_cache w !! p = Some e → (ce_data e < length (rw_heap w))%nat;
  co_inj p q e e' : rw_cache w !! p = Some e → rw_cache w !! q = Some e' → ce_data e = ce_data e' → p = q;
  co_off : CacheOn = false → rw_cache w = ∅;
}.

Lemma quiet_coherent `{RunEnv} w w' : quiet w w' → coherent w → coherent w'.
Proof.
  intros (Ht & Hh & Hc & _) [He Hl Hi Ho].
  assert (∀ p, status_of p w' = status_of p w) as Hs.
  { intros p. unfold status_of, find_attempt, attempts_of, find_run, get_tree. by rewrite Ht. }
  split; intros *; rewrite Hc, ?Hh, ?Hs; eauto.
Qed.

Section Read.
Context `{OS, RunEnv, Digest} (Hok : ∀ n, SysOk n = true).

Lemma read_lines w acc lines :
  ∃ w', each (λ acc l, rsys ;* ret (keep_last acc l)) acc lines w = (inr (foldl keep_last acc lines), w') ∧ quiet w w'.
Proof using Hok.
  revert w acc. induction lines as [|l lines IH]; intros w acc; [by exists w|]. simpl.
  destruct (IH {| w with rw_fs := tick (rw_fs w) |} (keep_last acc l)) as (w' & E & Hq).
  exists w'. split; [|etrans; [apply quiet_tick|done]].
  erewrite bind_step; [exact E|]. erewrite bind_step by apply (rsys_eq Hok). done.
Qed.

Lemma parse_eq p w f :
  status_of p w = Some f →
  ∃ w', parseStatusFile p w = (match last_status (sf_lines f) with Some s => inr s | None => inl ErrEOF end, w') ∧
        quiet w w'.
Proof using Hok.
  intros Hf. unfold parseStatusFile. erewrite bind_step by apply try_step, (rsys_eq Hok). cbv beta.
  erewrite bind_step by reflexivity.
  change (status_of p {| w with rw_fs := tick (rw_fs w) |}) with (status_of p w). rewrite Hf.
  destruct (read_lines {| w with rw_fs := tick (rw_fs w) |} None (sf_lines f)) as (w1 & E & Hq).
  erewrite bind_step by (apply try_step; exact E). erewrite bind_step by apply try_step, (rsys_eq Hok).
  exists {| w1 with rw_fs := tick (rw_fs w1) |}. split.
  - unfold last_status. by destruct (foldl _ _ _).
  - etrans; [apply quiet_tick|]. etrans; [exact Hq|apply quiet_tick].
Qed.

(** What reading a status does to the world: [l] is the object it returns. *)
Record read_as (p : AttemptPath) (l : nat) (w w' : RunWorld) : Prop := {
  ra_trees : rw_trees w' = rw_trees w;
  ra_dirs : fs_dirs (rw_fs w') = fs_dirs (rw_fs w);
  ra_heap : rw_heap w `prefix_of` rw_heap w';
  ra_coherent : coherent w';
  ra_only q e : rw_cache w' !! q = Some e → ce_data e = l → q = p;
  ra_entry q e : rw_cache w' !! q = Some e →
    rw_cache w !! q = Some e ∨ ce_data e = l ∧ (length (rw_heap w) <= l)%nat;
  ra_loc : (length (rw_heap w) <= l)%nat ∨ ∃ e, rw_cache w !! p = Some e ∧ ce_data e = l;
}.

Lemma quiet_status p w w' : quiet w w' → status_of p w' = status_of p w.
Proof. intros (Ht & _). unfold status_of, find_attempt, attempts_of, find_run, get_tree. by rewrite Ht. Qed.

Lemma lookup_alloc (h : list DAGRunStatus) s : (h ++ [s]) !! length h = Some s.
Proof. by rewrite lookup_app_r, Nat.sub_diag by lia. Qed.

(** A new object for [p]; with [Some e] it is also entered into the cache. *)
Lemma read_as_alloc p w w1 s f (e : option CacheEntry) :
  quiet w w1 → coherent w → status_of p w = Some f → last_status (sf_lines f) = Some s →
  (∀ e', e = Some e' → CacheOn = true ∧ ce_data e' = length (rw_heap w)) →
  let c := match e with Some e' => <[p := e']> (rw_cache w1) | None => rw_cache w1 end in
  read_as p (length (rw_heap w)) w {| w1 with rw_heap := rw_heap w1 ++ [s]; rw_cache := c |}.
Proof.
  intros Hq Hco Hf Hs He c. pose proof Hq as (Ht & Hh & Hc & Hd & _). destruct Hco as [Hce Hcl Hci Hoff].
  assert (∀ q e', c !! q = Some e' → rw_cache w !! q = Some e' ∨ q = p ∧ ce_data e' = length (rw_heap w)) as Hcase.
  { intros q e'. unfold c. destruct e as [e0|]; rewrite ?Hc; [|by left].
    destruct (He e0 eq_refl) as [_ Hd0].
    rewrite lookup_insert_Some. intros [[<- <-]|[_ ?]]; [right; eauto|by left]. }
  assert (∀ q, status_of q {| w1 with rw_heap := rw_heap w1 ++ [s]; rw_cache := c |} = status_of q w) as Hst.
  { intros q. etrans; [|by apply quiet_status]. done. }
  split; simpl; [done|done|rewrite Hh; by eexists| | | |by left].
  - split; simpl.
    + intros q e' f' [Hq'|[-> Hd']]%Hcase Hf' Hst'; rewrite Hst in Hf'.
      * rewrite <-(Hce _ _ _ Hq' Hf' Hst'), Hh. apply lookup_app_l. eauto.
      * rewrite Hf in Hf'. injection Hf' as <-. by rewrite Hd', Hh, lookup_alloc, Hs.
    + intros q e' [Hq'|[-> Hd']]%Hcase; rewrite length_app, Hh; simpl; [apply Hcl in Hq'; lia|lia].
    + intros q1 q2 e1 e2 [Q1|[-> D1]]%Hcase [Q2|[-> D2]]%Hcase Hd'; [by eapply Hci| | |done].
      * apply Hcl in Q1. lia.
      * apply Hcl in Q2. lia.
    + intros Hco. unfold c. destruct e as [e0|]; [|rewrite Hc; by apply Hoff].
      destruct (He e0 eq_refl). congruence.
  - intros q e' [Hq'|[-> Hd']]%Hcase Hl; [|done]. apply Hcl in Hq'. lia.
  - intros q e' [Hq'|[-> Hd']]%Hcase; [by left|right; split; [done|lia]].
Qed.

Lemma wp_ReadStatus p w f s :
  coherent w → status_of p w = Some f → last_status (sf_lines f) = Some s →
  ∃ l w', ReadStatus p w = (inr l, w') ∧ rw_heap w' !! l = Some s ∧ read_as p l w w'.
Proof using Hok.
  intros Hco Hf Hs. unfold ReadStatus. destruct CacheOn eqn:Eon.
  - assert (∃ l w', LoadLatest p w = (inr l, w') ∧ rw_heap w' !! l = Some s ∧ read_as p l w w')
      as (l & w' & E & Hl & Hr); [|exists l, w'; by erewrite bind_step by by apply try_step].
    unfold LoadLatest. erewrite bind_step by apply (rsys_eq Hok). erewrite bind_step by reflexivity.
    set (w1 := {| w with rw_fs := tick (rw_fs w) |}). change (status_of p w1) with (status_of p w). rewrite Hf.
    erewrite bind_step by apply rcall_eq. set (w2 := {| w1 with rw_fs := tick (rw_fs w1) |}).
    assert (quiet w w2) as Hq by (etrans; apply quiet_tick).
    erewrite bind_step by reflexivity. set (e := if Evicted _ then None else _).
    destruct (match e with Some e0 => if stale e0 f then None else Some (ce_data e0) | None => None end) as [l|] eqn:Eh;
      fold (stale) in *; unfold stale in Eh; rewrite Eh.
    + exists l, w2. assert (∃ e0, rw_cache w !! p = Some e0 ∧ stale e0 f = false ∧ ce_data e0 = l) as (e0 & He0 & Hst & <-).
      { unfold e in Eh. destruct (Evicted _); [done|]. change (rw_cache w2) with (rw_cache w) in Eh.
        destruct (rw_cache w !! p) as [e0|]; [|done]. exists e0. unfold stale.
        destruct (_ || _); [done|]. by injection Eh. }
      split; [done|]. split; [change (rw_heap w2) with (rw_heap w); by rewrite (co_entry w Hco p e0 f), Hs|].
      split; [done|done|done| | | |].
      * by eapply quiet_coherent.
      * intros q e' Hq' Hd. by eapply (co_inj w Hco).
      * by left.
      * right. eauto.
    + destruct (parse_eq p w2 f) as (w3 & Ep & Hq3); [by rewrite (quiet_status p w w2)|].
      rewrite Hs in Ep. erewrite bind_step by exact Ep. unfold alloc.
      assert (quiet w w3) as Hq' by (by etrans).
      exists (length (rw_heap w3)). eexists. split; [reflexivity|]. simpl. split; [apply lookup_alloc|].
      pose proof Hq' as (_ & Hh & _). rewrite Hh.
      pose proof (read_as_alloc p w w3 s f (Some (mkCacheEntry (length (rw_heap w)) (sf_size f) (sf_mtime f)))
                    Hq' Hco Hf Hs) as Hra.
      simpl in Hra. rewrite Hh in Hra. apply Hra. by intros e' [= <-].
  - unfold read_directly. destruct (parse_eq p w f Hf) as (w1 & Ep & Hq). rewrite Hs in Ep.
    erewrite bind_step by (apply try_step; exact Ep). unfold alloc.
    exists (length (rw_heap w1)). eexists. split; [reflexivity|]. simpl. split; [apply lookup_alloc|].
    pose proof Hq as (_ & Hh & _). pose proof (read_as_alloc p w w1 s f None Hq Hco Hf Hs) as Hra.
    simpl in Hra. rewrite Hh in *. by apply Hra.
Qed.
End Read.
