(* ===== verification/RunCas.v ===== *)
(** * Compare-and-swap of a run's status

    [wrote p f w w']: the world changed in the status file of [p], which is [f]
    now, and in the cache entry of [p] at most.  Opening, writing and closing an
    attempt are such changes, and [CAS_correct] puts them together under the lock
    of the DAG. *)

From stdpp Require Import base strings list gmap sorting.
From Stdlib Require Import ZArith Lia Ascii.
From S2P Require Import Prelude Status GoStrings GoDate RunStatus Catchup FileSys DirLock DirLockLaws QueueName RunFiles RunStore RunStoreLaws.

Open Scope op_scope.

Record wrote `{RunEnv} (p : AttemptPath) (f : StatusFile) (w w' : RunWorld) : Prop := {
  wr_status : status_of p w' = Some f;
  wr_others q : q ≠ p → status_of q w' = status_of q w;
  wr_shape : shape w' = shape w;
  wr_heap : rw_heap w' = rw_heap w;
  wr_cache q : q ≠ p → rw_cache w' !! q = rw_cache w !! q;
  wr_off : CacheOn = false → rw_cache w' = rw_cache w;
  wr_dirs : fs_dirs (rw_fs w') = fs_dirs (rw_fs w);
}.

Section Wrote.
Context `{OS, RunEnv, Digest} (Hok : ∀ n, SysOk n = true).

Lemma wrote_trans p f g w1 w2 w3 : wrote p f w1 w2 → wrote p g w2 w3 → wrote p g w1 w3.
Proof.
  intros [A1 A2 A3 A4 A5 A6 A7] [B1 B2 B3 B4 B5 B6 B7].
  split; [done|intros q Hq; by rewrite B2, A2|congruence|congruence|intros q Hq; by rewrite B5, A5| |congruence].
  intros E. by rewrite B6, A6.
Qed.

Lemma wrote_quiet p f w w' : quiet w w' → status_of p w = Some f → wrote p f w w'.
Proof.
  intros Hq Hf. pose proof Hq as (Ht & Hh & Hc & Hd & _).
  split; [by rewrite (quiet_status p w w')|intros; by apply quiet_status|by apply quiet_shape|done| | |done];
    intros; by rewrite Hc.
Qed.

Lemma wrote_put p f f0 w : status_of p w = Some f0 → wrote p f w (put_status p f w).
Proof.
  intros Hf. pose proof (status_find _ _ _ Hf) as Ha. split; try done.
  - by rewrite status_put_status, bool_decide_true.
  - intros q Hq. by rewrite status_put_status, bool_decide_false.
  - apply shape_put_status. by eexists.
Qed.

Lemma wrote_invalidate p f w :
  status_of p w = Some f →
  ∃ w', Invalidate p w = (inr tt, w') ∧ wrote p f w w' ∧ (CacheOn = true → rw_cache w' !! p = None).
Proof.
  intros Hf. unfold Invalidate, modify. destruct CacheOn eqn:E; eexists; (split; [reflexivity|]); (split; [|done || intros _]).
  - split; try done; simpl; [intros q Hq; by apply lookup_delete_ne|congruence].
  - apply lookup_delete_eq.
  - by apply wrote_quiet.
Qed.

Lemma wrote_tick p f w : status_of p w = Some f → wrote p f w {| w with rw_fs := tick (rw_fs w) |}.
Proof. intros Hf. by apply wrote_quiet; [apply quiet_tick|]. Qed.

Lemma on_world_step {A} (m : ROp A) w att r w' : m w = (r, w') → on_world m (w, att) = (r, (w', att)).
Proof. intros E. unfold on_world, zoom. simpl. by rewrite E. Qed.

Lemma quiet_rsys w : ∃ w', rsys w = (inr tt, w') ∧ quiet w w'.
Proof using Hok. eexists. split; [apply (rsys_eq Hok)|apply quiet_tick]. Qed.
Lemma quiet_rnow w : ∃ t w', rnow w = (inr t, w') ∧ quiet w w'.
Proof. do 2 eexists. split; [apply rnow_eq|apply quiet_tick]. Qed.

(** One more call at the end of a quiet stretch [Hq]. *)
Ltac rstep Hq :=
  lazymatch type of Hq with
  | quiet _ ?w =>
      let w' := fresh "wq" in let E := fresh in let Hq' := fresh in let Hn := fresh in
      destruct (quiet_rsys w) as (w' & E & Hq');
      erewrite bind_step by first [exact E | apply on_world_step; exact E | apply try_step, on_world_step; exact E];
      pose proof (transitivity Hq Hq') as Hn; clear Hq Hq' E; rename Hn into Hq; cbv beta
  end.

(** ** Opening, writing and closing *)
Lemma wrote_make_attempt p f w : status_of p w = Some f →
  ∃ w', make_attempt None p w = (inr tt, w') ∧ wrote p f w w'.
Proof.
  intros Hf. pose proof (status_find _ _ _ Hf) as [a Ha]. eexists. split; [reflexivity|].
  rewrite Ha. simpl.
  assert (put_attempt p a w = put_status p f w) as ->.
  { unfold put_status. rewrite Ha. simpl. unfold status_of in Hf. rewrite Ha in Hf. simpl in Hf.
    destruct a as [st dg cn]. simpl in *. by rewrite Hf. }
  by eapply wrote_put.
Qed.

Lemma wrote_Open p f w :
  status_of p w = Some f →
  ∃ w', Attempt_Open (w, NewAttemptAt p None) = (inr tt, (w', mkAttempt p (Some false) None)) ∧ wrote p f w w'.
Proof using Hok.
  intros Hf. unfold Attempt_Open. erewrite bind_step by reflexivity. simpl.
  erewrite bind_step by apply on_world_step, (rsys_eq Hok). set (w1 := {| w with rw_fs := _ |}).
  assert (wrote p f w w1) as R1 by by apply wrote_tick.
  destruct (wrote_make_attempt p f w1 (wr_status _ _ _ _ R1)) as (w2 & E2 & R2).
  erewrite bind_step by by apply on_world_step. erewrite bind_step by reflexivity.
  do 3 erewrite bind_step by apply on_world_step, (rsys_eq Hok).
  erewrite bind_step by apply on_world_step, rnow_eq.
  set (w3 := {| _ with rw_fs := _ |}).
  assert (quiet w2 w3) as Hq by (split_and!; simpl; [done..|lia]).
  pose proof (wrote_quiet p f w2 w3 Hq (wr_status _ _ _ _ R2)) as R3.
  erewrite bind_step by (apply on_world_step; reflexivity). erewrite bind_step by reflexivity.
  set (w4 := {| w3 with rw_fs := tick (rw_fs w3) |}).
  pose proof (wrote_tick p f w3 (wr_status _ _ _ _ R3)) as R4. fold w4 in R4. rewrite (wr_status _ _ _ _ R4). simpl.
  pose proof (wrote_put p f f w4 (wr_status _ _ _ _ R4)) as R5.
  destruct (parse_eq Hok p _ f (wr_status _ _ _ _ R5)) as (w6 & E6 & Q6). exists w6.
  split; [eapply ignore_step, on_world_step; exact E6|].
  eapply wrote_trans; [exact R1|]. eapply wrote_trans; [exact R2|]. eapply wrote_trans; [exact R3|].
  eapply wrote_trans; [exact R4|]. eapply wrote_trans; [exact R5|]. eapply wrote_quiet, R5. done.
Qed.

(** A whole line is appended. *)
Lemma wrote_Write p f w s :
  status_of p w = Some f →
  ∃ t w', Attempt_Write s (w, mkAttempt p (Some false) None) = (inr tt, (w', mkAttempt p (Some false) None)) ∧
    wrote p (append_line s t f) w w' ∧ (CacheOn = true → rw_cache w' !! p = None).
Proof using Hok.
  intros Hf. set (t := Now (fs_calls (rw_fs w))). exists t. unfold Attempt_Write, Writer_write.
  erewrite bind_step by reflexivity. simpl.
  set (w1 := {| w with rw_fs := tick (rw_fs w) |}). set (w2 := {| w1 with rw_fs := tick (rw_fs w1) |}).
  assert (quiet w w2) as Hq by (etrans; apply quiet_tick).
  pose proof (wrote_quiet p f w w2 Hq Hf) as R2.
  set (w3 := put_status p (append_line s t f) w2).
  assert (wrote p (append_line s t f) w2 w3) as R3 by eapply wrote_put, R2.
  set (w4 := {| w3 with rw_fs := tick (rw_fs w3) |}).
  assert (wrote p (append_line s t f) w3 w4) as R4 by apply wrote_tick, R3.
  destruct (wrote_invalidate p (append_line s t f) w4 (wr_status _ _ _ _ R4)) as (w5 & E5 & R5 & Hc).
  exists w5. split; [|split; [|done]].
  - erewrite bind_step.
    2:{ apply try_step. erewrite bind_step by reflexivity. simpl.
        erewrite bind_step by apply on_world_step, rnow_eq. erewrite bind_step by apply on_world_step, rcall_eq.
        cbv beta. rewrite Hok. erewrite bind_step by (apply on_world_step; reflexivity).
        apply on_world_step. apply (rsys_eq Hok). }
    fold w1 w2. rewrite (wr_status _ _ _ _ R2). cbn [status_file default from_option id]. fold t w3 w4.
    by apply on_world_step.
  - eapply wrote_trans; [exact R2|]. eapply wrote_trans; [exact R3|]. by eapply wrote_trans.
Qed.
Definition compacted (s : DAGRunStatus) (t : Time) : StatusFile := mkStatusFile [Some s] false (status_len s) t.

Lemma wrote_compact p f w s :
  status_of p w = Some f → last_status (sf_lines f) = Some s →
  ∃ t w', compact p w = (inr tt, w') ∧ wrote p (compacted s t) w w'.
Proof using Hok.
  intros Hf Hs. unfold compact. destruct (parse_eq Hok p w f Hf) as (w1 & E1 & Hq1). rewrite Hs in E1.
  erewrite bind_step by (apply try_step; exact E1). cbv beta iota.
  do 4 rstep Hq1. destruct (quiet_rnow wq2) as (t & w2 & E2 & Hq2). erewrite bind_step by exact E2. cbv beta.
  pose proof (transitivity Hq1 Hq2) as Hq. do 5 rstep Hq.
  erewrite bind_step by reflexivity. pose proof (wrote_quiet p f w _ Hq Hf) as R2. fold (compacted s t).
  pose proof (wrote_put p (compacted s t) f _ (wr_status _ _ _ _ R2)) as R3.
  destruct (wrote_invalidate p _ _ (wr_status _ _ _ _ R3)) as (w4 & E4 & R4 & _).
  exists t, w4. split; [exact E4|]. eapply wrote_trans; [exact R2|]. by eapply wrote_trans.
Qed.

(** Closing keeps the last status only. *)
Lemma wrote_Close p f w s :
  status_of p w = Some f → last_status (sf_lines f) = Some s →
  ∃ t w', Attempt_Close (w, mkAttempt p (Some false) None) = (inr tt, (w', mkAttempt p None None)) ∧
    wrote p (compacted s t) w w' ∧ (CacheOn = true → rw_cache w' !! p = None).
Proof using Hok.
  intros Hf Hs. unfold Attempt_Close. erewrite bind_step by reflexivity. simpl.
  erewrite bind_step by reflexivity. assert (quiet w w) as Hq by done. do 2 rstep Hq.
  pose proof (wrote_quiet p f w _ Hq Hf) as R1.
  destruct (wrote_compact p f _ s (wr_status _ _ _ _ R1) Hs) as (t & w2 & E2 & R2).
  destruct (wrote_invalidate p _ w2 (wr_status _ _ _ _ R2)) as (w3 & E3 & R3 & Hc).
  exists t, w3. split; [|split; [|done]].
  - erewrite bind_step by (eapply ignore_step, on_world_step; exact E2). by apply on_world_step.
  - eapply wrote_trans; [exact R1|]. by eapply wrote_trans.
Qed.

Lemma last_status_append s t f : sf_torn f = false → last_status (sf_lines (append_line s t f)) = Some s.
Proof. intros Ht. unfold last_status, append_line. simpl. by rewrite foldl_snoc, Ht. Qed.

(** A status that is opened, written and closed is the whole file afterwards. *)
Lemma wrote_open_write_close p f w s :
  status_of p w = Some f → sf_torn f = false →
  ∃ t w1 w2 w', Attempt_Open (w, NewAttemptAt p None) = (inr tt, (w1, mkAttempt p (Some false) None)) ∧
    wrote p f w w1 ∧
    Attempt_Write s (w1, mkAttempt p (Some false) None) = (inr tt, (w2, mkAttempt p (Some false) None)) ∧
    Attempt_Close (w2, mkAttempt p (Some false) None) = (inr tt, (w', mkAttempt p None None)) ∧
    wrote p (compacted s t) w w' ∧ (CacheOn = true → rw_cache w' !! p = None).
Proof using Hok.
  intros Hf Ht. destruct (wrote_Open p f w Hf) as (w1 & E1 & R1).
  destruct (wrote_Write p f w1 s (wr_status _ _ _ _ R1)) as (t & w2 & E2 & R2 & _).
  destruct (wrote_Close p _ w2 s (wr_status _ _ _ _ R2)) as (t' & w3 & E3 & R3 & Hc); [by apply last_status_append|].
  exists t', w1, w2, w3. split_and!; [done..| |done].
  eapply wrote_trans; [exact R1|]. by eapply wrote_trans.
Qed.
End Wrote.

(** ** The swap *)
(** The file ends with [s], and the object has become [so]. *)
Record swapped_to `{RunEnv} (p : AttemptPath) (l : nat) (s so : DAGRunStatus) (w w' : RunWorld) : Prop := {
  sw_status : ∃ t, status_of p w' = Some (compacted s t);
  sw_others q : q ≠ p → status_of q w' = status_of q w;
  sw_shape : shape w' = shape w;
  sw_heap : rw_heap w' = <[l := so]> (rw_heap w);
  sw_cache q : q ≠ p → rw_cache w' !! q = rw_cache w !! q;
  sw_dropped : CacheOn = true → rw_cache w' !! p = None;
  sw_off : CacheOn = false → rw_cache w' = rw_cache w;
  sw_dirs : fs_dirs (rw_fs w') = fs_dirs (rw_fs w);
}.

(** What a compare-and-swap leaves: [l] is the object it read, [so] what is in it, and
    [s] the last status of the file. *)
Record cas_done `{RunEnv} (p : AttemptPath) (l : nat) (s so : DAGRunStatus) (w w' : RunWorld) : Prop := {
  cd_status : ∃ f, status_of p w' = Some f ∧ last_status (sf_lines f) = Some s ∧ sf_torn f = false;
  cd_others q : q ≠ p → status_of q w' = status_of q w;
  cd_shape : shape w' = shape w;
  cd_object : rw_heap w' !! l = Some so;
  cd_heap l' : (l' < length (rw_heap w))%nat → l' ≠ l → rw_heap w' !! l' = rw_heap w !! l';
  cd_loc : (length (rw_heap w) <= l)%nat ∨ ∃ e, rw_cache w !! p = Some e ∧ ce_data e = l;
  cd_cache q e : rw_cache w' !! q = Some e → rw_cache w !! q = Some e ∨ (length (rw_heap w) <= ce_data e)%nat;
  cd_coherent : coherent w';
}.

Section Swap.
Context `{OS, RunEnv, Digest} (Hok : ∀ n, SysOk n = true) (ticks : nat).

(** The swap returns the error of the change and keeps the file's last status, or
    writes the changed object. *)
Definition swap_result (e : option Err) (l : nat) : Err + (nat * bool) :=
  match e with Some e => inl e | None => inr (l, true) end.

Definition swap_writes (x : option Err * DAGRunStatus) (s : DAGRunStatus) : DAGRunStatus :=
  match x.1 with Some _ => s | None => x.2 end.

(** Up to the close: the file is untouched, or the object was appended. *)
Lemma swap_body p f l s mutate w1 :
  status_of p w1 = Some f → sf_torn f = false → last_status (sf_lines f) = Some s →
  let w2 := {| w1 with rw_heap := <[l := (mutate s).2]> (rw_heap w1) |} in
  ∃ r f' w3, (match (mutate s).1 with Some e => ret (inl e) | None => try (Attempt_Write (mutate s).2) end)
      (w2, mkAttempt p (Some false) None) = (inr r, (w3, mkAttempt p (Some false) None)) ∧
    match r with inl e => inl e | inr _ => inr (l, true) end = swap_result (mutate s).1 l ∧
    wrote p f' w2 w3 ∧ last_status (sf_lines f') = Some (swap_writes (mutate s) s).
Proof using Hok.
  intros Hf Ht Hs w2. assert (status_of p w2 = Some f) as Hf2 by exact Hf.
  unfold swap_result, swap_writes. destruct (mutate s) as [[e|] m]; simpl in *.
  - exists (inl e), f, w2. split_and!; [done..|by apply wrote_quiet|done].
  - destruct (wrote_Write Hok p f w2 m Hf2) as (t & w3 & E3 & R3 & _). exists (inr tt), (append_line m t f), w3.
    split_and!; [by apply try_step|done|done|by apply last_status_append].
Qed.

Lemma swap_ok p f l s mutate w :
  status_of p w = Some f → sf_torn f = false → last_status (sf_lines f) = Some s → rw_heap w !! l = Some s →
  ∃ w', swap_status p l mutate w = (swap_result (mutate s).1 l, w') ∧ swapped_to p l (swap_writes (mutate s) s) (mutate s).2 w w'.
Proof using Hok.
  intros Hf Ht Hs Hl. destruct (wrote_Open Hok p f w Hf) as (w1 & E1 & R1).
  destruct (swap_body p f l s mutate w1 (wr_status _ _ _ _ R1) Ht Hs) as (r & f' & w3 & E3 & Hr & R3 & Hs3).
  set (w2 := {| w1 with rw_heap := _ |}) in *.
  destruct (wrote_Close Hok p _ w3 _ (wr_status _ _ _ _ R3) Hs3) as (t' & w4 & E4 & R4 & Hc).
  exists w4. split.
  - unfold swap_status, with_attempt. erewrite bind_step by exact E1.
    erewrite bind_step by (apply on_world_step; reflexivity). cbv beta.
    rewrite (wr_heap _ _ _ _ R1), Hl. cbn [default from_option id].
    erewrite bind_step by (apply on_world_step; reflexivity). fold w2.
    erewrite bind_step by exact E3. erewrite bind_step by (eapply ignore_step; exact E4). rewrite <-Hr. by destruct r.
  - destruct R1 as [A1 A2 A3 A4 A5 A6 A7], (wrote_trans _ _ _ _ _ _ R3 R4) as [B1 B2 B3 B4 B5 B6 B7].
    split.
    + by exists t'.
    + intros q Hq. rewrite B2 by done. by apply A2.
    + rewrite B3. exact A3.
    + rewrite B4. simpl. by rewrite A4.
    + intros q Hq. rewrite B5 by done. by apply A5.
    + done.
    + intros E. rewrite B6 by done. by apply A6.
    + rewrite B7. exact A7.
Qed.

Lemma swapped_coherent p l s so w w' :
  swapped_to p l s so w w' → coherent w → (∀ q e, rw_cache w !! q = Some e → ce_data e = l → q = p) → coherent w'.
Proof.
  intros [[t Hs] Ho _ Hh Hc Hd Hf _] [Ce Cl Ci Co] Hl.
  assert (∀ q e, rw_cache w' !! q = Some e → q ≠ p ∧ rw_cache w !! q = Some e) as Hq.
  { intros q e He. destruct CacheOn eqn:Eon.
    - destruct (decide (q = p)) as [->|Hne]; [by rewrite Hd in He|]. by rewrite Hc in He.
    - by rewrite Hf, Co in He. }
  split.
  - intros q e f [Hne Hq']%Hq Hst Hf'. rewrite Ho in Hst by done. rewrite Hh, list_lookup_insert_ne; [by eapply Ce|].
    intros E. by apply Hne, (Hl q e).
  - intros q e [_ Hq']%Hq. rewrite Hh, length_insert. by eapply Cl.
  - intros q1 q2 e1 e2 [_ Q1]%Hq [_ Q2]%Hq. by eapply Ci.
  - intros E. rewrite Hf by done. by apply Co.
Qed.

(** ** The lock *)
Lemma root_locked_eq {A} root (body : ROp A) w :
  lock_of (dagRunsDir root) (rw_fs w) = None →
  ∃ fs1, (∀ r w1, body {| w with rw_fs := fs1 |} = (r, w1) → fs_dirs (rw_fs w1) = fs_dirs fs1 →
     ∃ fs2, root_locked ticks root body w = (r, {| w1 with rw_fs := fs2 |}) ∧ lock_of (dagRunsDir root) fs2 = None).
Proof using Hok.
  intros Hfree. set (lk := NewDirLock (dagRunsDir root) (Some dataRootLockOptions)).
  destruct (TryLock_free Hok (rw_fs w) lk eq_refl) as (n & m & fs1 & _ & Hr & Hl).
  { unfold lock_free. change (dl_targetDir lk) with (dagRunsDir root). by rewrite Hfree. }
  exists fs1. intros r w1 Hb Hd.
  assert (Lock ticks (rw_fs w, lk) = TryLock (rw_fs w, lk)) as HL.
  { unfold Lock. rewrite Hr. erewrite bind_step by (by apply try_step). done. }
  unfold root_locked. fold lk. rewrite HL, Hr, Hb. set (lk1 := mkDirLock _ _ _ _) in *.
  destruct (Unlock_ok Hok (rw_fs w1) lk1 m eq_refl) as (fs2 & Hu & Hl2).
  { unfold lock_of, entry_of, dir_of in *. rewrite Hd. exact Hl. }
  rewrite Hu. exists fs2. split; [done|exact Hl2].
Qed.
(** ** Compare and swap *)
Definition cas_accepts (expectedAttemptID : string) (expectedStatus : Status) (s : DAGRunStatus) : bool :=
  (bool_decide (expectedAttemptID = "") || bool_decide (rs_AttemptID s = expectedAttemptID)) &&
  bool_decide (rs_Status s = expectedStatus).

Definition cas_result (acc : bool) (e : option Err) (l : nat) : Err + (nat * bool) :=
  if acc then swap_result e l else inr (l, false).

Definition cas_writes (acc : bool) (x : option Err * DAGRunStatus) (s : DAGRunStatus) : DAGRunStatus :=
  if acc then swap_writes x s else s.

Lemma find_bind {A} ref (k : AttemptPath → ROp A) w :
  ref_ID ref ≠ "" →
  (let* run := FindByDAGRunID (dataRootPrefix (ref_Name ref)) (ref_ID ref) in
   let* p := DAGRun_LatestAttempt run in k p) w = bind (FindAttempt ref) k w.
Proof.
  intros Hid. unfold FindAttempt. rewrite bool_decide_false by done. unfold bind.
  by destruct (FindByDAGRunID _ _ w) as [[e|run] w1].
Qed.

Lemma swap_or_keep p f s expID expS mutate w :
  coherent w → status_of p w = Some f → sf_torn f = false → last_status (sf_lines f) = Some s →
  ∃ l w', (let* l := ReadStatus p in
    let* status := deref l in
    if bool_decide (expID ≠ "") && bool_decide (rs_AttemptID status ≠ expID) then ret (l, false)
    else if bool_decide (rs_Status status ≠ expS) then ret (l, false)
    else swap_status p l mutate) w = (cas_result (cas_accepts expID expS s) (mutate s).1 l, w') ∧
    cas_done p l (cas_writes (cas_accepts expID expS s) (mutate s) s) (if cas_accepts expID expS s then (mutate s).2 else s) w w' ∧ fs_dirs (rw_fs w') = fs_dirs (rw_fs w).
Proof using Hok.
  intros Hco Hf Ht Hs. destruct (wp_ReadStatus Hok p w f s Hco Hf Hs) as (l & w1 & E1 & Hl & R).
  destruct R as [Rt Rd [ext Rh] Rc Ro Re Rl].
  assert (∀ q, status_of q w1 = status_of q w) as Hst.
  { intros q. unfold status_of, find_attempt, attempts_of, find_run, get_tree. by rewrite Rt. }
  assert (shape w1 = shape w) as Hsh by (unfold shape; by rewrite Rt).
  assert (cas_done p l s s w w1) as Hkeep.
  { split; [exists f; by rewrite Hst|done|done|done| |done| |done].
    - intros l' Hl' _. rewrite Rh. by apply lookup_app_l.
    - intros q e [?|[<- ?]]%Re; [by left|by right]. }
  exists l. erewrite bind_step by exact E1. erewrite bind_step by reflexivity. rewrite Hl. cbn [default from_option id].
  unfold cas_accepts.
  destruct (decide (expID ≠ "" ∧ rs_AttemptID s ≠ expID)) as [[Hn Hm]|Hid].
  { rewrite !(bool_decide_true _ Hn), !(bool_decide_true _ Hm), (bool_decide_false (expID = "")), (bool_decide_false (rs_AttemptID s = expID)) by done.
    exists w1. done. }
  assert (bool_decide (expID ≠ "") && bool_decide (rs_AttemptID s ≠ expID) = false) as ->.
  { repeat case_bool_decide; try done. exfalso; by apply Hid. }
  assert (bool_decide (expID = "") || bool_decide (rs_AttemptID s = expID) = true) as ->.
  { repeat case_bool_decide; try done. exfalso; by apply Hid. }
  destruct (decide (rs_Status s = expS)) as [Es|Es].
  - rewrite (bool_decide_false (rs_Status s ≠ expS)), (bool_decide_true (rs_Status s = expS)) by auto.
    destruct (swap_ok p f l s mutate w1) as (w2 & E2 & R2); [by rewrite Hst|done..|]. exists w2. split; [done|].
    pose proof (swapped_coherent _ _ _ _ _ _ R2 Rc Ro) as Hco2. destruct R2 as [[t B1] B2 B3 B4 B5 B6 B7 B8].
    split; [|congruence]. split; [by exists (compacted (swap_writes (mutate s) s) t)|intros q Hq; by rewrite B2, Hst|congruence| | |done| |done].
    + rewrite B4. apply list_lookup_insert_eq. by eapply lookup_lt_Some.
    + intros l' Hl' Hne. rewrite B4, list_lookup_insert_ne, Rh by done. by apply lookup_app_l.
    + intros q e He. destruct CacheOn eqn:Eon.
      * destruct (decide (q = p)) as [->|Hne]; [by rewrite B6 in He|]. rewrite B5 in He by done.
        by apply (cd_cache _ _ _ _ _ _ Hkeep).
      * rewrite B7 in He by done. by apply (cd_cache _ _ _ _ _ _ Hkeep).
  - rewrite (bool_decide_true (rs_Status s ≠ expS)), (bool_decide_false (rs_Status s = expS)) by auto. by exists w1.
Qed.
End Swap.

(** The latest attempt of [ref] is [p], with last status [s]; nobody works on the
    DAG. *)
Record at_status `{OS, RunEnv, Digest} (ref : DAGRunRef) (p : AttemptPath) (s : DAGRunStatus) (w : RunWorld) : Prop := {
  at_coherent : coherent w;
  at_unlocked : lock_of (dagRunsDir (dataRootPrefix (ref_Name ref))) (rw_fs w) = None;
  at_latest : (FindAttempt ref w).1 = inr p;
  at_file : ∃ f, status_of p w = Some f ∧ last_status (sf_lines f) = Some s ∧ sf_torn f = false;
}.

Section Cas.
Context `{OS, RunEnv, Digest} (Hok : ∀ n, SysOk n = true) (ticks : nat).

Lemma cas_done_put p l s so w w1 fs fs2 :
  cas_done p l s so {| w with rw_fs := fs |} w1 → cas_done p l s so w {| w1 with rw_fs := fs2 |}.
Proof. intros [A B C D E F G I]. split; try done. by destruct I. Qed.

Lemma FindAttempt_id ref w p : (FindAttempt ref w).1 = inr p → ref_ID ref ≠ "".
Proof. unfold FindAttempt. by case_bool_decide. Qed.

Lemma CAS_any ref p s expID expS mutate w :
  at_status ref p s w →
  let acc := cas_accepts expID expS s in
  let s' := cas_writes acc (mutate s) s in
  ∃ l w', CompareAndSwapLatestAttemptStatus ticks ref expID expS mutate w = (cas_result acc (mutate s).1 l, w') ∧
    cas_done p l s' (if acc then (mutate s).2 else s) w w' ∧ at_status ref p s' w'.
Proof using Hok.
  intros [Hco Hun Hla (f & Hf & Hs & Ht)] acc s'. pose proof (FindAttempt_id _ _ _ Hla) as Hid.
  unfold CompareAndSwapLatestAttemptStatus. rewrite bool_decide_false by done.
  set (root := dataRootPrefix (ref_Name ref)) in *. set (body := bind (FindByDAGRunID root (ref_ID ref)) _).
  destruct (root_locked_eq Hok ticks root body w Hun) as (fs1 & Hlock).
  set (w1 := {| w with rw_fs := fs1 |}) in *.
  destruct (pure_FindAttempt Hok ref w) as [_ Hsame]. destruct (pure_FindAttempt Hok ref w1) as [Hq _].
  pose proof (Hsame w1 eq_refl) as Hla1. rewrite Hla in Hla1.
  destruct (FindAttempt ref w1) as [r w2] eqn:E1. simpl in Hla1, Hq. subst r.
  assert (coherent w1) as Hco1 by by destruct Hco.
  destruct (swap_or_keep Hok p f s expID expS mutate w2) as (l & w3 & E2 & Hd & Hfs).
  { by eapply quiet_coherent. } { rewrite (quiet_status p w1 w2 Hq). exact Hf. } { done. } { done. }
  assert (body w1 = (cas_result acc (mutate s).1 l, w3)) as Hb.
  { unfold body, root. rewrite find_bind by done. erewrite bind_step by exact E1. exact E2. }
  destruct Hq as (Qt & Qh & Qc & Qd & _).
  destruct (Hlock _ _ Hb) as (fs2 & -> & Hl2); [by rewrite Hfs, Qd|].
  assert (cas_done p l s' (if acc then (mutate s).2 else s) w {| w3 with rw_fs := fs2 |}) as Hdone.
  { apply (cas_done_put _ _ _ _ _ _ (rw_fs w2)). replace {| w with rw_fs := rw_fs w2 |} with w2; [done|].
    destruct w2. simpl in *. unfold w1 in *. simpl in *. by subst. }
  do 2 eexists. split; [reflexivity|]. split; [done|]. split; [apply Hdone|exact Hl2| |apply Hdone].
  rewrite (Hsame {| w3 with rw_fs := fs2 |}); [done|]. apply Hdone.
Qed.

(** With a change that does not fail. *)
Lemma CAS_spec ref p s expID expS (mutate : DAGRunStatus → DAGRunStatus) w :
  at_status ref p s w →
  let acc := cas_accepts expID expS s in
  let s' := if acc then mutate s else s in
  ∃ l w', CompareAndSwapLatestAttemptStatus ticks ref expID expS (λ s, (None, mutate s)) w = (inr (l, acc), w') ∧
    cas_done p l s' s' w w' ∧ at_status ref p s' w'.
Proof using Hok.
  intros Hat acc s'. destruct (CAS_any ref p s expID expS (λ s, (None, mutate s)) w Hat) as (l & w' & E & Hd & Hat').
  exists l, w'. unfold cas_result, cas_writes, swap_writes in *. fold acc in E, Hd, Hat'. subst s'. by destruct acc.
Qed.

(** C5. Compare-and-swap of the latest status of a run, when no system call fails, the
    status file is whole (its last line was written to the end), the cache points to the
    last statuses of the files, and nobody holds the lock of the DAG.  It changes the
    status exactly when the attempt is the expected one (or none is named) and its status
    is the expected one.  When the change succeeds the file ends with the changed status;
    when it returns an error the swap returns that error; in this case and when nothing
    is expected of this status the file keeps its last status.  The object it returns has
    the status of the file, the files of all other attempts are untouched, every run has
    the latest attempt it had, the lock is free again, the file is whole, and the cache
    still points to the last statuses of the files. *)
Theorem CAS_correct ref p s expID expS mutate w :
  at_status ref p s w →
  let acc := (bool_decide (expID = "") || bool_decide (rs_AttemptID s = expID)) && bool_decide (rs_Status s = expS) in
  ∃ l w' r s', CompareAndSwapLatestAttemptStatus ticks ref expID expS mutate w = (r, w') ∧
    match acc, mutate s with
    | false, _ => r = inr (l, false) ∧ s' = s
    | true, (None, changed) => r = inr (l, true) ∧ s' = changed
    | true, (Some e, _) => r = inl e ∧ s' = s
    end ∧
    (∀ b, r = inr (l, b) → rw_heap w' !! l = Some s') ∧ at_status ref p s' w' ∧
    (∀ q, q ≠ p → status_of q w' = status_of q w) ∧
    (∀ ref', (FindAttempt ref' w').1 = (FindAttempt ref' w).1).
Proof using Hok.
  intros Hat acc. destruct (CAS_any ref p s expID expS mutate w Hat) as (l & w' & E & Hd & Hat').
  change (cas_accepts expID expS s) with acc in *. exists l, w', (cas_result acc (mutate s).1 l), (cas_writes acc (mutate s) s).
  split; [exact E|]. unfold cas_result, cas_writes, swap_result, swap_writes in *.
  split; [by destruct acc, (mutate s) as [[e|] m]|]. split; [|split; [exact Hat'|split; [apply Hd|]]].
  - intros b Hb. destruct Hd as [_ _ _ Hobj _ _ _ _]. by destruct acc, (mutate s) as [[e|] m].
  - intros ref'. destruct (pure_FindAttempt Hok ref' w) as [_ Hsame]. apply Hsame, Hd.
Qed.
End Cas.
