(* ===== verification/RunLifeLaws.v ===== *)
(** * Retrying and cancelling runs: what the two stores hold afterwards

    The laws are about runs whose latest attempt has a whole status file
    ([at_status]); the calls of the run store succeed, those of the queue may fail
    at any point. *)

From stdpp Require Import base strings list gmap.
From Stdlib Require Import ZArith Lia Ascii.
From S2P Require Import Prelude Status Step GoStrings RunStatus Catchup FileSys DirLock DirLockLaws QueueName QueueFile QueueStore QueueRep QueueRefine RunFiles RunStore RunLife RunStoreLaws RunCas.

Open Scope op_scope.

(** Nobody else holds the object [c]. *)
Definition private_object (c : nat) (w : RunWorld) : Prop :=
  (c < length (rw_heap w))%nat ∧ ∀ q e, rw_cache w !! q = Some e → ce_data e ≠ c.

Section Laws.
Context (osr osq : OS) `{RunEnv, Digest, TimeText} (ticks : nat).
#[local] Existing Instance osr.
Context (Hok : ∀ n, SysOk n = true).

Lemma at_status_quiet ref p s w w' : at_status ref p s w → quiet w w' → at_status ref p s w'.
Proof using Hok.
  intros [A B C (f & D)] Hq. pose proof Hq as (_ & _ & _ & Hd & _). split.
  - by eapply quiet_coherent.
  - unfold lock_of, entry_of, dir_of in *. by rewrite Hd.
  - destruct (pure_FindAttempt Hok ref w) as [_ Hs]. rewrite (Hs w'); [done|]. by apply quiet_shape.
  - exists f. by rewrite (quiet_status p w w' Hq).
Qed.

Lemma on_runs_step {A} (m : ROp A) w q r w' : m w = (r, w') → on_runs m (w, q) = (r, (w', q)).
Proof. intros E. unfold on_runs, zoom. simpl. by rewrite E. Qed.

Lemma on_queue_step {A} (m : Op (FS Content * Store) A) w q r q' : m q = (r, q') → on_queue m (w, q) = (r, (w, q')).
Proof. intros E. unfold on_queue, zoom. simpl. by rewrite E. Qed.

Lemma deref_eq l s w q : rw_heap w !! l = Some s → on_runs (deref l) (w, q) = (inr s, (w, q)).
Proof. intros E. apply on_runs_step. unfold deref, gets. by rewrite E. Qed.

(** A swap leaves the caller's own object alone. *)
Lemma cas_private p l s so w w' c :
  cas_done p l s so w w' → private_object c w → rw_heap w' !! c = rw_heap w !! c ∧ private_object c w' ∧ l ≠ c.
Proof.
  intros [_ _ _ Ho Hh Hl Hc _] [Hlen Hp].
  assert (l ≠ c) as Hne by (destruct Hl as [?|(e & He & <-)]; [lia|by eapply Hp]).
  assert (rw_heap w' !! c = rw_heap w !! c) as Hs by auto.
  split; [done|]. split; [|done]. split.
  - apply lookup_lt_is_Some. rewrite Hs. by apply lookup_lt_is_Some.
  - intros q e [He|Hge]%Hc; [by eapply Hp|lia].
Qed.

Lemma undo_queued_ok ref p s c st w q :
  at_status ref p s w → rs_Status s = Queued → rw_heap w !! c = Some st → private_object c w →
  ∃ w', undo_queued osr ticks ref (rs_AttemptID s) c (w, q) = (inr tt, (w', q)) ∧
    at_status ref p (restore_from st s) w' ∧ ∀ x, x ≠ p → status_of x w' = status_of x w.
Proof using Hok.
  intros Hat Hq Hc Hp. unfold undo_queued. erewrite bind_step by (apply on_runs_step; reflexivity).
  rewrite Hc. cbn [default from_option id].
  destruct (CAS_spec Hok ticks ref p s (rs_AttemptID s) Queued (restore_from st) w Hat) as (l & w' & E & Hd & Hat').
  assert (cas_accepts (rs_AttemptID s) Queued s = true) as Ha.
  { unfold cas_accepts. by rewrite Hq, (bool_decide_true (_ = rs_AttemptID s)), orb_true_r by done. }
  rewrite Ha in *.
  exists w'. split; [|split; [done|apply Hd]]. eapply ignore_step, on_runs_step. exact E.
Qed.
(** Pushing the item, when the swap was made. *)
Lemma push_retry_ok dag ref p s c u st w q :
  at_status ref p s w → rs_Status s = Queued → rw_heap w !! c = Some st → private_object c w →
  let group := retryProcGroup dag (Some s) in
  let '(rq, pushed) := @Enqueue osq group QueuePriorityLow ref q in
  ∃ r w' q', push_retry osr osq ticks dag ref c u s None (w, q) = (r, (w', q')) ∧
    (∀ x, x ≠ p → status_of x w' = status_of x w) ∧
    if bool_decide (group = "") then r = inl ErrProcGroupEmpty ∧ at_status ref p (restore_from st s) w' ∧ q' = q
    else q' = pushed ∧
      match rq with
      | inr _ => r = inr tt ∧ at_status ref p s w'
      | inl e => r = inl e ∧ at_status ref p (restore_from st s) w'
      end.
Proof using Hok.
  intros Hat Hs Hc Hp group. destruct (@Enqueue osq group QueuePriorityLow ref q) as [rq qe] eqn:Ee.
  unfold push_retry. fold group. case_bool_decide.
  - destruct (undo_queued_ok ref p s c st w q Hat Hs Hc Hp) as (w3 & E3 & Hat3 & Ho3).
    erewrite bind_step by exact E3. by do 3 eexists.
  - erewrite bind_step by (apply try_step, on_queue_step; exact Ee). destruct rq as [e|[]].
    + destruct (undo_queued_ok ref p s c st w qe Hat Hs Hc Hp) as (w3 & E3 & Hat3 & Ho3).
      erewrite bind_step by exact E3. by do 3 eexists.
    + by do 3 eexists.
Qed.

(** Up to the swap. *)
Lemma EnqueueRetry_swap dag c autoRetry w q st p s OnQueued :
  let ref := status_DAGRun st in
  rw_heap w !! c = Some st → private_object c w → at_status ref p s w → rs_Status st ≠ Queued →
  ∃ t u w1,
    let acc := cas_accepts (rs_AttemptID st) (rs_Status st) s in
    let s1 := if acc then mark_queued (FormatTime t) autoRetry (rs_Root st) s else s in
    EnqueueRetry osr osq ticks dag c autoRetry OnQueued (w, q) =
      (if acc then push_retry osr osq ticks dag ref c u s1 OnQueued
       else if bool_decide (rs_Status s1 = Queued) then ret tt else fail ErrRetryStaleLatest) (w1, q) ∧
    at_status ref p s1 w1 ∧ rw_heap w1 !! c = Some st ∧ private_object c w1 ∧
    ∀ x, x ≠ p → status_of x w1 = status_of x w.
Proof using Hok.
  intros ref Hc Hp Hat Hnq. unfold EnqueueRetry. erewrite bind_step by by apply deref_eq.
  rewrite bool_decide_false by done. destruct (quiet_rnow w) as (t & w1 & E1 & Hq1).
  erewrite bind_step by (apply on_runs_step; exact E1). cbv beta.
  set (mark := mark_queued (FormatTime t) autoRetry (rs_Root st)).
  destruct (CAS_spec Hok ticks ref p s (rs_AttemptID st) (rs_Status st) mark w1) as (l & w2 & E2 & Hd & Hat2);
    [by eapply at_status_quiet|].
  pose proof Hq1 as (_ & Hh1 & Hc1 & _).
  assert (private_object c w1) as Hp1 by (unfold private_object; by rewrite Hh1, Hc1).
  destruct (cas_private _ _ _ _ _ _ _ Hd Hp1) as (Hs2 & Hp2 & _). rewrite Hh1, Hc in Hs2.
  erewrite bind_step by (apply on_runs_step; exact E2). cbv beta iota.
  erewrite bind_step by apply deref_eq, Hd. exists t, l, w2. fold mark. split_and!; [done..|].
  intros x Hx. rewrite (cd_others _ _ _ _ _ _ Hd x Hx). by apply quiet_status.
Qed.
End Laws.

Section Retry.
Context (osr osq : OS) `{RunEnv, Digest, TimeText} (ticks : nat).
#[local] Existing Instance osr.


(** A retry of a run that is as the caller saw it arrives: with both stores
    working, the run is [Queued], its queue has one more item, which is the last of
    the low priority and names the run, and no other item was touched. *)
Theorem retry_reaches_queue dag c autoRetry w q st p a N
    (Hokr : ∀ n, @SysOk osr n = true) (Hokq : ∀ n, @SysOk osq n = true)
    (Hclock : ∀ n m, (n < m < N)%nat → (@Now osq n < @Now osq m)%Z)
    (Hinst : ∀ n, (n < N)%nat → instant_ok (@Now osq n)) :
  let ref := status_DAGRun st in
  let group := retryProcGroup dag (Some st) in
  rw_heap w !! c = Some st → private_object c w → at_status ref p st w → rs_Status st ≠ Queued →
  group ≠ "" → id_ok (rs_DAGRunID st) → @queue_inv osq group q a → (fs_calls q.1 + 64 <= N)%nat →
  ∃ t d w' q', EnqueueRetry osr osq ticks dag c autoRetry None (w, q) = (inr tt, (w', q')) ∧
    at_status ref p (mark_queued (FormatTime t) autoRetry (rs_Root st) st) w' ∧
    it_DAGRun d = ref ∧ @queue_inv osq group q' (a.1, a.2 ++ [d]) ∧
    ∀ group' b, group' ≠ group → @queue_inv osq group' q b → @queue_inv osq group' q' b.
Proof.
  intros ref group Hc Hp Hat Hnq Hg Hid Hq HN.
  destruct (EnqueueRetry_swap osr osq ticks Hokr dag c autoRetry w q st p st None Hc Hp Hat Hnq)
    as (t & u & w1 & E & Hat1 & Hc1 & Hp1 & _). fold ref in Hat1, E.
  assert (cas_accepts (rs_AttemptID st) (rs_Status st) st = true) as Ha.
  { unfold cas_accepts. by repeat case_bool_decide. }
  rewrite Ha in *. pose proof (push_retry_ok osr osq ticks Hokr dag ref p _ c u st w1 q Hat1 eq_refl Hc1 Hp1) as Hpush.
  change (retryProcGroup dag (Some (mark_queued _ _ _ st))) with group in Hpush. cbv zeta in Hpush.
  pose proof (@refine_enqueue osq ticks N Hokq Hclock Hinst group q a QueuePriorityLow ref Hq Hid HN) as Href.
  unfold run_qop, wp, bind in Href. destruct (@Enqueue osq group QueuePriorityLow ref q) as [rq qe].
  destruct Hpush as (r & w' & q' & Ep & _ & Hr). rewrite (bool_decide_false _ Hg) in Hr.
  destruct rq as [e|[]]; destruct Href as (a' & Hs & Hi & Ho); cbn [fst snd] in *.
  { inversion Hs; subst; done. }
  destruct Hr as [-> [-> Hat']]. inversion Hs as [|r' h l d Hd Hlate| | | | | | | | |]; subst.
  exists t, d, w', qe. rewrite E, Ep. split_and!; [done..|]. intros g' b Hg' Hb. by eapply others_inv.
Qed.
End Retry.

(** ** Repairing *)

(** A node that the repair has to close. *)
Definition open_node (n : ExecNode) : bool :=
  match en_Status n with NodeRunning | NodeNotStarted | NodeRetrying | NodeWaiting => true | _ => false end.

Lemma failNode_closed reason t n : open_node (failNode reason t n) = false.
Proof. unfold failNode, open_node. destruct (en_Status n) eqn:E; simpl; rewrite ?E; done. Qed.

Lemma failNode_step reason t n : en_Step (failNode reason t n) = en_Step n.
Proof. unfold failNode. by destruct (en_Status n). Qed.

(** The nodes to close: those of the status, or of the DAG when it has none. *)
Definition repair_nodes (s : DAGRunStatus) (dag : option DAG) : option (list ExecNode) :=
  match rs_Nodes s, dag with
  | [], None => None
  | [], Some d => Some (NewNodesFromSteps (dag_Steps d))
  | ns, _ => Some ns
  end.

(** The result of closing [nodes]. *)
Definition repaired (nodes : list ExecNode) (t : string) (s' : DAGRunStatus) : Prop :=
  rs_Status s' = Failed ∧ rs_Error s' = staleLocalRunError ∧ rs_FinishedAt s' = t ∧
  Forall (λ n, open_node n = false) (rs_Nodes s') ∧ en_Step <$> rs_Nodes s' = en_Step <$> nodes.

Lemma markActiveStatusFailed_repaired s nodes t :
  repaired nodes t (markActiveStatusFailed {| s with rs_Nodes := nodes |} staleLocalRunError t).
Proof.
  split_and!; [done..| |]; simpl.
  - apply Forall_map, Forall_true. intros n. apply failNode_closed.
  - rewrite <-list_fmap_compose. apply list_fmap_ext. intros i n _. apply failNode_step.
Qed.

Section Repair.
Context (osr : OS) `{RunEnv, Digest, TimeText}.
#[local] Existing Instance osr.

Lemma writeAttemptStatus_ok (Hok : ∀ n, SysOk n = true) p f s w :
  status_of p w = Some f → sf_torn f = false →
  ∃ t w', writeAttemptStatus osr p s w = (inr tt, w') ∧ wrote p (compacted s t) w w'.
Proof.
  intros Hf Ht. destruct (wrote_open_write_close Hok p f w s Hf Ht) as (t & w1 & w2 & w' & E1 & _ & E2 & E3 & Hw & _).
  exists t, w'. split; [|done]. unfold writeAttemptStatus, with_attempt. erewrite bind_step by exact E1.
  erewrite bind_step by (apply try_step; exact E2). by erewrite bind_step by (eapply ignore_step; exact E3).
Qed.

(** C7. Repairing a run whose process is gone, when the status file is whole (its last line
    was written to the end), no call fails and the cache points to the last statuses of
    the files: a run that is not active, or runs on a worker, is left alone; an active
    local one ends up [Failed] in the file with the reason and a finish time, no
    node of it is left waiting, running or to be started, and a run that never
    recorded its nodes gets those of the DAG, or an error when there is none.  Behind
    a torn last line the repaired status is lost. *)
Theorem RepairStaleLocalRun_correct (Hok : ∀ n, SysOk n = true) p dag w f s :
  coherent w → status_of p w = Some f → sf_torn f = false → last_status (sf_lines f) = Some s →
  let '(r, w') := RepairStaleLocalRun osr p dag w in
  (∀ x, x ≠ p → status_of x w' = status_of x w) ∧
  if Status_IsActive (rs_Status s) && is_local_worker (rs_WorkerID s) then
    match repair_nodes s dag with
    | None => r = inl ErrDAGRequired ∧ status_of p w' = Some f
    | Some nodes => ∃ t t' s', r = inr (s', true) ∧ status_of p w' = Some (mkStatusFile [Some s'] false (status_len s') t') ∧
        rs_Status s' = Failed ∧ rs_Error s' = staleLocalRunError ∧ rs_FinishedAt s' = FormatTime t ∧
        Forall (λ n, open_node n = false) (rs_Nodes s') ∧ en_Step <$> rs_Nodes s' = en_Step <$> nodes
    end
  else r = inr (s, false) ∧ status_of p w' = Some f.
Proof.
  intros Hco Hf Ht Hs. destruct (wp_ReadStatus Hok p w f s Hco Hf Hs) as (l & w1 & E1 & Hl & R).
  assert (∀ q, status_of q w1 = status_of q w) as Hst.
  { intros q. unfold status_of, find_attempt, attempts_of, find_run, get_tree. by rewrite (ra_trees _ _ _ _ R). }
  unfold RepairStaleLocalRun. erewrite bind_step by exact E1. erewrite bind_step by reflexivity.
  rewrite Hl. cbn [default from_option id]. rewrite <-negb_andb.
  destruct (Status_IsActive _ && _); cbv [negb]; [|split; [done|]; by rewrite Hst].
  destruct (repair_nodes s dag) as [ns|] eqn:En; unfold repair_nodes in En.
  - destruct (quiet_rnow w1) as (t & w2 & E2 & Hq2).
    set (s' := markActiveStatusFailed {| s with rs_Nodes := ns |} staleLocalRunError (FormatTime t)).
    destruct (writeAttemptStatus_ok Hok p f s' w2) as (t' & w3 & E3 & W3); [by rewrite (quiet_status p w1 w2 Hq2), Hst|done|].
    erewrite bind_step; [|instantiate (1 := w1); instantiate (1 := ns); by destruct (rs_Nodes s), dag; simplify_eq].
    erewrite bind_step by exact E2. cbv zeta. fold s'. erewrite bind_step by exact E3. unfold ret.
    split; [intros x Hx; by rewrite (wr_others _ _ _ _ W3), (quiet_status x w1 w2 Hq2)|].
    exists t, t', s'. split; [done|]. split; [apply W3|]. apply (markActiveStatusFailed_repaired s ns).
  - erewrite bind_fail; [|instantiate (1 := w1); instantiate (1 := ErrDAGRequired); by destruct (rs_Nodes s), dag; simplify_eq].
    split; [done|]. by rewrite Hst.
Qed.
End Repair.
