(* ===== verification/RunExamples.v ===== *)
(** * Runs: concrete histories

    One run of a DAG with a failed attempt, the witnesses of the theorems about
    compare-and-swap, retries and repairs, and histories in which the code does
    not do what it means to. *)

From stdpp Require Import base strings list gmap.
From Stdlib Require Import ZArith Lia Ascii.
From S2P Require Import Prelude Status Step GoStrings GoDate Schedule RunStatus Catchup FileSys DirLock DirLockLaws QueueName QueueFile QueueStore QueueRep QueueRefine QueueExamples RunFiles RunStore RunLife RunStoreLaws RunCas RunLifeLaws.

Open Scope op_scope.

Definition zero_digest : Digest := {| sha256_hex := λ _, "0000000000" |}.
Definition plain_text : TimeText :=
  {| FormatRFC3339 := λ _, "2026-01-01T00:00:00Z"; FormatUTC := λ _, "2026-01-01T00:00:00Z"; parseTimeRFC3339 := λ _, None |}.

(** A store with a cache; a failed write leaves bytes behind. *)
Definition cached : RunEnv :=
  {| status_len := λ _, 100%Z; CacheOn := true; Evicted := λ _, false; PartialWrite := λ _, true |}.

#[local] Existing Instances zero_digest plain_text cached.
#[local] Instance clock : OS := steady 1.

Lemma clock_ok n : SysOk n = true.
Proof. done. Qed.

(** No call succeeds. *)
Definition broken : OS := {| SysOk := λ _, false; Now := λ n, Z.of_nat n; FreshToken := λ _, "x" |}.

(** The calls from [a] to [b] fail. *)
Definition failing (a b : nat) : OS :=
  {| SysOk := λ n, (n <? a)%nat || (b <? n)%nat; Now := @Now clock; FreshToken := @FreshToken clock |}.

Definition etl : DAG := plain_dag "etl" "/dags/etl.yaml" [] [] [] 0 "".
Definition status_a1 (st : Status) : DAGRunStatus :=
  {| DAGRunStatus_zero with rs_Name := "etl"; rs_DAGRunID := "r1"; rs_AttemptID := "a1"; rs_Status := st |}.

Definition empty_world : RunWorld := mkRunWorld (mkFS ∅ 0) ∅ [] ∅.

(** A new run [r1] with the attempt [a1] and its first status. *)
Definition start_run (st : Status) : ROp AttemptPath :=
  let* a := CreateAttempt 0 etl base "r1" (mkNewDAGRunAttemptOptions None false "a1") in
  with_attempt a (Attempt_Open ;* Attempt_Write (status_a1 st) ;* Attempt_Close) ;* ret (att_path a).

Definition a1_path : AttemptPath :=
  mkAttemptPath (mkRunPath "etl" "2026" "01" "01" "dag-run_20260101_000000Z_r1" None)
    "attempt_20260101_000000_000Z_a1".

Definition failed_world : RunWorld := (start_run Failed empty_world).2.

Lemma start_run_path : (start_run Failed empty_world).1 = inr a1_path.
Proof. vm_compute. reflexivity. Qed.

(** The status that the file of [a1] ends with. *)
Definition a1_status (w : RunWorld) : option Status :=
  f ← status_of a1_path w; s ← last_status (sf_lines f); Some (rs_Status s).

(** ** Witnesses *)
Lemma empty_cache_coherent w : rw_cache w = ∅ → coherent w.
Proof. intros E. split; intros *; rewrite E; [by rewrite lookup_empty|by rewrite lookup_empty|by rewrite lookup_empty|done]. Qed.

Definition failed_file : StatusFile := default (mkStatusFile [] true 0 0) (status_of a1_path failed_world).

(** The caller holds a status of its own, the object 0. *)
Definition caller_world : RunWorld := {| failed_world with rw_heap := [status_a1 Failed] |}.

Lemma caller_at : at_status run1 a1_path (status_a1 Failed) caller_world.
Proof.
  split.
  - apply empty_cache_coherent. vm_compute. reflexivity.
  - vm_compute. reflexivity.
  - vm_compute. reflexivity.
  - exists failed_file. split_and!; vm_compute; reflexivity.
Qed.

Lemma caller_private : private_object 0 caller_world.
Proof.
  split; [vm_compute; lia|]. intros q e. assert (rw_cache caller_world = ∅) as -> by (vm_compute; reflexivity).
  by rewrite lookup_empty.
Qed.

Definition to_aborted (s : DAGRunStatus) : DAGRunStatus := {| s with rs_Status := Aborted |}.

Lemma CAS_correct_witness :
  let '(r, w') := CompareAndSwapLatestAttemptStatus 0 run1 "a1" Failed (λ s, (None, to_aborted s)) caller_world in
  (snd <$> match r with inr x => Some x | inl _ => None end) = Some true ∧ a1_status w' = Some Aborted.
Proof.
  destruct (CAS_correct clock_ok 0 run1 a1_path (status_a1 Failed) "a1" Failed
    (λ s, (None, to_aborted s)) caller_world caller_at) as (l & w' & r & s' & E & [-> ->] & _ & Hat & _).
  rewrite E. split; [reflexivity|]. destruct (at_file _ _ _ _ Hat) as (f & Hf & Hs & _).
  unfold a1_status. rewrite Hf. simpl. by rewrite Hs.
Defined.

Definition no_queue : FS Content * Store := (no_files, NewStore).


Lemma retry_reaches_queue_witness :
  ∃ d w' q', EnqueueRetry clock clock 0 (Some etl) 0 true None (caller_world, no_queue) = (inr tt, (w', q')) ∧
    a1_status w' = Some Queued ∧ it_DAGRun d = run1 ∧ @queue_inv clock "etl" q' ([], [d]).
Proof.
  destruct (retry_reaches_queue clock clock 0 (Some etl) 0 true caller_world no_queue (status_a1 Failed) a1_path ([], []) 1000
    clock_ok clock_ok steady_clock steady_instant eq_refl caller_private caller_at ltac:(done) ltac:(done)
    ltac:(by split) (fresh_store_inv "etl" 0) ltac:(vm_compute; lia)) as (t & d & w' & q' & E & Hat & Hd & Hq & _).
  exists d, w', q'. split_and!; [exact E| |exact Hd|exact Hq].
  destruct (at_file _ _ _ _ Hat) as (f & Hf & Hs & _). unfold a1_status. rewrite Hf. simpl. by rewrite Hs.
Defined.

(** A run that was [Running] when its process was lost. *)
Definition running_world : RunWorld := (start_run Running empty_world).2.
Definition running_file : StatusFile := default (mkStatusFile [] true 0 0) (status_of a1_path running_world).

Lemma RepairStaleLocalRun_correct_witness :
  sf_torn running_file = false ∧
  let '(r, w') := RepairStaleLocalRun clock a1_path (Some etl) running_world in a1_status w' = Some Failed.
Proof.
  split; [vm_compute; reflexivity|].
  pose proof (RepairStaleLocalRun_correct clock clock_ok a1_path (Some etl) running_world running_file (status_a1 Running)
    (empty_cache_coherent running_world ltac:(vm_compute; reflexivity)) ltac:(vm_compute; reflexivity)
    ltac:(vm_compute; reflexivity) ltac:(vm_compute; reflexivity)) as Hr.
  destruct (RepairStaleLocalRun _ _ _ _) as [r w']. destruct Hr as (_ & t & t' & s' & _ & Hf & Hs & _).
  unfold a1_status. rewrite Hf. simpl. by rewrite Hs.
Defined.

(** ** The rollback of a failed retry

    The caller reads the status through the cache of the store, as the server and
    the scheduler do. *)
Definition read_and_retry (osq : OS) : Op (RunWorld * (FS Content * Store)) unit :=
  let* p := on_runs (@FindAttempt clock _ run1) in
  let* l := on_runs (@ReadStatus clock _ p) in
  EnqueueRetry clock osq 0 (Some etl) l true None.

(** With the status cache, the status a caller read is the object that the swap
    changes, so the rollback of [EnqueueRetry] restores what it just wrote: when
    the queue refuses the item, the run stays [Queued], with its retry counted and
    no queue item. *)
Theorem retry_rollback_keeps_queued :
  let '(r, (w', q')) := read_and_retry broken (failed_world, no_queue) in
  r = inl EIO ∧ a1_status w' = Some Queued ∧ (Len "etl" q').1 = inr 0%Z.
Proof. vm_compute. split_and!; reflexivity. Qed.

(** ** A line that was not written to its end *)

(** The process is lost while it appends a status. *)
Definition torn_world : RunWorld :=
  (with_attempt (NewAttemptAt a1_path None) (Attempt_Open ;* @Attempt_Write broken cached (status_a1 Running)) running_world).2.

(** A status that is appended to a line that was not written to its end is lost:
    it is one line with the rest of the old one, which decodes to nothing, and
    closing the file drops the line.  So the repair of a run whose process died
    while it wrote reports success and leaves the run [Running]. *)
Theorem torn_line_swallows_repair :
  let '(r, w') := RepairStaleLocalRun clock a1_path (Some etl) torn_world in
  (match r with inr (s, done) => Some (rs_Status s, done) | inl _ => None end) = Some (Failed, true) ∧
  a1_status w' = Some Running.
Proof. vm_compute. split; reflexivity. Qed.

(** ** A retry that is taken back *)

(** A retry marks the finished attempt itself as [Queued].  Taking the run out of
    the queue before it starts therefore hides the attempt that failed, finds no
    other one, and removes the run with everything it recorded. *)
Theorem dequeued_retry_erases_run :
  let '(r, (w', q')) := (read_and_retry clock ;* AbortQueuedDAGRun clock 0 run1) (failed_world, no_queue) in
  r = inr tt ∧ (FindAttempt run1 failed_world).1 = inr a1_path ∧ (FindAttempt run1 w').1 = inl ErrDAGRunIDNotFound ∧
  find_run (ap_run a1_path) w' = None.
Proof. vm_compute. split_and!; reflexivity. Qed.
