(* ===== verification/ProcStore.v ===== *)
(** * Heartbeat files of running processes (core/exec/proc.go, persis/fileproc)

    A process that executes a run keeps a file in the directory of its group and
    DAG.  The first eight bytes are the Unix time of the last heartbeat, the rest is
    the JSON of the metadata; older versions wrote the heartbeat only.  A process
    counts as alive while the file or the recorded heartbeat is younger than the
    threshold of the store.

    [pf_header] are the bytes of the header; the payload is modelled by what it
    decodes to.  A writer that is open after its file was unlinked writes to
    nobody: the path is the file while it exists, since only its own process
    creates it.  An operation is one step; files of the operating system other than
    directories and [.proc] files are ignored, as the code does. *)

From stdpp Require Import base strings list gmap sorting.
From Stdlib Require Import ZArith Lia Ascii.
From S2P Require Import Prelude GoStrings GoDate RunStatus Catchup FileSys DirLock QueueName QueueStore.

Open Scope op_scope.
Open Scope Z_scope.

(** ** exec/proc.go *)
Record ProcMeta := mkProcMeta {
  pm_StartedAt : Z;
  pm_Name : string;
  pm_DAGRunID : string;
  pm_AttemptID : string;
  pm_RootName : string;
  pm_RootDAGRunID : string;
}.

#[export] Instance ProcMeta_eq_dec : EqDecision ProcMeta.
Proof. solve_decision. Defined.

Definition meta_Root (m : ProcMeta) : DAGRunRef :=
  if bool_decide (pm_RootName m = "") || bool_decide (pm_RootDAGRunID m = "") then zeroRef
  else mkDAGRunRef (pm_RootName m) (pm_RootDAGRunID m).

Definition meta_DAGRun (m : ProcMeta) : DAGRunRef := mkDAGRunRef (pm_Name m) (pm_DAGRunID m).

(** The directory of the group, of the DAG in it, and the file. *)
Record ProcPath := mkProcPath { pp_group : string; pp_dag : string; pp_file : string }.

#[export] Instance ProcPath_eq_dec : EqDecision ProcPath.
Proof. solve_decision. Defined.

Record ProcEntry := mkProcEntry {
  pe_GroupName : string;
  pe_FilePath : ProcPath;
  pe_Meta : ProcMeta;
  pe_LastHeartbeatAt : Z;
  pe_Fresh : bool;
}.

Definition IsRoot (e : ProcEntry) : bool :=
  let m := pe_Meta e in
  bool_decide (pm_RootName m = pm_Name m) && bool_decide (pm_RootDAGRunID m = pm_DAGRunID m).

Definition RunScopeKey (e : ProcEntry) : string :=
  let m := pe_Meta e in
  (pe_GroupName e ++ "|" ++ DAGRunRef_String (meta_Root m) ++ "|" ++ pm_Name m ++ "|" ++ pm_DAGRunID m)%string.

Definition AttemptKey (e : ProcEntry) : string :=
  (RunScopeKey e ++ "|" ++ pm_AttemptID (pe_Meta e))%string.

(** ** procfile.go: names *)
Definition procFilePrefix : string := "proc_".
Definition procFileExt : string := ".proc".
Definition procFileVersion : Z := 1.
Definition heartbeatSize : nat := 8.

(** [hex.EncodeToString] and [hex.DecodeString] *)
Definition byte_value (c : ascii) : Z := Z.of_nat (nat_of_ascii c).

Fixpoint hex_encode (s : string) : string :=
  match s with
  | EmptyString => EmptyString
  | String c s' =>
      String (hex_digit (byte_value c / 16)) (String (hex_digit (byte_value c mod 16)) (hex_encode s'))
  end.

Definition hex_value (c : ascii) : option Z :=
  let n := byte_value c in
  if (48 <=? n) && (n <=? 57) then Some (n - 48)
  else if (97 <=? n) && (n <=? 102) then Some (n - 87)
  else if (65 <=? n) && (n <=? 70) then Some (n - 55)
  else None.

Fixpoint hex_decode (s : string) : option string :=
  match s with
  | EmptyString => Some EmptyString
  | String _ EmptyString => None
  | String a (String b s') =>
      x ← hex_value a; y ← hex_value b; rest ← hex_decode s';
      Some (String (ascii_of_nat (Z.to_nat (16 * x + y))) rest)
  end.

(** [0-9a-f] *)
Definition lower_hex (c : ascii) : bool :=
  let n := byte_value c in ((48 <=? n) && (n <=? 57)) || ((97 <=? n) && (n <=? 102)).

(** The longest prefix of characters in a class. *)
Fixpoint span (f : ascii → bool) (s : string) : string * string :=
  match s with
  | EmptyString => (EmptyString, EmptyString)
  | String c s' => if f c then let '(a, b) := span f s' in (String c a, b) else (EmptyString, s)
  end.

Inductive procFileFormat := procFileFormatCurrent | procFileFormatLegacy.

Record procFileName := mkProcFileName {
  pn_format : procFileFormat;
  pn_createdAt : Time;
  pn_dagRunID : string;
  pn_attemptID : string;
}.

(** [reSafeID] *)
Definition reSafeID (s : string) : bool := negb (bool_decide (s = "")) && string_forallb run_id_char s.

(** The timestamp and what follows it. *)
Definition match_timestamp (filename : string) : option (string * string * string) :=
  s ← strip_prefix procFilePrefix filename;
  '(d8, s) ← take_digits 8 s;
  s ← strip_prefix "_" s;
  '(d6, s) ← take_digits 6 s;
  s ← strip_prefix "Z_" s;
  Some (d8, d6, s).

(** [procFileRegex]: the two identifiers. *)
Definition procFileRegex (filename : string) : option (string * string * string * string) :=
  '(d8, d6, s) ← match_timestamp filename;
  let '(a, s) := span lower_hex s in
  if bool_decide (a = "") then None
  else
    s ← strip_prefix "_" s;
    let '(b, s) := span lower_hex s in
    if bool_decide (b = "") || negb (bool_decide (s = procFileExt)) then None else Some (d8, d6, a, b).

(** [legacyProcFileRegex]: the run. *)
Definition legacyProcFileRegex (filename : string) : option (string * string * string) :=
  '(d8, d6, s) ← match_timestamp filename;
  let '(a, s) := span run_id_char s in
  if bool_decide (a = "") || negb (bool_decide (s = procFileExt)) then None else Some (d8, d6, a).

Definition legacyProcAttemptID (dagRunID : string) : string := ("legacy_" ++ hex_encode dagRunID)%string.

Definition parseProcFileName (filename : string) : Err + procFileName :=
  match procFileRegex filename with
  | Some (d8, d6, a, b) =>
      match parse_dateTimeUTC d8 d6, hex_decode a, hex_decode b with
      | Some t, Some run, Some att => inr (mkProcFileName procFileFormatCurrent t run att)
      | _, _, _ => inl ErrInvalidProcFile
      end
  | None =>
      match legacyProcFileRegex filename with
      | Some (d8, d6, a) =>
          match parse_dateTimeUTC d8 d6 with
          | Some t =>
              if ValidateDAGRunID a then inr (mkProcFileName procFileFormatLegacy t a (legacyProcAttemptID a))
              else inl ErrInvalidProcFile
          | None => inl ErrInvalidProcFile
          end
      | None => inl ErrInvalidProcFile
      end
  end.

Definition procFilePath (group : string) (t : Time) (meta : ProcMeta) : ProcPath :=
  mkProcPath group (pm_Name meta)
    (procFilePrefix ++ format_dateTimeUTC t ++ "Z_" ++ hex_encode (pm_DAGRunID meta) ++ "_" ++
     hex_encode (pm_AttemptID meta) ++ procFileExt)%string.

(** Whether [validateProcMeta] returns nil. *)
Definition validateProcMeta (m : ProcMeta) : bool :=
  negb (bool_decide (pm_Name m = "")) && ValidateDAGRunID (pm_DAGRunID m) &&
  negb (bool_decide (pm_AttemptID m = "")) && reSafeID (pm_AttemptID m) && (0 <? pm_StartedAt m) &&
  Bool.eqb (bool_decide (pm_RootName m = "")) (bool_decide (pm_RootDAGRunID m = "")) &&
  (bool_decide (pm_RootDAGRunID m = "") || ValidateDAGRunID (pm_RootDAGRunID m)).

(** ** procfile.go: contents *)
Record procDiskMeta := mkProcDiskMeta {
  dm_Version : Z;
  dm_DAGName : string;
  dm_DAGRunID : string;
  dm_AttemptID : string;
  dm_RootName : string;
  dm_RootDAGRunID : string;
  dm_StartedAt : Z;
}.

(** What follows the header: nothing, JSON of the metadata, or anything else. *)
Inductive Payload := PayloadNone | PayloadMeta (d : procDiskMeta) | PayloadJunk.

Record ProcFile := mkProcFile { pf_header : list Z; pf_payload : Payload; pf_mtime : Time }.

(** [binary.BigEndian.PutUint64] and [Uint64] *)
Fixpoint be_bytes (n : nat) (z : Z) : list Z :=
  match n with
  | O => []
  | S n' => be_bytes n' (z / 256) ++ [z mod 256]
  end.
Definition PutUint64 (z : Z) : list Z := be_bytes heartbeatSize (z mod 2 ^ 64).
Definition Uint64 (l : list Z) : Z := foldl (λ acc b, acc * 256 + b) 0 l.

Definition diskMeta (m : ProcMeta) : procDiskMeta :=
  mkProcDiskMeta procFileVersion (pm_Name m) (pm_DAGRunID m) (pm_AttemptID m) (pm_RootName m) (pm_RootDAGRunID m)
    (pm_StartedAt m).

(** [marshalProcMeta] and [writeProcFile]: the content of a new file. *)
Definition writeProcFile (heartbeatUnix : Z) (m : ProcMeta) (mtime : Time) : option ProcFile :=
  if validateProcMeta m then Some (mkProcFile (PutUint64 heartbeatUnix) (PayloadMeta (diskMeta m)) mtime) else None.

Definition writeHeartbeat (heartbeatUnix : Z) (mtime : Time) (f : ProcFile) : ProcFile :=
  mkProcFile (PutUint64 heartbeatUnix) (pf_payload f) mtime.

(** [time.Unix(sec, 0)] *)
Definition unixSeconds : Z := unixEpoch / Second.
Definition TimeUnix (sec : Z) : Time := wrap64 (sec + unixSeconds) * Second.
(** [Time.Unix] *)
Definition UnixOf (t : Time) : Z := (t - unixEpoch) / Second.

Definition legacyProcMeta (path : ProcPath) (n : procFileName) (heartbeatTime mtime : Time) : Err + ProcMeta :=
  let dagName := pp_dag path in
  if bool_decide (dagName = "") || bool_decide (dagName = ".") then inl ErrInvalidProcFile
  else
    let startedAt := UnixOf (pn_createdAt n) in
    let startedAt := if startedAt <=? 0 then UnixOf heartbeatTime else startedAt in
    let startedAt := if startedAt <=? 0 then UnixOf mtime else startedAt in
    let meta := mkProcMeta startedAt dagName (pn_dagRunID n) (pn_attemptID n) dagName (pn_dagRunID n) in
    if validateProcMeta meta then inr meta else inl ErrInvalidProcFile.

(** The metadata of a file of the current format. *)
Definition currentProcMeta (path : ProcPath) (n : procFileName) (f : ProcFile) : Err + ProcMeta :=
  match pf_payload f with
  | PayloadMeta d =>
      if negb (dm_Version d =? procFileVersion) then inl ErrInvalidProcFile
      else
        let meta := mkProcMeta (dm_StartedAt d) (dm_DAGName d) (dm_DAGRunID d) (dm_AttemptID d) (dm_RootName d)
                      (dm_RootDAGRunID d) in
        if negb (validateProcMeta meta) then inl ErrInvalidProcFile
        else if bool_decide (pn_dagRunID n ≠ pm_DAGRunID meta) || bool_decide (pn_attemptID n ≠ pm_AttemptID meta)
        then inl ErrInvalidProcFile
        else if bool_decide (pp_dag path ≠ pm_Name meta) then inl ErrInvalidProcFile
        else inr meta
  | PayloadNone | PayloadJunk => inl ErrInvalidProcFile
  end.

Definition is_fresh (staleTime : Duration) (now mtime heartbeatTime : Time) : bool :=
  (Sub now mtime <? staleTime) || (Sub now heartbeatTime <? staleTime).

(** [readProcEntry] after the file was read. *)
Definition decodeProcEntry (path : ProcPath) (groupName : string) (staleTime : Duration) (now : Time)
    (n : procFileName) (f : ProcFile) : Err + ProcEntry :=
  if (length (pf_header f) <? heartbeatSize)%nat then inl ErrInvalidProcFile
  else
    let lastHeartbeatAt := wrap64 (Uint64 (pf_header f)) in
    let heartbeatTime := TimeUnix lastHeartbeatAt in
    if After heartbeatTime (AddD now (5 * Minute)) then inl ErrInvalidProcFile
    else
      let meta :=
        match pn_format n with
        | procFileFormatCurrent => currentProcMeta path n f
        | procFileFormatLegacy =>
            match pf_payload f with
            | PayloadNone => legacyProcMeta path n heartbeatTime (pf_mtime f)
            | PayloadMeta _ | PayloadJunk => inl ErrInvalidProcFile
            end
        end in
      match meta with
      | inl e => inl e
      | inr meta =>
          inr (mkProcEntry groupName path meta lastHeartbeatAt (is_fresh staleTime now (pf_mtime f) heartbeatTime))
      end.

Definition sameProcEntry (a b : ProcEntry) : bool :=
  bool_decide (pe_GroupName a = pe_GroupName b) && bool_decide (pe_FilePath a = pe_FilePath b) &&
  (pe_LastHeartbeatAt a =? pe_LastHeartbeatAt b) && bool_decide (pe_Meta a = pe_Meta b).

(** ** The store of processes (persis/fileproc/store.go, procgrp.go, handle.go)

    The state has the directories of the groups and the clock.  The goroutine that
    writes heartbeats is three operations on its handle: a tick, the end of its
    context, and what starting it does. *)

Abbreviation DagDir := (gmap string ProcFile).
Abbreviation GroupDir := (gmap string DagDir).

Record ProcWorld := mkProcWorld {
  pw_fs : FS unit;
  pw_groups : gmap string GroupDir;
}.

Abbreviation POp A := (Op ProcWorld A).

Record ProcConfig := mkProcConfig {
  pc_staleTime : Duration;
  pc_heartbeatInterval : Duration;
  pc_syncInterval : Duration;
}.

(** [New] without options. *)
Definition defaultProcConfig : ProcConfig := mkProcConfig (90 * Second) (5 * Second) (10 * Second).

(** An option with a duration that is not positive is ignored. *)
Definition WithStaleThreshold (d : Duration) (c : ProcConfig) : ProcConfig :=
  if 0 <? d then {| c with pc_staleTime := d |} else c.
Definition WithHeartbeatInterval (d : Duration) (c : ProcConfig) : ProcConfig :=
  if 0 <? d then {| c with pc_heartbeatInterval := d |} else c.

Definition find_proc (p : ProcPath) (w : ProcWorld) : option ProcFile :=
  dags ← pw_groups w !! pp_group p; files ← dags !! pp_dag p; files !! pp_file p.

Definition put_proc (p : ProcPath) (f : ProcFile) (w : ProcWorld) : ProcWorld :=
  let dags := default ∅ (pw_groups w !! pp_group p) in
  let files := default ∅ (dags !! pp_dag p) in
  {| w with pw_groups := <[pp_group p := <[pp_dag p := <[pp_file p := f]> files]> dags]> (pw_groups w) |}.

Definition remove_proc (p : ProcPath) (w : ProcWorld) : ProcWorld :=
  match pw_groups w !! pp_group p with
  | None => w
  | Some dags =>
      match dags !! pp_dag p with
      | None => w
      | Some files =>
          {| w with pw_groups := <[pp_group p := <[pp_dag p := delete (pp_file p) files]> dags]> (pw_groups w) |}
      end
  end.

(** [os.Remove] of the directory of a DAG: it must be empty. *)
Definition remove_dag_dir (p : ProcPath) (w : ProcWorld) : ProcWorld :=
  match pw_groups w !! pp_group p with
  | None => w
  | Some dags =>
      match dags !! pp_dag p with
      | Some files =>
          if bool_decide (files = ∅)
          then {| w with pw_groups := <[pp_group p := delete (pp_dag p) dags]> (pw_groups w) |} else w
      | None => w
      end
  end.

(** The names of a group's proc files, ordered by path. *)
Definition visible_dir (n : string) : bool :=
  match n with String c _ => negb (Ascii.eqb c dot) | EmptyString => false end.

#[local] Instance proc_path_le_dec : RelDecision path_le := λ a b, string_le_dec _ _.

Definition proc_files (dags : GroupDir) : list (string * string) :=
  merge_sort path_le
    (map_to_list dags ≫= λ '(d, files),
       if visible_dir d then map (pair d) (filter (λ n, Ext n = procFileExt) (map_to_list files).*1) else []).

(** ** Handles *)
Record ProcHandle := mkProcHandle {
  ph_fileName : ProcPath;
  ph_started : bool;
  ph_canceled : bool;
  ph_running : bool;             (* the goroutine writes heartbeats *)
  ph_meta : ProcMeta;
  ph_heartbeatInterval : Duration;
  ph_syncInterval : Duration;
}.

Definition NewProcHandler (file : ProcPath) (meta : ProcMeta) (heartbeatInterval syncInterval : Duration) : ProcHandle :=
  mkProcHandle file false false false meta
    (if heartbeatInterval <=? 0 then 5 * Second else heartbeatInterval)
    (if syncInterval <=? 0 then 10 * Second else syncInterval).

Section ProcStore.
Context `{OS} (cfg : ProcConfig).

Definition psys : POp unit := zoom pw_fs (λ fs w, {| w with pw_fs := fs |}) syscall.
Definition pnow : POp Time := zoom pw_fs (λ fs w, {| w with pw_fs := fs |}) now.

(** *** Reading *)
Definition readProcEntry (path : ProcPath) (groupName : string) (now : Time) : POp ProcEntry :=
  match parseProcFileName (pp_file path) with
  | inl e => fail e
  | inr n =>
      psys ;*                                              (* os.Stat *)
      let* f := gets (find_proc path) in
      match f with
      | None => fail ENotExist
      | Some f =>
          psys ;*                                          (* os.ReadFile *)
          match decodeProcEntry path groupName (pc_staleTime cfg) now n f with
          | inl e => fail e
          | inr entry => ret entry
          end
      end
  end.

(** A file that vanished is skipped, any other error ends the listing. *)
Definition read_one (group : string) (now : Time) (acc : list ProcEntry) (file : string * string) : POp (list ProcEntry) :=
  let* r := try (readProcEntry (mkProcPath group file.1 file.2) group now) in
  match r with
  | inr e => ret (acc ++ [e])
  | inl ENotExist => ret acc
  | inl e => fail e
  end.

Definition ListEntries (group : string) : POp (list ProcEntry) :=
  let* s := try psys in
  let* dags := gets (λ w, pw_groups w !! group) in
  match s, dags with
  | inr _, None => ret []
  | _, _ =>
      psys ;*                                              (* os.ReadDir *)
      match dags with
      | None => ret []
      | Some dags =>
          each (λ _ _, psys) tt (filter (λ d, visible_dir d = true) (map_to_list dags).*1) ;*
          let* t := pnow in
          each (read_one group t) [] (proc_files dags)
      end
  end.

Definition group_names (w : ProcWorld) : list string := SortStrings (map_to_list (pw_groups w)).*1.

Definition ListAllEntries : POp (list ProcEntry) :=
  ignore psys ;* psys ;*                                   (* os.Stat, os.ReadDir *)
  let* groups := gets group_names in
  each (λ acc g, let* l := ListEntries g in ret (acc ++ l)) [] groups.

Definition Validate : POp unit := let* _ := ListAllEntries in ret tt.

(** *** Who is alive *)
Definition fresh_refs (entries : list ProcEntry) : list DAGRunRef :=
  map (λ e, meta_DAGRun (pe_Meta e)) (filter (λ e, pe_Fresh e = true) entries).

(** The distinct texts of references. *)
Definition count_refs (refs : list DAGRunRef) : Z :=
  Z.of_nat (size (list_to_set (map DAGRunRef_String refs) : gset string)).

Definition CountAlive (group : string) : POp Z :=
  let* entries := ListEntries group in ret (count_refs (fresh_refs entries)).

Definition CountAliveByDAGName (group dagName : string) : POp Z :=
  let* entries := ListEntries group in
  ret (count_refs (filter (λ r, ref_Name r = dagName) (fresh_refs entries))).

Definition IsRunAlive (group : string) (dagRun : DAGRunRef) : POp bool :=
  let* entries := ListEntries group in
  ret (existsb (λ e, pe_Fresh e && bool_decide (pm_Name (pe_Meta e) = ref_Name dagRun) &&
                     bool_decide (pm_DAGRunID (pe_Meta e) = ref_ID dagRun)) entries).

Definition IsAttemptAlive (group : string) (dagRun : DAGRunRef) (attemptID : string) : POp bool :=
  let* entries := ListEntries group in
  ret (existsb (λ e, pe_Fresh e && bool_decide (pm_Name (pe_Meta e) = ref_Name dagRun) &&
                     bool_decide (pm_DAGRunID (pe_Meta e) = ref_ID dagRun) &&
                     bool_decide (pm_AttemptID (pe_Meta e) = attemptID)) entries).

(** [sort.Slice] of references by name, then by identifier. *)
Definition ref_le (a b : DAGRunRef) : Prop :=
  if bool_decide (ref_Name a = ref_Name b) then string_le (ref_ID a) (ref_ID b) else string_le (ref_Name a) (ref_Name b).
#[local] Instance ref_le_dec : RelDecision ref_le.
Proof. intros a b. unfold ref_le. case_bool_decide; apply string_le_dec. Defined.

(** [freshRefs]: the last reference of each text, sorted. *)
Definition freshRefs (entries : list ProcEntry) : list DAGRunRef :=
  let seen := foldl (λ m r, <[DAGRunRef_String r := r]> m) (∅ : gmap string DAGRunRef) (fresh_refs entries) in
  merge_sort ref_le (map_to_list seen).*2.

Definition ListAlive (group : string) : POp (list DAGRunRef) :=
  let* entries := ListEntries group in ret (freshRefs entries).

(** [ListAllAlive]: per group the first reference of each text, sorted. *)
Definition add_alive (m : gmap string (list DAGRunRef)) (e : ProcEntry) : gmap string (list DAGRunRef) :=
  let ref := meta_DAGRun (pe_Meta e) in
  let refs := default [] (m !! pe_GroupName e) in
  if negb (pe_Fresh e) || bool_decide (DAGRunRef_String ref ∈ map DAGRunRef_String refs) then m
  else <[pe_GroupName e := refs ++ [ref]]> m.

Definition ListAllAlive : POp (gmap string (list DAGRunRef)) :=
  let* entries := ListAllEntries in ret (merge_sort ref_le <$> foldl add_alive ∅ entries).

(** The entry that started last, and among those the one that was heard last. *)
Definition fresher (e cur : ProcEntry) : bool :=
  (pm_StartedAt (pe_Meta cur) <? pm_StartedAt (pe_Meta e)) ||
  ((pm_StartedAt (pe_Meta e) =? pm_StartedAt (pe_Meta cur)) && (pe_LastHeartbeatAt cur <? pe_LastHeartbeatAt e)).

Definition LatestFreshEntryByDAGName (group dagName : string) : POp (option ProcEntry) :=
  let* entries := ListEntries group in
  ret (foldl (λ best e,
    if negb (pe_Fresh e) || negb (bool_decide (pm_Name (pe_Meta e) = dagName)) then best
    else match best with
         | None => Some e
         | Some b => if fresher e b then Some e else best
         end) None entries).

(** *** Removing *)
Definition RemoveIfStale (entry : ProcEntry) : POp unit :=
  if bool_decide (pe_GroupName entry = "") then ret tt
  else
    let p := pe_FilePath entry in
    let* t := pnow in
    let* r := try (readProcEntry p (pe_GroupName entry) t) in
    match r with
    | inl ENotExist => ret tt
    | inl e => fail e
    | inr current =>
        if pe_Fresh current || negb (sameProcEntry current entry) then ret tt
        else
          psys ;* modify (remove_proc p) ;*
          ignore (psys ;* modify (remove_dag_dir p))
    end.

(** *** Heartbeats *)

(** [openInitializedProcFile]: a temporary file is written, synced, closed,
    renamed to the name and opened again. *)
Definition openInitializedProcFile (h : ProcHandle) (heartbeatUnix : Z) : POp unit :=
  psys ;* psys ;*                                          (* MkdirAll, CreateTemp *)
  let* t := pnow in
  match writeProcFile heartbeatUnix (ph_meta h) t with
  | None => fail ErrInvalidProcMeta
  | Some f =>
      psys ;* psys ;* psys ;* psys ;* psys ;*              (* Truncate, WriteAt, Sync, Close, Rename *)
      modify (put_proc (ph_fileName h) f) ;*
      let* r := try psys in                                (* OpenFile *)
      match r with
      | inr _ => ret tt
      | inl e => ignore (psys ;* modify (remove_proc (ph_fileName h))) ;* fail e
      end
  end.

(** The handle afterwards; [started] stays set when the directory cannot be made. *)
Definition startHeartbeat (h : ProcHandle) : POp (ProcHandle * (Err + unit)) :=
  if ph_started h then ret (h, inl ErrHeartbeatAlreadyStarted)
  else if negb (validateProcMeta (ph_meta h)) then ret ({| h with ph_started := false |}, inl ErrInvalidProcMeta)
  else
    let h1 := {| h with ph_started := true |} in
    let* m := try psys in                                  (* MkdirAll *)
    match m with
    | inl e => ret (h1, inl e)
    | inr _ =>
        let* t := pnow in
        let* r := try (openInitializedProcFile h1 (UnixOf t)) in
        match r with
        | inl e => ret ({| h1 with ph_started := false |}, inl e)
        | inr _ => ret ({| h1 with ph_canceled := false; ph_running := true |}, inr tt)
        end
    end.

Definition Acquire (group : string) (meta : ProcMeta) : POp ProcHandle :=
  let* t0 := pnow in
  let meta := if pm_StartedAt meta <=? 0 then {| meta with pm_StartedAt := UnixOf t0 |} else meta in
  if negb (validateProcMeta meta) then fail ErrInvalidProcMeta
  else
    let* t := pnow in
    let h := NewProcHandler (procFilePath group t meta) meta (pc_heartbeatInterval cfg) (pc_syncInterval cfg) in
    let* '(h, r) := startHeartbeat h in
    match r with
    | inl e => fail e
    | inr _ => ret h
    end.

(** The end of the goroutine: the file is removed. *)
Definition stop_goroutine (h : ProcHandle) : POp ProcHandle :=
  ignore psys ;*                                           (* fd.Close *)
  ignore (psys ;* modify (remove_proc (ph_fileName h))) ;*
  ret {| h with ph_started := false; ph_running := false |}.

(** One tick of the goroutine; [done] is whether its context was cancelled when it
    looked for the file. *)
Definition heartbeat_tick (done : bool) (h : ProcHandle) : POp ProcHandle :=
  let* t := pnow in
  let heartbeatUnix := UnixOf t in
  let* mt := pnow in
  ignore (psys ;* modify (λ w,
    match find_proc (ph_fileName h) w with
    | Some f => put_proc (ph_fileName h) (writeHeartbeat heartbeatUnix mt f) w
    | None => w
    end)) ;*
  let* s := try psys in                                    (* os.Stat *)
  let* f := gets (find_proc (ph_fileName h)) in
  match s, f with
  | inr _, None =>
      if done then stop_goroutine h
      else
        ignore psys ;*                                     (* fd.Close *)
        let* r := try (psys ;* openInitializedProcFile h heartbeatUnix) in
        match r with
        | inr _ => ret h
        | inl _ => stop_goroutine h
        end
  | _, _ => ret h
  end.

Definition Stop (h : ProcHandle) : POp ProcHandle :=
  if negb (ph_started h) then fail ErrHeartbeatNotStarted
  else
    let* h' :=
      (if ph_canceled h then ret h
       else if ph_running h then ignore psys ;* stop_goroutine {| h with ph_canceled := true |}
       else ret {| h with ph_canceled := true |}) in
    ignore (psys ;* modify (remove_dag_dir (ph_fileName h))) ;*
    ret h'.
End ProcStore.
