(* ===== verification/ProcLaws.v ===== *)
(** * Heartbeat files: laws

    A name parses back to what it was made from, a header to its time, and a
    written file to its metadata.  [RemoveIfStale] removes nothing but the stale
    file it was given, and a process that writes its heartbeats in time is seen as
    alive. *)

From stdpp Require Import base strings list gmap sorting.
From Stdlib Require Import ZArith Lia Ascii.
From S2P Require Import Prelude GoStrings GoDate RunStatus Catchup FileSys DirLock QueueName QueueStore ProcStore.

Open Scope op_scope.
Open Scope Z_scope.

(** ** Names *)
Lemma byte_value_bound c : 0 <= byte_value c < 256.
Proof. unfold byte_value. pose proof (nat_ascii_bounded c). lia. Qed.

Lemma hex_digit_lower d : 0 <= d < 16 → lower_hex (hex_digit d) = true ∧ hex_value (hex_digit d) = Some d.
Proof.
  intros Hd. assert (d ∈ seqZ 0 16) as Hin by (apply elem_of_seqZ; lia). clear Hd.
  cbn in Hin. repeat (apply list_elem_of_In in Hin; destruct Hin as [<-|Hin]; [done|apply list_elem_of_In in Hin]).
  by apply not_elem_of_nil in Hin.
Qed.

Lemma hex_decode_encode s : hex_decode (hex_encode s) = Some s.
Proof.
  induction s as [|c s IH]; [done|]. cbn [hex_encode hex_decode]. pose proof (byte_value_bound c) as Hb.
  destruct (hex_digit_lower (byte_value c / 16)) as [_ ->]; [Z.to_euclidean_division_equations; lia|].
  destruct (hex_digit_lower (byte_value c mod 16)) as [_ ->]; [apply Z.mod_pos_bound; lia|].
  cbn [mbind option_bind]. rewrite IH. cbn [mbind option_bind]. do 2 f_equal.
  rewrite <-Z.div_mod by lia. unfold byte_value. by rewrite Nat2Z.id, ascii_nat_embedding.
Qed.

Lemma hex_encode_lower s : string_forallb lower_hex (hex_encode s) = true.
Proof.
  induction s as [|c s IH]; [done|]. cbn [hex_encode string_forallb]. pose proof (byte_value_bound c) as Hb.
  destruct (hex_digit_lower (byte_value c / 16)) as [-> _]; [Z.to_euclidean_division_equations; lia|].
  destruct (hex_digit_lower (byte_value c mod 16)) as [-> _]; [apply Z.mod_pos_bound; lia|]. done.
Qed.

Lemma hex_encode_empty s : hex_encode s = "" → s = "".
Proof. by destruct s. Qed.

Lemma span_app f s c t : string_forallb f s = true → f c = false → span f (s ++ String c t) = (s, String c t).
Proof.
  intros Hs Hc. induction s as [|d s IH]; simpl in *; [by rewrite Hc|].
  apply andb_prop in Hs as [-> Hs]. by rewrite IH.
Qed.

Definition second_of (t : Time) : Time := t - t mod Second.

Lemma match_procFileName group t meta :
  four_digit_year t = true →
  ∃ d8 d6, parse_dateTimeUTC d8 d6 = Some (second_of t) ∧
    match_timestamp (pp_file (procFilePath group t meta)) =
      Some (d8, d6, (hex_encode (pm_DAGRunID meta) ++ "_" ++ hex_encode (pm_AttemptID meta) ++ procFileExt)%string).
Proof.
  intros Ht. destruct (format_dateTimeUTC_fields t Ht) as (d8 & d6 & E & L8 & D8 & L6 & D6 & Hp).
  exists d8, d6. split; [exact Hp|]. unfold match_timestamp, procFilePath. cbn [pp_file]. rewrite E, strip_prefix_app.
  cbn [mbind option_bind]. rewrite <-!app_assoc_string, (take_digits_app 8) by done. cbn [mbind option_bind].
  rewrite strip_prefix_app. cbn [mbind option_bind]. rewrite (take_digits_app 6) by done. cbn [mbind option_bind].
  by rewrite strip_prefix_app.
Qed.

Lemma parse_procFileName group t meta :
  four_digit_year t = true → pm_DAGRunID meta ≠ "" → pm_AttemptID meta ≠ "" →
  parseProcFileName (pp_file (procFilePath group t meta)) =
  inr (mkProcFileName procFileFormatCurrent (second_of t) (pm_DAGRunID meta) (pm_AttemptID meta)).
Proof.
  intros Ht Hr Ha. destruct (match_procFileName group t meta Ht) as (d8 & d6 & Hp & Hm).
  unfold parseProcFileName, procFileRegex. rewrite Hm. cbn [mbind option_bind].
  change ("_" ++ (hex_encode (pm_AttemptID meta) ++ procFileExt))%string
    with (String "_" (hex_encode (pm_AttemptID meta) ++ procFileExt)).
  rewrite (span_app lower_hex (hex_encode (pm_DAGRunID meta)) "_") by (try done; apply hex_encode_lower).
  rewrite bool_decide_false by (by intros ?%hex_encode_empty).
  change (String "_" (hex_encode (pm_AttemptID meta) ++ procFileExt)) with ("_" ++ (hex_encode (pm_AttemptID meta) ++ procFileExt))%string.
  rewrite strip_prefix_app. cbn [mbind option_bind].
  change procFileExt with (String "." "proc").
  rewrite (span_app lower_hex (hex_encode (pm_AttemptID meta)) "." "proc") by (try done; apply hex_encode_lower).
  rewrite bool_decide_false by (by intros ?%hex_encode_empty).
  rewrite (bool_decide_true (_ = String "." "proc")) by done. cbn [negb orb].
  by rewrite Hp, !hex_decode_encode.
Qed.

(** ** Headers *)
Lemma be_bytes_length n z : length (be_bytes n z) = n.
Proof. revert z. induction n as [|n IH]; intros z; [done|]. simpl. rewrite length_app, IH. simpl. lia. Qed.

Lemma be_bytes_value n z : 0 <= z < 256 ^ Z.of_nat n → Uint64 (be_bytes n z) = z.
Proof.
  revert z. induction n as [|n IH]; intros z Hz; [simpl in *; unfold Uint64; simpl; lia|].
  cbn [be_bytes]. unfold Uint64 in *. rewrite foldl_app. cbn [foldl]. rewrite IH.
  - pose proof (Z.div_mod z 256 ltac:(lia)). lia.
  - rewrite Nat2Z.inj_succ, Z.pow_succ_r in Hz by lia. Z.to_euclidean_division_equations; nia.
Qed.

Lemma Uint64_PutUint64 z : min_int64 <= z <= max_int64 → wrap64 (Uint64 (PutUint64 z)) = z.
Proof.
  intros Hz. unfold PutUint64. rewrite be_bytes_value.
  - unfold wrap64, min_int64, max_int64 in *. rewrite Z.add_mod_idemp_l by lia.
    rewrite Z.mod_small by lia. lia.
  - change (256 ^ Z.of_nat heartbeatSize) with (2 ^ 64). apply Z.mod_pos_bound. lia.
Qed.

(** ** Contents *)

(** What a file in a group reads as at a time. *)
Definition entry_at (staleTime : Duration) (path : ProcPath) (t : Time) (f : ProcFile) : Err + ProcEntry :=
  match parseProcFileName (pp_file path) with
  | inl e => inl e
  | inr n => decodeProcEntry path (pp_group path) staleTime t n f
  end.

Lemma decode_errors path group staleTime t n f e :
  decodeProcEntry path group staleTime t n f = inl e → e = ErrInvalidProcFile.
Proof.
  unfold decodeProcEntry, currentProcMeta, legacyProcMeta. intros Hd.
  repeat (case_match; simplify_eq; try done).
Qed.

Lemma entry_errors staleTime path t f e : entry_at staleTime path t f = inl e → e = ErrInvalidProcFile.
Proof.
  unfold entry_at, parseProcFileName. intros Hd. repeat case_match; simplify_eq; try done; by eapply decode_errors.
Qed.

Lemma validate_ids m : validateProcMeta m = true → pm_DAGRunID m ≠ "" ∧ pm_AttemptID m ≠ "".
Proof.
  unfold validateProcMeta, ValidateDAGRunID. intros H. rewrite !andb_true_iff in H.
  destruct_and!. breflect. split; intros E; rewrite E in *; done.
Qed.

(** A file written for valid metadata reads back, as long as the clock of the reader
    is not more than five minutes behind. *)
Lemma written_entry staleTime group t0 m hb mt f t :
  four_digit_year t0 = true → min_int64 <= hb <= max_int64 →
  writeProcFile hb m mt = Some f → TimeUnix hb <= t + 5 * Minute →
  let path := procFilePath group t0 m in
  entry_at staleTime path t f = inr (mkProcEntry group path m hb (is_fresh staleTime t mt (TimeUnix hb))).
Proof.
  intros Ht Hhb Hw Hfut path. unfold writeProcFile in Hw. destruct (validateProcMeta m) eqn:Hv; [|done].
  injection Hw as <-. destruct (validate_ids m Hv) as [Hr Ha].
  unfold entry_at, path. rewrite parse_procFileName by done. unfold decodeProcEntry. cbn [pf_header pf_payload pf_mtime pn_format].
  unfold PutUint64. rewrite be_bytes_length. cbn [Nat.ltb]. fold (PutUint64 hb). rewrite Uint64_PutUint64 by done.
  unfold After, AddD. rewrite (proj2 (Z.ltb_ge _ _)) by lia. change (heartbeatSize <? heartbeatSize)%nat with false.
  cbv iota. unfold currentProcMeta. cbn [pf_payload diskMeta dm_Version]. change (procFileVersion =? procFileVersion) with true.
  cbn. destruct m as [sa nm rid aid rn rrid]. cbn in *. rewrite Hv. cbn.
  by rewrite !bool_decide_false by (intros X; by apply X).
Qed.

(** ** Listing *)
Definition same_groups (w w' : ProcWorld) : Prop :=
  pw_groups w' = pw_groups w ∧ (fs_calls (pw_fs w) <= fs_calls (pw_fs w'))%nat.

#[export] Instance same_groups_preorder : PreOrder same_groups.
Proof. split; [done|]. intros a b c [A1 A2] [B1 B2]. split; [congruence|lia]. Qed.

Lemma same_groups_find w w' p : same_groups w w' → find_proc p w' = find_proc p w.
Proof. intros [E _]. unfold find_proc. by rewrite E. Qed.

(** The entries of the files [l] of a group, or the error of the first bad one. *)
Fixpoint entries_of (staleTime : Duration) (group : string) (t : Time) (l : list (string * string)) (w : ProcWorld)
    : Err + list ProcEntry :=
  match l with
  | [] => inr []
  | file :: l' =>
      let path := mkProcPath group file.1 file.2 in
      match find_proc path w with
      | None => entries_of staleTime group t l' w
      | Some f =>
          match entry_at staleTime path t f with
          | inl e => inl e
          | inr e => match entries_of staleTime group t l' w with inl e' => inl e' | inr es => inr (e :: es) end
          end
      end
  end.

Definition group_entries (staleTime : Duration) (group : string) (t : Time) (w : ProcWorld) : Err + list ProcEntry :=
  match pw_groups w !! group with
  | None => inr []
  | Some dags => entries_of staleTime group t (proc_files dags) w
  end.

Section Listing.
Context `{OS} (cfg : ProcConfig) (Hok : ∀ n, SysOk n = true).

Lemma psys_ok w : ∃ w', psys w = (inr tt, w') ∧ same_groups w w'.
Proof using Hok. unfold psys, zoom, syscall. rewrite Hok. eexists. split; [reflexivity|]. split; [done|simpl; lia]. Qed.

Lemma pnow_ok w : ∃ w', pnow w = (inr (Now (fs_calls (pw_fs w))), w') ∧ same_groups w w'.
Proof. eexists. split; [reflexivity|]. split; [done|simpl; lia]. Qed.

Lemma readProcEntry_ok path t w f :
  find_proc path w = Some f →
  ∃ w', readProcEntry cfg path (pp_group path) t w = (entry_at (pc_staleTime cfg) path t f, w') ∧ same_groups w w'.
Proof using Hok.
  intros Hf. unfold readProcEntry, entry_at. destruct (parseProcFileName (pp_file path)) as [e|n]; [by exists w|].
  destruct (psys_ok w) as (w1 & E1 & S1). erewrite bind_step by exact E1.
  erewrite bind_step by reflexivity. rewrite (same_groups_find _ _ path S1), Hf.
  destruct (psys_ok w1) as (w2 & E2 & S2). erewrite bind_step by exact E2.
  exists w2. split; [by destruct (decodeProcEntry _ _ _ _ _ _)|by etrans].
Qed.

Lemma parse_error file e : parseProcFileName file = inl e → e = ErrInvalidProcFile.
Proof. unfold parseProcFileName. intros ?. by repeat case_match; simplify_eq. Qed.

Lemma read_all group t l : ∀ w acc,
  (∀ file, file ∈ l → is_Some (find_proc (mkProcPath group file.1 file.2) w)) →
  ∃ w', each (read_one cfg group t) acc l w =
    (match entries_of (pc_staleTime cfg) group t l w with inl e => inl e | inr es => inr (acc ++ es) end, w') ∧
    same_groups w w'.
Proof using Hok.
  induction l as [|file l IH]; intros w acc Hl; [exists w; simpl; by rewrite app_nil_r|].
  cbn [each entries_of]. set (path := mkProcPath group file.1 file.2).
  destruct (Hl file) as [f Hf]; [left|]. fold path in Hf. rewrite Hf.
  destruct (readProcEntry_ok path t w f Hf) as (w1 & E1 & S1). change (pp_group path) with group in E1.
  destruct (entry_at (pc_staleTime cfg) path t f) as [e|e] eqn:Ee.
  - pose proof (entry_errors _ _ _ _ _ Ee) as ->. exists w1. split; [|done].
    erewrite bind_fail; [done|]. unfold read_one. fold path. by erewrite bind_step by (apply try_step; exact E1).
  - destruct (IH w1 (acc ++ [e])) as (w2 & E2 & S2).
    { intros x Hx. rewrite (same_groups_find _ _ _ S1). apply Hl. by right. }
    exists w2. split; [|by etrans]. erewrite bind_step.
    2:{ unfold read_one. fold path. by erewrite bind_step by (apply try_step; exact E1). }
    rewrite E2. assert (∀ l, entries_of (pc_staleTime cfg) group t l w1 = entries_of (pc_staleTime cfg) group t l w) as ->.
    { clear -S1. induction l as [|x l IH]; [done|]. simpl. rewrite (same_groups_find _ _ _ S1), IH. done. }
    destruct (entries_of _ _ _ l w); [done|]. by rewrite <-app_assoc.
Qed.

Lemma all_psys {A} (l : list A) w : ∃ w', each (λ _ _, psys) tt l w = (inr tt, w') ∧ same_groups w w'.
Proof using Hok.
  revert w. induction l as [|x l IH]; intros w; [by exists w|]. simpl.
  destruct (psys_ok w) as (w1 & E1 & S1). destruct (IH w1) as (w2 & E2 & S2).
  exists w2. split; [by erewrite bind_step by exact E1|by etrans].
Qed.

Lemma proc_files_elem dags d n :
  (d, n) ∈ proc_files dags ↔ visible_dir d = true ∧ Ext n = procFileExt ∧ ∃ files, dags !! d = Some files ∧ is_Some (files !! n).
Proof.
  unfold proc_files. rewrite merge_sort_Permutation, list_elem_of_bind. split.
  - intros ([d' files] & Hin & Hd%elem_of_map_to_list). destruct (visible_dir d') eqn:Hv; [|by apply not_elem_of_nil in Hin].
    apply list_elem_of_fmap in Hin as (n' & [= -> ->] & Hn). apply list_elem_of_filter in Hn as [He Hn].
    apply list_elem_of_fmap in Hn as ([n'' f] & -> & Hn%elem_of_map_to_list). split_and!; [done..|].
    exists files. split; [done|]. by exists f.
  - intros (Hv & He & files & Hd & [f Hf]). exists (d, files). split; [|by apply elem_of_map_to_list].
    rewrite Hv. apply list_elem_of_fmap. exists n. split; [done|]. apply list_elem_of_filter. split; [done|].
    apply list_elem_of_fmap. exists (n, f). split; [done|]. by apply elem_of_map_to_list.
Qed.

(** Listing a group: the entries of its files at one reading of the clock. *)
Lemma ListEntries_ok group w :
  ∃ k w', ListEntries cfg group w = (group_entries (pc_staleTime cfg) group (Now k) w, w') ∧ same_groups w w' ∧
    (fs_calls (pw_fs w) <= k <= fs_calls (pw_fs w'))%nat.
Proof using Hok.
  unfold ListEntries, group_entries. destruct (psys_ok w) as (w1 & E1 & S1).
  erewrite bind_step by (apply try_step; exact E1). erewrite bind_step by reflexivity.
  rewrite (proj1 S1). destruct (pw_groups w !! group) as [dags|] eqn:Hg.
  2:{ exists (fs_calls (pw_fs w)), w1. destruct S1. split_and!; [done..|lia]. }
  destruct (psys_ok w1) as (w2 & E2 & S2). erewrite bind_step by exact E2.
  destruct (all_psys (filter (λ d, visible_dir d = true) (map_to_list dags).*1) w2) as (w3 & E3 & S3).
  erewrite bind_step by exact E3. destruct (pnow_ok w3) as (w4 & E4 & S4). erewrite bind_step by exact E4. cbv beta.
  assert (same_groups w w3) as S3' by (etrans; [exact S1|]; etrans; [exact S2|]; exact S3).
  assert (same_groups w w4) as S by (etrans; [exact S3'|exact S4]).
  destruct (read_all group (Now (fs_calls (pw_fs w3))) (proc_files dags) w4 []) as (w5 & E5 & S5).
  { intros [d n] Hin. rewrite (same_groups_find _ _ _ S). apply proc_files_elem in Hin as (_ & _ & files & Hd & Hn).
    unfold find_proc. simpl. rewrite Hg. simpl. rewrite Hd. done. }
  exists (fs_calls (pw_fs w3)), w5. rewrite E5. split_and!; [| by etrans| |].
  - assert (∀ l t, entries_of (pc_staleTime cfg) group t l w4 = entries_of (pc_staleTime cfg) group t l w) as ->.
    { intros l t. induction l as [|x l IH]; [done|]. simpl. by rewrite (same_groups_find _ _ _ S), IH. }
    by destruct (entries_of _ _ _ _ w).
  - destruct S3'. lia.
  - destruct S4, S5. lia.
Qed.
End Listing.

(** ** The files of a group *)

(** A file that the listing of a group looks at. *)
Definition listed (group : string) (path : ProcPath) (f : ProcFile) (w : ProcWorld) : Prop :=
  pp_group path = group ∧ visible_dir (pp_dag path) = true ∧ Ext (pp_file path) = procFileExt ∧
  find_proc path w = Some f.

Lemma listed_files group dags path f w :
  pw_groups w !! group = Some dags → listed group path f w → (pp_dag path, pp_file path) ∈ proc_files dags.
Proof.
  intros Hg (Hp & Hv & He & Hf). apply proc_files_elem. split_and!; [done..|].
  unfold find_proc in Hf. rewrite Hp, Hg in Hf. cbn [mbind option_bind] in Hf.
  destruct (dags !! pp_dag path) as [files|] eqn:Hd; [|done]. exists files. split; [done|]. by exists f.
Qed.

Lemma files_listed group dags d n w :
  pw_groups w !! group = Some dags → (d, n) ∈ proc_files dags → ∃ f, listed group (mkProcPath group d n) f w.
Proof.
  intros Hg (Hv & He & files & Hd & [f Hf])%proc_files_elem. exists f. split_and!; [done..|].
  unfold find_proc. cbn [pp_group pp_dag pp_file]. by rewrite Hg; simpl; rewrite Hd.
Qed.

Lemma entries_of_In staleTime group t l w es e :
  entries_of staleTime group t l w = inr es →
  e ∈ es ↔ ∃ d n f, (d, n) ∈ l ∧ find_proc (mkProcPath group d n) w = Some f ∧
                    entry_at staleTime (mkProcPath group d n) t f = inr e.
Proof.
  revert es. induction l as [|[d n] l IH]; intros es; cbn [entries_of].
  { intros [= <-]. split; [by intros ?%not_elem_of_nil|]. by intros (? & ? & ? & ?%not_elem_of_nil & _). }
  cbn [fst snd]. intros E. set (here := mkProcPath group d n) in *.
  assert (∀ es', entries_of staleTime group t l w = inr es' →
    (∃ d' n' f, (d', n') ∈ l ∧ find_proc (mkProcPath group d' n') w = Some f ∧
                entry_at staleTime (mkProcPath group d' n') t f = inr e) ↔ e ∈ es') as IH' by (intros; by rewrite IH).
  destruct (find_proc here w) as [f|] eqn:Hf.
  - destruct (entry_at staleTime here t f) as [?|e1] eqn:He1; [done|].
    destruct (entries_of staleTime group t l w) as [|es'] eqn:Hes; [done|]. injection E as <-.
    rewrite elem_of_cons, <-(IH' es' eq_refl). split.
    + intros [->|(d' & n' & f' & Hin & ?)]; [exists d, n, f; split; [left|done]|]. exists d', n', f'. split; [by right|done].
    + intros (d' & n' & f' & [[= -> ->]|Hin]%elem_of_cons & Hf' & He'); [|right; by exists d', n', f'].
      left. fold here in Hf', He'. congruence.
  - rewrite <-(IH' es E). split; intros (d' & n' & f' & Hin & Hf' & He').
    + exists d', n', f'. split; [by right|done].
    + apply elem_of_cons in Hin as [[= -> ->]|Hin]; [fold here in Hf'; congruence|]. by exists d', n', f'.
Qed.

Lemma entries_of_error staleTime group t l w e :
  entries_of staleTime group t l w = inl e →
  e = ErrInvalidProcFile ∧ ∃ d n f, (d, n) ∈ l ∧ find_proc (mkProcPath group d n) w = Some f ∧
    entry_at staleTime (mkProcPath group d n) t f = inl e.
Proof.
  induction l as [|[d n] l IH]; cbn [entries_of]; [done|]. cbn [fst snd]. intros E.
  assert (entries_of staleTime group t l w = inl e → e = ErrInvalidProcFile ∧ ∃ d' n' f,
    (d', n') ∈ (d, n) :: l ∧ find_proc (mkProcPath group d' n') w = Some f ∧
    entry_at staleTime (mkProcPath group d' n') t f = inl e) as IH'.
  { intros (-> & d' & n' & f & Hin & Hx)%IH. split; [done|]. exists d', n', f. split; [by right|done]. }
  destruct (find_proc _ w) as [f|] eqn:Hf; [|by apply IH'].
  destruct (entry_at _ _ t f) as [e1|e1] eqn:He.
  - injection E as <-. split; [by eapply entry_errors|]. exists d, n, f. split; [left|done].
  - destruct (entries_of _ _ _ l w) eqn:Hes; [|done]. injection E as <-. by apply IH'.
Qed.

(** What a group's entries are: those of the listed files, or the error of one. *)
Lemma group_entries_In staleTime group t w es e :
  group_entries staleTime group t w = inr es →
  e ∈ es ↔ ∃ path f, listed group path f w ∧ entry_at staleTime path t f = inr e.
Proof.
  unfold group_entries. destruct (pw_groups w !! group) as [dags|] eqn:Hg.
  - intros E. rewrite (entries_of_In _ _ _ _ _ _ _ E). split.
    + intros (d & n & f & Hin & Hf & He). destruct (files_listed group dags d n w Hg Hin) as [f' Hl].
      exists (mkProcPath group d n), f. split; [|done]. destruct Hl as (? & ? & ? & ?). by split_and!.
    + intros ([g d n] & f & Hl & He). pose proof (listed_files group dags _ _ _ Hg Hl) as Hin.
      destruct Hl as (Hgr & _ & _ & Hf). simpl in Hgr. subst g. exists d, n, f. done.
  - intros [= <-]. split; [by intros ?%not_elem_of_nil|]. intros (path & f & (Hp & _ & _ & Hf) & _).
    unfold find_proc in Hf. by rewrite Hp, Hg in Hf.
Qed.

Lemma group_entries_error staleTime group t w e :
  group_entries staleTime group t w = inl e →
  e = ErrInvalidProcFile ∧ ∃ path f, listed group path f w ∧ entry_at staleTime path t f = inl e.
Proof.
  unfold group_entries. destruct (pw_groups w !! group) as [dags|] eqn:Hg; [|done].
  intros (-> & d & n & f & Hin & Hf & He)%entries_of_error. split; [done|].
  destruct (files_listed group dags d n w Hg Hin) as [f' (? & ? & ? & ?)].
  exists (mkProcPath group d n), f. by split_and!.
Qed.

Lemma entries_of_good staleTime group t l w es :
  entries_of staleTime group t l w = inr es →
  ∀ d n f, (d, n) ∈ l → find_proc (mkProcPath group d n) w = Some f →
  ∃ e, entry_at staleTime (mkProcPath group d n) t f = inr e.
Proof.
  revert es. induction l as [|[d n] l IH]; intros es E d' n' f Hin Hf; [by apply not_elem_of_nil in Hin|].
  cbn [entries_of] in E. cbn [fst snd] in E. apply elem_of_cons in Hin as [[= -> ->]|Hin].
  - rewrite Hf in E. destruct (entry_at _ _ t f); [done|eauto].
  - assert (∃ es', entries_of staleTime group t l w = inr es') as [es' E'].
    { destruct (find_proc _ w) as [f'|]; [|eauto]. destruct (entry_at _ _ t f'); [done|].
      destruct (entries_of _ _ _ l w); [done|eauto]. }
    by eapply IH.
Qed.

Lemma group_entries_good staleTime group t w es path f :
  group_entries staleTime group t w = inr es → listed group path f w → ∃ e, entry_at staleTime path t f = inr e.
Proof.
  unfold group_entries. intros E Hl. destruct (pw_groups w !! group) as [dags|] eqn:Hg.
  - pose proof (listed_files group dags _ _ _ Hg Hl) as Hin. destruct path as [g d n], Hl as (Hp & _ & _ & Hf).
    simpl in Hp. subst g. by eapply entries_of_good.
  - destruct Hl as (Hp & _ & _ & Hf). unfold find_proc in Hf. by rewrite Hp, Hg in Hf.
Qed.

(** A fresh entry of a run. *)
Definition alive_entry (run : DAGRunRef) (e : ProcEntry) : Prop :=
  pe_Fresh e = true ∧ meta_DAGRun (pe_Meta e) = run.

Lemma alive_entries run es :
  existsb (λ e, pe_Fresh e && bool_decide (pm_Name (pe_Meta e) = ref_Name run) &&
                bool_decide (pm_DAGRunID (pe_Meta e) = ref_ID run)) es = true ↔ ∃ e, e ∈ es ∧ alive_entry run e.
Proof.
  rewrite existsb_exists. split; intros (e & Hin & He).
  - rewrite !andb_true_iff, !bool_decide_eq_true in He. destruct He as [[Hf Hn] Hid]. exists e.
    split; [by apply list_elem_of_In|]. split; [done|]. unfold meta_DAGRun. rewrite Hn, Hid. by destruct run.
  - exists e. split; [by apply list_elem_of_In|]. destruct He as [-> <-]. unfold meta_DAGRun. cbn.
    by rewrite !bool_decide_true by done.
Qed.

(** ** Lookups after updates *)
Lemma find_put_eq p f w : find_proc p (put_proc p f w) = Some f.
Proof.
  unfold find_proc, put_proc. cbn [pw_groups]. rewrite lookup_insert_eq. simpl. rewrite lookup_insert_eq. simpl.
  apply lookup_insert_eq.
Qed.

Lemma find_put_ne p q f w : q ≠ p → find_proc q (put_proc p f w) = find_proc q w.
Proof.
  intros Hne. unfold find_proc, put_proc. cbn [pw_groups]. destruct (decide (pp_group q = pp_group p)) as [Eg|];
    [|by rewrite lookup_insert_ne by done].
  rewrite Eg, lookup_insert_eq. cbn [mbind option_bind]. destruct (decide (pp_dag q = pp_dag p)) as [Ed|].
  - rewrite Ed, lookup_insert_eq. cbn [mbind option_bind]. rewrite lookup_insert_ne.
    + destruct (pw_groups w !! pp_group p) as [dags|]; [|done]. simpl. by destruct (dags !! pp_dag p).
    + intros Ef. apply Hne. destruct p, q; simpl in *; congruence.
  - rewrite lookup_insert_ne by done. by destruct (pw_groups w !! pp_group p) as [dags|].
Qed.

Lemma find_remove_eq p w : find_proc p (remove_proc p w) = None.
Proof.
  unfold find_proc, remove_proc. destruct (pw_groups w !! pp_group p) as [dags|] eqn:Hg; [|by rewrite Hg].
  destruct (dags !! pp_dag p) as [files|] eqn:Hd; [|by rewrite Hg; simpl; rewrite Hd].
  cbn [pw_groups]. rewrite lookup_insert_eq. simpl. rewrite lookup_insert_eq. simpl. apply lookup_delete_eq.
Qed.

Lemma find_remove_ne p q w : q ≠ p → find_proc q (remove_proc p w) = find_proc q w.
Proof.
  intros Hne. unfold find_proc, remove_proc. destruct (pw_groups w !! pp_group p) as [dags|] eqn:Hg; [|done].
  destruct (dags !! pp_dag p) as [files|] eqn:Hd; [|done]. cbn [pw_groups].
  destruct (decide (pp_group q = pp_group p)) as [Eg|]; [|by rewrite lookup_insert_ne by done].
  rewrite Eg, Hg, lookup_insert_eq. cbn [mbind option_bind]. destruct (decide (pp_dag q = pp_dag p)) as [Ed|];
    [|by rewrite lookup_insert_ne by done].
  rewrite Ed, Hd, lookup_insert_eq. cbn [mbind option_bind]. apply lookup_delete_ne.
  intros Ef. apply Hne. destruct p, q; simpl in *; congruence.
Qed.

Lemma find_remove_dag_dir p q w : find_proc q (remove_dag_dir p w) = find_proc q w.
Proof.
  unfold find_proc, remove_dag_dir. destruct (pw_groups w !! pp_group p) as [dags|] eqn:Hg; [|done].
  destruct (dags !! pp_dag p) as [files|] eqn:Hd; [|done]. case_bool_decide as He; [|done]. cbn [pw_groups].
  destruct (decide (pp_group q = pp_group p)) as [Eg|]; [|by rewrite lookup_insert_ne by done].
  rewrite Eg, Hg, lookup_insert_eq. cbn [mbind option_bind]. destruct (decide (pp_dag q = pp_dag p)) as [Ed|].
  - by rewrite Ed, Hd, lookup_delete_eq, He.
  - by rewrite lookup_delete_ne by done.
Qed.

(** ** Claims *)
Section Claims.
Context `{OS} (cfg : ProcConfig).

(** The files stay as they are, whatever a call answers. *)
Lemma psys_find w r w' : psys w = (r, w') → pw_groups w' = pw_groups w.
Proof. unfold psys, zoom, syscall. by destruct (SysOk _); intros [= <- <-]. Qed.

(** A read changes nothing; what it returns is the decoded file. *)
Lemma readProcEntry_any path group t w r w' :
  readProcEntry cfg path group t w = (r, w') →
  pw_groups w' = pw_groups w ∧
  match r with
  | inl _ => True
  | inr e => ∃ n f, parseProcFileName (pp_file path) = inr n ∧ find_proc path w = Some f ∧
                    decodeProcEntry path group (pc_staleTime cfg) t n f = inr e
  end.
Proof.
  unfold readProcEntry. destruct (parseProcFileName (pp_file path)) as [e|n]; [by intros [= <- <-]|].
  unfold bind, gets. destruct (psys w) as [[e|[]] w1] eqn:E1; pose proof (psys_find _ _ _ E1) as G1; [by intros [= <- <-]|].
  assert (find_proc path w1 = find_proc path w) as -> by (unfold find_proc; by rewrite G1).
  destruct (find_proc path w) as [f|] eqn:Hf; [|by intros [= <- <-]].
  destruct (psys w1) as [[e|[]] w2] eqn:E2; pose proof (psys_find _ _ _ E2) as G2.
  - intros [= <- <-]. split; [congruence|done].
  - destruct (decodeProcEntry _ _ _ _ _ _) as [e|e] eqn:Hd; intros [= <- <-]; (split; [congruence|]); [done|eauto].
Qed.

(** [RemoveIfStale] under any system: every file but the one of the given entry
    is kept; that one is removed only when it reads, at the current time, as an
    entry that is stale and is the given one (same group, path, metadata and
    heartbeat), so a process that wrote a heartbeat meanwhile is not taken away. *)
Theorem RemoveIfStale_safe entry w r w' :
  RemoveIfStale cfg entry w = (r, w') →
  ∀ p, find_proc p w' = find_proc p w ∨
    (p = pe_FilePath entry ∧ find_proc p w' = None ∧ pe_GroupName entry ≠ "" ∧
     ∃ n f cur, parseProcFileName (pp_file p) = inr n ∧ find_proc p w = Some f ∧
       decodeProcEntry p (pe_GroupName entry) (pc_staleTime cfg) (Now (fs_calls (pw_fs w))) n f = inr cur ∧
       pe_Fresh cur = false ∧ pe_Meta cur = pe_Meta entry ∧ pe_LastHeartbeatAt cur = pe_LastHeartbeatAt entry).
Proof.
  unfold RemoveIfStale. case_bool_decide as Hg; [intros [= <- <-] p; by left|].
  set (path := pe_FilePath entry). intros E p. unfold bind at 1 in E. unfold pnow, zoom, now in E. cbv beta iota zeta in E.
  set (w0 := {| w with pw_fs := tick (pw_fs w) |}) in *.
  change (pw_groups w0) with (pw_groups w) in *. unfold bind at 1, try at 1 in E.
  destruct (readProcEntry cfg path (pe_GroupName entry) (Now (fs_calls (pw_fs w))) w0) as [r1 w1] eqn:E1.
  destruct (readProcEntry_any _ _ _ _ _ _ E1) as [G1 R1].
  assert (∀ q, find_proc q w1 = find_proc q w) as F1 by (intros; unfold find_proc; rewrite G1; done).
  destruct r1 as [e|cur]; [left; by destruct e; injection E as <- <-; rewrite F1|].
  destruct (pe_Fresh cur || negb (sameProcEntry cur entry)) eqn:Hs; [injection E as <- <-; left; apply F1|].
  apply orb_false_iff in Hs as [Hfr Hsame%negb_false_iff].
  unfold bind at 1 in E. destruct (psys w1) as [[e|[]] w2] eqn:E2; pose proof (psys_find _ _ _ E2) as G2;
    [injection E as <- <-; left; unfold find_proc; by rewrite G2, G1|].
  assert (∀ q, find_proc q w2 = find_proc q w) as F2 by (intros; unfold find_proc; rewrite G2, G1; done).
  unfold bind at 1, modify at 1 in E.
  assert (∀ q, find_proc q w' = find_proc q (remove_proc path w2)) as F3.
  { intros q. unfold ignore in E. injection E as <- <-. unfold bind, modify.
    destruct (psys (remove_proc path w2)) as [[e|[]] w3] eqn:E3; pose proof (psys_find _ _ _ E3) as G3; cbn [snd].
    - unfold find_proc. by rewrite G3.
    - rewrite find_remove_dag_dir. unfold find_proc. by rewrite G3. }
  rewrite F3. destruct (decide (p = path)) as [->|Hne]; [|left; by rewrite find_remove_ne, F2].
  right. destruct R1 as (n & f & Hn & Hf & Hd). unfold sameProcEntry in Hsame. rewrite !andb_true_iff, !bool_decide_eq_true, Z.eqb_eq in Hsame.
  destruct Hsame as [[[_ _] Hh] Hm]. split; [done|]. split; [apply find_remove_eq|]. split; [done|].
  by exists n, f, cur.
Qed.

Context (Hok : ∀ n, SysOk n = true).

(** [IsRunAlive], when the system calls succeed: the answer is about one
    reading [Now k] of the clock during the call.  It is an error exactly when a
    listed file of the group does not decode, and otherwise it is [true] exactly when
    a listed file decodes to a fresh entry of the run; no file is changed. *)
Theorem IsRunAlive_correct group run w :
  ∃ k r w', IsRunAlive cfg group run w = (r, w') ∧ pw_groups w' = pw_groups w ∧
    (fs_calls (pw_fs w) <= k <= fs_calls (pw_fs w'))%nat ∧
    match r with
    | inl e => e = ErrInvalidProcFile ∧
        ∃ path f, listed group path f w ∧ entry_at (pc_staleTime cfg) path (Now k) f = inl e
    | inr b =>
        (∀ path f, listed group path f w → ∃ e, entry_at (pc_staleTime cfg) path (Now k) f = inr e) ∧
        (b = true ↔ ∃ path f e, listed group path f w ∧ entry_at (pc_staleTime cfg) path (Now k) f = inr e ∧
                                alive_entry run e)
    end.
Proof using Hok.
  destruct (ListEntries_ok cfg Hok group w) as (k & w' & E & [G _] & Hk). unfold IsRunAlive.
  destruct (group_entries (pc_staleTime cfg) group (Now k) w) as [e|es] eqn:Hes.
  - exists k, (inl e), w'. erewrite bind_fail by exact E. split; [done|]. split; [done|]. split; [lia|]. by apply group_entries_error.
  - eexists k, (inr _), w'. erewrite bind_step by exact E. split; [done|]. split; [done|]. split; [lia|]. split.
    + intros path f Hl. by eapply group_entries_good.
    + rewrite alive_entries. split.
      * intros (e & (path & f & Hl & He)%(group_entries_In _ _ _ _ _ _ Hes) & Ha). by exists path, f, e.
      * intros (path & f & e & Hl & He & Ha). exists e. split; [|done]. apply (group_entries_In _ _ _ _ _ _ Hes). eauto.
Qed.
End Claims.

(** ** A process that writes its heartbeats is alive

    [holds] is the life of a handle: the file is created by [Acquire], the goroutine
    ticks, and between two ticks others may have removed the file, which the next
    tick writes again.  As long as the last tick is younger than the threshold, no
    listing takes the process for dead. *)

(** ** Times of heartbeats *)
Lemma beat_second t : instant_ok t →
  min_int64 <= UnixOf t <= max_int64 ∧ t - Second < TimeUnix (UnixOf t) <= t.
Proof.
  intros (_ & H0 & H1). unfold UnixOf, TimeUnix, unixSeconds, min_int64, max_int64 in *.
  change (unixEpoch / Second) with 62135596800. change unixEpoch with 62135596800000000000 in *.
  change Second with 1000000000 in *.
  pose proof (Z.div_mod (t - 62135596800000000000) 1000000000 ltac:(done)) as Hd.
  pose proof (Z.mod_pos_bound (t - 62135596800000000000) 1000000000 ltac:(done)) as Hm.
  rewrite wrap64_id by (unfold min_int64, max_int64; lia). lia.
Qed.

Lemma fresh_in_time staleTime now mtime hb :
  min_int64 < staleTime <= max_int64 → now - hb < staleTime → is_fresh staleTime now mtime hb = true.
Proof. intros Hs Hn. unfold is_fresh, Sub, min_int64, max_int64 in *. apply orb_true_iff. right. apply Z.ltb_lt. lia. Qed.

(** The extension of a name is [.proc]. *)
Lemma procFilePath_ext group t m : four_digit_year t = true → Ext (pp_file (procFilePath group t m)) = procFileExt.
Proof.
  intros Ht. destruct (format_dateTimeUTC_fields t Ht) as (d8 & d6 & E & _ & D8 & _ & D6 & _).
  unfold procFilePath. cbn [pp_file]. rewrite E.
  replace (procFilePrefix ++ (d8 ++ "_" ++ d6) ++ "Z_" ++ hex_encode (pm_DAGRunID m) ++ "_" ++ hex_encode (pm_AttemptID m) ++ procFileExt)%string
    with ((procFilePrefix ++ (d8 ++ "_" ++ d6) ++ "Z_" ++ hex_encode (pm_DAGRunID m) ++ "_" ++ hex_encode (pm_AttemptID m)) ++ procFileExt)%string
    by (by rewrite <-!app_assoc_string).
  apply Ext_suffix; [|done]. rewrite !contains_char_app.
  rewrite (class_no_slash is_digit d8), (class_no_slash is_digit d6) by done.
  by rewrite !(class_no_slash lower_hex (hex_encode _)) by (try done; apply hex_encode_lower).
Qed.

(** ** Files of a handle *)
Definition beat_at (h : ProcHandle) (tb : Time) (w : ProcWorld) : Prop :=
  ∃ f mt, find_proc (ph_fileName h) w = Some f ∧ writeProcFile (UnixOf tb) (ph_meta h) mt = Some f.

(** What others may do to the file of a handle. *)
Definition kept_or_removed (h : ProcHandle) (w w' : ProcWorld) : Prop :=
  find_proc (ph_fileName h) w' = find_proc (ph_fileName h) w ∨ find_proc (ph_fileName h) w' = None.

Section Holds.
Context `{OS} (cfg : ProcConfig).

Inductive holds (group : string) : ProcHandle → Time → ProcWorld → Prop :=
  | holds_acquire meta w h w' tb :
      Acquire cfg group meta w = (inr h, w') → beat_at h tb w' → holds group h tb w'
  | holds_tick h tb w w1 r w' :
      holds group h tb w → kept_or_removed h w w1 → heartbeat_tick false h w1 = (r, w') →
      holds group h (Now (fs_calls (pw_fs w1))) w'.

Context (Hok : ∀ n, SysOk n = true) (Hclock : ∀ n, instant_ok (Now n)).

Lemma open_ok h hb w :
  validateProcMeta (ph_meta h) = true →
  ∃ f mt w', openInitializedProcFile h hb w = (inr tt, w') ∧ writeProcFile hb (ph_meta h) mt = Some f ∧
    find_proc (ph_fileName h) w' = Some f.
Proof using Hok.
  intros Hv. unfold openInitializedProcFile.
  destruct (psys_ok Hok w) as (w1 & E1 & _). erewrite bind_step by exact E1.
  destruct (psys_ok Hok w1) as (w2 & E2 & _). erewrite bind_step by exact E2.
  destruct (pnow_ok w2) as (w3 & E3 & _). erewrite bind_step by exact E3. cbv beta.
  unfold writeProcFile at 1. rewrite Hv.
  set (f := mkProcFile (PutUint64 hb) (PayloadMeta (diskMeta (ph_meta h))) (Now (fs_calls (pw_fs w2)))).
  destruct (psys_ok Hok w3) as (w4 & E4 & _). erewrite bind_step by exact E4.
  destruct (psys_ok Hok w4) as (w5 & E5 & _). erewrite bind_step by exact E5.
  destruct (psys_ok Hok w5) as (w6 & E6 & _). erewrite bind_step by exact E6.
  destruct (psys_ok Hok w6) as (w7 & E7 & _). erewrite bind_step by exact E7.
  destruct (psys_ok Hok w7) as (w8 & E8 & _). erewrite bind_step by exact E8.
  erewrite bind_step by reflexivity. cbv beta.
  destruct (psys_ok Hok (put_proc (ph_fileName h) f w8)) as (w9 & E9 & S9).
  erewrite bind_step by (eapply try_step; exact E9). exists f, (Now (fs_calls (pw_fs w2))), w9.
  split_and!; [done| |by rewrite (same_groups_find _ _ _ S9), find_put_eq].
  unfold writeProcFile. by rewrite Hv.
Qed.

(** A handle that [Acquire] returns: its path, its metadata and its first heartbeat. *)
Lemma Acquire_ok group meta w h w' :
  Acquire cfg group meta w = (inr h, w') →
  ∃ n m, (fs_calls (pw_fs w) <= n)%nat ∧ ph_fileName h = procFilePath group (Now n) (ph_meta h) ∧
    validateProcMeta (ph_meta h) = true ∧ beat_at h (Now m) w'.
Proof using Hok.
  unfold Acquire. destruct (pnow_ok w) as (w1 & E1 & [_ L1]). erewrite bind_step by exact E1. cbv beta zeta.
  set (m := if pm_StartedAt meta <=? 0 then _ else meta). destruct (validateProcMeta m) eqn:Hv; [|done]. cbv [negb].
  destruct (pnow_ok w1) as (w2 & E2 & _). erewrite bind_step by exact E2. cbv beta.
  set (h0 := NewProcHandler _ m _ _). unfold startHeartbeat.
  change (ph_started h0) with false. change (ph_meta h0) with m. rewrite Hv. cbv [negb]. cbv zeta.
  destruct (psys_ok Hok w2) as (w3 & E3 & _). destruct (pnow_ok w3) as (w4 & E4 & _).
  set (h1 := {| h0 with ph_started := true |}).
  destruct (open_ok h1 (UnixOf (Now (fs_calls (pw_fs w3)))) w4 Hv) as (f & mt & w5 & E5 & Hw & Hf).
  erewrite bind_step.
  2:{ erewrite bind_step by (eapply try_step; exact E3). cbv beta iota. erewrite bind_step by exact E4. cbv beta.
      by erewrite bind_step by (eapply try_step; exact E5). }
  intros [= <- <-]. exists (fs_calls (pw_fs w1)), (fs_calls (pw_fs w3)). split_and!; [lia|done|done|].
  by exists f, mt.
Qed.

(** A tick writes the heartbeat, and the file again when it is gone. *)
Lemma heartbeat_tick_ok h tb w :
  validateProcMeta (ph_meta h) = true → beat_at h tb w ∨ find_proc (ph_fileName h) w = None →
  ∃ w', heartbeat_tick false h w = (inr h, w') ∧ beat_at h (Now (fs_calls (pw_fs w))) w'.
Proof using Hok.
  intros Hv Hb. unfold heartbeat_tick. destruct (pnow_ok w) as (w1 & E1 & S1). erewrite bind_step by exact E1. cbv beta zeta.
  destruct (pnow_ok w1) as (w2 & E2 & S2). erewrite bind_step by exact E2. cbv beta.
  destruct (psys_ok Hok w2) as (w3 & E3 & S3).
  assert (find_proc (ph_fileName h) w3 = find_proc (ph_fileName h) w) as F3
    by (by rewrite (same_groups_find _ _ _ S3), (same_groups_find _ _ _ S2), (same_groups_find _ _ _ S1)).
  erewrite bind_step by (eapply ignore_step; by erewrite bind_step by exact E3). cbv beta. rewrite F3.
  destruct Hb as [(f & mt & Hf & Hw)|Hn].
  - rewrite Hf. set (g := writeHeartbeat _ _ f).
    destruct (psys_ok Hok (put_proc (ph_fileName h) g w3)) as (w4 & E4 & S4).
    erewrite bind_step by (eapply try_step; exact E4). erewrite bind_step by reflexivity.
    assert (find_proc (ph_fileName h) w4 = Some g) as F4 by (by rewrite (same_groups_find _ _ _ S4), find_put_eq).
    rewrite F4. exists w4. split; [done|]. exists g, (Now (fs_calls (pw_fs w1))). split; [done|].
    unfold writeProcFile, g, writeHeartbeat in *. rewrite Hv in *. by injection Hw as <-.
  - rewrite Hn. destruct (psys_ok Hok w3) as (w4 & E4 & S4). erewrite bind_step by (eapply try_step; exact E4).
    erewrite bind_step by reflexivity. rewrite (same_groups_find _ _ _ S4), F3, Hn.
    destruct (psys_ok Hok w4) as (w5 & E5 & _). erewrite bind_step by (eapply ignore_step; exact E5).
    destruct (psys_ok Hok w5) as (w6 & E6 & _).
    destruct (open_ok h (UnixOf (Now (fs_calls (pw_fs w)))) w6 Hv) as (f & mt & w7 & E7 & Hw & Hf).
    erewrite bind_step by (eapply try_step; erewrite bind_step by exact E6; exact E7).
    exists w7. split; [done|]. by exists f, mt.
Qed.

Lemma holds_inv group h tb w :
  holds group h tb w →
  beat_at h tb w ∧ validateProcMeta (ph_meta h) = true ∧ ∃ n, ph_fileName h = procFilePath group (Now n) (ph_meta h).
Proof using Hok.
  induction 1 as [meta w h w' tb HA Hb|h tb w w1 r w' _ (Hb & Hv & n & Hp) Hk Ht].
  - destruct (Acquire_ok group meta w h w' HA) as (n & m & _ & Hp & Hv & _). split_and!; [done..|]. by exists n.
  - destruct (heartbeat_tick_ok h tb w1 Hv) as (w2 & E2 & Hb2).
    { destruct Hk as [Hk|Hk]; [left|by right]. destruct Hb as (f & mt & Hf & Hw). exists f, mt. by rewrite Hk. }
    rewrite E2 in Ht. injection Ht as <- <-. split_and!; [done..|]. by exists n.
Qed.
End Holds.

(** ** Claims *)

(** C29. A process that writes its heartbeats is not taken for dead, when no system call
    fails, clock readings have four-digit years, and the name of the DAG does not start
    with a dot (the listing skips such directories, and the runs of such a DAG are never
    alive).  After [Acquire] or any number of ticks, each of which writes the file again
    when it was removed, a question [IsRunAlive] asked while the file is as the last
    heartbeat left it, and while that heartbeat is younger than the threshold of the
    store (less the second the header rounds off), is answered [true], unless another
    file of the group is broken, which is reported as an error.  Between a removal and
    the next tick the answer can be [false]. *)
Theorem heartbeats_keep_alive `{OS} (cfg : ProcConfig) group h tb w w1 r w2 :
  (∀ n, SysOk n = true) → (∀ n, instant_ok (Now n)) → instant_ok tb →
  min_int64 < pc_staleTime cfg <= max_int64 → visible_dir (pm_Name (ph_meta h)) = true →
  holds cfg group h tb w →
  find_proc (ph_fileName h) w1 = find_proc (ph_fileName h) w →
  IsRunAlive cfg group (meta_DAGRun (ph_meta h)) w1 = (r, w2) →
  (∀ k, (fs_calls (pw_fs w1) <= k <= fs_calls (pw_fs w2))%nat →
        tb - 5 * Minute <= Now k < tb + pc_staleTime cfg - Second) →
  r = inr true ∨
  (r = inl ErrInvalidProcFile ∧ ∃ k path f, path ≠ ph_fileName h ∧ listed group path f w1 ∧
     entry_at (pc_staleTime cfg) path (Now k) f = inl ErrInvalidProcFile).
Proof.
  intros Hok Hclock Htb Hst Hvis Hh Hsame HI Hk.
  destruct (holds_inv cfg Hok group h tb w Hh) as ((f & mt & Hf & Hw) & Hv & n & Hp).
  destruct (IsRunAlive_correct cfg Hok group (meta_DAGRun (ph_meta h)) w1) as (k & r' & w2' & E & _ & Hb & Hr).
  rewrite HI in E. injection E as <- <-. specialize (Hk k Hb). destruct (beat_second tb Htb) as [H64 Hsec].
  assert (entry_at (pc_staleTime cfg) (ph_fileName h) (Now k) f =
    inr (mkProcEntry group (ph_fileName h) (ph_meta h) (UnixOf tb) true)) as He.
  { rewrite Hp, (written_entry (pc_staleTime cfg) group (Now n) (ph_meta h) (UnixOf tb) mt f); [|apply Hclock|done|done|].
    - by rewrite fresh_in_time by (try done; lia).
    - lia. }
  assert (listed group (ph_fileName h) f w1) as Hl.
  { split_and!; [by rewrite Hp|by rewrite Hp| |by rewrite Hsame]. rewrite Hp. apply procFilePath_ext, Hclock. }
  destruct r as [e|b]; [right|left].
  - destruct Hr as (-> & path & f' & Hl' & He'). split; [done|]. exists k, path, f'. split; [|done].
    intros ->. destruct Hl' as (_ & _ & _ & Hl'), Hl as (_ & _ & _ & Hl). congruence.
  - destruct Hr as [_ Hr]. f_equal. apply Hr. by eexists _, f, _.
Qed.
