(* ===== verification/Prog.v ===== *)
(** * Programs that call an environment

    The services of the scheduler work on stores, processes and clocks that others
    use at the same time.  [Prog] is such a program as a tree: it returns, or it
    makes a call and goes on with the answer.  An environment answers every call as
    it likes, given everything that was called before, so a theorem about all
    environments holds whatever the other services do between two calls.

    [exec] runs a program and returns the calls with their answers; [safe] says that
    a property holds of the calls made so far at every moment; [sched] interleaves
    the goroutines of a program. *)

From stdpp Require Import base list option.
From Stdlib Require Import Lia.
From S2P Require Import Prelude.

Section Prog.
Context {E : Type} {Ans : E → Type}.

Inductive Prog (A : Type) :=
  | Ret (a : A)
  | Call (e : E) (k : Ans e → Prog A).
Arguments Ret {A} _.
Arguments Call {A} _ _.

(** A call and its answer. *)
Definition Event : Type := { e : E & Ans e }.
Definition event (e : E) (x : Ans e) : Event := existT e x.

Fixpoint pbind {A B} (p : Prog A) (f : A → Prog B) : Prog B :=
  match p with
  | Ret a => f a
  | Call e k => Call e (λ x, pbind (k x) f)
  end.

Definition call (e : E) : Prog (Ans e) := Call e Ret.

(** One program after another, with a value passed on. *)
Fixpoint peach {A B} (f : B → A → Prog B) (b : B) (l : list A) : Prog B :=
  match l with
  | [] => Ret b
  | x :: l' => pbind (f b x) (λ b', peach f b' l')
  end.

(** ** Runs *)
Definition Env : Type := ∀ e, list Event → Ans e.

Fixpoint exec (env : Env) {A} (p : Prog A) (log : list Event) : A * list Event :=
  match p with
  | Ret a => (a, log)
  | Call e k => let x := env e log in exec env (k x) (log ++ [event e x])
  end.

Lemma exec_bind env {A B} (p : Prog A) (f : A → Prog B) log :
  exec env (pbind p f) log = let '(a, log') := exec env p log in exec env (f a) log'.
Proof. revert log. induction p as [a|e k IH]; intros log; [done|]. simpl. apply IH. Qed.

(** ** Specifications

    [spec J p log Q]: whatever the answers are, [J] holds of the calls made so far at
    every moment, and [Q] of the value that is returned and all the calls. *)
Fixpoint spec {A} (J : list Event → Prop) (p : Prog A) (log : list Event) (Q : A → list Event → Prop) : Prop :=
  J log ∧ match p with
          | Ret a => Q a log
          | Call e k => ∀ x, spec J (k x) (log ++ [event e x]) Q
          end.

Definition always {A} (p : Prog A) (log : list Event) (Q : A → list Event → Prop) : Prop :=
  spec (λ _, True) p log Q.
Definition safe {A} (J : list Event → Prop) (p : Prog A) (log : list Event) : Prop :=
  spec J p log (λ _ _, True).

Lemma spec_here {A} J (p : Prog A) log Q : spec J p log Q → J log.
Proof. by destruct p; intros [HI _]. Qed.

Lemma spec_exec env {A} J (p : Prog A) log Q :
  spec J p log Q → J (exec env p log).2 ∧ Q (exec env p log).1 (exec env p log).2.
Proof. revert log. induction p as [a|e k IH]; intros log HQ; [done|]. simpl in *. apply IH, HQ. Qed.

Lemma spec_mono {A} (J J' : list Event → Prop) (p : Prog A) log (Q Q' : A → list Event → Prop) :
  spec J p log Q → (∀ l, J l → J' l) → (∀ a l, J l → Q a l → Q' a l) → spec J' p log Q'.
Proof.
  revert log. induction p as [a|e k IH]; intros log [HJ HQ] Hj Hq; simpl; (split; [auto|]); [auto|].
  intros x. apply IH; auto.
Qed.

Lemma spec_bind {A B} J (p : Prog A) (f : A → Prog B) log Q :
  spec J p log (λ a log', spec J (f a) log' Q) → spec J (pbind p f) log Q.
Proof.
  revert log. induction p as [a|e k IH]; intros log [HJ HQ]; simpl in *; [done|].
  split; [done|]. intros x. apply IH, HQ.
Qed.

Lemma spec_ret {A} (J : list Event → Prop) (a : A) log (Q : A → list Event → Prop) : J log → Q a log → spec J (Ret a) log Q.
Proof. done. Qed.

Lemma spec_call (J : list Event → Prop) e log Q :
  J log → (∀ x, J (log ++ [event e x]) ∧ Q x (log ++ [event e x])) → spec J (call e) log Q.
Proof. intros HJ HQ. split; [done|]. intros x. apply (HQ x). Qed.

(** A call before the rest of a program. *)
Lemma spec_do {A} (J : list Event → Prop) e (k : Ans e → Prog A) log Q :
  J log → (∀ x, spec J (k x) (log ++ [event e x]) Q) → spec J (pbind (call e) k) log Q.
Proof. intros HJ HQ. split; [done|]. intros x. apply HQ. Qed.

Lemma spec_and {A} J J' (p : Prog A) log Q1 Q2 :
  spec J p log Q1 → spec J' p log Q2 → spec (λ l, J l ∧ J' l) p log (λ a l, Q1 a l ∧ Q2 a l).
Proof.
  revert log. induction p as [a|e k IH]; intros log [HJ H1] [HJ' H2]; simpl in *; (split; [done|]); [done|].
  intros x. by apply IH.
Qed.

(** A program whose calls are all of a kind, and what it may return. *)
Fixpoint only {A} (quiet : E → Prop) (p : Prog A) : Prop :=
  match p with
  | Ret _ => True
  | Call e k => quiet e ∧ ∀ x, only quiet (k x)
  end.

Fixpoint returns {A} (p : Prog A) (R : A → Prop) : Prop :=
  match p with
  | Ret a => R a
  | Call e k => ∀ x, returns (k x) R
  end.

(** A property of the calls that calls of a kind do not change. *)
Definition stable (quiet : E → Prop) (P : list Event → Prop) : Prop :=
  ∀ log e x, quiet e → P log → P (log ++ [event e x]).

Lemma stable_weaken (quiet quiet' : E → Prop) P : (∀ e, quiet e → quiet' e) → stable quiet' P → stable quiet P.
Proof. intros Hw Hs log e x He. by apply Hs, Hw. Qed.

Lemma only_spec {A} quiet (J P : list Event → Prop) (p : Prog A) R log :
  only quiet p → returns p R → stable quiet P → (∀ l, P l → J l) → P log →
  spec J p log (λ a log', P log' ∧ R a).
Proof.
  intros Ho Hr Hs HJ. revert log. induction p as [a|e k IH]; intros log HP; simpl in *; (split; [auto|]); [done|].
  intros x. destruct Ho as [Hq Ho]. apply IH; [apply Ho|apply Hr|]. by apply Hs.
Qed.

Lemma spec_True {A} (p : Prog A) log : spec (λ _, True) p log (λ _ _, True).
Proof. revert log. induction p as [a|e k IH]; intros log; simpl; [done|]. split; [done|]. intros x. apply IH. Qed.

Lemma returns_True {A} (p : Prog A) : returns p (λ _, True).
Proof. induction p as [a|e k IH]; simpl; [done|]. intros x. apply IH. Qed.

Lemma only_bind {A B} quiet (p : Prog A) (f : A → Prog B) :
  only quiet p → (∀ a, only quiet (f a)) → only quiet (pbind p f).
Proof. intros Hp Hf. induction p as [a|e k IH]; simpl in *; [done|]. split; [apply Hp|]. intros x. apply IH, Hp. Qed.

Lemma returns_bind {A B} (p : Prog A) (f : A → Prog B) R R' :
  returns p R → (∀ a, R a → returns (f a) R') → returns (pbind p f) R'.
Proof. intros Hp Hf. induction p as [a|e k IH]; simpl in *; [auto|]. intros x. apply IH, Hp. Qed.

Lemma returns_do {A} e (k : Ans e → Prog A) R : (∀ x, returns (k x) R) → returns (pbind (call e) k) R.
Proof. done. Qed.

Lemma returns_spec {A} (p : Prog A) R log : returns p R → spec (λ _, True) p log (λ a _, R a).
Proof. intros Hr. revert log. induction p as [a|e k IH]; intros log; simpl in *; [done|]. split; [done|]. intros x. by apply IH. Qed.

(** Every event of a kind was made when a condition on the calls before it held. *)
Definition guarded {X} (f : Event → option X) (G : X → list Event → Prop) (log : list Event) : Prop :=
  ∀ before ev after x, log = before ++ ev :: after → f ev = Some x → G x before.

Lemma guarded_nil {X} (f : Event → option X) G : guarded f G [].
Proof. intros [|] ? ? ? ?; done. Qed.

Lemma guarded_app {X} (f : Event → option X) G log ev :
  guarded f G log → (∀ x, f ev = Some x → G x log) → guarded f G (log ++ [ev]).
Proof.
  intros HJ Hev before ev' after x Hlog Hf. destruct (decide (after = [])) as [->|Hne].
  - apply app_inj_tail in Hlog as [-> ->]. by apply Hev.
  - destruct (exists_last Hne) as (after' & z & ->). rewrite app_comm_cons, app_assoc in Hlog.
    apply app_inj_tail in Hlog as [-> _]. by eapply HJ.
Qed.

Lemma guarded_inv {X} (f : Event → option X) G log ev :
  guarded f G (log ++ [ev]) → guarded f G log ∧ ∀ x, f ev = Some x → G x log.
Proof.
  intros Hg. split; [|intros x Hx; by apply (Hg log ev [])].
  intros before ev' after x -> Hx. apply (Hg before ev' (after ++ [ev]) x); [|done]. by rewrite <-app_assoc.
Qed.

Lemma guarded_stable {X} (quiet : E → Prop) (f : Event → option X) G :
  (∀ e x, quiet e → f (event e x) = None) → stable quiet (guarded f G).
Proof. intros Hf log e x Hq HJ. apply guarded_app; [done|]. intros y. by rewrite Hf. Qed.

(** ** Goroutines

    A thread is a program and the calls it made; a schedule names the thread that
    makes the next call.  [history] is what all of them did. *)
#[local] Abbreviation Thread := (Prog unit * list Event)%type.

Definition thread_step (env : Env) (history : list Event) (t : Thread) : Thread * list Event :=
  match t.1 with
  | Ret _ => (t, history)
  | Call e k => let x := env e history in ((k x, t.2 ++ [event e x]), history ++ [event e x])
  end.

Fixpoint sched (env : Env) (l : list nat) (history : list Event) (ts : list Thread) : list Event * list Thread :=
  match l with
  | [] => (history, ts)
  | i :: l' =>
      match ts !! i with
      | None => sched env l' history ts
      | Some t => let '(t', history') := thread_step env history t in sched env l' history' (<[i := t']> ts)
      end
  end.

(** What a thread keeps on its own, it keeps among the others. *)
Lemma sched_safe env (I : nat → list Event → Prop) l : ∀ history ts,
  (∀ i t, ts !! i = Some t → safe (I i) t.1 t.2) →
  ∀ i t, (sched env l history ts).2 !! i = Some t → safe (I i) t.1 t.2.
Proof.
  induction l as [|j l IH]; intros history ts Hts; [done|]. simpl. destruct (ts !! j) as [t|] eqn:Hj; [|by apply IH].
  destruct (thread_step env history t) as [t' history'] eqn:Ht. apply IH. intros i u Hi.
  destruct (decide (i = j)) as [->|Hne].
  - rewrite list_lookup_insert_eq in Hi by (by eapply lookup_lt_Some). injection Hi as <-.
    pose proof (Hts j t Hj) as Hs. unfold thread_step in Ht. destruct t as [[a|e k] log]; simpl in *.
    + by injection Ht as <- <-.
    + injection Ht as <- <-. apply Hs.
  - rewrite list_lookup_insert_ne in Hi by done. by apply (Hts i).
Qed.

Lemma sched_length env l : ∀ history ts, length (sched env l history ts).2 = length ts.
Proof.
  induction l as [|j l IH]; intros history ts; [done|]. simpl. destruct (ts !! j) as [t|]; [|apply IH].
  destruct (thread_step env history t) as [t' history']. by rewrite IH, length_insert.
Qed.

Lemma sched_extends env l : ∀ history ts, ∃ k, (sched env l history ts).1 = history ++ k.
Proof.
  induction l as [|j l IH]; intros history ts; [exists []; by rewrite app_nil_r|]. cbn [sched].
  destruct (ts !! j) as [t|]; [|apply IH]. destruct (thread_step env history t) as [t' history'] eqn:Ht. cbv beta iota.
  destruct (IH history' (<[j := t']> ts)) as [k ->]. unfold thread_step in Ht.
  destruct (t.1) as [a|e k']; injection Ht as <- <-; [by exists k|]. eexists. by rewrite <-app_assoc.
Qed.

(** What was done was done by a thread. *)
Lemma sched_In env l ev : ∀ history ts,
  ev ∈ (sched env l history ts).1 →
  ev ∈ history ∨ ∃ i t, (sched env l history ts).2 !! i = Some t ∧ ev ∈ t.2.
Proof.
  assert (∀ l history ts i t, ts !! i = Some t → ev ∈ t.2 → ∃ t', (sched env l history ts).2 !! i = Some t' ∧ ev ∈ t'.2) as Hkeep.
  { clear l. induction l as [|j l IH]; intros history ts i t Hi Hin; [by exists t|]. cbn [sched].
    destruct (ts !! j) as [u|] eqn:Hj; [|by eapply IH]. destruct (thread_step env history u) as [u' history'] eqn:Hu. cbv beta iota.
    destruct (decide (i = j)) as [->|Hne].
    - assert (t = u) as -> by congruence. eapply (IH _ _ j u'); [by apply list_lookup_insert_eq; eapply lookup_lt_Some|].
      unfold thread_step in Hu. destruct (u.1); injection Hu as <- <-; [done|]. simpl. apply elem_of_app. by left.
    - eapply (IH _ _ i t); [by rewrite list_lookup_insert_ne|done]. }
  induction l as [|j l IH]; intros history ts Hin; [by left|]. cbn [sched] in *.
  destruct (ts !! j) as [u|] eqn:Hj; [|by apply IH]. destruct (thread_step env history u) as [u' history'] eqn:Hu. cbv beta iota in *.
  destruct (IH _ _ Hin) as [Hh|(i & t & Hi & Ht)]; [|right; by exists i, t]. unfold thread_step in Hu.
  destruct (u.1) as [a|e k]; injection Hu as <- <-; [by left|]. apply elem_of_app in Hh as [Hh|Hh]; [by left|right].
  edestruct (Hkeep l) as (t' & Ht' & Hin'); [apply (list_lookup_insert_eq ts j); by eapply lookup_lt_Some| |by exists j, t'].
  simpl. apply elem_of_app. by right.
Qed.

(** Every call was answered by the environment, given the calls before it. *)
Lemma sched_answers env l : ∀ history ts,
  ∃ k, (sched env l history ts).1 = history ++ k ∧
    ∀ before ev after, k = before ++ ev :: after → projT2 ev = env (projT1 ev) (history ++ before).
Proof.
  induction l as [|j l IH]; intros history ts; [exists []; rewrite app_nil_r; split; [done|]; by intros []|]. cbn [sched].
  destruct (ts !! j) as [u|]; [|apply IH]. destruct (thread_step env history u) as [u' history'] eqn:Hu. cbv beta iota.
  destruct (IH history' (<[j := u']> ts)) as (k & -> & Hk). unfold thread_step in Hu.
  destruct (u.1) as [a|e k']; injection Hu as <- <-; [by exists k|]. exists (event e (env e history) :: k).
  rewrite <-app_assoc. split; [done|]. intros [|ev' before] ev after Heq; simpl in Heq; injection Heq as <- ->.
  - by rewrite app_nil_r.
  - by rewrite (Hk before ev after eq_refl), <-app_assoc.
Qed.

(** Counting calls: what all did is the sum of what each did. *)
Definition count (f : Event → bool) (log : list Event) : nat := length (filter (λ ev, f ev = true) log).

#[local] Arguments count : simpl never.

Lemma count_app f l1 l2 : count f (l1 ++ l2) = (count f l1 + count f l2)%nat.
Proof. unfold count. by rewrite list.filter_app, length_app. Qed.

Lemma count_plain f e (x : Ans e) log : f (event e x) = false → count f (log ++ [event e x]) = count f log.
Proof. intros Hf. rewrite count_app. unfold count at 2. cbn [filter list_filter]. case_decide; [congruence|]. simpl. lia. Qed.

Lemma count_one f e (x : Ans e) log : f (event e x) = true → count f (log ++ [event e x]) = S (count f log).
Proof. intros Hf. rewrite count_app. unfold count at 2. cbn [filter list_filter]. case_decide; [simpl; lia|congruence]. Qed.

Definition count_all (f : Event → bool) (ts : list Thread) : nat := foldr (λ t n, (count f t.2 + n)%nat) 0%nat ts.

Lemma count_all_insert f ts i t t' :
  ts !! i = Some t → (count_all f (<[i := t']> ts) + count f t.2 = count_all f ts + count f t'.2)%nat.
Proof.
  revert i. induction ts as [|u ts IH]; intros i Hi; [done|]. destruct i as [|i].
  - injection Hi as <-. simpl. lia.
  - specialize (IH i Hi). change (<[S i := t']> (u :: ts)) with (u :: <[i := t']> ts).
    unfold count_all in *. cbn [foldr]. lia.
Qed.

Lemma sched_count env f l : ∀ history ts,
  (count f (sched env l history ts).1 + count_all f ts = count f history + count_all f (sched env l history ts).2)%nat.
Proof.
  induction l as [|j l IH]; intros history ts; [done|]. cbn [sched]. destruct (ts !! j) as [t|] eqn:Hj; [|apply IH].
  destruct (thread_step env history t) as [t' history'] eqn:Ht. cbv beta iota. specialize (IH history' (<[j := t']> ts)).
  pose proof (count_all_insert f ts j t t' Hj) as Hc. unfold thread_step in Ht.
  destruct (t.1) as [a|e k]; injection Ht as <- <-; [lia|]. cbn [snd] in Hc. rewrite !count_app in *. lia.
Qed.

Lemma count_all_bound f n ts : (∀ t, t ∈ ts → (count f t.2 <= n)%nat) → (count_all f ts <= n * length ts)%nat.
Proof.
  induction ts as [|t ts IH]; intros Hn; simpl; [lia|].
  pose proof (Hn t ltac:(left)). assert (count_all f ts <= n * length ts)%nat by (apply IH; intros; apply Hn; by right). lia.
Qed.

(** Two counters, of which the first counts less. *)
Lemma count_mono f g log : (∀ ev, f ev = true → g ev = true) → (count f log <= count g log)%nat.
Proof.
  intros Hfg. unfold count. induction log as [|ev log IH]; [done|]. rewrite !filter_cons. specialize (Hfg ev).
  case_decide; case_decide; simpl; try lia. naive_solver.
Qed.

Lemma count_pos f log : (0 < count f log)%nat → ∃ ev, ev ∈ log ∧ f ev = true.
Proof.
  unfold count. destruct (filter _ log) as [|ev l] eqn:Ef; [simpl; lia|]. intros _. exists ev.
  assert (ev ∈ filter (λ ev, f ev = true) log) as Hin by (rewrite Ef; left). by apply list_elem_of_filter in Hin as [? ?].
Qed.

(** At most one thread counts, and it counts at most one. *)
Lemma count_all_single f ts :
  (∀ t, t ∈ ts → (count f t.2 <= 1)%nat) →
  (∀ i j t t', ts !! i = Some t → ts !! j = Some t' → (0 < count f t.2)%nat → (0 < count f t'.2)%nat → i = j) →
  (count_all f ts <= 1)%nat.
Proof.
  induction ts as [|t ts IH]; intros H1 Hu; [simpl; lia|].
  assert (count_all f ts <= 1)%nat as Hts.
  { apply IH; [intros; apply H1; by right|]. intros i j u u' Hi Hj Pi Pj. by injection (Hu (S i) (S j) u u' Hi Hj Pi Pj). }
  simpl. pose proof (H1 t ltac:(left)). destruct (decide (count f t.2 = 0%nat)) as [->|Hp]; [lia|].
  assert (count_all f ts <= 0 * length ts)%nat; [|lia]. apply count_all_bound. intros u (j & Hj)%list_elem_of_lookup.
  destruct (decide (count f u.2 = 0%nat)) as [->|Hq]; [lia|]. by specialize (Hu 0%nat (S j) t u eq_refl Hj ltac:(lia) ltac:(lia)).
Qed.

(** ** Programs that keep a property of the calls

    [preserves J p]: after any calls with [J], the program keeps [J] at every moment, and
    only adds calls. *)
Definition preserves {A} (J : list Event → Prop) (p : Prog A) : Prop :=
  ∀ log, J log → spec J p log (λ _ l, J l ∧ log `prefix_of` l).

Lemma preserves_ret {A} J (a : A) : preserves J (Ret a).
Proof. by intros log HJ. Qed.

Lemma preserves_then {A B} J (p : Prog A) (f : A → Prog B) log Q :
  preserves J p → J log → (∀ a l, J l → log `prefix_of` l → spec J (f a) l Q) → spec J (pbind p f) log Q.
Proof. intros Hp HJ Hf. apply spec_bind. eapply spec_mono; [by apply Hp|done|]. intros a l _ [Hl Hpre]. by apply Hf. Qed.

Lemma preserves_bind {A B} J (p : Prog A) (f : A → Prog B) :
  preserves J p → (∀ a, preserves J (f a)) → preserves J (pbind p f).
Proof.
  intros Hp Hf log HJ. eapply preserves_then; [done..|]. intros a l Hl Hpre.
  eapply spec_mono; [by apply Hf|done|]. intros b l' _ [? ?]. split; [done|]. by trans l.
Qed.

Lemma preserves_peach {A B} J (f : B → A → Prog B) l : (∀ b x, x ∈ l → preserves J (f b x)) → ∀ b, preserves J (peach f b l).
Proof.
  induction l as [|x l IH]; intros Hf b; [apply preserves_ret|]. simpl. apply preserves_bind; [apply Hf; left|].
  intros b'. apply IH. intros. apply Hf. by right.
Qed.

Lemma only_preserves {A} quiet J (p : Prog A) : stable quiet J → only quiet p → preserves J p.
Proof.
  intros Hs Ho log HJ. assert (stable quiet (λ l, J l ∧ log `prefix_of` l)) as Hs'.
  { intros l e x He [Hl Hpre]. split; [by apply Hs|]. by apply prefix_app_r. }
  eapply spec_mono; [apply (only_spec quiet J (λ l, J l ∧ log `prefix_of` l) p (λ _, True));
    [done|apply returns_True|done|by intros l [? _]|done]|done|]. by intros a l _ [? _].
Qed.

(** Logs only grow. *)
Lemma spec_grows {A} J (p : Prog A) log Q :
  spec J p log Q → spec (λ l, J l ∧ log `prefix_of` l) p log (λ a l, Q a l ∧ J l ∧ log `prefix_of` l).
Proof.
  cut (∀ base, base `prefix_of` log → spec J p log Q → spec (λ l, J l ∧ base `prefix_of` l) p log (λ a l, Q a l ∧ J l ∧ base `prefix_of` l)).
  { intros Hc. by apply Hc. }
  intros base. revert log. induction p as [a|e k IH]; intros log Hb [HJ HQ]; simpl; (split; [done|]); [done|].
  intros x. apply IH; [by apply prefix_app_r|apply HQ].
Qed.

Lemma spec_then {A B} J (p : Prog A) (f : A → Prog B) log Q Q' :
  spec J p log Q → (∀ a l, J l → log `prefix_of` l → Q a l → spec J (f a) l Q') → spec J (pbind p f) log Q'.
Proof.
  intros Hp Hf. apply spec_bind. eapply spec_mono; [apply spec_grows, Hp|by intros l [? _]|]. intros a l [Hl Hpre] (Hq & _). by apply Hf.
Qed.

(** What the next elements of a list need is in the calls made before. *)
Lemma safe_peach {A B} J (f : B → A → Prog B) l base :
  (∀ b x log, x ∈ l → J log → base `prefix_of` log → safe J (f b x) log) →
  ∀ b log, J log → base `prefix_of` log → safe J (peach f b l) log.
Proof.
  induction l as [|x l IH]; intros Hf b log HJ Hb; [by apply spec_ret|]. simpl.
  eapply spec_then; [apply Hf; [left|done|done]|]. intros b' l' Hl' Hp _. apply IH; [|done|by trans log].
  intros b2 y log2 Hy. apply Hf. by right.
Qed.

(** A call that is quiet, before the rest of a program. *)
Lemma quiet_do {A} (quiet : E → Prop) J e (k : Ans e → Prog A) log Q :
  stable quiet J → quiet e → J log → (∀ x, J (log ++ [event e x]) → spec J (k x) (log ++ [event e x]) Q) →
  spec J (pbind (call e) k) log Q.
Proof. intros Hs He HJ Hk. apply spec_do; [done|]. intros x. apply Hk. by apply Hs. Qed.
End Prog.

Arguments Prog {E} Ans A : assert.
Arguments Ret {E Ans A} a.
Arguments Call {E Ans A} e k.
Arguments Event {E} Ans.
Arguments Env {E} Ans.

(** A goroutine and the calls it made. *)
Abbreviation Thread Ans := (Prog Ans unit * list (Event Ans))%type.

Declare Scope prog_scope.
Delimit Scope prog_scope with prog.
Notation "'do*' x := m 'in' k" := (pbind m (λ x, k))
  (at level 10, x binder, m at level 100, k at level 200) : prog_scope.
Notation "m ;; k" := (pbind m (λ _, k)) (at level 100, right associativity) : prog_scope.
