(* ===== verification/Backoff.v ===== *)
(** * Retry policies (cmn/backoff)

    The policies compute the delay before the next attempt; [Retry] repeats an
    operation until it succeeds, fails for good, the policy gives up or the context
    ends.  The operation is any program, and the variables its closure writes are
    passed as a state.

    An error is the list of what [errors.Is] and [errors.As] find in its chain.  The
    loop of [Retry] has fuel: with a bound on the retries one round more than the
    bound is enough ([Retry_terminates]). *)

From stdpp Require Import base strings list.
From Stdlib Require Import ZArith QArith Qround Qpower Lia.
From S2P Require Import Prelude Step FileSys Prog.

Open Scope prog_scope.
Open Scope Z_scope.

(** ** Errors *)
Inductive Sentinel :=
  | ErrPermanent
  | StaleQueueDispatchError
  | ContextCanceled
  | DeadlineExceeded
  | ExitError                    (* a subprocess that exited *)
  | errProcessorClosed
  | errNotStarted
  | ErrDAGRunLeaseNotFound
  | ErrWorkerHeartbeatNotFound
  | Sys (e : Err)                (* an error of a store *)
  | OtherError (msg : string).

#[export] Instance Sentinel_eq_dec : EqDecision Sentinel.
Proof. solve_decision. Defined.

Abbreviation Error := (list Sentinel).

(** [errors.Is] and [errors.As] *)
Definition Is (err : Error) (s : Sentinel) : bool := bool_decide (s ∈ err).

Definition PermanentError (err : Error) : Error := ErrPermanent :: err.

(** ** retrypolicy.go *)
Record ExponentialBackoffPolicy := mkExponential {
  ep_InitialInterval : Duration;
  ep_BackoffFactor : Q;
  ep_MaxInterval : Duration;
  ep_MaxRetries : Z;
}.

Record ConstantBackoffPolicy := mkConstant { cp_Interval : Duration; cp_MaxRetries : Z }.

Record LinearBackoffPolicy := mkLinear {
  lp_InitialInterval : Duration;
  lp_Increment : Duration;
  lp_MaxInterval : Duration;
  lp_MaxRetries : Z;
}.

Definition defaultMaxInterval : Duration := 10 * Second.

Definition NewExponentialBackoffPolicy (initialInterval : Duration) : ExponentialBackoffPolicy :=
  mkExponential initialInterval (2 # 1) defaultMaxInterval 0.
Definition NewConstantBackoffPolicy (interval : Duration) : ConstantBackoffPolicy := mkConstant interval 0.
Definition NewLinearBackoffPolicy (initialInterval increment : Duration) : LinearBackoffPolicy :=
  mkLinear initialInterval increment defaultMaxInterval 0.

Inductive JitterType := NoJitter | FullJitter | Jitter.

(** The implementations of the interface [RetryPolicy]. *)
Inductive BackoffPolicy :=
  | Exponential (p : ExponentialBackoffPolicy)
  | Constant (p : ConstantBackoffPolicy)
  | Linear (p : LinearBackoffPolicy)
  | Jittered (base : BackoffPolicy) (t : JitterType).

(** Whether a policy with the bound [maxRetries] gives up. *)
Definition exhausted (maxRetries retryCount : Z) : bool := (0 <? maxRetries) && (maxRetries <=? retryCount).

Section Policies.
Context `{Float64}.

Definition Exponential_ComputeNextInterval (p : ExponentialBackoffPolicy) (retryCount : Z) : option Duration :=
  if exhausted (ep_MaxRetries p) retryCount then None
  else
    let interval := f_mul (f_of_duration (ep_InitialInterval p)) (f_pow (ep_BackoffFactor p) retryCount) in
    let cap := f_of_duration (ep_MaxInterval p) in
    Some (f_to_duration (if Qle_bool interval cap then interval else cap)).

Definition Constant_ComputeNextInterval (p : ConstantBackoffPolicy) (retryCount : Z) : option Duration :=
  if exhausted (cp_MaxRetries p) retryCount then None else Some (cp_Interval p).

Definition Linear_ComputeNextInterval (p : LinearBackoffPolicy) (retryCount : Z) : option Duration :=
  if exhausted (lp_MaxRetries p) retryCount then None
  else Some (Z.min (wrap64 (lp_InitialInterval p + wrap64 (retryCount * lp_Increment p))) (lp_MaxInterval p)).

(** ** jitter.go: [random n] is [Int63n n]. *)
Definition Apply (t : JitterType) (random : Z → Z) (interval : Duration) : Duration :=
  if interval <=? 0 then 0
  else
    match t with
    | NoJitter => interval
    | FullJitter => random (wrap64 (interval + 1))
    | Jitter => wrap64 (interval / 2 + random (wrap64 (interval + 1)))
    end.

(** Every jittered policy has a random source of its own. *)
Fixpoint ComputeNextInterval (random : nat → Z → Z) (p : BackoffPolicy) (retryCount : Z) : option Duration :=
  match p with
  | Exponential p => Exponential_ComputeNextInterval p retryCount
  | Constant p => Constant_ComputeNextInterval p retryCount
  | Linear p => Linear_ComputeNextInterval p retryCount
  | Jittered base t =>
      match ComputeNextInterval (λ n, random (S n)) base retryCount with
      | None => None
      | Some interval => Some (Apply t (random 0%nat) interval)
      end
  end.

Fixpoint max_retries (p : BackoffPolicy) : Z :=
  match p with
  | Exponential p => ep_MaxRetries p
  | Constant p => cp_MaxRetries p
  | Linear p => lp_MaxRetries p
  | Jittered base _ => max_retries base
  end.

Lemma policy_gives_up random p retryCount :
  ComputeNextInterval random p retryCount = None ↔ exhausted (max_retries p) retryCount = true.
Proof.
  revert random. induction p as [p|p|p|p IH t]; intros random; simpl;
    [unfold Exponential_ComputeNextInterval|unfold Constant_ComputeNextInterval|unfold Linear_ComputeNextInterval|];
    [by case_match..|].
  specialize (IH (λ n, random (S n))). by destruct (ComputeNextInterval _ p retryCount); rewrite <-IH.
Qed.
End Policies.

(** ** retry.go *)
Record retrierImpl := mkRetrier { rt_retryCount : Z; rt_startTime : option Time }.

Definition NewRetrier : retrierImpl := mkRetrier 0 None.
Definition Reset (r : retrierImpl) : retrierImpl := mkRetrier 0 None.

(** What a nil [isRetriable] stands for. *)
Definition retriable_default (err : Error) : bool := negb (Is err ErrPermanent).

Section Retry.
Context `{Float64} {E : Type} {Ans : E → Type} {S : Type}.
Context (ctxErr : Prog Ans (option Error)) (clock : Prog Ans Time) (random : Prog Ans (nat → Z → Z))
        (wait : Duration → Prog Ans (option Error)).
Context (isRetriable : Error → bool) (policy : BackoffPolicy).

(** [retrierImpl.Next]; no policy uses the elapsed time. *)
Definition Next (r : retrierImpl) : Prog Ans (option Duration * retrierImpl) :=
  do* start := match rt_startTime r with Some t => Ret t | None => clock end in
  let r := mkRetrier (rt_retryCount r) (Some start) in
  do* _ := clock in                                        (* time.Since *)
  do* rnd := random in
  match ComputeNextInterval rnd policy (rt_retryCount r) with
  | None => Ret (None, r)
  | Some interval => Ret (Some interval, mkRetrier (rt_retryCount r + 1) (Some start))
  end.

Definition retry_delay (interval : Duration) : Duration := if interval <=? 0 then 100 * Millisecond else interval.

(** The loop: [None] is the end of the fuel, [Some err] what [Retry] returns. *)
Fixpoint retry_loop (op : S → Prog Ans (option Error * S)) (fuel : nat) (r : retrierImpl) (s : S)
    : Prog Ans (option (option Error) * S) :=
  match fuel with
  | O => Ret (None, s)
  | Datatypes.S fuel' =>
      do* c := ctxErr in
      match c with
      | Some err => Ret (Some (Some err), s)
      | None =>
          do* '(res, s) := op s in
          match res with
          | None => Ret (Some None, s)
          | Some err =>
              if negb (isRetriable err) then Ret (Some (Some err), s)
              else
                do* '(next, r) := Next r in
                match next with
                | None => Ret (Some (Some err), s)
                | Some interval =>
                    do* w := wait (retry_delay interval) in
                    match w with
                    | Some err => Ret (Some (Some err), s)
                    | None => retry_loop op fuel' r s
                    end
                end
          end
      end
  end.

Definition Retry (op : S → Prog Ans (option Error * S)) (fuel : nat) (s : S) : Prog Ans (option (option Error) * S) :=
  retry_loop op fuel NewRetrier s.

(** ** Reasoning about [Retry] *)

(** What [Next] returns, and the counter afterwards. *)
Definition next_result (r : retrierImpl) (x : option Duration * retrierImpl) : Prop :=
  match x.1 with
  | None => exhausted (max_retries policy) (rt_retryCount r) = true
  | Some _ => exhausted (max_retries policy) (rt_retryCount r) = false ∧ rt_retryCount x.2 = rt_retryCount r + 1
  end.

Lemma Next_returns r : returns (Next r) (next_result r).
Proof.
  unfold Next. eapply returns_bind; [apply returns_True|]. intros start _.
  eapply returns_bind; [apply returns_True|]. intros _ _.
  eapply returns_bind; [apply returns_True|]. intros rnd _. cbn [rt_retryCount].
  pose proof (policy_gives_up rnd policy (rt_retryCount r)) as Hp.
  destruct (ComputeNextInterval rnd policy (rt_retryCount r)) eqn:Ec; simpl; unfold next_result; simpl.
  - split; [|done]. apply not_true_is_false. intros Hx%Hp. congruence.
  - by apply Hp.
Qed.

Context (quiet : E → Prop) (Hctx : only quiet ctxErr) (Hclock : only quiet clock) (Hrandom : only quiet random)
        (Hwait : ∀ d, only quiet (wait d)).

Lemma Next_only r : only quiet (Next r).
Proof using Hclock Hrandom.
  unfold Next. apply only_bind; [by destruct (rt_startTime r)|]. intros start.
  apply only_bind; [done|]. intros _. apply only_bind; [done|]. intros rnd. by case_match.
Qed.

(** The rule of the loop.  [I] holds before and after every round that fails, [Ok]
    when the operation succeeds; an error is one of the context ([Fctx]) or one the
    operation returned ([Fe]). *)
Section Rule.
Context (op : S → Prog Ans (option Error * S)) (J : list (Event Ans) → Prop) (I Ok : S → list (Event Ans) → Prop)
        (Fctx : Error → Prop) (Fe : Error → list (Event Ans) → Prop).
Context (HIJ : ∀ s l, I s l → J l) (HI : ∀ s, stable quiet (I s)) (HFe : ∀ err, stable quiet (Fe err)).
Context (Hctx_ret : returns ctxErr (λ c, ∀ err, c = Some err → Fctx err))
        (Hwait_ret : ∀ d, returns (wait d) (λ c, ∀ err, c = Some err → Fctx err)).

Definition op_spec : Prop := ∀ s log, I s log →
  spec J (op s) log (λ '(res, s') log',
    match res with
    | None => Ok s' log'
    | Some err => I s' log' ∧ Fe err log'
    end).

Definition retry_post (x : option (option Error) * S) (log : list (Event Ans)) : Prop :=
  match x.1 with
  | None => I x.2 log
  | Some None => Ok x.2 log
  | Some (Some err) => I x.2 log ∧ (Fctx err ∨ Fe err log)
  end.

Lemma retry_loop_spec fuel : op_spec → ∀ r s log, I s log → spec J (retry_loop op fuel r s) log retry_post.
Proof using HFe HI HIJ Hclock Hctx Hctx_ret Hrandom Hwait Hwait_ret.
  intros Hop. induction fuel as [|fuel IH]; intros r s log Hs; [split; [by eapply HIJ|done]|]. cbn [retry_loop].
  apply spec_bind. eapply spec_mono; [eapply (only_spec quiet J (I s)); eauto|done|]. intros c l1 _ [Hs1 Hc].
  destruct c as [err|]; [apply spec_ret; [by eapply HIJ|]; split; [done|]; left; by apply Hc|].
  apply spec_bind. eapply spec_mono; [by apply Hop|done|]. intros [[err|] s2] l2 HJ2 H2; [|by apply spec_ret].
  destruct H2 as [Hs2 Hf2]. destruct (isRetriable err); cbv [negb]; [|apply spec_ret; [done|]; split; [done|]; by right].
  apply spec_bind. eapply spec_mono.
  { eapply (only_spec quiet J (λ l, I s2 l ∧ Fe err l) _ (λ _, True)); [apply Next_only|apply returns_True| |by intros l [? _]; eapply HIJ|done].
    intros l e x Hq [? ?]. split; [by apply HI|by apply HFe]. }
  { done. }
  intros [[interval|] r3] l3 HJ3 [[Hs3 Hf3] _]; [|apply spec_ret; [done|]; split; [done|]; by right].
  apply spec_bind. eapply spec_mono; [eapply (only_spec quiet J (I s2)); eauto|done|]. intros w l4 HJ4 [Hs4 Hw].
  destruct w as [err'|]; [apply spec_ret; [done|]; split; [done|]; left; by apply Hw|]. by apply IH.
Qed.

Lemma Retry_spec fuel s log : op_spec → I s log → spec J (Retry op fuel s) log retry_post.
Proof using HFe HI HIJ Hclock Hctx Hctx_ret Hrandom Hwait Hwait_ret. intros Hop Hs. by apply retry_loop_spec. Qed.
End Rule.

End Retry.

(** A round more than the retries the policy still allows is enough fuel. *)
Lemma retry_loop_fuel `{Float64} {E} {Ans : E → Type} {S} (ctxErr : Prog Ans (option Error)) clock random wait isRetriable
    policy (op : S → Prog Ans (option Error * S)) fuel : ∀ r s,
  0 < max_retries policy → rt_retryCount r <= max_retries policy →
  max_retries policy - rt_retryCount r < Z.of_nat fuel →
  returns (retry_loop ctxErr clock random wait isRetriable policy op fuel r s) (λ x, x.1 ≠ None).
Proof.
  induction fuel as [|fuel IH]; intros r s Hmax Hle Hfuel; [lia|]. cbn [retry_loop].
  eapply returns_bind; [apply returns_True|]. intros [err|] _; [done|].
  eapply returns_bind; [apply returns_True|]. intros [[err|] s'] _; [|done].
  destruct (isRetriable err); cbv [negb]; [|done].
  eapply returns_bind; [apply Next_returns|]. intros [[interval|] r'] Hnext; unfold next_result in Hnext; simpl in Hnext; [|done].
  destruct Hnext as [Hnot Hr']. unfold exhausted in Hnot. apply andb_false_iff in Hnot. rewrite Z.ltb_ge, Z.leb_gt in Hnot.
  eapply returns_bind; [apply returns_True|]. intros [err'|] _; [done|]. apply IH; [done|lia..].
Qed.

(** ** Claims *)

(** The operation with the number of its calls and its last result. *)
Definition counted {E} {Ans : E → Type} {S} (op : S → Prog Ans (option Error * S))
    : nat * option Error * S → Prog Ans (option Error * (nat * option Error * S)) :=
  λ '(n, _, s), do* '(res, s') := op s in Ret (res, (Datatypes.S n, res, s')).

Section Termination.
Context `{Float64} {E : Type} {Ans : E → Type} {S : Type}.
Context (ctxErr : Prog Ans (option Error)) (clock : Prog Ans Time) (random : Prog Ans (nat → Z → Z))
        (wait : Duration → Prog Ans (option Error)) (isRetriable : Error → bool) (policy : BackoffPolicy).
Context (op : S → Prog Ans (option Error * S)) (Fctx : Error → Prop).

(** What [Retry] returns after [n] calls of the operation, the last with [last]. *)
Definition retry_outcome (x : option (option Error) * (nat * option Error * S)) : Prop :=
  let '(res, (n, last, _)) := x in
  Z.of_nat n <= max_retries policy + 1 ∧
  match res with
  | None => False
  | Some None => (0 < n)%nat ∧ last = None
  | Some (Some err) =>
      Fctx err ∨ (last = Some err ∧ (isRetriable err = false ∨ Z.of_nat n = max_retries policy + 1))
  end.

Context (Hctx : returns ctxErr (λ c, ∀ err, c = Some err → Fctx err))
        (Hwait : ∀ d, returns (wait d) (λ c, ∀ err, c = Some err → Fctx err)).

Lemma retry_loop_ends fuel : ∀ r n last s,
  0 < max_retries policy → Z.of_nat n = rt_retryCount r → rt_retryCount r <= max_retries policy →
  max_retries policy - rt_retryCount r < Z.of_nat fuel →
  returns (retry_loop ctxErr clock random wait isRetriable policy (counted op) fuel r (n, last, s)) retry_outcome.
Proof using Hctx Hwait.
  induction fuel as [|fuel IH]; intros r n last s Hmax Hn Hle Hfuel; [lia|]. cbn [retry_loop].
  eapply returns_bind; [exact Hctx|]. intros [err|] Hc; [split; [lia|]; left; by apply Hc|].
  eapply (returns_bind _ _ (λ x, x.2.1 = (Datatypes.S n, x.1))).
  { unfold counted. eapply returns_bind; [apply returns_True|]. by intros [res s'] _. }
  intros [res [[n' last'] s']] [= -> ->]. destruct res as [err|]; [|split; [lia|split; [lia|done]]].
  destruct (isRetriable err) eqn:Hr; cbv [negb]; [|split; [lia|]; by right; split; [|left]].
  eapply returns_bind; [apply Next_returns|]. intros [[interval|] r'] Hnext; unfold next_result in Hnext; simpl in Hnext.
  - destruct Hnext as [Hnot Hr']. unfold exhausted in Hnot. apply andb_false_iff in Hnot.
    rewrite Z.ltb_ge, Z.leb_gt in Hnot.
    eapply returns_bind; [apply Hwait|]. intros [err'|] Hw; [split; [lia|]; left; by apply Hw|].
    apply IH; [done|lia..].
  - unfold exhausted in Hnext. apply andb_true_iff in Hnext as [_ Hnext%Z.leb_le].
    split; [lia|]. right. split; [done|]. right. lia.
Qed.

(** [Retry] with a policy that bounds the retries by [m > 0] ends: one round more
    than the bound is enough fuel, in every environment and for every operation.
    The operation is called at most [m + 1] times.  [nil] is returned exactly
    because the last call returned [nil]; an error is one of the context, or the
    error of the last call, which is not retriable or was the last one allowed. *)
Theorem Retry_terminates fuel env s log :
  0 < max_retries policy < Z.of_nat fuel →
  retry_outcome (exec env (Retry ctxErr clock random wait isRetriable policy (counted op) fuel (0%nat, None, s)) log).1.
Proof using Hctx Hwait.
  intros [Hm Hf]. eapply (spec_exec env (λ _, True) _ log (λ x _, retry_outcome x)).
  apply returns_spec, retry_loop_ends; simpl; lia.
Qed.
End Termination.

(** ** Intervals *)

(** What the code relies on of binary64: a duration below 2^53 ns is exact, the
    product and the power of numbers that are not negative are not negative, and a
    float in the range of int64 is truncated. *)
Class Float64Laws `{Float64} := {
  f_of_exact : ∀ d, Z.abs d <= 2 ^ 53 → f_of_duration d = inject_Z d;
  f_mul_nonneg : ∀ a b, (0 <= a)%Q → (0 <= b)%Q → (0 <= f_mul a b)%Q;
  f_pow_nonneg : ∀ a n, (0 <= a)%Q → (0 <= f_pow a n)%Q;
  f_to_trunc : ∀ q, min_int64 <= Qtrunc q <= max_int64 → f_to_duration q = Qtrunc q;
}.

#[export] Instance exact_float_laws to_int64 :
  (∀ q, min_int64 <= Qtrunc q <= max_int64 → to_int64 q = Qtrunc q) → @Float64Laws (exact_float to_int64).
Proof.
  intros Ht. split; simpl; [done| | |done].
  - intros a b Ha Hb. by apply Qmult_le_0_compat.
  - intros a n Ha. by apply Qpower_0_le.
Qed.

Lemma amd64_laws : @Float64Laws amd64_float.
Proof.
  apply exact_float_laws. intros q [H1 H2]. unfold amd64_to_int64. by rewrite (proj2 (Z.leb_le _ _) H1), (proj2 (Z.leb_le _ _) H2).
Qed.

Lemma Qtrunc_bounds q d : (0 <= q)%Q → (q <= inject_Z d)%Q → 0 <= Qtrunc q <= d.
Proof.
  intros H0 Hd. unfold Qtrunc. apply Qle_bool_iff in H0 as E. rewrite E. split.
  - change 0 with (Qfloor (inject_Z 0)). by apply Qfloor_resp_le.
  - rewrite <-(Qfloor_Z d). by apply Qfloor_resp_le.
Qed.

(** The intervals of the policies with their caps; the jitter of an interval stays
    within half of it, as the comment says. *)
Fixpoint max_interval (p : BackoffPolicy) : Duration :=
  match p with
  | Exponential p => ep_MaxInterval p
  | Constant p => cp_Interval p
  | Linear p => lp_MaxInterval p
  | Jittered base Jitter => max_interval base / 2 + max_interval base
  | Jittered base _ => max_interval base
  end.

(** Policies whose fields are as the callers set them. *)
Fixpoint policy_ok (p : BackoffPolicy) : Prop :=
  match p with
  | Exponential p => 0 <= ep_InitialInterval p <= 2 ^ 53 ∧ (0 <= ep_BackoffFactor p)%Q ∧ 0 <= ep_MaxInterval p <= 2 ^ 53
  | Constant p => 0 <= cp_Interval p <= 2 ^ 53
  | Linear p => 0 <= lp_InitialInterval p ∧ 0 <= lp_Increment p ∧ 0 <= lp_MaxInterval p <= 2 ^ 53
  | Jittered base t => policy_ok base ∧ (t = Jitter → max_interval base <= 2 ^ 53)
  end.

(** [Int63n] *)
Definition random_ok (random : nat → Z → Z) : Prop := ∀ i n, 0 < n → 0 <= random i n < n.

Lemma Apply_bounds t random d m :
  (∀ n, 0 < n → 0 <= random n < n) → d <= m → 0 <= m <= 2 ^ 60 →
  Apply t random d <= match t with Jitter => m / 2 + m | _ => m end.
Proof.
  intros Hr Hd Hm. unfold Apply. pose proof (Z.div_mod m 2 ltac:(lia)). pose proof (Z.mod_pos_bound m 2 ltac:(lia)).
  destruct (d <=? 0) eqn:E; breflect; [destruct t; lia|].
  assert (wrap64 (d + 1) = d + 1) as Hw by (apply wrap64_id; unfold min_int64, max_int64; lia).
  rewrite Hw. pose proof (Hr (d + 1) ltac:(lia)) as Hn. destruct t; [lia|lia|].
  pose proof (Z.div_le_mono d m 2 ltac:(lia) ltac:(lia)). pose proof (Z.div_pos d 2 ltac:(lia) ltac:(lia)).
  rewrite wrap64_id by (unfold min_int64, max_int64; lia). lia.
Qed.

Lemma max_interval_bound p : policy_ok p → 0 <= max_interval p <= 2 ^ 54.
Proof.
  induction p as [p|p|p|p IH t]; simpl; [lia..|]. intros [Hp Hj]. specialize (IH Hp). destruct t; try lia.
  specialize (Hj eq_refl). Z.to_euclidean_division_equations; lia.
Qed.

Lemma interval_le `{Float64Laws} p : policy_ok p → ∀ random retryCount d,
  random_ok random → ComputeNextInterval random p retryCount = Some d → d <= max_interval p.
Proof.
  induction p as [p|p|p|p IH t]; intros Hp random retryCount d Hr; simpl.
  - unfold Exponential_ComputeNextInterval. destruct (exhausted _ _); [done|]. intros [= <-].
    destruct Hp as (Hi & Hb & Hm). rewrite !f_of_exact by lia. set (q := f_mul _ _).
    assert (0 <= q)%Q as Hq.
    { apply f_mul_nonneg; [|by apply f_pow_nonneg]. change 0%Q with (inject_Z 0). rewrite <-Zle_Qle. lia. }
    assert (∀ q', (0 <= q')%Q → (q' <= inject_Z (ep_MaxInterval p))%Q → f_to_duration q' <= ep_MaxInterval p) as Hq'.
    { intros q' H1 H2. pose proof (Qtrunc_bounds _ _ H1 H2). rewrite f_to_trunc; unfold min_int64, max_int64; lia. }
    destruct (Qle_bool q _) eqn:E; apply Hq'; [done|by apply Qle_bool_iff| |apply Qle_refl].
    change 0%Q with (inject_Z 0). rewrite <-Zle_Qle. lia.
  - unfold Constant_ComputeNextInterval. destruct (exhausted _ _); [done|]. intros [= <-]. lia.
  - unfold Linear_ComputeNextInterval. destruct (exhausted _ _); [done|]. intros [= <-]. lia.
  - destruct Hp as [Hp Hj]. destruct (ComputeNextInterval _ p retryCount) as [i|] eqn:Ei; [|done]. intros [= <-].
    pose proof (max_interval_bound p Hp). pose proof (IH Hp (λ n, random (S n)) retryCount i (λ k, Hr (S k)) Ei).
    pose proof (Apply_bounds t (random 0%nat) i (max_interval p) (Hr 0%nat)). destruct t; simpl; lia.
Qed.

(** The delay before a retry: it is positive and, for a policy with fields in
    range, at most the cap of the policy (100 ms when that is less), whatever the
    number of retries and the random source; an interval that overflows or is not
    positive becomes 100 ms. *)
Theorem retry_delay_bounds `{Float64Laws} p random retryCount d :
  policy_ok p → random_ok random → ComputeNextInterval random p retryCount = Some d →
  0 < retry_delay d <= Z.max (100 * Millisecond) (max_interval p).
Proof.
  intros Hp Hr Hd. pose proof (interval_le p Hp random retryCount d Hr Hd) as Hle. unfold retry_delay.
  assert (0 < 100 * Millisecond) by done. destruct (d <=? 0) eqn:E; breflect; lia.
Qed.
