(* ===== verification/Distributed.v ===== *)
(** * Leases of distributed runs (core/exec/distributed.go)

    A worker that runs an attempt keeps a lease alive through its coordinator. *)

From stdpp Require Import base strings list.
From Stdlib Require Import ZArith Lia.
From S2P Require Import Prelude Status RunStatus.

Open Scope Z_scope.

Record CoordinatorEndpoint := mkEndpoint { ce_ID : string; ce_Host : string; ce_Port : Z }.

Record DAGRunLease := mkDAGRunLease {
  dl_AttemptKey : string;
  dl_DAGRun : DAGRunRef;
  dl_Root : DAGRunRef;
  dl_AttemptID : string;
  dl_QueueName : string;
  dl_WorkerID : string;
  dl_Owner : CoordinatorEndpoint;
  dl_ClaimedAt : Z;
  dl_LastHeartbeatAt : Z;
}.

(** [time.UnixMilli], and the zero time for 0. *)
Definition milli_time (ms : Z) : Time := if ms =? 0 then 0 else UnixMilli ms.
Definition LastHeartbeatTime (l : DAGRunLease) : Time := milli_time (dl_LastHeartbeatAt l).
Definition ClaimedTime (l : DAGRunLease) : Time := milli_time (dl_ClaimedAt l).

Definition IsFresh (l : DAGRunLease) (now : Time) (staleThreshold : Duration) : bool :=
  if (staleThreshold <=? 0) || (dl_LastHeartbeatAt l =? 0) then false
  else Sub now (LastHeartbeatTime l) <? staleThreshold.

Definition IsRemoteWorkerID (workerID : string) : bool :=
  bool_decide (workerID ≠ "") && bool_decide (workerID ≠ "local").

Definition AttemptKeyForStatus (status : option DAGRunStatus) (fallbackAttemptID : string) : string :=
  match status with
  | None => ""
  | Some st =>
      if bool_decide (rs_AttemptKey st ≠ "") then rs_AttemptKey st
      else
        let attemptID := if bool_decide (rs_AttemptID st = "") then fallbackAttemptID else rs_AttemptID st in
        if bool_decide (attemptID = "") then ""
        else if Zero (rs_Root st) && negb (Zero (rs_Parent st)) then ""
        else
          let root := if Zero (rs_Root st) then status_DAGRun st else rs_Root st in
          GenerateAttemptKey (ref_Name root) (ref_ID root) (rs_Name st) (rs_DAGRunID st) attemptID
  end.

Definition LeaseIdentityMatchesStatus (lease : option DAGRunLease) (status : option DAGRunStatus)
    (fallbackAttemptID : string) : bool :=
  match lease, status with
  | Some l, Some st =>
      let attemptKey := AttemptKeyForStatus status fallbackAttemptID in
      let attemptID := if bool_decide (rs_AttemptID st = "") then fallbackAttemptID else rs_AttemptID st in
      if bool_decide (attemptKey ≠ "") && bool_decide (dl_AttemptKey l ≠ attemptKey) then false
      else if bool_decide (attemptID ≠ "") && bool_decide (dl_AttemptID l ≠ "") && bool_decide (dl_AttemptID l ≠ attemptID)
      then false
      else if bool_decide (rs_DAGRunID st ≠ "") && bool_decide (dl_DAGRun l ≠ status_DAGRun st) then false
      else if negb (Zero (rs_Root st)) && negb (Zero (dl_Root l)) && bool_decide (dl_Root l ≠ rs_Root st) then false
      else if bool_decide (rs_WorkerID st ≠ "") && bool_decide (dl_WorkerID l ≠ "") &&
              bool_decide (dl_WorkerID l ≠ rs_WorkerID st)
      then false
      else true
  | _, _ => false
  end.

Definition LeaseMatchesStatus (lease : option DAGRunLease) (status : option DAGRunStatus) (fallbackAttemptID : string)
    (now : Time) (staleThreshold : Duration) : bool :=
  match lease, status with
  | Some l, Some _ =>
      if negb (IsFresh l now staleThreshold) then false
      else LeaseIdentityMatchesStatus lease status fallbackAttemptID
  | _, _ => false
  end.

Definition DistributedLeaseExpiredReason (workerID : string) : string :=
  ("distributed run lease expired: worker " ++ workerID ++
   " accepted the task claim but stopped reporting to the owner coordinator")%string.
