(* ===== verification/QueueProc.v ===== *)
(** * The queue processor (service/scheduler/queue_processor.go)

    For every queue the processor counts what runs, picks as many items as there are
    free slots, and starts each of them in a goroutine that waits for a sign of life
    and then removes the item.  The stores, the processes and the clock are used by
    other services too, so they are an environment ([Prog]): a call per operation of
    the stores, with any answer its type allows.

    [execErrCh] is the buffered channel between a launch and its waiter: the
    goroutine of a local execution is [executeLocal], the receiver is
    [QPollExecErr].  A panic of an item's goroutine is recovered by the code and not
    modelled. *)

From stdpp Require Import base strings list gmap.
From Stdlib Require Import ZArith QArith Lia.
From S2P Require Import Prelude Status Step FileSys RunStatus SchedulerData RunLife Distributed Prog Backoff.

Open Scope prog_scope.
Open Scope Z_scope.

(** ** Configuration *)
Record BackoffConfig := mkBackoffConfig {
  bc_InitialInterval : Duration;
  bc_MaxInterval : Duration;
  bc_MaxRetries : Z;
  bc_StartupGracePeriod : Duration;
}.

Definition DefaultBackoffConfig (windows : bool) : BackoffConfig :=
  mkBackoffConfig (500 * Millisecond) (5 * Second) 8 (if windows then Second else 100 * Millisecond).

(** The stores that may be nil, and the settings of the executor. *)
Record QueueProcessor := mkQueueProcessor {
  qp_hasLeaseStore : bool;
  qp_hasDispatchStore : bool;
  qp_hasCoordinator : bool;
  qp_defaultExecMode : string;
  qp_backoffConfig : BackoffConfig;
  qp_leaseStaleThreshold : Duration;
}.

Definition leaseStaleThresholdOrDefault (p : QueueProcessor) : Duration :=
  if qp_leaseStaleThreshold p <=? 0 then DefaultStaleLeaseThreshold else qp_leaseStaleThreshold p.

Definition IsDistributed (p : QueueProcessor) (dag : DAG) : bool :=
  ShouldDispatchToCoordinator dag (qp_hasCoordinator p) (qp_defaultExecMode p).

(** ** The queues the processor knows *)
Record queue := mkQueue { q_maxConcurrency : Z; q_isGlobal : bool }.

Definition NewQueues (config : list (string * Z)) : gmap string queue :=
  foldl (λ m '(name, maxActiveRuns), <[name := mkQueue (Z.max maxActiveRuns 1) true]> m) ∅ config.

(** The queues of the store that are new, with one run at a time. *)
Definition initialize_queues (queueList : list string) (queues : gmap string queue) : gmap string queue :=
  foldl (λ m name, match m !! name with Some _ => m | None => <[name := mkQueue 1 false]> m end) queues queueList.

Definition removeInactiveQueues (active : list string) (queues : gmap string queue) : gmap string queue :=
  filter (λ kv, q_isGlobal kv.2 = true ∨ kv.1 ∈ active) queues.

(** ** Calls *)
Inductive CtxError := Canceled | Deadline.
Definition ctx_error (e : CtxError) : Error :=
  match e with Canceled => [ContextCanceled] | Deadline => [DeadlineExceeded] end.

Inductive CtxOrQuit := CtxDone (e : CtxError) | QuitClosed | StillOpen.

(** [attempt.ID()] and [attempt.Hidden()] *)
Record AttemptRef := mkAttemptRef { ar_ID : string; ar_Hidden : bool }.

Inductive QCall :=
  | QIsClosed
  | QCtxErr
  | QCtxOrQuit
  | QLoadQueue (name : string)
  | QList (name : string)
  | QItemData (item : string)
  | QDequeueByDAGRunID (name : string) (run : DAGRunRef)
  | QCountAlive (name : string)
  | QMaxConcurrency (name : string)
  | QInflight (name : string)
  | QListByQueue (name : string)
  | QCountOutstandingByQueue (name : string) (timeout : Duration)
  | QHasOutstandingAttempt (attemptKey : string) (timeout : Duration)
  | QIsRunAlive (name : string) (run : DAGRunRef)
  | QFindAttempt (run : DAGRunRef)
  | QReadStatus (a : AttemptRef)
  | QReadDAG (a : AttemptRef)
  | QIsSuspended (flag : string)
  | QCompareAndSwap (run : DAGRunRef) (attemptID : string) (expected : Status) (mutate : DAGRunStatus → DAGRunStatus)
  | QGetLease (attemptKey : string)
  | QNow
  | QRandom
  | QWait (d : Duration)
  | QExecuteDAG (dag : DAG) (runID : string) (status : DAGRunStatus)
  | QGo (dag : DAG) (runID : string) (status : DAGRunStatus)
  | QPollExecErr
  | QSendExecErr (err : Error)
  | QIncInflight (name : string)
  | QDecInflight (name : string)
  | QWakeUp.

Definition QAns (c : QCall) : Type :=
  match c with
  | QIsClosed => bool
  | QCtxErr => option CtxError
  | QCtxOrQuit => CtxOrQuit
  | QLoadQueue _ => bool
  | QList _ => Error + list string
  | QItemData _ => Error + DAGRunRef
  | QDequeueByDAGRunID _ _ => Error + unit
  | QCountAlive _ => Error + nat
  | QMaxConcurrency _ => Z
  | QInflight _ => Z
  | QListByQueue _ => Error + list DAGRunLease
  | QCountOutstandingByQueue _ _ => Error + nat
  | QHasOutstandingAttempt _ _ => Error + bool
  | QIsRunAlive _ _ => Error + bool
  | QFindAttempt _ => Error + AttemptRef
  | QReadStatus _ => Error + DAGRunStatus
  | QReadDAG _ => Error + DAG
  | QIsSuspended _ => bool
  | QCompareAndSwap _ _ _ _ => Error + (option DAGRunStatus * bool)
  | QGetLease _ => Error + option DAGRunLease
  | QNow => Time
  | QRandom => nat → Z → Z
  | QWait _ => option CtxError
  | QExecuteDAG _ _ _ => option Error
  | QGo _ _ _ => unit
  | QPollExecErr => option Error
  | QSendExecErr _ => unit
  | QIncInflight _ | QDecInflight _ => unit
  | QWakeUp => unit
  end%type.

Abbreviation QProg A := (Prog QAns A).
Definition qcall (c : QCall) : QProg (QAns c) := call c.

(** ** Attempt keys and leases *)
Definition status_attemptID (attempt : AttemptRef) (st : DAGRunStatus) : string :=
  if bool_decide (rs_AttemptID st = "") then ar_ID attempt else rs_AttemptID st.

Definition queueAttemptKey (run : DAGRunRef) (attempt : AttemptRef) (st : DAGRunStatus) : string :=
  if bool_decide (rs_AttemptKey st ≠ "") then rs_AttemptKey st
  else if bool_decide (status_attemptID attempt st = "") then ""
  else GenerateAttemptKey (ref_Name run) (ref_ID run) (ref_Name run) (ref_ID run) (status_attemptID attempt st).

(** The lease is of this run, queue and attempt. *)
Definition lease_of (name : string) (run : DAGRunRef) (attemptID : string) (l : DAGRunLease) : bool :=
  bool_decide (dl_DAGRun l = run) &&
  negb (bool_decide (name ≠ "") && bool_decide (dl_QueueName l ≠ "") && bool_decide (dl_QueueName l ≠ name)) &&
  negb (bool_decide (attemptID ≠ "") && bool_decide (dl_AttemptID l ≠ "") && bool_decide (dl_AttemptID l ≠ attemptID)).

Section Processor.
Context `{Float64} `{TimeText} (p : QueueProcessor).

Definition hasFreshDistributedLease (name : string) (run : DAGRunRef) (attempt : AttemptRef) (st : DAGRunStatus)
    : QProg (Error + bool) :=
  if negb (qp_hasLeaseStore p) then Ret (inr false)
  else
    let attemptKey := queueAttemptKey run attempt st in
    if bool_decide (attemptKey = "") then Ret (inr false)
    else
      do* r := qcall (QGetLease attemptKey) in
      match r with
      | inl err => if Is err ErrDAGRunLeaseNotFound then Ret (inr false) else Ret (inl err)
      | inr None => Ret (inr false)
      | inr (Some lease) =>
          if negb (lease_of name run (status_attemptID attempt st) lease) then Ret (inr false)
          else do* now := qcall QNow in Ret (inr (IsFresh lease now (leaseStaleThresholdOrDefault p)))
      end.

(** ** Counting *)
Definition countActiveDistributedRuns (name : string) : QProg (Error + Z) :=
  if negb (qp_hasLeaseStore p) then Ret (inr 0)
  else
    do* r := qcall (QListByQueue name) in
    match r with
    | inl err => Ret (inl err)
    | inr leases =>
        do* now := qcall QNow in
        Ret (inr (Z.of_nat (length (filter (λ l, IsFresh l now (leaseStaleThresholdOrDefault p) = true) leases))))
    end.

Definition countOutstandingDispatchReservations (name : string) : QProg (Error + Z) :=
  if negb (qp_hasDispatchStore p) then Ret (inr 0)
  else
    do* r := qcall (QCountOutstandingByQueue name (leaseStaleThresholdOrDefault p)) in
    Ret (match r with inl err => inl err | inr n => inr (Z.of_nat n) end).

Definition hasOutstandingDispatchReservation (run : DAGRunRef) : QProg (Error + bool) :=
  if negb (qp_hasDispatchStore p) then Ret (inr false)
  else
    do* r := qcall (QFindAttempt run) in
    match r with
    | inl err => if Is err (Sys ErrDAGRunIDNotFound) then Ret (inr false) else Ret (inl err)
    | inr attempt =>
        if ar_Hidden attempt then Ret (inr false)
        else
          do* r := qcall (QReadStatus attempt) in
          match r with
          | inl err =>
              if Is err (Sys ErrNoStatusData) || Is err (Sys ErrCorruptedStatusFile) then Ret (inr false)
              else Ret (inl err)
          | inr st =>
              if negb (bool_decide (rs_Status st = Queued)) then Ret (inr false)
              else
                let attemptKey := queueAttemptKey run attempt st in
                if bool_decide (attemptKey = "") then Ret (inr false)
                else qcall (QHasOutstandingAttempt attemptKey (leaseStaleThresholdOrDefault p))
          end
    end.

(** The items that get a slot; [None] is an error. *)
Fixpoint select_loop (items : list string) (freeSlots : Z) (runnable : list string) : QProg (option (list string)) :=
  match items with
  | [] => Ret (Some runnable)
  | item :: items' =>
      if freeSlots <=? Z.of_nat (length runnable) then Ret (Some runnable)
      else if negb (qp_hasDispatchStore p) then select_loop items' freeSlots (runnable ++ [item])
      else
        do* d := qcall (QItemData item) in
        match d with
        | inl _ => select_loop items' freeSlots runnable
        | inr run =>
            do* r := hasOutstandingDispatchReservation run in
            match r with
            | inl _ => Ret None
            | inr true => select_loop items' freeSlots runnable
            | inr false => select_loop items' freeSlots (runnable ++ [item])
            end
        end
  end.

Definition selectRunnableQueueItems (items : list string) (freeSlots : Z) : QProg (option (list string)) :=
  if freeSlots <=? 0 then Ret (Some []) else select_loop items freeSlots [].

(** ** Waiting for a sign of life *)
Definition checkContextAndQuit : QProg (option Error) :=
  do* c := qcall QCtxOrQuit in
  Ret (match c with
       | CtxDone e => Some (PermanentError (ctx_error e))
       | QuitClosed => Some (PermanentError [errProcessorClosed])
       | StillOpen => None
       end).

Definition inStartupGracePeriod (launchedAt : Time) : QProg bool :=
  let grace := bc_StartupGracePeriod (qp_backoffConfig p) in
  if grace <=? 0 then Ret false
  else do* now := qcall QNow in Ret (Sub now launchedAt <? grace).

(** What is known after the status was read; [local] tells whether there is a channel. *)
Definition check_lease (name : string) (run : DAGRunRef) (launchedAt : Time) (attempt : AttemptRef) (st : DAGRunStatus)
    : QProg (bool * option Error) :=
  do* r := hasFreshDistributedLease name run attempt st in
  match r with
  | inr true => Ret (true, None)
  | _ =>
      do* grace := inStartupGracePeriod launchedAt in
      if grace then Ret (false, Some [errNotStarted])
      else match r with
           | inl err => Ret (false, Some err)
           | inr _ => Ret (false, Some [errNotStarted])
           end
  end.

Definition check_attempt (name : string) (run : DAGRunRef) (launchedAt : Time) : QProg (bool * option Error) :=
  do* r := qcall (QFindAttempt run) in
  match r with
  | inl err => Ret (false, Some err)
  | inr attempt =>
      do* r := qcall (QReadStatus attempt) in
      match r with
      | inl err => Ret (false, Some err)
      | inr st =>
          if negb (bool_decide (rs_Status st = Queued)) then Ret (true, None)
          else check_lease name run launchedAt attempt st
      end
  end.

(** A receive from a nil channel is not ready. *)
Definition readStartupExecutionError (local : bool) : QProg (option Error) :=
  if local then qcall QPollExecErr else Ret None.

Definition checkStartupStatus (name : string) (run : DAGRunRef) (launchedAt : Time) (local : bool)
    : QProg (bool * option Error) :=
  do* c := checkContextAndQuit in
  match c with
  | Some err => Ret (false, Some err)
  | None =>
      do* e := readStartupExecutionError local in
      match e with
      | Some err => Ret (false, Some (PermanentError err))
      | None =>
          do* alive := qcall (QIsRunAlive name run) in
          match alive with
          | inr true => Ret (true, None)
          | _ =>
              do* grace := inStartupGracePeriod launchedAt in
              if grace && negb (qp_hasLeaseStore p) then Ret (false, Some [errNotStarted])
              else check_attempt name run launchedAt
          end
      end
  end.

Definition startup_policy : BackoffPolicy :=
  Exponential
    {| ep_InitialInterval := bc_InitialInterval (qp_backoffConfig p);
       ep_BackoffFactor := (2 # 1)%Q;
       ep_MaxInterval := bc_MaxInterval (qp_backoffConfig p);
       ep_MaxRetries := bc_MaxRetries (qp_backoffConfig p) |}.

Definition ctxErr : QProg (option Error) := do* c := qcall QCtxErr in Ret (option_map ctx_error c).
Definition qwait (d : Duration) : QProg (option Error) := do* c := qcall (QWait d) in Ret (option_map ctx_error c).

Definition qretry {S} (op : S → QProg (option Error * S)) (fuel : nat) (s : S) : QProg (option (option Error) * S) :=
  Retry ctxErr (qcall QNow) (qcall QRandom) qwait retriable_default startup_policy op fuel s.

(** The state of the closure is [started]; [None] is the end of the fuel. *)
Definition waitForStartup (fuel : nat) (name : string) (run : DAGRunRef) (launchedAt : Time) : QProg (option bool) :=
  do* '(res, started) := qretry (λ _ : bool,
    do* '(started, err) := checkStartupStatus name run launchedAt true in Ret (err, started)) fuel false in
  Ret (match res with None => None | Some _ => Some started end).

(** The state of the closure is [started] and [dispatched]. *)
Definition dispatch_op (name : string) (run : DAGRunRef) (dag : DAG) (st : DAGRunStatus) (launchedAt : Time)
    (s : bool * bool) : QProg (option Error * (bool * bool)) :=
  let '(started, dispatched) := s in
  do* c := checkContextAndQuit in
  match c with
  | Some err => Ret (Some err, (started, dispatched))
  | None =>
      do* e := (if dispatched then Ret None else qcall (QExecuteDAG dag (ref_ID run) st)) in
      match e with
      | Some err =>
          Ret (Some (if Is err StaleQueueDispatchError then PermanentError err else err), (started, dispatched))
      | None =>
          do* '(started, err) := checkStartupStatus name run launchedAt false in
          Ret (err, (started, true))
      end
  end.

Definition dispatchAndWaitForStartup (fuel : nat) (name : string) (run : DAGRunRef) (dag : DAG) (st : DAGRunStatus)
    : QProg (option bool) :=
  do* launchedAt := qcall QNow in
  do* '(res, (started, _)) := qretry (dispatch_op name run dag st launchedAt) fuel (false, false) in
  match res with
  | None => Ret None
  | Some (Some err) =>
      if Is err StaleQueueDispatchError then Ret (Some true)
      else do* _ := qcall QWakeUp in Ret (Some started)
  | Some None => do* _ := qcall QWakeUp in Ret (Some started)
  end.

Definition isPreStartExecutionFailure (err : option Error) : bool :=
  match err with
  | None => false
  | Some err => negb (Is err ContextCanceled || Is err DeadlineExceeded) && negb (Is err ExitError)
  end.

(** The goroutine of a local execution. *)
Definition executeLocal (dag : DAG) (runID : string) (st : DAGRunStatus) : QProg unit :=
  do* r := qcall (QExecuteDAG dag runID st) in
  (match r with
   | Some err => if isPreStartExecutionFailure (Some err) then qcall (QSendExecErr err) else Ret tt
   | None => Ret tt
   end) ;;
  qcall QWakeUp.

(** ** An item *)
Definition suspendedQueueDropReason : string := "dag schedule suspended before dispatch".

Definition drop_suspended (finishedAt : string) (latest : DAGRunStatus) : DAGRunStatus :=
  {| latest with
     rs_Status := Aborted;
     rs_FinishedAt := finishedAt;
     rs_Error := suspendedQueueDropReason;
     rs_WorkerID := "";
     rs_PID := 0;
     rs_LeaseAt := 0 |}.

Definition dropSuspendedQueuedRun (name : string) (run : DAGRunRef) (attemptID : string) : QProg (option Error) :=
  do* now := qcall QNow in
  do* r := qcall (QCompareAndSwap run attemptID Queued (drop_suspended (FormatTimeUTC now))) in
  match r with
  | inl err => Ret (Some err)
  | inr _ =>
      do* d := qcall (QDequeueByDAGRunID name run) in
      match d with
      | inl err => if Is err (Sys ErrQueueItemNotFound) then Ret None else Ret (Some err)
      | inr _ => Ret None
      end
  end.

Definition suspended (st : DAGRunStatus) (dag : DAG) : QProg bool :=
  if negb (isSchedulerManagedTriggerType (rs_TriggerType st)) then Ret false
  else
    let flag := suspendFlagName (Some st) (Some dag) in
    if bool_decide (flag = "") then Ret false else qcall (QIsSuspended flag).

(** From the launch on. *)
Definition launch (fuel : nat) (name : string) (run : DAGRunRef) (dag : DAG) (st : DAGRunStatus) : QProg (option bool) :=
  qcall (QIncInflight name) ;;
  do* r :=
    (if IsDistributed p dag then dispatchAndWaitForStartup fuel name run dag st
     else
       qcall (QGo dag (ref_ID run) st) ;;
       do* launchedAt := qcall QNow in
       waitForStartup fuel name run launchedAt) in
  qcall (QDecInflight name) ;;
  Ret r.

Definition processStatus (fuel : nat) (name : string) (run : DAGRunRef) (attempt : AttemptRef) : QProg (option bool) :=
  do* r := qcall (QReadStatus attempt) in
  match r with
  | inl err => Ret (Some (Is err (Sys ErrCorruptedStatusFile)))
  | inr st =>
      if negb (bool_decide (rs_Status st = Queued)) then Ret (Some true)
      else
        do* d := qcall (QReadDAG attempt) in
        match d with
        | inl _ => Ret (Some false)
        | inr dag =>
            do* s := suspended st dag in
            if s then do* _ := dropSuspendedQueuedRun name run (ar_ID attempt) in Ret (Some false)
            else launch fuel name run dag st
        end
  end.

Definition processDAG (fuel : nat) (item name : string) : QProg (option bool) :=
  do* closed := qcall QIsClosed in
  if closed then Ret (Some false)
  else
    do* d := qcall (QItemData item) in
    match d with
    | inl _ => Ret (Some false)
    | inr run =>
        do* alive := qcall (QIsRunAlive name run) in
        match alive with
        | inl _ => Ret (Some false)
        | inr true => Ret (Some true)
        | inr false =>
            do* r := qcall (QFindAttempt run) in
            match r with
            | inl err => Ret (Some (Is err (Sys ErrDAGRunIDNotFound)))
            | inr attempt =>
                if ar_Hidden attempt then Ret (Some true) else processStatus fuel name run attempt
            end
        end
    end.

(** The goroutine of an item. *)
Definition item_goroutine (fuel : nat) (name item : string) : QProg unit :=
  do* r := processDAG fuel item name in
  match r with
  | Some true =>
      do* d := qcall (QItemData item) in
      match d with
      | inl _ => Ret tt
      | inr run => do* _ := qcall (QDequeueByDAGRunID name run) in Ret tt
      end
  | Some false | None => Ret tt
  end.

(** ** A pass over a queue

    [ProcessQueueItems] up to the goroutines: the items that get one.  The deferred
    [wakeUp] is the last call of every branch after the items were found, and
    [after_batch] when there are goroutines to wait for. *)
Definition no_batch : QProg (list string) := qcall QWakeUp ;; Ret [].

Definition select_batch (name : string) : QProg (list string) :=
  do* closed := qcall QIsClosed in
  if closed then Ret []
  else
    do* q := qcall (QLoadQueue name) in
    match q with
    | false => Ret []
    | true =>
        do* l := qcall (QList name) in
        match l with
        | inl _ | inr [] => Ret []
        | inr items =>
            do* a := qcall (QCountAlive name) in
            match a with
            | inl _ => no_batch
            | inr localAliveCount =>
                do* d := countActiveDistributedRuns name in
                match d with
                | inl _ => no_batch
                | inr distributedAliveCount =>
                    do* o := countOutstandingDispatchReservations name in
                    match o with
                    | inl _ => no_batch
                    | inr outstanding =>
                        let aliveCount := Z.of_nat localAliveCount + distributedAliveCount in
                        do* maxConcurrency := qcall (QMaxConcurrency name) in
                        do* inflight := qcall (QInflight name) in
                        let freeSlots := maxConcurrency - aliveCount - inflight - outstanding in
                        if freeSlots <=? 0 then no_batch
                        else
                          do* r := selectRunnableQueueItems items freeSlots in
                          match r with
                          | None | Some [] => no_batch
                          | Some runnable => Ret runnable
                          end
                    end
                end
            end
        end
    end.

Definition after_batch : QProg unit := qcall QWakeUp.

(** A pass in an environment: the items, all calls, and the goroutines after the
    steps of a schedule. *)
Definition ProcessQueueItems (env : Env QAns) (fuel : nat) (schedule : list nat) (name : string) (history : list (Event QAns))
    : list string * list (Event QAns) * list (Thread QAns) :=
  let '(items, h1) := exec env (select_batch name) history in
  let '(h2, ts) := sched env schedule h1 (map (λ item, (item_goroutine fuel name item, [])) items) in
  (items, h2, ts).
End Processor.
