(* ===== verification/QueueProcLaws.v ===== *)
(** * The queue processor: laws

    Whatever the environment answers, a run is launched only after the processor saw
    it queued, not alive and not suspended, and at most once per pass; an item leaves
    the queue only for a reason that was seen; a pass launches no more runs than there
    were free slots; with a bound on the retries every item ends. *)

From stdpp Require Import base strings list gmap.
From Stdlib Require Import ZArith QArith Lia.
From S2P Require Import Prelude Status Step FileSys RunStatus SchedulerData RunLife Distributed Prog Backoff QueueProc.

Open Scope prog_scope.
Open Scope Z_scope.

Abbreviation QLog := (list (Event QAns)).

(** ** What a log says *)

(** A call that tries to start a run, and one that did. *)
Definition launch_try (ev : Event QAns) : option (DAG * string * DAGRunStatus) :=
  match projT1 ev with
  | QGo d id st | QExecuteDAG d id st => Some (d, id, st)
  | _ => None
  end.

Definition launched (ev : Event QAns) : bool :=
  match ev with
  | existT c x =>
      match c as c' return QAns c' → bool with
      | QGo _ _ _ => λ _, true
      | QExecuteDAG _ _ _ => λ r, match r with None => true | Some _ => false end
      | _ => λ _, false
      end x
  end.

(** The error of an answer. *)
Definition event_error (ev : Event QAns) : option Error :=
  match ev with
  | existT c x =>
      match c as c' return QAns c' → option Error with
      | QExecuteDAG _ _ _ => λ r, r
      | QFindAttempt _ => λ r, match r with inl e => Some e | inr _ => None end
      | QReadStatus _ => λ r, match r with inl e => Some e | inr _ => None end
      | QGetLease _ => λ r, match r with inl e => Some e | inr _ => None end
      | _ => λ _, None
      end x
  end.

Definition is_inc (name : string) (ev : Event QAns) : bool :=
  match projT1 ev with QIncInflight n => bool_decide (n = name) | _ => false end.
Definition is_dec (name : string) (ev : Event QAns) : bool :=
  match projT1 ev with QDecInflight n => bool_decide (n = name) | _ => false end.
Definition dequeue_of (ev : Event QAns) : option (string * DAGRunRef) :=
  match projT1 ev with QDequeueByDAGRunID name run => Some (name, run) | _ => None end.

(** Calls that neither start anything, nor remove an item, nor touch the counter. *)
Definition plain (c : QCall) : Prop :=
  match c with
  | QGo _ _ _ | QExecuteDAG _ _ _ | QDequeueByDAGRunID _ _ | QIncInflight _ | QDecInflight _ => False
  | _ => True
  end.

(** The run was seen queued and not hidden, its process was not alive, and its
    schedule, when that matters, was not suspended. *)
Definition ready_to_launch (name : string) (run : DAGRunRef) (dag : DAG) (st : DAGRunStatus) (log : QLog) : Prop :=
  event (QIsRunAlive name run) (inr false) ∈ log ∧
  ∃ attempt, event (QFindAttempt run) (inr attempt) ∈ log ∧ ar_Hidden attempt = false ∧
    event (QReadStatus attempt) (inr st) ∈ log ∧ rs_Status st = Queued ∧ event (QReadDAG attempt) (inr dag) ∈ log ∧
    (isSchedulerManagedTriggerType (rs_TriggerType st) = true → suspendFlagName (Some st) (Some dag) ≠ "" →
     event (QIsSuspended (suspendFlagName (Some st) (Some dag))) false ∈ log).

(** A reason to take a run off the queue. *)
Definition evidence (threshold : Duration) (name : string) (run : DAGRunRef) (log : QLog) : Prop :=
  event (QIsRunAlive name run) (inr true) ∈ log ∨
  (∃ err, event (QFindAttempt run) (inl err) ∈ log ∧ Is err (Sys ErrDAGRunIDNotFound) = true) ∨
  (∃ attempt, event (QFindAttempt run) (inr attempt) ∈ log ∧
     (ar_Hidden attempt = true ∨
      (∃ err, event (QReadStatus attempt) (inl err) ∈ log ∧ Is err (Sys ErrCorruptedStatusFile) = true) ∨
      (∃ st, event (QReadStatus attempt) (inr st) ∈ log ∧
         (rs_Status st ≠ Queued ∨
          ∃ lease now, event (QGetLease (queueAttemptKey run attempt st)) (inr (Some lease)) ∈ log ∧
            event QNow now ∈ log ∧ dl_DAGRun lease = run ∧ IsFresh lease now threshold = true)))) ∨
  (∃ ev err, ev ∈ log ∧ event_error ev = Some err ∧ Is err StaleQueueDispatchError = true).

(** A try is for a run of the item that was ready, and nothing had been started
    before. *)
Definition launch_ok (item name : string) (x : DAG * string * DAGRunStatus) (log : QLog) : Prop :=
  let '(dag, id, st) := x in
  count launched log = 0%nat ∧
  ∃ run, id = ref_ID run ∧ event (QItemData item) (inr run) ∈ log ∧ ready_to_launch name run dag st log.

(** The run of an item is taken off for a reason, or because its schedule is
    suspended and its attempt was aborted or had changed. *)
Definition dequeue_ok (threshold : Duration) (item name : string) (x : string * DAGRunRef) (log : QLog) : Prop :=
  let '(name', run') := x in
  name' = name ∧ event (QItemData item) (inr run') ∈ log ∧
  ((∃ run, event (QItemData item) (inr run) ∈ log ∧ evidence threshold name run log) ∨
   ∃ attempt st flag finishedAt res,
     event (QReadStatus attempt) (inr st) ∈ log ∧ rs_Status st = Queued ∧
     isSchedulerManagedTriggerType (rs_TriggerType st) = true ∧ event (QIsSuspended flag) true ∈ log ∧
     event (QCompareAndSwap run' (ar_ID attempt) Queued (drop_suspended finishedAt)) (inr res) ∈ log).

(** The two guards of a log. *)
Definition log_ok (threshold : Duration) (item name : string) (log : QLog) : Prop :=
  guarded launch_try (launch_ok item name) log ∧ guarded dequeue_of (dequeue_ok threshold item name) log.

(** ** Logs that grow *)
Lemma In_app_l {A} (x : A) l l' : x ∈ l → x ∈ l ++ l'.
Proof. intros Hx. apply elem_of_app. by left. Qed.
Lemma In_app_last {A} (x : A) l : x ∈ l ++ [x].
Proof. apply elem_of_app. right. by left. Qed.
#[local] Hint Resolve In_app_l In_app_last : core.

Ltac in_log := repeat first [apply In_app_last | apply In_app_l; assumption | apply In_app_l].

Lemma ready_grows name run dag st log ev :
  ready_to_launch name run dag st log → ready_to_launch name run dag st (log ++ [ev]).
Proof. intros (? & a & ? & ? & ? & ? & ? & Hs). split; [eauto|]. exists a. split_and!; eauto. Qed.

Lemma evidence_grows threshold name run log ev : evidence threshold name run log → evidence threshold name run (log ++ [ev]).
Proof.
  unfold evidence. intros [?|[(e & ? & ?)|[(a & ? & Ha)|(ev' & e & ? & ? & ?)]]].
  - left. eauto.
  - right; left. exists e. eauto.
  - right; right; left. exists a. split; [eauto|]. destruct Ha as [?|[(e & ? & ?)|(st & ? & Hst)]]; [by left|right; left; eauto|].
    right; right. exists st. split; [eauto|]. destruct Hst as [?|(l & now & ? & ? & ? & ?)]; [by left|]. right.
    exists l, now. split_and!; eauto.
  - right; right; right. exists ev', e. eauto.
Qed.

Lemma log_ok_plain threshold item name : stable plain (log_ok threshold item name).
Proof.
  intros log c x Hc [HL HD]. split; [eapply (guarded_stable plain); [|done|done]..]; intros e y; by destruct e.
Qed.

Lemma ready_stable name run dag st : stable plain (ready_to_launch name run dag st).
Proof. intros log c x _. apply ready_grows. Qed.

Lemma evidence_stable threshold name run (kind : QCall → Prop) : stable kind (evidence threshold name run).
Proof. intros log c x _. apply evidence_grows. Qed.

Lemma stable_count_launched n : stable plain (λ log, count launched log = n).
Proof. intros log c x Hc Hn. rewrite count_plain; [done|]. by destruct c. Qed.

Lemma stable_and {E} {Ans : E → Type} quiet (P P' : list (Event Ans) → Prop) :
  stable quiet P → stable quiet P' → stable quiet (λ l, P l ∧ P' l).
Proof. intros H1 H2 log e x Hq [? ?]. split; [by apply H1|by apply H2]. Qed.

(** A property that plain calls keep, and what a program returns. *)
Lemma only_and {A} (J P : QLog → Prop) (p : QProg A) log Q :
  only plain p → stable plain P → (∀ l, P l → J l) → P log →
  spec (λ _, True) p log Q → spec J p log (λ a l, P l ∧ Q a l).
Proof.
  intros Ho Hs HJ HP HQ. pose proof (only_spec plain J P p (λ _, True) log Ho (returns_True p) Hs HJ HP) as H1.
  eapply spec_mono; [exact (spec_and _ _ _ _ _ _ H1 HQ)|naive_solver|naive_solver].
Qed.

(** One call: its effect on a log is known. *)
Ltac qcall_step := apply spec_do; [done|]; intros ?.
Ltac qret := apply spec_ret; [done|].

Section Laws.
Context `{Float64} `{TimeText} (p : QueueProcessor).
Abbreviation threshold := (leaseStaleThresholdOrDefault p).

(** An error whose chain has a stale dispatch came from the environment. *)
Definition err_seen (err : Error) (log : QLog) : Prop :=
  Is err StaleQueueDispatchError = true →
  ∃ ev err', ev ∈ log ∧ event_error ev = Some err' ∧ Is err' StaleQueueDispatchError = true.

Lemma err_seen_stable err (kind : QCall → Prop) : stable kind (err_seen err).
Proof. intros log c x _ He Hs. destruct (He Hs) as (ev & e & ? & ? & ?). exists ev, e. split_and!; [by apply In_app_l|done..]. Qed.

Lemma err_seen_last c (x : QAns c) err log : event_error (event c x) = Some err → err_seen err (log ++ [event c x]).
Proof. intros He Hs. exists (event c x), err. split_and!; [apply In_app_last|done..]. Qed.

Lemma ctx_error_not_stale e log : err_seen (PermanentError (ctx_error e)) log.
Proof. by destruct e; intros Hs; vm_compute in Hs. Qed.

(** *** Startup *)
Definition startup_result (name : string) (run : DAGRunRef) (local : bool) (x : bool * option Error) (log : QLog) : Prop :=
  match x.2 with
  | None => x.1 = true ∧ evidence threshold name run log
  | Some err => x.1 = false ∧ (local = false → err_seen err log)
  end.

Lemma hasFreshDistributedLease_spec name run attempt st log :
  spec (λ _, True) (hasFreshDistributedLease p name run attempt st) log (λ r log',
    (∃ l, log' = log ++ l) ∧
    match r with
    | inl err => err_seen err log'
    | inr b => b = true → ∃ lease now, event (QGetLease (queueAttemptKey run attempt st)) (inr (Some lease)) ∈ log' ∧
                 event QNow now ∈ log' ∧ dl_DAGRun lease = run ∧ IsFresh lease now threshold = true
    end).
Proof.
  unfold hasFreshDistributedLease. destruct (negb _); [qret; split; [by exists []; rewrite app_nil_r|done]|].
  case_bool_decide; [qret; split; [by exists []; rewrite app_nil_r|done]|].
  qcall_step. cbv beta. destruct x as [err|[lease|]]; [| |qret; split; [by eexists|done]].
  - destruct (Is err ErrDAGRunLeaseNotFound); qret; (split; [by eexists|]); [done|by apply err_seen_last].
  - destruct (lease_of _ _ _ lease) eqn:Hl; cbv [negb]; [|qret; split; [by eexists|done]].
    qcall_step. qret. split; [rewrite <-app_assoc; by eexists|]. intros Hf. exists lease, x.
    split_and!; [in_log|in_log| |done].
    unfold lease_of in Hl. rewrite !andb_true_iff, bool_decide_eq_true in Hl. apply Hl.
Qed.

Lemma grace_spec launchedAt log : spec (λ _, True) (inStartupGracePeriod p launchedAt) log (λ _ log', ∃ l, log' = log ++ l).
Proof.
  unfold inStartupGracePeriod. destruct (_ <=? 0); [qret; exists []; by rewrite app_nil_r|].
  qcall_step. qret. by eexists.
Qed.

Lemma In_extended {A} (x : A) l l' : x ∈ l → (∃ k, l' = l ++ k) → x ∈ l'.
Proof. intros Hx [k ->]. by apply In_app_l. Qed.

Lemma err_seen_extended err l l' : err_seen err l → (∃ k, l' = l ++ k) → err_seen err l'.
Proof. intros He Hl Hs. destruct (He Hs) as (ev & e & ? & ?). exists ev, e. split; [by eapply In_extended|done]. Qed.

Lemma check_lease_spec name run launchedAt attempt st local log :
  event (QFindAttempt run) (inr attempt) ∈ log → event (QReadStatus attempt) (inr st) ∈ log →
  spec (λ _, True) (check_lease p name run launchedAt attempt st) log (startup_result name run local).
Proof.
  intros Ha Hst. unfold check_lease. apply spec_bind.
  eapply spec_mono; [apply hasFreshDistributedLease_spec|done|]. intros r l1 _ [Hl1 Hr].
  assert (∀ err, r = inl err → err_seen err l1) as Herr by (intros e ->; exact Hr).
  assert (r = inr true → evidence threshold name run l1) as Hyes.
  { intros ->. destruct (Hr eq_refl) as (lease & now & ? & ? & ? & ?). right; right; left. exists attempt.
    split; [by eapply In_extended|]. right; right. exists st. split; [by eapply In_extended|]. right. by exists lease, now. }
  destruct r as [err|[]]; [|qret; by split; [|apply Hyes]|].
  - apply spec_bind. eapply spec_mono; [apply grace_spec|done|]. intros g l2 _ Hl2.
    destruct g; qret; (split; [done|]); intros _; [by vm_compute|]. eapply err_seen_extended; [by apply Herr|done].
  - apply spec_bind. eapply spec_mono; [apply grace_spec|done|]. intros g l2 _ Hl2.
    destruct g; qret; (split; [done|]); intros _; by vm_compute.
Qed.

Lemma check_attempt_spec name run launchedAt local log :
  spec (λ _, True) (check_attempt p name run launchedAt) log (startup_result name run local).
Proof.
  unfold check_attempt. qcall_step. cbv beta. destruct x as [err|attempt]; [qret; split; [done|]; intros _; by apply err_seen_last|].
  qcall_step. cbv beta. destruct x as [err|st]; [qret; split; [done|]; intros _; by apply err_seen_last|].
  case_bool_decide as Hq; cbv [negb]; [apply check_lease_spec; in_log|]. qret. split; [done|].
  right; right; left. exists attempt. split; [in_log|]. right; right. exists st. split; [in_log|]. by left.
Qed.

Lemma check_alive_spec name run launchedAt local log :
  spec (λ _, True)
    (do* alive := qcall (QIsRunAlive name run) in
     match alive with
     | inr true => Ret (true, None)
     | _ =>
         do* grace := inStartupGracePeriod p launchedAt in
         if grace && negb (qp_hasLeaseStore p) then Ret (false, Some [errNotStarted])
         else check_attempt p name run launchedAt
     end) log (startup_result name run local).
Proof.
  qcall_step. cbv beta. set (l1 := log ++ _).
  assert (spec (λ _, True)
    (do* grace := inStartupGracePeriod p launchedAt in
     if grace && negb (qp_hasLeaseStore p) then Ret (false, Some [errNotStarted]) else check_attempt p name run launchedAt)
    l1 (startup_result name run local)) as Hrest.
  { apply spec_bind. eapply spec_mono; [apply grace_spec|done|]. intros g l2 _ _.
    destruct (g && _); [qret; split; [done|]; intros _; by vm_compute|apply check_attempt_spec]. }
  destruct x as [err|[]]; [exact Hrest| |exact Hrest]. qret. split; [done|]. left. subst l1. in_log.
Qed.

Lemma checkStartupStatus_spec name run launchedAt local log :
  spec (λ _, True) (checkStartupStatus p name run launchedAt local) log (startup_result name run local).
Proof.
  unfold checkStartupStatus, checkContextAndQuit. apply spec_bind. qcall_step. qret.
  destruct x as [e| |]; [qret; split; [done|]; intros _; apply ctx_error_not_stale|qret; by split|].
  unfold readStartupExecutionError. destruct local; [|apply check_alive_spec].
  qcall_step. cbv beta. destruct x as [err|]; [qret; by split|apply check_alive_spec].
Qed.

(** *** Plain programs *)
Lemma hasFreshDistributedLease_only name run attempt st : only plain (hasFreshDistributedLease p name run attempt st).
Proof.
  unfold hasFreshDistributedLease. destruct (negb _); [done|]. case_bool_decide; [done|]. split; [done|]. cbn [pbind].
  intros [err|[lease|]]; [by destruct (Is _ _)| |done]. destruct (negb _); [done|]. by split.
Qed.

Lemma grace_only launchedAt : only plain (inStartupGracePeriod p launchedAt).
Proof. unfold inStartupGracePeriod. destruct (_ <=? 0); [done|]. by split. Qed.

Lemma check_attempt_only name run launchedAt : only plain (check_attempt p name run launchedAt).
Proof.
  split; [done|]. intros [err|attempt]; [done|]. split; [done|]. intros [err|st]; [done|]. simpl.
  destruct (negb _); [done|]. unfold check_lease. apply only_bind; [apply hasFreshDistributedLease_only|].
  intros [err|[]]; [|done|]; (apply only_bind; [apply grace_only|]; by intros []).
Qed.

Lemma checkStartupStatus_only name run launchedAt local : only plain (checkStartupStatus p name run launchedAt local).
Proof.
  unfold checkStartupStatus. apply only_bind; [by split|]. intros [err|]; [done|].
  apply only_bind; [destruct local; [by split|done]|]. intros [err|]; [done|]. split; [done|].
  assert (only plain (do* grace := inStartupGracePeriod p launchedAt in
    if grace && negb (qp_hasLeaseStore p) then Ret (false, Some [errNotStarted]) else check_attempt p name run launchedAt)) as Hr.
  { apply only_bind; [apply grace_only|]. intros g. destruct (g && _); [done|apply check_attempt_only]. }
  by intros [err|[]].
Qed.

(** *** The loops *)
Lemma ctxErr_only : only plain ctxErr.
Proof. by split. Qed.
Lemma qwait_only d : only plain (qwait d).
Proof. by split. Qed.

Definition is_ctx_error (err : Error) : Prop := Is err StaleQueueDispatchError = false.

Lemma ctxErr_ret : returns ctxErr (λ c, ∀ err, c = Some err → is_ctx_error err).
Proof. by intros [[]|] err; simpl; intros [= <-]. Qed.
Lemma qwait_ret d : returns (qwait d) (λ c, ∀ err, c = Some err → is_ctx_error err).
Proof. by intros [[]|] err; simpl; intros [= <-]. Qed.

(** The rule of [Retry] for the loops of the processor. *)
Lemma qretry_spec {S} (op : S → QProg (option Error * S)) (J : QLog → Prop) (I Ok : S → QLog → Prop)
    (Fe : Error → QLog → Prop) fuel s log :
  (∀ s l, I s l → J l) → (∀ s, stable plain (I s)) → (∀ err, stable plain (Fe err)) →
  op_spec op J I Ok Fe → I s log →
  spec J (qretry p op fuel s) log (retry_post I Ok is_ctx_error Fe).
Proof.
  intros HIJ HI HFe Hop Hs. unfold qretry.
  apply (Retry_spec ctxErr (qcall QNow) (qcall QRandom) qwait retriable_default (startup_policy p) plain); try done.
  - apply ctxErr_ret.
  - apply qwait_ret.
Qed.

(** Waiting for a local run. *)
Lemma waitForStartup_spec (J P : QLog → Prop) fuel name run launchedAt log :
  (∀ l, P l → J l) → stable plain P → P log →
  spec J (waitForStartup p fuel name run launchedAt) log (λ r l, P l ∧ (r = Some true → evidence threshold name run l)).
Proof.
  intros HPJ HP Hl. unfold waitForStartup. apply spec_bind.
  eapply spec_mono; [apply (qretry_spec _ J (λ started l, P l ∧ started = false) (λ started l, P l ∧ evidence threshold name run l) (λ _ _, True))|done|].
  - by intros s l [? _]; apply HPJ.
  - intros s. apply stable_and; [done|]. by intros ???.
  - by intros ????.
  - intros s l [HPl _]. apply spec_bind.
    eapply spec_mono; [apply (only_and J P); [apply checkStartupStatus_only|done|done|done|apply (checkStartupStatus_spec _ _ _ true)]|done|].
    intros [started [err|]] l1 HJ1 [HP1 Hr]; (apply spec_ret; [done|]); unfold startup_result in Hr; simpl in Hr; naive_solver.
  - done.
  - intros [res started] l1 HJ1 Hpost. unfold retry_post in Hpost. apply spec_ret; [done|]. simpl in Hpost.
    destruct res as [[err|]|]; naive_solver.
Qed.

(** *** An item *)
Section Item.
Context (item name : string).
Abbreviation ok := (log_ok threshold item name).

Definition balance (i d : nat) (l : QLog) : Prop := count (is_inc name) l = i ∧ count (is_dec name) l = d.

Lemma balance_stable i d : stable plain (balance i d).
Proof. intros log c x Hc [Hi Hd]. split; (rewrite count_plain; [done|by destruct c]). Qed.

(** Between the launch and its end: [n] runs were started. *)
Definition launching (n : nat) (run : DAGRunRef) (dag : DAG) (st : DAGRunStatus) (l : QLog) : Prop :=
  ok l ∧ event (QItemData item) (inr run) ∈ l ∧ ready_to_launch name run dag st l ∧ balance 1 0 l ∧ count launched l = n.

Lemma launching_stable n run dag st : stable plain (launching n run dag st).
Proof.
  intros log c x Hc (Hok & Hi & Hr & Hb & Hn). split_and!; [by apply log_ok_plain|by apply In_app_l|by apply ready_grows| |].
  - by apply balance_stable.
  - by apply stable_count_launched.
Qed.

(** A try, which succeeds or not. *)
Lemma launching_try run dag st l c (x : QAns c) :
  launch_try (event c x) = Some (dag, ref_ID run, st) → launching 0 run dag st l →
  launching (if launched (event c x) then 1 else 0) run dag st (l ++ [event c x]).
Proof.
  intros Ht ([HL HD] & Hi & Hr & Hb & Hn).
  assert (dequeue_of (event c x) = None ∧ is_inc name (event c x) = false ∧ is_dec name (event c x) = false) as (Hd & Hinc & Hdec)
    by (by destruct c).
  split_and!; [split| |by apply ready_grows|destruct Hb; split; by rewrite count_plain|].
  - apply guarded_app; [done|]. intros y Hy. rewrite Ht in Hy. injection Hy as <-. split; [done|]. by exists run.
  - apply guarded_app; [done|]. intros y Hy. congruence.
  - by apply In_app_l.
  - destruct (launched (event c x)) eqn:E; [by rewrite count_one, Hn|by rewrite count_plain].
Qed.

Definition dispatch_inv (run : DAGRunRef) (dag : DAG) (st : DAGRunStatus) (s : bool * bool) (l : QLog) : Prop :=
  launching (if s.2 then 1 else 0) run dag st l ∧ s.1 = false.

Lemma dispatch_op_spec run dag st launchedAt :
  op_spec (dispatch_op p name run dag st launchedAt) ok (dispatch_inv run dag st)
    (λ _ l, (∃ n, launching n run dag st l) ∧ evidence threshold name run l) err_seen.
Proof.
  intros [started dispatched] l [HL Hs]. simpl in Hs. subst started.
  assert (∀ l', launching 1 run dag st l' → spec ok
    (do* '(started, err) := checkStartupStatus p name run launchedAt false in Ret (err, (started, true))) l'
    (λ '(res, s') log', match res with
      | None => (∃ n, launching n run dag st log') ∧ evidence threshold name run log'
      | Some err => dispatch_inv run dag st s' log' ∧ err_seen err log' end)) as Hcheck.
  { intros l' HL'. apply spec_bind. eapply spec_mono; [apply (only_and ok (launching 1 run dag st)); [apply checkStartupStatus_only|apply launching_stable|by intros ? [? _]|done|apply (checkStartupStatus_spec _ _ _ false)]|done|].
    intros [started [err|]] l1 HJ1 [HP1 [Hst Hr]]; (apply spec_ret; [done|]); simpl in *; subst started.
    - split; [split; [exact HP1|done]|by apply Hr].
    - split; [by eexists|done]. }
  unfold dispatch_op, checkContextAndQuit. apply spec_bind. apply spec_do; [apply HL|]. intros c.
  assert (launching (if dispatched then 1 else 0) run dag st (l ++ [event QCtxOrQuit c])) as HL1 by (by apply launching_stable).
  apply spec_ret; [apply HL1|].
  destruct c as [e| |]; [apply spec_ret; [apply HL1|]; split; [by split|apply ctx_error_not_stale]|
    apply spec_ret; [apply HL1|]; split; [by split|by vm_compute]|].
  destruct dispatched; [by apply Hcheck|].
  apply spec_do; [apply HL1|]. intros e. pose proof (launching_try run dag st _ (QExecuteDAG dag (ref_ID run) st) e eq_refl HL1) as HL2.
  destruct e as [err|]; [|by apply Hcheck]. apply spec_ret; [apply HL2|]. split; [by split|].
  assert (err_seen err ((l ++ [event QCtxOrQuit StillOpen]) ++ [event (QExecuteDAG dag (ref_ID run) st) (Some err)])) as Hseen
    by (by apply err_seen_last).
  destruct (Is err StaleQueueDispatchError) eqn:Es; [|done]. intros _. by apply Hseen.
Qed.

Lemma dispatchAndWaitForStartup_spec fuel run dag st l :
  launching 0 run dag st l →
  spec ok (dispatchAndWaitForStartup p fuel name run dag st) l (λ r l',
    (∃ n, launching n run dag st l') ∧ (r = Some true → evidence threshold name run l')).
Proof.
  intros HL. unfold dispatchAndWaitForStartup. apply spec_do; [apply HL|]. intros launchedAt.
  apply spec_bind. eapply spec_mono; [apply (qretry_spec _ ok (dispatch_inv run dag st)
    (λ _ l, (∃ n, launching n run dag st l) ∧ evidence threshold name run l) err_seen)|done|].
  - by intros s l' [[? _] _].
  - intros s. apply stable_and; [apply launching_stable|]. by intros ???.
  - intros err. apply err_seen_stable.
  - apply dispatch_op_spec.
  - split; [by apply launching_stable|done].
  - intros [res [started dispatched]] l1 HJ1 Hpost. unfold retry_post in Hpost. simpl in Hpost.
    destruct res as [[err|]|].
    + destruct Hpost as [[HL1 Hs] Herr]. simpl in *. subst started. destruct (Is err StaleQueueDispatchError) eqn:Es.
      * apply spec_ret; [done|]. split; [by eexists|]. intros _.
        destruct Herr as [Hc|Herr]; [unfold is_ctx_error in Hc; congruence|]. right; right; right. by apply Herr.
      * apply spec_do; [done|]. intros u. assert (launching (if dispatched then 1 else 0) run dag st (l1 ++ [event QWakeUp u])) as HL2 by (by apply launching_stable).
        apply spec_ret; [apply HL2|]. split; [by eexists|done].
    + destruct Hpost as [[n HL1] He]. apply spec_do; [done|]. intros u.
      assert (launching n run dag st (l1 ++ [event QWakeUp u])) as HL2 by (by apply launching_stable).
      apply spec_ret; [apply HL2|]. split; [by eexists|]. intros _. by apply evidence_grows.
    + apply spec_ret; [done|]. destruct Hpost as [HL1 _]. split; [by eexists|done].
Qed.

(** Before the launch: nothing was started or counted. *)
Definition quiet_so_far (l : QLog) : Prop := ok l ∧ balance 0 0 l ∧ count launched l = 0%nat.

Lemma quiet_stable : stable plain quiet_so_far.
Proof.
  intros log c x Hc (Hok & Hb & Hn). split_and!; [by apply log_ok_plain|by apply balance_stable|by apply stable_count_launched].
Qed.

(** The end of an item's work. *)
Definition settled (run : DAGRunRef) (r : option bool) (l : QLog) : Prop :=
  ok l ∧ count (is_inc name) l = count (is_dec name) l ∧ (r = Some true → evidence threshold name run l) ∧
  event (QItemData item) (inr run) ∈ l.

Lemma quiet_settled run r l :
  quiet_so_far l → event (QItemData item) (inr run) ∈ l → (r = Some true → evidence threshold name run l) → settled run r l.
Proof. intros (Hok & [Hi Hd] & _) ? ?. split_and!; [done|congruence|done..]. Qed.

Lemma ok_uncounted c (x : QAns c) l :
  launch_try (event c x) = None → dequeue_of (event c x) = None → ok l → ok (l ++ [event c x]).
Proof. intros H1 H2 [HL HD]. split; (apply guarded_app; [done|]; intros y Hy; congruence). Qed.

Lemma launch_spec fuel run dag st l :
  quiet_so_far l → event (QItemData item) (inr run) ∈ l → ready_to_launch name run dag st l →
  spec ok (launch p fuel name run dag st) l (settled run).
Proof.
  intros (Hok & [Hi Hd] & Hn) Hdata Hready. unfold launch. apply spec_do; [done|]. intros u.
  assert (launching 0 run dag st (l ++ [event (QIncInflight name) u])) as HL.
  { split_and!; [by apply ok_uncounted|by apply In_app_l|by apply ready_grows|split|by rewrite count_plain].
    - rewrite count_one; [congruence|]. unfold is_inc. simpl. by rewrite bool_decide_true.
    - by rewrite count_plain. }
  assert (∀ n r l', launching n run dag st l' → (r = Some true → evidence threshold name run l') →
    spec ok (qcall (QDecInflight name) ;; Ret r) l' (settled run)) as Hend.
  { intros n r l' (Hok' & Hd' & _ & [Hi' Hx'] & _) Hr. apply spec_do; [done|]. intros v.
    assert (ok (l' ++ [event (QDecInflight name) v])) by (by apply ok_uncounted).
    apply spec_ret; [done|]. split_and!; [done| |intros; apply evidence_grows; auto|by apply In_app_l].
    rewrite count_plain by done. rewrite count_one; [congruence|]. unfold is_dec. simpl. by rewrite bool_decide_true. }
  apply spec_bind. destruct (IsDistributed p dag).
  - eapply spec_mono; [by apply dispatchAndWaitForStartup_spec|done|]. intros r l' _ [[n HL'] Hr]. by apply (Hend n).
  - apply spec_do; [apply HL|]. intros v.
    pose proof (launching_try run dag st _ (QGo dag (ref_ID run) st) v eq_refl HL) as HL1. simpl in HL1.
    apply spec_do; [apply HL1|]. intros launchedAt.
    assert (launching 1 run dag st (((l ++ [event (QIncInflight name) u]) ++ [event (QGo dag (ref_ID run) st) v]) ++ [event QNow launchedAt])) as HL2
      by (by apply launching_stable).
    eapply spec_mono; [apply (waitForStartup_spec ok (launching 1 run dag st)); [by intros ? [? _]|apply launching_stable|done]|done|].
    intros r l' _ [HL' Hr]. by apply (Hend 1%nat).
Qed.

(** The suspension flag is read when the trigger asks for it. *)
Lemma suspended_spec st dag l :
  quiet_so_far l →
  spec ok (suspended st dag) l (λ b l', quiet_so_far l' ∧ (∃ k, l' = l ++ k) ∧
    (if b then isSchedulerManagedTriggerType (rs_TriggerType st) = true ∧ ∃ flag, event (QIsSuspended flag) true ∈ l'
     else isSchedulerManagedTriggerType (rs_TriggerType st) = true → suspendFlagName (Some st) (Some dag) ≠ "" →
          event (QIsSuspended (suspendFlagName (Some st) (Some dag))) false ∈ l')).
Proof.
  intros Hq. unfold suspended. destruct (isSchedulerManagedTriggerType _) eqn:Hm; cbv [negb].
  - case_bool_decide as Hf.
    + apply spec_ret; [apply Hq|]. split_and!; [done|by exists []; rewrite app_nil_r|done].
    + apply (spec_call (Ans := QAns) ok (QIsSuspended _)); [apply Hq|]. intros b. set (l1 := l ++ _). assert (quiet_so_far l1) as Hq1 by (by apply quiet_stable).
      split; [apply Hq1|]. split_and!; [done|by eexists|]. destruct b; [split; [done|]; eexists|intros _ _]; subst l1; in_log.
  - apply spec_ret; [apply Hq|]. split_and!; [done|by exists []; rewrite app_nil_r|done].
Qed.

(** Dropping a run whose schedule is suspended. *)
Lemma drop_spec run attempt st flag l :
  quiet_so_far l → event (QItemData item) (inr run) ∈ l → event (QReadStatus attempt) (inr st) ∈ l →
  rs_Status st = Queued → isSchedulerManagedTriggerType (rs_TriggerType st) = true → event (QIsSuspended flag) true ∈ l →
  spec ok (dropSuspendedQueuedRun name run (ar_ID attempt)) l (λ _ l', settled run (Some false) l').
Proof.
  intros Hq Hd Hst Hqueued Hm Hf. unfold dropSuspendedQueuedRun. apply spec_do; [apply Hq|]. intros now.
  set (l1 := l ++ _). assert (quiet_so_far l1) as Hq1 by (by apply quiet_stable).
  apply spec_do; [apply Hq1|]. intros r. set (l2 := l1 ++ _). assert (quiet_so_far l2) as Hq2 by (by apply quiet_stable).
  assert (event (QItemData item) (inr run) ∈ l2) as Hd2 by (subst l1 l2; in_log).
  destruct r as [err|res]; [apply spec_ret; [apply Hq2|by apply quiet_settled]|].
  apply spec_do; [apply Hq2|]. intros d. set (l3 := l2 ++ _). destruct Hq2 as ([HL HD] & Hb & Hn).
  assert (ok l3) as Hok3.
  { split; (apply guarded_app; [done|]); [done|]. intros y [= <-]. split; [done|]. split; [done|]. right.
    exists attempt, st, flag, (FormatTimeUTC now), res. subst l1 l2. split_and!; [in_log|done|done|in_log|in_log]. }
  assert (settled run (Some false) l3).
  { destruct Hb. split_and!; [done|subst l3; rewrite !count_plain by done; congruence|done|subst l3; in_log]. }
  destruct d as [err|]; [destruct (Is err _)|]; by apply spec_ret.
Qed.

Lemma processStatus_spec fuel run attempt l :
  quiet_so_far l → event (QItemData item) (inr run) ∈ l → event (QIsRunAlive name run) (inr false) ∈ l →
  event (QFindAttempt run) (inr attempt) ∈ l → ar_Hidden attempt = false →
  spec ok (processStatus p fuel name run attempt) l (settled run).
Proof.
  intros Hq Hd Ha Hfa Hh. unfold processStatus. apply spec_do; [apply Hq|]. intros r. set (l1 := l ++ _).
  assert (quiet_so_far l1) as Hq1 by (by apply quiet_stable).
  assert (event (QItemData item) (inr run) ∈ l1) as Hd1 by (subst l1; in_log).
  assert (event (QFindAttempt run) (inr attempt) ∈ l1) as Hfa1 by (subst l1; in_log).
  destruct r as [err|st].
  { apply spec_ret; [apply Hq1|]. apply quiet_settled; [done..|]. intros [= He]. right; right; left. exists attempt.
    split; [done|]. right; left. exists err. split; [subst l1; in_log|done]. }
  case_bool_decide as Hqueued; cbv [negb].
  2:{ apply spec_ret; [apply Hq1|]. apply quiet_settled; [done..|]. intros _. right; right; left. exists attempt.
      split; [done|]. right; right. exists st. split; [subst l1; in_log|]. by left. }
  apply spec_do; [apply Hq1|]. intros d. set (l2 := l1 ++ _). assert (quiet_so_far l2) as Hq2 by (by apply quiet_stable).
  assert (event (QItemData item) (inr run) ∈ l2) as Hd2 by (subst l2; in_log).
  destruct d as [err|dag]; [apply spec_ret; [apply Hq2|by apply quiet_settled]|].
  apply spec_bind. eapply spec_mono; [by apply suspended_spec|done|]. intros b l3 _ (Hq3 & [k ->] & Hb).
  assert (∀ x, x ∈ l → x ∈ l2 ++ k) as Hkeep by (intros x Hx; subst l1 l2; in_log).
  assert (event (QReadStatus attempt) (inr st) ∈ l2 ++ k) as Hst by (subst l1 l2; in_log).
  destruct b.
  - destruct Hb as [Hm [flag Hflag]]. apply spec_bind.
    eapply spec_mono; [eapply (drop_spec run attempt st flag); eauto; by apply Hkeep|done|].
    intros res l4 Hok4 Hs4. by apply spec_ret.
  - apply launch_spec; [done|by apply Hkeep|]. split; [by apply Hkeep|]. exists attempt.
    split_and!; [by apply Hkeep|done|done|done|subst l2; in_log|exact Hb].
Qed.

Lemma processDAG_spec fuel :
  spec ok (processDAG p fuel item name) [] (λ r l, count (is_inc name) l = count (is_dec name) l ∧
    (r = Some true → ∃ run, settled run r l)).
Proof.
  assert (quiet_so_far []) as Hq0 by (split; [split; apply guarded_nil|done]).
  assert (∀ l, quiet_so_far l → count (is_inc name) l = count (is_dec name) l) as Hbal
    by (intros l (_ & [-> ->] & _); done).
  unfold processDAG. apply spec_do; [apply Hq0|]. intros closed. set (l1 := [] ++ _).
  assert (quiet_so_far l1) as Hq1 by (by apply quiet_stable).
  destruct closed; [apply spec_ret; [apply Hq1|]; split; [by apply Hbal|done]|].
  apply spec_do; [apply Hq1|]. intros d. set (l2 := l1 ++ _). assert (quiet_so_far l2) as Hq2 by (by apply quiet_stable).
  destruct d as [err|run]; [apply spec_ret; [apply Hq2|]; split; [by apply Hbal|done]|].
  apply spec_do; [apply Hq2|]. intros alive. set (l3 := l2 ++ _). assert (quiet_so_far l3) as Hq3 by (by apply quiet_stable).
  assert (event (QItemData item) (inr run) ∈ l3) as Hd3 by (subst l2 l3; in_log).
  destruct alive as [err|[]]; [apply spec_ret; [apply Hq3|]; split; [by apply Hbal|done]| |].
  { apply spec_ret; [apply Hq3|]. split; [by apply Hbal|]. intros _. exists run. apply quiet_settled; [done..|]. intros _.
    left. subst l3. in_log. }
  apply spec_do; [apply Hq3|]. intros r. set (l4 := l3 ++ _). assert (quiet_so_far l4) as Hq4 by (by apply quiet_stable).
  assert (event (QItemData item) (inr run) ∈ l4) as Hd4 by (subst l4; in_log).
  destruct r as [err|attempt].
  { apply spec_ret; [apply Hq4|]. split; [by apply Hbal|]. intros Hr. exists run. apply quiet_settled; [done..|].
    intros [= He]. right; left. exists err. split; [subst l4; in_log|done]. }
  destruct (ar_Hidden attempt) eqn:Hh.
  { apply spec_ret; [apply Hq4|]. split; [by apply Hbal|]. intros _. exists run. apply quiet_settled; [done..|].
    intros _. right; right; left. exists attempt. split; [subst l4; in_log|by left]. }
  eapply spec_mono; [apply (processStatus_spec fuel run attempt); try done; subst l3 l4; in_log|done|].
  intros r l5 _ Hs. split; [apply Hs|]. intros _. by exists run.
Qed.

Lemma item_goroutine_spec fuel :
  spec ok (item_goroutine p fuel name item) [] (λ _ l, count (is_inc name) l = count (is_dec name) l).
Proof.
  unfold item_goroutine. apply spec_bind. eapply spec_mono; [apply processDAG_spec|done|].
  intros [[]|] l Hok [Hbal Hr]; [|by apply spec_ret..]. destruct (Hr eq_refl) as (run & _ & _ & He & Hd).
  apply spec_do; [done|]. intros d. set (l1 := l ++ _). assert (ok l1) as Hok1 by (by apply ok_uncounted).
  assert (count (is_inc name) l1 = count (is_dec name) l1) as Hbal1 by (subst l1; by rewrite !count_plain).
  destruct d as [err|run']; [by apply spec_ret|]. apply spec_do; [done|]. intros r. set (l2 := l1 ++ _).
  assert (ok l2) as Hok2.
  { destruct Hok1 as [HL1 HD1]. split; (apply guarded_app; [done|]); [done|]. intros y [= <-]. split; [done|].
    split; [subst l1; in_log|]. left. exists run. split; [subst l1; in_log|]. subst l1. apply evidence_grows. by apply He. }
  apply spec_ret; [done|]. subst l2. by rewrite !count_plain.
Qed.
End Item.

(** *** Ends *)
Lemma qretry_ends {S} (op : S → QProg (option Error * S)) fuel s :
  0 < bc_MaxRetries (qp_backoffConfig p) < Z.of_nat fuel → returns (qretry p op fuel s) (λ x, x.1 ≠ None).
Proof. intros [Hm Hf]. apply retry_loop_fuel; simpl; lia. Qed.

Lemma launch_returns fuel name run dag st :
  0 < bc_MaxRetries (qp_backoffConfig p) < Z.of_nat fuel → returns (launch p fuel name run dag st) (λ r, r ≠ None).
Proof.
  intros Hf. unfold launch. apply returns_do. intros u. eapply (returns_bind _ _ (λ r, r ≠ None)).
  - destruct (IsDistributed p dag).
    + apply returns_do. intros launchedAt. eapply returns_bind; [by apply qretry_ends|]. intros [[[err|]|] [started ?]] Hr; [|by intros ?|done].
      simpl. destruct (Is err _); [done|by intros ?].
    + apply returns_do. intros v. apply returns_do. intros launchedAt. eapply returns_bind; [by apply qretry_ends|]. by intros [[?|] started].
  - by intros r Hr v.
Qed.

Lemma processDAG_returns fuel item name :
  0 < bc_MaxRetries (qp_backoffConfig p) < Z.of_nat fuel → returns (processDAG p fuel item name) (λ r, r ≠ None).
Proof.
  intros Hf. intros []; [done|]. intros [err|run]; [done|]. intros [err|[]]; [done|done|]. intros [err|attempt]; [done|].
  cbn [pbind]. destruct (ar_Hidden attempt); [done|]. intros [err|st]; [done|]. cbn [pbind]. destruct (negb _); [done|].
  intros [err|dag]; [done|]. cbn [pbind]. eapply returns_bind; [apply returns_True|]. intros [] _; [|by apply launch_returns].
  eapply returns_bind; [apply returns_True|]. done.
Qed.
End Laws.
