(* ===== verification/QueuePass.v ===== *)
(** * The queue processor: passes over a queue

    A pass in any environment, with the goroutines of its items interleaved by any
    schedule. *)

From stdpp Require Import base strings list gmap.
From Stdlib Require Import ZArith QArith Lia.
From S2P Require Import Prelude Status Step FileSys RunStatus SchedulerData RunLife Distributed Prog Backoff QueueProc QueueProcLaws.

Open Scope prog_scope.
Open Scope Z_scope.

(** ** Selection *)

(** What was counted before the items were picked. *)
Record Capacity := mkCapacity {
  cap_limit : Z;                 (* the limit of the queue *)
  cap_local : nat;               (* processes of the group that are alive *)
  cap_distributed : Z;           (* fresh leases of the queue *)
  cap_outstanding : Z;           (* dispatches not yet claimed *)
  cap_inflight : Z;              (* launches of this processor under way *)
}.

Definition free_slots (c : Capacity) : Z :=
  cap_limit c - (Z.of_nat (cap_local c) + cap_distributed c) - cap_inflight c - cap_outstanding c.

(** The counts are answers in the log. *)
Definition counted_in (p : QueueProcessor) (name : string) (c : Capacity) (l : QLog) : Prop :=
  event (QMaxConcurrency name) (cap_limit c) ∈ l ∧
  event (QCountAlive name) (inr (cap_local c)) ∈ l ∧
  event (QInflight name) (cap_inflight c) ∈ l ∧
  (if qp_hasLeaseStore p
   then ∃ leases now, event (QListByQueue name) (inr leases) ∈ l ∧ event QNow now ∈ l ∧
          cap_distributed c = Z.of_nat (length (filter (λ x, IsFresh x now (leaseStaleThresholdOrDefault p) = true) leases))
   else cap_distributed c = 0) ∧
  (if qp_hasDispatchStore p
   then ∃ n, event (QCountOutstandingByQueue name (leaseStaleThresholdOrDefault p)) (inr n) ∈ l ∧ cap_outstanding c = Z.of_nat n
   else cap_outstanding c = 0).

Section Pass.
Context `{Float64} `{TimeText} (p : QueueProcessor).

Lemma hasOutstanding_only run : only plain (hasOutstandingDispatchReservation p run).
Proof.
  unfold hasOutstandingDispatchReservation. destruct (negb _); [done|]. split; [done|].
  intros [err|attempt]; [by simpl; destruct (Is _ _)|]. simpl. destruct (ar_Hidden attempt); [done|]. split; [done|].
  intros [err|st]; [by destruct (_ || _)|]. destruct (negb _); [done|]. case_bool_decide; [done|]. by split.
Qed.

Lemma select_loop_only items free : ∀ runnable, only plain (select_loop p items free runnable).
Proof.
  induction items as [|item items IH]; intros runnable; [done|]. cbn [select_loop]. destruct (_ <=? _); [done|].
  destruct (negb _); [apply IH|]. split; [done|]. intros [err|run]; [apply IH|]. cbn [pbind].
  apply only_bind; [apply hasOutstanding_only|]. intros [err|[]]; [done|apply IH..].
Qed.

(** Not more items than slots. *)
Lemma select_loop_bound items free : ∀ runnable,
  Z.of_nat (length runnable) <= free →
  returns (select_loop p items free runnable) (λ r, ∀ l, r = Some l → Z.of_nat (length l) <= free).
Proof.
  induction items as [|item items IH]; intros runnable Hle; [by intros l [= <-]|]. cbn [select_loop].
  destruct (free <=? _) eqn:E; [by intros l [= <-]|]. breflect.
  assert (Z.of_nat (length (runnable ++ [item])) <= free) as Hle' by (rewrite length_app; simpl; lia).
  destruct (negb _); [by apply IH|]. intros [err|run]; [by apply IH|]. cbn [pbind].
  eapply returns_bind; [apply returns_True|]. intros [err|[]] _; [done|by apply IH..].
Qed.

(** What a selection returns, after the calls [l]. *)
Definition selected (name : string) (l : QLog) (items : list string) (l' : QLog) : Prop :=
  ∃ k, l' = l ++ k ∧ count launched k = 0%nat ∧
    (items = [] ∨ ∃ c, counted_in p name c k ∧ Z.of_nat (length items) <= free_slots c).

Definition extends (l l' : QLog) : Prop := ∃ k, l' = l ++ k ∧ count launched k = 0%nat.

Lemma grown_refl l : extends l l.
Proof. exists []. by rewrite app_nil_r. Qed.
Lemma grown_plain l : stable plain (extends l).
Proof.
  intros log c x Hc (k & -> & Hk). exists (k ++ [event c x]). rewrite app_assoc. split; [done|].
  rewrite count_plain; [done|by destruct c].
Qed.

(** A plain program with nothing to select. *)
Lemma nothing_selected name l l1 :
  extends l l1 → spec (λ _, True) no_batch l1 (selected name l).
Proof.
  intros (k & -> & Hk). qcall_step. qret. exists (k ++ [event QWakeUp x]). rewrite app_assoc. split_and!; [done| |by left].
  by rewrite count_plain.
Qed.

Lemma nothing_returned name l l1 : extends l l1 → spec (λ _, True) (Ret []) l1 (selected name l).
Proof. intros (k & -> & Hk). qret. exists k. split_and!; [done..|by left]. Qed.

Lemma countActive_spec name l :
  spec (λ _, True) (countActiveDistributedRuns p name) l (λ r l', ∃ k, l' = l ++ k ∧ count launched k = 0%nat ∧
    ∀ d, r = inr d →
      if qp_hasLeaseStore p
      then ∃ leases now, event (QListByQueue name) (inr leases) ∈ k ∧ event QNow now ∈ k ∧
             d = Z.of_nat (length (filter (λ x, IsFresh x now (leaseStaleThresholdOrDefault p) = true) leases))
      else d = 0).
Proof.
  unfold countActiveDistributedRuns. destruct (qp_hasLeaseStore p); cbv [negb].
  2:{ qret. exists []. rewrite app_nil_r. split_and!; [done..|]. by intros d [= <-]. }
  qcall_step. cbv beta. destruct x as [err|leases]; [qret; eexists; by split_and!|].
  qcall_step. qret. eexists. rewrite <-app_assoc. split_and!; [done..|]. intros d [= <-]. exists leases, x.
  split_and!; [by left|right; by left|done].
Qed.

Lemma countOutstanding_spec name l :
  spec (λ _, True) (countOutstandingDispatchReservations p name) l (λ r l', ∃ k, l' = l ++ k ∧ count launched k = 0%nat ∧
    ∀ o, r = inr o →
      if qp_hasDispatchStore p
      then ∃ n, event (QCountOutstandingByQueue name (leaseStaleThresholdOrDefault p)) (inr n) ∈ k ∧ o = Z.of_nat n
      else o = 0).
Proof.
  unfold countOutstandingDispatchReservations. destruct (qp_hasDispatchStore p); cbv [negb].
  2:{ qret. exists []. rewrite app_nil_r. split_and!; [done..|]. by intros o [= <-]. }
  qcall_step. qret. eexists. split_and!; [done..|]. intros o Ho. destruct x as [err|n]; [done|]. injection Ho as <-.
  exists n. split; [by left|done].
Qed.

Lemma grown_trans l l1 l2 : extends l l1 → extends l1 l2 → extends l l2.
Proof.
  intros (k & -> & Hk) (k' & -> & Hk'). exists (k ++ k'). rewrite app_assoc. split; [done|]. rewrite count_app. lia.
Qed.

Lemma counted_in_app name c k k' : counted_in p name c k → counted_in p name c (k ++ k').
Proof.
  intros (? & ? & ? & Hd & Ho). split_and!; [by apply In_app_l..| |].
  - destruct (qp_hasLeaseStore p); [|done]. destruct Hd as (leases & now & ? & ? & ?). exists leases, now.
    split_and!; [by apply In_app_l..|done].
  - destruct (qp_hasDispatchStore p); [|done]. destruct Ho as (n & ? & ?). exists n. split; [by apply In_app_l|done].
Qed.

(** From the counts on. *)
Lemma pick_spec name l k c items :
  count launched k = 0%nat → counted_in p name c k →
  spec (λ _, True)
    (if free_slots c <=? 0 then no_batch
     else
       do* r := selectRunnableQueueItems p items (free_slots c) in
       match r with
       | None | Some [] => no_batch
       | Some runnable => Ret runnable
       end) (l ++ k) (selected name l).
Proof.
  intros Hk Hc. assert (extends l (l ++ k)) as Hl by (by exists k).
  destruct (free_slots c <=? 0) eqn:Ef; [by apply nothing_selected|]. unfold selectRunnableQueueItems. rewrite Ef. breflect.
  apply spec_bind. eapply spec_mono;
    [apply (only_spec plain (λ _, True) (extends (l ++ k)) _ _ (l ++ k) (select_loop_only _ _ _)
       (select_loop_bound items (free_slots c) [] ltac:(simpl; lia)) (grown_plain (l ++ k))); [done|apply grown_refl]|done|].
  intros r l8 _ [H8 Hr]. pose proof (grown_trans _ _ _ Hl H8) as Hl8.
  destruct r as [[|i rest]|]; [by apply nothing_selected| |by apply nothing_selected].
  destruct H8 as (k8 & -> & Hk8). qret. exists (k ++ k8). rewrite app_assoc. split; [done|].
  split; [rewrite count_app; lia|]. right. exists c. split; [by apply counted_in_app|]. by apply Hr.
Qed.

(** The items a pass picks: no more than the slots that were free when it counted. *)
Lemma select_batch_spec name l : spec (λ _, True) (select_batch p name) l (selected name l).
Proof.
  unfold select_batch. qcall_step. cbv beta. set (l1 := l ++ _).
  assert (extends l l1) as H1 by (apply grown_plain; [done|apply grown_refl]).
  destruct x; [by apply nothing_returned|]. qcall_step. cbv beta. set (l2 := l1 ++ _).
  assert (extends l l2) as H2 by (by apply grown_plain).
  destruct x; [|by apply nothing_returned]. qcall_step. cbv beta. set (l3 := l2 ++ _).
  assert (extends l l3) as H3 by (by apply grown_plain).
  destruct x as [err|[|item items]]; [by apply nothing_returned..|]. qcall_step. cbv beta. set (l4 := l3 ++ _).
  assert (extends l l4) as H4 by (by apply grown_plain).
  destruct x as [err|alive]; [by apply nothing_selected|].
  apply spec_bind. eapply spec_mono; [apply countActive_spec|done|]. intros d l5 _ (k5 & E5 & Hk5 & Hd).
  assert (extends l l5) as H5 by (eapply grown_trans; [exact H4|by exists k5]).
  destruct d as [err|dist]; [by apply nothing_selected|].
  apply spec_bind. eapply spec_mono; [apply countOutstanding_spec|done|]. intros o l6 _ (k6 & E6 & Hk6 & Ho).
  assert (extends l l6) as H6 by (eapply grown_trans; [exact H5|by exists k6]).
  destruct o as [err|out]; [by apply nothing_selected|]. qcall_step. cbv beta zeta. rename x into limit. qcall_step. cbv beta zeta.
  set (k := [event QIsClosed false; event (QLoadQueue name) true; event (QList name) (inr (item :: items));
             event (QCountAlive name) (inr alive)] ++ k5 ++ k6 ++ [event (QMaxConcurrency name) limit; event (QInflight name) x]).
  replace ((l6 ++ [event (QMaxConcurrency name) limit]) ++ [event (QInflight name) x]) with (l ++ k) by (rewrite E6, E5; subst k l1 l2 l3 l4; by rewrite <-!app_assoc).
  apply (pick_spec name l k (mkCapacity limit alive dist out x)).
  - subst k. by rewrite !count_app, Hk5, Hk6.
  - assert (∀ y, y ∈ k5 → y ∈ k) as In5 by (intros y Hy; subst k; apply elem_of_app; right; by apply In_app_l).
    assert (∀ y, y ∈ k6 → y ∈ k) as In6
      by (intros y Hy; subst k; apply elem_of_app; right; apply elem_of_app; right; by apply In_app_l).
    assert (∀ y, y ∈ [event (QMaxConcurrency name) limit; event (QInflight name) x] → y ∈ k) as In7
      by (intros y Hy; subst k; do 3 (apply elem_of_app; right); done).
    split_and!; simpl; [apply In7; left|do 3 right; by left|apply In7; right; left| |].
    + specialize (Hd dist eq_refl). destruct (qp_hasLeaseStore p); [|done].
      destruct Hd as (leases & now & ? & ? & ?). exists leases, now. split_and!; [by apply In5..|done].
    + specialize (Ho out eq_refl). destruct (qp_hasDispatchStore p); [|done].
      destruct Ho as (n & ? & ?). exists n. split; [by apply In6|done].
Qed.

(** ** A pass *)
Lemma launched_once item name log : guarded launch_try (launch_ok item name) log → (count launched log <= 1)%nat.
Proof.
  induction log as [|ev log IH] using rev_ind; intros HL; [unfold count; simpl; lia|].
  assert (count launched log <= 1)%nat as IH'.
  { apply IH. intros before e after x -> Hx. eapply (HL before e (after ++ [ev])); [by rewrite <-app_assoc|done]. }
  destruct ev as [c x]. change (existT c x) with (event c x) in *. destruct (launched (event c x)) eqn:El.
  - rewrite count_one by done. assert (∃ y, launch_try (event c x) = Some y) as [[[dag id] st] Hy] by (destruct c; by eauto).
    destruct (HL log (event c x) [] _ eq_refl Hy) as [-> _]. lia.
  - by rewrite count_plain.
Qed.

Context (env : Env QAns) (fuel : nat) (schedule : list nat) (name : string) (history : QLog).

(** The goroutines of a pass keep their guards. *)
Lemma pass_threads items h ts i item prog log :
  ProcessQueueItems p env fuel schedule name history = (items, h, ts) →
  items !! i = Some item → ts !! i = Some (prog, log) → log_ok (leaseStaleThresholdOrDefault p) item name log.
Proof.
  unfold ProcessQueueItems. destruct (exec env (select_batch p name) history) as [items' h1].
  destruct (sched _ _ _ _) as [h2 ts'] eqn:Es. intros [= -> -> ->] Hi Ht.
  pose proof (sched_safe env (λ j, λ l, ∀ it, items !! j = Some it → log_ok (leaseStaleThresholdOrDefault p) it name l)
    schedule h1 (map (λ it, (item_goroutine p fuel name it, [])) items)) as Hsafe.
  rewrite Es in Hsafe. refine (spec_here _ _ _ _ (Hsafe _ i (prog, log) Ht) item Hi).
  intros j t Hj. apply list_lookup_fmap_Some in Hj as (it & -> & Hit). simpl.
  eapply spec_mono; [apply (item_goroutine_spec p it name)| |done]. intros l Hl it' Hit'. congruence.
Qed.

(** The calls of a pass that start runs are the ones of its goroutines. *)
Lemma pass_counts items h ts f :
  ProcessQueueItems p env fuel schedule name history = (items, h, ts) →
  length ts = length items ∧
  ((∀ ev, f ev = true → launched ev = true) → (count f h <= count f history + count_all f ts)%nat).
Proof.
  intros HP. unfold ProcessQueueItems in HP. pose proof (spec_exec env _ _ _ _ (select_batch_spec name history)) as [_ Hsel].
  destruct (exec env (select_batch p name) history) as [items' h1]. simpl in Hsel.
  destruct (sched _ _ _ _) as [h2 ts'] eqn:Es. injection HP as -> -> ->.
  set (ts0 := map (λ it, (item_goroutine p fuel name it, [])) items) in *.
  pose proof (sched_count env f schedule h1 ts0) as Hcount. pose proof (sched_length env schedule h1 ts0) as Hlen.
  rewrite Es in Hcount, Hlen. simpl in Hcount, Hlen. split; [subst ts0; by rewrite Hlen, length_fmap|]. intros Hf.
  assert (count_all f ts0 = 0%nat) as Hzero by (subst ts0; clear; induction items; done).
  destruct Hsel as (k & -> & Hk & _). rewrite count_app in Hcount. pose proof (count_mono f launched k Hf). lia.
Qed.
End Pass.

(** ** Starts of one run *)

(** A start of the run with the identifier. *)
Definition starts (id : string) (ev : Event QAns) : bool :=
  launched ev && match launch_try ev with Some (_, id', _) => bool_decide (id' = id) | None => false end.

(** At most one item of the batch was read as naming the run. *)
Definition named_once (items : list string) (ts : list (Thread QAns)) (id : string) : Prop :=
  ∀ i j item item' t t' run run', items !! i = Some item → items !! j = Some item' → ts !! i = Some t → ts !! j = Some t' →
  event (QItemData item) (inr run) ∈ t.2 → event (QItemData item') (inr run') ∈ t'.2 → ref_ID run = id → ref_ID run' = id → i = j.

Section Starts.
Context `{Float64} `{TimeText} (p : QueueProcessor).
Context (env : Env QAns) (fuel : nat) (schedule : list nat) (name : string) (history : QLog).
Context (items : list string) (h : QLog) (ts : list (Thread QAns)).
Hypothesis (HP : ProcessQueueItems p env fuel schedule name history = (items, h, ts)).

Lemma thread_launches i item prog log :
  items !! i = Some item → ts !! i = Some (prog, log) →
  guarded launch_try (launch_ok item name) log ∧ (count launched log <= 1)%nat.
Proof.
  intros Hi Ht. destruct (pass_threads p env fuel schedule name history _ _ _ _ _ _ _ HP Hi Ht) as [HL _].
  split; [done|by eapply launched_once].
Qed.

(** What a goroutine starts is named by its item. *)
Lemma started_named i item t id :
  items !! i = Some item → ts !! i = Some t → (0 < count (starts id) t.2)%nat →
  ∃ run, event (QItemData item) (inr run) ∈ t.2 ∧ ref_ID run = id.
Proof.
  intros Hi Ht (ev & Hev & Hs)%count_pos. destruct t as [prog log]. destruct (thread_launches i item prog log Hi Ht) as [HL _].
  apply andb_prop in Hs as [_ Hs]. destruct (launch_try ev) as [[[dag id'] st]|] eqn:Hl; [|done].
  apply bool_decide_eq_true in Hs as ->. simpl in Hev. apply list_elem_of_split in Hev as (before & after & ->).
  destruct (HL before ev after _ eq_refl Hl) as (_ & run & Hid & Hrun & _). exists run. split; [by apply In_app_l|done].
Qed.

Lemma pass_starts_once id : named_once items ts id → (count (starts id) h <= 1 + count (starts id) history)%nat.
Proof.
  intros Hone. pose proof (pass_counts p env fuel schedule name history items h ts (starts id) HP) as (Hlen & Hsel).
  assert (∀ i t, ts !! i = Some t → ∃ item, items !! i = Some item) as Hitem.
  { intros i t Ht%lookup_lt_Some. rewrite Hlen in Ht. by apply lookup_lt_is_Some in Ht as [item ?]; eauto. }
  assert (∀ ev, starts id ev = true → launched ev = true) as Hsl by (by intros ev [? _]%andb_prop).
  specialize (Hsel Hsl). enough (count_all (starts id) ts <= 1)%nat by lia. apply count_all_single.
  - intros [prog log] (i & Hi)%list_elem_of_lookup. destruct (Hitem _ _ Hi) as [item Hit].
    etransitivity; [by apply (count_mono _ launched)|]. by eapply thread_launches.
  - intros i j t t' Hi Hj Pi Pj. destruct (Hitem _ _ Hi) as [item Ei], (Hitem _ _ Hj) as [item' Ej].
    destruct (started_named i item t id Ei Hi Pi) as (run & ? & ?), (started_named j item' t' id Ej Hj Pj) as (run' & ? & ?).
    by eapply Hone.
Qed.
End Starts.

(** ** Claims *)
Section Claims.
Context `{Float64} `{TimeText} (p : QueueProcessor).

(** C8. Launches.  In a pass over a queue, whatever the stores, the clock and the
    other services answer and however the goroutines are interleaved, the goroutine
    of an item starts (or tries to dispatch) a run only after it saw, for the run of
    the item: no live process in the group, an attempt that is not hidden with the
    status Queued, and, when the scheduler triggered it, a schedule that is not
    suspended; what it starts is the DAG and the status it read.  The goroutine of an
    item starts at most one run, and never tries again after a start that succeeded.  A
    run that at most one item of the batch names is started at most once in the pass; a
    run that two items name can be started by both. *)
Theorem queue_launches_guarded env fuel schedule name history items h ts :
  ProcessQueueItems p env fuel schedule name history = (items, h, ts) →
  (∀ i item prog log, items !! i = Some item → ts !! i = Some (prog, log) →
   guarded launch_try (launch_ok item name) log ∧ (count launched log <= 1)%nat) ∧
  (∀ id, named_once items ts id → (count (starts id) h <= 1 + count (starts id) history)%nat).
Proof.
  intros HP. split; [intros i item prog log; by apply (thread_launches p env fuel schedule name history items h ts)|].
  intros id Hid. by eapply pass_starts_once.
Qed.


(** C10. Capacity.  A pass starts no more runs than there were free slots: the limit
    of the queue less the local processes, the fresh leases, the launches under way
    and the outstanding dispatches, each as it was answered in this pass. *)
Theorem queue_pass_within_capacity env fuel schedule name history items h ts :
  ProcessQueueItems p env fuel schedule name history = (items, h, ts) →
  count launched h = count launched history ∨
  ∃ c k k', h = history ++ k ++ k' ∧ counted_in p name c k ∧
    Z.of_nat (count launched h) <= Z.of_nat (count launched history) + free_slots c.
Proof.
  intros HP. assert (∀ i item t, items !! i = Some item → ts !! i = Some t → (count launched t.2 <= 1)%nat) as Hone.
  { intros i item [prog log] Hi Ht. eapply launched_once. apply (pass_threads p env fuel schedule name history _ _ _ _ _ _ _ HP Hi Ht). }
  unfold ProcessQueueItems in HP. pose proof (spec_exec env _ _ _ _ (select_batch_spec p name history)) as [_ Hsel].
  destruct (exec env (select_batch p name) history) as [items' h1]. simpl in Hsel.
  destruct (sched _ _ _ _) as [h2 ts'] eqn:Es. injection HP as -> -> ->.
  set (ts0 := map (λ it, (item_goroutine p fuel name it, [])) items) in *.
  pose proof (sched_count env launched schedule h1 ts0) as Hcount. pose proof (sched_length env schedule h1 ts0) as Hlen.
  rewrite Es in Hcount, Hlen. simpl in Hcount, Hlen.
  assert (count_all launched ts0 = 0%nat) as Hzero by (subst ts0; clear; induction items; done).
  assert (length ts = length items) as Hlen' by (subst ts0; by rewrite Hlen, length_fmap).
  assert (count_all launched ts <= 1 * length ts)%nat as Hb.
  { apply count_all_bound. intros t (i & Hi)%list_elem_of_lookup. pose proof (lookup_lt_Some _ _ _ Hi) as Hlt.
    rewrite Hlen' in Hlt. apply lookup_lt_is_Some in Hlt as [item Hitem]. by eapply Hone. }
  destruct Hsel as (k & -> & Hk & Hc). rewrite count_app in Hcount.
  destruct Hc as [->|(c & Hc & Hle)]; [left; simpl in *; lia|]. right.
  destruct (sched_extends env schedule (history ++ k) ts0) as [k' Hk']. rewrite Es in Hk'. simpl in Hk'. subst h.
  exists c, k, k'. split; [by rewrite app_assoc|]. split; [done|]. lia.
Qed.

(** C11. Items end.  With a bound on the retries and a round more of fuel, the work on
    an item returns an answer in every environment, and the counter of launches
    under way is where it was. *)
Theorem queue_item_ends env fuel item name :
  0 < bc_MaxRetries (qp_backoffConfig p) < Z.of_nat fuel →
  let '(r, log) := exec env (processDAG p fuel item name) [] in
  r ≠ None ∧ count (is_inc name) log = count (is_dec name) log.
Proof.
  intros Hfuel. pose proof (spec_exec env _ _ _ _ (processDAG_spec p item name fuel)) as [_ [Hbal _]].
  pose proof (spec_exec env _ _ _ _ (returns_spec (processDAG p fuel item name) (λ r, r ≠ None) [] (processDAG_returns p fuel item name Hfuel))) as [_ Hr].
  destruct (exec env (processDAG p fuel item name) []). by split.
Qed.
End Claims.
