(* ===== verification/Zombie.v ===== *)
(** * The zombie detector (service/scheduler/zombie_detector.go)

    Every interval the detector lists the heartbeat files of all groups.  A stale one
    is counted under the identity of its attempt; after [failureThreshold] counts the
    run of the attempt is repaired, if its status still says that this attempt runs
    locally.  The stores are an environment ([Prog]); the counters are the state.

    The mutexes of attempts order nothing here: the detector is one goroutine. *)

From stdpp Require Import base strings list gmap.
From Stdlib Require Import ZArith Lia.
From S2P Require Import Prelude Status RunStatus FileSys ProcStore Prog Backoff QueueProc QueueProcLaws.

Open Scope prog_scope.
Open Scope Z_scope.

Inductive ZCall :=
  | ZListAllEntries
  | ZDone                                                  (* the context is done or quit is closed *)
  | ZFindAttempt (run : DAGRunRef)
  | ZFindSubAttempt (root : DAGRunRef) (subDAGRunID : string)
  | ZReadStatus (a : AttemptRef)
  | ZReadDAG (a : AttemptRef)
  | ZRepairStaleLocalRun (e : ProcEntry) (a : AttemptRef) (dag : DAG)
  | ZRemoveIfStale (e : ProcEntry).

Definition ZAns (c : ZCall) : Type :=
  match c with
  | ZListAllEntries => Error + list ProcEntry
  | ZDone => bool
  | ZFindAttempt _ | ZFindSubAttempt _ _ => Error + AttemptRef
  | ZReadStatus _ => Error + DAGRunStatus
  | ZReadDAG _ => Error + DAG
  | ZRepairStaleLocalRun _ _ _ => Error + (DAGRunStatus * bool)
  | ZRemoveIfStale _ => option Error
  end%type.

Abbreviation ZProg A := (Prog ZAns A).
Abbreviation ZLog := (list (Event ZAns)).
Definition zcall (c : ZCall) : ZProg (ZAns c) := call c.

Abbreviation Counters := (gmap string Z).

(** ** One scan: the entries *)

(** The freshest entry of every run, and the attempts that have an entry. *)
Definition newer (entry current : ProcEntry) : bool :=
  (pm_StartedAt (pe_Meta current) <? pm_StartedAt (pe_Meta entry)) ||
  ((pm_StartedAt (pe_Meta current) =? pm_StartedAt (pe_Meta entry)) &&
   (pe_LastHeartbeatAt current <? pe_LastHeartbeatAt entry)).

Definition add_fresh (m : gmap string ProcEntry) (entry : ProcEntry) : gmap string ProcEntry :=
  if pe_Fresh entry then
    match m !! RunScopeKey entry with
    | None => <[RunScopeKey entry := entry]> m
    | Some current => if newer entry current then <[RunScopeKey entry := entry]> m else m
    end
  else m.

Definition freshByRunScope (entries : list ProcEntry) : gmap string ProcEntry := foldl add_fresh ∅ entries.

Definition fresh_sibling (fresh : gmap string ProcEntry) (entry : ProcEntry) : bool :=
  match fresh !! RunScopeKey entry with
  | Some sibling => bool_decide (pm_AttemptID (pe_Meta sibling) ≠ pm_AttemptID (pe_Meta entry))
  | None => false
  end.

Section Detector.
Context (failureThreshold : Z).

(** [NewZombieDetector] *)
Definition default_threshold (n : Z) : Z := if n <=? 0 then 3 else n.

Definition zombie_findAttempt (entry : ProcEntry) : ZProg (Error + AttemptRef) :=
  if IsRoot entry then zcall (ZFindAttempt (meta_DAGRun (pe_Meta entry)))
  else zcall (ZFindSubAttempt (meta_Root (pe_Meta entry)) (pm_DAGRunID (pe_Meta entry))).

Definition clearAttemptState (attemptKey : string) (z : Counters) : Counters := delete attemptKey z.

(** The state is cleared before the file is removed, whatever the removal returns. *)
Definition clear_and_remove (entry : ProcEntry) (z : Counters) : ZProg (option Error * Counters) :=
  do* r := zcall (ZRemoveIfStale entry) in Ret (r, clearAttemptState (AttemptKey entry) z).

Definition cleanupOrphanedStaleEntry (entry : ProcEntry) (findErr : Error) (z : Counters)
    : ZProg (option Error * Counters) :=
  if negb (Is findErr (Sys ErrDAGRunIDNotFound)) && negb (Is findErr (Sys ErrNoStatusData)) &&
     negb (Is findErr (Sys ErrCorruptedStatusFile))
  then Ret (Some findErr, z)
  else clear_and_remove entry z.

(** A run whose attempt is still the one of the entry. *)
Definition is_remote_worker (workerID : string) : bool :=
  bool_decide (workerID ≠ "") && bool_decide (workerID ≠ "local").

Definition repair (entry : ProcEntry) (attempt : AttemptRef) (z : Counters) : ZProg (option Error * Counters) :=
  do* d := zcall (ZReadDAG attempt) in
  match d with
  | inl err => Ret (Some err, z)
  | inr dag =>
      do* r := zcall (ZRepairStaleLocalRun entry attempt dag) in
      match r with
      | inl err => Ret (Some err, z)
      | inr _ =>
          do* e := zcall (ZRemoveIfStale entry) in
          match e with
          | Some err => Ret (Some err, z)
          | None => Ret (None, clearAttemptState (AttemptKey entry) z)
          end
      end
  end.

Definition confirm_zombie (entry : ProcEntry) (z : Counters) : ZProg (option Error * Counters) :=
  do* a := zombie_findAttempt entry in
  match a with
  | inl err => cleanupOrphanedStaleEntry entry err z
  | inr attempt =>
      do* s := zcall (ZReadStatus attempt) in
      match s with
      | inl err => Ret (Some err, z)
      | inr st =>
          if negb (bool_decide (rs_AttemptID st = pm_AttemptID (pe_Meta entry))) || negb (bool_decide (rs_Status st = Running))
          then clear_and_remove entry z
          else if is_remote_worker (rs_WorkerID st) then clear_and_remove entry z
          else repair entry attempt z
      end
  end.

Definition checkAndCleanZombie (entry : ProcEntry) (fresh : gmap string ProcEntry) (z : Counters)
    : ZProg (option Error * Counters) :=
  let attemptKey := AttemptKey entry in
  if pe_Fresh entry then Ret (None, clearAttemptState attemptKey z)
  else if fresh_sibling fresh entry then clear_and_remove entry z
  else
    let count := default 0 (z !! attemptKey) + 1 in
    let z := <[attemptKey := count]> z in
    if count <? failureThreshold then Ret (None, z) else confirm_zombie entry z.

(** The loop over the entries; [true] when the detector was told to stop. *)
Fixpoint check_entries (entries : list ProcEntry) (fresh : gmap string ProcEntry) (z : Counters) : ZProg (bool * Counters) :=
  match entries with
  | [] => Ret (false, z)
  | entry :: entries' =>
      do* stop := zcall ZDone in
      if stop then Ret (true, z)
      else
        do* '(_, z) := checkAndCleanZombie entry fresh z in
        check_entries entries' fresh z
  end.

(** Counters of attempts that have no entry any more are dropped. *)
Definition keep_active (entries : list ProcEntry) (z : Counters) : Counters :=
  filter (λ kv, kv.1 ∈ map AttemptKey entries) z.

Definition detectAndCleanZombies (z : Counters) : ZProg (bool * Counters) :=
  do* l := zcall ZListAllEntries in
  match l with
  | inl _ => Ret (false, z)
  | inr entries =>
      do* '(stop, z) := check_entries entries (freshByRunScope entries) z in
      if stop then Ret (true, z) else Ret (false, keep_active entries z)
  end.

(** The scans of a detector, until it is stopped. *)
Fixpoint scans (n : nat) (z : Counters) : ZProg Counters :=
  match n with
  | O => Ret z
  | S n' =>
      do* '(stop, z) := detectAndCleanZombies z in
      if stop then Ret z else scans n' z
  end.
End Detector.

(** ** What a log says *)

(** The lists of entries the scans got, the last first. *)
Definition listing (ev : Event ZAns) : option (list ProcEntry) :=
  match ev with
  | existT c x =>
      match c as c' return ZAns c' → option (list ProcEntry) with
      | ZListAllEntries => λ r, match r with inr es => Some es | inl _ => None end
      | _ => λ _, None
      end x
  end.

Definition listings (log : ZLog) : list (list ProcEntry) := foldl (λ acc ev, match listing ev with Some es => es :: acc | None => acc end) [] log.

(** How often an attempt was seen stale in a scan, and in the last scans in a row. *)
Definition stale_entries (k : string) (es : list ProcEntry) : Z :=
  Z.of_nat (length (filter (λ e, pe_Fresh e = false ∧ AttemptKey e = k) es)).

Fixpoint streak (k : string) (ls : list (list ProcEntry)) : Z :=
  match ls with
  | [] => 0
  | es :: ls' => if stale_entries k es =? 0 then 0 else stale_entries k es + streak k ls'
  end.

Definition repair_of (ev : Event ZAns) : option (ProcEntry * AttemptRef) :=
  match projT1 ev with ZRepairStaleLocalRun e a _ => Some (e, a) | _ => None end.

(** The attempt was found by the run of the entry. *)
Definition found (entry : ProcEntry) (attempt : AttemptRef) (log : ZLog) : Prop :=
  if IsRoot entry then event (ZFindAttempt (meta_DAGRun (pe_Meta entry))) (inr attempt) ∈ log
  else event (ZFindSubAttempt (meta_Root (pe_Meta entry)) (pm_DAGRunID (pe_Meta entry))) (inr attempt) ∈ log.

(** A fresh entry of the run of [entry]. *)
Definition fresh_entry (es : list ProcEntry) (entry f : ProcEntry) : Prop :=
  f ∈ es ∧ pe_Fresh f = true ∧ RunScopeKey f = RunScopeKey entry.
Definition same_attempt (entry f : ProcEntry) : Prop := pm_AttemptID (pe_Meta f) = pm_AttemptID (pe_Meta entry).

(** No other attempt of the run is alive, or this attempt has another entry that is
    alive and at least as recent. *)
Definition not_outrun (es : list ProcEntry) (entry : ProcEntry) : Prop :=
  ∀ f, fresh_entry es entry f → ¬ same_attempt entry f →
  ∃ g, fresh_entry es entry g ∧ same_attempt entry g ∧ newer f g = false.

(** A run is repaired for a stale entry of the last listing whose run was not taken over
    by another attempt, seen stale often enough in a row, and whose attempt was read as
    running locally. *)
Definition repair_ok (failureThreshold : Z) (x : ProcEntry * AttemptRef) (log : ZLog) : Prop :=
  let '(entry, attempt) := x in
  failureThreshold <= streak (AttemptKey entry) (listings log) ∧
  (∃ es, head (listings log) = Some es ∧ entry ∈ es ∧ not_outrun es entry) ∧
  pe_Fresh entry = false ∧ found entry attempt log ∧
  ∃ st, event (ZReadStatus attempt) (inr st) ∈ log ∧ rs_AttemptID st = pm_AttemptID (pe_Meta entry) ∧
    rs_Status st = Running ∧ is_remote_worker (rs_WorkerID st) = false.

(** ** The zombie detector: laws

    A counter is never more than the number of times in a row its attempt was seen
    stale, so a run is repaired only after that many sightings. *)

(** ** Fresh entries *)
Lemma newer_irrefl e : newer e e = false.
Proof. unfold newer. rewrite Z.eqb_refl, !Z.ltb_irrefl. done. Qed.

Lemma newer_trans f current entry : newer f current = false → newer entry current = true → newer f entry = false.
Proof. unfold newer. intros. repeat (case_match || breflect); breflect; lia. Qed.

(** The map has for every run with a fresh entry one of the most recent. *)
Definition freshest_in (es : list ProcEntry) (k : string) (x : option ProcEntry) : Prop :=
  match x with
  | Some g => g ∈ es ∧ pe_Fresh g = true ∧ RunScopeKey g = k ∧ ∀ f, f ∈ es → pe_Fresh f = true → RunScopeKey f = k → newer f g = false
  | None => ∀ f, f ∈ es → pe_Fresh f = true → RunScopeKey f ≠ k
  end.

Lemma add_fresh_freshest es m e :
  (∀ k, freshest_in es k (m !! k)) → ∀ k, freshest_in (es ++ [e]) k (add_fresh m e !! k).
Proof.
  intros Hm k. specialize (Hm k). assert (∀ f, f ∈ es ++ [e] → f ∈ es ∨ f = e) as Hin by (intros f; rewrite elem_of_app, list_elem_of_singleton; done).
  assert (e ∈ es ++ [e]) as He by (apply elem_of_app; right; left).
  assert (pe_Fresh e = true → RunScopeKey e = k → ∀ x, freshest_in es k x → (∀ g, x = Some g → newer e g = true) →
    freshest_in (es ++ [e]) k (Some e)) as Hnew.
  { intros Hf Hk x Hx Hn. split_and!; [done..|]. intros f [Hf'| ->]%Hin Hff Hkf; [|apply newer_irrefl].
    destruct x as [g|]; [|by apply Hx in Hkf]. eapply newer_trans; [by apply Hx|by apply Hn]. }
  assert ((pe_Fresh e = true → RunScopeKey e = k → ∃ g, m !! k = Some g ∧ newer e g = false) → freshest_in (es ++ [e]) k (m !! k)) as Hold.
  { intros Hn. destruct (m !! k) as [g|] eqn:Eg.
    - destruct Hm as (H1 & H2 & H3 & H4). split_and!; [apply elem_of_app; by left|done|done|].
      intros f [Hf| ->]%Hin Hff Hkf; [by apply H4|]. by destruct (Hn Hff Hkf) as (g' & [= <-] & ?).
    - intros f [Hf| ->]%Hin Hff; [by apply Hm|]. intros Hkf. by destruct (Hn Hff Hkf) as (g & ? & _). }
  unfold add_fresh. destruct (pe_Fresh e) eqn:Ef; [|by apply Hold].
  destruct (decide (RunScopeKey e = k)) as [Hk|Hne]; [rewrite Hk|].
  - destruct (m !! k) as [g|] eqn:Eg; [destruct (newer e g) eqn:Hn|]; rewrite ?lookup_insert_eq, ?Eg.
    + apply (Hnew eq_refl Hk (Some g)); [done|]. by intros ? [= <-].
    + apply Hold. intros _ _. by exists g.
    + by apply (Hnew eq_refl Hk None).
  - assert (∀ x, (<[RunScopeKey e := x]> m) !! k = m !! k) as Hoth by (intros; by rewrite lookup_insert_ne).
    destruct (m !! RunScopeKey e) as [g|]; [destruct (newer e g)|]; rewrite ?Hoth; by apply Hold.
Qed.

Lemma freshByRunScope_freshest es k : freshest_in es k (freshByRunScope es !! k).
Proof.
  revert k. induction es as [|e es IH] using rev_ind; [intros k; change (freshest_in [] k ((∅ : gmap string ProcEntry) !! k)); rewrite lookup_empty; by intros f ?%not_elem_of_nil|].
  intros k. unfold freshByRunScope. rewrite foldl_app. by apply add_fresh_freshest.
Qed.

Lemma no_sibling es entry : fresh_sibling (freshByRunScope es) entry = false → not_outrun es entry.
Proof.
  unfold fresh_sibling. pose proof (freshByRunScope_freshest es (RunScopeKey entry)) as H.
  destruct (freshByRunScope es !! RunScopeKey entry) as [g|].
  - intros Hg%bool_decide_eq_false%dec_stable f (Hf & Hff & Hk) _. destruct H as (H1 & H2 & H3 & H4). exists g.
    split_and!; [done..|by apply H4].
  - intros _ f (Hf & Hff & Hk) _. by destruct (H f Hf Hff).
Qed.

(** ** Sightings *)
Lemma stale_nonneg k es : 0 <= stale_entries k es.
Proof. unfold stale_entries. lia. Qed.

Lemma streak_nonneg k ls : 0 <= streak k ls.
Proof. induction ls as [|es ls IH]; simpl; [done|]. pose proof (stale_nonneg k es). destruct (_ =? 0); lia. Qed.

Lemma stale_app k es es' : stale_entries k (es ++ es') = stale_entries k es + stale_entries k es'.
Proof. unfold stale_entries. rewrite list.filter_app, length_app. lia. Qed.

Lemma stale_one k e : stale_entries k [e] = if bool_decide (pe_Fresh e = false ∧ AttemptKey e = k) then 1 else 0.
Proof. unfold stale_entries. cbn [filter list_filter]. case_bool_decide; case_decide; done. Qed.

(** The counters after the entries [seen] of a scan that follows the listings [ls]. *)
Definition counters_ok (ls : list (list ProcEntry)) (seen : list ProcEntry) (z : Counters) : Prop :=
  (∀ k c, z !! k = Some c → c <= stale_entries k seen + streak k ls) ∧
  (∀ k, stale_entries k seen = 0 → k ∈ map AttemptKey seen → z !! k = None).

Lemma counters_clear ls seen e z :
  counters_ok ls seen z → counters_ok ls (seen ++ [e]) (clearAttemptState (AttemptKey e) z).
Proof.
  intros [H1 H2]. unfold clearAttemptState. split; intros k.
  - intros c [Hne Hk]%lookup_delete_Some. rewrite stale_app. pose proof (stale_nonneg k [e]). specialize (H1 k c Hk). lia.
  - rewrite stale_app. pose proof (stale_nonneg k [e]). pose proof (stale_nonneg k seen). intros Hzero Hin.
    destruct (decide (k = AttemptKey e)) as [->|Hne]; [apply lookup_delete_eq|]. rewrite lookup_delete_ne by done.
    apply H2; [lia|]. rewrite map_app in Hin. apply elem_of_app in Hin as [Hin|Hin]; [done|].
    by apply list_elem_of_singleton in Hin.
Qed.

Lemma counters_incr ls seen e z :
  pe_Fresh e = false → counters_ok ls seen z →
  counters_ok ls (seen ++ [e]) (<[AttemptKey e := default 0 (z !! AttemptKey e) + 1]> z).
Proof.
  intros Hf [H1 H2]. assert (stale_entries (AttemptKey e) [e] = 1) as Hone by (by rewrite stale_one, bool_decide_true).
  split; intros k.
  - intros c Hk. rewrite stale_app. destruct (decide (k = AttemptKey e)) as [->|Hne].
    + rewrite lookup_insert_eq in Hk. injection Hk as <-. pose proof (stale_nonneg (AttemptKey e) seen).
      pose proof (streak_nonneg (AttemptKey e) ls). destruct (z !! AttemptKey e) as [c|] eqn:Hc; simpl; [specialize (H1 _ _ Hc)|]; lia.
    + rewrite lookup_insert_ne in Hk by done. pose proof (stale_nonneg k [e]). specialize (H1 k c Hk). lia.
  - rewrite stale_app. pose proof (stale_nonneg k [e]). pose proof (stale_nonneg k seen). intros Hzero Hin.
    destruct (decide (k = AttemptKey e)) as [->|Hne]; [lia|]. rewrite lookup_insert_ne by done.
    apply H2; [lia|]. rewrite map_app in Hin. apply elem_of_app in Hin as [Hin|Hin]; [done|].
    by apply list_elem_of_singleton in Hin.
Qed.

(** Between two scans. *)
Definition counters_bounded (ls : list (list ProcEntry)) (z : Counters) : Prop := ∀ k c, z !! k = Some c → c <= streak k ls.

Lemma counters_end ls es z : counters_ok ls es z → counters_bounded (es :: ls) (keep_active es z).
Proof.
  intros [H1 H2] k c [Hk Hin]%map_lookup_filter_Some. simpl in *.
  destruct (stale_entries k es =? 0) eqn:E; breflect; [|by apply H1]. rewrite (H2 k E Hin) in Hk. done.
Qed.

Lemma counters_start ls z : counters_bounded ls z → counters_ok ls [] z.
Proof. intros Hz. split; intros k; [|by intros _ ?%not_elem_of_nil]. intros c Hc. specialize (Hz k c Hc). unfold stale_entries. simpl. lia. Qed.

(** ** Logs *)
Definition zplain (c : ZCall) : Prop :=
  match c with ZListAllEntries | ZRepairStaleLocalRun _ _ _ => False | _ => True end.

Lemma listings_app log ev : listings (log ++ [ev]) = match listing ev with Some es => es :: listings log | None => listings log end.
Proof. unfold listings. by rewrite foldl_app. Qed.

Lemma listings_other c (x : ZAns c) log : c ≠ ZListAllEntries → listings (log ++ [event c x]) = listings log.
Proof. intros Hc. rewrite listings_app. by destruct c. Qed.

Section Laws.
Context (failureThreshold : Z).
Abbreviation ok := (guarded repair_of (repair_ok failureThreshold)).

(** In a scan of [es] after the listings [ls], with [seen] behind. *)
Definition scanning (ls : list (list ProcEntry)) (es : list ProcEntry) (log : ZLog) : Prop :=
  ok log ∧ listings log = es :: ls.

Lemma scanning_stable ls es : stable zplain (scanning ls es).
Proof.
  intros log c x Hc [HJ Hl]. split; [apply guarded_app; [done|]; by destruct c|]. rewrite listings_other; [done|by destruct c].
Qed.

Definition scan_post (ls : list (list ProcEntry)) (es seen : list ProcEntry) (x : option Error * Counters) (log : ZLog) : Prop :=
  scanning ls es log ∧ counters_ok ls seen x.2.

Lemma clear_and_remove_spec ls es seen entry z log :
  scanning ls es log → counters_ok ls seen z →
  spec ok (clear_and_remove entry z) log (scan_post ls es (seen ++ [entry])).
Proof.
  intros Hs Hz. apply spec_do; [apply Hs|]. intros r. assert (scanning ls es (log ++ [event (ZRemoveIfStale entry) r])) as Hs1
    by (by apply scanning_stable). apply spec_ret; [apply Hs1|]. split; [done|]. by apply counters_clear.
Qed.

(** The counter was raised: clearing it later is as good. *)
Lemma counters_clear_again ls seen entry z :
  counters_ok ls seen z → counters_ok ls (seen ++ [entry]) (clearAttemptState (AttemptKey entry) (<[AttemptKey entry := default 0 (z !! AttemptKey entry) + 1]> z)).
Proof. intros Hz. unfold clearAttemptState. rewrite delete_insert_eq. by apply counters_clear. Qed.

Lemma repair_spec ls es seen rest entry attempt z log :
  es = seen ++ entry :: rest → pe_Fresh entry = false → not_outrun es entry →
  failureThreshold <= default 0 (z !! AttemptKey entry) + 1 →
  scanning ls es log → counters_ok ls seen z → found entry attempt log →
  (∃ st, event (ZReadStatus attempt) (inr st) ∈ log ∧ rs_AttemptID st = pm_AttemptID (pe_Meta entry) ∧
    rs_Status st = Running ∧ is_remote_worker (rs_WorkerID st) = false) →
  spec ok (repair entry attempt (<[AttemptKey entry := default 0 (z !! AttemptKey entry) + 1]> z)) log
    (scan_post ls es (seen ++ [entry])).
Proof.
  intros Hes Hf Hsib Hcount Hs Hz Hfound (st & Hst & Hrest). set (z1 := <[AttemptKey entry := _]> z).
  assert (counters_ok ls (seen ++ [entry]) z1) as Hz1 by (by apply counters_incr).
  unfold repair. apply spec_do; [apply Hs|]. intros d. set (l1 := log ++ _).
  assert (scanning ls es l1) as Hs1 by (by apply scanning_stable).
  destruct d as [err|dag]; [apply spec_ret; [apply Hs1|by split]|].
  apply spec_do; [apply Hs1|]. intros r. set (l2 := l1 ++ _).
  assert (scanning ls es l2) as Hs2.
  { destruct Hs1 as [HJ1 Hl1]. split; [|subst l2; by rewrite listings_other]. apply guarded_app; [done|].
    intros x [= <-]. unfold repair_ok. rewrite Hl1. split_and!; [|by exists es; split_and!; [|subst es; apply elem_of_app; right; left|]|done| |].
    - destruct Hz as [Hz _]. assert (stale_entries (AttemptKey entry) es = stale_entries (AttemptKey entry) seen + (1 + stale_entries (AttemptKey entry) rest)) as E.
      { rewrite Hes, (cons_middle entry), !stale_app, stale_one, bool_decide_true by done. lia. }
      pose proof (stale_nonneg (AttemptKey entry) seen). pose proof (stale_nonneg (AttemptKey entry) rest).
      pose proof (streak_nonneg (AttemptKey entry) ls). simpl.
      destruct (stale_entries (AttemptKey entry) es =? 0) eqn:E0; breflect; [lia|].
      destruct (z !! AttemptKey entry) as [c|] eqn:Hc; simpl in *; [specialize (Hz _ _ Hc)|]; lia.
    - unfold found in *. subst l1. destruct (IsRoot entry); by apply In_app_l.
    - exists st. split; [subst l1; by apply In_app_l|done]. }
  destruct r as [err|r]; [apply spec_ret; [apply Hs2|by split]|].
  apply spec_do; [apply Hs2|]. intros e. assert (scanning ls es (l2 ++ [event (ZRemoveIfStale entry) e])) as Hs3 by (by apply scanning_stable).
  destruct e as [err|]; (apply spec_ret; [apply Hs3|]); (split; [done|]); [done|by apply counters_clear_again].
Qed.

Lemma find_spec ls es entry log :
  scanning ls es log →
  spec ok (zombie_findAttempt entry) log (λ r l, scanning ls es l ∧ ∀ attempt, r = inr attempt → found entry attempt l).
Proof.
  intros Hs. unfold zombie_findAttempt, found. destruct (IsRoot entry).
  - apply (spec_call (Ans := ZAns) ok (ZFindAttempt _)); [apply Hs|]. intros r.
    assert (scanning ls es (log ++ [event (ZFindAttempt (meta_DAGRun (pe_Meta entry))) r])) as Hs1 by (by apply scanning_stable).
    split; [apply Hs1|]. split; [done|]. intros a ->. apply In_app_last.
  - apply (spec_call (Ans := ZAns) ok (ZFindSubAttempt _ _)); [apply Hs|]. intros r.
    assert (scanning ls es (log ++ [event (ZFindSubAttempt (meta_Root (pe_Meta entry)) (pm_DAGRunID (pe_Meta entry))) r])) as Hs1 by (by apply scanning_stable).
    split; [apply Hs1|]. split; [done|]. intros a ->. apply In_app_last.
Qed.

Lemma checkAndCleanZombie_spec ls es seen rest entry z log :
  es = seen ++ entry :: rest → scanning ls es log → counters_ok ls seen z →
  spec ok (checkAndCleanZombie failureThreshold entry (freshByRunScope es) z) log (scan_post ls es (seen ++ [entry])).
Proof.
  intros Hes Hs Hz. unfold checkAndCleanZombie. destruct (pe_Fresh entry) eqn:Hf.
  { apply spec_ret; [apply Hs|]. split; [done|]. by apply counters_clear. }
  destruct (fresh_sibling _ entry) eqn:Hsib; [by apply clear_and_remove_spec|]. apply no_sibling in Hsib.
  set (z1 := <[AttemptKey entry := _]> z). assert (counters_ok ls (seen ++ [entry]) z1) as Hz1 by (by apply counters_incr).
  destruct (_ <? failureThreshold) eqn:Ht; [apply spec_ret; [apply Hs|by split]|]. breflect.
  assert (∀ l, scanning ls es l → spec ok (clear_and_remove entry z1) l (scan_post ls es (seen ++ [entry]))) as Hclear.
  { intros l Hl. apply spec_do; [apply Hl|]. intros r. assert (scanning ls es (l ++ [event (ZRemoveIfStale entry) r])) as Hl1
      by (by apply scanning_stable). apply spec_ret; [apply Hl1|]. split; [done|]. by apply counters_clear_again. }
  unfold confirm_zombie. apply spec_bind. eapply spec_mono; [by apply (find_spec ls es)|done|]. intros a l1 _ [Hs1 Ha].
  destruct a as [err|attempt].
  { unfold cleanupOrphanedStaleEntry. destruct (_ && _ && _); [apply spec_ret; [apply Hs1|by split]|by apply Hclear]. }
  apply spec_do; [apply Hs1|]. intros s. set (l2 := l1 ++ _). assert (scanning ls es l2) as Hs2 by (by apply scanning_stable).
  destruct s as [err|st]; [apply spec_ret; [apply Hs2|by split]|].
  case_bool_decide as Hid; [|by apply Hclear]. case_bool_decide as Hrun; [|by apply Hclear]. cbv [negb orb].
  destruct (is_remote_worker (rs_WorkerID st)) eqn:Hw; [by apply Hclear|].
  apply (repair_spec ls es seen rest); [done..| |].
  - specialize (Ha attempt eq_refl). unfold found in *. subst l2. destruct (IsRoot entry); by apply In_app_l.
  - exists st. split_and!; [apply In_app_last|done..].
Qed.

Lemma check_entries_spec ls es : ∀ seen rest z log,
  es = seen ++ rest → scanning ls es log → counters_ok ls seen z →
  spec ok (check_entries failureThreshold rest (freshByRunScope es) z) log (λ '(stop, z') l,
    scanning ls es l ∧ (stop = false → counters_ok ls es z')).
Proof.
  intros seen rest. revert seen. induction rest as [|entry rest IH]; intros seen z log Hes Hs Hz.
  { rewrite app_nil_r in Hes. subst seen. apply spec_ret; [apply Hs|by split]. }
  cbn [check_entries]. apply spec_do; [apply Hs|]. intros stop.
  assert (scanning ls es (log ++ [event ZDone stop])) as Hs1 by (by apply scanning_stable).
  destruct stop; [apply spec_ret; [apply Hs1|by split]|]. apply spec_bind.
  eapply spec_mono; [by eapply (checkAndCleanZombie_spec ls es seen rest)|done|]. intros [err z2] l2 _ [Hs2 Hz2].
  apply (IH (seen ++ [entry])); [by rewrite <-app_assoc|done|done].
Qed.

Definition between (z : Counters) (log : ZLog) : Prop := ok log ∧ counters_bounded (listings log) z.

Lemma detect_spec z log :
  between z log → spec ok (detectAndCleanZombies failureThreshold z) log (λ '(stop, z') l, stop = false → between z' l).
Proof.
  intros [HJ Hz]. unfold detectAndCleanZombies. apply spec_do; [done|]. intros r. set (l1 := log ++ _).
  assert (ok l1) as HJ1 by (apply guarded_app; [done|]; intros x Hx; done).
  destruct r as [err|es]; [apply spec_ret; [done|]; intros _; split; [done|]; subst l1; rewrite listings_app; done|].
  assert (scanning (listings log) es l1) as Hs1 by (split; [done|]; subst l1; by rewrite listings_app).
  apply spec_bind. eapply spec_mono; [by apply (check_entries_spec (listings log) es []), counters_start|done|].
  intros [[] z2] l2 HJ2 [Hs2 Hz2]; (apply spec_ret; [done|]); [done|]. intros _. split; [done|].
  rewrite (proj2 Hs2). apply counters_end. by apply Hz2.
Qed.

Lemma scans_spec n : ∀ z log, between z log → spec ok (scans failureThreshold n z) log (λ _ _, True).
Proof.
  induction n as [|n IH]; intros z log Hz; [apply spec_ret; [apply Hz|done]|]. cbn [scans]. apply spec_bind.
  eapply spec_mono; [by apply detect_spec|done|]. intros [[] z2] l2 HJ2 Hz2; [by apply spec_ret|]. by apply IH, Hz2.
Qed.
End Laws.

(** ** Claims *)

(** C12. Repairs of zombies.  In any number of scans with any answers of the stores, a
    run is repaired only for a stale entry of the last listing: its attempt was seen
    stale at least [failureThreshold] times in an unbroken row of listings (two stale
    entries of the attempt in one listing count twice), its persisted status is of this
    attempt, running, and not on a remote worker, and no other attempt of the run has
    taken over: another attempt has a fresh entry in the listing only if this attempt
    has a fresh entry too, at least as recent by start and heartbeat. *)
Theorem zombie_repairs_guarded env failureThreshold n :
  guarded repair_of (repair_ok failureThreshold) (exec env (scans failureThreshold n ∅) []).2.
Proof.
  assert (between failureThreshold ∅ []) as Hb.
  { split; [apply guarded_nil|]. intros k c Hk. done. }
  apply (spec_exec env _ _ _ _ (scans_spec failureThreshold n ∅ [] Hb)).
Qed.
