(* ===== verification/RetryScan.v ===== *)
(** * The retry scanner (service/scheduler/retry_scanner.go)

    Every 30 seconds the scanner lists the runs that failed in its window and enqueues
    a retry of each whose policy allows one and whose delay has passed.  A status
    written by this version carries the policy; for an older one the snapshot of the
    DAG is read.  The stores are an environment ([Prog]); [EnqueueRetry] itself is in
    [RunLife]. *)

From stdpp Require Import base strings list.
From Stdlib Require Import ZArith QArith Lia.
From S2P Require Import Prelude Status Step RunStatus SchedulerData FileSys RunLife RunExamples Prog Backoff QueueProc QueueProcLaws.

Open Scope prog_scope.
Open Scope Z_scope.

Inductive RCall :=
  | RClock
  | RListStatuses (status : Status) (from : Time)
  | RIsSuspended (flag : string)
  | RFindAttempt (run : DAGRunRef)
  | RReadStatus (a : AttemptRef)
  | RReadDAG (a : AttemptRef)
  | REnqueueRetry (dag : option DAG) (status : DAGRunStatus).   (* with AutoRetry *)

Definition RAns (c : RCall) : Type :=
  match c with
  | RClock => Time
  | RListStatuses _ _ => Error + list (option DAGRunStatus)
  | RIsSuspended _ => bool
  | RFindAttempt _ => Error + AttemptRef
  | RReadStatus _ => Error + DAGRunStatus
  | RReadDAG _ => Error + DAG
  | REnqueueRetry _ _ => option Error
  end%type.

Abbreviation RProg A := (Prog RAns A).
Abbreviation RLog := (list (Event RAns)).
Definition rcall (c : RCall) : RProg (RAns c) := call c.

Record dagRetryMetadata := mkRetryMetadata {
  rm_limit : Z;
  rm_interval : Duration;
  rm_backoff : Q;
  rm_maxInterval : Duration;
}.

Definition retryMetadataFromStatus (st : DAGRunStatus) : option dagRetryMetadata :=
  if bool_decide (rs_ProcGroup st = "") then None
  else Some (mkRetryMetadata (rs_AutoRetryLimit st) (rs_AutoRetryInterval st) (rs_AutoRetryBackoff st)
               (rs_AutoRetryMaxInterval st)).

Definition retryMetadataFromDAG (dag : DAG) : option dagRetryMetadata :=
  match dag_RetryPolicy dag with
  | None => None
  | Some rp => Some (mkRetryMetadata (drp_Limit rp) (drp_Interval rp) (drp_Backoff rp) (drp_MaxInterval rp))
  end.

Inductive SkipReason := RetryPolicyMissing | RetryExhausted | MissingReferenceTime | BackoffNotElapsed.

(** [None] is the decision to enqueue. *)
Record retryDecision := mkDecision { rd_skip : option SkipReason; rd_computedDelay : Duration; rd_nextRetryAt : Time }.

Definition retryScanInterval : Duration := 30 * Second.

Section Scanner.
Context `{Float64} `{TimeText} (retryWindow : Duration).

Definition parseRFC3339 (val : string) : option Time :=
  if bool_decide (val = "") then None else parseTimeRFC3339 val.

Definition retryReferenceTime (st : DAGRunStatus) : option Time :=
  match parseRFC3339 (rs_FinishedAt st) with
  | Some t => Some t
  | None =>
      if 0 <? rs_CreatedAt st then Some (UnixMilli (rs_CreatedAt st))
      else parseRFC3339 (rs_StartedAt st)
  end.

Definition dagRetryDelay := CalculateBackoffInterval.

Definition evaluateRetryDecision (st : DAGRunStatus) (metadata : dagRetryMetadata) (now : Time) : retryDecision :=
  if rm_limit metadata <=? 0 then mkDecision (Some RetryPolicyMissing) 0 0
  else if rm_limit metadata <=? rs_AutoRetryCount st then mkDecision (Some RetryExhausted) 0 0
  else
    match retryReferenceTime st with
    | None => mkDecision (Some MissingReferenceTime) 0 0
    | Some referenceTime =>
        let delay := dagRetryDelay (rm_interval metadata) (rm_backoff metadata) (rm_maxInterval metadata) (rs_AutoRetryCount st) in
        let nextRetryAt := AddD referenceTime delay in
        if Before now nextRetryAt then mkDecision (Some BackoffNotElapsed) delay nextRetryAt
        else mkDecision None delay nextRetryAt
    end.

Definition rsuspended (st : DAGRunStatus) (dag : option DAG) : RProg bool :=
  let flag := suspendFlagName (Some st) dag in
  if bool_decide (flag = "") then Ret false else rcall (RIsSuspended flag).

(** The end of both ways: the decision, and the retry; a stale status is no error. *)
Definition decide_and_enqueue (st : DAGRunStatus) (dag : option DAG) (metadata : dagRetryMetadata) (now : Time)
    : RProg (option Error) :=
  match rd_skip (evaluateRetryDecision st metadata now) with
  | Some _ => Ret None
  | None =>
      do* r := rcall (REnqueueRetry dag st) in
      match r with
      | Some err => if Is err (Sys ErrRetryStaleLatest) then Ret None else Ret (Some err)
      | None => Ret None
      end
  end.

Definition processFailedRunFromSummary (listed : DAGRunStatus) (metadata : dagRetryMetadata) (now : Time)
    : RProg (option Error) :=
  if negb (Zero (rs_Parent listed)) then Ret None
  else
    do* s := rsuspended listed None in
    if s then Ret None else decide_and_enqueue listed None metadata now.

Definition processFailedRunLegacy (listed : DAGRunStatus) (now : Time) : RProg (option Error) :=
  do* a := rcall (RFindAttempt (status_DAGRun listed)) in
  match a with
  | inl err => Ret (Some err)
  | inr attempt =>
      do* s := rcall (RReadStatus attempt) in
      match s with
      | inl err => Ret (Some err)
      | inr latest =>
          if negb (bool_decide (rs_AttemptID latest = rs_AttemptID listed)) || negb (bool_decide (rs_Status latest = Failed))
          then Ret None
          else if negb (Zero (rs_Parent latest)) then Ret None
          else
            do* d := rcall (RReadDAG attempt) in
            match d with
            | inl err => Ret (Some err)
            | inr dag =>
                do* s := rsuspended latest (Some dag) in
                if s then Ret None
                else
                  match retryMetadataFromDAG dag with
                  | None => Ret None
                  | Some metadata => decide_and_enqueue latest (Some dag) metadata now
                  end
            end
      end
  end.

Definition processFailedRun (listed : DAGRunStatus) (now : Time) : RProg (option Error) :=
  match retryMetadataFromStatus listed with
  | Some metadata => processFailedRunFromSummary listed metadata now
  | None => processFailedRunLegacy listed now
  end.

(** An error of one run does not stop the scan. *)
Definition scan_runs (failedRuns : list (option DAGRunStatus)) (now : Time) : RProg unit :=
  peach (λ _ listed, match listed with
                     | None => Ret tt
                     | Some st => do* _ := processFailedRun st now in Ret tt
                     end) tt failedRuns.

Definition scan : RProg (option Error) :=
  do* now := rcall RClock in
  do* l := rcall (RListStatuses Failed (AddD now (- retryWindow))) in
  match l with
  | inl err => Ret (Some err)
  | inr failedRuns => do* _ := scan_runs failedRuns now in Ret None
  end.

(** ** When a retry is due *)
Definition due (st : DAGRunStatus) (metadata : dagRetryMetadata) (now : Time) : Prop :=
  0 < rm_limit metadata ∧ rs_AutoRetryCount st < rm_limit metadata ∧ Zero (rs_Parent st) = true ∧
  ∃ t, retryReferenceTime st = Some t ∧
    t + dagRetryDelay (rm_interval metadata) (rm_backoff metadata) (rm_maxInterval metadata) (rs_AutoRetryCount st) <= now.

Lemma evaluate_due st metadata now :
  Zero (rs_Parent st) = true → rd_skip (evaluateRetryDecision st metadata now) = None ↔ due st metadata now.
Proof.
  intros Hp. unfold evaluateRetryDecision, due. destruct (rm_limit metadata <=? 0) eqn:E1; breflect; [split; [done|lia]|].
  destruct (rm_limit metadata <=? rs_AutoRetryCount st) eqn:E2; breflect; [split; [done|lia]|].
  destruct (retryReferenceTime st) as [t|]; [|split; [done|by intros (_ & _ & _ & ? & ? & _)]].
  unfold Before, AddD. destruct (now <? _) eqn:E3; breflect; simpl.
  - split; [done|]. intros (_ & _ & _ & t' & [= <-] & ?). lia.
  - split; [|done]. intros _. split_and!; [lia..|done|]. exists t. split; [done|lia].
Qed.
End Scanner.

(** ** The retry scanner: laws *)

Definition enqueue_of (ev : Event RAns) : option (option DAG * DAGRunStatus) :=
  match projT1 ev with REnqueueRetry dag st => Some (dag, st) | _ => None end.

Definition not_suspended (st : DAGRunStatus) (dag : option DAG) (log : RLog) : Prop :=
  suspendFlagName (Some st) dag ≠ "" → event (RIsSuspended (suspendFlagName (Some st) dag)) false ∈ log.

Section Laws.
Context `{Float64} `{TimeText} (retryWindow : Duration).

(** The status a retry is made from: the one that was listed, or the one that was read
    for it. *)
Definition listed_status (now : Time) (runs : list (option DAGRunStatus)) (dag : option DAG) (st : DAGRunStatus) (log : RLog) : Prop :=
  (dag = None ∧ Some st ∈ runs ∧ ∃ m, retryMetadataFromStatus st = Some m ∧ due st m now) ∨
  (∃ d listed attempt m, dag = Some d ∧ Some listed ∈ runs ∧ retryMetadataFromStatus listed = None ∧
     event (RFindAttempt (status_DAGRun listed)) (inr attempt) ∈ log ∧ event (RReadStatus attempt) (inr st) ∈ log ∧
     rs_AttemptID st = rs_AttemptID listed ∧ rs_Status st = Failed ∧ event (RReadDAG attempt) (inr d) ∈ log ∧
     retryMetadataFromDAG d = Some m ∧ due st m now).

Definition enqueue_ok (x : option DAG * DAGRunStatus) (log : RLog) : Prop :=
  let '(dag, st) := x in
  ∃ now runs, event RClock now ∈ log ∧ event (RListStatuses Failed (AddD now (- retryWindow))) (inr runs) ∈ log ∧
    listed_status now runs dag st log ∧ not_suspended st dag log.

Abbreviation ok := (guarded enqueue_of enqueue_ok).

(** In a scan at [now] of [runs]. *)
Definition in_scan (now : Time) (runs : list (option DAGRunStatus)) (log : RLog) : Prop :=
  ok log ∧ event RClock now ∈ log ∧ event (RListStatuses Failed (AddD now (- retryWindow))) (inr runs) ∈ log.

Definition rplain (c : RCall) : Prop := match c with REnqueueRetry _ _ => False | _ => True end.

Lemma in_scan_stable now runs : stable rplain (in_scan now runs).
Proof.
  intros log c x Hc (HJ & H1 & H2). split_and!; [apply guarded_app; [done|]; by destruct c|by apply In_app_l..].
Qed.

(** A listed run with a policy of its own that is due, and what came of it. *)
Definition handled (now : Time) (st : DAGRunStatus) (log : RLog) : Prop :=
  ∀ m, retryMetadataFromStatus st = Some m → due st m now →
    (∃ r, event (REnqueueRetry None st) r ∈ log) ∨ event (RIsSuspended (suspendFlagName (Some st) None)) true ∈ log.

Lemma handled_grows now st log l : handled now st log → handled now st (log ++ l).
Proof.
  intros Hh m Hm Hd. destruct (Hh m Hm Hd) as [[r Hr]|Hs]; [left; exists r|right]; by apply In_app_l.
Qed.

Lemma decide_spec now runs st dag m log :
  in_scan now runs log → Zero (rs_Parent st) = true →
  (due st m now → listed_status now runs dag st log) → not_suspended st dag log →
  spec ok (decide_and_enqueue st dag m now) log (λ _ l, in_scan now runs l ∧ (∃ k, l = log ++ k) ∧
    (due st m now → ∃ r, event (REnqueueRetry dag st) r ∈ l)).
Proof.
  intros Hs Hp Hl Hn. unfold decide_and_enqueue. pose proof (evaluate_due st m now Hp) as Hdue.
  destruct (rd_skip _) as [reason|].
  { apply spec_ret; [apply Hs|]. split_and!; [done|by exists []; rewrite app_nil_r|]. by intros Hd%Hdue. }
  assert (due st m now) as Hd by (by apply Hdue). apply spec_do; [apply Hs|]. intros r. set (l1 := log ++ _).
  assert (in_scan now runs l1) as Hs1.
  { destruct Hs as (HJ & H1 & H2). split_and!; [|by apply In_app_l..]. apply guarded_app; [done|]. intros x [= <-].
    exists now, runs. by split_and!; [| |apply Hl|]. }
  assert (in_scan now runs l1 ∧ (∃ k, l1 = log ++ k) ∧ (due st m now → ∃ r, event (REnqueueRetry dag st) r ∈ l1)) as Hpost.
  { split_and!; [done|by eexists|]. intros _. exists r. apply In_app_last. }
  destruct r as [err|]; [destruct (Is err _)|]; (apply spec_ret; [apply Hs1|done]).
Qed.

Lemma rsuspended_spec now runs st dag log :
  in_scan now runs log →
  spec ok (rsuspended st dag) log (λ b l, in_scan now runs l ∧ (∃ k, l = log ++ k) ∧
    if b then event (RIsSuspended (suspendFlagName (Some st) dag)) true ∈ l else not_suspended st dag l).
Proof.
  intros Hs. unfold rsuspended, not_suspended. case_bool_decide.
  { apply spec_ret; [apply Hs|]. split_and!; [done|by exists []; rewrite app_nil_r|done]. }
  apply (spec_call (Ans := RAns) ok (RIsSuspended _)); [apply Hs|]. intros b. set (l1 := log ++ _).
  assert (in_scan now runs l1) as Hs1 by (by apply in_scan_stable). split; [apply Hs1|].
  split_and!; [done|by eexists|]. destruct b; [|intros _]; apply In_app_last.
Qed.

Lemma legacy_spec now runs listed log :
  in_scan now runs log → Some listed ∈ runs → retryMetadataFromStatus listed = None →
  spec ok (processFailedRunLegacy listed now) log (λ _ l, in_scan now runs l ∧ ∃ k, l = log ++ k).
Proof.
  intros Hs Hin Hm. unfold processFailedRunLegacy. apply spec_do; [apply Hs|]. intros a. set (l1 := log ++ _).
  assert (in_scan now runs l1) as Hs1 by (by apply in_scan_stable).
  assert (∃ k, l1 = log ++ k) as E1 by (by eexists). destruct a as [err|attempt]; [apply spec_ret; [apply Hs1|done]|].
  apply spec_do; [apply Hs1|]. intros s. set (l2 := l1 ++ _). assert (in_scan now runs l2) as Hs2 by (by apply in_scan_stable).
  assert (∃ k, l2 = log ++ k) as E2 by (subst l1 l2; rewrite <-app_assoc; by eexists).
  destruct s as [err|st]; [apply spec_ret; [apply Hs2|done]|].
  case_bool_decide as Hid; [|apply spec_ret; [apply Hs2|done]]. case_bool_decide as Hf; [|apply spec_ret; [apply Hs2|done]].
  cbv [negb orb]. destruct (Zero (rs_Parent st)) eqn:Hp; [|apply spec_ret; [apply Hs2|done]].
  apply spec_do; [apply Hs2|]. intros d. set (l3 := l2 ++ _). assert (in_scan now runs l3) as Hs3 by (by apply in_scan_stable).
  assert (∃ k, l3 = log ++ k) as E3 by (subst l1 l2 l3; rewrite <-!app_assoc; by eexists).
  destruct d as [err|dag]; [apply spec_ret; [apply Hs3|done]|].
  apply spec_bind. eapply spec_mono; [by apply rsuspended_spec|done|]. intros b l4 HJ4 (Hs4 & [k4 ->] & Hb).
  assert (∃ k, l3 ++ k4 = log ++ k) as E4 by (destruct E3 as [k ->]; rewrite <-app_assoc; by eexists).
  destruct b; [by apply spec_ret|]. destruct (retryMetadataFromDAG dag) as [m|] eqn:Em; [|by apply spec_ret].
  eapply spec_mono; [eapply (decide_spec now runs st (Some dag) m); [done|done| |done]|done|].
  - intros Hd. right. exists dag, listed, attempt, m.
    split_and!; [done|done|done|subst l1 l2 l3; in_log|subst l1 l2 l3; in_log|done|done|subst l1 l2 l3; in_log|done|done].
  - intros r l5 _ (Hs5 & [k5 ->] & _). split; [done|]. destruct E4 as [k ->]. rewrite <-app_assoc. by eexists.
Qed.

Lemma processFailedRun_spec now runs listed log :
  in_scan now runs log → Some listed ∈ runs →
  spec ok (processFailedRun listed now) log (λ _ l, in_scan now runs l ∧ (∃ k, l = log ++ k) ∧ handled now listed l).
Proof.
  intros Hs Hin. unfold processFailedRun. destruct (retryMetadataFromStatus listed) as [m|] eqn:Em.
  2:{ eapply spec_mono; [by eapply (legacy_spec now runs)|done|]. intros r l _ [Hs1 E1]. split_and!; [done..|].
      intros m Hm. congruence. }
  unfold processFailedRunFromSummary. destruct (Zero (rs_Parent listed)) eqn:Hp; cbv [negb].
  2:{ apply spec_ret; [apply Hs|]. split_and!; [done|by exists []; rewrite app_nil_r|]. intros m' _ (_ & _ & Hz & _). congruence. }
  apply spec_bind. eapply spec_mono; [by apply rsuspended_spec|done|]. intros b l1 HJ1 (Hs1 & [k1 ->] & Hb).
  destruct b; [apply spec_ret; [done|]; split_and!; [done|by eexists|]; intros m' _ _; by right|].
  eapply spec_mono; [eapply (decide_spec now runs listed None m); [done|done| |done]|done|].
  - intros Hd. left. split_and!; [done..|]. by exists m.
  - intros r l2 _ (Hs2 & [k2 ->] & Hd). split_and!; [done|rewrite <-app_assoc; by eexists|]. intros m' Hm' Hdue.
    assert (m' = m) as -> by congruence. left. by apply Hd.
Qed.

Lemma scan_runs_spec now runs : ∀ todo log,
  in_scan now runs log → (∀ x, x ∈ todo → x ∈ runs) →
  spec ok (scan_runs todo now) log (λ _ l, in_scan now runs l ∧ (∃ k, l = log ++ k) ∧
    ∀ st, Some st ∈ todo → handled now st l).
Proof.
  induction todo as [|[listed|] todo IH]; intros log Hs Hin.
  - apply spec_ret; [apply Hs|]. split_and!; [done|by exists []; rewrite app_nil_r|]. by intros st ?%not_elem_of_nil.
  - cbn [scan_runs peach]. apply spec_bind, spec_bind. eapply spec_mono; [apply processFailedRun_spec; [done|apply Hin; left]|done|].
    intros r l1 HJ1 (Hs1 & [k1 ->] & Hh). apply spec_ret; [done|].
    eapply spec_mono; [apply IH; [done|intros; apply Hin; by right]|done|]. intros [] l2 _ (Hs2 & [k2 ->] & Hall).
    split_and!; [done|rewrite <-app_assoc; by eexists|]. intros st [[= <-]|Hst]%elem_of_cons; [by apply handled_grows|by apply Hall].
  - cbn [scan_runs peach]. apply spec_bind, spec_ret; [apply Hs|].
    eapply spec_mono; [apply IH; [done|intros; apply Hin; by right]|done|]. intros [] l2 _ (Hs2 & E2 & Hall).
    split_and!; [done..|]. intros st [?|Hst]%elem_of_cons; [done|by apply Hall].
Qed.

(** C32. A scan for retries, whatever the stores answer: a retry is enqueued only for a
    run that was listed as failed in the window (or, for a status without a policy,
    whose latest attempt was read and is the listed one, still failed), is not a
    sub-run, has retries left by its policy, whose delay since its end has passed,
    and whose schedule is not suspended.  When the listing succeeds, every listed
    run that carries a policy and is due is enqueued or was found suspended; an
    error of one run does not keep the others from their turn. *)
Theorem retry_scan_correct env :
  let '(r, log) := exec env (scan retryWindow) [] in
  guarded enqueue_of enqueue_ok log ∧
  (r = None → ∃ now runs, event (RListStatuses Failed (AddD now (- retryWindow))) (inr runs) ∈ log ∧
     ∀ st, Some st ∈ runs → handled now st log).
Proof.
  pose proof (λ Q, spec_exec env ok (scan retryWindow) [] Q) as HQ.
  specialize (HQ (λ r log, r = None → ∃ now runs, event (RListStatuses Failed (AddD now (- retryWindow))) (inr runs) ∈ log ∧
     ∀ st, Some st ∈ runs → handled now st log)).
  destruct (exec env (scan retryWindow) []) as [r log]. apply HQ. clear HQ.
  unfold scan. apply spec_do; [apply guarded_nil|]. intros now. set (l1 := [] ++ _).
  assert (ok l1) as HJ1 by (by apply guarded_app; [apply guarded_nil|]).
  apply spec_do; [done|]. intros l. set (l2 := l1 ++ _).
  assert (ok l2) as HJ2 by (by apply guarded_app). destruct l as [err|runs]; [by apply spec_ret|].
  apply spec_bind. eapply spec_mono; [apply (scan_runs_spec now runs runs l2); [|done]|done|].
  - split_and!; [done|subst l1 l2; in_log|subst l1 l2; in_log].
  - intros [] l3 HJ3 (Hs3 & _ & Hall). apply spec_ret; [done|]. intros _. exists now, runs. split; [apply Hs3|done].
Qed.
End Laws.

(** ** A concrete scan: a run that is due, one that has no retries left, and one that
    is too young *)
#[local] Existing Instances amd64_float.
#[local] Instance epoch_text : TimeText :=
  {| FormatRFC3339 := λ _, ""; FormatUTC := λ _, ""; parseTimeRFC3339 := λ s, if bool_decide (s = "late") then Some (1000 * Second) else Some 0 |}.

Definition failedRun (id finishedAt : string) (retries : Z) : DAGRunStatus :=
  {| DAGRunStatus_zero with rs_Name := "etl"; rs_DAGRunID := id; rs_AttemptID := id; rs_Status := Failed; rs_ProcGroup := "q";
     rs_FinishedAt := finishedAt; rs_AutoRetryCount := retries; rs_AutoRetryLimit := 2; rs_AutoRetryInterval := 60 * Second |}.

Definition scanEnv0 : Env RAns := λ c _,
  match c as c' return RAns c' with
  | RClock => 1010 * Second
  | RListStatuses _ _ => inr [Some (failedRun "a" "early" 0); None; Some (failedRun "b" "early" 2); Some (failedRun "c" "late" 1);
                              Some (failedRun "d" "early" 1)]
  | RIsSuspended _ => false
  | RFindAttempt _ => inl [Sys ErrDAGRunIDNotFound]
  | RReadStatus _ => inl []
  | RReadDAG _ => inl []
  | REnqueueRetry _ st => if bool_decide (rs_DAGRunID st = "a") then Some [OtherError "disk"] else None
  end.

Example scan_enqueues :
  omap (λ ev, option_map (λ x, rs_DAGRunID x.2) (enqueue_of ev)) (exec scanEnv0 (scan (86400 * Second)) []).2 = ["a"; "d"]%string.
Proof. vm_compute. reflexivity. Qed.
