(* ===== verification/Transform.v ===== *)
(** * Statuses of running plans (runtime/transform)

    The agent of a run turns the nodes of its plan into the nodes of a persisted
    status, and a retry turns them back.  Exit codes and parallel items are not
    persisted, times lose their fraction of a second, and an error only keeps its
    text. *)

From stdpp Require Import base strings list gmap.
From Stdlib Require Import ZArith Lia.
From S2P Require Import Prelude Status Step Exec Node RunStatus RunLife Distributed.

Open Scope Z_scope.

(** The text of an error, and [errors.New]. *)
Class ErrorText := {
  Error_text : GoError → string;
  errors_New : string → GoError;
}.

Section Transform.
Context `{Float64} `{TimeText} `{ErrorText} (parseLegacyTime : string → option Time).

(** [stringutil.ParseTime]; an error comes with the zero time. *)
Definition ParseTime (val : string) : Time :=
  if bool_decide (val = "") || bool_decide (val = "-") then 0
  else match parseTimeRFC3339 val with
       | Some t => t
       | None => default 0 (parseLegacyTime val)
       end.

(** ** node.go *)
Definition newNode (step : Step) (s : NodeState) : ExecNode := {|
  en_Step := step;
  en_Stdout := ns_Stdout s;
  en_Stderr := ns_Stderr s;
  en_StartedAt := FormatTime (ns_StartedAt s);
  en_FinishedAt := FormatTime (ns_FinishedAt s);
  en_Status := ns_Status s;
  en_RetriedAt := FormatTime (ns_RetriedAt s);
  en_RetryCount := ns_RetryCount s;
  en_DoneCount := ns_DoneCount s;
  en_Repeated := ns_Repeated s;
  en_SkippedByRetry := ns_SkippedByRetry s;
  en_Error := match ns_Error s with Some e => Error_text e | None => "" end;
  en_SubRuns := ns_SubRuns s;
  en_SubRunsRepeated := ns_SubRunsRepeated s;
  en_OutputVariables := ns_OutputVariables s;
  en_OutputValue := ns_OutputValue s;
  en_ApprovedAt := ns_ApprovedAt s;
  en_ApprovalInputs := ns_ApprovalInputs s;
  en_ApprovedBy := ns_ApprovedBy s;
  en_RejectedAt := ns_RejectedAt s;
  en_RejectedBy := ns_RejectedBy s;
  en_RejectionReason := ns_RejectionReason s;
  en_ApprovalIteration := ns_ApprovalIteration s;
  en_PushBackInputs := ns_PushBackInputs s;
  en_PushBackHistory := ClonePushBackHistory (ns_PushBackHistory s);
  en_PushBackPreviousStdout := ns_PushBackPreviousStdout s;
  en_ChatMessages := ns_ChatMessages s;
  en_ToolDefinitions := ns_ToolDefinitions s;
|}.

Definition node_state (n : ExecNode) : NodeState := {|
  ns_Status := en_Status n;
  ns_Stdout := en_Stdout n;
  ns_Stderr := en_Stderr n;
  ns_StartedAt := ParseTime (en_StartedAt n);
  ns_FinishedAt := ParseTime (en_FinishedAt n);
  ns_RetryCount := en_RetryCount n;
  ns_RetriedAt := ParseTime (en_RetriedAt n);
  ns_DoneCount := en_DoneCount n;
  ns_Repeated := en_Repeated n;
  ns_SkippedByRetry := en_SkippedByRetry n;
  ns_Error := if bool_decide (en_Error n = "") then None else Some (errors_New (en_Error n));
  ns_ExitCode := 0;
  ns_Parallel := None;
  ns_SubRuns := en_SubRuns n;
  ns_SubRunsRepeated := en_SubRunsRepeated n;
  ns_OutputVariables := en_OutputVariables n;
  ns_OutputValue := en_OutputValue n;
  ns_ChatMessages := en_ChatMessages n;
  ns_ToolDefinitions := en_ToolDefinitions n;
  ns_ApprovalInputs := en_ApprovalInputs n;
  ns_ApprovedAt := en_ApprovedAt n;
  ns_ApprovedBy := en_ApprovedBy n;
  ns_RejectedAt := en_RejectedAt n;
  ns_RejectedBy := en_RejectedBy n;
  ns_RejectionReason := en_RejectionReason n;
  ns_ApprovalIteration := en_ApprovalIteration n;
  ns_PushBackInputs := en_PushBackInputs n;
  ns_PushBackHistory := ClonePushBackHistory (en_PushBackHistory n);
  ns_PushBackPreviousStdout := en_PushBackPreviousStdout n;
|}.

Definition ToNode (n : ExecNode) : Node := NewNode (en_Step n) (node_state n).

(** ** status.go: options *)
Definition StatusOption : Type := DAGRunStatus → DAGRunStatus.

Definition WithHierarchyRefs (root parent : DAGRunRef) : StatusOption := λ s, {| s with rs_Root := root; rs_Parent := parent |}.
Definition WithNodes (nodes : list (Step * NodeState)) : StatusOption := λ s,
  {| s with rs_Nodes := map (λ '(step, st), newNode step st) nodes |}.
Definition WithAttemptID (attemptID : string) : StatusOption := λ s, {| s with rs_AttemptID := attemptID |}.
Definition WithAttemptKey (attemptKey : string) : StatusOption := λ s, {| s with rs_AttemptKey := attemptKey |}.
Definition WithQueuedAt (text : string) : StatusOption := λ s, {| s with rs_QueuedAt := text |}.
Definition WithCreatedAt (nowMilli t : Z) : StatusOption := λ s, {| s with rs_CreatedAt := if t =? 0 then nowMilli else t |}.
Definition WithScheduleTime (text : string) : StatusOption := λ s, {| s with rs_ScheduleTime := text |}.
Definition WithFinishedAt (t : Time) : StatusOption := λ s, {| s with rs_FinishedAt := FormatTime t |}.
Definition convertNodeIfPresent (n : option Node) : option ExecNode := option_map (λ n, newNode (n_Step n) (n_State n)) n.
Definition WithOnInitNode (n : option Node) : StatusOption := λ s, {| s with rs_OnInit := convertNodeIfPresent n |}.
Definition WithOnExitNode (n : option Node) : StatusOption := λ s, {| s with rs_OnExit := convertNodeIfPresent n |}.
Definition WithOnSuccessNode (n : option Node) : StatusOption := λ s, {| s with rs_OnSuccess := convertNodeIfPresent n |}.
Definition WithOnFailureNode (n : option Node) : StatusOption := λ s, {| s with rs_OnFailure := convertNodeIfPresent n |}.
Definition WithOnAbortNode (n : option Node) : StatusOption := λ s, {| s with rs_OnAbort := convertNodeIfPresent n |}.
Definition WithOnWaitNode (n : option Node) : StatusOption := λ s, {| s with rs_OnWait := convertNodeIfPresent n |}.
Definition WithLogFilePath (path : string) : StatusOption := λ s, {| s with rs_Log := path |}.
Definition WithArchiveDir (dir : string) : StatusOption := λ s, {| s with rs_ArchiveDir := dir |}.
Definition WithError (err : string) : StatusOption := λ s, {| s with rs_Error := err |}.
Definition WithPreconditions (conditions : list Condition) : StatusOption := λ s, {| s with rs_Preconditions := conditions |}.
Definition WithWorkerID (workerID : string) : StatusOption := λ s, {| s with rs_WorkerID := workerID |}.
Definition WithTriggerType (t : TriggerType) : StatusOption := λ s, {| s with rs_TriggerType := t |}.
Definition WithAutoRetryCount (n : Z) : StatusOption := λ s, {| s with rs_AutoRetryCount := n |}.
Definition WithPendingStepRetries (retries : option (list PendingStepRetry)) : StatusOption := λ s,
  {| s with rs_PendingStepRetries := retries |}.

(** A nil list of pending retries is derived from the nodes. *)
Definition derive_pending (s : DAGRunStatus) : DAGRunStatus :=
  match rs_PendingStepRetries s with
  | Some _ => s
  | None =>
      let l := PendingStepRetriesFromStatus (Some s) in
      {| s with rs_PendingStepRetries := match l with [] => None | _ => Some l end |}
  end.

(** The key of an attempt that has an identifier and no key yet. *)
Definition derive_key (s : DAGRunStatus) : DAGRunStatus :=
  if bool_decide (rs_AttemptKey s = "") && bool_decide (rs_AttemptID s ≠ "") then
    let '(rootName, rootID) :=
      if bool_decide (ref_Name (rs_Root s) = "") then (rs_Name s, rs_DAGRunID s)
      else (ref_Name (rs_Root s), ref_ID (rs_Root s)) in
    {| s with rs_AttemptKey := GenerateAttemptKey rootName rootID (rs_Name s) (rs_DAGRunID s) (rs_AttemptID s) |}
  else s.

Lemma derive_pending_keeps s : ∃ l, derive_pending s = {| s with rs_PendingStepRetries := l |}.
Proof. unfold derive_pending. destruct s as []; cbn. destruct rs_PendingStepRetries; by eexists. Qed.

Lemma derive_key_keeps s : ∃ k, derive_key s = {| s with rs_AttemptKey := k |}.
Proof.
  unfold derive_key. destruct s as []; cbn. destruct (_ && _); [|by eexists]. destruct (bool_decide _); by eexists.
Qed.

(** What [Create] derives touches two fields only. *)
Lemma derive_keeps {A} (f : DAGRunStatus → A) s :
  (∀ s l, f {| s with rs_PendingStepRetries := l |} = f s) → (∀ s k, f {| s with rs_AttemptKey := k |} = f s) →
  f (derive_key (derive_pending s)) = f s.
Proof.
  intros Hl Hk. destruct (derive_key_keeps (derive_pending s)) as [k ->]. rewrite Hk.
  destruct (derive_pending_keeps s) as [l ->]. apply Hl.
Qed.

(** The status after the options. *)
Definition apply_options (dag : DAG) (nowMilli : Z) (dagRunID : string) (status : Status) (pid : Z) (startedAt : Time)
    (opts : list StatusOption) : DAGRunStatus :=
  let s0 := InitialStatus dag nowMilli in
  let s1 := {| s0 with rs_DAGRunID := dagRunID; rs_Status := status; rs_PID := pid; rs_StartedAt := FormatTime startedAt;
                       rs_CreatedAt := nowMilli |} in
  foldl (λ s opt, opt s) s1 opts.

Definition Create (dag : DAG) (nowMilli : Z) (dagRunID : string) (status : Status) (pid : Z) (startedAt : Time)
    (opts : list StatusOption) : DAGRunStatus :=
  derive_key (derive_pending (apply_options dag nowMilli dagRunID status pid startedAt opts)).

(** ** Laws *)

(** What the code relies on of RFC 3339, for an instant that is not the zero time nor
    in its second: the text is a proper one, reading it gives the second of the instant,
    and the second has the same text. *)
Definition text_laws (t : Time) : Prop :=
  t ≠ 0 →
  Truncate t Second ≠ 0 ∧ FormatRFC3339 t ≠ "" ∧ FormatRFC3339 t ≠ "-" ∧
  parseTimeRFC3339 (FormatRFC3339 t) = Some (Truncate t Second) ∧ FormatRFC3339 (Truncate t Second) = FormatRFC3339 t.

Lemma ParseTime_FormatTime t : text_laws t → ParseTime (FormatTime t) = Truncate t Second.
Proof.
  unfold text_laws, ParseTime, FormatTime, IsZero. destruct (Z.eqb_spec t 0) as [->|Hz]; [done|].
  intros (_ & T1 & T2 & T3 & _); [done|]. rewrite !bool_decide_false by done. simpl. by rewrite T3.
Qed.

Lemma FormatTime_second t : text_laws t → FormatTime (Truncate t Second) = FormatTime t.
Proof.
  unfold text_laws, FormatTime, IsZero. destruct (Z.eqb_spec t 0) as [->|Hz]; [done|].
  intros (T0 & _ & _ & _ & T4); [done|]. by destruct (Z.eqb_spec (Truncate t Second) 0).
Qed.

Lemma Clone_twice l : ClonePushBackHistory (ClonePushBackHistory l) = ClonePushBackHistory l.
Proof. unfold ClonePushBackHistory. rewrite map_map. apply map_ext. by intros []. Qed.

(** What a state keeps of itself. *)
Definition persisted (s : NodeState) : NodeState :=
  {| s with
     ns_StartedAt := Truncate (ns_StartedAt s) Second;
     ns_FinishedAt := Truncate (ns_FinishedAt s) Second;
     ns_RetriedAt := Truncate (ns_RetriedAt s) Second;
     ns_Error := match ns_Error s with
                 | Some e => if bool_decide (Error_text e = "") then None else Some (errors_New (Error_text e))
                 | None => None
                 end;
     ns_ExitCode := 0;
     ns_Parallel := None;
     ns_PushBackHistory := ClonePushBackHistory (ns_PushBackHistory s) |}.

(** C33. Saving and restoring a node: everything of its state comes back but the exit
    code and the parallel items, which are reset; times are cut to their second, and
    an error comes back as a new one with the same text.  Saving what was restored
    gives the same persisted node: no retry can change it further. *)
Theorem node_persistence_roundtrip step s :
  text_laws (ns_StartedAt s) → text_laws (ns_FinishedAt s) → text_laws (ns_RetriedAt s) →
  (∀ msg, Error_text (errors_New msg) = msg) →
  n_Step (ToNode (newNode step s)) = step ∧ n_State (ToNode (newNode step s)) = persisted s ∧
  newNode step (n_State (ToNode (newNode step s))) = newNode step s.
Proof.
  intros Hs Hf Hr He.
  assert (n_State (ToNode (newNode step s)) = persisted s) as E.
  { unfold ToNode, node_state, newNode, persisted. cbn. rewrite !ParseTime_FormatTime, Clone_twice by done.
    destruct s as [? ? ? ? ? ? ? ? ? ? err]; cbn. by destruct err. }
  split; [done|]. split; [done|]. rewrite E. unfold newNode, persisted. cbn.
  rewrite !FormatTime_second, Clone_twice by done. f_equal. destruct (ns_Error s) as [e|]; [|done].
  case_bool_decide as Hx; [by rewrite Hx|]. apply He.
Qed.

(** The key of an attempt: a status that [Create] made with an attempt identifier
    and no key of its own carries the key that [AttemptKeyForStatus] computes for the
    same status without one, so leases of attempts written before the field existed
    are looked up under the same key.  The root must be given in full or not at all,
    and a run without a root must not have a parent. *)
Theorem attempt_key_agrees dag nowMilli dagRunID status pid startedAt opts fallback :
  let st := Create dag nowMilli dagRunID status pid startedAt opts in
  let raw := apply_options dag nowMilli dagRunID status pid startedAt opts in
  rs_AttemptKey raw = "" → rs_AttemptID raw ≠ "" →
  (ref_Name (rs_Root raw) = "" → rs_Root raw = zeroRef ∧ rs_Parent raw = zeroRef) →
  rs_AttemptKey st = AttemptKeyForStatus (Some {| st with rs_AttemptKey := "" |}) fallback.
Proof.
  cbv zeta. unfold Create. set (raw := apply_options _ _ _ _ _ _ _). intros Hk Hid Hroot.
  destruct (derive_pending_keeps raw) as [l ->].
  unfold derive_key. cbn. rewrite (bool_decide_true (rs_AttemptKey raw = "")), (bool_decide_true (rs_AttemptID raw ≠ "")) by done. cbn [andb].
  unfold AttemptKeyForStatus. case_bool_decide as Hn; cbn.
  - destruct (Hroot Hn) as [Hr Hp]. unfold Zero. rewrite !(bool_decide_true (rs_Root raw = zeroRef)) by done.
    rewrite (bool_decide_true (rs_Parent raw = zeroRef)) by done. cbn.
    rewrite !(bool_decide_false (rs_AttemptID raw = "")) by done. done.
  - unfold Zero. rewrite !(bool_decide_false (rs_Root raw = zeroRef)) by (intros Hz; apply Hn; by rewrite Hz). cbn.
    rewrite !(bool_decide_false (rs_AttemptID raw = "")) by done. done.
Qed.
End Transform.

(** ** Concrete statuses *)

(** Whole seconds as text, and errors that carry their message. *)
Definition seconds_text : TimeText :=
  {| FormatRFC3339 := λ t, if t / Second =? 5 then "five" else "other"; FormatUTC := λ _, "";
     parseTimeRFC3339 := λ s, if bool_decide (s = "five") then Some (5 * Second) else None |}.

Definition coded_errors : ErrorText :=
  {| Error_text := λ e, match e with ErrExec (Zpos c) _ _ => default "" (decode c) | _ => "" end;
     errors_New := λ msg, ErrExec (Zpos (encode msg)) false None |}.

#[local] Existing Instances seconds_text coded_errors amd64_float.

Definition failedState : NodeState :=
  {| NodeState_zero with ns_Status := NodeFailed; ns_StartedAt := 5 * Second + 7; ns_ExitCode := 3; ns_Error := Some (errors_New "boom") |}.

Lemma node_persistence_roundtrip_witness :
  n_State (ToNode (λ _, None) (newNode (plain_step "a" []) failedState)) = persisted failedState ∧
  ns_StartedAt (persisted failedState) = 5 * Second ∧ ns_ExitCode (persisted failedState) = 0.
Proof.
  split; [|split; reflexivity].
  apply (node_persistence_roundtrip (λ _, None) (plain_step "a" []) failedState).
  - intros _. by split_and!.
  - done.
  - done.
  - intros msg. change (default "" (decode (encode msg)) = msg). by rewrite decode_encode.
Defined.

Lemma attempt_key_agrees_witness :
  let st := Create (plain_dag "etl" "" [] [] [] 0 "") 1 "run-1" Queued 0 0 [WithAttemptID "att1"] in
  rs_AttemptKey st ≠ "" ∧ rs_AttemptKey st = AttemptKeyForStatus (Some {| st with rs_AttemptKey := "" |}) "other".
Proof.
  intros st. split; [vm_compute; done|].
  refine (attempt_key_agrees (plain_dag "etl" "" [] [] [] 0 "") 1 "run-1" Queued 0 0 [WithAttemptID "att1"] "other" _ _ _);
    [reflexivity|done|]. intros _. by split.
Defined.
