(* ===== verification/CatchupEnqueue.v ===== *)
(** * Enqueueing a catch-up run (service/scheduler/enqueue.go)

    The run is written to the history as queued and then put on the queue; a failure
    in between takes the run back.  The stores, the loader of the DAG and the paths
    are an environment ([Prog]). *)

From stdpp Require Import base strings list gmap.
From Stdlib Require Import ZArith Lia.
From S2P Require Import Prelude Status Step FileSys RunStatus RunStore RunLife Prog Backoff QueueFile QueueProc QueueProcLaws Transform.

Open Scope prog_scope.
Open Scope Z_scope.

Inductive CCall :=
  | CFindAttempt (run : DAGRunRef)
  | CRehydrateExecutionDAG (dag : DAG)
  | CGenerateLogPath (name runID : string)
  | CGenerateArtifactDir (name runID : string)
  | CNow
  | CCreateAttempt (dag : DAG) (ts : Time) (runID : string)
  | COpen (a : AttemptRef)
  | CWrite (a : AttemptRef) (st : DAGRunStatus)
  | CClose (a : AttemptRef)
  | CEnqueue (queue : string) (priority : Z) (run : DAGRunRef)
  | CRemoveDAGRun (run : DAGRunRef).

Definition CAns (c : CCall) : Type :=
  match c with
  | CFindAttempt _ => Error + AttemptRef
  | CRehydrateExecutionDAG _ => Error + option DAG
  | CGenerateLogPath _ _ | CGenerateArtifactDir _ _ => Error + string
  | CNow => Time
  | CCreateAttempt _ _ _ => Error + AttemptRef
  | COpen _ | CWrite _ _ | CClose _ => option Error
  | CEnqueue _ _ _ => option Error
  | CRemoveDAGRun _ => option Error
  end%type.

Abbreviation CProg A := (Prog CAns A).
Abbreviation CLog := (list (Event CAns)).
Definition ccall (c : CCall) : CProg (CAns c) := call c.

Section Enqueue.
Context `{Float64} `{TimeText} (artifactsEnabled : DAG → bool).

Definition catchup_status (dag : DAG) (run : DAGRunRef) (attemptID logFile artifactDir : string) (triggerType : TriggerType)
    (scheduleTime queuedAt : Time) (created : Time) : DAGRunStatus :=
  Create dag (UnixMilliOf created) (ref_ID run) Queued 0 0
    [WithLogFilePath logFile; WithArchiveDir artifactDir; WithAttemptID attemptID; WithPreconditions (dag_Preconditions dag);
     WithQueuedAt (FormatTime queuedAt); WithHierarchyRefs run zeroRef; WithTriggerType triggerType;
     WithScheduleTime (FormatTime scheduleTime)].

(** After the attempt was created: what fails is undone by the deferred function. *)
Definition write_and_enqueue (dag : DAG) (run : DAGRunRef) (a : AttemptRef) (logFile artifactDir : string)
    (triggerType : TriggerType) (scheduleTime : Time) : CProg (option Error) :=
  do* queuedAt := ccall CNow in
  do* created := ccall CNow in
  let st := catchup_status dag run (ar_ID a) logFile artifactDir triggerType scheduleTime queuedAt created in
  do* o := ccall (COpen a) in
  match o with
  | Some err => Ret (Some err)
  | None =>
      do* w := ccall (CWrite a st) in
      match w with
      | Some err => do* _ := ccall (CClose a) in Ret (Some err)
      | None =>
          do* c := ccall (CClose a) in
          match c with
          | Some err => Ret (Some err)
          | None => ccall (CEnqueue (ProcGroup dag) QueuePriorityLow run)
          end
      end
  end.

Definition rollback (run : DAGRunRef) (m : CProg (option Error)) : CProg (option Error) :=
  do* r := m in
  match r with
  | None => Ret None
  | Some err => do* _ := ccall (CRemoveDAGRun run) in Ret (Some err)
  end.

Definition artifact_dir (dag : DAG) (runID : string) : CProg (Error + string) :=
  if artifactsEnabled dag then ccall (CGenerateArtifactDir (dag_Name dag) runID) else Ret (inr "").

Definition EnqueueCatchupRun (dag : DAG) (runID : string) (triggerType : TriggerType) (scheduleTime : Time)
    : CProg (option Error) :=
  let run := mkDAGRunRef (dag_Name dag) runID in
  do* f := ccall (CFindAttempt run) in
  match f with
  | inr _ => Ret None
  | inl _ =>
      do* r := ccall (CRehydrateExecutionDAG dag) in
      match r with
      | inl err => Ret (Some err)
      | inr None => Ret (Some [OtherError "DAG is nil"])
      | inr (Some full) =>
          let dagCopy := {| full with dag_Location := "" |} in
          do* l := ccall (CGenerateLogPath (dag_Name dagCopy) runID) in
          match l with
          | inl err => Ret (Some err)
          | inr logFile =>
              do* d := artifact_dir dagCopy runID in
              match d with
              | inl err => Ret (Some err)
              | inr artifactDir =>
                  do* now := ccall CNow in
                  do* a := ccall (CCreateAttempt dagCopy now runID) in
                  match a with
                  | inl err => Ret (Some err)
                  | inr att =>
                      rollback run (write_and_enqueue dagCopy run att logFile artifactDir triggerType scheduleTime)
                  end
              end
          end
      end
  end.

(** ** Laws *)
Definition created (ev : Event CAns) : bool :=
  match ev with
  | existT c x =>
      match c as c' return CAns c' → bool with
      | CCreateAttempt _ _ _ => λ r, match r with inr _ => true | inl _ => false end
      | _ => λ _, false
      end x
  end.
Definition removed (run : DAGRunRef) (ev : Event CAns) : bool :=
  match projT1 ev with CRemoveDAGRun r => bool_decide (r = run) | _ => false end.
Definition enqueued (run : DAGRunRef) (ev : Event CAns) : bool :=
  match ev with
  | existT c x =>
      match c as c' return CAns c' → bool with
      | CEnqueue _ _ r => λ x, match x with None => bool_decide (r = run) | Some _ => false end
      | _ => λ _, false
      end x
  end.
Definition enqueue_try (ev : Event CAns) : option DAGRunRef :=
  match projT1 ev with CEnqueue _ _ run => Some run | _ => None end.

(** A run is put on the queue after its status was written as queued, and closed. *)
Definition written_first (run : DAGRunRef) (log : CLog) : Prop :=
  ∃ dag ts a st, event (CCreateAttempt dag ts (ref_ID run)) (inr a) ∈ log ∧ event (CWrite a st) None ∈ log ∧
    event (CClose a) None ∈ log ∧ rs_Status st = Queued ∧ rs_AttemptID st = ar_ID a ∧ rs_DAGRunID st = ref_ID run ∧
    rs_Root st = run.

Lemma catchup_status_fields dag run attemptID logFile artifactDir triggerType scheduleTime queuedAt t :
  let st := catchup_status dag run attemptID logFile artifactDir triggerType scheduleTime queuedAt t in
  rs_Status st = Queued ∧ rs_AttemptID st = attemptID ∧ rs_DAGRunID st = ref_ID run ∧ rs_Root st = run.
Proof. cbv zeta. unfold catchup_status, Create. by rewrite !derive_keeps. Qed.

Definition calm (c : CCall) : Prop :=
  match c with CCreateAttempt _ _ _ | CEnqueue _ _ _ | CRemoveDAGRun _ => False | _ => True end.

Abbreviation ok := (guarded enqueue_try written_first).

(** [n] attempts created, none taken back, nothing on the queue. *)
Definition pending (run : DAGRunRef) (n : nat) (log : CLog) : Prop :=
  ok log ∧ count created log = n ∧ count (removed run) log = 0%nat ∧ count (enqueued run) log = 0%nat.

Lemma pending_stable run n : stable calm (pending run n).
Proof.
  intros log c x Hc (HJ & H1 & H2 & H3).
  split_and!; [apply guarded_app; [done|]; by destruct c|rewrite count_plain; [done|by destruct c]..].
Qed.

(** How it ends: with a run on the queue, or with none. *)
Definition settled_catchup (run : DAGRunRef) (r : option Error) (log : CLog) : Prop :=
  ok log ∧
  match r with
  | None => count (removed run) log = 0%nat ∧ (count created log = 1 ∧ count (enqueued run) log = 1 ∨ count created log = 0 ∧ count (enqueued run) log = 0)%nat
  | Some _ => count (removed run) log = count created log ∧ count (enqueued run) log = 0%nat
  end.

(** The attempt exists: it is put on the queue, or an error is returned. *)
Lemma write_and_enqueue_spec dag run a logFile artifactDir triggerType scheduleTime log :
  pending run 1 log → (∃ dag' ts, event (CCreateAttempt dag' ts (ref_ID run)) (inr a) ∈ log) →
  spec ok (write_and_enqueue dag run a logFile artifactDir triggerType scheduleTime) log (λ r l,
    match r with
    | Some _ => pending run 1 l
    | None => ok l ∧ count created l = 1%nat ∧ count (removed run) l = 0%nat ∧ count (enqueued run) l = 1%nat
    end).
Proof.
  intros Hp (dag' & ts & Hc). unfold write_and_enqueue. apply spec_do; [apply Hp|]. intros queuedAt. set (l1 := log ++ _).
  assert (pending run 1 l1) as Hp1 by (by apply pending_stable).
  apply spec_do; [apply Hp1|]. intros t. cbv zeta. set (l2 := l1 ++ _). assert (pending run 1 l2) as Hp2 by (by apply pending_stable).
  set (st := catchup_status _ _ _ _ _ _ _ _ _).
  apply spec_do; [apply Hp2|]. intros o. set (l3 := l2 ++ _). assert (pending run 1 l3) as Hp3 by (by apply pending_stable).
  destruct o as [err|]; [apply spec_ret; [apply Hp3|done]|].
  apply spec_do; [apply Hp3|]. intros w. set (l4 := l3 ++ _). assert (pending run 1 l4) as Hp4 by (by apply pending_stable).
  destruct w as [err|].
  { apply spec_do; [apply Hp4|]. intros c. assert (pending run 1 (l4 ++ [event (CClose a) c])) as Hp5 by (by apply pending_stable).
    apply spec_ret; [apply Hp5|done]. }
  apply spec_do; [apply Hp4|]. intros c. set (l5 := l4 ++ _). assert (pending run 1 l5) as Hp5 by (by apply pending_stable).
  destruct c as [err|]; [apply spec_ret; [apply Hp5|done]|].
  apply (spec_call (Ans := CAns) ok (CEnqueue _ _ _)); [apply Hp5|]. intros x. destruct Hp5 as (HJ & H5 & H6 & H7).
  assert (ok (l5 ++ [event (CEnqueue (ProcGroup dag) QueuePriorityLow run) x])) as HJ6.
  { apply guarded_app; [done|]. intros y [= <-]. destruct (catchup_status_fields dag run (ar_ID a) logFile artifactDir triggerType scheduleTime queuedAt t) as (F1 & F2 & F3 & F4).
    exists dag', ts, a, st. subst l1 l2 l3 l4 l5. split_and!; [in_log..|exact F1|exact F2|exact F3|exact F4]. }
  split; [done|]. destruct x as [err|].
  - split_and!; [done|rewrite count_plain; done..].
  - split_and!; [done|by rewrite count_plain|by rewrite count_plain|]. rewrite count_one; [by rewrite H7|]. simpl. by rewrite bool_decide_true.
Qed.

Lemma catchup_spec dag runID triggerType scheduleTime :
  spec ok (EnqueueCatchupRun dag runID triggerType scheduleTime) [] (settled_catchup (mkDAGRunRef (dag_Name dag) runID)).
Proof.
  set (run := mkDAGRunRef (dag_Name dag) runID).
  assert (pending run 0 []) as Hp0 by (split_and!; [apply guarded_nil|done..]).
  assert (∀ l err, pending run 0 l → settled_catchup run (Some err) l) as Hno.
  { intros l err (HJ & H1' & H2' & H3'). split; [done|]. split; congruence. }
  unfold EnqueueCatchupRun. cbv zeta. fold run. apply spec_do; [apply Hp0|]. intros f. set (l1 := [] ++ _).
  assert (pending run 0 l1) as Hp1 by (by apply pending_stable).
  destruct f as [err|]; [|apply spec_ret; [apply Hp1|]; destruct Hp1 as (? & ? & ? & ?); split; [done|]; split; [done|by right]].
  apply spec_do; [apply Hp1|]. intros r. set (l2 := l1 ++ _). assert (pending run 0 l2) as Hp2 by (by apply pending_stable).
  destruct r as [err2|[full|]]; [apply spec_ret; [apply Hp2|by apply Hno]| |apply spec_ret; [apply Hp2|by apply Hno]].
  set (dagCopy := {| full with dag_Location := "" |}).
  apply spec_do; [apply Hp2|]. intros l. set (l3 := l2 ++ _). assert (pending run 0 l3) as Hp3 by (by apply pending_stable).
  destruct l as [err3|logFile]; [apply spec_ret; [apply Hp3|by apply Hno]|].
  apply spec_bind. eapply (spec_mono ok _ _ _ (λ _, pending run 0)); [|done|].
  { unfold artifact_dir. destruct (artifactsEnabled dagCopy); [|apply spec_ret; [apply Hp3|done]].
    apply (spec_call (Ans := CAns) ok (CGenerateArtifactDir _ _)); [apply Hp3|]. intros x.
    assert (pending run 0 (l3 ++ [event (CGenerateArtifactDir (dag_Name dagCopy) runID) x])) as Hp4 by (by apply pending_stable).
    split; [apply Hp4|done]. }
  intros d l4 _ Hp4. destruct d as [err4|artifactDir]; [apply spec_ret; [apply Hp4|by apply Hno]|].
  apply spec_do; [apply Hp4|]. intros now. set (l5 := l4 ++ _). assert (pending run 0 l5) as Hp5 by (by apply pending_stable).
  apply spec_do; [apply Hp5|]. intros a. set (l6 := l5 ++ _).
  assert (pending run (if created (event (CCreateAttempt dagCopy now runID) a) then 1 else 0) l6) as Hp6.
  { destruct Hp5 as (HJ & H5 & H6 & H7). split_and!; [by apply guarded_app| |by subst l6; rewrite count_plain|by subst l6; rewrite count_plain].
    destruct a; subst l6; [by rewrite count_plain|]. rewrite count_one; [by rewrite H5|done]. }
  destruct a as [err6|att]; [apply spec_ret; [apply Hp6|by apply Hno]|]. simpl in Hp6.
  unfold rollback. apply spec_bind. eapply spec_mono; [apply write_and_enqueue_spec; [done|exists dagCopy, now; subst l6; in_log]|done|].
  intros [err7|] l7 HJ7 H7.
  - apply spec_do; [done|]. intros x. destruct H7 as (HJ & H8 & H9 & H10).
    assert (ok (l7 ++ [event (CRemoveDAGRun run) x])) as HJ8 by (by apply guarded_app).
    apply spec_ret; [done|]. split; [done|]. split; [|by rewrite count_plain].
    rewrite count_one by (unfold removed; simpl; by rewrite bool_decide_true). rewrite count_plain by done. congruence.
  - apply spec_ret; [done|]. destruct H7 as (HJ & H8 & H9 & H10). split; [done|]. split; [done|by left].
Qed.

(** Enqueueing a catch-up run, whatever fails: nothing is done when the run exists.
    On success the run was created once, its status written as queued (for this run
    and attempt) and closed before it was put on the queue, and it was not taken back;
    on failure it is not on the queue, and an attempt that was created was taken back,
    so a later try is not blocked by it. *)
Theorem catchup_enqueue_atomic env dag runID triggerType scheduleTime :
  let run := mkDAGRunRef (dag_Name dag) runID in
  let '(r, log) := exec env (EnqueueCatchupRun dag runID triggerType scheduleTime) [] in
  settled_catchup run r log.
Proof.
  pose proof (spec_exec env _ _ _ _ (catchup_spec dag runID triggerType scheduleTime)) as [_ HQ]. cbv zeta.
  by destruct (exec env (EnqueueCatchupRun dag runID triggerType scheduleTime) []).
Qed.
End Enqueue.
