(* ===== verification/DistRepair.v ===== *)
(** * Repairing stale distributed runs (runtime/distributed_stale_run.go)

    A run that a remote worker holds is marked failed only when neither its lease nor
    the worker shows that the attempt is alive.  The stores are an environment
    ([Prog]). *)

From stdpp Require Import base strings list.
From Stdlib Require Import ZArith Lia.
From S2P Require Import Prelude Status FileSys RunStatus RunLife Distributed Prog Backoff QueueProcLaws.

Open Scope prog_scope.
Open Scope Z_scope.

(** ** Workers (core/exec/distributed.go) *)
Record RunningTask := mkRunningTask {
  tk_AttemptKey : string;
  tk_DagRunId : string;
  tk_DagName : string;
  tk_RootDagRunName : string;
  tk_RootDagRunId : string;
}.

(** [whr_RunningTasks] is [None] for a record without statistics; a nil task is [None]. *)
Record WorkerHeartbeatRecord := mkWorkerHeartbeat {
  whr_WorkerID : string;
  whr_Labels : list (string * string);
  whr_RunningTasks : option (list (option RunningTask));
  whr_LastHeartbeatAt : Z;
}.

Definition defaultStaleWorkerHeartbeatThreshold : Duration := 30 * Second.
Definition staleLeaseThresholdOrDefault (t : Duration) : Duration := if t <=? 0 then DefaultStaleLeaseThreshold else t.
Definition staleWorkerHeartbeatThresholdOrDefault (t : Duration) : Duration :=
  if t <=? 0 then defaultStaleWorkerHeartbeatThreshold else t.

Definition workerHeartbeatFresh (record : option WorkerHeartbeatRecord) (now : Time) (threshold : Duration) : bool :=
  match record with
  | None => false
  | Some r => if (whr_LastHeartbeatAt r =? 0) || (threshold <=? 0) then false
              else Sub now (milli_time (whr_LastHeartbeatAt r)) <? threshold
  end.

Definition reports (st : DAGRunStatus) (attemptKey : string) (task : option RunningTask) : bool :=
  match task with
  | None => false
  | Some t =>
      (bool_decide (tk_AttemptKey t ≠ "") && bool_decide (tk_AttemptKey t = attemptKey)) ||
      (bool_decide (tk_AttemptKey t = "") && bool_decide (tk_DagRunId t = rs_DAGRunID st) && bool_decide (tk_DagName t = rs_Name st))
  end.

Definition workerHeartbeatReportsAttempt (record : option WorkerHeartbeatRecord) (st : DAGRunStatus) (attemptKey : string) : bool :=
  match record with
  | Some r => match whr_RunningTasks r with Some tasks => existsb (reports st attemptKey) tasks | None => false end
  | None => false
  end.

Definition remoteWorkerIDForStatus (st : DAGRunStatus) (fallbackWorkerID : string) : option string :=
  if IsRemoteWorkerID (rs_WorkerID st) then Some (rs_WorkerID st)
  else if bool_decide (rs_WorkerID st ≠ "") then None
  else if negb (bool_decide (rs_Status st = Queued)) && negb (bool_decide (rs_Status st = NotStarted)) then None
  else if IsRemoteWorkerID fallbackWorkerID then Some fallbackWorkerID else None.

Definition statusEligibleForDistributedRepair (s : Status) : bool :=
  match s with Running | Queued | NotStarted => true | _ => false end.

(** ** Calls *)
Inductive DCall :=
  | DNow
  | DGetLease (attemptKey : string)
  | DGetWorker (workerID : string)
  | DCompareAndSwap (run : DAGRunRef) (attemptID : string) (expected : Status) (mutate : DAGRunStatus → DAGRunStatus).

Definition DAns (c : DCall) : Type :=
  match c with
  | DNow => Time
  | DGetLease _ => Error + option DAGRunLease
  | DGetWorker _ => Error + option WorkerHeartbeatRecord
  | DCompareAndSwap _ _ _ _ => Error + (option DAGRunStatus * bool)
  end%type.

Abbreviation DProg A := (Prog DAns A).
Abbreviation DLog := (list (Event DAns)).
Definition dcall (c : DCall) : DProg (DAns c) := call c.

Section Repair.
Context `{TimeText} (hasStores : bool) (leaseThreshold workerThreshold : Duration).

(** What the lease says: an error, alive (or another attempt's), or nothing. *)
Inductive Verdict := VError (err : Error) | VAlive | VGone.

Definition lease_verdict (st : DAGRunStatus) (attemptID : string) (now : Time) (r : Error + option DAGRunLease) : Verdict :=
  match r with
  | inr lease =>
      if LeaseMatchesStatus lease (Some st) attemptID now (staleLeaseThresholdOrDefault leaseThreshold) then VAlive
      else match lease with
           | Some _ => if negb (LeaseIdentityMatchesStatus lease (Some st) attemptID) then VAlive else VGone
           | None => VGone
           end
  | inl err => if Is err ErrDAGRunLeaseNotFound then VGone else VError err
  end.

Definition worker_verdict (st : DAGRunStatus) (attemptKey : string) (now : Time) (r : Error + option WorkerHeartbeatRecord) : Verdict :=
  match r with
  | inr record =>
      if workerHeartbeatFresh record now (staleWorkerHeartbeatThresholdOrDefault workerThreshold) then
        match record with
        | Some r => match whr_RunningTasks r with
                    | None => VAlive
                    | Some _ => if workerHeartbeatReportsAttempt record st attemptKey then VAlive else VGone
                    end
        | None => VGone
        end
      else VGone
  | inl err => if Is err ErrWorkerHeartbeatNotFound then VGone else VError err
  end.

(** The result is the status, whether it was repaired, and the error. *)
Definition RepairResult : Type := option DAGRunStatus * bool * option Error.

Definition mark_failed (st : DAGRunStatus) (attemptID workerID : string) (now : Time) : DProg RepairResult :=
  do* r := dcall (DCompareAndSwap (status_DAGRun st) attemptID (rs_Status st)
                    (λ s, markActiveStatusFailed s (DistributedLeaseExpiredReason workerID) (FormatTime now))) in
  match r with
  | inl err => Ret (None, false, Some err)
  | inr (current, true) => Ret (current, true, None)
  | inr (Some current, false) => Ret (Some current, false, None)
  | inr (None, false) => Ret (Some st, false, None)
  end.

Definition ConfirmAndRepairStaleDistributedRun (st : DAGRunStatus) (fallbackAttemptID fallbackWorkerID : string)
    : DProg RepairResult :=
  let unchanged : RepairResult := (Some st, false, None) in
  if negb hasStores then Ret unchanged
  else
    match remoteWorkerIDForStatus st fallbackWorkerID with
    | None => Ret unchanged
    | Some workerID =>
        if negb (statusEligibleForDistributedRepair (rs_Status st)) then Ret unchanged
        else
          let attemptID := if bool_decide (rs_AttemptID st = "") then fallbackAttemptID else rs_AttemptID st in
          if bool_decide (attemptID = "") then Ret unchanged
          else
            let attemptKey := AttemptKeyForStatus (Some st) attemptID in
            if bool_decide (attemptKey = "") then Ret unchanged
            else
              do* now := dcall DNow in
              do* l := dcall (DGetLease attemptKey) in
              match lease_verdict st attemptID now l with
              | VError err => Ret (Some st, false, Some err)
              | VAlive => Ret unchanged
              | VGone =>
                  do* w := dcall (DGetWorker workerID) in
                  match worker_verdict st attemptKey now w with
                  | VError err => Ret (Some st, false, Some err)
                  | VAlive => Ret unchanged
                  | VGone => mark_failed st attemptID workerID now
                  end
              end
    end.

(** ** Laws *)
Record Swap := mkSwap { sw_run : DAGRunRef; sw_attemptID : string; sw_expected : Status; sw_mutate : DAGRunStatus → DAGRunStatus }.

Definition cas_of (ev : Event DAns) : option Swap :=
  match projT1 ev with DCompareAndSwap run attemptID expected mutate => Some (mkSwap run attemptID expected mutate) | _ => None end.

(** The run was changed. *)
Definition swapped (ev : Event DAns) : bool :=
  match ev with
  | existT c x =>
      match c as c' return DAns c' → bool with
      | DCompareAndSwap _ _ _ _ => λ r, match r with inr (_, b) => b | inl _ => false end
      | _ => λ _, false
      end x
  end.

(** No sign of life from the lease. *)
Definition lease_gone (st : DAGRunStatus) (attemptID : string) (now : Time) (r : Error + option DAGRunLease) : Prop :=
  match r with
  | inl err => Is err ErrDAGRunLeaseNotFound = true
  | inr None => True
  | inr (Some lease) => IsFresh lease now (staleLeaseThresholdOrDefault leaseThreshold) = false ∧
                        LeaseIdentityMatchesStatus (Some lease) (Some st) attemptID = true
  end.

(** None from the worker: not known, silent, or heard without the attempt. *)
Definition worker_gone (st : DAGRunStatus) (attemptKey : string) (now : Time) (r : Error + option WorkerHeartbeatRecord) : Prop :=
  match r with
  | inl err => Is err ErrWorkerHeartbeatNotFound = true
  | inr record =>
      workerHeartbeatFresh record now (staleWorkerHeartbeatThresholdOrDefault workerThreshold) = true →
      (∃ r tasks, record = Some r ∧ whr_RunningTasks r = Some tasks) ∧ workerHeartbeatReportsAttempt record st attemptKey = false
  end.

Lemma lease_verdict_gone st attemptID now r : lease_verdict st attemptID now r = VGone ↔ lease_gone st attemptID now r.
Proof.
  unfold lease_verdict, lease_gone, LeaseMatchesStatus. destruct r as [err|[lease|]]; [by destruct (Is _ _)| |done].
  destruct (IsFresh lease now _); cbv [negb]; [|destruct (LeaseIdentityMatchesStatus _ _ _); naive_solver].
  destruct (LeaseIdentityMatchesStatus _ _ _); naive_solver.
Qed.

Lemma worker_verdict_gone st attemptKey now r : worker_verdict st attemptKey now r = VGone ↔ worker_gone st attemptKey now r.
Proof.
  unfold worker_verdict, worker_gone. destruct r as [err|record]; [by destruct (Is _ _)|].
  destruct (workerHeartbeatFresh record now _) eqn:Hf; [|naive_solver].
  destruct record as [r|]; [|done]. destruct (whr_RunningTasks r) as [tasks|] eqn:Ht.
  - destruct (workerHeartbeatReportsAttempt _ _ _); naive_solver.
  - split; [done|]. intros Hx. destruct (Hx eq_refl) as [(r' & tasks & [= <-] & ?) _]. congruence.
Qed.

(** The attempt that is meant: the one of the status, or the one that was given when
    the status names none. *)
Definition meant (st : DAGRunStatus) (fallbackAttemptID : string) : string :=
  if bool_decide (rs_AttemptID st = "") then fallbackAttemptID else rs_AttemptID st.

(** The change marks the run and its open nodes failed, with the reason of an expired
    lease of the worker. *)
Definition marks_failed (workerID : string) (now : Time) (mutate : DAGRunStatus → DAGRunStatus) : Prop :=
  ∀ s, mutate s = {| s with
    rs_Status := Failed;
    rs_FinishedAt := FormatTime now;
    rs_Error := DistributedLeaseExpiredReason workerID;
    rs_Nodes := map (failNode (DistributedLeaseExpiredReason workerID) (FormatTime now)) (rs_Nodes s) |}.

Definition cas_ok (st : DAGRunStatus) (fallbackAttemptID fallbackWorkerID : string) (x : Swap) (log : DLog) : Prop :=
  sw_run x = status_DAGRun st ∧ sw_attemptID x = meant st fallbackAttemptID ∧ sw_attemptID x ≠ "" ∧
  sw_expected x = rs_Status st ∧ statusEligibleForDistributedRepair (rs_Status st) = true ∧
  ∃ workerID now l w, remoteWorkerIDForStatus st fallbackWorkerID = Some workerID ∧ event DNow now ∈ log ∧
    marks_failed workerID now (sw_mutate x) ∧
    event (DGetLease (AttemptKeyForStatus (Some st) (sw_attemptID x))) l ∈ log ∧ lease_gone st (sw_attemptID x) now l ∧
    event (DGetWorker workerID) w ∈ log ∧ worker_gone st (AttemptKeyForStatus (Some st) (sw_attemptID x)) now w.

Definition repaired_iff (x : RepairResult) (log : DLog) : Prop := x.1.2 = true ↔ count swapped log = 1%nat.

Lemma repair_run_spec st fallbackAttemptID fallbackWorkerID :
  spec (guarded cas_of (cas_ok st fallbackAttemptID fallbackWorkerID))
    (ConfirmAndRepairStaleDistributedRun st fallbackAttemptID fallbackWorkerID) [] repaired_iff.
Proof.
  set (ok := guarded cas_of (cas_ok st fallbackAttemptID fallbackWorkerID)).
  assert (ok []) as H0 by apply guarded_nil.
  assert (∀ (r : option DAGRunStatus) (e : option Error) l, ok l → count swapped l = 0%nat → spec ok (Ret (r, false, e)) l repaired_iff) as Hret.
  { intros r e l Hok Hl. apply spec_ret; [done|]. unfold repaired_iff. rewrite Hl. done. }
  unfold ConfirmAndRepairStaleDistributedRun. cbv zeta. destruct (negb hasStores); [by apply Hret|].
  destruct (remoteWorkerIDForStatus st fallbackWorkerID) as [workerID|] eqn:Hw; [|by apply Hret].
  destruct (statusEligibleForDistributedRepair (rs_Status st)) eqn:He; cbv [negb]; [|by apply Hret].
  fold (meant st fallbackAttemptID). set (attemptID := meant st fallbackAttemptID).
  case_bool_decide as Hid; [by apply Hret|]. case_bool_decide as Hkey; [by apply Hret|].
  apply spec_do; [done|]. intros now. set (l1 := [] ++ _). assert (ok l1) as H1 by (by apply guarded_app).
  apply spec_do; [done|]. intros l. set (l2 := l1 ++ _). assert (ok l2) as H2 by (by apply guarded_app).
  destruct (lease_verdict st attemptID now l) eqn:Hl; [by apply Hret..|]. apply lease_verdict_gone in Hl.
  apply spec_do; [done|]. intros w. set (l3 := l2 ++ _). assert (ok l3) as H3 by (by apply guarded_app).
  destruct (worker_verdict _ _ now w) eqn:Hv; [by apply Hret..|]. apply worker_verdict_gone in Hv.
  apply spec_do; [done|]. intros r. set (l4 := l3 ++ _).
  assert (ok l4) as H4.
  { apply guarded_app; [done|]. intros x [= <-]. split_and!; [done..|].
    exists workerID, now, l, w. subst l1 l2 l3. split_and!; [done|in_log|done|in_log|done|in_log|done]. }
  assert (count swapped l3 = 0%nat) as Z3 by done.
  destruct r as [err|[current []]]; [apply Hret; [done|subst l4; by rewrite count_plain]| |].
  - assert (count swapped l4 = 1%nat) as Z4 by (subst l4; by rewrite count_one, Z3). destruct current; by apply spec_ret.
  - assert (count swapped l4 = 0%nat) as Z4 by (subst l4; by rewrite count_plain). destruct current; by apply Hret.
Qed.

End Repair.
