(* ===== verification/DispatchStore.v ===== *)
(** * The store of dispatched tasks (persis/filedistributed/dispatch_task_store.go)

    A task waits as a file in [pending]; a poller of a worker claims it by renaming
    the file into [claims], and deletes the claim when the task is acknowledged.
    Reservations that are too old are recycled: a claim is put back to [pending], a
    pending task is dropped.  Several coordinators share the directories, so the file
    system is an environment ([Prog]) in which others act between two calls; the
    mutex of the store only orders the calls of one coordinator. *)

From stdpp Require Import base strings list gmap.
From Stdlib Require Import ZArith Lia.
From S2P Require Import Prelude GoStrings RunStatus Catchup FileSys QueueName RunFiles RunStore Distributed Prog.

Open Scope prog_scope.
Open Scope Z_scope.

(** ** Data *)

Inductive Operation := OPERATION_UNSPECIFIED | OPERATION_START | OPERATION_RETRY.

#[export] Instance Operation_eq_dec : EqDecision Operation.
Proof. solve_decision. Defined.

(** What the coordinator and the store read of a [coordinatorv1.Task]; the rest
    (parameters, base configuration, ...) is a text.  A previous status is what its
    message decodes to. *)
Record Task := mkTask {
  task_Content : string;
  task_Operation : Operation;
  task_Definition : string;
  task_Target : string;
  task_DagRunId : string;
  task_ParentDagRunId : string;
  task_RootDagRunName : string;
  task_RootDagRunId : string;
  task_PreviousStatus : option (option DAGRunStatus);
  task_ScheduleTime : string;
  task_Labels : string;
  task_QueueName : string;
  task_AttemptId : string;
  task_AttemptKey : string;
  task_WorkerSelector : list (string * string);
  task_WorkerId : string;
  task_OwnerCoordinatorId : string;
  task_OwnerCoordinatorHost : string;
  task_OwnerCoordinatorPort : Z;
  task_ClaimToken : string;
}.

Definition noEndpoint : CoordinatorEndpoint := mkEndpoint "" "" 0.

Record dispatchTaskFile := mkTaskFile {
  tf_Version : Z;
  tf_Task : option Task;
  tf_TaskFileName : string;
  tf_EnqueuedAt : Z;
  tf_ClaimToken : string;
  tf_ClaimedAt : Z;
  tf_WorkerID : string;
  tf_PollerID : string;
  tf_Owner : CoordinatorEndpoint;
}.

Record DispatchTaskClaim := mkClaim {
  cl_WorkerID : string;
  cl_PollerID : string;
  cl_Labels : list (string * string);
  cl_Owner : CoordinatorEndpoint;
  cl_ClaimTimeout : Duration;
}.

Record ClaimedDispatchTask := mkClaimed {
  ct_Task : option Task;
  ct_ClaimToken : string;
  ct_ClaimedAt : Time;
  ct_WorkerID : string;
  ct_PollerID : string;
  ct_Owner : CoordinatorEndpoint;
}.

Definition dispatchTaskStoreVersion : Z := 1.
Definition normalizeDispatchReservationTTL (ttl : Duration) : Duration :=
  if ttl <=? 0 then DefaultStaleLeaseThreshold else ttl.

(** A path in one of the two directories. *)
Inductive TaskPath := Pending (name : string) | Claim (name : string).

#[export] Instance TaskPath_eq_dec : EqDecision TaskPath.
Proof. solve_decision. Defined.
#[export] Instance TaskPath_countable : Countable TaskPath.
Proof.
  refine (inj_countable' (λ p, match p with Pending n => (true, n) | Claim n => (false, n) end)
            (λ '(b, n), if (b : bool) then Pending n else Claim n) _). by intros [].
Defined.

(** ** Calls of the file system *)
Inductive FCall :=
  | FNow
  | FUuid
  | FList (claims : bool)                                  (* sortedFiles *)
  | FRead (p : TaskPath)
  | FStat (p : TaskPath)
  | FEnsureDir
  | FWrite (p : TaskPath) (r : dispatchTaskFile)           (* writeJSONAtomic *)
  | FRename (p q : TaskPath)
  | FChtimes (p : TaskPath) (t : Time)
  | FRemove (p : TaskPath).

Definition FAns (c : FCall) : Type :=
  match c with
  | FNow => Time
  | FUuid => string
  | FList _ => Err + list string
  | FRead _ => Err + dispatchTaskFile
  | FStat _ => Err + Time
  | FEnsureDir => option Err
  | FWrite _ _ => option Err
  | FRename _ _ => option Err
  | FChtimes _ _ => option Err
  | FRemove _ => option Err
  end%type.

Abbreviation FProg A := (Prog FAns A).
Abbreviation FLog := (list (Event FAns)).
Definition fcall (c : FCall) : FProg (FAns c) := call c.

(** ** Helpers *)
Definition lookup_label (labels : list (string * string)) (key : string) : string :=
  match list_find (λ kv, kv.1 = key) labels with Some (_, kv) => kv.2 | None => "" end.

Definition matchesSelector (workerLabels selector : list (string * string)) : bool :=
  forallb (λ kv, bool_decide (lookup_label workerLabels kv.1 = kv.2)) selector.

Definition max_int32 : Z := 2 ^ 31 - 1.

Definition applyTaskClaim (task : Task) (owner : CoordinatorEndpoint) (claimToken : string) : option Task :=
  if (ce_Port owner <? 0) || (max_int32 <? ce_Port owner) then None
  else Some {| task with task_OwnerCoordinatorId := ce_ID owner; task_OwnerCoordinatorHost := ce_Host owner;
                         task_OwnerCoordinatorPort := ce_Port owner; task_ClaimToken := claimToken |}.

Definition clearTaskClaim (task : Task) : Task :=
  {| task with task_OwnerCoordinatorId := ""; task_OwnerCoordinatorHost := ""; task_OwnerCoordinatorPort := 0;
               task_ClaimToken := ""; task_WorkerId := "" |}.

(** The record of a claim, and the record of a task that waits again. *)
Definition claim_record (claim : DispatchTaskClaim) (token : string) (claimedAt : Time) (task : Task) (r : dispatchTaskFile)
    : dispatchTaskFile :=
  {| r with tf_Task := Some task; tf_ClaimToken := token; tf_ClaimedAt := UnixMilliOf claimedAt;
            tf_WorkerID := cl_WorkerID claim; tf_PollerID := cl_PollerID claim; tf_Owner := cl_Owner claim |}.

Definition requeued_record (now : Time) (r : dispatchTaskFile) : dispatchTaskFile :=
  {| r with tf_Task := option_map clearTaskClaim (tf_Task r); tf_EnqueuedAt := UnixMilliOf now; tf_ClaimToken := "";
            tf_ClaimedAt := 0; tf_WorkerID := ""; tf_PollerID := ""; tf_Owner := noEndpoint |}.

(** [recordTimestamp]: the time of the record, or the modification time. *)
Definition recordTimestamp (p : TaskPath) (unixMillis : Z) : FProg (Err + Time) :=
  if 0 <? unixMillis then Ret (inr (UnixMilli unixMillis)) else fcall (FStat p).

(** [fmt.Sprintf("task_%020d_%s.json", ...)] *)
Definition taskFileName (enqueuedAt : Time) (uuid : string) : string :=
  ("task_" ++ pad 20 (UnixMilliOf enqueuedAt) ++ "_" ++ uuid ++ ".json")%string.

Section Store.
Context `{Digest} (reservationTTL : Duration).

Definition claimPath (claimToken : string) : TaskPath := Claim ("claim_" ++ sha256_hex claimToken ++ ".json")%string.

Definition dispatch_Enqueue (task : option Task) : FProg (option Err) :=
  match task with
  | None => Ret (Some EIO)
  | Some task =>
      do* t := fcall FNow in
      do* uuid := fcall FUuid in
      let fileName := taskFileName t uuid in
      fcall (FWrite (Pending fileName)
        (mkTaskFile dispatchTaskStoreVersion (Some task) fileName (UnixMilliOf t) "" 0 "" "" noEndpoint))
  end.

(** *** Recycling: a file that vanished is skipped, another error ends the operation. *)

(** One claim: put back to pending when it is too old. *)
Definition recycle_claim (now : Time) (p : TaskPath) : FProg (option Err) :=
  do* r := fcall (FRead p) in
  match r with
  | inl ENotExist => Ret None
  | inl e => Ret (Some e)
  | inr record =>
      do* ts := recordTimestamp p (tf_ClaimedAt record) in
      match ts with
      | inl ENotExist => Ret None
      | inl e => Ret (Some e)
      | inr claimedAt =>
          if Sub now claimedAt <? reservationTTL then Ret None
          else
            let record := requeued_record now record in
            do* w := fcall (FWrite p record) in
            match w with
            | Some e => Ret (Some e)
            | None =>
                do* m := fcall FEnsureDir in
                match m with
                | Some e => Ret (Some e)
                | None =>
                    do* x := fcall (FRename p (Pending (tf_TaskFileName record))) in
                    match x with
                    | Some ENotExist | None => Ret None
                    | Some e => Ret (Some e)
                    end
                end
            end
      end
  end.

Definition recycle_pending (now : Time) (p : TaskPath) : FProg (option Err) :=
  do* r := fcall (FRead p) in
  match r with
  | inl ENotExist => Ret None
  | inl e => Ret (Some e)
  | inr record =>
      do* ts := recordTimestamp p (tf_EnqueuedAt record) in
      match ts with
      | inl ENotExist => Ret None
      | inl e => Ret (Some e)
      | inr enqueuedAt =>
          if Sub now enqueuedAt <? reservationTTL then Ret None
          else
            do* x := fcall (FRemove p) in
            match x with
            | Some ENotExist | None => Ret None
            | Some e => Ret (Some e)
            end
      end
  end.

(** The loop of a recycling: it stops at an error. *)
Fixpoint recycle_all (f : TaskPath → FProg (option Err)) (l : list TaskPath) : FProg (option Err) :=
  match l with
  | [] => Ret None
  | p :: l' => do* r := f p in match r with Some e => Ret (Some e) | None => recycle_all f l' end
  end.

(** A name in the directory that was listed. *)
Definition in_dir (claims : bool) (name : string) : TaskPath := if claims then Claim name else Pending name.

Definition recycle_dir (claims : bool) (f : Time → TaskPath → FProg (option Err)) : FProg (option Err) :=
  do* l := fcall (FList claims) in
  match l with
  | inl e => Ret (Some e)
  | inr files => do* now := fcall FNow in recycle_all (f now) (map (in_dir claims) files)
  end.

Definition recycleExpiredClaims : FProg (option Err) := recycle_dir true recycle_claim.
Definition recycleExpiredPending : FProg (option Err) := recycle_dir false recycle_pending.

Definition recycleExpiredReservations : FProg (option Err) :=
  do* r := recycleExpiredClaims in
  match r with Some e => Ret (Some e) | None => recycleExpiredPending end.

(** *** Claiming *)

(** A claim that fails is renamed back, whatever that returns. *)
Definition give_back {A} (token : string) (p : TaskPath) (e : Err) : FProg (Err + A) :=
  do* _ := fcall (FRename (claimPath token) p) in Ret (inl e).

Definition finish_claim (claim : DispatchTaskClaim) (p : TaskPath) (record : dispatchTaskFile) (task : Task) (token : string)
    (claimedAt : Time) : FProg (Err + option ClaimedDispatchTask) :=
  match applyTaskClaim task (cl_Owner claim) token with
  | None => give_back token p EIO
  | Some task' =>
      do* w := fcall (FWrite (claimPath token) (claim_record claim token claimedAt task' record)) in
      match w with
      | Some e => give_back token p e
      | None =>
          Ret (inr (Some (mkClaimed (Some task') token claimedAt (cl_WorkerID claim) (cl_PollerID claim) (cl_Owner claim))))
      end
  end.

(** The claim of one pending file: [inr None] is to go on with the next. *)
Definition claim_file (claim : DispatchTaskClaim) (p : TaskPath) : FProg (Err + option ClaimedDispatchTask) :=
  do* r := fcall (FRead p) in
  match r with
  | inl ENotExist => Ret (inr None)
  | inl e => Ret (inl e)
  | inr record =>
      match tf_Task record with
      | None => Ret (inr None)
      | Some task =>
          if negb (matchesSelector (cl_Labels claim) (task_WorkerSelector task)) then Ret (inr None)
          else
            do* token := fcall FUuid in
            do* claimedAt := fcall FNow in
            do* m := fcall FEnsureDir in
            match m with
            | Some e => Ret (inl e)
            | None =>
                do* x := fcall (FRename p (claimPath token)) in
                match x with
                | Some ENotExist => Ret (inr None)
                | Some e => Ret (inl e)
                | None =>
                    do* c := fcall (FChtimes (claimPath token) claimedAt) in
                    match c with
                    | Some ENotExist | None => finish_claim claim p record task token claimedAt
                    | Some e => give_back token p e
                    end
                end
            end
      end
  end.

Fixpoint claim_loop (claim : DispatchTaskClaim) (files : list TaskPath) : FProg (Err + option ClaimedDispatchTask) :=
  match files with
  | [] => Ret (inr None)
  | p :: files' =>
      do* r := claim_file claim p in
      match r with
      | inr None => claim_loop claim files'
      | _ => Ret r
      end
  end.

Definition ClaimNext (claim : DispatchTaskClaim) : FProg (Err + option ClaimedDispatchTask) :=
  do* r := recycleExpiredReservations in
  match r with
  | Some e => Ret (inl e)
  | None =>
      do* l := fcall (FList false) in
      match l with
      | inl e => Ret (inl e)
      | inr files => claim_loop claim (map Pending files)
      end
  end.

(** *** Claims of a token; [inr None] is [ErrDispatchTaskNotFound]. *)
Definition GetClaim (claimToken : string) : FProg (Err + option ClaimedDispatchTask) :=
  do* r := fcall (FRead (claimPath claimToken)) in
  match r with
  | inl ENotExist => Ret (inr None)
  | inl e => Ret (inl e)
  | inr record =>
      match tf_Task record with
      | None => Ret (inr None)
      | Some task =>
          if bool_decide (tf_ClaimToken record = "") || negb (bool_decide (tf_ClaimToken record = claimToken)) ||
             (tf_ClaimedAt record =? 0)
          then Ret (inr None)
          else Ret (inr (Some (mkClaimed (Some task) (tf_ClaimToken record) (UnixMilli (tf_ClaimedAt record)) (tf_WorkerID record)
                                 (tf_PollerID record) (tf_Owner record))))
      end
  end.

Definition DeleteClaim (claimToken : string) : FProg (option Err) :=
  do* x := fcall (FRemove (claimPath claimToken)) in
  match x with
  | Some ENotExist | None => Ret None
  | Some e => Ret (Some e)
  end.

(** *** Counting *)
Definition snapshotOutstandingPaths : FProg (Err + list TaskPath) :=
  do* r := recycleExpiredReservations in
  match r with
  | Some e => Ret (inl e)
  | None =>
      do* a := fcall (FList false) in
      match a with
      | inl e => Ret (inl e)
      | inr pending =>
          do* b := fcall (FList true) in
          match b with
          | inl e => Ret (inl e)
          | inr claims => Ret (inr (map Pending pending ++ map Claim claims))
          end
      end
  end.

(** The records of files that have a task; a file that vanished is skipped. *)
Fixpoint read_tasks (paths : list TaskPath) : FProg (Err + list Task) :=
  match paths with
  | [] => Ret (inr [])
  | p :: paths' =>
      do* r := fcall (FRead p) in
      match r with
      | inl ENotExist => read_tasks paths'
      | inl e => Ret (inl e)
      | inr record =>
          do* rest := read_tasks paths' in
          match rest, tf_Task record with
          | inl e, _ => Ret (inl e)
          | inr l, Some t => Ret (inr (t :: l))
          | inr l, None => Ret (inr l)
          end
      end
  end.

Definition CountOutstandingByQueue (queueName : string) : FProg (Err + Z) :=
  do* s := snapshotOutstandingPaths in
  match s with
  | inl e => Ret (inl e)
  | inr paths =>
      do* l := read_tasks paths in
      match l with
      | inl e => Ret (inl e)
      | inr tasks =>
          Ret (inr (Z.of_nat (length (filter (λ t, queueName = "" ∨ task_QueueName t = queueName) tasks))))
      end
  end.

(** It stops at the first task of the attempt. *)
Fixpoint find_attempt_key (attemptKey : string) (paths : list TaskPath) : FProg (Err + bool) :=
  match paths with
  | [] => Ret (inr false)
  | p :: paths' =>
      do* r := fcall (FRead p) in
      match r with
      | inl ENotExist => find_attempt_key attemptKey paths'
      | inl e => Ret (inl e)
      | inr record =>
          match tf_Task record with
          | Some t => if bool_decide (task_AttemptKey t = attemptKey) then Ret (inr true) else find_attempt_key attemptKey paths'
          | None => find_attempt_key attemptKey paths'
          end
      end
  end.

Definition HasOutstandingAttempt (attemptKey : string) : FProg (Err + bool) :=
  if bool_decide (attemptKey = "") then Ret (inr false)
  else
    do* s := snapshotOutstandingPaths in
    match s with
    | inl e => Ret (inl e)
    | inr paths => find_attempt_key attemptKey paths
    end.
End Store.
