(* ===== verification/DispatchLaws.v ===== *)
(** * The store of dispatched tasks: laws

    Renaming is what makes a claim exclusive: on any file system that renames
    atomically, two coordinators cannot take the same pending file unless somebody put
    it back in between, and the programs of the store put a file back only for a
    reason. *)

From stdpp Require Import base strings list gmap.
From Stdlib Require Import ZArith Lia.
From S2P Require Import Prelude GoStrings RunStatus Catchup FileSys QueueName RunFiles RunStore Distributed Prog QueueProcLaws DispatchStore.

Open Scope prog_scope.
Open Scope Z_scope.

(** ** The file system *)

(** What a call that succeeded does to the files. *)
Definition apply_event (files : gmap TaskPath dispatchTaskFile) (ev : Event FAns) : gmap TaskPath dispatchTaskFile :=
  match ev with
  | existT c x =>
      match c as c' return FAns c' → gmap TaskPath dispatchTaskFile with
      | FWrite p r => λ x, match x with None => <[p := r]> files | Some _ => files end
      | FRename p q => λ x, match x with
                            | None => match files !! p with Some r => <[q := r]> (delete p files) | None => files end
                            | Some _ => files
                            end
      | FRemove p => λ x, match x with None => delete p files | Some _ => files end
      | _ => λ _, files
      end x
  end.

Definition files_of (log : FLog) : gmap TaskPath dispatchTaskFile := foldl apply_event ∅ log.

Lemma files_of_app log ev : files_of (log ++ [ev]) = apply_event (files_of log) ev.
Proof. unfold files_of. by rewrite foldl_app. Qed.

(** A successful rename away from a pending file. *)
Definition takes (n : string) (ev : Event FAns) : bool :=
  match ev with
  | existT c x =>
      match c as c' return FAns c' → bool with
      | FRename p q => λ x, match x with None => bool_decide (p = Pending n) && negb (bool_decide (q = Pending n)) | Some _ => false end
      | _ => λ _, false
      end x
  end.

(** A successful write or rename to a pending file, with what was renamed. *)
Definition puts (ev : Event FAns) : option (option TaskPath * string) :=
  match ev with
  | existT c x =>
      match c as c' return FAns c' → option (option TaskPath * string) with
      | FWrite p _ => λ x, match x, p with None, Pending n => Some (None, n) | _, _ => None end
      | FRename p q => λ x, match x, q with None, Pending n => Some (Some p, n) | _, _ => None end
      | _ => λ _, None
      end x
  end.

(** An environment that renames, reads and writes files atomically: a rename succeeds
    only for a file that is there. *)
Definition respects (env : Env FAns) : Prop :=
  ∀ p q log, env (FRename p q) log = None → is_Some (files_of log !! p).

Lemma not_put files ev n : (∀ src, puts ev ≠ Some (src, n)) → files !! Pending n = None → apply_event files ev !! Pending n = None.
Proof.
  intros Hp Hn. destruct ev as [c x]. destruct c; simpl in *; try done.
  - destruct x; [done|]. rewrite lookup_insert_ne; [done|]. intros ->. by eapply Hp.
  - destruct x; [done|]. destruct (files !! p) as [r|] eqn:Hr; [|done].
    rewrite lookup_insert_ne by (intros ->; by eapply Hp). destruct (decide (p = Pending n)) as [->|]; [apply lookup_delete_eq|].
    by rewrite lookup_delete_ne.
  - destruct x; [done|]. destruct (decide (p = Pending n)) as [->|]; [apply lookup_delete_eq|]. by rewrite lookup_delete_ne.
Qed.

Lemma taken_gone files ev n : takes n ev = true → apply_event files ev !! Pending n = None.
Proof.
  destruct ev as [c x]. destruct c; simpl; try done. destruct x; [done|]. intros [->%bool_decide_eq_true Hq%negb_true_iff%bool_decide_eq_false]%andb_prop.
  destruct (files !! Pending n) as [r|] eqn:Hr; [|done]. rewrite lookup_insert_ne by congruence. apply lookup_delete_eq.
Qed.

Lemma stays_gone n k : ∀ log, files_of log !! Pending n = None → (∀ ev src, ev ∈ k → puts ev ≠ Some (src, n)) → files_of (log ++ k) !! Pending n = None.
Proof.
  induction k as [|ev k IH]; intros log Hn Hk; [by rewrite app_nil_r|].
  rewrite (cons_middle ev), app_assoc. apply IH; [|intros; apply Hk; by right]. rewrite files_of_app. apply not_put; [|done]. intros src. apply Hk. left.
Qed.

(** Two claims of one file: somebody put it back in between. *)
Lemma taken_twice env l ts n h1 e1 h2 e2 h3 :
  respects env → (sched env l [] ts).1 = h1 ++ e1 :: h2 ++ e2 :: h3 → takes n e1 = true → takes n e2 = true →
  ∃ ev src, ev ∈ h2 ∧ puts ev = Some (src, n).
Proof.
  intros Henv Hh H1 H2. destruct (decide (List.Exists (λ ev, snd <$> puts ev = Some n) h2)) as [Hex|Hno].
  { apply Exists_exists in Hex as (ev & Hin & Hp). apply fmap_Some in Hp as ([src m] & Hp & ->). by exists ev, src. }
  exfalso. destruct (sched_answers env l [] ts) as (k & Hk & Hans). simpl in Hk. rewrite Hh in Hk. subst k.
  assert (files_of (h1 ++ e1 :: h2) !! Pending n = None) as Hgone.
  { rewrite (cons_middle e1), app_assoc. apply stays_gone; [rewrite files_of_app; by apply taken_gone|].
    intros ev src Hin Hp. apply Hno, Exists_exists. exists ev. by rewrite Hp. }
  specialize (Hans (h1 ++ e1 :: h2) e2 h3). rewrite <-app_assoc in Hans. specialize (Hans eq_refl). simpl in Hans.
  destruct e2 as [c x]. destruct c; simpl in *; try done. destruct x; [done|].
  apply andb_prop in H2 as [->%bool_decide_eq_true _]. symmetry in Hans. apply Henv in Hans. rewrite Hgone in Hans. by destruct Hans.
Qed.

(** ** All operations *)
Inductive StoreOp :=
  | OpEnqueue (task : option Task)
  | OpClaimNext (claim : DispatchTaskClaim)
  | OpGetClaim (token : string)
  | OpDeleteClaim (token : string)
  | OpCount (queueName : string)
  | OpHas (attemptKey : string).

Definition run_op `{Digest} (reservationTTL : Duration) (op : StoreOp) : FProg unit :=
  match op with
  | OpEnqueue task => do* _ := dispatch_Enqueue task in Ret tt
  | OpClaimNext claim => do* _ := ClaimNext reservationTTL claim in Ret tt
  | OpGetClaim token => do* _ := GetClaim token in Ret tt
  | OpDeleteClaim token => do* _ := DeleteClaim token in Ret tt
  | OpCount queueName => do* _ := CountOutstandingByQueue reservationTTL queueName in Ret tt
  | OpHas attemptKey => do* _ := HasOutstandingAttempt reservationTTL attemptKey in Ret tt
  end.

(** ** The programs *)
Section Programs.
Context `{Digest} (reservationTTL : Duration) (op : StoreOp).

(** The age of a record that was read, by its time or the file's. *)
Definition expired (p : TaskPath) (millis : Z) (now : Time) (log : FLog) : Prop :=
  ∃ ts, reservationTTL <= Sub now ts ∧
    (if 0 <? millis then ts = UnixMilli millis else event (FStat p) (inr ts) ∈ log).

(** The claim with the token failed: the owner has no proper port, or the time or the
    record of the claim could not be written. *)
Definition claim_failed (claim : DispatchTaskClaim) (token : string) (log : FLog) : Prop :=
  ¬ (0 <= ce_Port (cl_Owner claim) <= max_int32) ∨
  (∃ t e, event (FChtimes (claimPath token) t) (Some e) ∈ log ∧ e ≠ ENotExist) ∨
  (∃ r e, event (FWrite (claimPath token) r) (Some e) ∈ log).

(** A new file is written by an [Enqueue], under a name of its own. *)
Definition new_ok (n : string) (log : FLog) : Prop :=
  ∃ task t uuid, op = OpEnqueue (Some task) ∧ event FNow t ∈ log ∧ event FUuid uuid ∈ log ∧ n = taskFileName t uuid.

(** A claim is given back by the operation that took the file, when the claim failed. *)
Definition given_back_ok (src : TaskPath) (n : string) (log : FLog) : Prop :=
  ∃ claim token, op = OpClaimNext claim ∧ event FUuid token ∈ log ∧ src = claimPath token ∧
    event (FRename (Pending n) src) None ∈ log ∧ claim_failed claim token log.

(** A claim is put back when it was read as expired, under the name it has. *)
Definition expired_ok (src : TaskPath) (n : string) (log : FLog) : Prop :=
  ∃ c r now, src = Claim c ∧ event (FRead src) (inr r) ∈ log ∧ tf_TaskFileName r = n ∧ event FNow now ∈ log ∧
    expired src (tf_ClaimedAt r) now log.

Definition put_ok (x : option TaskPath * string) (log : FLog) : Prop :=
  match x.1 with
  | None => new_ok x.2 log
  | Some src => given_back_ok src x.2 log ∨ expired_ok src x.2 log
  end.

(** Why a pending file is removed: it was read as expired. *)
Definition removes (ev : Event FAns) : option string :=
  match projT1 ev with FRemove (Pending n) => Some n | _ => None end.
Definition remove_ok (n : string) (log : FLog) : Prop :=
  ∃ r now, event (FRead (Pending n)) (inr r) ∈ log ∧ event FNow now ∈ log ∧ expired (Pending n) (tf_EnqueuedAt r) now log.

Definition store_ok (log : FLog) : Prop := guarded puts put_ok log ∧ guarded removes remove_ok log.

Definition fplain (c : FCall) : Prop :=
  match c with
  | FWrite (Pending _) _ | FRename _ (Pending _) | FRemove (Pending _) => False
  | _ => True
  end.

Lemma store_ok_plain : stable fplain store_ok.
Proof.
  intros log c x Hc [HP HR]. split; (apply guarded_app; [done|]); intros n Hn; unfold removes in Hn;
    destruct c; simplify_eq/=; repeat case_match; by simplify_eq.
Qed.

(** A program keeps the guards after any calls of its thread. *)
Definition keeps {A} (m : FProg A) (Q : FLog → A → FLog → Prop) : Prop :=
  ∀ log, store_ok log → spec store_ok m log (λ a l, store_ok l ∧ (∃ k, l = log ++ k) ∧ Q log a l).

Lemma fstep {A} c (k : FAns c → FProg A) log Q :
  fplain c → store_ok log →
  (∀ x, store_ok (log ++ [event c x]) → spec store_ok (k x) (log ++ [event c x]) Q) →
  spec store_ok (pbind (fcall c) k) log Q.
Proof. intros Hc Hok Hk. apply spec_do; [done|]. intros x. apply Hk. by apply store_ok_plain. Qed.

Lemma put_step {A} c (k : FAns c → FProg A) log Q :
  (∀ x y, puts (event c x) = Some y → put_ok y log) → (∀ x, removes (event c x) = None) → store_ok log →
  (∀ x, store_ok (log ++ [event c x]) → spec store_ok (k x) (log ++ [event c x]) Q) →
  spec store_ok (pbind (fcall c) k) log Q.
Proof.
  intros Hp Hr [HP HR] Hk. apply spec_do; [done|]. intros x. apply Hk. split; (apply guarded_app; [done|]); intros y Hy; [by eapply Hp|].
  by rewrite Hr in Hy.
Qed.

Lemma grow {A} (log l k : list A) : (∃ k, l = log ++ k) → ∃ k', l ++ k = log ++ k'.
Proof. intros [k0 ->]. rewrite <-app_assoc. by eexists. Qed.

Lemma timestamp_spec p millis log :
  store_ok log →
  spec store_ok (recordTimestamp p millis) log (λ r l, store_ok l ∧ (∃ k, l = log ++ k) ∧
    ∀ ts, r = inr ts → if 0 <? millis then ts = UnixMilli millis else event (FStat p) (inr ts) ∈ l).
Proof.
  intros Hok. unfold recordTimestamp. destruct (0 <? millis).
  - apply spec_ret; [done|]. split_and!; [done|by exists []; rewrite app_nil_r|]. by intros ts [= <-].
  - apply (spec_call (Ans := FAns) store_ok (FStat p)); [done|]. intros x. assert (store_ok (log ++ [event (FStat p) x])) by (by apply store_ok_plain).
    split; [done|]. split_and!; [done|by eexists|]. intros ts ->. apply In_app_last.
Qed.

Lemma recycle_claim_spec now c log :
  store_ok log → event FNow now ∈ log →
  spec store_ok (recycle_claim reservationTTL now (Claim c)) log (λ _ l, store_ok l ∧ ∃ k, l = log ++ k).
Proof.
  intros Hok Hnow. unfold recycle_claim. apply fstep; [done|done|]. intros r Hok1. set (l1 := log ++ _) in *.
  assert (∃ k, l1 = log ++ k) as E1 by (by eexists).
  destruct r as [e|record]; [destruct e; by apply spec_ret|].
  apply spec_bind. eapply spec_mono; [by apply timestamp_spec|done|]. intros ts l2 _ (Hok2 & [k2 ->] & Hts).
  assert (∃ k, l1 ++ k2 = log ++ k) as E2 by (by apply grow).
  destruct ts as [e|claimedAt]; [destruct e; by apply spec_ret|].
  destruct (Sub now claimedAt <? reservationTTL) eqn:Ht; [by apply spec_ret|]. breflect. cbv zeta.
  apply fstep; [done|done|]. intros w Hok3. set (l3 := (l1 ++ k2) ++ _) in *.
  assert (∃ k, l3 = log ++ k) as E3 by (by apply grow).
  destruct w; [by apply spec_ret|]. apply fstep; [done|done|]. intros m Hok4. set (l4 := l3 ++ _) in *.
  assert (∃ k, l4 = log ++ k) as E4 by (by apply grow).
  destruct m; [by apply spec_ret|].
  apply put_step; [|done|done|].
  - intros [e|] y Hy; [done|]. injection Hy as <-. right. exists c, record, now.
    split_and!; [done|subst l4 l3 l1; in_log|done|subst l4 l3 l1; in_log|].
    exists claimedAt. split; [done|]. specialize (Hts claimedAt eq_refl). destruct (0 <? tf_ClaimedAt record); [done|].
    subst l4 l3. by do 2 apply In_app_l.
  - intros x Hok5. assert (∃ k, l4 ++ [event (FRename (Claim c) (Pending (tf_TaskFileName (requeued_record now record)))) x] = log ++ k) as E5
      by (by apply grow).
    destruct x as [e|]; [destruct e; by apply spec_ret|by apply spec_ret].
Qed.

Lemma recycle_pending_spec now n log :
  store_ok log → event FNow now ∈ log →
  spec store_ok (recycle_pending reservationTTL now (Pending n)) log (λ _ l, store_ok l ∧ ∃ k, l = log ++ k).
Proof.
  intros Hok Hnow. unfold recycle_pending. apply fstep; [done|done|]. intros r Hok1. set (l1 := log ++ _) in *.
  assert (∃ k, l1 = log ++ k) as E1 by (by eexists).
  destruct r as [e|record]; [destruct e; by apply spec_ret|].
  apply spec_bind. eapply spec_mono; [by apply timestamp_spec|done|]. intros ts l2 _ (Hok2 & [k2 ->] & Hts).
  assert (∃ k, l1 ++ k2 = log ++ k) as E2 by (by apply grow).
  destruct ts as [e|enqueuedAt]; [destruct e; by apply spec_ret|].
  destruct (Sub now enqueuedAt <? reservationTTL) eqn:Ht; [by apply spec_ret|]. breflect.
  apply spec_do; [done|]. intros x. set (l3 := (l1 ++ k2) ++ _).
  assert (store_ok l3) as Hok3.
  { destruct Hok2 as [HP HR]. split; (apply guarded_app; [done|]); [done|].
    intros y Hy. unfold removes in Hy. simpl in Hy. injection Hy as <-.
    exists record, now. split_and!; [subst l1; in_log|subst l1; in_log|]. exists enqueuedAt. split; [done|].
    specialize (Hts enqueuedAt eq_refl). by destruct (0 <? tf_EnqueuedAt record). }
  assert (∃ k, l3 = log ++ k) as E3 by (by apply grow).
  destruct x as [e|]; [destruct e; by apply spec_ret|by apply spec_ret].
Qed.

(** A program that keeps the guards. *)
Definition guards {A} (m : FProg A) : Prop :=
  ∀ log, store_ok log → spec store_ok m log (λ _ l, store_ok l ∧ ∃ k, l = log ++ k).

Lemma recycle_all_spec f l : ∀ log,
  (∀ p log', p ∈ l → store_ok log' → (∃ k, log' = log ++ k) → spec store_ok (f p) log' (λ _ l, store_ok l ∧ ∃ k, l = log' ++ k)) →
  ∀ log', store_ok log' → (∃ k, log' = log ++ k) →
  spec store_ok (recycle_all f l) log' (λ _ l', store_ok l' ∧ ∃ k, l' = log' ++ k).
Proof.
  induction l as [|p l IH]; intros log Hf log' Hok He; [apply spec_ret; [done|]; split; [done|]; exists []; by rewrite app_nil_r|].
  cbn [recycle_all]. apply spec_bind. eapply spec_mono; [apply Hf; [left|done|done]|done|]. intros r l1 _ [Hok1 [k1 ->]].
  destruct r; [by apply spec_ret; [|split; [|eexists]]|].
  eapply spec_mono; [apply (IH log)|done|].
  - intros q log2 Hq. apply Hf. by right.
  - done.
  - by apply grow.
  - intros r' l2 _ [Hok2 [k2 ->]]. split; [done|]. rewrite <-app_assoc. by eexists.
Qed.

Lemma recycle_guards : guards (recycleExpiredReservations reservationTTL).
Proof.
  assert (∀ b f, (∀ now n log, store_ok log → event FNow now ∈ log → spec store_ok (f now (in_dir b n)) log (λ _ l, store_ok l ∧ ∃ k, l = log ++ k)) →
    guards (recycle_dir b f)) as Hdir.
  { intros b f Hf log Hok. unfold recycle_dir. apply fstep; [done|done|]. intros r Hok1.
    destruct r as [e|files]; [apply spec_ret; [done|split; [done|by eexists]]|].
    apply fstep; [done|done|]. intros now Hok2. set (l2 := (log ++ _) ++ _) in *.
    eapply spec_mono; [apply (recycle_all_spec _ _ l2)|done|].
    - intros p log' Hp Hok' [k ->]. apply list_elem_of_fmap in Hp as (n & -> & _). apply Hf; [done|]. subst l2. in_log.
    - done.
    - exists []. by rewrite app_nil_r.
    - intros r l3 _ [Hok3 [k ->]]. split; [done|]. subst l2. rewrite <-!app_assoc. by eexists. }
  intros log Hok. unfold recycleExpiredReservations. apply spec_bind.
  eapply spec_mono; [apply (Hdir true); [intros now n; apply recycle_claim_spec|done]|done|]. intros r l1 _ [Hok1 [k1 ->]].
  destruct r; [by apply spec_ret; [|split; [|eexists]]|].
  eapply spec_mono; [apply (Hdir false); [intros now n; apply recycle_pending_spec|done]|done|].
  intros r' l2 _ [Hok2 [k2 ->]]. split; [done|]. rewrite <-app_assoc. by eexists.
Qed.

(** A plain program. *)
Lemma plain_guards {A} (m : FProg A) : only fplain m → guards m.
Proof.
  intros Hm log Hok. eapply spec_mono; [apply (only_spec fplain store_ok (λ l, store_ok l ∧ ∃ k, l = log ++ k) m (λ _, True));
    [done|apply returns_True| |by intros l [? _]|split; [done|]; exists []; by rewrite app_nil_r]|done|by intros a l _ [? _]].
  apply stable_and; [apply store_ok_plain|]. intros l c x _ [k ->]. rewrite <-app_assoc. by eexists.
Qed.

Lemma bind_guards {A B} (m : FProg A) (f : A → FProg B) : guards m → (∀ a, guards (f a)) → guards (pbind m f).
Proof.
  intros Hm Hf log Hok. apply spec_bind. eapply spec_mono; [by apply Hm|done|]. intros a l1 _ [Hok1 [k1 ->]].
  eapply spec_mono; [by apply Hf|done|]. intros b l2 _ [Hok2 [k2 ->]]. split; [done|]. rewrite <-app_assoc. by eexists.
Qed.

Lemma give_back_spec {A} claim token n (e : Err) log log0 :
  op = OpClaimNext claim → claim_failed claim token log → store_ok log → event FUuid token ∈ log → event (FRename (Pending n) (claimPath token)) None ∈ log → (∃ k, log = log0 ++ k) →
  spec store_ok (give_back (A := A) token (Pending n) e) log (λ _ l, store_ok l ∧ ∃ k, l = log0 ++ k).
Proof.
  intros Hop Hf Hok Hu Hr He. apply put_step; [|done|done|].
  - intros [e'|] y Hy; [done|]. injection Hy as <-. left. by exists claim, token.
  - intros x Hok1. apply spec_ret; [done|]. split; [done|]. by apply grow.
Qed.

Lemma no_port task owner token : applyTaskClaim task owner token = None → ¬ (0 <= ce_Port owner <= max_int32).
Proof. unfold applyTaskClaim. destruct (_ || _) eqn:E; [|done]. intros _. apply orb_true_iff in E as [E|E]; breflect; lia. Qed.

Lemma claim_file_guards claim n : op = OpClaimNext claim → guards (claim_file claim (Pending n)).
Proof.
  intros Hop log Hok. unfold claim_file. apply fstep; [done|done|]. intros r Hok1. set (l1 := log ++ _) in *.
  assert (∃ k, l1 = log ++ k) as E1 by (by eexists).
  destruct r as [e|record]; [destruct e; by apply spec_ret|]. destruct (tf_Task record) as [task|]; [|by apply spec_ret].
  destruct (negb _); [by apply spec_ret|]. apply fstep; [done|done|]. intros token Hok2. set (l2 := l1 ++ _) in *.
  assert (∃ k, l2 = log ++ k) as E2 by (by apply grow). apply fstep; [done|done|]. intros claimedAt Hok3. set (l3 := l2 ++ _) in *.
  assert (∃ k, l3 = log ++ k) as E3 by (by apply grow). apply fstep; [done|done|]. intros m Hok4. set (l4 := l3 ++ _) in *.
  assert (∃ k, l4 = log ++ k) as E4 by (by apply grow). destruct m; [by apply spec_ret|].
  apply fstep; [done|done|]. intros x Hok5. set (l5 := l4 ++ _) in *. assert (∃ k, l5 = log ++ k) as E5 by (by apply grow).
  destruct x as [e|]; [destruct e; by apply spec_ret|]. apply fstep; [done|done|]. intros c Hok6. set (l6 := l5 ++ _) in *.
  assert (∃ k, l6 = log ++ k) as E6 by (by apply grow).
  assert (event FUuid token ∈ l6) as Hu by (subst l6 l5 l4 l3 l2; in_log).
  assert (event (FRename (Pending n) (claimPath token)) None ∈ l6) as Hr by (subst l6 l5; in_log).
  assert (spec store_ok (finish_claim claim (Pending n) record task token claimedAt) l6 (λ _ l, store_ok l ∧ ∃ k, l = log ++ k)) as Hfin.
  { unfold finish_claim. destruct (applyTaskClaim _ _ _) eqn:Ha.
    2: { apply (give_back_spec claim); [done|left; by eapply no_port|done..]. }
    apply fstep; [done|done|]. intros w Hok7. destruct w as [e|].
    - apply (give_back_spec claim); [done| |done|by apply In_app_l|by apply In_app_l|by apply grow]. right; right. do 2 eexists. apply In_app_last.
    - apply spec_ret; [done|]. split; [done|]. by apply grow. }
  destruct c as [e|]; [|exact Hfin]. destruct (decide (e = ENotExist)) as [->|He]; [exact Hfin|].
  assert (claim_failed claim token l6) as Hf by (right; left; exists claimedAt, e; split; [apply In_app_last|done]).
  destruct e; first [done|by apply (give_back_spec claim)].
Qed.

Lemma claim_loop_guards claim files : op = OpClaimNext claim → guards (claim_loop claim (map Pending files)).
Proof.
  intros Hop. induction files as [|n files IH]; [by apply plain_guards|]. cbn [map claim_loop]. apply bind_guards; [by apply claim_file_guards|].
  intros [e|[c|]]; [by apply plain_guards..|exact IH].
Qed.

Lemma read_tasks_only paths : only fplain (read_tasks paths).
Proof.
  induction paths as [|p paths IH]; [done|]. split; [done|]. intros [[]|r]; try done. cbn [pbind].
  apply only_bind; [done|]. intros [e|l]; [done|]. by destruct (tf_Task r).
Qed.

Lemma find_attempt_only key paths : only fplain (find_attempt_key key paths).
Proof.
  induction paths as [|p paths IH]; [done|]. split; [done|]. intros [[]|r]; try done. cbn [pbind].
  destruct (tf_Task r) as [t|]; [|done]. by case_bool_decide.
Qed.

Lemma snapshot_guards : guards (snapshotOutstandingPaths reservationTTL).
Proof.
  apply bind_guards; [apply recycle_guards|]. intros [e|]; [by apply plain_guards|]. apply plain_guards.
  split; [done|]. intros [e|l]; [done|]. split; [done|]. by intros [e|l'].
Qed.

Lemma run_op_guards : guards (run_op reservationTTL op).
Proof.
  destruct op as [task|claim|token|token|queueName|attemptKey] eqn:Hop; (apply bind_guards; [|intros; by apply plain_guards]).
  - intros log Hok. unfold dispatch_Enqueue. destruct task as [task|]; [|by apply plain_guards]. apply fstep; [done|done|]. intros t Hok1. apply fstep; [done|done|]. intros uuid Hok2.
    set (l2 := (log ++ _) ++ _) in *. cbv zeta.
    apply (spec_call (Ans := FAns) store_ok (FWrite _ _)); [done|]. intros x. set (l3 := l2 ++ _).
    assert (store_ok l3) as Hok3.
    { destruct Hok2 as [HP HR]. split; (apply guarded_app; [done|]); intros y Hy; [|done]. destruct x; [done|]. injection Hy as <-.
      exists task, t, uuid. subst l2. split_and!; [done|in_log|in_log|done]. }
    split; [done|]. split; [done|]. subst l3 l2. rewrite <-!app_assoc. by eexists.
  - apply bind_guards; [apply recycle_guards|]. intros [e|]; [by apply plain_guards|].
    apply (bind_guards (fcall (FList false))); [by apply plain_guards; split|]. intros [e|files]; [by apply plain_guards|by apply claim_loop_guards].
  - apply plain_guards. split; [done|]. intros [[]|r]; try done. cbn [pbind]. destruct (tf_Task r); [|done]. by destruct (_ || _ || _).
  - apply plain_guards. split; [done|]. by intros [[]|].
  - apply bind_guards; [apply snapshot_guards|]. intros [e|paths]; [by apply plain_guards|].
    apply bind_guards; [apply plain_guards, read_tasks_only|]. intros [e|l]; by apply plain_guards.
  - unfold HasOutstandingAttempt. case_bool_decide; [by apply plain_guards|].
    apply bind_guards; [apply snapshot_guards|]. intros [e|paths]; [by apply plain_guards|]. apply plain_guards, find_attempt_only.
Qed.
End Programs.

(** ** Claims *)

(** C30. Claims are exclusive.  Any number of operations of the store, of coordinators
    that share its directories, are interleaved in any way, on a file system on which
    a rename succeeds only for a file that is there; any call may fail.  Between two
    claims of the same pending file, some operation put the file back, by a write or a
    rename that succeeded.  It was an [Enqueue] that wrote a new task; or a [ClaimNext]
    that had taken the file itself, renamed its own claim back, and whose claim had
    failed (the owner has no proper port, or the time or the record of the claim could
    not be written); or an operation that renamed a claim it had read as older than the
    reservation time. *)
Theorem dispatch_claims_exclusive `{Digest} reservationTTL env ops schedule n h1 e1 h2 e2 h3 :
  respects env →
  (sched env schedule [] (map (λ op, (run_op reservationTTL op, [])) ops)).1 = h1 ++ e1 :: h2 ++ e2 :: h3 →
  takes n e1 = true → takes n e2 = true →
  ∃ ev src i op prog before after, ev ∈ h2 ∧ puts ev = Some (src, n) ∧ ops !! i = Some op ∧
    (sched env schedule [] (map (λ op, (run_op reservationTTL op, [])) ops)).2 !! i = Some (prog, before ++ ev :: after) ∧
    put_ok reservationTTL op (src, n) before.
Proof.
  intros Henv Hh H1 H2. set (ts := map _ ops) in *.
  destruct (taken_twice env schedule ts n h1 e1 h2 e2 h3 Henv Hh H1 H2) as (ev & src & Hin & Hp).
  assert (ev ∈ (sched env schedule [] ts).1) as Hev.
  { rewrite Hh. apply elem_of_app; right. right. apply elem_of_app. by left. }
  destruct (sched_In env schedule ev [] ts Hev) as [Hnil|(i & [prog log] & Hi & Hlog)]; [by apply not_elem_of_nil in Hnil|].
  assert (is_Some (ops !! i)) as [op Hop].
  { apply lookup_lt_is_Some. apply lookup_lt_Some in Hi. rewrite sched_length in Hi. subst ts. by rewrite length_map in Hi. }
  assert (safe (store_ok reservationTTL op) prog log) as Hsafe.
  { pose proof (sched_safe env (λ j l, ∀ op, ops !! j = Some op → store_ok reservationTTL op l) schedule [] ts) as HS.
    eapply spec_mono; [refine (HS _ i (prog, log) Hi)|simpl; intros l Hl; by apply Hl|done].
    intros j t Hj. subst ts. apply list_lookup_fmap_Some in Hj as (op' & -> & Hop'). simpl.
    eapply spec_mono; [apply (run_op_guards reservationTTL op' []); split; apply guarded_nil|by intros l Hl ? ?; simplify_eq|done]. }
  apply spec_here in Hsafe as [HP _]. simpl in Hlog. apply list_elem_of_split in Hlog as (before & after & ->).
  exists ev, src, i, op, prog, before, after. split_and!; [done..|]. by eapply HP.
Qed.
