(* ===== verification/Coordinator.v ===== *)
(** * The coordinator of distributed runs (service/coordinator/handler.go): data

    Workers poll the coordinator for tasks, acknowledge what they took, send
    heartbeats and report statuses; the coordinator keeps leases and an index of
    active runs in shared stores and fails runs whose worker is gone.  Requests are
    served at the same time and other coordinators use the same stores, so a request
    is a program that calls an environment ([Prog]).  This file has the data, the
    calls and the helpers. *)

From stdpp Require Import base strings list gmap.
From Stdlib Require Import ZArith Lia Ascii.
From S2P Require Import Prelude Status Step Exec GoStrings RunStatus Catchup FileSys RunFiles RunStore RunLife Distributed Prog Backoff QueueProc DistRepair DispatchStore.

Open Scope prog_scope.
Open Scope Z_scope.

(** ** Configuration *)

(** The stores a handler was given, and its thresholds. *)
Record Handler := mkHandler {
  h_owner : CoordinatorEndpoint;
  h_logDir : string;
  h_dagRunStore : bool;
  h_dispatchTaskStore : bool;
  h_workerHeartbeatStore : bool;
  h_dagRunLeaseStore : bool;
  h_activeDistributedRunStore : bool;
  h_staleHeartbeatThreshold : Duration;
  h_staleLeaseThreshold : Duration;
}.

Definition defaultStaleHeartbeatThreshold : Duration := 30 * Second.
Definition defaultLeaseRefreshWriteInterval : Duration := 5 * Second.

(** [HandlerConfig.applyDefaults] *)
Definition applyDefaults (h : Handler) : Handler :=
  {| h with
     h_staleHeartbeatThreshold :=
       if h_staleHeartbeatThreshold h =? 0 then defaultStaleHeartbeatThreshold else h_staleHeartbeatThreshold h;
     h_staleLeaseThreshold :=
       if h_staleLeaseThreshold h =? 0 then DefaultStaleLeaseThreshold else h_staleLeaseThreshold h |}.

Definition remoteAttemptRejectedLeaseInactive : string := "stale attempt: lease no longer active".
Definition remoteAttemptRejectedSuperseded : string := "stale attempt: superseded by newer attempt".
Definition remoteAttemptRejectedTerminal : string := "stale attempt: run already terminal".

Definition errNoAvailableWorkers : Error := [OtherError "no available workers"].
Definition errNoMatchingWorkers : Error := [OtherError "no workers match the required selector"].
Definition errRunHeartbeatRepairSkipped : Error := [OtherError "run heartbeat repair skipped"].

(** [Error()]: the text of an error. *)
Class ErrorMessage := { Error_message : Error → string }.

(** ** Records of the stores *)
Record ActiveDistributedRun := mkActiveRun {
  adr_AttemptKey : string;
  adr_DAGRun : DAGRunRef;
  adr_Root : DAGRunRef;
  adr_AttemptID : string;
  adr_WorkerID : string;
  adr_Status : Status;
  adr_UpdatedAt : Z;
}.

(** [heartbeatInfo], of the heartbeats kept in memory. *)
Record heartbeatInfo := mkHeartbeatInfo {
  hb_workerID : string;
  hb_labels : list (string * string);
  hb_stats : option (list (option RunningTask));
  hb_lastHeartbeatAt : Time;
}.

(** ** Calls

    [HDist] has the clock, the reading of leases and worker records and the
    compare-and-swap that [DistRepair] uses; [HSwapOrSkip] is a swap whose callback
    may refuse with [errRunHeartbeatRepairSkipped].  The cache of open attempts is
    shared by the requests: [HCacheMatch] looks an attempt up and removes it when it
    has another identifier. *)
Inductive CacheAnswer := CacheMiss | CacheHit (a : AttemptRef) | CacheStale (a : AttemptRef).

Inductive HCall :=
  | HDist (c : DCall)
  | HUuid
  | HLoadYAML (task : Task)
  | HFindAttempt (run : DAGRunRef)
  | HFindSubAttempt (root : DAGRunRef) (subDAGRunID : string)
  | HCreateAttempt (dag : DAG) (t : Time) (dagRunID : string) (retry : bool)
  | HCreateSubAttempt (root : DAGRunRef) (subDAGRunID : string)
  | HSetDAG (a : AttemptRef) (dag : DAG)
  | HReadStatus (a : AttemptRef)
  | HOpen (a : AttemptRef)
  | HWrite (a : AttemptRef) (st : DAGRunStatus)
  | HWriteStepMessages (a : AttemptRef) (stepName : string) (messages : list LLMMessage)
  | HClose (a : AttemptRef)
  | HAbort (a : AttemptRef)
  | HIsAborting (a : AttemptRef)
  | HArtifactPath (a : AttemptRef) (archiveDir : string)
  | HMkdirAll (path : string)
  | HListStatuses (statuses : list Status)
  | HSwapOrSkip (run : DAGRunRef) (attemptID : string) (expected : Status) (mutate : DAGRunStatus → option DAGRunStatus)
  | HCacheGet (key : string)
  | HCacheMatch (key attemptID : string)
  | HCachePut (key : string) (a : AttemptRef)
  | HCacheRelease (key attemptID : string)
  | HLeaseUpsert (l : DAGRunLease)
  | HLeaseTouch (attemptKey : string) (observedAt : Time)
  | HLeaseDelete (attemptKey : string)
  | HLeaseListAll
  | HActiveUpsert (r : ActiveDistributedRun)
  | HActiveDelete (attemptKey : string)
  | HActiveListAll
  | HWorkerUpsert (r : WorkerHeartbeatRecord)
  | HWorkerList
  | HWorkerDeleteStale (before : Time)
  | HEnqueue (task : Task)
  | HClaimNext (claim : DispatchTaskClaim)
  | HGetClaim (token : string)
  | HDeleteClaim (token : string)
  | HWaitTick
  | HEnsureWaiting (selector : list (string * string))
  | HHandOff (task : Task)
  | HHeartbeat (info : heartbeatInfo)
  | HCollectStale (before : Time).

Definition HAns (c : HCall) : Type :=
  match c with
  | HDist c => DAns c
  | HUuid => string
  | HLoadYAML _ => Error + DAG
  | HFindAttempt _ | HFindSubAttempt _ _ | HCreateAttempt _ _ _ _ | HCreateSubAttempt _ _ => Error + AttemptRef
  | HSetDAG _ _ => unit
  | HReadStatus _ => Error + DAGRunStatus
  | HOpen _ | HWrite _ _ | HWriteStepMessages _ _ _ | HClose _ | HAbort _ => option Error
  | HIsAborting _ => Error + bool
  | HArtifactPath _ _ => Error + string
  | HMkdirAll _ => option Error
  | HListStatuses _ => Error + list (option DAGRunStatus)
  | HSwapOrSkip _ _ _ _ => Error + (option DAGRunStatus * bool)
  | HCacheGet _ => option AttemptRef
  | HCacheMatch _ _ => CacheAnswer
  | HCachePut _ _ | HCacheRelease _ _ => unit
  | HLeaseUpsert _ | HLeaseTouch _ _ | HLeaseDelete _ => option Error
  | HLeaseListAll => Error + list DAGRunLease
  | HActiveUpsert _ | HActiveDelete _ => option Error
  | HActiveListAll => Error + list ActiveDistributedRun
  | HWorkerUpsert _ => option Error
  | HWorkerList => Error + list WorkerHeartbeatRecord
  | HWorkerDeleteStale _ => unit
  | HEnqueue _ => option Error
  | HClaimNext _ | HGetClaim _ => Error + option ClaimedDispatchTask
  | HDeleteClaim _ => option Error
  | HWaitTick => bool
  | HEnsureWaiting _ | HHandOff _ => option Error
  | HHeartbeat _ => unit
  | HCollectStale _ => list heartbeatInfo
  end%type.

Abbreviation HProg A := (Prog HAns A).
Abbreviation HLog := (list (Event HAns)).
Definition hcall (c : HCall) : HProg (HAns c) := call c.

(** A program of [DistRepair] inside a request. *)
Fixpoint lift {A} (m : DProg A) : HProg A :=
  match m with
  | Ret a => Ret a
  | Call c k => Call (Ans := HAns) (HDist c) (λ x, lift (k x))
  end.

Definition hnow : HProg Time := hcall (HDist DNow).
Definition getLease (attemptKey : string) : HProg (Error + option DAGRunLease) := hcall (HDist (DGetLease attemptKey)).

(** A call whose error is only logged. *)
Definition ignored {A} (m : HProg A) : HProg unit := do* _ := m in Ret tt.

(** A reply of gRPC: a status code with its error, or the answer. *)
Inductive Code := InvalidArgument | FailedPrecondition | Internal | Unavailable | CanceledCode.

#[export] Instance Code_eq_dec : EqDecision Code.
Proof. solve_decision. Defined.

Definition Reply (A : Type) : Type := Code + A.

(** ** Helpers without calls *)
Definition isTerminalRunStatus (s : Status) : bool := negb (bool_decide (s = NotStarted)) && negb (Status_IsActive s).
Definition isCancellableTerminalRunStatus (s : Status) : bool := isTerminalRunStatus s && negb (Status_IsSuccess s).

Definition sameAttemptStatus (current incoming : DAGRunStatus) : bool :=
  if bool_decide (rs_AttemptID current = "") && bool_decide (rs_AttemptKey current = "") then true
  else if bool_decide (rs_AttemptID current ≠ "") && bool_decide (rs_AttemptID incoming ≠ "") &&
          bool_decide (rs_AttemptID current ≠ rs_AttemptID incoming) then false
  else if bool_decide (rs_AttemptKey current ≠ "") && bool_decide (rs_AttemptKey incoming ≠ "") &&
          bool_decide (rs_AttemptKey current ≠ rs_AttemptKey incoming) then false
  else if bool_decide (rs_AttemptID current ≠ "") && bool_decide (rs_AttemptID incoming ≠ "") then true
  else bool_decide (rs_AttemptKey current ≠ "") && bool_decide (rs_AttemptKey current = rs_AttemptKey incoming).

Definition queueNameForStatus (st : DAGRunStatus) : string :=
  if bool_decide (rs_ProcGroup st = "") then rs_Name st else rs_ProcGroup st.

Definition distributedWorkerIDForStatus (st : DAGRunStatus) (fallbackWorkerID : string) : option string :=
  if IsRemoteWorkerID (rs_WorkerID st) then Some (rs_WorkerID st)
  else if bool_decide (rs_WorkerID st ≠ "") then None
  else if negb (bool_decide (rs_Status st = Queued)) && negb (bool_decide (rs_Status st = NotStarted)) then None
  else if IsRemoteWorkerID fallbackWorkerID then Some fallbackWorkerID else None.

(** The references of a task. *)
Definition task_run (task : Task) : DAGRunRef := mkDAGRunRef (task_Target task) (task_DagRunId task).
Definition task_root (task : Task) : DAGRunRef :=
  let root := mkDAGRunRef (task_RootDagRunName task) (task_RootDagRunId task) in
  if Zero root then task_run task else root.

Definition buildLeaseFromTask (task : Task) (workerID : string) (owner : CoordinatorEndpoint) (now : Time) : DAGRunLease :=
  mkDAGRunLease (task_AttemptKey task) (task_run task) (task_root task) (task_AttemptId task)
    (if bool_decide (task_QueueName task = "") then task_Target task else task_QueueName task)
    workerID owner (UnixMilliOf now) (UnixMilliOf now).

Definition appendCancelledRunIfMissing (cancelledRuns : list string) (attemptKey : string) : list string :=
  if bool_decide (attemptKey = "") then cancelledRuns
  else if bool_decide (attemptKey ∈ cancelledRuns) then cancelledRuns
  else cancelledRuns ++ [attemptKey].

Definition appendCancelledRuns (dst src : list string) : list string := foldl appendCancelledRunIfMissing dst src.

Definition anyWorkerMatches (workers : list WorkerHeartbeatRecord) (selector : list (string * string)) : bool :=
  match selector with
  | [] => match workers with [] => false | _ => true end
  | _ => existsb (λ w, matchesSelector (whr_Labels w) selector) workers
  end.

(** [calculateHealthStatus] *)
Inductive WorkerHealthStatus := HEALTHY | WARNING | UNHEALTHY.
Definition calculateHealthStatus (sinceLastHeartbeat : Duration) : WorkerHealthStatus :=
  if sinceLastHeartbeat <? 5 * Second then HEALTHY
  else if sinceLastHeartbeat <? 15 * Second then WARNING else UNHEALTHY.

(** *** Restoring a run that was failed because its lease expired *)
Definition restoreNode (reason : string) (n : ExecNode) : ExecNode :=
  if negb (bool_decide (en_Status n = NodeFailed)) || negb (bool_decide (en_Error n = reason)) then n
  else if bool_decide (en_StartedAt n ≠ "") && bool_decide (en_StartedAt n ≠ "-")
  then {| n with en_Status := NodeRunning; en_FinishedAt := ""; en_Error := "" |}
  else {| n with en_Status := NodeNotStarted; en_StartedAt := "-"; en_FinishedAt := "-"; en_Error := "" |}.

Definition restoreStaleLeaseFailure (st : DAGRunStatus) (lease : DAGRunLease) (workerID reason : string) : DAGRunStatus :=
  {| st with
     rs_Status := Running;
     rs_Error := "";
     rs_FinishedAt := "";
     rs_WorkerID := workerID;
     rs_AttemptID := dl_AttemptID lease;
     rs_AttemptKey := dl_AttemptKey lease;
     rs_Nodes := map (restoreNode reason) (rs_Nodes st) |}.

(** *** Labels of a task *)
Fixpoint Split (sep : ascii) (s : string) : list string :=
  match s with
  | EmptyString => [""]
  | String c s' =>
      if Ascii.eqb c sep then "" :: Split sep s'
      else match Split sep s' with x :: l => String c x :: l | [] => [String c ""] end
  end.

Definition splitTaskLabels (raw : string) : list string :=
  filter (λ l, l ≠ "") (map TrimSpace (Split "," raw)).

Definition labelsForInitialStatus (task : Task) (dag : DAG) : list string :=
  match splitTaskLabels (task_Labels task) with [] => dag_Labels dag | labels => labels end.

(** *** Paths of logs *)
Inductive LogStreamType := STREAM_STDOUT | STREAM_STDERR | STREAM_SCHEDULER | STREAM_UNSPECIFIED.
Definition StreamTypeToExtension (t : LogStreamType) : string :=
  match t with
  | STREAM_STDOUT => "stdout.log"
  | STREAM_STDERR => "stderr.log"
  | STREAM_SCHEDULER => "scheduler.log"
  | STREAM_UNSPECIFIED => "log"
  end.

(** [filepath.Join] of a clean directory and names without separators. *)
Definition join_path (dir : string) (names : list string) : string :=
  foldl (λ p n, p ++ "/" ++ n)%string dir names.

Definition transformNode (path : string → string → string) (fallbackName : string) (n : ExecNode) : ExecNode :=
  let stepName := if bool_decide (st_Name (en_Step n) = "") then fallbackName else st_Name (en_Step n) in
  {| n with
     en_Stdout := path stepName (StreamTypeToExtension STREAM_STDOUT);
     en_Stderr := path stepName (StreamTypeToExtension STREAM_STDERR) |}.

(** The directory of the logs of a status: sub-runs log under their root. *)
Definition log_dir (logDir : string) (st : DAGRunStatus) : string :=
  let sub := bool_decide (ref_ID (rs_Root st) ≠ "") && bool_decide (ref_ID (rs_Root st) ≠ rs_DAGRunID st) in
  let dagName := if sub then ref_Name (rs_Root st) else rs_Name st in
  let dagRunID := if sub then ref_ID (rs_Root st) else rs_DAGRunID st in
  let attemptID := if bool_decide (rs_AttemptID st = "") then rs_DAGRunID st else rs_AttemptID st in
  join_path logDir [SafeName dagName; SafeName dagRunID; SafeName attemptID].

Definition transformLogPaths (logDir : string) (st : DAGRunStatus) : DAGRunStatus :=
  if bool_decide (logDir = "") then st
  else
    let dir := log_dir logDir st in
    let path stepName ext := join_path dir [(SafeName stepName ++ "." ++ ext)%string] in
    {| st with
       rs_Nodes := map (transformNode path "step") (rs_Nodes st);
       rs_OnInit := option_map (transformNode path "on_init") (rs_OnInit st);
       rs_OnExit := option_map (transformNode path "on_exit") (rs_OnExit st);
       rs_OnSuccess := option_map (transformNode path "on_success") (rs_OnSuccess st);
       rs_OnFailure := option_map (transformNode path "on_failure") (rs_OnFailure st);
       rs_OnAbort := option_map (transformNode path "on_abort") (rs_OnAbort st);
       rs_OnWait := option_map (transformNode path "on_wait") (rs_OnWait st);
       rs_Log := join_path dir ["scheduler.log"] |}.
