(* ===== verification/CoordHandler.v ===== *)
(** * The coordinator of distributed runs (service/coordinator/handler.go): requests

    Every request of the service that keeps state, as a program over the calls of
    [Coordinator].  The mutex of a run only orders the requests of one coordinator
    for that run; the theorems hold for every order of answers. *)

From stdpp Require Import base strings list gmap.
From Stdlib Require Import ZArith Lia.
From S2P Require Import Prelude Status Step Exec GoStrings RunStatus Catchup FileSys RunFiles RunStore RunLife Distributed Prog Backoff QueueProc DistRepair DispatchStore Coordinator.

Open Scope prog_scope.
Open Scope Z_scope.

Section Handler.
Context `{TimeText} (h : Handler).

(** ** The latest attempt of a run *)
Definition find_latest (dagName dagRunID : string) (rootRef : DAGRunRef) : HProg (Error + AttemptRef) :=
  if bool_decide (ref_ID rootRef ≠ "") && bool_decide (ref_ID rootRef ≠ dagRunID) then
    if bool_decide (ref_Name rootRef = "") then Ret (inl [OtherError "missing root dag run name"])
    else hcall (HFindSubAttempt rootRef dagRunID)
  else hcall (HFindAttempt (mkDAGRunRef dagName dagRunID)).

Definition resolveLatestAttempt (dagName dagRunID : string) (rootRef : DAGRunRef)
    : HProg (Error + (AttemptRef * DAGRunStatus)) :=
  if negb (h_dagRunStore h) then Ret (inl [Sys ErrDAGRunIDNotFound])
  else
    do* r := find_latest dagName dagRunID rootRef in
    match r with
    | inl err => Ret (inl err)
    | inr attempt =>
        do* s := hcall (HReadStatus attempt) in
        match s with
        | inl err => Ret (inl err)
        | inr st => Ret (inr (attempt, st))
        end
    end.

(** ** Leases and the index of active runs *)
Definition status_attempt (st : DAGRunStatus) (fallbackAttemptID : string) : string :=
  if bool_decide (rs_AttemptID st = "") then fallbackAttemptID else rs_AttemptID st.

Definition lease_from_status (st : DAGRunStatus) (attemptKey attemptID workerID : string) (now : Time) : DAGRunLease :=
  mkDAGRunLease attemptKey (mkDAGRunRef (rs_Name st) (rs_DAGRunID st)) (rs_Root st) attemptID (queueNameForStatus st)
    workerID (h_owner h) (UnixMilliOf now) (UnixMilliOf now).

(** What is kept of a lease that exists. *)
Definition keep_existing (st : DAGRunStatus) (existing lease : DAGRunLease) : DAGRunLease :=
  {| lease with
     dl_ClaimedAt := dl_ClaimedAt existing;
     dl_QueueName := if bool_decide (rs_ProcGroup st = "") && bool_decide (dl_QueueName existing ≠ "")
                     then dl_QueueName existing else dl_QueueName lease |}.

Definition upsertDistributedLeaseFromStatus (workerID : string) (st : DAGRunStatus) (fallbackAttemptID : string) : HProg unit :=
  if negb (h_dagRunLeaseStore h) then Ret tt
  else
    let attemptKey := AttemptKeyForStatus (Some st) fallbackAttemptID in
    let attemptID := status_attempt st fallbackAttemptID in
    let worker := if bool_decide (workerID = "") then rs_WorkerID st else workerID in
    if bool_decide (attemptKey = "") || bool_decide (attemptID = "") || negb (IsRemoteWorkerID worker) then Ret tt
    else
      do* now := hnow in
      do* existing := getLease attemptKey in
      let lease := lease_from_status st attemptKey attemptID worker now in
      ignored (hcall (HLeaseUpsert match existing with
                                   | inr (Some l) => keep_existing st l lease
                                   | _ => lease
                                   end)).

Definition upsertActiveDistributedRun (st : DAGRunStatus) (workerID fallbackAttemptID : string) : HProg unit :=
  if negb (h_activeDistributedRunStore h) then Ret tt
  else
    let attemptKey := AttemptKeyForStatus (Some st) fallbackAttemptID in
    let worker := if bool_decide (workerID = "") then rs_WorkerID st else workerID in
    if bool_decide (attemptKey = "") || negb (IsRemoteWorkerID worker) then Ret tt
    else
      do* now := hnow in
      ignored (hcall (HActiveUpsert (mkActiveRun attemptKey (status_DAGRun st) (rs_Root st) (status_attempt st fallbackAttemptID)
                                       worker (rs_Status st) (UnixMilliOf now)))).

Definition upsertActiveDistributedRunFromTask (task : Task) (workerID : string) (now : Time) : HProg unit :=
  if negb (h_activeDistributedRunStore h) || bool_decide (task_AttemptKey task = "") || negb (IsRemoteWorkerID workerID)
  then Ret tt
  else ignored (hcall (HActiveUpsert (mkActiveRun (task_AttemptKey task) (task_run task) (task_root task) (task_AttemptId task)
                                        workerID Queued (UnixMilliOf now)))).

Definition deleteDistributedLease (attemptKey : string) : HProg unit :=
  if negb (h_dagRunLeaseStore h) || bool_decide (attemptKey = "") then Ret tt else ignored (hcall (HLeaseDelete attemptKey)).
Definition deleteActiveDistributedRun (attemptKey : string) : HProg unit :=
  if negb (h_activeDistributedRunStore h) || bool_decide (attemptKey = "") then Ret tt
  else ignored (hcall (HActiveDelete attemptKey)).
Definition deleteDistributedTracking (attemptKey : string) : HProg unit :=
  deleteDistributedLease attemptKey ;; deleteActiveDistributedRun attemptKey.

(** Statuses that keep a lease when they are reported. *)
Definition keeps_lease (s : Status) : bool := match s with Running | NotStarted => true | _ => false end.

Definition syncLeaseFromStatus (workerID : string) (st : DAGRunStatus) (fallbackAttemptID : string) : HProg unit :=
  if negb (h_dagRunLeaseStore h) then Ret tt
  else if keeps_lease (rs_Status st) then upsertDistributedLeaseFromStatus workerID st fallbackAttemptID
  else
    let attemptKey := AttemptKeyForStatus (Some st) fallbackAttemptID in
    if bool_decide (attemptKey = "") then Ret tt else ignored (hcall (HLeaseDelete attemptKey)).

Definition syncActiveDistributedRunFromStatus (workerID : string) (st : DAGRunStatus) (fallbackAttemptID : string) : HProg unit :=
  if negb (h_activeDistributedRunStore h) then Ret tt
  else
    let attemptKey := AttemptKeyForStatus (Some st) fallbackAttemptID in
    if bool_decide (attemptKey = "") then Ret tt
    else if keeps_lease (rs_Status st) then upsertActiveDistributedRun st workerID fallbackAttemptID
    else ignored (hcall (HActiveDelete attemptKey)).

Definition syncDistributedRunTrackingFromStatus (workerID : string) (st : DAGRunStatus) (fallbackAttemptID : string) : HProg unit :=
  syncLeaseFromStatus workerID st fallbackAttemptID ;; syncActiveDistributedRunFromStatus workerID st fallbackAttemptID.

Definition restoreConfirmedDistributedRunTrackingFromStatus (workerID : string) (st : DAGRunStatus) (fallbackAttemptID : string)
    : HProg unit :=
  match rs_Status st with
  | Running | NotStarted | Queued =>
      upsertDistributedLeaseFromStatus workerID st fallbackAttemptID ;; upsertActiveDistributedRun st workerID fallbackAttemptID
  | _ => Ret tt
  end.

(** ** Status reports *)
Definition isLeaseInactive (attemptKey : string) : HProg bool :=
  if negb (h_dagRunLeaseStore h) || bool_decide (attemptKey = "") then Ret false
  else
    do* r := getLease attemptKey in
    match r with
    | inr (Some lease) => do* now := hnow in Ret (negb (IsFresh lease now (h_staleLeaseThreshold h)))
    | inr None => Ret true                                 (* no store answers nil without an error *)
    | inl err => Ret (Is err ErrDAGRunLeaseNotFound)
    end.

(** Whether an update is accepted, and why not. *)
Definition remoteStatusDecision (latest incoming : DAGRunStatus) : HProg (bool * string) :=
  if negb (sameAttemptStatus latest incoming) then Ret (false, remoteAttemptRejectedSuperseded)
  else if negb (isTerminalRunStatus (rs_Status latest)) then Ret (true, "")
  else
    do* inactive := isLeaseInactive (rs_AttemptKey latest) in
    if inactive && (Status_IsActive (rs_Status incoming) || bool_decide (rs_Status incoming = NotStarted))
    then Ret (false, remoteAttemptRejectedLeaseInactive)
    else if bool_decide (rs_Status latest = rs_Status incoming) then Ret (true, "")
    else Ret (false, remoteAttemptRejectedTerminal).

(** [transformArtifactPaths]; the path built from the DAG's artifact directory, whose
    text is expanded, is an answer of the environment. *)
Definition transformArtifactPaths (attempt : AttemptRef) (latest incoming : DAGRunStatus) : HProg (Error + DAGRunStatus) :=
  do* d :=
    (if bool_decide (rs_ArchiveDir latest ≠ "") then Ret (inr (rs_ArchiveDir latest))
     else if bool_decide (rs_ArchiveDir incoming = "") then Ret (inr "")
     else hcall (HArtifactPath attempt (rs_ArchiveDir incoming))) in
  match d with
  | inl err => Ret (inl err)
  | inr dir =>
      if bool_decide (dir = "") then Ret (inr incoming)
      else
        do* m := hcall (HMkdirAll dir) in
        match m with
        | Some err => Ret (inl err)
        | None => Ret (inr {| incoming with rs_ArchiveDir := dir |})
        end
  end.

(** The open attempt of the run, replaced when it is not the latest. *)
Definition replaceOpenAttempt (cacheKey : string) (latest : AttemptRef) (expectedAttemptID : string) : HProg (Error + AttemptRef) :=
  do* c := hcall (HCacheMatch cacheKey expectedAttemptID) in
  match c with
  | CacheHit a => Ret (inr a)
  | _ =>
      match c with CacheStale a => ignored (hcall (HClose a)) | _ => Ret tt end ;;
      do* o := hcall (HOpen latest) in
      match o with
      | Some err => Ret (inl err)
      | None => hcall (HCachePut cacheKey latest) ;; Ret (inr latest)
      end
  end.

Definition persistNode (attempt : AttemptRef) (fallbackName : string) (n : ExecNode) : HProg unit :=
  match en_ChatMessages n with
  | [] => Ret tt
  | messages =>
      let stepName := if bool_decide (st_Name (en_Step n) = "") then fallbackName else st_Name (en_Step n) in
      ignored (hcall (HWriteStepMessages attempt stepName messages))
  end.

Definition persist_handler (attempt : AttemptRef) (fallbackName : string) (n : option ExecNode) : HProg unit :=
  match n with Some n => persistNode attempt fallbackName n | None => Ret tt end.

Definition persistChatMessages (attempt : AttemptRef) (st : DAGRunStatus) : HProg unit :=
  peach (λ _ n, persistNode attempt "step" n) tt (rs_Nodes st) ;;
  persist_handler attempt "on_init" (rs_OnInit st) ;;
  persist_handler attempt "on_exit" (rs_OnExit st) ;;
  persist_handler attempt "on_success" (rs_OnSuccess st) ;;
  persist_handler attempt "on_failure" (rs_OnFailure st) ;;
  persist_handler attempt "on_abort" (rs_OnAbort st) ;;
  persist_handler attempt "on_wait" (rs_OnWait st).

(** The reply: accepted, and the reason of a rejection. *)
Definition accept_status (workerID : string) (attempt : AttemptRef) (latest incoming : DAGRunStatus) : HProg (Reply (bool * string)) :=
  do* t := transformArtifactPaths attempt latest incoming in
  match t with
  | inl _ => Ret (inl Internal)
  | inr st =>
      do* o := replaceOpenAttempt (rs_DAGRunID st) attempt (rs_AttemptID latest) in
      match o with
      | inl _ => Ret (inl Internal)
      | inr a =>
          do* w := hcall (HWrite a st) in
          match w with
          | Some _ => Ret (inl Internal)
          | None =>
              persistChatMessages a st ;;
              syncDistributedRunTrackingFromStatus workerID st (ar_ID a) ;;
              Ret (inr (true, ""))
          end
      end
  end.

Definition report (workerID : string) (incoming : DAGRunStatus) : HProg (Reply (bool * string)) :=
  do* r := resolveLatestAttempt (rs_Name incoming) (rs_DAGRunID incoming) (rs_Root incoming) in
  match r with
  | inl err =>
      if Is err (Sys ErrDAGRunIDNotFound) || Is err (Sys ErrNoStatusData)
      then Ret (inr (false, remoteAttemptRejectedLeaseInactive)) else Ret (inl Internal)
  | inr (attempt, latest) =>
      do* '(accepted, reason) := remoteStatusDecision latest incoming in
      if negb accepted then Ret (inr (false, reason)) else accept_status workerID attempt latest incoming
  end.

(** [req_status] is [None] for a missing status and [Some None] for one that does not
    decode. *)
Definition ReportStatus (ownerCoordinatorId workerID : string) (req_status : option (option DAGRunStatus))
    : HProg (Reply (bool * string)) :=
  if negb (h_dagRunStore h) then Ret (inl FailedPrecondition)
  else if bool_decide (ce_ID (h_owner h) ≠ "") && bool_decide (ownerCoordinatorId ≠ ce_ID (h_owner h))
  then Ret (inl FailedPrecondition)
  else
    match req_status with
    | None | Some None => Ret (inl InvalidArgument)
    | Some (Some st) =>
        let st := transformLogPaths (h_logDir h) st in
        if h_dagRunLeaseStore h then report workerID st
        else do* now := hnow in report workerID {| st with rs_LeaseAt := UnixMilliOf now |}
    end.
End Handler.
