(* ===== verification/CoordDispatch.v ===== *)
(** * The coordinator of distributed runs (service/coordinator/handler.go): tasks

    Preparing the attempt of a task, dispatching it, polling for it and acknowledging
    its claim. *)

From stdpp Require Import base strings list gmap.
From Stdlib Require Import ZArith Lia.
From S2P Require Import Prelude Status Step Exec GoStrings RunStatus Catchup FileSys RunFiles RunStore RunLife Distributed Prog Backoff QueueProc DistRepair DispatchStore Coordinator CoordHandler.

Open Scope prog_scope.
Open Scope Z_scope.

(** ** Workers that wait in memory

    The pollers in the order in which the map is walked; [room] is whether the channel
    of the poller takes a task. *)
Record workerInfo := mkWorkerInfo { wi_workerID : string; wi_labels : list (string * string); wi_room : bool }.

Definition no_worker_error (selector : list (string * string)) (matched : bool) : Error :=
  match selector with [] => errNoAvailableWorkers | _ => if matched then errNoAvailableWorkers else errNoMatchingWorkers end.

Definition ensureWaitingWorkerAvailability (pollers : list (string * workerInfo)) (selector : list (string * string)) : option Error :=
  if existsb (λ p, matchesSelector (wi_labels p.2) selector) pollers then None else Some (no_worker_error selector false).

(** The pollers that are left, and the poller that got the task.  Every matching poller
    that was tried is removed. *)
Fixpoint hand_off (pollers : list (string * workerInfo)) (selector : list (string * string)) (matched : bool)
    : list (string * workerInfo) * (Error + string) :=
  match pollers with
  | [] => ([], inl (no_worker_error selector matched))
  | (id, w) :: rest =>
      if negb (matchesSelector (wi_labels w) selector) then
        let '(kept, r) := hand_off rest selector matched in ((id, w) :: kept, r)
      else if wi_room w then (rest, inr id)
      else hand_off rest selector true
  end.

Definition dispatchToWaitingPoller (pollers : list (string * workerInfo)) (task : Task)
    : list (string * workerInfo) * (Error + string) :=
  hand_off pollers (task_WorkerSelector task) false.

(** ** Identifiers of attempts *)
Section Dispatch.
Context {times : TimeText} {messages : ErrorMessage} (h : Handler).

Definition generateRootAttemptKey (task : Task) : string :=
  GenerateAttemptKey (task_Target task) (task_DagRunId task) (task_Target task) (task_DagRunId task) (task_AttemptId task).

Definition isRootRun (task : Task) : bool :=
  bool_decide (task_ParentDagRunId task = "") &&
  (bool_decide (task_RootDagRunId task = "") || bool_decide (task_RootDagRunId task = task_DagRunId task)).

Definition sub_attempt_key (task : Task) (attemptID : string) : string :=
  GenerateAttemptKey (task_RootDagRunName task) (task_RootDagRunId task) (task_Target task) (task_DagRunId task) attemptID.

Definition with_attempt (task : Task) (attemptID attemptKey : string) : Task :=
  {| task with task_AttemptId := attemptID; task_AttemptKey := attemptKey |}.

(** The task of a root run with the identifier and key of an attempt. *)
Definition root_task (task : Task) (attemptID : string) : Task :=
  with_attempt task attemptID (generateRootAttemptKey (with_attempt task attemptID (task_AttemptKey task))).

Definition ensureTaskAttemptMetadata (task : Task) : HProg Task :=
  do* id := (if bool_decide (task_AttemptId task = "") then hcall HUuid else Ret (task_AttemptId task)) in
  if bool_decide (task_AttemptKey task ≠ "") then Ret (with_attempt task id (task_AttemptKey task))
  else if isRootRun task then Ret (root_task task id)
  else Ret (with_attempt task id (sub_attempt_key task id)).

(** ** Preparing an attempt *)
Record preparedDispatchAttempt := mkPrepared { pd_attempt : AttemptRef; pd_newlyCreated : bool }.

(** The status of a task that was dispatched for a queued run: an error when it does
    not decode. *)
Definition queueDispatchStatusForTask (task : Task) : Error + option DAGRunStatus :=
  match task_Operation task, task_PreviousStatus task with
  | OPERATION_RETRY, Some None => inl [OtherError "failed to decode previous task status"]
  | OPERATION_RETRY, Some (Some st) => inr (if bool_decide (rs_Status st = Queued) then Some st else None)
  | _, _ => inr None
  end.

Definition staleQueueDispatchError (reason : string) : Error := [StaleQueueDispatchError; OtherError reason].

Definition initial_status (attempt : AttemptRef) (dagName dagRunID attemptKey scheduleTime startedAt : string) (root : DAGRunRef)
    (labels : list string) : DAGRunStatus :=
  {| DAGRunStatus_zero with
     rs_Name := dagName;
     rs_DAGRunID := dagRunID;
     rs_AttemptID := ar_ID attempt;
     rs_AttemptKey := attemptKey;
     rs_Status := NotStarted;
     rs_StartedAt := startedAt;
     rs_Root := root;
     rs_Labels := labels;
     rs_ScheduleTime := scheduleTime |}.

Definition writeInitialStatus (attempt : AttemptRef) (dagName dagRunID attemptKey scheduleTime : string) (root : DAGRunRef)
    (labels : list string) : HProg (option Error) :=
  do* now := hnow in
  hcall (HWrite attempt (initial_status attempt dagName dagRunID attemptKey scheduleTime (FormatUTC now) root labels)).

(** What a dispatch for a queued run requires: the attempt that was found is the queued
    one and still queued. *)
Definition check_queued (queued : DAGRunStatus) (found : Error + AttemptRef) : HProg (option Error) :=
  if bool_decide (rs_AttemptID queued = "") then Ret (Some (staleQueueDispatchError "queued attempt ID is missing"))
  else
    match found with
    | inl err =>
        if Is err (Sys ErrDAGRunIDNotFound) || Is err (Sys ErrNoStatusData) || Is err (Sys ErrCorruptedStatusFile)
        then Ret (Some (staleQueueDispatchError "dag-run is no longer queued")) else Ret (Some err)
    | inr attempt =>
        do* r := hcall (HReadStatus attempt) in
        match r with
        | inl err =>
            if Is err (Sys ErrNoStatusData) || Is err (Sys ErrCorruptedStatusFile)
            then Ret (Some (staleQueueDispatchError "dag-run is no longer queued")) else Ret (Some err)
        | inr st =>
            if bool_decide (ar_ID attempt ≠ rs_AttemptID queued) then Ret (Some (staleQueueDispatchError "queued attempt was superseded"))
            else if bool_decide (rs_Status st ≠ Queued)
            then Ret (Some (staleQueueDispatchError ("latest attempt is " ++ Status_String (rs_Status st))))
            else Ret None
        end
    end.

(** A queued attempt that exists is opened and used. *)
Definition reuse_queued (task : Task) (found : Error + AttemptRef) : HProg (Error + option (Task * preparedDispatchAttempt)) :=
  match found with
  | inl _ => Ret (inr None)
  | inr attempt =>
      do* r := hcall (HReadStatus attempt) in
      match r with
      | inl _ => Ret (inr None)
      | inr st =>
          if negb (bool_decide (rs_Status st = Queued)) then Ret (inr None)
          else
            do* o := hcall (HOpen attempt) in
            match o with
            | Some err => Ret (inl err)
            | None =>
                hcall (HCachePut (task_DagRunId task) attempt) ;;
                Ret (inr (Some (root_task task (ar_ID attempt), mkPrepared attempt false)))
            end
      end
  end.

(** Opens a new attempt and writes its first status. *)
Definition start_attempt (task : Task) (attempt : AttemptRef) (dagName : string) (root : DAGRunRef) (labels : list string)
    : HProg (Error + (Task * preparedDispatchAttempt)) :=
  do* o := hcall (HOpen attempt) in
  match o with
  | Some err => Ret (inl err)
  | None =>
      do* w := writeInitialStatus attempt dagName (task_DagRunId task) (task_AttemptKey task) (task_ScheduleTime task) root labels in
      match w with
      | Some err => Ret (inl err)
      | None => hcall (HCachePut (task_DagRunId task) attempt) ;; Ret (inr (task, mkPrepared attempt true))
      end
  end.

Definition new_attempt (task : Task) (dag : DAG) (found : Error + AttemptRef) : HProg (Error + (Task * preparedDispatchAttempt)) :=
  let isRetry := bool_decide (task_Operation task = OPERATION_RETRY) || match found with inr _ => true | inl _ => false end in
  do* now := hnow in
  do* c := hcall (HCreateAttempt dag now (task_DagRunId task) isRetry) in
  match c with
  | inl err => Ret (inl err)
  | inr attempt =>
      start_attempt (root_task task (ar_ID attempt)) attempt (dag_Name dag) zeroRef (labelsForInitialStatus task dag)
  end.

Definition createAttemptForTask (task : Task) : HProg (Error + (Task * preparedDispatchAttempt)) :=
  do* d := hcall (HLoadYAML task) in
  match d with
  | inl err => Ret (inl err)
  | inr dag =>
      match queueDispatchStatusForTask task with
      | inl err => Ret (inl err)
      | inr queued =>
          do* found := hcall (HFindAttempt (mkDAGRunRef (dag_Name dag) (task_DagRunId task))) in
          do* q := match queued with Some st => check_queued st found | None => Ret None end in
          match q with
          | Some err => Ret (inl err)
          | None =>
              do* u := reuse_queued task found in
              match u with
              | inl err => Ret (inl err)
              | inr (Some p) => Ret (inr p)
              | inr None => new_attempt task dag found
              end
          end
      end
  end.

Definition createSubAttemptForTask (task : Task) : HProg (Error + (Task * preparedDispatchAttempt)) :=
  let rootRef := mkDAGRunRef (task_RootDagRunName task) (task_RootDagRunId task) in
  do* c := hcall (HCreateSubAttempt rootRef (task_DagRunId task)) in
  match c with
  | inl err => Ret (inl err)
  | inr attempt =>
      do* d := hcall (HLoadYAML task) in
      match d with
      | inl err => Ret (inl err)
      | inr dag =>
          hcall (HSetDAG attempt dag) ;;
          start_attempt (with_attempt task (ar_ID attempt) (sub_attempt_key task (ar_ID attempt))) attempt (task_Target task) rootRef
            (labelsForInitialStatus task dag)
      end
  end.

(** The task with its identifiers, and the attempt when there is one. *)
Definition prepareAttemptForDispatch (task : Task) : HProg (Error + (Task * option preparedDispatchAttempt)) :=
  if negb (h_dagRunStore h) then do* t := ensureTaskAttemptMetadata task in Ret (inr (t, None))
  else if isRootRun task then
    do* r := createAttemptForTask task in
    Ret match r with inl err => inl err | inr (t, p) => inr (t, Some p) end
  else if bool_decide (task_ParentDagRunId task ≠ "") then
    do* r := createSubAttemptForTask task in
    Ret match r with inl err => inl err | inr (t, p) => inr (t, Some p) end
  else do* t := ensureTaskAttemptMetadata task in Ret (inr (t, None)).

(** ** Dispatch *)
Definition dispatchErrorCode (err : Error) : Code :=
  if bool_decide (err = errNoMatchingWorkers) then FailedPrecondition
  else if Is err StaleQueueDispatchError then FailedPrecondition else Unavailable.

Definition prepareAttemptErrorCode (err : Error) : Code :=
  if Is err StaleQueueDispatchError then FailedPrecondition else Internal.

Definition releasePreparedDispatchAttempt (dagRunID : string) (attempt : AttemptRef) : HProg unit :=
  hcall (HCacheRelease dagRunID (ar_ID attempt)) ;; ignored (hcall (HClose attempt)).

Definition handoff_failed (finishedAt reason : string) (st : DAGRunStatus) : DAGRunStatus :=
  {| st with rs_Status := Failed; rs_FinishedAt := finishedAt; rs_Error := reason |}.

(** A new attempt that nobody will run is failed; the reason has the text of the error. *)
Definition fail_new (attempt : AttemptRef) (reason : string) : HProg unit :=
  do* r := hcall (HReadStatus attempt) in
  match r with
  | inl _ => Ret tt
  | inr st =>
      if bool_decide (rs_Status st = NotStarted) || bool_decide (rs_Status st = Queued) then
        do* now := hnow in
        ignored (hcall (HWrite attempt (handoff_failed (FormatTime now) reason st)))
      else Ret tt
  end.

Definition markPreparedAttemptDispatchFailed (task : Task) (prepared : option preparedDispatchAttempt) (reason : string) : HProg unit :=
  match prepared with
  | None => Ret tt
  | Some p =>
      (if pd_newlyCreated p then fail_new (pd_attempt p) reason else Ret tt) ;;
      releasePreparedDispatchAttempt (task_DagRunId task) (pd_attempt p)
  end.

Definition handoff_reason (dispatchErr : Error) : string :=
  "failed to hand off distributed task to a worker: " +:+ Error_message dispatchErr.

(** The workers whose last heartbeat is young enough. *)
Definition listHealthyWorkers : HProg (Error + list WorkerHeartbeatRecord) :=
  if negb (h_workerHeartbeatStore h) then Ret (inr [])
  else
    do* r := hcall HWorkerList in
    match r with
    | inl err => Ret (inl err)
    | inr records =>
        do* now := hnow in
        Ret (inr (filter (λ w, Sub now (milli_time (whr_LastHeartbeatAt w)) <= h_staleHeartbeatThreshold h) records))
    end.

(** [send] is how the task leaves: the shared store or a waiting poller. *)
Definition prepare_and_send (task : Task) (send : Task → HProg (option (Error * Code))) : HProg (Reply unit) :=
  do* p := prepareAttemptForDispatch task in
  match p with
  | inl err => Ret (inl (prepareAttemptErrorCode err))
  | inr (task, prepared) =>
      do* s := send task in
      match s with
      | Some (err, code) =>
          markPreparedAttemptDispatchFailed task prepared (handoff_reason err) ;; Ret (inl code)
      | None => Ret (inr tt)
      end
  end.

Definition send_enqueue (task : Task) : HProg (option (Error * Code)) :=
  do* e := hcall (HEnqueue task) in Ret match e with Some err => Some (err, Internal) | None => None end.
Definition send_handoff (task : Task) : HProg (option (Error * Code)) :=
  do* e := hcall (HHandOff task) in Ret match e with Some err => Some (err, dispatchErrorCode err) | None => None end.

Definition Dispatch (req_task : option Task) : HProg (Reply unit) :=
  match req_task with
  | None => Ret (inl InvalidArgument)
  | Some task =>
      if bool_decide (task_Definition task = "") then Ret (inl InvalidArgument)
      else if negb (h_dispatchTaskStore h) then
        do* w := hcall (HEnsureWaiting (task_WorkerSelector task)) in
        match w with
        | Some err => Ret (inl (dispatchErrorCode err))
        | None => prepare_and_send task send_handoff
        end
      else if negb (h_dagRunStore h) then Ret (inl FailedPrecondition)
      else
        do* l := listHealthyWorkers in
        match l with
        | inl _ => Ret (inl Internal)
        | inr [] => Ret (inl Unavailable)
        | inr workers =>
            if bool_decide (task_WorkerSelector task ≠ []) && negb (anyWorkerMatches workers (task_WorkerSelector task))
            then Ret (inl FailedPrecondition)
            else prepare_and_send task send_enqueue
        end
  end.

(** ** Polling and acknowledging *)

(** A poll of the shared store, for so many turns of its ticker; [None] when it still
    waits then. *)
Fixpoint poll_loop (turns : nat) (claim : DispatchTaskClaim) : HProg (option (Reply Task)) :=
  match turns with
  | O => Ret None
  | S turns =>
      do* c := hcall (HClaimNext claim) in
      match c with
      | inl _ => Ret (Some (inl Internal))
      | inr claimed =>
          match claimed ≫= ct_Task with
          | Some task => Ret (Some (inr {| task with task_WorkerId := cl_WorkerID claim |}))
          | None =>
              do* done := hcall HWaitTick in
              if done then Ret (Some (inl CanceledCode)) else poll_loop turns claim
          end
      end
  end.

Definition Poll (turns : nat) (workerID pollerID : string) (labels : list (string * string)) : HProg (option (Reply Task)) :=
  if bool_decide (pollerID = "") then Ret (Some (inl InvalidArgument))
  else poll_loop turns (mkClaim workerID pollerID labels (h_owner h) (h_staleLeaseThreshold h)).

(** [inr None] of [HGetClaim] is [ErrDispatchTaskNotFound]. *)
Definition AckTaskClaim (claimToken workerID : string) : HProg (Reply (bool * string)) :=
  if bool_decide (claimToken = "") then Ret (inl InvalidArgument)
  else if negb (h_dispatchTaskStore h) || negb (h_dagRunLeaseStore h) then Ret (inl FailedPrecondition)
  else
    do* r := hcall (HGetClaim claimToken) in
    match r with
    | inl _ => Ret (inl Internal)
    | inr None => Ret (inr (false, "claim not found or expired"))
    | inr (Some claimed) =>
        if bool_decide (ct_WorkerID claimed ≠ "") && bool_decide (workerID ≠ "") && bool_decide (ct_WorkerID claimed ≠ workerID)
        then Ret (inr (false, "claim belongs to a different worker"))
        else
          match ct_Task claimed with
          | None => Ret (inr (false, "claim has no task payload"))
          | Some task =>
              do* now := hnow in
              do* u := hcall (HLeaseUpsert (buildLeaseFromTask task workerID (h_owner h) now)) in
              match u with
              | Some _ => Ret (inl Internal)
              | None =>
                  upsertActiveDistributedRunFromTask h task workerID now ;;
                  do* d := hcall (HDeleteClaim claimToken) in
                  match d with
                  | Some _ => Ret (inl Internal)
                  | None => Ret (inr (true, ""))
                  end
              end
          end
    end.
End Dispatch.
