(* ===== verification/CoordLease.v ===== *)
(** * The coordinator of distributed runs (service/coordinator/handler.go): liveness

    Heartbeats of workers and of runs, cancellation, and the detector that reconciles
    leases, the index of active runs and the stored statuses. *)

From stdpp Require Import base strings list gmap.
From Stdlib Require Import ZArith Lia.
From S2P Require Import Prelude Status Step Exec GoStrings RunStatus Catchup FileSys RunFiles RunStore RunLife Prog Backoff Distributed QueueProc DistRepair DispatchStore Coordinator CoordHandler.

Open Scope prog_scope.
Open Scope Z_scope.

Section Lease.
Context `{TimeText} (h : Handler).

(** ** Cancellation *)
Definition isTaskCancelled (task : option RunningTask) : HProg bool :=
  match task with
  | None => Ret false
  | Some t =>
      do* r := resolveLatestAttempt h (tk_DagName t) (tk_DagRunId t) (mkDAGRunRef (tk_RootDagRunName t) (tk_RootDagRunId t)) in
      match r with
      | inl err => Ret (Is err (Sys ErrDAGRunIDNotFound) || Is err (Sys ErrNoStatusData))
      | inr (attempt, st) =>
          if bool_decide (tk_AttemptKey t ≠ "") && bool_decide (rs_AttemptKey st ≠ "") && bool_decide (rs_AttemptKey st ≠ tk_AttemptKey t)
          then Ret true
          else if isCancellableTerminalRunStatus (rs_Status st) then Ret true
          else
            do* a := hcall (HIsAborting attempt) in
            Ret match a with inl _ => false | inr b => b end
      end
  end.

Definition task_key (task : option RunningTask) : string := match task with Some t => tk_AttemptKey t | None => "" end.

Definition getCancelledRunsForWorker (tasks : option (list (option RunningTask))) : HProg (list string) :=
  if negb (h_dagRunStore h) then Ret []
  else
    peach (λ acc task, do* c := isTaskCancelled task in
                       Ret (if c : bool then appendCancelledRunIfMissing acc (task_key task) else acc)) [] (default [] tasks).

Definition cancelled_status (finishedAt : string) (st : DAGRunStatus) : DAGRunStatus :=
  {| st with
     rs_Status := Aborted;
     rs_FinishedAt := finishedAt;
     rs_Error := "context canceled";
     rs_WorkerID := "";
     rs_PID := 0;
     rs_LeaseAt := 0 |}.

Definition finalizeNotStartedCancellation (attempt : AttemptRef) : HProg (option Error) :=
  do* r := hcall (HReadStatus attempt) in
  match r with
  | inl err => Ret (Some err)
  | inr st =>
      if negb (bool_decide (rs_Status st = NotStarted)) then Ret None
      else
        do* now := hnow in
        do* o := hcall (HOpen attempt) in
        match o with
        | Some err => Ret (Some err)
        | None =>
            do* w := hcall (HWrite attempt (cancelled_status (FormatTimeUTC now) st)) in
            ignored (hcall (HClose attempt)) ;; Ret w
        end
  end.

Definition RequestCancel (dagName dagRunID rootName rootID : string) : HProg (Reply bool) :=
  if negb (h_dagRunStore h) then Ret (inl FailedPrecondition)
  else if bool_decide (dagName = "") || bool_decide (dagRunID = "") then Ret (inl InvalidArgument)
  else
    do* r :=
      (if bool_decide (rootID ≠ "") && bool_decide (rootID ≠ dagRunID)
       then hcall (HFindSubAttempt (mkDAGRunRef rootName rootID) dagRunID)
       else hcall (HFindAttempt (mkDAGRunRef dagName dagRunID))) in
    match r with
    | inl _ => Ret (inr false)
    | inr attempt =>
        do* a := hcall (HAbort attempt) in
        match a with
        | Some _ => Ret (inr false)
        | None =>
            do* f := finalizeNotStartedCancellation attempt in
            Ret (inr match f with Some _ => false | None => true end)
        end
    end.

(** [None] is [Found: false]. *)
Definition GetDAGRunStatus (dagName dagRunID rootName rootID : string) : HProg (Reply (option DAGRunStatus)) :=
  if negb (h_dagRunStore h) then Ret (inl FailedPrecondition)
  else if bool_decide (dagName = "") || bool_decide (dagRunID = "") then Ret (inl InvalidArgument)
  else
    do* r :=
      (if bool_decide (rootName ≠ "") && bool_decide (rootID ≠ "")
       then hcall (HFindSubAttempt (mkDAGRunRef rootName rootID) dagRunID)
       else hcall (HFindAttempt (mkDAGRunRef dagName dagRunID))) in
    match r with
    | inl _ => Ret (inr None)
    | inr attempt => do* s := hcall (HReadStatus attempt) in Ret (inr match s with inl _ => None | inr st => Some st end)
    end.

(** ** Heartbeats of runs *)
Definition canRepairStaleLeaseFailureFromRunHeartbeat (workerID : string) (task : RunningTask) (lease : DAGRunLease)
    (st : DAGRunStatus) (reason : string) (observedAt : Time) : bool :=
  bool_decide (workerID ≠ "") &&
  bool_decide (rs_Status st = Failed) && bool_decide (rs_Error st = reason) &&
  bool_decide (tk_AttemptKey task ≠ "") && bool_decide (dl_AttemptKey lease = tk_AttemptKey task) &&
  negb (bool_decide (tk_DagRunId task ≠ "") && bool_decide (ref_ID (dl_DAGRun lease) ≠ "") &&
        bool_decide (tk_DagRunId task ≠ ref_ID (dl_DAGRun lease))) &&
  negb (bool_decide (tk_DagName task ≠ "") && bool_decide (ref_Name (dl_DAGRun lease) ≠ "") &&
        bool_decide (tk_DagName task ≠ ref_Name (dl_DAGRun lease))) &&
  negb (bool_decide (dl_WorkerID lease ≠ "") && bool_decide (dl_WorkerID lease ≠ workerID)) &&
  LeaseMatchesStatus (Some lease) (Some st) (dl_AttemptID lease) observedAt (h_staleLeaseThreshold h).

(** The callback of the swap: [None] when it skips. *)
Definition repair_mutate (workerID : string) (task : RunningTask) (lease : DAGRunLease) (observedAt : Time) (st : DAGRunStatus)
    : option DAGRunStatus :=
  let reason := DistributedLeaseExpiredReason workerID in
  if canRepairStaleLeaseFailureFromRunHeartbeat workerID task lease st reason observedAt
  then Some (restoreStaleLeaseFailure st lease workerID reason) else None.

Definition repairStaleLeaseFailureFromRunHeartbeat (workerID : string) (task : RunningTask) (observedAt : Time) : HProg unit :=
  if negb (h_dagRunStore h) then Ret tt
  else
    do* r := getLease (tk_AttemptKey task) in
    match r with
    | inr (Some lease) =>
        if bool_decide (dl_AttemptID lease = "") || negb (bool_decide (dl_WorkerID lease = workerID)) then Ret tt
        else
          do* s := hcall (HSwapOrSkip (dl_DAGRun lease) (dl_AttemptID lease) Failed (repair_mutate workerID task lease observedAt)) in
          match s with
          | inr (Some st, true) => upsertActiveDistributedRun h st workerID (dl_AttemptID lease)
          | _ => Ret tt
          end
    | _ => Ret tt
    end.

(** The loop over the tasks of a heartbeat: the attempts whose lease is gone, or an
    error. *)
Fixpoint touch_leases (workerID : string) (observedAt : Time) (tasks : list (option RunningTask)) (cancelled : list string)
    : HProg (Reply (list string)) :=
  match tasks with
  | [] => Ret (inr cancelled)
  | None :: rest => touch_leases workerID observedAt rest cancelled
  | Some task :: rest =>
      if bool_decide (tk_AttemptKey task = "") then touch_leases workerID observedAt rest cancelled
      else
        do* t := hcall (HLeaseTouch (tk_AttemptKey task) observedAt) in
        match t with
        | Some err =>
            if Is err ErrDAGRunLeaseNotFound
            then touch_leases workerID observedAt rest (appendCancelledRunIfMissing cancelled (tk_AttemptKey task))
            else Ret (inl Internal)
        | None =>
            repairStaleLeaseFailureFromRunHeartbeat workerID task observedAt ;;
            touch_leases workerID observedAt rest cancelled
        end
  end.

Definition RunHeartbeat (workerID ownerCoordinatorId : string) (tasks : list (option RunningTask)) : HProg (Reply (list string)) :=
  if bool_decide (workerID = "") then Ret (inl InvalidArgument)
  else if negb (h_dagRunLeaseStore h) then Ret (inl FailedPrecondition)
  else if bool_decide (ce_ID (h_owner h) ≠ "") && bool_decide (ownerCoordinatorId ≠ ce_ID (h_owner h))
  then Ret (inl FailedPrecondition)
  else
    do* observedAt := hnow in
    do* t := touch_leases workerID observedAt tasks [] in
    match t with
    | inl code => Ret (inl code)
    | inr cancelled =>
        do* c := getCancelledRunsForWorker (Some tasks) in
        Ret (inr (appendCancelledRuns cancelled c))
    end.

(** ** Leases in the status (without a lease store) *)
Definition leaseRefreshWriteInterval : Duration :=
  let interval := defaultLeaseRefreshWriteInterval in
  let half := Z.quot (h_staleLeaseThreshold h) 2 in
  let interval := if (0 <? h_staleLeaseThreshold h) && (0 <? half) && (half <? interval) then half else interval in
  if interval <? Second then Second else interval.

Definition shouldThrottleLeaseRefresh (st : DAGRunStatus) (observedAt : Time) : bool :=
  if rs_LeaseAt st =? 0 then false
  else
    let lastLease := UnixMilli (rs_LeaseAt st) in
    if observedAt <? lastLease then false else Sub observedAt lastLease <? leaseRefreshWriteInterval.

(** [getOrOpenAttemptWithFinder] *)
Definition getOrOpenAttempt (cacheKey : string) (finder : HProg (Error + AttemptRef)) : HProg (Error + AttemptRef) :=
  do* c := hcall (HCacheGet cacheKey) in
  match c with
  | Some a => Ret (inr a)
  | None =>
      do* c := hcall (HCacheGet cacheKey) in
      match c with
      | Some a => Ret (inr a)
      | None =>
          do* f := finder in
          match f with
          | inl err => Ret (inl err)
          | inr attempt =>
              do* o := hcall (HOpen attempt) in
              match o with
              | Some err => Ret (inl err)
              | None =>
                  do* e := hcall (HCacheGet cacheKey) in
                  match e with
                  | Some existing => ignored (hcall (HClose attempt)) ;; Ret (inr existing)
                  | None => hcall (HCachePut cacheKey attempt) ;; Ret (inr attempt)
                  end
              end
          end
      end
  end.

Definition getOrOpenAttemptForRunningTask (t : RunningTask) : HProg (Error + AttemptRef) :=
  if bool_decide (tk_RootDagRunId t ≠ "") && bool_decide (tk_RootDagRunId t ≠ tk_DagRunId t) then
    if bool_decide (tk_RootDagRunName t = "") then Ret (inl [OtherError "missing root dag run name"])
    else getOrOpenAttempt (tk_DagRunId t)
           (hcall (HFindSubAttempt (mkDAGRunRef (tk_RootDagRunName t) (tk_RootDagRunId t)) (tk_DagRunId t)))
  else getOrOpenAttempt (tk_DagRunId t) (hcall (HFindAttempt (mkDAGRunRef (tk_DagName t) (tk_DagRunId t)))).

Definition refreshLeaseForRunningTask (workerID : string) (observedAt : Time) (task : option RunningTask) : HProg unit :=
  match task with
  | None => Ret tt
  | Some t =>
      do* r := getOrOpenAttemptForRunningTask t in
      match r with
      | inl _ => Ret tt
      | inr attempt =>
          do* s := hcall (HReadStatus attempt) in
          match s with
          | inl _ => Ret tt
          | inr st =>
              if negb (bool_decide (rs_Status st = Running)) || bool_decide (rs_WorkerID st = "") ||
                 negb (bool_decide (rs_WorkerID st = workerID)) ||
                 (bool_decide (tk_AttemptKey t ≠ "") && negb (bool_decide (rs_AttemptKey st = tk_AttemptKey t))) ||
                 shouldThrottleLeaseRefresh st observedAt
              then Ret tt
              else ignored (hcall (HWrite attempt {| st with rs_LeaseAt := UnixMilliOf observedAt |}))
          end
      end
  end.

Definition refreshLeasesFromHeartbeat (workerID : string) (stats : option (list (option RunningTask))) (observedAt : Time) : HProg unit :=
  if negb (h_dagRunStore h) then Ret tt
  else peach (λ _ task, refreshLeaseForRunningTask workerID observedAt task) tt (default [] stats).

Definition Heartbeat (workerID : string) (labels : list (string * string)) (stats : option (list (option RunningTask)))
    : HProg (Reply (list string)) :=
  if bool_decide (workerID = "") then Ret (inl InvalidArgument)
  else
    do* receivedAt := hnow in
    hcall (HHeartbeat (mkHeartbeatInfo workerID labels stats receivedAt)) ;;
    do* u := (if h_workerHeartbeatStore h then hcall (HWorkerUpsert (mkWorkerHeartbeat workerID labels stats (UnixMilliOf receivedAt)))
              else Ret None) in
    match u with
    | Some _ => Ret (inl Internal)
    | None =>
        (if h_dagRunLeaseStore h then Ret tt else refreshLeasesFromHeartbeat workerID stats receivedAt) ;;
        do* c := getCancelledRunsForWorker stats in Ret (inr c)
    end.
End Lease.

(** ** The coordinator of distributed runs (service/coordinator/handler.go): the detector

    A pass of the detector reconciles every lease and every record of the index of
    active runs with the stored status, and fails runs whose worker is gone. *)

Section Detect.
Context `{TimeText} (h : Handler).

(** ** Failing a run with compare-and-swap *)

(** The swap is tried for each expected status until it is settled. *)
Fixpoint try_fail (run : DAGRunRef) (attemptID : string) (mutate : DAGRunStatus → DAGRunStatus) (expected : list Status)
    (last : option DAGRunStatus * bool) : HProg (Error + (option DAGRunStatus * bool)) :=
  match expected with
  | [] => Ret (inr last)
  | s :: rest =>
      do* r := hcall (HDist (DCompareAndSwap run attemptID s mutate)) in
      match r with
      | inl err => Ret (inl err)
      | inr (Some st, false) =>
          if negb (bool_decide (rs_AttemptID st = attemptID)) || bool_decide (rs_Status st = s) then Ret (inr (Some st, false))
          else try_fail run attemptID mutate rest (Some st, false)
      | inr res => Ret (inr res)
      end
  end.

(** A status of another attempt, or of one that is over. *)
Definition superseded (attemptID : string) (st : DAGRunStatus) : bool :=
  negb (bool_decide (rs_AttemptID st = attemptID)) ||
  (negb (Status_IsActive (rs_Status st)) && negb (bool_decide (rs_Status st = NotStarted))).

Definition failDistributedAttemptIfCurrent (run : DAGRunRef) (attemptID attemptKey reason : string) (expected : list Status)
    : HProg unit :=
  if bool_decide (attemptID = "") then Ret tt
  else
    do* now := hnow in
    do* r := try_fail run attemptID (λ s, markActiveStatusFailed s reason (FormatTime now)) expected (None, false) in
    match r with
    | inl _ => Ret tt
    | inr (None, _) => deleteDistributedTracking h attemptKey
    | inr (Some st, swapped) =>
        if superseded attemptID st then deleteDistributedTracking h attemptKey
        else if negb swapped then Ret tt
        else deleteDistributedTracking h attemptKey
    end.

Definition markStatusLeaseRunFailed (st : DAGRunStatus) (attemptID attemptKey reason : string) : HProg unit :=
  failDistributedAttemptIfCurrent (status_DAGRun st) attemptID attemptKey reason [rs_Status st].

(** ** Confirming with lease and worker *)
Definition confirmAndRepairStaleDistributedRun (st : DAGRunStatus) (fallbackAttemptID fallbackWorkerID : string) : HProg RepairResult :=
  lift (ConfirmAndRepairStaleDistributedRun true (h_staleLeaseThreshold h) (h_staleHeartbeatThreshold h) st fallbackAttemptID fallbackWorkerID).

(** What follows from the answer. *)
Definition settle_reconciled (attemptKey attemptID workerID : string) (r : RepairResult) : HProg unit :=
  match r with
  | (_, _, Some _) => Ret tt
  | (_, true, None) => deleteDistributedTracking h attemptKey
  | (None, false, None) => Ret tt
  | (Some st, false, None) =>
      if superseded attemptID st then deleteDistributedTracking h attemptKey
      else match distributedWorkerIDForStatus st workerID with
           | Some w => restoreConfirmedDistributedRunTrackingFromStatus h w st attemptID
           | None => Ret tt
           end
  end.

(** A run whose lease is not alive. *)
Definition fail_or_confirm (st : DAGRunStatus) (attemptKey attemptID workerID : string) : HProg unit :=
  if negb (h_workerHeartbeatStore h)
  then markStatusLeaseRunFailed st attemptID attemptKey (DistributedLeaseExpiredReason workerID)
  else
    do* r := confirmAndRepairStaleDistributedRun st attemptID workerID in
    settle_reconciled attemptKey attemptID workerID r.

(** The run cannot be read any more. *)
Definition run_missing (err : Error) : bool :=
  Is err (Sys ErrDAGRunIDNotFound) || Is err (Sys ErrNoStatusData) || Is err (Sys ErrCorruptedStatusFile).

(** ** Leases *)
Definition lease_attempt (lease : DAGRunLease) (st : DAGRunStatus) (attempt : AttemptRef) : string :=
  if bool_decide (dl_AttemptID lease ≠ "") then dl_AttemptID lease
  else if bool_decide (rs_AttemptID st ≠ "") then rs_AttemptID st else ar_ID attempt.

Definition reconcileDistributedLease (now : Time) (lease : DAGRunLease) : HProg unit :=
  if bool_decide (dl_AttemptKey lease = "") then Ret tt
  else
    do* r := resolveLatestAttempt h (ref_Name (dl_DAGRun lease)) (ref_ID (dl_DAGRun lease)) (dl_Root lease) in
    match r with
    | inl err => if run_missing err then deleteDistributedTracking h (dl_AttemptKey lease) else Ret tt
    | inr (attempt, st) =>
        let attemptID := lease_attempt lease st attempt in
        match distributedWorkerIDForStatus st (dl_WorkerID lease) with
        | Some workerID =>
            if negb (LeaseIdentityMatchesStatus (Some lease) (Some st) attemptID) then deleteDistributedTracking h (dl_AttemptKey lease)
            else if negb (statusEligibleForDistributedRepair (rs_Status st)) then deleteDistributedTracking h (dl_AttemptKey lease)
            else if IsFresh lease now (h_staleLeaseThreshold h) then upsertActiveDistributedRun h st workerID attemptID
            else fail_or_confirm st (dl_AttemptKey lease) attemptID workerID
        | None => deleteDistributedTracking h (dl_AttemptKey lease)
        end
    end.

Definition detectLeasedDistributedRuns (now : Time) : HProg unit :=
  do* r := hcall HLeaseListAll in
  match r with
  | inl _ => Ret tt
  | inr leases => peach (λ _ l, reconcileDistributedLease now l) tt leases
  end.

(** ** The index of active runs *)
Definition indexedDistributedRunMatchesStatus (record : ActiveDistributedRun) (st : DAGRunStatus) : bool :=
  match distributedWorkerIDForStatus st (adr_WorkerID record) with
  | None => false
  | Some _ =>
      if negb (statusEligibleForDistributedRepair (rs_Status st)) then false
      else
        let attemptKey := AttemptKeyForStatus (Some st) (adr_AttemptID record) in
        if bool_decide (attemptKey = "") || negb (bool_decide (attemptKey = adr_AttemptKey record)) then false
        else if bool_decide (adr_AttemptID record ≠ "") &&
                negb (bool_decide (status_attempt st (adr_AttemptID record) = adr_AttemptID record)) then false
        else true
  end.

(** A lease that is missing is [None]; another error ends the check. *)
Definition read_lease (attemptKey : string) : HProg (option (option DAGRunLease)) :=
  do* r := getLease attemptKey in
  Ret match r with
      | inr lease => Some lease
      | inl err => if Is err ErrDAGRunLeaseNotFound then Some None else None
      end.

Definition reconcileActiveRun (now : Time) (record : ActiveDistributedRun) : HProg unit :=
  if bool_decide (adr_AttemptKey record = "") then Ret tt
  else
    do* r := resolveLatestAttempt h (ref_Name (adr_DAGRun record)) (ref_ID (adr_DAGRun record)) (adr_Root record) in
    match r with
    | inl err => if run_missing err then deleteDistributedTracking h (adr_AttemptKey record) else Ret tt
    | inr (_, st) =>
        match distributedWorkerIDForStatus st (adr_WorkerID record) with
        | Some workerID =>
            if negb (indexedDistributedRunMatchesStatus record st) then deleteDistributedTracking h (adr_AttemptKey record)
            else
              do* l := read_lease (adr_AttemptKey record) in
              match l with
              | None => Ret tt
              | Some lease =>
                  if LeaseMatchesStatus lease (Some st) (adr_AttemptID record) now (h_staleLeaseThreshold h)
                  then upsertActiveDistributedRun h st workerID (adr_AttemptID record)
                  else fail_or_confirm st (adr_AttemptKey record) (adr_AttemptID record) workerID
              end
        | None => deleteDistributedTracking h (adr_AttemptKey record)
        end
    end.

Definition detectIndexedDistributedStatuses (now : Time) : HProg unit :=
  do* r := hcall HActiveListAll in
  match r with
  | inl _ => Ret tt
  | inr records => peach (λ _ x, reconcileActiveRun now x) tt records
  end.

(** ** Statuses without an index *)
Definition resolveAttemptIDForStatus (st : DAGRunStatus) : HProg (Error + string) :=
  if bool_decide (rs_AttemptID st ≠ "") then Ret (inr (rs_AttemptID st))
  else
    do* r := (if negb (Zero (rs_Root st)) then hcall (HFindSubAttempt (rs_Root st) (rs_DAGRunID st))
              else hcall (HFindAttempt (status_DAGRun st))) in
    Ret match r with inl err => inl err | inr a => inr (ar_ID a) end.

Definition reconcileOrphan (now : Time) (status : option DAGRunStatus) : HProg unit :=
  match status with
  | None => Ret tt
  | Some st =>
      if negb (IsRemoteWorkerID (rs_WorkerID st)) then Ret tt
      else
        do* a := resolveAttemptIDForStatus st in
        match a with
        | inl _ => Ret tt
        | inr attemptID =>
            let attemptKey := AttemptKeyForStatus (Some st) attemptID in
            if bool_decide (attemptKey = "") then Ret tt
            else
              do* l := read_lease attemptKey in
              match l with
              | None => Ret tt
              | Some lease =>
                  if LeaseMatchesStatus lease (Some st) attemptID now (h_staleLeaseThreshold h) then Ret tt
                  else fail_or_confirm st attemptKey attemptID (rs_WorkerID st)
              end
        end
  end.

Definition detectOrphanedDistributedStatuses (now : Time) : HProg unit :=
  do* r := hcall (HListStatuses [Running; NotStarted]) in
  match r with
  | inl _ => Ret tt
  | inr statuses => peach (λ _ s, reconcileOrphan now s) tt statuses
  end.

(** ** Without leases *)
Definition markRunFailed (dagName dagRunID reason : string) : HProg unit :=
  if negb (h_dagRunStore h) then Ret tt
  else
    do* c := hcall (HCacheGet dagRunID) in
    do* r := match c with
             | Some a => Ret (inr (a, false))
             | None => do* f := hcall (HFindAttempt (mkDAGRunRef dagName dagRunID)) in
                       Ret match f with inl err => inl err | inr a => inr (a, true) end
             end in
    match r with
    | inl _ => Ret tt
    | inr (attempt, needsOpen) =>
        do* s := hcall (HReadStatus attempt) in
        match s with
        | inl _ => Ret tt
        | inr st =>
            if negb (Status_IsActive (rs_Status st)) && negb (bool_decide (rs_Status st = NotStarted)) then Ret tt
            else
              do* now := hnow in
              let failed := markActiveStatusFailed st reason (FormatTime now) in
              if negb needsOpen then ignored (hcall (HWrite attempt failed))
              else
                do* o := hcall (HOpen attempt) in
                match o with
                | Some _ => Ret tt
                | None => ignored (hcall (HWrite attempt failed)) ;; ignored (hcall (HClose attempt))
                end
        end
    end.

Definition markWorkerTasksFailed (info : heartbeatInfo) : HProg unit :=
  if negb (h_dagRunStore h) then Ret tt
  else
    peach (λ _ task, match task with
                     | None => Ret tt
                     | Some t => markRunFailed (tk_DagName t) (tk_DagRunId t) ("worker " ++ hb_workerID info ++ " became unresponsive")
                     end) tt (default [] (hb_stats info)).

(** [exec.IsLeaseActive], the lease of a status. *)
Definition fail_expired (status : option DAGRunStatus) : HProg unit :=
  match status with
  | None => Ret tt                                         (* no listing has a nil status *)
  | Some st =>
      if bool_decide (rs_WorkerID st = "") || (rs_LeaseAt st =? 0) then Ret tt
      else
        do* now := hnow in
        if IsLeaseActive now (Some st) (h_staleLeaseThreshold h) then Ret tt
        else markRunFailed (rs_Name st) (rs_DAGRunID st)
               ("lease expired: worker " ++ rs_WorkerID st ++ " stopped reporting status")
  end.

Definition detectStaleLeases : HProg unit :=
  if negb (h_dagRunStore h) then Ret tt
  else if negb (h_dagRunLeaseStore h) then
    do* r := hcall (HListStatuses [Running]) in
    match r with
    | inl _ => Ret tt
    | inr statuses => peach (λ _ s, fail_expired s) tt statuses
    end
  else
    do* now := hnow in
    detectLeasedDistributedRuns now ;;
    if h_activeDistributedRunStore h then detectIndexedDistributedStatuses now else detectOrphanedDistributedStatuses now.

Definition detectAndCleanupZombies : HProg unit :=
  do* now := hnow in
  let before := AddD now (- h_staleHeartbeatThreshold h) in
  (if h_workerHeartbeatStore h then hcall (HWorkerDeleteStale before)
   else do* stale := hcall (HCollectStale before) in peach (λ _ info, markWorkerTasksFailed info) tt stale) ;;
  detectStaleLeases.
End Detect.
