(* ===== verification/CoordReportLaws.v ===== *)
(** * The coordinator: status reports

    Whatever the stores answer, a report of a worker changes the stored status only
    for the latest attempt of the run and never reopens a run that is over; leases and
    the index of active runs follow the status that was written. *)

From stdpp Require Import base strings list gmap.
From Stdlib Require Import ZArith Lia.
From S2P Require Import Prelude Status Step Exec GoStrings RunStatus Catchup FileSys RunFiles RunStore RunLife Distributed Prog Backoff QueueProc QueueProcLaws DistRepair DispatchStore Coordinator CoordHandler.

Open Scope prog_scope.
Open Scope Z_scope.

(** ** What a log says *)
Definition write_of (ev : Event HAns) : option (AttemptRef * DAGRunStatus) :=
  match projT1 ev with HWrite a st => Some (a, st) | _ => None end.
Definition untrack_of (ev : Event HAns) : option string :=
  match projT1 ev with HLeaseDelete k | HActiveDelete k => Some k | _ => None end.
Definition track_of (ev : Event HAns) : option string :=
  match projT1 ev with HLeaseUpsert l => Some (dl_AttemptKey l) | HActiveUpsert r => Some (adr_AttemptKey r) | _ => None end.

Definition written (ev : Event HAns) : bool :=
  match ev with
  | existT c x =>
      match c as c' return HAns c' → bool with
      | HWrite _ _ => λ r, match r with None => true | Some _ => false end
      | _ => λ _, false
      end x
  end.

(** Calls that neither write a status nor touch leases or the index. *)
Definition hplain (c : HCall) : Prop :=
  match c with
  | HWrite _ _ | HLeaseDelete _ | HActiveDelete _ | HLeaseUpsert _ | HActiveUpsert _ => False
  | _ => True
  end.

(** The attempt was found as the latest of the run. *)
Definition found_latest (name id : string) (root : DAGRunRef) (attempt : AttemptRef) (log : HLog) : Prop :=
  event (HFindAttempt (mkDAGRunRef name id)) (inr attempt) ∈ log ∨ event (HFindSubAttempt root id) (inr attempt) ∈ log.

Lemma prefix_incl (log log' : HLog) : log `prefix_of` log' → log ⊆ log'.
Proof. intros [k ->] x Hx. by apply In_app_l. Qed.

(** The run, attempt and status that a stored status names. *)
Definition identity_of (st : DAGRunStatus) : string * string * DAGRunRef * string * string * Status :=
  (rs_Name st, rs_DAGRunID st, rs_Root st, rs_AttemptID st, rs_AttemptKey st, rs_Status st).

Section Report.
Context `{TimeText} (h : Handler).

Lemma find_latest_only name id root : only hplain (find_latest name id root).
Proof. unfold find_latest. case_bool_decide; [|by split]. case_bool_decide; [|by split]. case_bool_decide; [done|by split]. Qed.

Lemma resolve_only name id root : only hplain (resolveLatestAttempt h name id root).
Proof.
  unfold resolveLatestAttempt. destruct (negb _); [done|]. apply only_bind; [apply find_latest_only|].
  intros [err|a]; [done|]. split; [done|]. by intros [err|st].
Qed.

(** What a resolved attempt is, and where an error comes from. *)
Definition resolving (c : HCall) : Prop :=
  match c with HFindAttempt _ | HFindSubAttempt _ _ | HReadStatus _ => True | _ => False end.

Definition resolve_error (name id : string) (root : DAGRunRef) (err : Error) (log : HLog) : Prop :=
  h_dagRunStore h = false ∨ err = [OtherError "missing root dag run name"] ∨
  event (HFindAttempt (mkDAGRunRef name id)) (inl err) ∈ log ∨ event (HFindSubAttempt root id) (inl err) ∈ log ∨
  ∃ a, found_latest name id root a log ∧ event (HReadStatus a) (inl err) ∈ log.

Definition resolved (name id : string) (root : DAGRunRef) (r : Error + AttemptRef * DAGRunStatus) (log : HLog) : Prop :=
  match r with
  | inr (attempt, st) => found_latest name id root attempt log ∧ event (HReadStatus attempt) (inr st) ∈ log
  | inl err => resolve_error name id root err log
  end.

Lemma found_latest_more name id root a log log' : log `prefix_of` log' → found_latest name id root a log → found_latest name id root a log'.
Proof. intros [k ->] [Hf|Hf]; [left|right]; by apply In_app_l. Qed.

Lemma resolve_spec (J : HLog → Prop) name id root log Q :
  stable resolving J → J log →
  (∀ r l, J l → log `prefix_of` l → resolved name id root r l → Q r l) →
  spec J (resolveLatestAttempt h name id root) log Q.
Proof.
  intros Hs HJ HQ. unfold resolveLatestAttempt. destruct (h_dagRunStore h) eqn:Es; cbv [negb];
    [|apply spec_ret; [done|]; apply HQ; [done..|by left]]. apply spec_bind.
  assert (spec J (find_latest name id root) log (λ r l, J l ∧ log `prefix_of` l ∧
            match r with inr a => found_latest name id root a l | inl err => resolve_error name id root err l end)) as Hf.
  { unfold find_latest. destruct (_ && _); [case_bool_decide; [apply spec_ret; [done|]; split_and!; [done..|by right; left]|]|];
      (split; [done|]); intros [err|a]; (split; [by apply Hs|]); (split; [by apply Hs|]); (split; [by apply prefix_app_r|]).
    - right; right; right; left. apply In_app_last.
    - right. apply In_app_last.
    - right; right; left. apply In_app_last.
    - left. apply In_app_last. }
  eapply spec_mono; [exact Hf|done|]. intros [err|a] l _ (Hl & Hp & Hx); [by apply spec_ret; [|apply HQ]|].
  apply (quiet_do resolving); [done..|]. intros x Hl1.
  assert (found_latest name id root a (l ++ [event (HReadStatus a) x])) as Hx' by (by apply (found_latest_more _ _ _ _ l); [apply prefix_app_r|]).
  destruct x as [err|st]; (apply spec_ret; [done|]); (apply HQ; [done|by apply prefix_app_r|]).
  - right; right; right; right. exists a. split; [done|]. apply In_app_last.
  - split; [done|]. apply In_app_last.
Qed.

(** ** A report *)
Context (incoming : DAGRunStatus).

(** A write is for the latest attempt of the run, and leaves a finished run as it is. *)
Definition write_ok (x : AttemptRef * DAGRunStatus) (log : HLog) : Prop :=
  let '(a, st) := x in
  ∃ attempt latest,
    found_latest (rs_Name incoming) (rs_DAGRunID incoming) (rs_Root incoming) attempt log ∧
    event (HReadStatus attempt) (inr latest) ∈ log ∧
    (a = attempt ∨ ∃ key, event (HCacheMatch key (rs_AttemptID latest)) (CacheHit a) ∈ log) ∧
    sameAttemptStatus latest incoming = true ∧ identity_of st = identity_of incoming ∧
    (isTerminalRunStatus (rs_Status latest) = true → rs_Status incoming = rs_Status latest).

(** The status was written, and the key is that of its attempt. *)
Definition tracked (key : string) (log : HLog) : Prop :=
  ∃ a st, event (HWrite a st) None ∈ log ∧ identity_of st = identity_of incoming ∧ key = AttemptKeyForStatus (Some st) (ar_ID a).

Definition report_ok (log : HLog) : Prop :=
  guarded write_of write_ok log ∧
  guarded untrack_of (λ key l, tracked key l ∧ keeps_lease (rs_Status incoming) = false) log ∧
  guarded track_of (λ key l, tracked key l ∧ keeps_lease (rs_Status incoming) = true) log.

Lemma report_ok_nil : report_ok [].
Proof. split_and!; apply guarded_nil. Qed.

Lemma report_ok_plain : stable hplain report_ok.
Proof.
  intros log c x Hc (HW & HU & HT). split_and!; (eapply (guarded_stable hplain); [|done|done]); intros e y; by destruct e.
Qed.

(** Before the write and after it. *)
Definition unwritten (log : HLog) : Prop := report_ok log ∧ count written log = 0%nat.
Definition after_write (a : AttemptRef) (st : DAGRunStatus) (log : HLog) : Prop :=
  report_ok log ∧ count written log = 1%nat ∧ event (HWrite a st) None ∈ log.

Lemma unwritten_plain : stable hplain unwritten.
Proof.
  intros log c x Hc [Hok Hn]. split; [by apply report_ok_plain|]. rewrite count_plain; [done|]. by destruct c.
Qed.

Lemma after_write_plain a st : stable hplain (after_write a st).
Proof.
  intros log c x Hc (Hok & Hn & Hin). split; [by apply report_ok_plain|]. split; [|by apply In_app_l].
  rewrite count_plain; [done|]. by destruct c.
Qed.

(** A call on the stores of leases and active runs. *)
Definition tracks_key (e : HCall) (key : string) : Prop :=
  match e with
  | HLeaseUpsert l => dl_AttemptKey l = key
  | HActiveUpsert r => adr_AttemptKey r = key
  | HLeaseDelete k | HActiveDelete k => k = key
  | _ => False
  end.
Definition is_upsert (e : HCall) : bool := match e with HLeaseUpsert _ | HActiveUpsert _ => true | _ => false end.

Lemma track_call a st e key :
  identity_of st = identity_of incoming → key = AttemptKeyForStatus (Some st) (ar_ID a) →
  tracks_key e key → is_upsert e = keeps_lease (rs_Status st) → preserves (after_write a st) (ignored (hcall e)).
Proof.
  intros Hst Hkey He Hu log (Hok & Hn & Hin). apply spec_do; [by split_and!|]. intros x.
  assert (after_write a st (log ++ [event e x])) as Haw.
  { split; [|split; [rewrite count_plain; [done|]; by destruct e|by apply In_app_l]].
    destruct Hok as (HW & HU & HT).
    assert (tracked key log) as Ht by (exists a, st; by rewrite Hkey).
    assert (rs_Status st = rs_Status incoming) as Hs by (by injection Hst).
    split_and!; (apply guarded_app; [done|]); intros y Hy; destruct e; simpl in *; try done;
      (injection Hy as <-; split; [by rewrite He|by rewrite <-Hs, <-Hu]). }
  apply spec_ret; [done|]. split; [done|]. by apply prefix_app_r.
Qed.

Lemma hnow_only : only hplain hnow.
Proof. by split. Qed.

Lemma upsert_active_preserves a st workerID :
  identity_of st = identity_of incoming → keeps_lease (rs_Status st) = true →
  preserves (after_write a st) (upsertActiveDistributedRun h st workerID (ar_ID a)).
Proof.
  intros Hst Hk. unfold upsertActiveDistributedRun. destruct (negb _); [apply preserves_ret|]. cbv zeta.
  destruct (_ || _); [apply preserves_ret|]. apply preserves_bind; [apply (only_preserves hplain); [apply after_write_plain|apply hnow_only]|].
  intros now. by eapply track_call.
Qed.

Lemma sync_preserves a st workerID :
  identity_of st = identity_of incoming → preserves (after_write a st) (syncDistributedRunTrackingFromStatus h workerID st (ar_ID a)).
Proof.
  intros Hst. apply preserves_bind.
  - unfold syncLeaseFromStatus. destruct (h_dagRunLeaseStore h) eqn:El; cbv [negb]; [|apply preserves_ret].
    destruct (keeps_lease (rs_Status st)) eqn:Hk.
    + unfold upsertDistributedLeaseFromStatus. rewrite El. cbv [negb]. cbv zeta. destruct (_ || _ || _); [apply preserves_ret|].
      apply preserves_bind; [apply (only_preserves hplain); [apply after_write_plain|apply hnow_only]|]. intros now.
      apply preserves_bind; [apply (only_preserves hplain); [apply after_write_plain|by split]|]. intros existing.
      eapply track_call; [done|done| |done]. by destruct existing as [|[|]].
    + cbv zeta. case_bool_decide; [apply preserves_ret|]. by eapply track_call.
  - intros _. unfold syncActiveDistributedRunFromStatus. destruct (negb _); [apply preserves_ret|]. cbv zeta.
    case_bool_decide; [apply preserves_ret|]. destruct (keeps_lease (rs_Status st)) eqn:Hk; [by apply upsert_active_preserves|].
    by eapply track_call.
Qed.

(** *** What is tracked after the write *)
Definition tracked_worker (workerID : string) (st : DAGRunStatus) : string := if bool_decide (workerID = "") then rs_WorkerID st else workerID.

(** The lease of the attempt of the status: written for the worker, as of now, or deleted. *)
Definition lease_follows (workerID : string) (st : DAGRunStatus) (attemptID : string) (log : HLog) : Prop :=
  let key := AttemptKeyForStatus (Some st) attemptID in
  h_dagRunLeaseStore h = true → key ≠ "" →
  if keeps_lease (rs_Status st) then
    status_attempt st attemptID ≠ "" → IsRemoteWorkerID (tracked_worker workerID st) = true →
    ∃ l now x, event (Ans := HAns) (HLeaseUpsert l) x ∈ log ∧ event (HDist DNow) now ∈ log ∧
      dl_AttemptKey l = key ∧ dl_DAGRun l = mkDAGRunRef (rs_Name st) (rs_DAGRunID st) ∧ dl_Root l = rs_Root st ∧
      dl_AttemptID l = status_attempt st attemptID ∧ dl_WorkerID l = tracked_worker workerID st ∧ dl_Owner l = h_owner h ∧
      dl_LastHeartbeatAt l = UnixMilliOf now
  else ∃ x, event (Ans := HAns) (HLeaseDelete key) x ∈ log.

(** The same of its record in the index of active runs. *)
Definition record_follows (workerID : string) (st : DAGRunStatus) (attemptID : string) (log : HLog) : Prop :=
  let key := AttemptKeyForStatus (Some st) attemptID in
  h_activeDistributedRunStore h = true → key ≠ "" →
  if keeps_lease (rs_Status st) then
    IsRemoteWorkerID (tracked_worker workerID st) = true →
    ∃ now x, event (HDist DNow) now ∈ log ∧
      event (Ans := HAns) (HActiveUpsert (mkActiveRun key (status_DAGRun st) (rs_Root st) (status_attempt st attemptID)
                              (tracked_worker workerID st) (rs_Status st) (UnixMilliOf now))) x ∈ log
  else ∃ x, event (Ans := HAns) (HActiveDelete key) x ∈ log.

Lemma lease_follows_more workerID st attemptID log log' :
  log ⊆ log' → lease_follows workerID st attemptID log → lease_follows workerID st attemptID log'.
Proof.
  unfold lease_follows. cbv zeta. intros Hs Hl E1 E2. specialize (Hl E1 E2). destruct (keeps_lease _).
  - intros E3 E4. destruct (Hl E3 E4) as (l & now & x & Hx & Hn & Hr). exists l, now, x. split_and!; [by apply Hs|by apply Hs|apply Hr..].
  - destruct Hl as [x Hx]. exists x. by apply Hs.
Qed.

Lemma sync_lease_spec workerID st attemptID log :
  spec (λ _, True) (syncLeaseFromStatus h workerID st attemptID) log (λ _ l, lease_follows workerID st attemptID l ∧ log `prefix_of` l).
Proof.
  unfold syncLeaseFromStatus, upsertDistributedLeaseFromStatus, lease_follows. destruct (h_dagRunLeaseStore h); cbv [negb]; [|by apply spec_ret].
  cbv zeta. destruct (keeps_lease (rs_Status st)).
  - fold (tracked_worker workerID st). destruct (_ || _ || _) eqn:E.
    { apply spec_ret; [done|]. split; [|done]. intros _ Hk Ha Hw. apply orb_true_iff in E as [[E|E]%orb_true_iff|E]; [by apply bool_decide_eq_true in E..|]. by rewrite Hw in E. }
    apply spec_do; [done|]. intros now. apply spec_do; [done|]. intros existing. apply spec_do; [done|]. intros x.
    apply spec_ret; [done|]. split; [|by do 3 apply prefix_app_r]. intros _ _ _ _.
    eexists _, now, x. split; [apply In_app_last|]. split; [do 2 apply In_app_l; apply In_app_last|]. by destruct existing as [|[|]].
  - case_bool_decide; [by apply spec_ret|]. apply spec_do; [done|]. intros x. apply spec_ret; [done|].
    split; [|by apply prefix_app_r]. intros _ _. exists x. apply In_app_last.
Qed.

Lemma sync_record_spec workerID st attemptID log :
  spec (λ _, True) (syncActiveDistributedRunFromStatus h workerID st attemptID) log
    (λ _ l, record_follows workerID st attemptID l ∧ log `prefix_of` l).
Proof.
  unfold syncActiveDistributedRunFromStatus, upsertActiveDistributedRun, record_follows.
  destruct (h_activeDistributedRunStore h); cbv [negb]; [|by apply spec_ret]. cbv zeta. case_bool_decide as Hk; [by apply spec_ret|].
  destruct (keeps_lease (rs_Status st)).
  - fold (tracked_worker workerID st). destruct (_ || _) eqn:E.
    { apply spec_ret; [done|]. split; [|done]. intros _ _ Hw. simpl in E. by rewrite Hw in E. }
    apply spec_do; [done|]. intros now. apply spec_do; [done|]. intros x. apply spec_ret; [done|].
    split; [|by do 2 apply prefix_app_r]. intros _ _ _. exists now, x. split; [apply In_app_l, In_app_last|apply In_app_last].
  - apply spec_do; [done|]. intros x. apply spec_ret; [done|]. split; [|by apply prefix_app_r]. intros _ _. exists x. apply In_app_last.
Qed.

Lemma sync_spec workerID st attemptID log :
  spec (λ _, True) (syncDistributedRunTrackingFromStatus h workerID st attemptID) log
    (λ _ l, lease_follows workerID st attemptID l ∧ record_follows workerID st attemptID l).
Proof.
  unfold syncDistributedRunTrackingFromStatus. apply spec_bind. eapply spec_mono; [apply sync_lease_spec|done|]. intros _ l1 _ [Hl _].
  eapply spec_mono; [apply sync_record_spec|done|]. intros _ l2 _ [Hr Hp]. split; [|done].
  eapply lease_follows_more; [by apply prefix_incl|done].
Qed.

(** *** Deciding and writing *)
Lemma inactive_only key : only hplain (isLeaseInactive h key).
Proof.
  unfold isLeaseInactive. destruct (_ || _); [done|]. split; [done|]. intros [err|[l|]]; [done| |done]. by split.
Qed.

(** An update that is accepted is of the same attempt, and keeps a final status. *)
Lemma decision_returns latest :
  returns (remoteStatusDecision h latest incoming)
    (λ d, d.1 = true → sameAttemptStatus latest incoming = true ∧
          (isTerminalRunStatus (rs_Status latest) = true → rs_Status incoming = rs_Status latest)).
Proof.
  unfold remoteStatusDecision. destruct (sameAttemptStatus latest incoming); cbv [negb]; [|done].
  destruct (isTerminalRunStatus (rs_Status latest)); cbv [negb]; [|done].
  eapply returns_bind; [apply returns_True|]. intros inactive _. destruct (_ && _); [done|]. case_bool_decide; [|done]. by split.
Qed.

Lemma decision_only latest : only hplain (remoteStatusDecision h latest incoming).
Proof.
  unfold remoteStatusDecision. destruct (negb (sameAttemptStatus _ _)); [done|]. destruct (negb _); [done|].
  apply only_bind; [apply inactive_only|]. intros b. destruct (_ && _); [done|]. by case_bool_decide.
Qed.

Lemma artifacts_only attempt latest st : only hplain (transformArtifactPaths attempt latest st).
Proof.
  unfold transformArtifactPaths. apply only_bind; [case_bool_decide; [done|]; by case_bool_decide|].
  intros [err|dir]; [done|]. case_bool_decide; [done|]. split; [done|]. by intros [err|].
Qed.

Lemma artifacts_returns attempt latest st :
  returns (transformArtifactPaths attempt latest st) (λ r, match r with inr st' => identity_of st' = identity_of st | inl _ => True end).
Proof.
  unfold transformArtifactPaths. eapply returns_bind; [apply returns_True|]. intros [err|dir] _; [done|].
  case_bool_decide; [done|]. by intros [err|].
Qed.

(** The attempt that is written to. *)
Lemma replace_spec (J : HLog → Prop) key attempt attemptID log Q :
  stable hplain J → J log →
  (∀ r l, J l → log `prefix_of` l →
     match r with
     | inr a => a = attempt ∨ event (HCacheMatch key attemptID) (CacheHit a) ∈ l
     | inl _ => True
     end → Q r l) →
  spec J (replaceOpenAttempt key attempt attemptID) log Q.
Proof.
  intros Hs HJ HQ. unfold replaceOpenAttempt. apply (quiet_do hplain); [done..|]. intros c Hc.
  set (l1 := log ++ _) in *. assert (log `prefix_of` l1) as P1 by (by apply prefix_app_r).
  destruct (match c with CacheHit a => Some a | _ => None end) as [a|] eqn:Eh.
  { destruct c; try done. injection Eh as <-. apply spec_ret; [done|]. apply HQ; [done|done|]. right. apply In_app_last. }
  assert (∀ m : HProg unit, only hplain m → spec J (m ;; do* o := hcall (HOpen attempt) in
            match o with
            | Some err => Ret (inl err)
            | None => hcall (HCachePut key attempt) ;; Ret (inr attempt)
            end) l1 Q) as Hopen.
  { intros m Hm. eapply preserves_then; [by apply (only_preserves hplain)|done|]. intros _ l2 H2 P2.
    apply (quiet_do hplain); [done..|]. intros o H3. assert (log `prefix_of` l2) as P3 by (by trans l1).
    destruct o as [err|]; [apply spec_ret; [done|]; apply HQ; [done|by apply prefix_app_r|done]|].
    apply (quiet_do hplain); [done..|]. intros y H4. apply spec_ret; [done|]. apply HQ; [done| |by left].
    apply prefix_app_r. by apply prefix_app_r. }
  destruct c as [|a|a]; [by apply (Hopen (Ret tt))|done|]. apply (Hopen (ignored (hcall (HClose a)))). by split.
Qed.

Lemma chat_only attempt st : only hplain (persistChatMessages attempt st).
Proof.
  assert (∀ name n, only hplain (persistNode attempt name n)) as Hn.
  { intros name n. unfold persistNode. destruct (en_ChatMessages n); [done|]. by split. }
  assert (∀ name n, only hplain (persist_handler attempt name n)) as Hh by (intros name [n|]; [apply Hn|done]).
  unfold persistChatMessages. repeat (apply only_bind; [|intros _]); try apply Hh.
  generalize tt as u. induction (rs_Nodes st) as [|n l IH]; intros u; [done|]. simpl. apply only_bind; [apply Hn|]. intros v. apply IH.
Qed.

Definition reply_accepted (r : Reply (bool * string)) : bool := match r with inr (b, _) => b | inl _ => false end.

(** An accepted report was written once, and the lease and the record follow what was
    written. *)
Definition followed (workerID : string) (log : HLog) : Prop :=
  ∃ a st, event (HWrite a st) None ∈ log ∧ identity_of st = identity_of incoming ∧
    lease_follows workerID st (ar_ID a) log ∧ record_follows workerID st (ar_ID a) log.

Definition report_post (workerID : string) (r : Reply (bool * string)) (log : HLog) : Prop :=
  count written log = (if reply_accepted r then 1 else 0)%nat ∧ (reply_accepted r = true → followed workerID log).

Lemma unwritten_post workerID r log : reply_accepted r = false → count written log = 0%nat → report_post workerID r log.
Proof. intros Hr Hn. unfold report_post. by rewrite Hr. Qed.

Lemma accept_spec workerID attempt latest log :
  unwritten log → found_latest (rs_Name incoming) (rs_DAGRunID incoming) (rs_Root incoming) attempt log →
  event (HReadStatus attempt) (inr latest) ∈ log →
  sameAttemptStatus latest incoming = true →
  (isTerminalRunStatus (rs_Status latest) = true → rs_Status incoming = rs_Status latest) →
  spec report_ok (accept_status h workerID attempt latest incoming) log (report_post workerID).
Proof.
  intros Hlog Hf Hr Hsame Hterm. unfold accept_status. apply spec_bind.
  eapply spec_mono; [apply (only_spec hplain report_ok (λ l, unwritten l ∧ log `prefix_of` l));
    [apply artifacts_only|apply artifacts_returns| |by intros l [[? _] _]|done]|done|].
  { intros l c x Hc [Hl Hp]. split; [by apply unwritten_plain|by apply prefix_app_r]. }
  intros [err|st] l1 _ [[H1 P1] Hst]; [apply spec_ret; [apply H1|by apply unwritten_post, H1]|]. apply spec_bind.
  assert (∀ x, x ∈ log → x ∈ l1) as In1 by (intros x Hx; destruct P1 as [k ->]; by apply In_app_l).
  eapply spec_mono; [apply (replace_spec unwritten _ _ _ _ (λ r l, unwritten l ∧ l1 `prefix_of` l ∧
      match r with inr a => a = attempt ∨ event (HCacheMatch (rs_DAGRunID st) (rs_AttemptID latest)) (CacheHit a) ∈ l | inl _ => True end));
    [apply unwritten_plain|done|done]|by intros l [? _]|].
  intros [err|a] l2 _ (H2 & P2 & Ha); [apply spec_ret; [apply H2|by apply unwritten_post, H2]|].
  assert (∀ x, x ∈ log → x ∈ l2) as In2 by (intros x Hx; destruct P2 as [k ->]; by apply In_app_l, In1).
  destruct H2 as [Hok2 Hn2].
  apply spec_do; [done|]. intros w. set (l3 := l2 ++ _).
  assert (report_ok l3) as Hok3.
  { destruct Hok2 as (HW & HU & HT). split_and!; (apply guarded_app; [done|]); intros y [= <-].
    exists attempt, latest. split_and!; [destruct Hf; [left|right]; by apply In2|by apply In2| |done|done|done].
    destruct Ha as [->|Ha]; [by left|right; eauto]. }
  destruct w as [err|]; [apply spec_ret; [done|]; apply unwritten_post; [done|]; subst l3; by rewrite count_plain|].
  assert (after_write a st l3) as Haw.
  { split; [done|]. split; [subst l3; by rewrite count_one, Hn2|apply In_app_last]. }
  apply spec_mono with (after_write a st) (λ r l, after_write a st l ∧ reply_accepted r = true ∧
      lease_follows workerID st (ar_ID a) l ∧ record_follows workerID st (ar_ID a) l);
    [|by intros l [? _]|intros r l _ ((_ & Hn & Hin) & Hacc & HL & HR); split; [by rewrite Hacc|intros _; by exists a, st]].
  eapply preserves_then; [apply (only_preserves hplain); [apply after_write_plain|apply chat_only]|done|]. intros _ l4 H4 _.
  apply spec_bind. pose proof (spec_and _ _ _ _ _ _ (sync_preserves a st workerID Hst l4 H4) (sync_spec workerID st (ar_ID a) l4)) as Hsync.
  eapply spec_mono; [exact Hsync|by intros l [? _]|]. intros _ l5 _ [[H5 _] [HL HR]]. by apply spec_ret.
Qed.

Lemma report_spec workerID log :
  unwritten log → spec report_ok (report h workerID incoming) log (report_post workerID).
Proof.
  intros Hlog. unfold report. apply spec_bind.
  eapply spec_mono; [apply (resolve_spec unwritten _ _ _ _ (λ r l, unwritten l ∧ resolved (rs_Name incoming) (rs_DAGRunID incoming) (rs_Root incoming) r l));
    [eapply stable_weaken; [|apply unwritten_plain]; by intros []|done|done]|by intros l [? _]|].
  intros [err|[attempt latest]] l1 _ [H1 Hx]; [destruct (_ || _); (apply spec_ret; [apply H1|by apply unwritten_post, H1])|].
  destruct Hx as [Hf Hr]. apply spec_bind.
  eapply spec_mono; [apply (only_spec hplain report_ok (λ l, unwritten l ∧ l1 `prefix_of` l));
    [apply decision_only|apply decision_returns| |by intros l [[? _] _]|done]|done|].
  { intros l c x Hc [Hl Hp]. split; [by apply unwritten_plain|by apply prefix_app_r]. }
  intros [[] reason] l2 _ [[H2 P2] Hd]; simpl in Hd; cbv [negb]; [|apply spec_ret; [apply H2|by apply unwritten_post, H2]].
  destruct (Hd eq_refl) as [Hsame Hterm]. destruct P2 as [k ->].
  apply accept_spec; [done| |by apply In_app_l|done|done]. destruct Hf; [left|right]; by apply In_app_l.
Qed.
End Report.

(** ** The request *)

Lemma transformLogPaths_identity dir st : identity_of (transformLogPaths dir st) = identity_of st.
Proof. unfold transformLogPaths. by case_bool_decide. Qed.

Lemma report_ok_identity st st' log : identity_of st = identity_of st' → report_ok st log → report_ok st' log.
Proof.
  intros Hid. assert (∀ latest, sameAttemptStatus latest st = sameAttemptStatus latest st') as Hs.
  { intros latest. unfold sameAttemptStatus. by injection Hid as _ _ _ -> -> _. }
  unfold report_ok, guarded, write_ok, tracked. rewrite Hid. injection Hid as E1 E2 E3 _ _ E6. rewrite E6.
  intros (HW & HU & HT). split_and!; [|exact HU|exact HT].
  intros before ev after [a s] Hlog Hev. specialize (HW before ev after (a, s) Hlog Hev). simpl in *.
  destruct HW as (attempt & latest & HW). exists attempt, latest. by rewrite <-E1, <-E2, <-E3, <-Hs.
Qed.

Lemma followed_identity `{TimeText} h st st' workerID log : identity_of st = identity_of st' → followed h st workerID log → followed h st' workerID log.
Proof. unfold followed. by intros ->. Qed.

