(* ===== verification/CoordDetectLaws.v ===== *)
(** * The coordinator: the detector of lost runs

    In every environment with a lease store, a pass of the detector fails a run only
    when its lease is not alive (and, when worker records are kept, the worker is gone
    too), and forgets a lease only when the run is gone, over, of another attempt, or
    was failed just now. *)

From stdpp Require Import base strings list gmap.
From Stdlib Require Import ZArith Lia.
From S2P Require Import Prelude Status Step Exec GoStrings RunStatus Catchup FileSys RunFiles RunStore RunLife Distributed Prog Backoff QueueProc QueueProcLaws DistRepair DispatchStore Coordinator CoordHandler CoordLease CoordReportLaws.

Open Scope prog_scope.
Open Scope Z_scope.

(** ** Programs of [DistRepair] inside a request *)
Definition liftev (ev : Event DAns) : Event HAns :=
  match ev with existT c x => existT (P := HAns) (HDist c) x end.

Lemma lift_spec {A} (JD : DLog → Prop) (J : HLog → Prop) (Q : A → DLog → Prop) (p : DProg A) log : ∀ dlog,
  spec JD p dlog Q → (∀ k, JD k → J (log ++ map liftev k)) →
  spec J (lift p) (log ++ map liftev dlog) (λ a l, ∃ k, l = log ++ map liftev k ∧ JD k ∧ Q a k).
Proof.
  induction p as [a|c k IH]; intros dlog [HJ HQ] Hj; simpl in *; (split; [by apply Hj|]); [by exists dlog|].
  intros x. specialize (IH x (dlog ++ [event c x]) (HQ x) Hj). by rewrite map_app, app_assoc in IH.
Qed.

(** ** What a log says *)
Definition fail_of (ev : Event HAns) : option Swap :=
  match projT1 ev with
  | HDist (DCompareAndSwap run attemptID expected mutate) => Some (mkSwap run attemptID expected mutate)
  | _ => None
  end.

(** Calls that neither change a status nor forget a lease. *)
Definition dplain (c : HCall) : Prop :=
  match c with
  | HDist (DCompareAndSwap _ _ _ _) | HWrite _ _ | HLeaseDelete _ | HActiveDelete _ => False
  | _ => True
  end.

(** The answer of a swap on the run of the status that settles its attempt: it was
    failed, is gone, or is not the one that was meant any more. *)
Definition settling (ev : Event HAns) (st : DAGRunStatus) (attemptID : string) : Prop :=
  ∃ f res, ev = event (HDist (DCompareAndSwap (status_DAGRun st) (meant st attemptID) (rs_Status st) f)) (inr res) ∧
    (res.2 = true ∨ res.1 = None ∨ ∃ st', res.1 = Some st' ∧ superseded attemptID st' = true).

Section Detect.
Context `{TimeText} (h : Handler).

Abbreviation threshold := (h_staleLeaseThreshold h).

(** The status was read from the latest attempt, or listed as active. *)
Definition status_known (st : DAGRunStatus) (log : HLog) : Prop :=
  (∃ a, event (HReadStatus a) (inr st) ∈ log ∧ statusEligibleForDistributedRepair (rs_Status st) = true) ∨
  (∃ sts, event (HListStatuses [Running; NotStarted]) (inr sts) ∈ log ∧ Some st ∈ sts).

(** No lease keeps the attempt alive: its lease was listed as stale, or the lease under
    the key of the attempt is not there, is stale or is of another attempt. *)
Definition lease_dead (st : DAGRunStatus) (attemptID : string) (log : HLog) : Prop :=
  ∃ now, event (HDist DNow) now ∈ log ∧
    ((∃ leases l, event HLeaseListAll (inr leases) ∈ log ∧ l ∈ leases ∧
        LeaseIdentityMatchesStatus (Some l) (Some st) attemptID = true ∧ IsFresh l now threshold = false) ∨
     (∃ lease, let key := AttemptKeyForStatus (Some st) attemptID in
        (event (HDist (DGetLease key)) (inr lease) ∈ log ∨
         lease = None ∧ ∃ err, event (HDist (DGetLease key)) (inl err) ∈ log ∧ Is err ErrDAGRunLeaseNotFound = true) ∧
        LeaseMatchesStatus lease (Some st) attemptID now threshold = false)).

(** The swap is on the run, the attempt and the status that were read, and marks the
    run failed. *)
Definition fail_ok (x : Swap) (log : HLog) : Prop :=
  ∃ st attemptID, sw_run x = status_DAGRun st ∧ sw_attemptID x = meant st attemptID ∧ sw_expected x = rs_Status st ∧
    (∃ workerID now, event (HDist DNow) now ∈ log ∧ marks_failed workerID now (sw_mutate x)) ∧
    status_known st log ∧ lease_dead st attemptID log ∧
    (h_workerHeartbeatStore h = true → ∃ workerID k, (∀ ev, ev ∈ k → liftev ev ∈ log) ∧
       cas_ok threshold (h_staleHeartbeatThreshold h) st attemptID workerID x k).

(** The run of a lease or of a record cannot be read any more. *)
Definition run_gone (name id : string) (root : DAGRunRef) (log : HLog) : Prop :=
  ∃ err, run_missing err = true ∧
    (event (HFindAttempt (mkDAGRunRef name id)) (inl err) ∈ log ∨ event (HFindSubAttempt root id) (inl err) ∈ log ∨
     ∃ a, found_latest name id root a log ∧ event (HReadStatus a) (inl err) ∈ log).

(** The stored status has no place for the lease, or for the record. *)
Definition lease_outdated (l : DAGRunLease) (st : DAGRunStatus) (attemptID : string) : Prop :=
  distributedWorkerIDForStatus st (dl_WorkerID l) = None ∨
  LeaseIdentityMatchesStatus (Some l) (Some st) attemptID = false ∨ statusEligibleForDistributedRepair (rs_Status st) = false.
Definition record_outdated (r : ActiveDistributedRun) (st : DAGRunStatus) : Prop :=
  distributedWorkerIDForStatus st (adr_WorkerID r) = None ∨ indexedDistributedRunMatchesStatus r st = false.

(** After the lease was found dead: the swap settled it, or the status that is stored
    is of another attempt. *)
Definition settled_dead (st : DAGRunStatus) (attemptID : string) (log : HLog) : Prop :=
  lease_dead st attemptID log ∧ ((∃ ev, ev ∈ log ∧ settling ev st attemptID) ∨ superseded attemptID st = true).

Definition forget_ok (key : string) (log : HLog) : Prop :=
  (∃ leases l, event HLeaseListAll (inr leases) ∈ log ∧ l ∈ leases ∧ dl_AttemptKey l = key ∧
     (run_gone (ref_Name (dl_DAGRun l)) (ref_ID (dl_DAGRun l)) (dl_Root l) log ∨
      ∃ a st, found_latest (ref_Name (dl_DAGRun l)) (ref_ID (dl_DAGRun l)) (dl_Root l) a log ∧ event (HReadStatus a) (inr st) ∈ log ∧
        (lease_outdated l st (lease_attempt l st a) ∨ settled_dead st (lease_attempt l st a) log))) ∨
  (∃ records r, event HActiveListAll (inr records) ∈ log ∧ r ∈ records ∧ adr_AttemptKey r = key ∧
     (run_gone (ref_Name (adr_DAGRun r)) (ref_ID (adr_DAGRun r)) (adr_Root r) log ∨
      ∃ a st, found_latest (ref_Name (adr_DAGRun r)) (ref_ID (adr_DAGRun r)) (adr_Root r) a log ∧ event (HReadStatus a) (inr st) ∈ log ∧
        (record_outdated r st ∨ settled_dead st (adr_AttemptID r) log))) ∨
  (∃ sts st attemptID, event (HListStatuses [Running; NotStarted]) (inr sts) ∈ log ∧ Some st ∈ sts ∧
     key = AttemptKeyForStatus (Some st) attemptID ∧ settled_dead st attemptID log).

Definition detect_ok (log : HLog) : Prop :=
  guarded fail_of fail_ok log ∧ guarded untrack_of forget_ok log ∧ guarded write_of (λ _ _, False) log.

Lemma detect_ok_nil : detect_ok [].
Proof. split_and!; apply guarded_nil. Qed.

Lemma detect_ok_plain : stable dplain detect_ok.
Proof.
  intros log c x Hc (HF & HU & HW).
  split_and!; (eapply (guarded_stable dplain); [|done|done]); intros e y He; destruct e as [[]| | | | | | | | | | | | | | | | | | | | | | | | | | | | | | | | | | | | | | | | |]; by simpl in He.
Qed.

(** ** More calls keep what a log says *)
Lemma status_known_more st log log' : log ⊆ log' → status_known st log → status_known st log'.
Proof. unfold status_known. intros Hs. naive_solver. Qed.

Lemma lease_dead_more st attemptID log log' : log ⊆ log' → lease_dead st attemptID log → lease_dead st attemptID log'.
Proof.
  unfold lease_dead. intros Hs (now & Hn & [(ls & l & Hl)|(lease & Hl & Hm)]); exists now; (split; [by apply Hs|]).
  - left. naive_solver.
  - right. exists lease. naive_solver.
Qed.

Lemma run_gone_more name id root log log' : log ⊆ log' → run_gone name id root log → run_gone name id root log'.
Proof. unfold run_gone, found_latest. intros Hs. naive_solver. Qed.

Lemma settled_dead_more st attemptID log log' : log ⊆ log' → settled_dead st attemptID log → settled_dead st attemptID log'.
Proof. intros Hs [Hl Hx]. split; [by eapply lease_dead_more|]. naive_solver. Qed.

Lemma forget_ok_more key log log' : log ⊆ log' → forget_ok key log → forget_ok key log'.
Proof.
  intros Hs [(ls & l & Hl & Hin & Hk & Hx)|[(rs & r & Hr & Hin & Hk & Hx)|(sts & st & id & Hl & Hin & Hk & Hx)]].
  - left. exists ls, l. split_and!; [by apply Hs|done|done|]. destruct Hx as [Hx|(a & st & Hf & Hr & Hx)]; [left; by eapply run_gone_more|].
    right. exists a, st. split_and!; [destruct Hf; [left|right]; by apply Hs|by apply Hs|]. destruct Hx; [by left|right; by eapply settled_dead_more].
  - right; left. exists rs, r. split_and!; [by apply Hs|done|done|]. destruct Hx as [Hx|(a & st & Hf & Hr' & Hx)]; [left; by eapply run_gone_more|].
    right. exists a, st. split_and!; [destruct Hf; [left|right]; by apply Hs|by apply Hs|]. destruct Hx; [by left|right; by eapply settled_dead_more].
  - right; right. exists sts, st, id. split_and!; [by apply Hs|done|done|by eapply settled_dead_more].
Qed.

(** ** Forgetting a lease *)
Lemma delete_call c key log :
  match c with HLeaseDelete k | HActiveDelete k => k = key | _ => False end →
  detect_ok log → forget_ok key log → safe detect_ok (ignored (hcall c)) log.
Proof.
  intros Hc Hok Hf. apply spec_do; [done|]. intros x. apply spec_ret; [|done]. destruct Hok as (HF & HU & HW).
  split_and!; (apply guarded_app; [done|]); intros y Hy; destruct c; simpl in *; try done; (injection Hy as <-; by subst).
Qed.

Lemma delete_safe key log : detect_ok log → forget_ok key log → safe detect_ok (deleteDistributedTracking h key) log.
Proof.
  intros Hok Hf. apply (spec_then _ _ _ _ (λ _ _, True)); [|intros _ l Hl Hp _].
  - unfold deleteDistributedLease. destruct (_ || _); [by apply spec_ret|]. by eapply (delete_call _ key).
  - unfold deleteActiveDistributedRun. destruct (_ || _); [by apply spec_ret|]. apply (delete_call _ key); [done..|].
    by eapply forget_ok_more; [apply prefix_incl|].
Qed.

(** ** Failing a run *)

(** A status that is known, with a lease that is not alive; the attempt is the one the
    status names, if it names one. *)
Definition suspect (st : DAGRunStatus) (attemptID : string) (log : HLog) : Prop :=
  status_known st log ∧ lease_dead st attemptID log ∧ (attemptID ≠ "" → meant st attemptID = attemptID).

Lemma suspect_more st attemptID log log' : log ⊆ log' → suspect st attemptID log → suspect st attemptID log'.
Proof. intros Hs (Hk & Hd & Hm). split_and!; [by eapply status_known_more|by eapply lease_dead_more|done]. Qed.

Lemma detect_swap_ok run id expected f x log :
  detect_ok log → fail_ok (mkSwap run id expected f) log → detect_ok (log ++ [event (HDist (DCompareAndSwap run id expected f)) x]).
Proof.
  intros (HF & HU & HW) Hf. split_and!; (apply guarded_app; [done|]); intros y Hy; simpl in Hy; try done. by injection Hy as <-.
Qed.

Section Without.
Hypothesis (Hnoworker : h_workerHeartbeatStore h = false).

Lemma mark_failed_safe st attemptID attemptKey workerID log :
  detect_ok log → suspect st attemptID log →
  (∀ l, log ⊆ l → settled_dead st attemptID l → forget_ok attemptKey l) →
  safe detect_ok (markStatusLeaseRunFailed h st attemptID attemptKey (DistributedLeaseExpiredReason workerID)) log.
Proof.
  intros Hok Hs Hforget. unfold markStatusLeaseRunFailed, failDistributedAttemptIfCurrent. case_bool_decide as Hne; [by apply spec_ret|].
  apply (quiet_do dplain); [apply detect_ok_plain|done..|]. intros now H1. set (l1 := log ++ _) in *.
  assert (log ⊆ l1) as S1 by (intros x Hx; by apply In_app_l).
  destruct Hs as (Hk & Hd & Hm). specialize (Hm Hne). set (mutate := λ s, _).
  assert (∀ x, detect_ok (l1 ++ [event (HDist (DCompareAndSwap (status_DAGRun st) attemptID (rs_Status st) mutate)) x])) as H2.
  { intros x. apply detect_swap_ok; [done|]. exists st, attemptID. rewrite Hnoworker.
    split_and!; [done|done|done| |by eapply status_known_more|by eapply lease_dead_more|done].
    exists workerID, now. split; [apply In_app_last|done]. }
  simpl. split; [done|]. intros x. specialize (H2 x). set (l2 := l1 ++ _) in *.
  assert (log ⊆ l2) as S2 by (intros y Hy; apply In_app_l; by apply S1).
  assert (∀ res, x = inr res → (res.2 = true ∨ res.1 = None ∨ ∃ st', res.1 = Some st' ∧ superseded attemptID st' = true) →
            safe detect_ok (deleteDistributedTracking h attemptKey) l2) as Hdel.
  { intros res -> Hres. apply delete_safe; [done|]. apply Hforget; [done|]. split; [by eapply lease_dead_more|].
    left. eexists. split; [apply In_app_last|]. exists mutate, res. by rewrite Hm. }
  destruct x as [err|[[st'|] []]]; simpl; [done|..].
  - destruct (superseded _ _); eapply Hdel; try done; by left.
  - destruct (superseded attemptID st') eqn:Ec; (destruct (negb _ || _));
      simpl; rewrite ?Ec; try done; (eapply Hdel; [done|]; right; right; eauto).
  - eapply Hdel; [done|]. by left.
  - eapply Hdel; [done|]. right. by left.
Qed.
End Without.

(** What the confirmation returned: the run was failed, or the status as it is stored. *)
Definition confirmed (st : DAGRunStatus) (attemptID : string) (r : RepairResult) (log : DLog) : Prop :=
  let swap f := DCompareAndSwap (status_DAGRun st) (meant st attemptID) (rs_Status st) f in
  match r with
  | (_, true, None) => ∃ f current, event (swap f) (inr (current, true)) ∈ log
  | (Some st', false, None) => st' = st ∨ ∃ f, event (swap f) (inr (Some st', false)) ∈ log
  | _ => True
  end.

Lemma confirm_result st fallbackAttemptID fallbackWorkerID :
  spec (λ _, True) (ConfirmAndRepairStaleDistributedRun true threshold (h_staleHeartbeatThreshold h) st fallbackAttemptID fallbackWorkerID)
    [] (confirmed st fallbackAttemptID).
Proof.
  assert (∀ (e : option Error) log, spec (λ _, True) (Ret (Some st, false, e) : DProg RepairResult) log (confirmed st fallbackAttemptID)) as Hret.
  { intros [e|] log; (apply spec_ret; [done|]); [done|by left]. }
  unfold ConfirmAndRepairStaleDistributedRun. cbv zeta. cbn [negb]. destruct (remoteWorkerIDForStatus _ _); [|apply Hret].
  destruct (negb _); [apply Hret|]. fold (meant st fallbackAttemptID). set (attemptID := meant st fallbackAttemptID).
  case_bool_decide; [apply Hret|]. case_bool_decide; [apply Hret|]. apply spec_do; [done|]. intros now.
  apply spec_do; [done|]. intros l. destruct (lease_verdict _ _ _ _ l); [apply Hret..|]. apply spec_do; [done|]. intros w.
  destruct (worker_verdict _ _ _ _ w); [apply Hret..|]. apply spec_do; [done|].
  intros [err|[[current|] []]]; [by apply spec_ret|..]; try apply Hret; (apply spec_ret; [done|]).
  - do 2 eexists. apply In_app_last.
  - right. eexists. apply In_app_last.
  - do 2 eexists. apply In_app_last.
Qed.

Lemma liftev_in k ev : ev ∈ k → liftev ev ∈ map liftev k.
Proof. apply list_elem_of_fmap_2. Qed.

Section With.
Hypothesis (Hworker : h_workerHeartbeatStore h = true).

(** The calls of the confirmation are as they should be. *)
Lemma lifted_ok st attemptID workerID log k :
  detect_ok log → suspect st attemptID log →
  guarded cas_of (cas_ok threshold (h_staleHeartbeatThreshold h) st attemptID workerID) k → detect_ok (log ++ map liftev k).
Proof.
  intros Hok Hs. induction k as [|ev k IH] using rev_ind; intros Hg; [by rewrite app_nil_r|].
  apply guarded_inv in Hg as [Hg Hev]. specialize (IH Hg). rewrite map_app, app_assoc. destruct ev as [[] x]; simpl;
    [by apply (detect_ok_plain _ (HDist _))..|]. apply (detect_swap_ok _ _ _ mutate x); [done|]. specialize (Hev _ eq_refl).
  assert (log ⊆ log ++ map liftev k) as S by (intros y Hy; by apply In_app_l).
  assert (∀ e, e ∈ k → liftev e ∈ log ++ map liftev k) as Sk by (intros e He; apply elem_of_app; right; by apply liftev_in).
  exists st, attemptID. pose proof Hev as (Hrun & Hid & _ & Hexp & _ & (w & now & _ & _ & _ & Hnow & Hmark & _)). destruct Hs as (Hk & Hd & _).
  split_and!; [done|done|done| |by eapply status_known_more|by eapply lease_dead_more|intros _; by exists workerID, k].
  exists w, now. split; [exact (Sk _ Hnow)|done].
Qed.

Lemma confirm_safe st attemptID workerID log :
  detect_ok log → suspect st attemptID log →
  spec detect_ok (confirmAndRepairStaleDistributedRun h st attemptID workerID) log
    (λ r l, match r with
            | (_, true, None) => ∃ ev, ev ∈ l ∧ settling ev st attemptID
            | (Some st', false, None) => superseded attemptID st' = true → st' = st ∨ ∃ ev, ev ∈ l ∧ settling ev st attemptID
            | _ => True
            end).
Proof.
  intros Hok Hs. pose proof (spec_and _ _ _ _ _ _ (repair_run_spec true threshold (h_staleHeartbeatThreshold h) st attemptID workerID)
    (confirm_result st attemptID workerID)) as Hsp.
  pose proof (lift_spec _ detect_ok _ _ log [] Hsp) as Hl. rewrite app_nil_r in Hl.
  eapply spec_mono; [apply Hl; intros k [Hk _]; by eapply lifted_ok|done|].
  intros [[cur rep] err] l _ (k & -> & _ & _ & Hc). unfold confirmed in Hc. destruct err as [err|]; [by destruct cur, rep|]. destruct rep.
  - assert (∃ f current, event (DCompareAndSwap (status_DAGRun st) (meant st attemptID) (rs_Status st) f) (inr (current, true)) ∈ k)
      as (f & current & Hin) by (by destruct cur).
    assert (∃ ev, ev ∈ log ++ map liftev k ∧ settling ev st attemptID) as Hset; [|by destruct cur].
    eexists. split; [apply elem_of_app; right; apply liftev_in, Hin|]. exists f, (current, true). split; [done|]. by left.
  - destruct cur as [st'|]; [|done]. intros Hsup. destruct Hc as [->|(f & Hin)]; [by left|right].
    eexists. split; [apply elem_of_app; right; apply liftev_in, Hin|]. exists f, (Some st', false). split; [done|]. right; right; eauto.
Qed.
End With.

(** ** Reconciling *)
Lemma upsert_lease_only workerID st attemptID : only dplain (upsertDistributedLeaseFromStatus h workerID st attemptID).
Proof. unfold upsertDistributedLeaseFromStatus. destruct (negb _); [done|]. cbv zeta. destruct (_ || _ || _); [done|]. by repeat split. Qed.

Lemma upsert_active_only st workerID attemptID : only dplain (upsertActiveDistributedRun h st workerID attemptID).
Proof. unfold upsertActiveDistributedRun. destruct (negb _); [done|]. cbv zeta. destruct (_ || _); [done|]. by repeat split. Qed.

Lemma restore_only workerID st attemptID : only dplain (restoreConfirmedDistributedRunTrackingFromStatus h workerID st attemptID).
Proof.
  unfold restoreConfirmedDistributedRunTrackingFromStatus.
  destruct (rs_Status st); try done; (apply only_bind; [apply upsert_lease_only|intros _; apply upsert_active_only]).
Qed.

Lemma only_safe {A} (p : HProg A) log : only dplain p → detect_ok log → safe detect_ok p log.
Proof. intros Ho Hok. eapply spec_mono; [apply (only_preserves dplain detect_ok); [apply detect_ok_plain|done|done]|done|done]. Qed.

Lemma fail_or_confirm_safe st attemptKey attemptID workerID log :
  detect_ok log → suspect st attemptID log →
  (∀ l, log ⊆ l → settled_dead st attemptID l → forget_ok attemptKey l) →
  safe detect_ok (fail_or_confirm h st attemptKey attemptID workerID) log.
Proof.
  intros Hok Hs Hforget. unfold fail_or_confirm. destruct (h_workerHeartbeatStore h) eqn:Ew; cbv [negb]; [|by apply mark_failed_safe].
  eapply spec_then; [by apply confirm_safe|]. intros [[cur rep] err] l Hl Hp Hr. apply prefix_incl in Hp.
  assert ((∃ ev, ev ∈ l ∧ settling ev st attemptID) ∨ superseded attemptID st = true → safe detect_ok (deleteDistributedTracking h attemptKey) l) as Hdel.
  { intros Hx. apply delete_safe; [done|]. apply Hforget; [done|]. split; [eapply lease_dead_more; [done|apply Hs]|done]. }
  destruct err as [err|]; [by destruct cur, rep; apply spec_ret|]. destruct rep; [destruct cur; (apply Hdel; by left)|].
  destruct cur as [st'|]; [|by apply spec_ret]. simpl in *. destruct (superseded attemptID st') eqn:Esup.
  - destruct (Hr eq_refl) as [->|Hset]; apply Hdel; [by right|by left].
  - destruct (distributedWorkerIDForStatus st' workerID); [|by apply spec_ret]. apply only_safe; [apply restore_only|done].
Qed.

(** A run that cannot be resolved is gone. *)
Hypothesis (Hstore : h_dagRunStore h = true).

Lemma missing_gone name id root err log : run_missing err = true → resolve_error h name id root err log → run_gone name id root log.
Proof.
  intros Hm [Hx|[->|Hx]]; [congruence| |by exists err]. by vm_compute in Hm.
Qed.

Lemma resolving_dplain : stable resolving detect_ok.
Proof. eapply stable_weaken; [|apply detect_ok_plain]. by intros []. Qed.

Section Pass.
Context (now : Time).

(** A lease that matches is of the attempt it is taken for. *)
Lemma lease_attempt_meant l st a :
  LeaseIdentityMatchesStatus (Some l) (Some st) (lease_attempt l st a) = true → meant st (lease_attempt l st a) = lease_attempt l st a.
Proof.
  unfold LeaseIdentityMatchesStatus, meant, lease_attempt. cbv zeta. intros Hm.
  repeat (case_bool_decide; simplify_eq/=; try done); destruct (_ && _) in Hm; done.
Qed.

Lemma reconcile_lease_safe leases l log :
  event HLeaseListAll (inr leases) ∈ log → event (HDist DNow) now ∈ log → l ∈ leases →
  detect_ok log → safe detect_ok (reconcileDistributedLease h now l) log.
Proof.
  intros Hls Hnow Hin Hok. unfold reconcileDistributedLease. case_bool_decide; [by apply spec_ret|].
  eapply spec_then; [apply (resolve_spec _ _ _ _ _ _ (resolved h (ref_Name (dl_DAGRun l)) (ref_ID (dl_DAGRun l)) (dl_Root l)));
    [apply resolving_dplain|done|by intros]|]. intros r l1 H1 P1 Hr. apply prefix_incl in P1.
  assert (∀ l2, l1 ⊆ l2 → run_gone (ref_Name (dl_DAGRun l)) (ref_ID (dl_DAGRun l)) (dl_Root l) l2 ∨
      (∃ a st, found_latest (ref_Name (dl_DAGRun l)) (ref_ID (dl_DAGRun l)) (dl_Root l) a l2 ∧ event (HReadStatus a) (inr st) ∈ l2 ∧
        (lease_outdated l st (lease_attempt l st a) ∨ settled_dead st (lease_attempt l st a) l2)) → forget_ok (dl_AttemptKey l) l2) as Hf.
  { intros l2 S2 Hx. left. exists leases, l. split_and!; [by apply S2, P1|done..]. }
  destruct r as [err|[a st]].
  { destruct (run_missing err) eqn:Em; [|by apply spec_ret]. apply delete_safe; [done|]. apply Hf; [done|]. left. by eapply missing_gone. }
  destruct Hr as [Ha Hst]. cbv zeta.
  assert (lease_outdated l st (lease_attempt l st a) → safe detect_ok (deleteDistributedTracking h (dl_AttemptKey l)) l1) as Hdel.
  { intros Ho. apply delete_safe; [done|]. apply Hf; [done|]. right. exists a, st. split_and!; [done|done|by left]. }
  destruct (distributedWorkerIDForStatus st (dl_WorkerID l)) as [workerID|] eqn:Ew; [|apply Hdel; by left].
  destruct (LeaseIdentityMatchesStatus _ _ _) eqn:Ei; cbv [negb]; [|apply Hdel; right; by left].
  destruct (statusEligibleForDistributedRepair _) eqn:Ee; [|apply Hdel; right; by right].
  destruct (IsFresh l now threshold) eqn:Efr; [apply only_safe; [apply upsert_active_only|done]|].
  apply fail_or_confirm_safe; [done| |].
  - split_and!; [left; by exists a| |intros _; by apply lease_attempt_meant].
    exists now. split; [by apply P1|]. left. exists leases, l. split_and!; [by apply P1|done..].
  - intros l2 S2 Hd. apply Hf; [done|]. right. exists a, st. split_and!; [|by apply S2|by right].
    destruct Ha; [left|right]; by apply S2.
Qed.

(** A lease that was read. *)
Definition lease_read (key : string) (r : option (option DAGRunLease)) (log : HLog) : Prop :=
  match r with
  | Some lease => event (HDist (DGetLease key)) (inr lease) ∈ log ∨
                  lease = None ∧ ∃ err, event (HDist (DGetLease key)) (inl err) ∈ log ∧ Is err ErrDAGRunLeaseNotFound = true
  | None => True
  end.

Lemma read_lease_spec key log : detect_ok log → spec detect_ok (read_lease key) log (lease_read key).
Proof.
  intros Hok. unfold read_lease. apply (quiet_do dplain); [apply detect_ok_plain|done..|]. intros r Hr. apply spec_ret; [done|].
  destruct r as [err|lease]; [|left; apply In_app_last]. destruct (Is err _) eqn:Ei; [|done].
  right. split; [done|]. exists err. split; [apply In_app_last|done].
Qed.

Lemma read_dead st attemptID lease log :
  event (HDist DNow) now ∈ log → lease_read (AttemptKeyForStatus (Some st) attemptID) (Some lease) log → LeaseMatchesStatus lease (Some st) attemptID now threshold = false →
  lease_dead st attemptID log.
Proof. intros Hnow Hr Hm. exists now. split; [done|]. right. by exists lease. Qed.

Lemma matches_eligible r st : indexedDistributedRunMatchesStatus r st = true → statusEligibleForDistributedRepair (rs_Status st) = true.
Proof. unfold indexedDistributedRunMatchesStatus. destruct (distributedWorkerIDForStatus _ _); [|done]. by destruct (statusEligibleForDistributedRepair _). Qed.

(** A record that matches is under the key of the attempt. *)
Lemma matches_key r st :
  indexedDistributedRunMatchesStatus r st = true →
  adr_AttemptKey r = AttemptKeyForStatus (Some st) (adr_AttemptID r) ∧ (adr_AttemptID r ≠ "" → meant st (adr_AttemptID r) = adr_AttemptID r).
Proof.
  unfold indexedDistributedRunMatchesStatus. destruct (distributedWorkerIDForStatus _ _); [|done]. destruct (negb _); [done|]. cbv zeta.
  destruct (_ || _) eqn:Ek; [done|]. apply orb_false_iff in Ek as [_ Ek%negb_false_iff%bool_decide_eq_true]. destruct (_ && _) eqn:Ei; [done|].
  intros _. split; [done|]. intros Hne. rewrite bool_decide_true in Ei by done. by apply negb_false_iff, bool_decide_eq_true in Ei.
Qed.

Lemma reconcile_record_safe records r log :
  event HActiveListAll (inr records) ∈ log → event (HDist DNow) now ∈ log → r ∈ records →
  detect_ok log → safe detect_ok (reconcileActiveRun h now r) log.
Proof.
  intros Hls Hnow Hin Hok. unfold reconcileActiveRun. case_bool_decide; [by apply spec_ret|].
  eapply spec_then; [apply (resolve_spec _ _ _ _ _ _ (resolved h (ref_Name (adr_DAGRun r)) (ref_ID (adr_DAGRun r)) (adr_Root r)));
    [apply resolving_dplain|done|by intros]|]. intros x l1 H1 P1 Hr. apply prefix_incl in P1.
  assert (∀ l2, l1 ⊆ l2 → run_gone (ref_Name (adr_DAGRun r)) (ref_ID (adr_DAGRun r)) (adr_Root r) l2 ∨
      (∃ a st, found_latest (ref_Name (adr_DAGRun r)) (ref_ID (adr_DAGRun r)) (adr_Root r) a l2 ∧ event (HReadStatus a) (inr st) ∈ l2 ∧
        (record_outdated r st ∨ settled_dead st (adr_AttemptID r) l2)) → forget_ok (adr_AttemptKey r) l2) as Hf.
  { intros l2 S2 Hx. right; left. exists records, r. split_and!; [by apply S2, P1|done..]. }
  destruct x as [err|[a st]].
  { destruct (run_missing err) eqn:Em; [|by apply spec_ret]. apply delete_safe; [done|]. apply Hf; [done|]. left. by eapply missing_gone. }
  destruct Hr as [Ha Hst].
  assert (record_outdated r st → safe detect_ok (deleteDistributedTracking h (adr_AttemptKey r)) l1) as Hdel.
  { intros Ho. apply delete_safe; [done|]. apply Hf; [done|]. right. exists a, st. split_and!; [done|done|by left]. }
  destruct (distributedWorkerIDForStatus st (adr_WorkerID r)) as [workerID|] eqn:Ew; [|apply Hdel; by left].
  destruct (indexedDistributedRunMatchesStatus r st) eqn:Ei; cbv [negb]; [|apply Hdel; by right].
  destruct (matches_key r st Ei) as [Hkey Hmeant].
  eapply spec_then; [by apply read_lease_spec|]. intros [lease|] l2 H2 P2 Hl; [|by apply spec_ret]. apply prefix_incl in P2.
  destruct (LeaseMatchesStatus _ _ _ _ _) eqn:Em; [apply only_safe; [apply upsert_active_only|done]|].
  apply fail_or_confirm_safe; [done| |].
  - split_and!; [left; exists a; split; [by apply P2|by eapply matches_eligible]| |done].
    eapply read_dead; [by apply P2, P1|by rewrite <-Hkey|done].
  - intros l3 S3 Hd. apply Hf; [by trans l2|]. right. exists a, st. split_and!; [|by apply S3, P2|by right].
    destruct Ha; [left|right]; by apply S3, P2.
Qed.

Lemma resolve_id_only st : only dplain (resolveAttemptIDForStatus st).
Proof. unfold resolveAttemptIDForStatus. case_bool_decide; [done|]. apply only_bind; [by destruct (negb _); split|done]. Qed.

Lemma resolve_id_returns st :
  returns (resolveAttemptIDForStatus st) (λ r, match r with inr id => meant st id = id | inl _ => True end).
Proof.
  unfold resolveAttemptIDForStatus, meant. case_bool_decide as E; [simpl; by rewrite bool_decide_false|].
  eapply returns_bind; [apply returns_True|]. intros [err|a] _; [done|]. simpl. by case_bool_decide.
Qed.

Lemma reconcile_orphan_safe sts s log :
  event (HListStatuses [Running; NotStarted]) (inr sts) ∈ log → event (HDist DNow) now ∈ log → s ∈ sts →
  detect_ok log → safe detect_ok (reconcileOrphan h now s) log.
Proof.
  intros Hls Hnow Hin Hok. unfold reconcileOrphan. destruct s as [st|]; [|by apply spec_ret]. destruct (negb _); [by apply spec_ret|].
  eapply spec_then; [apply (only_spec dplain detect_ok detect_ok); [apply resolve_id_only|apply resolve_id_returns|apply detect_ok_plain|done|done]|].
  intros [err|attemptID] l1 H1 P1 [_ Hid]; [by apply spec_ret|].
  cbv zeta. case_bool_decide; [by apply spec_ret|]. apply prefix_incl in P1.
  eapply spec_then; [by apply read_lease_spec|]. intros [lease|] l2 H2 P2 Hl; [|by apply spec_ret]. apply prefix_incl in P2.
  destruct (LeaseMatchesStatus _ _ _ _ _) eqn:Em; [by apply spec_ret|]. apply fail_or_confirm_safe; [done| |].
  - split_and!; [right; exists sts; split; [by apply P2, P1|done]| |done]. eapply read_dead; [by apply P2, P1|done..].
  - intros l3 S3 Hd. right; right. exists sts, st, attemptID. split_and!; [by apply S3, P2, P1|done..].
Qed.
End Pass.

Lemma detect_safe : h_dagRunLeaseStore h = true → safe detect_ok (detectStaleLeases h) [].
Proof.
  intros Hlease. unfold detectStaleLeases. rewrite Hstore, Hlease. cbn [negb].
  apply (quiet_do dplain); [apply detect_ok_plain|done|apply detect_ok_nil|]. intros now H1. set (l1 := [] ++ _) in *.
  assert (event (HDist DNow) now ∈ l1) as Hnow by apply In_app_last.
  assert (∀ l, l1 `prefix_of` l → event (HDist DNow) now ∈ l) as Hnow' by (intros l [k ->]; by apply In_app_l).
  eapply spec_then with (Q := λ _ _, True).
  { unfold detectLeasedDistributedRuns. apply (quiet_do dplain); [apply detect_ok_plain|done..|]. intros [err|leases] H2; [by apply spec_ret|].
    eapply (safe_peach _ _ _ (l1 ++ [event HLeaseListAll (inr leases)])); [|done|done]. intros _ l log Hin Hlog [k ->].
    apply (reconcile_lease_safe _ leases); [apply In_app_l, In_app_last|do 2 apply In_app_l; done|done|done]. }
  intros _ l2 H2 P2 _. destruct (h_activeDistributedRunStore h).
  - unfold detectIndexedDistributedStatuses. apply (quiet_do dplain); [apply detect_ok_plain|done..|]. intros [err|records] H3; [by apply spec_ret|].
    eapply (safe_peach _ _ _ (l2 ++ [event HActiveListAll (inr records)])); [|done|done]. intros _ r log Hin Hlog [k ->].
    apply (reconcile_record_safe _ records); [apply In_app_l, In_app_last|do 2 apply In_app_l; by apply Hnow'|done|done].
  - unfold detectOrphanedDistributedStatuses. apply (quiet_do dplain); [apply detect_ok_plain|done..|]. intros [err|sts] H3; [by apply spec_ret|].
    eapply (safe_peach _ _ _ (l2 ++ [event (HListStatuses _) (inr sts)])); [|done|done]. intros _ s log Hin Hlog [k ->].
    apply (reconcile_orphan_safe _ sts); [apply In_app_l, In_app_last|do 2 apply In_app_l; by apply Hnow'|done|done].
Qed.
End Detect.

(** C14. The detector of lost runs, with a lease store, whatever the stores answer.  A
    pass changes a run only by a compare-and-swap on the run, the attempt and the status
    it read, which marks the run and its open nodes failed, and only after the lease of
    that attempt was listed as stale, or the lease under the key of the attempt was read
    as missing, stale or of another attempt; when worker records are kept, only after the
    confirmation found neither the lease nor the worker alive.  A lease or a record is
    forgotten only when its run is gone, is over, has another attempt or worker, or was
    settled by such a swap on that run.  No status is written in any other way. *)
Theorem lease_detector_guarded `{TimeText} h env :
  h_dagRunLeaseStore h = true →
  detect_ok h (exec env (detectStaleLeases h) []).2.
Proof.
  intros Hlease. destruct (h_dagRunStore h) eqn:Hstore.
  - apply (spec_exec env _ _ _ _ (detect_safe h Hstore Hlease)).
  - unfold detectStaleLeases. rewrite Hstore. apply detect_ok_nil.
Qed.
