(* ===== verification/CoordDispatchLaws.v ===== *)
(** * The coordinator: dispatching tasks and acknowledging claims

    Whatever the stores and the pollers answer, a task leaves the coordinator at most
    once, with the identifiers of an attempt that was opened for it; a task of a queued
    run touches nothing unless that attempt is still the queued one; and a claim is
    given up only after the lease of its attempt was written. *)

From stdpp Require Import base strings list gmap.
From Stdlib Require Import ZArith Lia.
From S2P Require Import Prelude Status Step Exec GoStrings RunStatus Catchup FileSys RunFiles RunStore RunLife Distributed Prog Backoff QueueProc QueueProcLaws DistRepair DispatchStore Coordinator CoordHandler CoordDispatch CoordReportLaws.

Open Scope prog_scope.
Open Scope Z_scope.

(** ** What a log says *)
Definition sent_of (ev : Event HAns) : option Task :=
  match projT1 ev with HEnqueue t | HHandOff t => Some t | _ => None end.

Definition was_sent (ev : Event HAns) : bool := match sent_of ev with Some _ => true | None => false end.

(** The task was taken. *)
Definition delivered (ev : Event HAns) : bool :=
  match ev with
  | existT c x =>
      match c as c' return HAns c' → bool with
      | HEnqueue _ | HHandOff _ => λ r, match r with None => true | Some _ => false end
      | _ => λ _, false
      end x
  end.

(** Calls that change an attempt or send a task. *)
Definition acts (ev : Event HAns) : option unit :=
  match projT1 ev with
  | HEnqueue _ | HHandOff _ | HWrite _ _ | HOpen _ | HCreateAttempt _ _ _ _ | HCreateSubAttempt _ _ => Some tt
  | _ => None
  end.

Definition idle (c : HCall) : Prop :=
  match c with
  | HEnqueue _ | HHandOff _ | HWrite _ _ | HOpen _ | HCreateAttempt _ _ _ _ | HCreateSubAttempt _ _ => False
  | _ => True
  end.

Section Dispatch.
Context {times : TimeText} {messages : ErrorMessage} (h : Handler) (task : Task).

(** The key of an attempt for the task. *)
Definition key_for (attemptID : string) : string :=
  if isRootRun task then GenerateAttemptKey (task_Target task) (task_DagRunId task) (task_Target task) (task_DagRunId task) attemptID
  else sub_attempt_key task attemptID.

(** The attempt was opened, and is the queued one or has its first status. *)
Definition reused (a : AttemptRef) (log : HLog) : Prop := ∃ st, event (HReadStatus a) (inr st) ∈ log ∧ rs_Status st = Queued.
Definition opened_for (a : AttemptRef) (log : HLog) : Prop :=
  event (HOpen a) None ∈ log ∧
  (reused a log ∨
   (∃ st, event (HWrite a st) None ∈ log ∧ rs_Status st = NotStarted ∧ rs_AttemptID st = ar_ID a ∧ rs_AttemptKey st = key_for (ar_ID a))).

Definition send_ok (t : Task) (log : HLog) : Prop :=
  (∃ id key, t = with_attempt task id key) ∧
  (h_dagRunStore h = true → isRootRun task = true ∨ task_ParentDagRunId task ≠ "" →
   ∃ a, task_AttemptId t = ar_ID a ∧ task_AttemptKey t = key_for (ar_ID a) ∧ opened_for a log).

(** The queued attempt of the task was found as the latest and is still queued. *)
Definition still_queued (log : HLog) : Prop :=
  ∀ q, h_dagRunStore h = true → isRootRun task = true → queueDispatchStatusForTask task = inr (Some q) →
  ∃ name a st, event (HFindAttempt (mkDAGRunRef name (task_DagRunId task))) (inr a) ∈ log ∧
    event (HReadStatus a) (inr st) ∈ log ∧ ar_ID a = rs_AttemptID q ∧ rs_Status st = Queued.

(** The task was refused with the error. *)
Definition refusal (err : Error) (log : HLog) : Prop :=
  ∃ t, event (HEnqueue t) (Some err) ∈ log ∨ event (HHandOff t) (Some err) ∈ log.

(** The status with its failure, which gives the error of the refusal. *)
Definition failed_handoff (st st' : DAGRunStatus) (log : HLog) : Prop :=
  ∃ now err, event (HDist DNow) now ∈ log ∧ refusal err log ∧ st' = handoff_failed (FormatTime now) (handoff_reason err) st.

(** A status is written for a new attempt, or fails one that could not be sent. *)
Definition dwrite_ok (x : AttemptRef * DAGRunStatus) (log : HLog) : Prop :=
  (rs_Status x.2 = NotStarted ∧ rs_AttemptID x.2 = ar_ID x.1 ∧ event (HOpen x.1) None ∈ log ∧ count was_sent log = 0%nat) ∨
  (∃ st, event (HReadStatus x.1) (inr st) ∈ log ∧ (rs_Status st = NotStarted ∨ rs_Status st = Queued) ∧
     failed_handoff st x.2 log ∧ count was_sent log = 1%nat ∧ count delivered log = 0%nat).

Definition dispatch_ok (log : HLog) : Prop :=
  guarded sent_of send_ok log ∧ guarded acts (λ _, still_queued) log ∧ guarded write_of dwrite_ok log.

Lemma dispatch_ok_nil : dispatch_ok [].
Proof. split_and!; apply guarded_nil. Qed.

Lemma dispatch_ok_idle : stable idle dispatch_ok.
Proof.
  intros log c x Hc (HS & HA & HW). split_and!; (eapply (guarded_stable idle); [|done|done]); intros e y He; by destruct e.
Qed.

(** Before the task is sent. *)
Definition unsent (log : HLog) : Prop := dispatch_ok log ∧ count was_sent log = 0%nat ∧ count delivered log = 0%nat.

Lemma unsent_idle : stable idle unsent.
Proof.
  intros log c x Hc (Hok & Hn & Hd). split; [by apply dispatch_ok_idle|]. split; (rewrite count_plain; [done|]); by destruct c.
Qed.

Lemma still_queued_more log log' : log ⊆ log' → still_queued log → still_queued log'.
Proof. intros Hs Hq q H1 H2 H3. destruct (Hq q H1 H2 H3) as (name & a & st & ? & ? & ?). exists name, a, st. naive_solver. Qed.

(** Opening or creating an attempt. *)
Definition prepares (c : HCall) : Prop :=
  match c with HOpen _ | HCreateAttempt _ _ _ _ | HCreateSubAttempt _ _ => True | _ => False end.

Lemma unsent_prepares c x log : prepares c → still_queued log → unsent log → unsent (log ++ [event c x]).
Proof.
  intros Hc Hq [(HS & HA & HW) [Hn Hd]]. split; [split_and!; (apply guarded_app; [done|]); intros y Hy; by destruct c|].
  split; (rewrite count_plain; [done|]); by destruct c.
Qed.

Lemma unsent_first_status a st x log :
  rs_Status st = NotStarted → rs_AttemptID st = ar_ID a → event (HOpen a) None ∈ log → still_queued log → unsent log →
  unsent (log ++ [event (HWrite a st) x]).
Proof.
  intros Hst Hid Ho Hq [(HS & HA & HW) [Hn Hd]].
  split; [split_and!; (apply guarded_app; [done|]); intros y Hy; try done|by rewrite !count_plain].
  injection Hy as <-. left. by split_and!.
Qed.

Ltac grow := eapply still_queued_more; [|done]; intros ? ?; by apply In_app_l.

(** A task with its attempt, ready to be sent. *)
Definition ready (r : Error + Task * preparedDispatchAttempt) (log : HLog) : Prop :=
  match r with
  | inl _ => True
  | inr (t, p) => t = with_attempt task (ar_ID (pd_attempt p)) (key_for (ar_ID (pd_attempt p))) ∧ opened_for (pd_attempt p) log ∧ still_queued log ∧
                  (pd_newlyCreated p = false → reused (pd_attempt p) log)
  end.

Lemma start_spec t a name root labels log :
  unsent log → still_queued log → t = with_attempt task (ar_ID a) (key_for (ar_ID a)) →
  spec unsent (start_attempt t a name root labels) log ready.
Proof.
  intros Hl Hq Ht. unfold start_attempt. apply spec_do; [done|]. intros o. pose proof (unsent_prepares (HOpen a) o log I Hq Hl) as H1.
  set (l1 := log ++ _) in *. destruct o as [err|]; [by apply spec_ret|].
  assert (event (HOpen a) None ∈ l1) as Ho by apply In_app_last. assert (still_queued l1) as Q1 by grow.
  unfold writeInitialStatus. apply spec_bind. apply (quiet_do idle); [apply unsent_idle|done..|]. intros now H2. set (l2 := l1 ++ _) in *.
  assert (event (HOpen a) None ∈ l2) as Ho2 by (by apply In_app_l). assert (still_queued l2) as Q2 by grow.
  set (st := initial_status _ _ _ _ _ _ _ _).
  apply (spec_call (Ans := HAns) unsent (HWrite a st)); [done|]. intros w.
  assert (unsent (l2 ++ [event (HWrite a st) w])) as H3 by (by apply unsent_first_status). split; [done|].
  set (l3 := l2 ++ _) in *. destruct w as [err|]; [by apply spec_ret|]. assert (still_queued l3) as Q3 by grow.
  apply (quiet_do idle); [apply unsent_idle|done..|]. intros u H4. apply spec_ret; [done|]. split; [done|]. split; [|by split; [grow|]].
  split; [do 2 apply In_app_l; done|]. right. exists st. split_and!; [apply In_app_l, In_app_last|done|done|]. by subst t.
Qed.

(** ** Attempts of root runs *)
Lemma check_queued_spec q name found log :
  unsent log → event (HFindAttempt (mkDAGRunRef name (task_DagRunId task))) found ∈ log → queueDispatchStatusForTask task = inr (Some q) →
  spec unsent (check_queued q found) log (λ r l, r = None → still_queued l).
Proof.
  intros Hl Hf Hq. unfold check_queued. case_bool_decide; [by apply spec_ret|]. destruct found as [err|a].
  { by destruct (_ || _ || _); apply spec_ret. }
  apply (quiet_do idle); [apply unsent_idle|done..|]. intros [err|st] H1; [by destruct (_ || _); apply spec_ret|].
  case_bool_decide as Hid; [by apply spec_ret|]. case_bool_decide as Hst; [by apply spec_ret|]. apply spec_ret; [done|].
  intros _ q' _ _ Hq'. assert (q' = q) as -> by congruence. exists name, a, st.
  split_and!; [by apply In_app_l|apply In_app_last|done|done].
Qed.

Section Root.
Hypothesis (Hroot : isRootRun task = true).

Lemma root_task_key id : root_task task id = with_attempt task id (key_for id).
Proof. unfold root_task, key_for. by rewrite Hroot. Qed.

Lemma reuse_spec found log :
  unsent log → still_queued log →
  spec unsent (reuse_queued task found) log
    (λ r l, match r with inl _ => True | inr (Some p) => ready (inr p) l | inr None => still_queued l end).
Proof.
  intros Hl Hq. unfold reuse_queued. destruct found as [err|a]; [by apply spec_ret|].
  apply (quiet_do idle); [apply unsent_idle|done..|]. intros r H1. set (l1 := log ++ _) in *. assert (still_queued l1) as Q1 by grow.
  destruct r as [err|st]; [by apply spec_ret|]. case_bool_decide as Hst; cbv [negb]; [|by apply spec_ret].
  apply spec_do; [done|]. intros o. pose proof (unsent_prepares (HOpen a) o l1 I Q1 H1) as H2. set (l2 := l1 ++ _) in *.
  assert (still_queued l2) as Q2 by grow. destruct o as [err|]; [by apply spec_ret|].
  apply (quiet_do idle); [apply unsent_idle|done..|]. intros u H3. apply spec_ret; [done|].
  assert (reused a (l2 ++ [event (HCachePut (task_DagRunId task) a) u])) as Hre.
  { exists st. split; [do 2 apply In_app_l; apply In_app_last|done]. }
  split; [apply root_task_key|]. split; [|by split; [grow|]]. split; [apply In_app_l, In_app_last|by left].
Qed.

Lemma new_attempt_spec dag found log :
  unsent log → still_queued log → spec unsent (new_attempt task dag found) log ready.
Proof.
  intros Hl Hq. unfold new_attempt. cbv zeta. apply (quiet_do idle); [apply unsent_idle|done..|]. intros now H1.
  set (l1 := log ++ _) in *. assert (still_queued l1) as Q1 by grow. set (retry := _ || _).
  apply spec_do; [done|]. intros c. pose proof (unsent_prepares (HCreateAttempt dag now (task_DagRunId task) retry) c l1 I Q1 H1) as H2.
  set (l2 := l1 ++ _) in *. assert (still_queued l2) as Q2 by grow. destruct c as [err|a]; [by apply spec_ret|].
  apply start_spec; [done|done|apply root_task_key].
Qed.

Lemma create_attempt_spec log : unsent log → spec unsent (createAttemptForTask task) log ready.
Proof.
  intros Hl. unfold createAttemptForTask. apply (quiet_do idle); [apply unsent_idle|done..|]. intros [err|dag] H1; [by apply spec_ret|].
  destruct (queueDispatchStatusForTask task) as [err|queued] eqn:Eq; [by apply spec_ret|].
  apply (quiet_do idle); [apply unsent_idle|done..|]. intros found H2. set (l2 := _ ++ [_]) in *.
  apply (spec_then _ _ _ _ (λ r l, r = None → still_queued l)).
  { destruct queued as [q|]; [by eapply check_queued_spec; [|apply In_app_last|]|]. apply spec_ret; [done|]. intros _ q _ _ Hq. congruence. }
  intros [err|] l3 H3 P3 Q3; [by apply spec_ret|]. specialize (Q3 eq_refl).
  eapply spec_then; [by apply reuse_spec|]. intros [err|[p|]] l4 H4 P4 R4; [by apply spec_ret|by apply spec_ret|by apply new_attempt_spec].
Qed.
End Root.

(** ** Attempts of sub-runs *)
Lemma create_sub_spec log : isRootRun task = false → unsent log → spec unsent (createSubAttemptForTask task) log ready.
Proof.
  intros Hsub Hl. unfold createSubAttemptForTask. cbv zeta.
  assert (∀ l, still_queued l) as Hq by (intros l q _ Hr; congruence). set (rootRef := mkDAGRunRef _ _).
  apply spec_do; [done|]. intros c. pose proof (unsent_prepares (HCreateSubAttempt rootRef (task_DagRunId task)) c log I (Hq _) Hl) as H1.
  destruct c as [err|a]; [by apply spec_ret|]. apply (quiet_do idle); [apply unsent_idle|done..|]. intros [err|dag] H2; [by apply spec_ret|].
  apply (quiet_do idle); [apply unsent_idle|done..|]. intros u H3. apply start_spec; [done|apply Hq|]. unfold key_for. by rewrite Hsub.
Qed.

(** ** Preparing *)
Lemma metadata_spec log :
  unsent log → spec unsent (ensureTaskAttemptMetadata task) log (λ t _, ∃ id key, t = with_attempt task id key).
Proof.
  intros Hl. unfold ensureTaskAttemptMetadata. apply (spec_then _ _ _ _ (λ _ _, True)).
  { case_bool_decide; [|by apply spec_ret]. apply (spec_call (Ans := HAns) unsent HUuid); [done|]. intros x. split; [|done]. by apply unsent_idle. }
  intros id l Hl1 _ _. case_bool_decide; [apply spec_ret; [done|]; eauto|]. destruct (isRootRun task); (apply spec_ret; [done|]; unfold root_task; eauto).
Qed.

(** An attempt is prepared when the store of runs is there and the run is a root or has
    a parent. *)
Definition prepared_runs : Prop := h_dagRunStore h = true ∧ (isRootRun task = true ∨ task_ParentDagRunId task ≠ "").

Definition sendable (r : Error + Task * option preparedDispatchAttempt) (log : HLog) : Prop :=
  match r with
  | inl _ => True
  | inr (t, p) =>
      send_ok t log ∧ still_queued log ∧ task_DagRunId t = task_DagRunId task ∧
      match p with
      | Some p => opened_for (pd_attempt p) log ∧ (pd_newlyCreated p = false → reused (pd_attempt p) log)
      | None => ¬ prepared_runs
      end
  end.

Lemma prepare_spec log : unsent log → spec unsent (prepareAttemptForDispatch h task) log sendable.
Proof.
  intros Hl. unfold prepareAttemptForDispatch.
  assert (∀ m : HProg (Error + Task * preparedDispatchAttempt), spec unsent m log ready →
    spec unsent (do* r := m in Ret match r with inl err => inl err | inr (t, p) => inr (t, Some p) end) log sendable) as Hready.
  { intros m Hm. eapply spec_then; [exact Hm|]. intros [err|[t p]] l Hl1 _ Hr; (apply spec_ret; [done|]); [done|].
    destruct Hr as (-> & Ho & Hq & Hn). split_and!; [|done..]. split; [eauto|]. intros _ _. by exists (pd_attempt p). }
  assert (¬ prepared_runs → spec unsent (do* t := ensureTaskAttemptMetadata task in Ret (inr (t, None))) log sendable) as Hmeta.
  { intros Hno. eapply spec_then; [by apply metadata_spec|]. intros t l Hl1 _ (id & key & ->). apply spec_ret; [done|]. split_and!; [| |done|done].
    - split; [eauto|]. intros H1 H2. by destruct Hno.
    - intros q H1 H2 _. destruct Hno. split; [done|]. by left. }
  destruct (h_dagRunStore h) eqn:Es; cbv [negb]; [|apply Hmeta; intros [??]; congruence].
  destruct (isRootRun task) eqn:Er; [by apply Hready, create_attempt_spec|].
  case_bool_decide as Hp; [by apply Hready, create_sub_spec|]. apply Hmeta. intros [_ [?|?]]; congruence.
Qed.

(** ** Sending *)

(** The attempt needs nothing more. *)
Definition settled (a : AttemptRef) (log : HLog) : Prop :=
  reused a log ∨
  ∃ r, event (HReadStatus a) r ∈ log ∧
    ∀ st, r = inr st → rs_Status st = NotStarted ∨ rs_Status st = Queued →
    ∃ st' x, event (HWrite a st') x ∈ log ∧ failed_handoff st st' log.

(** After a task was refused: the attempt is released, and a new one is failed unless
    it was changed meanwhile or cannot be read. *)
Definition given_up (log : HLog) : Prop :=
  prepared_runs → ∃ a, opened_for a log ∧ event (HCacheRelease (task_DagRunId task) (ar_ID a)) tt ∈ log ∧
    (∃ x, event (HClose a) x ∈ log) ∧ settled a log.

Definition refused (log : HLog) : Prop := dispatch_ok log ∧ count was_sent log = 1%nat ∧ count delivered log = 0%nat ∧ still_queued log.

Lemma refused_idle : stable idle refused.
Proof.
  intros log c x Hc (Hok & Hn & Hd & Hq). split_and!; [by apply dispatch_ok_idle|rewrite count_plain; [done|]; by destruct c| |grow].
  rewrite count_plain; [done|]. by destruct c.
Qed.

Lemma opened_more a log log' : log ⊆ log' → opened_for a log → opened_for a log'.
Proof. intros Hs [Ho Hx]. unfold opened_for, reused in *. naive_solver. Qed.

Lemma reused_more a log log' : log ⊆ log' → reused a log → reused a log'.
Proof. unfold reused. naive_solver. Qed.

Lemma failed_handoff_more st st' log log' : log ⊆ log' → failed_handoff st st' log → failed_handoff st st' log'.
Proof.
  intros Hs (now & err & Hn & (t & Ht) & ->). exists now, err. split_and!; [by apply Hs| |done]. exists t.
  destruct Ht as [Ht|Ht]; [left|right]; by apply Hs.
Qed.

Lemma settled_more a log log' : log ⊆ log' → settled a log → settled a log'.
Proof.
  intros Hs [Hr|(r & Hr & Hw)]; [left; by eapply reused_more|right]. exists r. split; [by apply Hs|]. intros st E1 E2.
  destruct (Hw st E1 E2) as (st' & x & Hx & Hf). exists st', x. split; [by apply Hs|by eapply failed_handoff_more].
Qed.

Lemma fail_new_spec a err log :
  refused log → refusal err log → spec refused (fail_new a (handoff_reason err)) log (λ _, settled a).
Proof.
  intros Hl Herr. apply (quiet_do idle); [apply refused_idle|done..|]. intros r H1. set (l1 := log ++ _) in *.
  assert (event (HReadStatus a) r ∈ l1) as Hr by apply In_app_last.
  destruct r as [e|st]; [apply spec_ret; [done|]; right; by exists (inl e)|]. destruct (_ || _) eqn:Est.
  - apply (quiet_do idle); [apply refused_idle|done..|]. intros now H2. set (l2 := l1 ++ _) in *.
    apply spec_do; [done|]. intros x. set (st' := handoff_failed _ _ _). set (l3 := l2 ++ _).
    assert (event (HReadStatus a) (inr st) ∈ l2) as Hr2 by (by apply In_app_l).
    assert (failed_handoff st st' l2) as Hf.
    { exists now, err. split_and!; [apply In_app_last| |done]. destruct Herr as [t Ht]. exists t.
      destruct Ht as [Ht|Ht]; [left|right]; do 2 apply In_app_l; done. }
    apply spec_ret.
    + destruct H2 as ((HS & HA & HW) & Hs & Hd & Hq). subst l3. split_and!; [|by rewrite count_plain|by rewrite count_plain|grow].
      split_and!; (apply guarded_app; [done|]); intros y Hy; try done. injection Hy as <-. right. exists st.
      split_and!; [done| |done..]. by apply orb_true_iff in Est as [Est|Est]; apply bool_decide_eq_true in Est; [left|right].
    + right. exists (inr st). split; [by apply In_app_l|]. intros st2 [= <-] _. exists st', x. split; [apply In_app_last|].
      eapply failed_handoff_more; [|exact Hf]. intros y Hy. by apply In_app_l.
  - apply spec_ret; [done|]. right. exists (inr st). split; [done|]. intros st2 [= <-] Hst. exfalso.
    destruct Hst as [Hst|Hst]; by rewrite Hst in Est.
Qed.

Lemma mark_dispatch_failed_spec t p err log :
  refused log → refusal err log → task_DagRunId t = task_DagRunId task →
  match p with
  | Some p => opened_for (pd_attempt p) log ∧ (pd_newlyCreated p = false → reused (pd_attempt p) log)
  | None => ¬ prepared_runs
  end →
  spec refused (markPreparedAttemptDispatchFailed t p (handoff_reason err)) log (λ _, given_up).
Proof.
  intros Hl Herr Hid Hp. destruct p as [[a new]|]; [|apply spec_ret; [done|]; by intros ?]. simpl in Hp. destruct Hp as [Ho Hn].
  apply (spec_then _ _ _ _ (λ _, settled a)).
  { simpl. destruct new; [by apply fail_new_spec|]. apply spec_ret; [done|]. left. by apply Hn. }
  intros _ l Hl1 P1 Hset. unfold releasePreparedDispatchAttempt. rewrite Hid.
  apply (quiet_do idle); [apply refused_idle|done..|]. intros [] H2. set (l2 := l ++ _) in *.
  apply spec_do; [done|]. intros x. apply spec_ret; [by apply (refused_idle _ (HClose a))|]. intros _. exists a.
  assert (l ⊆ l2 ++ [event (HClose a) x]) as S by (intros y Hy; do 2 apply In_app_l; done).
  split_and!; [eapply opened_more; [|done]; intros y Hy; apply S; destruct P1 as [k ->]; by apply In_app_l|apply In_app_l, In_app_last| |].
  - exists x. apply In_app_last.
  - by eapply settled_more.
Qed.

Definition dispatch_post (r : Reply unit) (log : HLog) : Prop :=
  (count was_sent log <= 1)%nat ∧ count delivered log = (match r with inr _ => 1 | inl _ => 0 end)%nat ∧
  (count was_sent log = 1%nat → count delivered log = 0%nat → given_up log).

Definition sent_post (r : option (Error * Code)) (log : HLog) : Prop :=
  match r with
  | None => count was_sent log = 1%nat ∧ count delivered log = 1%nat
  | Some (err, _) => refused log ∧ refusal err log
  end.

Definition sends (send : Task → HProg (option (Error * Code))) : Prop :=
  ∀ t log, unsent log → send_ok t log → still_queued log → spec dispatch_ok (send t) log sent_post.

(** Sending with one call. *)
Lemma sent_log c x t log :
  sent_of (event c x) = Some t → unsent log → send_ok t log → still_queued log →
  let l := log ++ [event c x] in
  dispatch_ok l ∧ count was_sent l = 1%nat ∧ (delivered (event c x) = true → count delivered l = 1%nat) ∧
  (delivered (event c x) = false → refused l).
Proof.
  intros Hc ((HS & HA & HW) & Hn & Hd) Ht Hq. cbv zeta.
  assert (dispatch_ok (log ++ [event c x])) as Hok.
  { split_and!; (apply guarded_app; [done|]); intros y Hy; [by simplify_eq|done|]. by destruct c. }
  assert (count was_sent (log ++ [event c x]) = 1%nat) as Hs by (rewrite count_one; [by rewrite Hn|unfold was_sent; by rewrite Hc]).
  split_and!; [done|done|intros Hx; by rewrite count_one, Hd|]. intros Hx. split_and!; [done|done|by rewrite count_plain|grow].
Qed.

Lemma enqueue_sends : sends send_enqueue.
Proof.
  intros t log Hl Ht Hq. apply spec_do; [apply Hl|]. intros x.
  destruct (sent_log (HEnqueue t) x t log eq_refl Hl Ht Hq) as (Hok & Hs & Hd & Hr). apply spec_ret; [done|].
  destruct x as [err|]; [split; [by apply Hr|]; exists t; left; apply In_app_last|]. split; [done|by apply Hd].
Qed.

Lemma handoff_sends : sends send_handoff.
Proof.
  intros t log Hl Ht Hq. apply spec_do; [apply Hl|]. intros x.
  destruct (sent_log (HHandOff t) x t log eq_refl Hl Ht Hq) as (Hok & Hs & Hd & Hr). apply spec_ret; [done|].
  destruct x as [err|]; [split; [by apply Hr|]; exists t; right; apply In_app_last|]. split; [done|by apply Hd].
Qed.

Lemma unsent_post code log : unsent log → dispatch_post (inl code) log.
Proof. intros (_ & Hn & Hd). unfold dispatch_post. rewrite Hn, Hd. split_and!; [lia|done|]. lia. Qed.

Lemma prepare_and_send_spec send log : sends send → unsent log → spec dispatch_ok (prepare_and_send h task send) log dispatch_post.
Proof.
  intros Hsend Hl. unfold prepare_and_send. apply spec_bind.
  eapply spec_mono; [by apply prepare_spec|by intros l [? _]|]. intros [err|[t p]] l1 H1 Hp; [apply spec_ret; [apply H1|by apply unsent_post]|].
  destruct Hp as (Ht & Hq & Hid & Hp). eapply spec_then; [by apply Hsend|]. intros [[err code]|] l2 H2 P2 Hr.
  - destruct Hr as [Hr Herr]. apply spec_bind.
    eapply spec_mono; [apply (mark_dispatch_failed_spec t p err); [done..|]|by intros l [? _]|].
    + apply prefix_incl in P2. destruct p as [p|]; [|done]. destruct Hp as [Ho Hn].
      split; [by eapply opened_more|]. intros E. eapply reused_more; [done|by apply Hn].
    + intros _ l3 (H3 & Hs & Hd & _) Hg. apply spec_ret; [done|]. split_and!; [lia|done|done].
  - destruct Hr as [Hs Hd]. apply spec_ret; [done|]. split_and!; [lia|done|lia].
Qed.

Lemma dispatch_spec : spec dispatch_ok (Dispatch h (Some task)) [] dispatch_post.
Proof.
  assert (unsent []) as H0 by (split_and!; [apply dispatch_ok_nil|done|done]).
  assert (∀ code l, unsent l → spec dispatch_ok (Ret (inl code)) l dispatch_post) as Hret.
  { intros code l Hl. apply spec_ret; [apply Hl|by apply unsent_post]. }
  unfold Dispatch. case_bool_decide as Hdef; [by apply Hret|]. destruct (negb (h_dispatchTaskStore h)).
  - apply spec_do; [apply H0|]. intros w. pose proof (unsent_idle _ (HEnsureWaiting (task_WorkerSelector task)) w I H0) as H1.
    destruct w as [err|]; [by apply Hret|]. apply prepare_and_send_spec; [apply handoff_sends|done].
  - destruct (negb (h_dagRunStore h)); [by apply Hret|].
    assert (only idle (listHealthyWorkers h)) as Ho.
    { unfold listHealthyWorkers. destruct (negb _); [done|]. split; [done|]. intros [err|records]; [done|]. by split. }
    apply spec_bind. eapply spec_mono; [by apply (only_preserves idle unsent _ unsent_idle Ho)|by intros l [? _]|].
    intros [err|[|w ws]] l1 _ [H1 _]; [by apply Hret|by apply Hret|]. destruct (_ && negb _); [by apply Hret|].
    apply prepare_and_send_spec; [apply enqueue_sends|done].
Qed.
End Dispatch.

(** C15. Dispatching a task, whatever the stores and pollers answer.  The task leaves at
    most once and success is reported exactly when it was taken; it leaves as the task
    of the request with the identifier and the key of an attempt, which was opened and
    either is the queued one or has its first status.  A task of a queued run opens,
    creates, writes or sends nothing unless the latest attempt was read as that queued
    attempt, still queued.  When nobody takes the task its attempt is released, and a
    new attempt that is still waiting is failed with the error of the refusal. *)
Theorem dispatch_correct `{TimeText} `{ErrorMessage} h env task :
  let '(r, log) := exec env (Dispatch h (Some task)) [] in
  guarded sent_of (send_ok h task) log ∧ guarded acts (λ _, still_queued h task) log ∧ guarded write_of dwrite_ok log ∧
  (count was_sent log <= 1)%nat ∧ count delivered log = (match r with inr _ => 1 | inl _ => 0 end)%nat ∧
  (count was_sent log = 1%nat → count delivered log = 0%nat → given_up h task log).
Proof.
  pose proof (spec_exec env _ _ _ _ (dispatch_spec h task)) as [(HS & HA & HW) (Hn & Hd & Hg)].
  by destruct (exec env (Dispatch h (Some task)) []).
Qed.

(** ** Claims *)
Definition upserted_of (ev : Event HAns) : option DAGRunLease := match projT1 ev with HLeaseUpsert l => Some l | _ => None end.
Definition unclaim_of (ev : Event HAns) : option string := match projT1 ev with HDeleteClaim t => Some t | _ => None end.

(** The claim was given up. *)
Definition unclaimed (ev : Event HAns) : bool :=
  match ev with
  | existT c x =>
      match c as c' return HAns c' → bool with
      | HDeleteClaim _ => λ r, match r with None => true | Some _ => false end
      | _ => λ _, false
      end x
  end.

Section Ack.
Context `{TimeText} (h : Handler) (claimToken workerID : string).

(** The lease is of the task of the claim, as of now.  A worker that gives its name is
    the one that holds the claim, when the claim has a name. *)
Definition lease_ok (l : DAGRunLease) (log : HLog) : Prop :=
  ∃ claimed task now, event (HGetClaim claimToken) (inr (Some claimed)) ∈ log ∧ ct_Task claimed = Some task ∧
    (workerID ≠ "" → ct_WorkerID claimed ≠ "" → ct_WorkerID claimed = workerID) ∧
    event (HDist DNow) now ∈ log ∧ l = buildLeaseFromTask task workerID (h_owner h) now.

Definition unclaim_ok (token : string) (log : HLog) : Prop :=
  token = claimToken ∧ ∃ l, event (HLeaseUpsert l) None ∈ log ∧ lease_ok l log.

Definition ack_ok (log : HLog) : Prop := guarded upserted_of lease_ok log ∧ guarded unclaim_of unclaim_ok log ∧ count unclaimed log = 0%nat.

Definition neutral (c : HCall) : Prop := match c with HLeaseUpsert _ | HDeleteClaim _ => False | _ => True end.

Lemma ack_ok_neutral : stable neutral ack_ok.
Proof.
  intros log c x Hc (HL & HU & Hn). split_and!; [eapply (guarded_stable neutral); [|done|done]; intros e y He; by destruct e..|].
  rewrite count_plain; [done|]. by destruct c.
Qed.

Definition acked (r : Reply (bool * string)) (log : HLog) : Prop :=
  guarded upserted_of lease_ok log ∧ guarded unclaim_of unclaim_ok log ∧
  count unclaimed log = (if reply_accepted r then 1 else 0)%nat.

Lemma ack_spec : spec (λ _, True) (AckTaskClaim h claimToken workerID) [] acked.
Proof.
  assert (∀ r l, ack_ok l → reply_accepted r = false → spec (λ _, True) (Ret r : HProg _) l acked) as Hret.
  { intros r l (HL & HU & Hn) Hr. apply spec_ret; [done|]. split_and!; [done..|]. by rewrite Hr. }
  assert (ack_ok []) as H0 by (split_and!; [apply guarded_nil..|done]).
  unfold AckTaskClaim. case_bool_decide as Htoken; [by apply Hret|]. destruct (_ || _); [by apply Hret|]. apply spec_do; [done|]. intros r.
  pose proof (ack_ok_neutral _ (HGetClaim claimToken) r I H0) as H1. set (l1 := [] ++ _) in *.
  destruct r as [err|[claimed|]]; [by apply Hret| |by apply Hret]. destruct (_ && _ && _) eqn:Ew; [by apply Hret|].
  destruct (ct_Task claimed) as [task|] eqn:Et; [|by apply Hret]. apply spec_do; [done|]. intros now.
  pose proof (ack_ok_neutral _ (HDist DNow) now I H1) as H2. set (l2 := l1 ++ _) in *. set (lease := buildLeaseFromTask _ _ _ _).
  assert (lease_ok lease l2) as Hlease.
  { exists claimed, task, now. split_and!; [apply In_app_l, In_app_last|done| |apply In_app_last|done].
    apply andb_false_iff in Ew as [Ew|Ew]; [apply andb_false_iff in Ew as [Ew|Ew]|]; apply bool_decide_eq_false, dec_stable in Ew; naive_solver. }
  apply spec_do; [done|]. intros u. set (l3 := l2 ++ _).
  assert (ack_ok l3) as H3.
  { destruct H2 as (HL & HU & Hn). split_and!; [apply guarded_app; [done|]; by intros y [= <-]|by apply guarded_app|subst l3; by rewrite count_plain]. }
  destruct u as [err|]; [by apply Hret|].
  assert (∀ l, l3 ⊆ l → unclaim_ok claimToken l) as Hun.
  { intros l Hs. split; [done|]. exists lease. split; [apply Hs, In_app_last|]. destruct Hlease as (c & t & n & Hc & Ht & Hw & Hn & Hx). exists c, t, n.
    split_and!; [apply Hs; by apply In_app_l|done|done|apply Hs; by apply In_app_l|done]. }
  apply spec_bind. assert (only neutral (upsertActiveDistributedRunFromTask h task workerID now)) as Ho.
  { unfold upsertActiveDistributedRunFromTask. destruct (_ || _ || _); [done|]. by split. }
  eapply spec_mono; [apply (only_preserves neutral ack_ok _ ack_ok_neutral Ho), H3|done|]. intros _ l4 _ [H4 P4]. apply prefix_incl in P4.
  apply spec_do; [done|]. intros d. destruct H4 as (HL & HU & Hn).
  assert (guarded unclaim_of unclaim_ok (l4 ++ [event (HDeleteClaim claimToken) d])) as HU5.
  { apply guarded_app; [done|]. intros y [= <-]. by apply Hun. }
  assert (guarded upserted_of lease_ok (l4 ++ [event (HDeleteClaim claimToken) d])) as HL5 by (by apply guarded_app).
  destruct d as [err|]; (apply spec_ret; [done|]); split_and!; try done; [by rewrite count_plain|]. by rewrite count_one, Hn.
Qed.
End Ack.

