(* ===== verification/CoordLeaseLaws.v ===== *)
(** * The coordinator: heartbeats of runs

    Whatever the stores answer, the heartbeat of a worker gives a run back only when it
    was failed because that worker's lease expired and the lease is alive again; it
    cancels exactly what has a reason.  Restoring undoes the failure. *)

From stdpp Require Import base strings list gmap.
From Stdlib Require Import ZArith Lia.
From S2P Require Import Prelude Status Step Exec GoStrings RunStatus Catchup FileSys RunFiles RunStore RunLife Distributed Prog Backoff QueueProc QueueProcLaws DistRepair DispatchStore Coordinator CoordHandler CoordLease CoordReportLaws.

Open Scope prog_scope.
Open Scope Z_scope.

(** ** What a log says *)
Definition swap_of (ev : Event HAns) : option (DAGRunRef * string * Status * (DAGRunStatus → option DAGRunStatus)) :=
  match projT1 ev with HSwapOrSkip run id expected f => Some (run, id, expected, f) | _ => None end.

(** Calls that change nothing but the time of a lease. *)
Definition calm (c : HCall) : Prop :=
  match c with
  | HSwapOrSkip _ _ _ _ | HDist (DCompareAndSwap _ _ _ _) | HWrite _ _ | HLeaseUpsert _ | HLeaseDelete _ | HActiveUpsert _ | HActiveDelete _ => False
  | _ => True
  end.

(** ** Lists of cancelled runs *)
Lemma append_missing_in cancelled x k : k ∈ appendCancelledRunIfMissing cancelled x ↔ k ∈ cancelled ∨ (k = x ∧ x ≠ "").
Proof.
  unfold appendCancelledRunIfMissing. case_bool_decide; [naive_solver|]. case_bool_decide; [naive_solver|]. rewrite elem_of_app, list_elem_of_singleton. tauto.
Qed.

Lemma append_missing_nodup cancelled x : NoDup cancelled → NoDup (appendCancelledRunIfMissing cancelled x).
Proof.
  intros Hn. unfold appendCancelledRunIfMissing. case_bool_decide; [done|]. case_bool_decide; [done|].
  apply NoDup_app. split_and!; [done| |apply NoDup_singleton]. intros y Hy ->%list_elem_of_singleton. done.
Qed.

Lemma append_runs_in src k : ∀ dst, k ∈ appendCancelledRuns dst src ↔ k ∈ dst ∨ (k ∈ src ∧ k ≠ "").
Proof.
  unfold appendCancelledRuns. induction src as [|x src IH]; intros dst; simpl; [split; [tauto|intros [?|[[]%not_elem_of_nil ?]]; done]|].
  rewrite IH, append_missing_in, elem_of_cons. naive_solver.
Qed.

Lemma append_runs_nodup src : ∀ dst, NoDup dst → NoDup (appendCancelledRuns dst src).
Proof. unfold appendCancelledRuns. induction src as [|x src IH]; intros dst Hn; simpl; [done|]. by apply IH, append_missing_nodup. Qed.

Section Heartbeat.
Context `{TimeText} (h : Handler) (workerID : string) (tasks : list (option RunningTask)).

(** A run is swapped back from [Failed] for a task of the heartbeat whose lease was
    touched and is the worker's, and only when it failed because of that lease. *)
Definition swap_back_ok (x : DAGRunRef * string * Status * (DAGRunStatus → option DAGRunStatus)) (log : HLog) : Prop :=
  let '(run, id, expected, f) := x in
  ∃ task lease at_, Some task ∈ tasks ∧ event (HDist DNow) at_ ∈ log ∧ event (HLeaseTouch (tk_AttemptKey task) at_) None ∈ log ∧
    event (HDist (DGetLease (tk_AttemptKey task))) (inr (Some lease)) ∈ log ∧
    dl_WorkerID lease = workerID ∧ run = dl_DAGRun lease ∧ id = dl_AttemptID lease ∧ id ≠ "" ∧ expected = Failed ∧
    ∀ st st', f st = Some st' →
      rs_Status st = Failed ∧ rs_Error st = DistributedLeaseExpiredReason workerID ∧
      LeaseMatchesStatus (Some lease) (Some st) (dl_AttemptID lease) at_ (h_staleLeaseThreshold h) = true ∧
      st' = restoreStaleLeaseFailure st lease workerID (DistributedLeaseExpiredReason workerID).

(** A run enters the index after it was swapped back. *)
Definition back_ok (key : string) (log : HLog) : Prop :=
  ∃ run id f st, event (HSwapOrSkip run id Failed f) (inr (Some st, true)) ∈ log ∧ key = AttemptKeyForStatus (Some st) id.

Definition heartbeat_ok (log : HLog) : Prop :=
  guarded swap_of swap_back_ok log ∧ guarded track_of back_ok log ∧
  guarded write_of (λ _ _, False) log ∧ guarded untrack_of (λ _ _, False) log.

Lemma heartbeat_ok_nil : heartbeat_ok [].
Proof. split_and!; apply guarded_nil. Qed.

Lemma heartbeat_ok_calm : stable calm heartbeat_ok.
Proof.
  intros log c x Hc (HS & HT & HW & HU).
  split_and!; (eapply (guarded_stable calm); [|done|done]); intros e y He; destruct e; by simpl in He.
Qed.

Lemma resolving_calm : stable resolving heartbeat_ok.
Proof. eapply stable_weaken; [|apply heartbeat_ok_calm]. by intros []. Qed.

(** *** Why a task is cancelled *)
Definition cancel_reason (t : RunningTask) (log : HLog) : Prop :=
  let root := mkDAGRunRef (tk_RootDagRunName t) (tk_RootDagRunId t) in
  (∃ err, (Is err (Sys ErrDAGRunIDNotFound) || Is err (Sys ErrNoStatusData)) = true ∧
          resolve_error h (tk_DagName t) (tk_DagRunId t) root err log) ∨
  (∃ a st, found_latest (tk_DagName t) (tk_DagRunId t) root a log ∧ event (HReadStatus a) (inr st) ∈ log ∧
     ((tk_AttemptKey t ≠ "" ∧ rs_AttemptKey st ≠ "" ∧ rs_AttemptKey st ≠ tk_AttemptKey t) ∨
      isCancellableTerminalRunStatus (rs_Status st) = true ∨ event (HIsAborting a) (inr true) ∈ log)).

Lemma cancelled_spec task log :
  heartbeat_ok log →
  spec heartbeat_ok (isTaskCancelled h task) log (λ b l, b = true → ∃ t, task = Some t ∧ cancel_reason t l).
Proof.
  intros Hok. destruct task as [t|]; [|by apply spec_ret]. unfold isTaskCancelled. set (root := mkDAGRunRef _ _).
  eapply spec_then; [apply (resolve_spec h heartbeat_ok _ _ _ _ (resolved h (tk_DagName t) (tk_DagRunId t) root));
    [apply resolving_calm|done|by intros]|]. intros [err|[a st]] l1 H1 P1 Hr.
  { apply spec_ret; [done|]. intros Hx. exists t. split; [done|]. left. by exists err. }
  destruct Hr as [Hf Hst]. destruct (_ && _ && _) eqn:Ek.
  { apply spec_ret; [done|]. intros _. exists t. split; [done|]. right. exists a, st. split_and!; [done..|]. left.
    rewrite !andb_true_iff, !bool_decide_eq_true in Ek. tauto. }
  destruct (isCancellableTerminalRunStatus _) eqn:Et.
  { apply spec_ret; [done|]. intros _. exists t. split; [done|]. right. exists a, st. split_and!; [done..|]. right. by left. }
  apply (quiet_do calm); [apply heartbeat_ok_calm|done..|]. intros r H2. apply spec_ret; [done|]. destruct r as [err|b]; [done|].
  intros ->. exists t. split; [done|]. right. exists a, st.
  split_and!; [by apply (found_latest_more _ _ _ _ l1); [apply prefix_app_r|]|by apply In_app_l|]. right; right. apply In_app_last.
Qed.

(** *** Giving a run back *)
Lemma can_repair task lease st st' at_ :
  repair_mutate h workerID task lease at_ st = Some st' →
  rs_Status st = Failed ∧ rs_Error st = DistributedLeaseExpiredReason workerID ∧
  LeaseMatchesStatus (Some lease) (Some st) (dl_AttemptID lease) at_ (h_staleLeaseThreshold h) = true ∧
  st' = restoreStaleLeaseFailure st lease workerID (DistributedLeaseExpiredReason workerID).
Proof.
  unfold repair_mutate. destruct (canRepairStaleLeaseFailureFromRunHeartbeat _ _ _ _ _ _ _) eqn:Ec; [|done]. intros [= <-].
  unfold canRepairStaleLeaseFailureFromRunHeartbeat in Ec. rewrite !andb_true_iff, !bool_decide_eq_true in Ec. tauto.
Qed.

Lemma repair_safe task at_ log :
  heartbeat_ok log → Some task ∈ tasks → event (HDist DNow) at_ ∈ log → event (HLeaseTouch (tk_AttemptKey task) at_) None ∈ log →
  safe heartbeat_ok (repairStaleLeaseFailureFromRunHeartbeat h workerID task at_) log.
Proof.
  intros Hok Hin Hnow Htouch. unfold repairStaleLeaseFailureFromRunHeartbeat. destruct (negb _); [by apply spec_ret|].
  apply (quiet_do calm); [apply heartbeat_ok_calm|done..|]. intros r H1. set (l1 := log ++ _) in *.
  destruct r as [err|[lease|]]; [by apply spec_ret| |by apply spec_ret]. case_bool_decide as Hid; [by apply spec_ret|].
  case_bool_decide as Hw; [|by apply spec_ret]. cbn [orb negb]. set (f := repair_mutate _ _ _ _ _).
  apply spec_do; [done|]. intros s. set (l2 := l1 ++ _).
  assert (heartbeat_ok l2) as H2.
  { destruct H1 as (HS & HT & HW & HU). split_and!; (apply guarded_app; [done|]); intros y Hy; try done. injection Hy as <-.
    exists task, lease, at_. split_and!; [done|by apply In_app_l|by apply In_app_l|apply In_app_last|done..|].
    intros st st'. apply can_repair. }
  destruct s as [err|[[st|] []]]; try by apply spec_ret. unfold upsertActiveDistributedRun.
  destruct (negb _); [by apply spec_ret|]. cbv zeta. destruct (_ || _); [by apply spec_ret|].
  apply (quiet_do calm); [apply heartbeat_ok_calm|done..|]. intros now H3. apply spec_do; [done|]. intros x. apply spec_ret; [|done].
  destruct H3 as (HS & HT & HW & HU). split_and!; (apply guarded_app; [done|]); intros y Hy; try done. injection Hy as <-.
  exists (dl_DAGRun lease), (dl_AttemptID lease), f, st. split; [|done]. apply In_app_l, In_app_last.
Qed.

(** *** The reply *)

(** The lease of the attempt is gone. *)
Definition lost (key : string) (log : HLog) : Prop :=
  ∃ at_ err, event (HLeaseTouch key at_) (Some err) ∈ log ∧ Is err ErrDAGRunLeaseNotFound = true.

(** Every cancelled run is a task of the heartbeat, named once, and has a reason. *)
Definition listed (cancelled : list string) (log : HLog) : Prop :=
  NoDup cancelled ∧
  ∀ k, k ∈ cancelled → k ≠ "" ∧ ∃ t, Some t ∈ tasks ∧ tk_AttemptKey t = k ∧ (lost k log ∨ cancel_reason t log).

(** The lease of the task was touched, or the run is cancelled. *)
Definition covered (t : RunningTask) (cancelled : list string) (log : HLog) : Prop :=
  tk_AttemptKey t ≠ "" → tk_AttemptKey t ∈ cancelled ∨ ∃ at_, event (HLeaseTouch (tk_AttemptKey t) at_) None ∈ log.

Lemma cancel_reason_more t log log' : log ⊆ log' → cancel_reason t log → cancel_reason t log'.
Proof.
  intros Hs [(err & He & Hr)|(a & st & Hf & Hst & Hx)]; [left|right].
  - exists err. split; [done|]. unfold resolve_error, found_latest in *. naive_solver.
  - exists a, st. split_and!; [destruct Hf; [left|right]; by apply Hs|by apply Hs|]. naive_solver.
Qed.

Lemma listed_more cancelled log log' : log ⊆ log' → listed cancelled log → listed cancelled log'.
Proof.
  intros Hs [Hn Hk]. split; [done|]. intros k Hin. destruct (Hk k Hin) as [Hne (t & Ht & Hkey & Hr)]. split; [done|].
  exists t. split_and!; [done..|]. destruct Hr as [(a & err & Hr & He)|Hr]; [left; exists a, err; split; [by apply Hs|done]|right].
  by eapply cancel_reason_more.
Qed.

Lemma covered_more t cancelled cancelled' log log' :
  cancelled ⊆ cancelled' → log ⊆ log' → covered t cancelled log → covered t cancelled' log'.
Proof. unfold covered. intros Hc Hs Hx Hne. destruct (Hx Hne) as [?|[at_ ?]]; [left; by apply Hc|right; exists at_; by apply Hs]. Qed.

Lemma listed_append cancelled t log :
  listed cancelled log → Some t ∈ tasks → lost (tk_AttemptKey t) log ∨ cancel_reason t log →
  listed (appendCancelledRunIfMissing cancelled (tk_AttemptKey t)) log.
Proof.
  intros [Hn Hk] Hin Hr. split; [by apply append_missing_nodup|]. intros k [Hx|[-> Hne]]%append_missing_in; [by apply Hk|]. eauto.
Qed.

Definition touched (rest : list (option RunningTask)) (r : Reply (list string)) (log : HLog) : Prop :=
  match r with
  | inl _ => True
  | inr cancelled => listed cancelled log ∧ ∀ t, Some t ∈ rest → covered t cancelled log
  end.

Lemma touch_spec at_ rest : ∀ cancelled log,
  rest ⊆ tasks → heartbeat_ok log → event (HDist DNow) at_ ∈ log → listed cancelled log →
  spec heartbeat_ok (touch_leases h workerID at_ rest cancelled) log
    (λ r l, touched rest r l ∧ match r with inr c => cancelled ⊆ c | inl _ => True end).
Proof.
  induction rest as [|[task|] rest IH]; intros cancelled log Hsub Hok Hnow Hl.
  - apply spec_ret; [done|]. split; [|done]. split; [done|]. by intros t ?%not_elem_of_nil.
  - assert (Some task ∈ tasks) as Hin by (apply Hsub; left). assert (rest ⊆ tasks) as Hsub' by (intros x Hx; apply Hsub; by right).
    (* the rest of the tasks, once this one is covered *)
    assert (∀ cancelled' l, heartbeat_ok l → log ⊆ l → listed cancelled' l → cancelled ⊆ cancelled' → covered task cancelled' l →
      spec heartbeat_ok (touch_leases h workerID at_ rest cancelled') l
        (λ r l, touched (Some task :: rest) r l ∧ match r with inr c => cancelled ⊆ c | inl _ => True end)) as Hrest.
    { intros cancelled' l H1 S1 L1 C1 Hc. eapply spec_mono; [apply spec_grows, (IH cancelled' l); [done|done|by apply S1|done]|by intros ? [? _]|].
      intros [code|c] l2 _ [[Ht Hcc] [_ P2]]; [done|]. destruct Ht as [Hl2 Hcov]. apply prefix_incl in P2. split; [|by etrans]. split; [done|].
      intros t [[= ->]|Ht]%elem_of_cons; [by eapply covered_more|by apply Hcov]. }
    cbn [touch_leases]. case_bool_decide as Hkey; [apply Hrest; try done; by intros ?|].
    apply (quiet_do calm); [apply heartbeat_ok_calm|done..|]. intros x H1. set (l1 := log ++ _) in *.
    assert (log ⊆ l1) as S1 by (intros y Hy; by apply In_app_l). destruct x as [err|].
    + destruct (Is err ErrDAGRunLeaseNotFound) eqn:Ei; [|by apply spec_ret]. apply Hrest; [done|done| | |].
      * apply listed_append; [by eapply listed_more|done|]. left. exists at_, err. split; [apply In_app_last|done].
      * intros k Hk. apply append_missing_in. by left.
      * intros _. left. apply append_missing_in. by right.
    + eapply spec_then; [apply repair_safe; [done|done|by apply S1|apply In_app_last]|]. intros _ l2 H2 P2 _. apply prefix_incl in P2.
      assert (log ⊆ l2) as S2 by (by etrans). apply Hrest; [done|done|by eapply listed_more|done|]. intros _. right. exists at_. apply P2, In_app_last.
  - cbn [touch_leases]. eapply spec_mono; [apply IH; [intros x Hx; apply Hsub; by right|done..]|done|].
    intros [code|c] l _ [Ht Hc]; [done|]. split; [|done]. destruct Ht as [Hl2 Hcov]. split; [done|]. intros t [?|Ht]%elem_of_cons; [done|by apply Hcov].
Qed.

Lemma cancelled_runs_spec log :
  heartbeat_ok log →
  spec heartbeat_ok (getCancelledRunsForWorker h (Some tasks)) log (λ c l, listed c l).
Proof.
  intros Hok. unfold getCancelledRunsForWorker. cbn [default].
  assert (∀ l, listed [] l) as H0 by (intros l; split; [apply NoDup_nil_2|by intros k ?%not_elem_of_nil]).
  destruct (negb _); [by apply spec_ret|].
  cut (∀ rest cancelled l, rest ⊆ tasks → heartbeat_ok l → listed cancelled l →
    spec heartbeat_ok (peach (λ acc task, do* c := isTaskCancelled h task in
      Ret (if c : bool then appendCancelledRunIfMissing acc (task_key task) else acc)) cancelled rest) l (λ c l, listed c l)).
  { intros Hc. by apply Hc. }
  induction rest as [|task rest IH]; intros cancelled l Hsub Hl Hc; [by apply spec_ret|]. cbn [peach].
  apply spec_bind. eapply spec_then; [by apply cancelled_spec|]. intros b l1 H1 P1 Hb. apply prefix_incl in P1. apply spec_ret; [done|].
  apply IH; [intros x Hx; apply Hsub; by right|done|]. destruct b; [|by eapply listed_more].
  destruct (Hb eq_refl) as (t & -> & Hr). apply listed_append; [by eapply listed_more|apply Hsub; left|by right].
Qed.

Lemma listed_both c1 c2 log : listed c1 log → listed c2 log → listed (appendCancelledRuns c1 c2) log.
Proof.
  intros [Hn Hk] [_ Hk2]. split; [by apply append_runs_nodup|]. intros k [Hx|[Hx _]]%append_runs_in; [by apply Hk|by apply Hk2].
Qed.

Lemma heartbeat_spec owner :
  spec heartbeat_ok (RunHeartbeat h workerID owner tasks) [] (touched tasks).
Proof.
  assert (heartbeat_ok []) as H0 by apply heartbeat_ok_nil. unfold RunHeartbeat. case_bool_decide; [by apply spec_ret|].
  destruct (negb _); [by apply spec_ret|]. destruct (_ && _); [by apply spec_ret|].
  apply (quiet_do calm); [apply heartbeat_ok_calm|done..|]. intros at_ Hat. set (l1 := [] ++ _) in *.
  eapply spec_then; [apply (touch_spec at_ tasks []); [done|done|apply In_app_last|split; [apply NoDup_nil_2|by intros k ?%not_elem_of_nil]]|].
  intros [code|c1] l2 H2 _ [Ht _]; [by apply spec_ret|]. destruct Ht as [Hl Hcov].
  eapply spec_then; [by apply cancelled_runs_spec|]. intros c2 l3 H3 P3 Hl2. apply prefix_incl in P3. apply spec_ret; [done|]. split.
  - apply listed_both; [by eapply listed_more|done].
  - intros t Ht. eapply covered_more; [|done|by apply Hcov]. intros k Hk. apply append_runs_in. by left.
Qed.
End Heartbeat.

(** C17. The heartbeat of a worker's runs, whatever the stores answer.  A run is changed
    only by swapping it back from [Failed], for a task of the heartbeat whose lease was
    just touched and belongs to this worker, and the swap does nothing unless the run
    failed because this worker's lease expired and the lease matches it and is fresh
    again.  Every run in the reply is a task of the heartbeat, is named once, and its
    lease is gone, its run is gone or over, it was superseded or it is being aborted;
    every other task had its lease touched. *)
Theorem run_heartbeat_correct `{TimeText} h env workerID owner tasks :
  let '(r, log) := exec env (RunHeartbeat h workerID owner tasks) [] in
  heartbeat_ok h workerID tasks log ∧ touched h tasks tasks r log.
Proof.
  pose proof (spec_exec env _ _ _ _ (heartbeat_spec h workerID tasks owner)) as Hs. by destruct (exec env (RunHeartbeat h workerID owner tasks) []).
Qed.

(** ** Restoring what a lost lease failed *)

(** A node as a running worker reports it. *)
Definition reported_node (reason : string) (n : ExecNode) : bool :=
  match en_Status n with
  | NodeRunning => bool_decide (en_StartedAt n ≠ "") && bool_decide (en_StartedAt n ≠ "-") &&
                   bool_decide (en_FinishedAt n = "") && bool_decide (en_Error n = "")
  | NodeNotStarted => bool_decide (en_StartedAt n = "-") && bool_decide (en_FinishedAt n = "-") && bool_decide (en_Error n = "")
  | NodeRetrying | NodeWaiting => false
  | NodeFailed => bool_decide (en_Error n ≠ reason)
  | _ => true
  end.

Definition reported (st : DAGRunStatus) (lease : DAGRunLease) (workerID reason : string) : bool :=
  bool_decide (rs_Status st = Running) && bool_decide (rs_Error st = "") && bool_decide (rs_FinishedAt st = "") &&
  bool_decide (rs_WorkerID st = workerID) && bool_decide (rs_AttemptID st = dl_AttemptID lease) &&
  bool_decide (rs_AttemptKey st = dl_AttemptKey lease) && forallb (reported_node reason) (rs_Nodes st).

Lemma restore_failed_node reason finishedAt n :
  reported_node reason n = true → restoreNode reason (failNode reason finishedAt n) = n.
Proof.
  unfold reported_node, failNode, restoreNode. destruct n. cbn. destruct en_Status; cbn; try done; rewrite ?andb_true_iff, ?bool_decide_eq_true.
  - intros [[-> ->] ->]. by rewrite (bool_decide_true (reason = reason)).
  - intros [[[Hs Hd] ->] ->]. by rewrite (bool_decide_true (reason = reason)), (bool_decide_true (en_StartedAt ≠ "")), (bool_decide_true (en_StartedAt ≠ "-")).
  - intros Hne. by rewrite (bool_decide_false (en_Error = reason)).
Qed.

(** A lost lease and its return.  Marking a running run as failed because its lease
    expired, and restoring it when the lease is alive again, gives back the run exactly
    as its worker had reported it, nodes that ran and nodes that had not started alike. *)
Theorem lease_failure_roundtrip st lease workerID finishedAt :
  reported st lease workerID (DistributedLeaseExpiredReason workerID) = true →
  restoreStaleLeaseFailure (markActiveStatusFailed st (DistributedLeaseExpiredReason workerID) finishedAt) lease workerID
    (DistributedLeaseExpiredReason workerID) = st.
Proof.
  set (reason := DistributedLeaseExpiredReason workerID). unfold reported. rewrite !andb_true_iff, !bool_decide_eq_true.
  intros ((((((Hst & He) & Hf) & Hw) & Hi) & Hk) & Hn).
  assert (map (restoreNode reason) (map (failNode reason finishedAt) (rs_Nodes st)) = rs_Nodes st) as Hnodes.
  { rewrite map_map. rewrite <-(map_id (rs_Nodes st)) at 2. apply map_ext_in. intros n Hin. apply restore_failed_node.
    rewrite forallb_forall in Hn. by apply Hn. }
  unfold restoreStaleLeaseFailure, markActiveStatusFailed. destruct st. cbn in *. by rewrite Hnodes; subst.
Qed.
