(* ===== verification/LogStream.v ===== *)
(** * Streaming logs from workers to the coordinator

    runtime/remote/log_streamer.go, the writers of a worker: what is written is kept in
    a buffer and sent in chunks; streaming is best effort, so a failure drops what it
    could not send.  service/coordinator/log_handler.go, the receiver: a writer per
    stream, buffered ([bufio.Writer]), onto a file that is appended to.

    The stream and the local file of the worker are an environment ([Prog]); the
    receiver keeps its writers and the files as state. *)

From stdpp Require Import base strings list gmap.
From Stdlib Require Import ZArith Lia Strings.Byte.
From S2P Require Import Prelude Status Exec GoStrings RunStatus FileSys RunFiles RunStore Distributed Prog Backoff Coordinator.

Open Scope prog_scope.
Open Scope Z_scope.

Abbreviation bytes := (list byte).

(** ** Chunks *)
Record LogChunk := mkLogChunk {
  lc_WorkerId : string;
  lc_DagRunId : string;
  lc_DagName : string;
  lc_StepName : string;
  lc_StreamType : LogStreamType;
  lc_Data : bytes;
  lc_Sequence : Z;
  lc_IsFinal : bool;
  lc_RootDagRunName : string;
  lc_RootDagRunId : string;
  lc_AttemptId : string;
  lc_OwnerCoordinatorId : string;
}.

Definition logBufferSize : Z := 32 * 1024.
Definition maxChunkSize : Z := 3 * 1024 * 1024.

(** ** The worker's side *)
Record LogStreamer := mkLogStreamer {
  ls_workerID : string;
  ls_dagRunID : string;
  ls_dagName : string;
  ls_attemptID : string;
  ls_rootRef : DAGRunRef;
  ls_ownerID : string;
}.

Definition SetAttemptID (s : LogStreamer) (attemptID : string) : LogStreamer := {| s with ls_attemptID := attemptID |}.

(** [exec.StreamTypeStdout] and [exec.StreamTypeStderr] are 1 and 2. *)
Definition toProtoStreamType (streamType : Z) : LogStreamType :=
  if streamType =? 1 then STREAM_STDOUT else if streamType =? 2 then STREAM_STDERR else STREAM_UNSPECIFIED.

Definition step_chunk (s : LogStreamer) (stepName : string) (streamType : Z) (data : bytes) (sequence : Z) (final : bool) : LogChunk :=
  mkLogChunk (ls_workerID s) (ls_dagRunID s) (ls_dagName s) stepName (toProtoStreamType streamType) data sequence final
    (ref_Name (ls_rootRef s)) (ref_ID (ls_rootRef s)) (ls_attemptID s) (ls_ownerID s).

Definition scheduler_chunk (s : LogStreamer) (data : bytes) (sequence : Z) (final : bool) : LogChunk :=
  mkLogChunk (ls_workerID s) (ls_dagRunID s) (ls_dagName s) "scheduler" STREAM_SCHEDULER data sequence final
    (ref_Name (ls_rootRef s)) (ref_ID (ls_rootRef s)) (ls_attemptID s) (ls_ownerID s).

Inductive SCall :=
  | SOpenStream
  | SSend (chunk : LogChunk)
  | SCloseAndRecv
  | SLocalWrite (data : bytes)
  | SReadFile (path : string).

(** The number of bytes a local write took comes with its error; a file that does not
    exist is [inl None]. *)
Definition SAns (c : SCall) : Type :=
  match c with
  | SOpenStream | SSend _ | SCloseAndRecv => option Error
  | SLocalWrite _ => Z * option Error
  | SReadFile _ => option Error + bytes
  end%type.

Abbreviation SProg A := (Prog SAns A).
Abbreviation SLog := (list (Event SAns)).
Definition scall (c : SCall) : SProg (SAns c) := call c.

(** Sequence numbers are unsigned 64-bit. *)
Definition next_sequence (n : Z) : Z := (n + 1) mod 2 ^ 64.

(** [stepLogWriter] and [schedulerLogWriter]; the latter has a local file too. *)
Record streamWriter := mkStreamWriter {
  w_buffer : bytes;
  w_sequence : Z;
  w_stream : bool;
  w_closed : bool;
  w_streamInitFailed : bool;
}.

Definition NewStepWriter : streamWriter := mkStreamWriter [] 0 false false false.

Section Writer.
Context (chunk : bytes → Z → bool → LogChunk).

(** The loop that splits data into chunks; a number is used up only by a chunk that was
    sent.  The fuel is the number of bytes. *)
Fixpoint send_chunks (fuel : nat) (data : bytes) (sequence : Z) : SProg (Z * option Error) :=
  match fuel, data with
  | O, _ | _, [] => Ret (sequence, None)
  | S fuel, _ =>
      let chunkSize := Nat.min (length data) (Z.to_nat maxChunkSize) in
      let nextSeq := next_sequence sequence in
      do* e := scall (SSend (chunk (take chunkSize data) nextSeq false)) in
      match e with
      | Some err => Ret (sequence, Some err)
      | None => send_chunks fuel (drop chunkSize data) nextSeq
      end
  end.

Definition send_buffer (w : streamWriter) : SProg (streamWriter * option Error) :=
  do* r := send_chunks (length (w_buffer w)) (w_buffer w) (w_sequence w) in
  let '(sequence, e) := r in Ret ({| w with w_buffer := []; w_sequence := sequence |}, e).

Definition flush (w : streamWriter) : SProg (streamWriter * option Error) :=
  if bool_decide (w_buffer w = []) then Ret (w, None)
  else if w_streamInitFailed w then Ret ({| w with w_buffer := [] |}, None)
  else if w_stream w then send_buffer w
  else
    do* e := scall SOpenStream in
    match e with
    | Some err => Ret ({| w with w_buffer := []; w_streamInitFailed := true |}, Some err)
    | None => send_buffer {| w with w_stream := true |}
    end.

(** What a write does after it was accepted. *)
Definition buffer_write (w : streamWriter) (p : bytes) : SProg streamWriter :=
  let w := {| w with w_buffer := w_buffer w ++ p |} in
  if Z.of_nat (length (w_buffer w)) <? logBufferSize then Ret w
  else
    do* r := flush w in
    let '(w, e) := r in
    Ret match e with Some _ => {| w with w_buffer := [] |} | None => w end.

Definition ErrClosedPipe : Error := [OtherError "io: read/write on closed pipe"].

(** [stepLogWriter.Write]: the number of bytes and the error. *)
Definition Write (w : streamWriter) (p : bytes) : SProg (streamWriter * (Z * option Error)) :=
  if w_closed w then Ret (w, (0, Some ErrClosedPipe))
  else do* w := buffer_write w p in Ret (w, (Z.of_nat (length p), None)).

Definition first_error (a b : option Error) : option Error := match a with Some _ => a | None => b end.

(** [stepLogWriter.Close] *)
Definition Close (w : streamWriter) : SProg (streamWriter * option Error) :=
  if w_closed w then Ret (w, None)
  else
    do* r := flush {| w with w_closed := true |} in
    let '(w, firstErr) := r in
    if w_stream w then
      let nextSeq := next_sequence (w_sequence w) in
      do* e := scall (SSend (chunk [] nextSeq true)) in
      let w := match e with Some _ => w | None => {| w with w_sequence := nextSeq |} end in
      do* c := scall SCloseAndRecv in
      Ret (w, first_error firstErr (first_error e c))
    else Ret (w, firstErr).

(** [schedulerLogWriter.Write]: the local file first. *)
Definition scheduler_Write (w : streamWriter) (p : bytes) : SProg (streamWriter * (Z * option Error)) :=
  if w_closed w then Ret (w, (0, Some ErrClosedPipe))
  else
    do* l := scall (SLocalWrite p) in
    let '(n, err) := l in
    match err with
    | Some err => Ret (w, (n, Some err))
    | None => do* w := buffer_write w p in Ret (w, (n, None))
    end.

Definition scheduler_Close (w : streamWriter) : SProg (streamWriter * option Error) :=
  if w_closed w then Ret (w, None)
  else
    do* r := flush {| w with w_closed := true |} in
    let '(w, _) := r in
    if w_stream w then
      do* _ := scall (SSend (chunk [] (next_sequence (w_sequence w)) true)) in
      do* _ := scall SCloseAndRecv in
      Ret (w, None)
    else Ret (w, None).
End Writer.

(** [LogStreamer.StreamSchedulerLog]; the stream is closed on every path. *)
Definition StreamSchedulerLog (s : LogStreamer) (logFilePath : string) : SProg (option Error) :=
  do* f := scall (SReadFile logFilePath) in
  match f with
  | inl None => Ret None
  | inl (Some err) => Ret (Some err)
  | inr [] => Ret None
  | inr data =>
      do* o := scall SOpenStream in
      match o with
      | Some err => Ret (Some err)
      | None =>
          do* r := (do* r := send_chunks (scheduler_chunk s) (length data) data 0 in
                    match r with
                    | (_, Some err) => Ret (Some err)
                    | (sequence, None) => scall (SSend (scheduler_chunk s [] (next_sequence sequence) true))
                    end) in
          do* _ := scall SCloseAndRecv in Ret r
      end
  end.

(** ** The coordinator's side *)
Definition flushThreshold : Z := 65536.
Definition bufio_size : nat := Z.to_nat (64 * 1024).

(** The content of the files, by path; every write appends. *)
Abbreviation Files := (gmap string bytes).
Definition content (files : Files) (path : string) : bytes := default [] (files !! path).
Definition append_file (files : Files) (path : string) (data : bytes) : Files := <[path := content files path ++ data]> files.

Record logWriter := mkLogWriter { lw_path : string; lw_buffer : bytes; lw_bytesSinceFlush : Z }.

(** [bufio.Writer.Flush] *)
Definition bufio_Flush (w : logWriter) (files : Files) : logWriter * Files :=
  ({| w with lw_buffer := [] |}, append_file files (lw_path w) (lw_buffer w)).

(** [bufio.Writer.Write]: data larger than the free room fills the buffer and flushes it,
    or goes to the file at once when the buffer is empty.  Two turns are always enough. *)
Fixpoint bufio_loop (fuel : nat) (w : logWriter) (p : bytes) (files : Files) : logWriter * Files :=
  let available := (bufio_size - length (lw_buffer w))%nat in
  match fuel with
  | O => ({| w with lw_buffer := lw_buffer w ++ p |}, files)
  | S fuel =>
      if (length p <=? available)%nat then ({| w with lw_buffer := lw_buffer w ++ p |}, files)
      else match lw_buffer w with
           | [] => bufio_loop fuel w [] (append_file files (lw_path w) p)
           | _ =>
               let '(w, files) := bufio_Flush {| w with lw_buffer := lw_buffer w ++ take available p |} files in
               bufio_loop fuel w (drop available p) files
           end
  end.

Definition bufio_Write (w : logWriter) (p : bytes) (files : Files) : logWriter * Files := bufio_loop 3 w p files.

(** [logWriter.write] *)
Definition logWriter_write (w : logWriter) (data : bytes) (files : Files) : logWriter * Files :=
  let '(w, files) := bufio_Write w data files in
  let w := {| w with lw_bytesSinceFlush := (lw_bytesSinceFlush w + Z.of_nat (length data)) mod 2 ^ 64 |} in
  if flushThreshold <=? lw_bytesSinceFlush w then
    let '(w, files) := bufio_Flush w files in ({| w with lw_bytesSinceFlush := 0 |}, files)
  else (w, files).

Definition stream_type_name (t : LogStreamType) : string :=
  match t with
  | STREAM_UNSPECIFIED => "LOG_STREAM_TYPE_UNSPECIFIED"
  | STREAM_STDOUT => "LOG_STREAM_TYPE_STDOUT"
  | STREAM_STDERR => "LOG_STREAM_TYPE_STDERR"
  | STREAM_SCHEDULER => "LOG_STREAM_TYPE_SCHEDULER"
  end.

Definition streamKey (chunk : LogChunk) : string :=
  (lc_DagName chunk ++ "/" ++ lc_DagRunId chunk ++ "/" ++ lc_AttemptId chunk ++ "/" ++ lc_StepName chunk ++ "/" ++
   stream_type_name (lc_StreamType chunk))%string.

Definition logFilePath (logDir : string) (chunk : LogChunk) : string :=
  let sub := bool_decide (lc_RootDagRunId chunk ≠ "") in
  let dagName := if sub then lc_RootDagRunName chunk else lc_DagName chunk in
  let dagRunID := if sub then lc_RootDagRunId chunk else lc_DagRunId chunk in
  let attemptDir := if bool_decide (lc_AttemptId chunk = "") then dagRunID else lc_AttemptId chunk in
  let filename := match lc_StreamType chunk with
                  | STREAM_SCHEDULER => "scheduler.log"
                  | t => (SafeName (lc_StepName chunk) ++ "." ++ StreamTypeToExtension t)%string
                  end in
  join_path logDir [SafeName dagName; SafeName dagRunID; SafeName attemptDir; filename].

(** [logHandler]: the writers, shared by the streams, and the files. *)
Record logHandler := mkLogHandler {
  lh_logDir : string;
  lh_ownerID : string;
  lh_writers : gmap string logWriter;
  lh_files : Files;
}.

Inductive StreamError :=
  | NonOwner                                               (* codes.FailedPrecondition *)
  | CreateWriter
  | Receive.

Section Handler.
(** Whether the directory of a path can be made and the file opened. *)
Context (openable : string → bool).

Definition getOrCreateWriter (h : logHandler) (chunk : LogChunk) : option (logHandler * logWriter) :=
  let key := streamKey chunk in
  match lh_writers h !! key with
  | Some w => Some (h, w)
  | None =>
      let path := logFilePath (lh_logDir h) chunk in
      if openable path then
        let w := mkLogWriter path [] 0 in
        Some ({| h with lh_writers := <[key := w]> (lh_writers h); lh_files := append_file (lh_files h) path [] |}, w)
      else None
  end.

(** [logWriter.close] and [closeWriter]: the buffer is flushed, the writer removed. *)
Definition closeWriter (h : logHandler) (chunk : LogChunk) : logHandler :=
  let key := streamKey chunk in
  match lh_writers h !! key with
  | Some w => {| h with lh_writers := delete key (lh_writers h); lh_files := (bufio_Flush w (lh_files h)).2 |}
  | None => h
  end.

(** One turn of [handleStream]: the bytes that were written. *)
Definition handle_chunk (h : logHandler) (chunk : LogChunk) : StreamError + (logHandler * Z) :=
  if bool_decide (lh_ownerID h ≠ "") && bool_decide (lc_OwnerCoordinatorId chunk ≠ lh_ownerID h) then inl NonOwner
  else if lc_IsFinal chunk then inr (closeWriter h chunk, 0)
  else if bool_decide (lc_Data chunk = []) then inr (h, 0)
  else
    match getOrCreateWriter h chunk with
    | None => inl CreateWriter
    | Some (h, w) =>
        let '(w, files) := logWriter_write w (lc_Data chunk) (lh_files h) in
        inr ({| h with lh_writers := <[streamKey chunk := w]> (lh_writers h); lh_files := files |}, Z.of_nat (length (lc_Data chunk)))
    end.

(** The chunks that are received, and whether the stream then ends or breaks.  The reply
    has the number of chunks and of bytes. *)
Fixpoint handle_chunks (h : logHandler) (chunks : list LogChunk) (ends : bool) (received written : Z) : logHandler * (StreamError + Z * Z) :=
  match chunks with
  | [] => (h, if ends then inr (received, written) else inl Receive)
  | c :: rest =>
      match handle_chunk h c with
      | inl err => (h, inl err)
      | inr (h, n) => handle_chunks h rest ends ((received + 1) mod 2 ^ 64) ((written + n) mod 2 ^ 64)
      end
  end.

Definition handleStream (h : logHandler) (chunks : list LogChunk) (ends : bool) : logHandler * (StreamError + Z * Z) :=
  handle_chunks h chunks ends 0 0.

(** [logHandler.Close]; the writers are closed in the order of the map, and files of
    different writers do not matter to each other. *)
Definition logHandler_Close (h : logHandler) : logHandler :=
  {| h with lh_writers := ∅; lh_files := foldr (λ kw files, (bufio_Flush kw.2 files).2) (lh_files h) (map_to_list (lh_writers h)) |}.
End Handler.
