(* ===== verification/LogStreamLaws.v ===== *)
(** * Streaming logs: what arrives

    Whatever fails, what a writer sends is part of what was written, in order, in chunks
    that are numbered without gaps; when nothing fails the file of the coordinator gets
    exactly the bytes that were written.  The paths that the coordinator puts into a
    status are those of these files. *)

From stdpp Require Import base strings list gmap.
From Stdlib Require Import ZArith Lia Strings.Byte.
From S2P Require Import Prelude Status Step Exec GoStrings RunStatus FileSys RunFiles RunStore Distributed Prog Backoff Coordinator LogStream.

Open Scope prog_scope.
Open Scope Z_scope.

(** The sizes matter only through these. *)
Lemma maxChunkSize_pos : 0 < maxChunkSize.
Proof. done. Qed.
Lemma logBufferSize_pos : 0 < logBufferSize.
Proof. done. Qed.
#[local] Opaque maxChunkSize logBufferSize bufio_size.

(** ** What a log says *)
Definition sent_chunk (ev : Event SAns) : list LogChunk :=
  match ev with
  | existT c x =>
      match c as c' return SAns c' → list LogChunk with
      | SSend chunk => λ r, match r with None => [chunk] | Some _ => [] end
      | _ => λ _, []
      end x
  end.
Definition sent_chunks (log : SLog) : list LogChunk := flat_map sent_chunk log.
Definition sent_data (log : SLog) : bytes := flat_map lc_Data (sent_chunks log).

(** The stream could not be opened or did not take a chunk. *)
Definition fails (ev : Event SAns) : bool :=
  match ev with
  | existT c x =>
      match c as c' return SAns c' → bool with
      | SOpenStream | SSend _ => λ r, match r with None => false | Some _ => true end
      | _ => λ _, false
      end x
  end.

Lemma sent_chunks_app l1 l2 : sent_chunks (l1 ++ l2) = sent_chunks l1 ++ sent_chunks l2.
Proof. apply flat_map_app. Qed.

Lemma sent_data_app l1 l2 : sent_data (l1 ++ l2) = sent_data l1 ++ sent_data l2.
Proof. unfold sent_data. by rewrite sent_chunks_app, flat_map_app. Qed.

Lemma count_grows {E} {Ans : E → Type} (f : Event Ans → bool) log log' : log `prefix_of` log' → (count f log <= count f log')%nat.
Proof. intros [k ->]. rewrite count_app. lia. Qed.

Section Writer.
Context (chunk : bytes → Z → bool → LogChunk).
Hypothesis (Hdata : ∀ d n f, lc_Data (chunk d n f) = d).
Hypothesis (Hseq : ∀ d n f, lc_Sequence (chunk d n f) = n).
Hypothesis (Hfinal : ∀ d n f, lc_IsFinal (chunk d n f) = f).

(** Chunks are of this writer, numbered from 1, and small enough. *)
Definition chunks_ok (cs : list LogChunk) : Prop :=
  ∀ i c, cs !! i = Some c → c = chunk (lc_Data c) ((Z.of_nat i + 1) mod 2 ^ 64) (lc_IsFinal c) ∧ Z.of_nat (length (lc_Data c)) <= maxChunkSize.

Definition plain_chunks (cs : list LogChunk) : Prop := ∀ c, c ∈ cs → lc_IsFinal c = false.

Lemma chunks_ok_snoc cs d f :
  chunks_ok cs → Z.of_nat (length d) <= maxChunkSize →
  chunks_ok (cs ++ [chunk d (next_sequence (Z.of_nat (length cs) mod 2 ^ 64)) f]).
Proof.
  intros Hcs Hd i c [Hi|[Hge Hi]]%lookup_app_Some; [by apply Hcs|]. apply list_lookup_singleton_Some in Hi as [Hi <-].
  rewrite Hdata, Hfinal. split; [|done]. unfold next_sequence. rewrite Zplus_mod_idemp_l. do 2 f_equal. lia.
Qed.

(** What a writer has sent, what it holds and what was written to it. *)
Record writer_inv (w : streamWriter) (log : SLog) (written : bytes) : Prop := {
  wi_chunks : chunks_ok (sent_chunks log);
  wi_plain : plain_chunks (sent_chunks log);
  wi_sequence : w_sequence w = Z.of_nat (length (sent_chunks log)) mod 2 ^ 64;
  wi_part : sublist (sent_data log ++ w_buffer w) written;
  wi_all : count fails log = 0%nat → w_streamInitFailed w = false ∧ sent_data log ++ w_buffer w = written;
  wi_stream : w_stream w = false → sent_chunks log = [];
}.

(** *** Sending a buffer *)
Definition sent_part (log : SLog) (data : bytes) (r : Z * option Error) (l : SLog) : Prop :=
  chunks_ok (sent_chunks l) ∧ plain_chunks (sent_chunks l) ∧ r.1 = Z.of_nat (length (sent_chunks l)) mod 2 ^ 64 ∧
  ∃ d, sent_data l = sent_data log ++ d ∧ d `prefix_of` data ∧
    match r.2 with None => d = data ∧ count fails l = count fails log | Some _ => (0 < count fails l)%nat end.

Lemma send_chunks_spec fuel : ∀ data sequence log,
  (length data <= fuel)%nat → chunks_ok (sent_chunks log) → plain_chunks (sent_chunks log) →
  sequence = Z.of_nat (length (sent_chunks log)) mod 2 ^ 64 →
  spec (λ _, True) (send_chunks chunk fuel data sequence) log (sent_part log data).
Proof.
  induction fuel as [|fuel IH]; intros data sequence log Hf Hc Hp ->.
  - destruct data; [|simpl in Hf; lia]. apply spec_ret; [done|]. split_and!; [done..|]. exists []. rewrite app_nil_r. by split_and!.
  - destruct data as [|b data]; [apply spec_ret; [done|]; split_and!; [done..|]; exists []; rewrite app_nil_r; by split_and!|].
    set (full := b :: data) in *. set (n := Nat.min (length full) (Z.to_nat maxChunkSize)).
    assert (0 < n)%nat as Hn by (subst n full; simpl length; pose proof maxChunkSize_pos; lia).
    change (spec (λ _, True) (do* e := scall (SSend (chunk (take n full) (next_sequence (Z.of_nat (length (sent_chunks log)) mod 2 ^ 64)) false)) in
      match e with
      | Some err => Ret (Z.of_nat (length (sent_chunks log)) mod 2 ^ 64, Some err)
      | None => send_chunks chunk fuel (drop n full) (next_sequence (Z.of_nat (length (sent_chunks log)) mod 2 ^ 64))
      end) log (sent_part log full)).
    set (c := chunk (take n full) _ false). apply spec_do; [done|]. intros [err|].
    + apply spec_ret; [done|]. unfold sent_part, sent_data. rewrite sent_chunks_app. simpl. rewrite app_nil_r. split_and!; [done..|].
      exists []. rewrite app_nil_r. split_and!; [done|apply prefix_nil|]. rewrite count_one; [lia|done].
    + assert (sent_chunks (log ++ [event (SSend c) None]) = sent_chunks log ++ [c]) as Ec by (by rewrite sent_chunks_app).
      eapply spec_mono; [apply IH|done|].
      * rewrite length_drop. lia.
      * rewrite Ec. apply chunks_ok_snoc; [done|]. rewrite length_take. subst n. pose proof maxChunkSize_pos. lia.
      * rewrite Ec. intros y [Hy| ->%list_elem_of_singleton]%elem_of_app; [by apply Hp|apply Hfinal].
      * rewrite Ec, length_app. simpl length. unfold next_sequence. rewrite Zplus_mod_idemp_l. f_equal. lia.
      * intros r l _ (H1 & H2 & H3 & d & Hd & Hpre & Hr). split_and!; [done..|]. exists (take n full ++ d). split_and!.
        -- rewrite Hd, sent_data_app. unfold sent_data at 2. simpl. assert (lc_Data c = take n full) as -> by apply Hdata. by rewrite app_nil_r, <-app_assoc.
        -- destruct Hpre as [k Hk]. exists k. rewrite <-app_assoc, <-Hk. by rewrite take_drop.
        -- destruct (r.2); [done|]. destruct Hr as [-> Hcnt]. rewrite take_drop. split; [done|]. rewrite Hcnt. by apply count_plain.
Qed.

Lemma prefix_sublist {A} (l k : list A) : l `prefix_of` k → sublist l k.
Proof. intros [x ->]. by apply sublist_inserts_r. Qed.

(** A flush empties the buffer. *)
Lemma send_buffer_spec w log written :
  writer_inv w log written → w_stream w = true → w_streamInitFailed w = false →
  spec (λ _, True) (send_buffer chunk w) log
    (λ r l, writer_inv r.1 l written ∧ w_buffer r.1 = [] ∧ w_stream r.1 = true ∧ w_closed r.1 = w_closed w).
Proof.
  intros [Hc Hp Hs Hpart Hall Hst] Hstream Hinit. unfold send_buffer.
  eapply spec_then; [by apply send_chunks_spec|]. intros [seq e] l _ Pre (H1 & H2 & H3 & d & Hd & Hpre & Hr). apply spec_ret; [done|].
  simpl in *. split_and!; [|done..]. constructor; simpl; [done..| | |congruence].
  - rewrite app_nil_r, Hd. etrans; [|exact Hpart]. apply sublist_skips_l || apply sublist_app; [done|]. by apply prefix_sublist.
  - intros Hn. assert (count fails log = 0%nat) as Hn0 by (pose proof (count_grows fails _ _ Pre); lia). split; [done|].
    destruct e as [err|]; [lia|]. destruct Hr as [-> _]. rewrite app_nil_r, Hd. by apply Hall.
Qed.

(** What a call that sends nothing leaves. *)
Lemma quiet_log c x log : sent_chunk (event c x) = [] → sent_chunks (log ++ [event c x]) = sent_chunks log.
Proof. intros Hx. rewrite sent_chunks_app. unfold sent_chunks at 2. cbn [flat_map]. by rewrite Hx, app_nil_r. Qed.

(** The buffer is given up after a failure. *)
Lemma writer_inv_drop w w' log log' written :
  writer_inv w log written → sent_chunks log' = sent_chunks log → (0 < count fails log')%nat →
  w_buffer w' = [] → w_sequence w' = w_sequence w → w_stream w' = w_stream w → writer_inv w' log' written.
Proof.
  intros [Hc Hp Hs Hpart Hall Hst] Hl Hn Hb Hseq' Hst'. constructor; rewrite ?Hl, ?Hb, ?Hseq', ?Hst'; [done..| |lia|done].
  unfold sent_data in *. rewrite Hl, app_nil_r. etrans; [|exact Hpart]. by apply sublist_inserts_r.
Qed.

Lemma flush_spec w log written :
  writer_inv w log written →
  spec (λ _, True) (flush chunk w) log (λ r l, writer_inv r.1 l written ∧ w_buffer r.1 = [] ∧ w_closed r.1 = w_closed w ∧
    (count fails l = 0%nat → w_buffer w ≠ [] → w_stream r.1 = true)).
Proof.
  intros Hw. pose proof Hw as [Hc Hp Hs Hpart Hall Hst]. unfold flush. case_bool_decide as Hb; [by apply spec_ret|].
  destruct (w_streamInitFailed w) eqn:Hinit.
  { assert (0 < count fails log)%nat as Hn by (destruct (count fails log); [by destruct (Hall eq_refl)|lia]).
    apply spec_ret; [done|]. split_and!; [by eapply writer_inv_drop|done|done|]. lia. }
  destruct (w_stream w) eqn:Hstr.
  { eapply spec_mono; [by apply (send_buffer_spec w)|done|]. by intros r l _ (? & ? & ? & ?). }
  apply spec_do; [done|]. intros e. assert (sent_chunks (log ++ [event SOpenStream e]) = sent_chunks log) as Hl by (by apply quiet_log).
  destruct e as [err|].
  - apply spec_ret; [done|]. assert (0 < count fails (log ++ [event SOpenStream (Some err)]))%nat as Hn by (rewrite count_one; [lia|done]).
    split_and!; [by eapply writer_inv_drop|done|done|]. lia.
  - eapply spec_mono; [apply (send_buffer_spec (mkStreamWriter (w_buffer w) (w_sequence w) true (w_closed w) false) _ written); [|done|done]|done|].
    + constructor; simpl; rewrite ?Hl; unfold sent_data in *; rewrite ?Hl; try done. rewrite count_plain by done. intros Hn. by apply Hall.
    + by intros r l _ (? & ? & ? & ?).
Qed.

Lemma buffer_write_spec w p log written :
  writer_inv w log written →
  spec (λ _, True) (buffer_write chunk w p) log (λ w' l, writer_inv w' l (written ++ p) ∧ w_closed w' = w_closed w ∧
    (Z.of_nat (length (w_buffer w')) < logBufferSize)).
Proof.
  intros [Hc Hp Hs Hpart Hall Hst]. unfold buffer_write. cbv zeta.
  assert (writer_inv {| w with w_buffer := w_buffer w ++ p |} log (written ++ p)) as Hw.
  { constructor; simpl; [done..| | |done]; rewrite app_assoc; [by apply sublist_app|]. intros Hn. destruct (Hall Hn) as [? ->]. done. }
  destruct (_ <? _) eqn:Elt; [apply spec_ret; [done|]; split_and!; [done|done|]; by apply Z.ltb_lt in Elt|].
  eapply spec_then; [by apply flush_spec|]. intros [w' e] l _ _ (Hw' & Hb' & Hcl & _). apply spec_ret; [done|].
  simpl in *. assert ({| w' with w_buffer := [] |} = w') as Hid by (destruct w'; simpl in *; by subst).
  pose proof logBufferSize_pos. destruct e; rewrite ?Hid, ?Hb'; simpl; split_and!; try done; rewrite ?Hb'; simpl; lia.
Qed.

(** *** A session: some writes, and the end *)
Definition write_all (w : streamWriter) (ps : list bytes) : SProg streamWriter :=
  peach (λ w p, do* r := Write chunk w p in Ret r.1) w ps.
Definition session (ps : list bytes) : SProg (streamWriter * option Error) :=
  do* w := write_all NewStepWriter ps in Close chunk w.

Lemma write_all_spec ps : ∀ w log written,
  writer_inv w log written → w_closed w = false → Z.of_nat (length (w_buffer w)) < logBufferSize →
  spec (λ _, True) (write_all w ps) log (λ w' l, writer_inv w' l (written ++ concat ps) ∧ w_closed w' = false ∧
    Z.of_nat (length (w_buffer w')) < logBufferSize).
Proof.
  induction ps as [|p ps IH]; intros w log written Hw Hcl Hb; [apply spec_ret; [done|]; by rewrite app_nil_r|].
  cbn [write_all peach]. apply spec_bind. unfold Write. rewrite Hcl. apply spec_bind.
  eapply spec_then; [by apply buffer_write_spec|]. intros w' l _ _ (Hw' & Hcl' & Hb'). apply spec_ret; [done|]. apply spec_ret; [done|].
  cbn [concat]. rewrite app_assoc. apply IH; [done|cbn in *; congruence|done].
Qed.

(** The chunks of a session: data, and then at most one final mark. *)
Definition session_chunks (cs : list LogChunk) (ended : bool) : Prop :=
  ∃ plain, plain_chunks plain ∧ cs = plain ++ (if ended then [chunk [] ((Z.of_nat (length plain) + 1) mod 2 ^ 64) true] else []).

Definition session_post (written : bytes) (log : SLog) : Prop :=
  chunks_ok (sent_chunks log) ∧ sublist (sent_data log) written ∧
  ∃ ended, session_chunks (sent_chunks log) ended ∧
    (count fails log = 0%nat → sent_data log = written ∧ (ended = false → sent_chunks log = [])).

Lemma close_spec w log written :
  writer_inv w log written → w_closed w = false →
  spec (λ _, True) (Close chunk w) log (λ _ l, session_post written l).
Proof.
  intros Hw Hcl. unfold Close. rewrite Hcl. eapply spec_then; [apply (flush_spec {| w with w_closed := true |} log written); by destruct Hw|].
  intros [w' e] l _ Pre (Hw' & Hb & _ & Hs). simpl in *. destruct Hw' as [Hc Hp Hseq' Hpart Hall Hst].
  assert (sublist (sent_data l) written) as Hpart' by (by rewrite Hb, app_nil_r in Hpart).
  destruct (w_stream w') eqn:Estr.
  - set (c := chunk [] (next_sequence (w_sequence w')) true). apply spec_do; [done|]. intros e2. set (l1 := l ++ _).
    assert (session_post written l1) as H1.
    { subst l1. destruct e2 as [err|].
      - unfold session_post, sent_data. rewrite quiet_log by done. split_and!; [done..|]. exists false. split; [exists (sent_chunks l); by rewrite app_nil_r|].
        rewrite count_one by done. lia.
      - assert (sent_chunks (l ++ [event (SSend c) None]) = sent_chunks l ++ [c]) as El by (by rewrite sent_chunks_app).
        assert (lc_Data c = []) as Ed by apply Hdata. unfold session_post, sent_data. rewrite El, flat_map_app. simpl. rewrite Ed. simpl. rewrite app_nil_r.
        subst c. rewrite Hseq'. split_and!; [apply chunks_ok_snoc; [done|]; pose proof maxChunkSize_pos; simpl; lia|done|].
        exists true. split; [exists (sent_chunks l); split; [done|]; unfold next_sequence; by rewrite Zplus_mod_idemp_l|].
        rewrite count_plain by done. intros Hn. destruct (Hall Hn) as [_ Ha]. by rewrite Hb, app_nil_r in Ha. }
    apply spec_do; [done|]. intros c2. apply spec_ret; [done|]. unfold session_post, sent_data in *. by rewrite quiet_log, count_plain.
  - apply spec_ret; [done|]. split_and!; [done..|]. exists false. split; [exists (sent_chunks l); by rewrite app_nil_r|].
    intros Hn. destruct (Hall Hn) as [_ Ha]. rewrite Hb, app_nil_r in Ha. split; [done|]. intros _. by apply Hst.
Qed.

Lemma session_spec ps : spec (λ _, True) (session ps) [] (λ _ l, session_post (concat ps) l).
Proof.
  eapply spec_then; [apply (write_all_spec ps NewStepWriter [] [])|].
  - constructor; try done. by intros c ?%not_elem_of_nil.
  - done.
  - pose proof logBufferSize_pos. simpl. lia.
  - intros w l _ _ (Hw & Hcl & _). by apply close_spec.
Qed.
End Writer.

(** ** The receiver *)

(** What the file of a writer will hold. *)
Definition pending (w : logWriter) (files : Files) : bytes := content files (lw_path w) ++ lw_buffer w.

Lemma content_append files path data : content (append_file files path data) path = content files path ++ data.
Proof. unfold append_file, content at 1. by rewrite lookup_insert_eq. Qed.

(** Writing to a buffer keeps the path, adds the data, and touches no other file. *)
Definition writes (w : logWriter) (files : Files) (data : bytes) (w' : logWriter) (files' : Files) : Prop :=
  lw_path w' = lw_path w ∧ pending w' files' = pending w files ++ data ∧ ∀ q, q ≠ lw_path w → files' !! q = files !! q.

Lemma flush_writes w files : writes w files [] (bufio_Flush w files).1 (bufio_Flush w files).2.
Proof.
  split_and!; [done| |].
  - unfold pending. simpl. by rewrite content_append, !app_nil_r.
  - intros q Hq. simpl. unfold append_file. by rewrite lookup_insert_ne.
Qed.

Lemma writes_trans w1 f1 d1 w2 f2 d2 w3 f3 : writes w1 f1 d1 w2 f2 → writes w2 f2 d2 w3 f3 → writes w1 f1 (d1 ++ d2) w3 f3.
Proof.
  intros (P1 & C1 & F1) (P2 & C2 & F2). split_and!; [congruence|by rewrite C2, C1, app_assoc|]. intros q Hq. rewrite F2, F1; congruence.
Qed.

Lemma writes_flush w f d w1 f1 : writes w f d w1 f1 → writes w f d (bufio_Flush w1 f1).1 (bufio_Flush w1 f1).2.
Proof. intros Hw. rewrite <-(app_nil_r d). eapply writes_trans; [exact Hw|apply flush_writes]. Qed.

Lemma buffer_writes w files p : writes w files p {| w with lw_buffer := lw_buffer w ++ p |} files.
Proof. split_and!; [done| |done]. unfold pending. simpl. by rewrite app_assoc. Qed.

Lemma bufio_loop_writes fuel : ∀ w p files, writes w files p (bufio_loop fuel w p files).1 (bufio_loop fuel w p files).2.
Proof.
  induction fuel as [|fuel IH]; intros w p files; simpl; [apply buffer_writes|].
  destruct (_ <=? _)%nat; [apply buffer_writes|]. destruct (lw_buffer w) as [|b buf] eqn:Eb.
  - rewrite <-(app_nil_r p) at 1. eapply writes_trans; [|apply IH]. split_and!; [done| |].
    + unfold pending. by rewrite Eb, content_append, !app_nil_r.
    + intros q Hq. unfold append_file. by rewrite lookup_insert_ne.
  - rewrite <-Eb. set (n := (bufio_size - _)%nat). rewrite <-(take_drop n p) at 1. eapply writes_trans; [|apply IH].
    exact (writes_flush _ _ _ _ _ (buffer_writes w files (take n p))).
Qed.

(** The loop of [bufio.Writer.Write] ends: with a buffer within its size, more turns do
    not change the result, which is again within the size. *)
Lemma bufio_loop_ends n w p files :
  (length (lw_buffer w) <= bufio_size)%nat →
  bufio_loop (3 + n) w p files = bufio_loop 3 w p files ∧ (length (lw_buffer (bufio_loop 3 w p files).1) <= bufio_size)%nat.
Proof.
  intros Hb. simpl. destruct (_ <=? _)%nat eqn:E1; [apply Nat.leb_le in E1; simpl; rewrite length_app; split; [done|lia]|].
  assert (∀ m p files, bufio_loop (2 + m) {| w with lw_buffer := [] |} p files = bufio_loop 2 {| w with lw_buffer := [] |} p files ∧
    (length (lw_buffer (bufio_loop 2 {| w with lw_buffer := [] |} p files).1) <= bufio_size)%nat) as Hempty.
  { intros m p' files'. simpl. rewrite Nat.sub_0_r. destruct (length p' <=? bufio_size)%nat eqn:E2; [apply Nat.leb_le in E2; split; [done|simpl; lia]|]. split; [done|]. simpl. lia. }
  destruct (lw_buffer w) as [|b buf] eqn:Eb; [|exact (Hempty n _ _)]. split; [done|]. simpl. lia.
Qed.

Lemma logWriter_write_writes w data files :
  writes w files data (logWriter_write w data files).1 (logWriter_write w data files).2.
Proof.
  unfold logWriter_write. pose proof (bufio_loop_writes 3 w data files) as Hw. unfold bufio_Write.
  destruct (bufio_loop 3 w data files) as [w1 f1]. cbv zeta. simpl in Hw. destruct (_ <=? _); [|by simpl].
  by apply (writes_flush w files data w1 f1) in Hw.
Qed.

Section Receiver.
Context (openable : string → bool) (key path : string).

(** Chunks of one stream that this coordinator takes. *)
Definition of_stream (h : logHandler) (c : LogChunk) : Prop :=
  streamKey c = key ∧ logFilePath (lh_logDir h) c = path ∧ (lh_ownerID h = "" ∨ lc_OwnerCoordinatorId c = lh_ownerID h).

(** A stream has received the data, since the handler was [h0]. *)
Definition received (h0 : logHandler) (data : bytes) (h : logHandler) : Prop :=
  lh_logDir h = lh_logDir h0 ∧ lh_ownerID h = lh_ownerID h0 ∧ (∀ q, q ≠ path → lh_files h !! q = lh_files h0 !! q) ∧
  delete key (lh_writers h) = lh_writers h0 ∧
  match lh_writers h !! key with
  | Some w => lw_path w = path ∧ pending w (lh_files h) = content (lh_files h0) path ++ data
  | None => data = [] ∧ content (lh_files h) path = content (lh_files h0) path
  end.

Lemma accepted h c : of_stream h c → bool_decide (lh_ownerID h ≠ "") && bool_decide (lc_OwnerCoordinatorId c ≠ lh_ownerID h) = false.
Proof.
  intros (_ & _ & Ho). apply andb_false_iff. destruct Ho as [Ho|Ho]; [left|right]; apply bool_decide_eq_false; naive_solver.
Qed.

Lemma data_chunk h0 h data c :
  received h0 data h → of_stream h0 c → lc_IsFinal c = false → openable path = true →
  ∃ h', handle_chunk openable h c = inr (h', Z.of_nat (length (lc_Data c))) ∧ received h0 (data ++ lc_Data c) h'.
Proof.
  intros (Hdir & Hown & Hfiles & Hdel & Hw) Hc Hf Hopen. unfold handle_chunk.
  rewrite accepted by (destruct Hc as (? & ? & ?); split_and!; [done|by rewrite Hdir|by rewrite Hown]). rewrite Hf.
  case_bool_decide as Hd; [exists h; rewrite Hd, app_nil_r; by split_and!|]. destruct Hc as (Hk & Hp & _). unfold getOrCreateWriter.
  rewrite Hk, Hdir, Hp, Hopen. destruct (lh_writers h !! key) as [w|] eqn:Ew.
  - destruct Hw as [Hwp Hpend]. destruct (logWriter_write_writes w (lc_Data c) (lh_files h)) as (P1 & C1 & F1).
    destruct (logWriter_write _ _ _) as [w' files']. simpl in *. eexists. split; [done|]. split_and!; simpl; [done..| | |].
    + intros q Hq. rewrite F1 by congruence. by apply Hfiles.
    + by rewrite delete_insert_eq, <-Hdel.
    + rewrite lookup_insert_eq. split; [congruence|]. by rewrite C1, Hpend, app_assoc.
  - destruct Hw as [-> Hcont]. set (w := mkLogWriter path [] 0). simpl.
    destruct (logWriter_write_writes w (lc_Data c) (append_file (lh_files h) path [])) as (P1 & C1 & F1).
    destruct (logWriter_write _ _ _) as [w' files']. simpl in *. eexists. split; [done|]. split_and!; simpl; [done..| | |].
    + intros q Hq. rewrite F1 by done. unfold append_file. rewrite lookup_insert_ne by done. by apply Hfiles.
    + by rewrite !delete_insert_eq, <-Hdel.
    + rewrite lookup_insert_eq. split; [done|]. rewrite C1. unfold pending. simpl. by rewrite content_append, !app_nil_r, Hcont.
Qed.

Lemma data_chunks h0 cs : ∀ h data n m rest ends,
  received h0 data h → (∀ c, c ∈ cs → of_stream h0 c ∧ lc_IsFinal c = false) → openable path = true →
  ∃ h', received h0 (data ++ flat_map lc_Data cs) h' ∧
    handle_chunks openable h (cs ++ rest) ends (n mod 2 ^ 64) (m mod 2 ^ 64) =
    handle_chunks openable h' rest ends ((n + Z.of_nat (length cs)) mod 2 ^ 64) ((m + Z.of_nat (length (flat_map lc_Data cs))) mod 2 ^ 64).
Proof.
  induction cs as [|c cs IH]; intros h data n m rest ends Hr Hcs Hopen; simpl.
  - exists h. rewrite app_nil_r, !Z.add_0_r. done.
  - destruct (Hcs c ltac:(left)) as [Hc Hf]. destruct (data_chunk h0 h data c Hr Hc Hf Hopen) as (h1 & -> & Hr1).
    rewrite !Zplus_mod_idemp_l. edestruct (IH h1 (data ++ lc_Data c) (n + 1) (m + Z.of_nat (length (lc_Data c))) rest ends) as (h2 & Hr2 & ->);
      [done|intros x Hx; apply Hcs; by right|done|].
    exists h2. rewrite app_assoc. split; [done|]. rewrite length_app. f_equal; f_equal; lia.
Qed.

(** The final mark closes the file. *)
Lemma final_chunk h0 h data c :
  received h0 data h → of_stream h0 c → lc_IsFinal c = true →
  ∃ h', handle_chunk openable h c = inr (h', 0) ∧ lh_writers h' = lh_writers h0 ∧
    content (lh_files h') path = content (lh_files h0) path ++ data ∧ ∀ q, q ≠ path → lh_files h' !! q = lh_files h0 !! q.
Proof.
  intros (Hdir & Hown & Hfiles & Hdel & Hw) Hc Hf. unfold handle_chunk.
  rewrite accepted by (destruct Hc as (? & ? & ?); split_and!; [done|by rewrite Hdir|by rewrite Hown]). rewrite Hf.
  destruct Hc as (Hk & Hp & _). exists (closeWriter h c). split; [done|]. unfold closeWriter. rewrite Hk.
  destruct (lh_writers h !! key) as [w|] eqn:Ew; simpl.
  - destruct Hw as [Hwp Hpend]. subst path. split_and!; [done|by rewrite content_append|]. intros q Hq. unfold append_file.
    rewrite lookup_insert_ne by done. by apply Hfiles.
  - destruct Hw as [-> Hcont]. split_and!; [by rewrite <-Hdel, delete_id|by rewrite app_nil_r|done].
Qed.
End Receiver.

(** ** The writer of a step *)
Section Step.
Context (s : LogStreamer) (stepName : string) (streamType : Z).

Abbreviation chunk := (step_chunk s stepName streamType).

Lemma step_session env ps : session_post chunk (concat ps) (exec env (session chunk ps) []).2.
Proof. by apply (spec_exec env _ _ _ _ (session_spec chunk (λ _ _ _, eq_refl) (λ _ _ _, eq_refl) ps)). Qed.

(** Streaming a log is best effort, whatever fails.  What the writer of a step sends
    in a session of writes and a close is a part of what was written, in its order; the
    chunks that were taken are of this step, have at most 3 MB of data and are numbered
    1, 2, 3, ... (as 64-bit numbers) without gaps, and only the last can be the final
    mark, which has no data. *)
Theorem log_stream_best_effort env ps :
  let log := (exec env (session chunk ps) []).2 in
  sublist (sent_data log) (concat ps) ∧
  (∀ i c, sent_chunks log !! i = Some c →
     c = chunk (lc_Data c) ((Z.of_nat i + 1) mod 2 ^ 64) (lc_IsFinal c) ∧ Z.of_nat (length (lc_Data c)) <= maxChunkSize ∧
     (lc_IsFinal c = true → i = (length (sent_chunks log) - 1)%nat ∧ lc_Data c = [])).
Proof.
  destruct (step_session env ps) as (Hc & Hpart & ended & (plain & Hp & Hcs) & _). cbv zeta. split; [done|].
  intros i c Hi. destruct (Hc i c Hi) as [Heq Hlen]. split_and!; [done..|]. intros Hf. rewrite Hcs in Hi. rewrite Hcs, length_app.
  apply lookup_app_Some in Hi as [Hi|[Hge Hi]]; [apply list_elem_of_lookup_2, Hp in Hi; congruence|].
  destruct ended; [|by rewrite lookup_nil in Hi]. apply list_lookup_singleton_Some in Hi as [Hi <-]. simpl. split; [lia|done].
Qed.

(** C18. A log that is streamed arrives.  When the stream can be opened and takes every
    chunk, the chunks of a session, handled by a coordinator that accepts their owner,
    can open the file and has no open writer for the stream, add to the file of the
    stream exactly the bytes that were written, in order, close its writer, touch no
    other file, and are answered with their number and size. *)
Theorem log_stream_roundtrip env openable h ps :
  let log := (exec env (session chunk ps) []).2 in
  let path := logFilePath (lh_logDir h) (chunk [] 0 false) in
  count fails log = 0%nat → lh_ownerID h = "" ∨ ls_ownerID s = lh_ownerID h → openable path = true →
  lh_writers h !! streamKey (chunk [] 0 false) = None →
  let '(h', reply) := handleStream openable h (sent_chunks log) true in
  content (lh_files h') path = content (lh_files h) path ++ concat ps ∧ lh_writers h' = lh_writers h ∧
  (∀ q, q ≠ path → lh_files h' !! q = lh_files h !! q) ∧
  reply = inr (Z.of_nat (length (sent_chunks log)) mod 2 ^ 64, Z.of_nat (length (concat ps)) mod 2 ^ 64).
Proof.
  cbv zeta. set (log := (exec env _ _).2). set (path := logFilePath _ _). set (key := streamKey _).
  intros Hn Ho Hopen Hw. destruct (handleStream openable h (sent_chunks log) true) as [h' reply] eqn:Eh.
  destruct (step_session env ps) as (Hc & _ & ended & (plain & Hp & Hcs) & Hall). fold log in Hc, Hcs, Hall.
  destruct (Hall Hn) as [Hdata Hend].
  assert (∀ c, c ∈ sent_chunks log → of_stream key path h c) as Hof.
  { intros c Hin. apply list_elem_of_lookup_1 in Hin as [i Hi]. destruct (Hc i c Hi) as [-> _]. by split_and!. }
  assert (received key path h [] h) as Hr by (split_and!; [done..|by apply delete_id|by rewrite Hw]).
  unfold handleStream in Eh. unfold sent_data in Hdata. destruct ended.
  - rewrite Hcs, flat_map_app in Hdata. simpl in Hdata. rewrite app_nil_r in Hdata. set (mark := chunk [] _ true) in *.
    destruct (data_chunks openable key path h plain h [] 0 0 [mark] true) as (h1 & Hr1 & E1); [done| |done|].
    { intros c Hin. split; [|by apply Hp]. apply Hof. rewrite Hcs. apply elem_of_app. by left. }
    rewrite Hcs in Eh. rewrite !Zmod_0_l in E1. rewrite E1, Hdata in Eh. simpl in Hr1, Eh. rewrite Hdata in Hr1.
    destruct (final_chunk openable key path h h1 (concat ps) mark) as (h2 & E2 & Hw2 & Hc2 & Hf2);
      [done|apply Hof; rewrite Hcs; apply elem_of_app; right; by left|done|].
    rewrite E2 in Eh. injection Eh as <- <-. split_and!; [done..|]. rewrite Hcs, length_app, !Zplus_mod_idemp_l. simpl. repeat f_equal; lia.
  - rewrite (Hend eq_refl) in *. simpl in *. injection Eh as <- <-. rewrite <-Hdata, app_nil_r. by split_and!.
Qed.
End Step.

(** ** The paths in a status *)

(** The streamer of the run of a status. *)
Definition streams_run (s : LogStreamer) (st : DAGRunStatus) : bool :=
  bool_decide (ls_dagName s = rs_Name st) && bool_decide (ls_dagRunID s = rs_DAGRunID st) && bool_decide (ls_rootRef s = rs_Root st) &&
  bool_decide (ls_attemptID s = rs_AttemptID st).

(** A run that is its own root has the name of the root. *)
Definition rooted (st : DAGRunStatus) : bool :=
  bool_decide (ref_ID (rs_Root st) = "") || negb (bool_decide (ref_ID (rs_Root st) = rs_DAGRunID st)) ||
  bool_decide (ref_Name (rs_Root st) = rs_Name st).

(** The attempt has an identifier, or the run is a root run. *)
Definition attempt_known (st : DAGRunStatus) : bool :=
  bool_decide (rs_AttemptID st ≠ "") || bool_decide (ref_ID (rs_Root st) = "") || bool_decide (ref_ID (rs_Root st) = rs_DAGRunID st).

Lemma join_path_app dir l1 l2 : join_path dir (l1 ++ l2) = join_path (join_path dir l1) l2.
Proof. apply foldl_app. Qed.

Lemma chunk_dir logDir s st c :
  streams_run s st = true → rooted st = true → attempt_known st = true →
  lc_DagName c = ls_dagName s → lc_DagRunId c = ls_dagRunID s → lc_RootDagRunName c = ref_Name (ls_rootRef s) →
  lc_RootDagRunId c = ref_ID (ls_rootRef s) → lc_AttemptId c = ls_attemptID s →
  logFilePath logDir c =
  join_path (log_dir logDir st) [match lc_StreamType c with
                                 | STREAM_SCHEDULER => "scheduler.log"
                                 | t => (SafeName (lc_StepName c) ++ "." ++ StreamTypeToExtension t)%string
                                 end].
Proof.
  unfold streams_run, rooted, attempt_known, logFilePath, log_dir.
  rewrite !andb_true_iff, !orb_true_iff, !negb_true_iff, !bool_decide_eq_true, bool_decide_eq_false.
  intros [[[Hn Hi] Hr] Ha] Hroot Hatt -> -> -> -> ->. cbv zeta. rewrite Hn, Hi, Hr, Ha, <-join_path_app. cbn [app].
  destruct (decide (ref_ID (rs_Root st) = "")) as [E|E];
    [rewrite (bool_decide_false (ref_ID (rs_Root st) ≠ "")) by tauto; done|].
  rewrite (bool_decide_true (ref_ID (rs_Root st) ≠ "")) by done. cbn [andb].
  destruct (decide (ref_ID (rs_Root st) = rs_DAGRunID st)) as [E2|E2].
  - rewrite (bool_decide_false (ref_ID (rs_Root st) ≠ rs_DAGRunID st)) by tauto. rewrite E2.
    destruct Hroot as [[?|?]|Hname]; [done|done|]. by rewrite Hname.
  - rewrite (bool_decide_true (ref_ID (rs_Root st) ≠ rs_DAGRunID st)) by done.
    destruct Hatt as [[Hatt|?]|?]; [|done|done]. by rewrite (bool_decide_false (rs_AttemptID st = "")).
Qed.

(** The paths that the coordinator writes into a reported status are the files that
    it writes the streams of that run's worker to: the log of the run, and both logs of
    every node with a name. *)
Theorem log_paths_agree logDir s st data sequence final :
  logDir ≠ "" → streams_run s st = true → rooted st = true → attempt_known st = true →
  let st' := transformLogPaths logDir st in
  rs_Log st' = logFilePath logDir (scheduler_chunk s data sequence final) ∧
  ∀ i n, rs_Nodes st !! i = Some n → st_Name (en_Step n) ≠ "" →
    ∃ n', rs_Nodes st' !! i = Some n' ∧
      en_Stdout n' = logFilePath logDir (step_chunk s (st_Name (en_Step n)) 1 data sequence final) ∧
      en_Stderr n' = logFilePath logDir (step_chunk s (st_Name (en_Step n)) 2 data sequence final).
Proof.
  intros Hdir Hs Hr Ha. cbv zeta. unfold transformLogPaths. rewrite (bool_decide_false (logDir = "")) by done. simpl. split.
  - by erewrite (chunk_dir logDir s st) by done.
  - intros i n Hi Hname. rewrite list_lookup_fmap, Hi. simpl. eexists. split; [done|]. unfold transformNode. simpl.
    rewrite (bool_decide_false (st_Name (en_Step n) = "")) by done. by erewrite !(chunk_dir logDir s st) by done.
Qed.
