(* ===== verification/AuthData.v ===== *)
(** * Users, API keys and webhooks (internal/auth, cmn/stringutil/hash.go, cmn/crypto)

    The roles of a deployment, the access of a user or key to workspaces, the
    records of users, API keys and webhooks with the forms they are stored in, and
    the texts that tokens are made of: base 58, hexadecimal digits, encrypted secrets in
    base 64 and the escaped identities of OIDC users.

    A pointer to a [WorkspaceAccess] or to a time is an [option]: the code replaces
    what they point to and never changes it in place. *)

From stdpp Require Import base strings list gmap.
From Stdlib Require Import ZArith Lia Ascii.
From S2P Require Import Prelude GoStrings QueueName FileSys.

(** ** Roles (role.go) *)
Abbreviation Role := string (only parsing).

Definition RoleAdmin : Role := "admin".
Definition RoleManager : Role := "manager".
Definition RoleDeveloper : Role := "developer".
Definition RoleOperator : Role := "operator".
Definition RoleViewer : Role := "viewer".
Definition RoleNone : Role := "".

Definition allRoles : list Role := [RoleAdmin; RoleManager; RoleDeveloper; RoleOperator; RoleViewer].

Definition Role_Valid (r : Role) : bool :=
  String.eqb r RoleAdmin || String.eqb r RoleManager || String.eqb r RoleDeveloper
  || String.eqb r RoleOperator || String.eqb r RoleViewer.
Definition Role_IsSet (r : Role) : bool := negb (String.eqb r RoleNone).
Definition CanWrite (r : Role) : bool :=
  String.eqb r RoleAdmin || String.eqb r RoleManager || String.eqb r RoleDeveloper.
Definition CanExecute (r : Role) : bool :=
  String.eqb r RoleAdmin || String.eqb r RoleManager || String.eqb r RoleDeveloper || String.eqb r RoleOperator.
Definition CanManageAudit (r : Role) : bool := String.eqb r RoleAdmin || String.eqb r RoleManager.
Definition IsAdmin (r : Role) : bool := String.eqb r RoleAdmin.
Definition ParseRole (s : string) : option Role := if Role_Valid s then Some s else None.

(** ** Workspaces (workspace_access.go) *)
Record WorkspaceGrant := mkWorkspaceGrant { wg_Workspace : string; wg_Role : Role }.
Record WorkspaceAccess := mkWorkspaceAccess { wa_All : bool; wa_Grants : list WorkspaceGrant }.

#[export] Instance WorkspaceGrant_eq_dec : EqDecision WorkspaceGrant.
Proof. solve_decision. Defined.
#[export] Instance WorkspaceAccess_eq_dec : EqDecision WorkspaceAccess.
Proof. solve_decision. Defined.

Definition AllWorkspaceAccess : WorkspaceAccess := mkWorkspaceAccess true [].

Definition NormalizeWorkspaceAccess (access : option WorkspaceAccess) : WorkspaceAccess :=
  match access with
  | None => AllWorkspaceAccess
  | Some a =>
      if wa_All a then AllWorkspaceAccess
      else mkWorkspaceAccess false
             ((λ g, mkWorkspaceGrant (TrimSpace (wg_Workspace g)) (wg_Role g)) <$> wa_Grants a)
  end.

Definition CloneWorkspaceAccess (access : option WorkspaceAccess) : option WorkspaceAccess :=
  let normalized := NormalizeWorkspaceAccess access in
  Some (mkWorkspaceAccess (wa_All normalized) (wa_Grants normalized)).

(** The role and whether the workspace is visible. *)
Definition EffectiveRole (globalRole : Role) (access : option WorkspaceAccess) (workspaceName : string) : Role * bool :=
  let workspaceName := TrimSpace workspaceName in
  if String.eqb workspaceName "" then (globalRole, true)
  else
    let normalized := NormalizeWorkspaceAccess access in
    if wa_All normalized then (globalRole, true)
    else match list_find (λ g, wg_Workspace g = workspaceName) (wa_Grants normalized) with
         | Some (_, g) => (wg_Role g, true)
         | None => (RoleNone, false)
         end.

Definition HasWorkspaceAccess (access : option WorkspaceAccess) (workspaceName : string) : bool :=
  (EffectiveRole RoleViewer access workspaceName).2.

(** The loop over the grants, with the names it has seen. *)
Fixpoint validate_grants (exists_ : option (string → bool)) (seen : list string) (grants : list WorkspaceGrant) : option AuthErr :=
  match grants with
  | [] => None
  | g :: grants' =>
      let workspaceName := TrimSpace (wg_Workspace g) in
      if String.eqb workspaceName "" then Some ErrInvalidWorkspaceAccess
      else if bool_decide (workspaceName ∈ seen) then Some ErrInvalidWorkspaceAccess
      else if negb (Role_Valid (wg_Role g)) then Some ErrInvalidWorkspaceAccess
      else if String.eqb (wg_Role g) RoleAdmin then Some ErrInvalidWorkspaceAccess
      else if match exists_ with Some f => negb (f workspaceName) | None => false end then Some ErrInvalidWorkspaceAccess
      else validate_grants exists_ (workspaceName :: seen) grants'
  end.

Definition ValidateWorkspaceAccess (globalRole : Role) (access : option WorkspaceAccess) (workspaceExists : option (string → bool)) :
    option AuthErr :=
  if negb (Role_Valid globalRole) then Some ErrInvalidWorkspaceAccess
  else if match access with Some a => wa_All a && negb (bool_decide (wa_Grants a = [])) | None => false end
       then Some ErrInvalidWorkspaceAccess
  else
    let normalized := NormalizeWorkspaceAccess access in
    if wa_All normalized then None
    else if negb (String.eqb globalRole RoleViewer) then Some ErrInvalidWorkspaceAccess
    else if bool_decide (wa_Grants normalized = []) then Some ErrInvalidWorkspaceAccess
    else validate_grants workspaceExists [] (wa_Grants normalized).

(** ** Users (user.go) *)
Record User := mkUser {
  us_ID : string;
  us_Username : string;
  us_PasswordHash : string;
  us_Role : Role;
  us_WorkspaceAccess : option WorkspaceAccess;
  us_CreatedAt : Time;
  us_UpdatedAt : Time;
  us_AuthProvider : string;
  us_OIDCIssuer : string;
  us_OIDCSubject : string;
  us_IsDisabled : bool;
}.

Definition NewUser (id : string) (now : Time) (username passwordHash : string) (role : Role) : User :=
  mkUser id username passwordHash role (Some AllWorkspaceAccess) now now "" "" "" false.

Record UserForStorage := mkUserForStorage {
  su_ID : string;
  su_Username : string;
  su_PasswordHash : string;
  su_Role : Role;
  su_WorkspaceAccess : option WorkspaceAccess;
  su_CreatedAt : Time;
  su_UpdatedAt : Time;
  su_AuthProvider : string;
  su_OIDCIssuer : string;
  su_OIDCSubject : string;
  su_IsDisabled : bool;
}.

Definition User_ToStorage (u : User) : UserForStorage :=
  mkUserForStorage (us_ID u) (us_Username u) (us_PasswordHash u) (us_Role u)
    (CloneWorkspaceAccess (us_WorkspaceAccess u)) (us_CreatedAt u) (us_UpdatedAt u)
    (us_AuthProvider u) (us_OIDCIssuer u) (us_OIDCSubject u) (us_IsDisabled u).

Definition ToUser (s : UserForStorage) : User :=
  mkUser (su_ID s) (su_Username s) (su_PasswordHash s) (su_Role s)
    (CloneWorkspaceAccess (su_WorkspaceAccess s)) (su_CreatedAt s) (su_UpdatedAt s)
    (su_AuthProvider s) (su_OIDCIssuer s) (su_OIDCSubject s) (su_IsDisabled s).

Definition IsOIDCUser (u : User) : bool := String.eqb (us_AuthProvider u) "oidc".

(** ** API keys (apikey.go) *)
Record APIKey := mkAPIKey {
  ak_ID : string;
  ak_Name : string;
  ak_Description : string;
  ak_Role : Role;
  ak_WorkspaceAccess : option WorkspaceAccess;
  ak_KeyHash : string;
  ak_KeyPrefix : string;
  ak_CreatedAt : Time;
  ak_UpdatedAt : Time;
  ak_CreatedBy : string;
  ak_LastUsedAt : option Time;
}.

Definition NewAPIKey (id : string) (now : Time) (name description : string) (role : Role)
    (keyHash keyPrefix createdBy : string) : AuthErr + APIKey :=
  if String.eqb name "" then inl ErrInvalidAPIKeyName
  else if String.eqb keyHash "" then inl ErrInvalidAPIKeyHash
  else if negb (Role_Valid role) then inl ErrInvalidRole
  else inr (mkAPIKey id name description role (Some AllWorkspaceAccess) keyHash keyPrefix now now createdBy None).

Record APIKeyForStorage := mkAPIKeyForStorage {
  sk_ID : string;
  sk_Name : string;
  sk_Description : string;
  sk_Role : Role;
  sk_WorkspaceAccess : option WorkspaceAccess;
  sk_KeyHash : string;
  sk_KeyPrefix : string;
  sk_CreatedAt : Time;
  sk_UpdatedAt : Time;
  sk_CreatedBy : string;
  sk_LastUsedAt : option Time;
}.

Definition APIKey_ToStorage (k : APIKey) : APIKeyForStorage :=
  mkAPIKeyForStorage (ak_ID k) (ak_Name k) (ak_Description k) (ak_Role k)
    (CloneWorkspaceAccess (ak_WorkspaceAccess k)) (ak_KeyHash k) (ak_KeyPrefix k)
    (ak_CreatedAt k) (ak_UpdatedAt k) (ak_CreatedBy k) (ak_LastUsedAt k).

Definition ToAPIKey (s : APIKeyForStorage) : APIKey :=
  mkAPIKey (sk_ID s) (sk_Name s) (sk_Description s) (sk_Role s)
    (CloneWorkspaceAccess (sk_WorkspaceAccess s)) (sk_KeyHash s) (sk_KeyPrefix s)
    (sk_CreatedAt s) (sk_UpdatedAt s) (sk_CreatedBy s) (sk_LastUsedAt s).

(** ** Webhooks (webhook.go) *)
Abbreviation WebhookAuthMode := string (only parsing).
Abbreviation WebhookHMACEnforcementMode := string (only parsing).

Definition WebhookAuthModeTokenOnly : WebhookAuthMode := "token_only".
Definition WebhookAuthModeTokenAndHMAC : WebhookAuthMode := "token_and_hmac".
Definition WebhookAuthModeHMACOnly : WebhookAuthMode := "hmac_only".
Definition WebhookHMACEnforcementModeStrict : WebhookHMACEnforcementMode := "strict".
Definition WebhookHMACEnforcementModeObserve : WebhookHMACEnforcementMode := "observe".

Definition OrDefault (m : WebhookAuthMode) : WebhookAuthMode :=
  if String.eqb m "" then WebhookAuthModeTokenOnly else m.

Record Webhook := mkWebhook {
  wh_ID : string;
  wh_DAGName : string;
  wh_TokenHash : string;
  wh_TokenPrefix : string;
  wh_Enabled : bool;
  wh_CreatedAt : Time;
  wh_UpdatedAt : Time;
  wh_CreatedBy : string;
  wh_LastUsedAt : option Time;
  wh_AuthMode : WebhookAuthMode;
  wh_HMACEnforcementMode : WebhookHMACEnforcementMode;
  wh_HMACSecret : string;
  wh_HMACSecretGeneratedAt : option Time;
}.

Definition NewWebhook (id : string) (now : Time) (dagName tokenHash tokenPrefix createdBy : string) : AuthErr + Webhook :=
  if String.eqb dagName "" then inl ErrInvalidWebhookDAGName
  else if String.eqb tokenHash "" then inl ErrInvalidWebhookTokenHash
  else inr (mkWebhook id dagName tokenHash tokenPrefix true now now createdBy None WebhookAuthModeTokenOnly "" "" None).

Record WebhookForStorage := mkWebhookForStorage {
  sw_ID : string;
  sw_DAGName : string;
  sw_TokenHash : string;
  sw_TokenPrefix : string;
  sw_Enabled : bool;
  sw_CreatedAt : Time;
  sw_UpdatedAt : Time;
  sw_CreatedBy : string;
  sw_LastUsedAt : option Time;
  sw_AuthMode : WebhookAuthMode;
  sw_HMACEnforcementMode : WebhookHMACEnforcementMode;
  sw_HMACSecretEnc : string;
  sw_HMACSecretGeneratedAt : option Time;
}.

(** The secret is not copied: the store encrypts it. *)
Definition Webhook_ToStorage (w : Webhook) : WebhookForStorage :=
  mkWebhookForStorage (wh_ID w) (wh_DAGName w) (wh_TokenHash w) (wh_TokenPrefix w) (wh_Enabled w)
    (wh_CreatedAt w) (wh_UpdatedAt w) (wh_CreatedBy w) (wh_LastUsedAt w) (wh_AuthMode w)
    (wh_HMACEnforcementMode w) "" (wh_HMACSecretGeneratedAt w).

Definition ToWebhook (s : WebhookForStorage) : Webhook :=
  mkWebhook (sw_ID s) (sw_DAGName s) (sw_TokenHash s) (sw_TokenPrefix s) (sw_Enabled s)
    (sw_CreatedAt s) (sw_UpdatedAt s) (sw_CreatedBy s) (sw_LastUsedAt s) (sw_AuthMode s)
    (sw_HMACEnforcementMode s) "" (sw_HMACSecretGeneratedAt s).

Definition EffectiveAuthMode (w : Webhook) : WebhookAuthMode := OrDefault (wh_AuthMode w).
Definition HMACEnabled (w : Webhook) : bool := negb (String.eqb (EffectiveAuthMode w) WebhookAuthModeTokenOnly).

(** ** Token secrets (token_secret.go) *)
Record TokenSecret := mkTokenSecret { ts_key : string }.

Definition NewTokenSecret (key : string) : AuthErr + TokenSecret :=
  if String.eqb key "" then inl ErrInvalidTokenSecret else inr (mkTokenSecret key).
Definition NewTokenSecretFromString (s : string) : AuthErr + TokenSecret :=
  if String.eqb s "" then inl ErrInvalidTokenSecret else NewTokenSecret s.
Definition SigningKey (ts : TokenSecret) : string := ts_key ts.
Definition TokenSecret_IsValid (ts : TokenSecret) : bool := negb (String.eqb (ts_key ts) "").

(** ** Base 58 (cmn/stringutil/hash.go) *)
Definition base58Alphabet : string := "123456789ABCDEFGHJKLMNPQRSTUVWXYZabcdefghijkmnopqrstuvwxyz".

Definition alphabet_at (d : Z) : ascii := default "1"%char (String.list_ascii_of_string base58Alphabet !! Z.to_nat d).

Definition byte_value (c : ascii) : Z := Z.of_nat (nat_of_ascii c).

(** [big.Int.SetBytes] *)
Definition SetBytes (input : list ascii) : Z := foldl (λ n c, n * 256 + byte_value c)%Z 0%Z input.

(** The digits of the number, the last one first; [fuel] bounds the divisions. *)
Fixpoint base58_digits (fuel : nat) (n : Z) : list ascii :=
  match fuel with
  | O => []
  | S fuel' => if (0 <? n)%Z then alphabet_at (n mod 58) :: base58_digits fuel' (n / 58) else []
  end.

Fixpoint leading_zeros (input : list ascii) : list ascii :=
  match input with
  | [] => []
  | b :: input' => if (byte_value b =? 0)%Z then alphabet_at 0 :: leading_zeros input' else []
  end.

(** Two divisions per byte are enough: 58 * 58 > 256. *)
Definition Base58Encode (input : string) : string :=
  if String.eqb input "" then ""
  else
    let bytes := String.list_ascii_of_string input in
    String.string_of_list_ascii (reverse (base58_digits (2 * length bytes) (SetBytes bytes) ++ leading_zeros bytes)).

(** ** Hexadecimal (encoding/hex) *)
Definition hex_value (c : ascii) : option Z :=
  let n := byte_value c in
  if (48 <=? n)%Z && (n <=? 57)%Z then Some (n - 48)%Z
  else if (97 <=? n)%Z && (n <=? 102)%Z then Some (n - 87)%Z
  else if (65 <=? n)%Z && (n <=? 70)%Z then Some (n - 55)%Z
  else None.

(** [hex.DecodeString]: an odd digit or another byte is an error. *)
Fixpoint hex_DecodeString (s : string) : option string :=
  match s with
  | EmptyString => Some EmptyString
  | String _ EmptyString => None
  | String a (String b s') =>
      match hex_value a, hex_value b, hex_DecodeString s' with
      | Some x, Some y, Some t => Some (String (ascii_of_nat (Z.to_nat (x * 16 + y))) t)
      | _, _, _ => None
      end
  end.

(** ** Base 64 (encoding/base64, [StdEncoding]) *)
Definition base64Alphabet : string := "ABCDEFGHIJKLMNOPQRSTUVWXYZabcdefghijklmnopqrstuvwxyz0123456789+/".

Definition base64_char (d : Z) : ascii := default "A"%char (String.list_ascii_of_string base64Alphabet !! Z.to_nat d).

Definition base64_value (c : ascii) : option Z :=
  (λ r, Z.of_nat r.1) <$> list_find (c =.) (String.list_ascii_of_string base64Alphabet).

(** Three bytes are four digits; the last group is padded. *)
Fixpoint base64_encode (l : list ascii) : list ascii :=
  match l with
  | [] => []
  | [a] =>
      let x := byte_value a in
      [base64_char (x / 4); base64_char (x mod 4 * 16); "="%char; "="%char]
  | [a; b] =>
      let x := byte_value a in let y := byte_value b in
      [base64_char (x / 4); base64_char (x mod 4 * 16 + y / 16); base64_char (y mod 16 * 4); "="%char]
  | a :: b :: c :: l' =>
      let x := byte_value a in let y := byte_value b in let z := byte_value c in
      base64_char (x / 4) :: base64_char (x mod 4 * 16 + y / 16) :: base64_char (y mod 16 * 4 + z / 64) ::
      base64_char (z mod 64) :: base64_encode l'
  end.

Definition byte_of (n : Z) : ascii := ascii_of_nat (Z.to_nat (n mod 256)).

(** A group is complete; padding is only at the end, and the bits it leaves over are
    not looked at. *)
Fixpoint base64_groups (l : list ascii) : option (list ascii) :=
  match l with
  | [] => Some []
  | a :: b :: c :: d :: l' =>
      x ← base64_value a; y ← base64_value b;
      let first := byte_of (x * 4 + y / 16) in
      if Ascii.eqb c "=" && Ascii.eqb d "=" then (if l' is [] then Some [first] else None)
      else
        z ← base64_value c;
        let second := byte_of (y mod 16 * 16 + z / 4) in
        if Ascii.eqb d "=" then (if l' is [] then Some [first; second] else None)
        else
          t ← base64_value d;
          rest ← base64_groups l';
          Some (first :: second :: byte_of (z mod 4 * 64 + t) :: rest)
  | _ => None
  end.

Definition is_newline (c : ascii) : bool := (byte_value c =? 10)%Z || (byte_value c =? 13)%Z.

Definition EncodeToString (s : string) : string :=
  String.string_of_list_ascii (base64_encode (String.list_ascii_of_string s)).

(** Line ends are skipped wherever they are. *)
Definition DecodeString (s : string) : option string :=
  String.string_of_list_ascii <$> base64_groups (List.filter (λ c, negb (is_newline c)) (String.list_ascii_of_string s)).

(** ** Encryption of secrets (cmn/crypto/aes.go) *)

(** crypto/sha256, crypto/rand at a call, and AES-256-GCM of a key: nonce and text. *)
Class Gcm := {
  Sum256 : string → string;
  rand_Reader : nat → nat → option string;
  gcm_Seal : string → string → string → string;
  gcm_Open : string → string → string → option string;
}.

(** The standard size of [cipher.NewGCM]. *)
Definition NonceSize : nat := 12.

Record Encryptor := mkEncryptor { en_key : string }.

(** [None] for an empty key; a key of 32 bytes is always a cipher. *)
Definition NewEncryptor `{Gcm} (key : string) : option Encryptor :=
  if String.eqb key "" then None else Some (mkEncryptor (Sum256 key)).

Section Encryption.
Context `{Gcm} (e : Encryptor).

(** The nonce is in front of the encrypted text. *)
Definition Encrypt (n : nat) (plaintext : string) : option string :=
  if String.eqb plaintext "" then Some ""
  else
    nonce ← rand_Reader n NonceSize;
    Some (EncodeToString (nonce ++ gcm_Seal (en_key e) nonce plaintext)).

Definition Decrypt (encoded : string) : option string :=
  if String.eqb encoded "" then Some ""
  else
    data ← DecodeString encoded;
    if (String.length data <? NonceSize)%nat then None
    else gcm_Open (en_key e) (Take NonceSize data) (String.substring NonceSize (String.length data - NonceSize) data).
End Encryption.

(** ** Identities of OIDC users (persis/fileuser/store.go) *)
Definition upper_hex (d : Z) : ascii := ascii_of_nat (Z.to_nat (if (d <? 10)%Z then 48 + d else 55 + d)%Z).

(** [url.QueryEscape] of a byte *)
Definition escape_byte (c : ascii) : string :=
  let n := byte_value c in
  if (48 <=? n)%Z && (n <=? 57)%Z || (65 <=? n)%Z && (n <=? 90)%Z || (97 <=? n)%Z && (n <=? 122)%Z
     || (n =? 45)%Z || (n =? 95)%Z || (n =? 46)%Z || (n =? 126)%Z
  then String c EmptyString
  else if (n =? 32)%Z then "+"
  else String "%" (String (upper_hex (n / 16)) (String (upper_hex (n mod 16)) EmptyString)).

Fixpoint QueryEscape (s : string) : string :=
  match s with
  | EmptyString => EmptyString
  | String c s' => escape_byte c ++ QueryEscape s'
  end.

Definition oidcIdentityKey (issuer subject : string) : string :=
  QueryEscape issuer ++ ":" ++ QueryEscape subject.

(** ** Laws of base 58 *)
Definition alphabet_index (c : ascii) : Z :=
  match list_find (c =.) (String.list_ascii_of_string base58Alphabet) with Some (i, _) => Z.of_nat i | None => 0%Z end.

Lemma alphabet_index_at d : (0 <= d < 58)%Z → alphabet_index (alphabet_at d) = d.
Proof.
  intros Hd. rewrite <-(Z2Nat.id d) at 2 by lia. assert (Z.to_nat d < 58)%nat as Hlt by lia. revert Hlt. unfold alphabet_at.
  generalize (Z.to_nat d). clear d Hd. intros n Hn.
  assert (Forall (λ n, alphabet_index (default "1"%char (String.list_ascii_of_string base58Alphabet !! n)) = Z.of_nat n) (seq 0 58)) as HF
    by (repeat constructor).
  rewrite Forall_forall in HF. apply HF, elem_of_seq. lia.
Qed.

Lemma alphabet_at_inj d e : (0 <= d < 58)%Z → (0 <= e < 58)%Z → alphabet_at d = alphabet_at e → d = e.
Proof. intros Hd He Heq. by rewrite <-(alphabet_index_at d), <-(alphabet_index_at e), Heq. Qed.

(** The number its digits stand for. *)
Lemma base58_digits_value fuel n :
  (0 <= n < 58 ^ Z.of_nat fuel)%Z →
  foldr (λ c acc, alphabet_index c + 58 * acc)%Z 0%Z (base58_digits fuel n) = n.
Proof.
  revert n. induction fuel as [|fuel IH]; intros n Hn; [simpl in *; lia|].
  rewrite Nat2Z.inj_succ, Z.pow_succ_r in Hn by lia. cbn [base58_digits]. destruct (0 <? n)%Z eqn:E; breflect; [|simpl; lia].
  cbn [foldr]. rewrite IH, alphabet_index_at by (try apply Z.mod_pos_bound; try split; try apply Z.div_pos; try apply Z.div_lt_upper_bound; lia).
  pose proof (Z.div_mod n 58). lia.
Qed.

(** The most significant digit is not a zero. *)
Lemma base58_digits_last fuel n : (0 <= n < 58 ^ Z.of_nat fuel)%Z → last (base58_digits fuel n) ≠ Some (alphabet_at 0).
Proof.
  revert n. induction fuel as [|fuel IH]; intros n Hn; [done|].
  rewrite Nat2Z.inj_succ, Z.pow_succ_r in Hn by lia. cbn [base58_digits]. destruct (0 <? n)%Z eqn:E; breflect; [|done].
  assert (0 <= n / 58 < 58 ^ Z.of_nat fuel)%Z as Hq by (split; [apply Z.div_pos|apply Z.div_lt_upper_bound]; lia).
  specialize (IH _ Hq). destruct (base58_digits fuel (n / 58)) as [|c l] eqn:El; [|by rewrite last_cons_cons].
  simpl. intros [= Heq]. apply alphabet_at_inj in Heq; [|apply Z.mod_pos_bound; lia|lia].
  pose proof (base58_digits_value fuel (n / 58) Hq) as Hv. rewrite El in Hv. simpl in Hv. pose proof (Z.div_mod n 58). lia.
Qed.

Lemma leading_zeros_replicate input : leading_zeros input = replicate (length (leading_zeros input)) (alphabet_at 0).
Proof. induction input as [|b input IH]; simpl; [done|]. destruct (_ =? 0)%Z; simpl; [|done]. by f_equal. Qed.

Lemma app_replicate_inj {A} (x : A) l1 l2 n m :
  last l1 ≠ Some x → last l2 ≠ Some x → l1 ++ replicate n x = l2 ++ replicate m x → l1 = l2 ∧ n = m.
Proof.
  revert m. induction n as [|n IH]; intros [|m] H1 H2 Heq; rewrite ?replicate_S_end, ?app_assoc in Heq; simpl in Heq.
  - by rewrite !app_nil_r in Heq.
  - rewrite app_nil_r in Heq. subst l1. by rewrite last_snoc in H1.
  - rewrite app_nil_r in Heq. subst l2. by rewrite last_snoc in H2.
  - apply app_inj_tail in Heq as [Heq _]. destruct (IH m H1 H2 Heq). auto.
Qed.

Lemma byte_value_range c : (0 <= byte_value c < 256)%Z.
Proof. unfold byte_value. pose proof (nat_ascii_bounded c). lia. Qed.
Lemma byte_value_inj c d : byte_value c = byte_value d → c = d.
Proof. unfold byte_value. intros H%Nat2Z.inj. by rewrite <-(ascii_nat_embedding c), H, ascii_nat_embedding. Qed.

Lemma SetBytes_snoc l c : SetBytes (l ++ [c]) = (SetBytes l * 256 + byte_value c)%Z.
Proof. unfold SetBytes. by rewrite foldl_app. Qed.

Lemma SetBytes_bound l : (0 <= SetBytes l < 256 ^ Z.of_nat (length l))%Z.
Proof.
  induction l as [|c l IH] using rev_ind; [done|]. rewrite SetBytes_snoc, length_app, Nat2Z.inj_add. simpl Z.of_nat.
  rewrite Z.pow_add_r by lia. pose proof (byte_value_range c). lia.
Qed.

(** A number determines its bytes up to zeros in front. *)
Lemma SetBytes_inj l1 l2 : length l1 = length l2 → SetBytes l1 = SetBytes l2 → l1 = l2.
Proof.
  revert l2. induction l1 as [|c l1 IH] using rev_ind; intros l2 Hlen Heq; [by destruct l2|].
  rewrite length_app in Hlen. simpl in Hlen. destruct l2 as [|d l2 _] using rev_ind; [simpl in Hlen; lia|].
  rewrite length_app in Hlen. simpl in Hlen. rewrite !SetBytes_snoc in Heq.
  pose proof (byte_value_range c). pose proof (byte_value_range d).
  assert (SetBytes l1 = SetBytes l2 ∧ byte_value c = byte_value d) as [H1 H2] by lia.
  f_equal; [apply IH; [lia|done]|]. f_equal. by apply byte_value_inj.
Qed.

Definition zero_byte : ascii := ascii_of_nat 0.

Lemma SetBytes_zero_cons l : SetBytes (zero_byte :: l) = SetBytes l.
Proof. done. Qed.

Lemma leading_zeros_split l :
  ∃ l', l = replicate (length (leading_zeros l)) zero_byte ++ l' ∧ SetBytes l' = SetBytes l ∧
        match l' with [] => True | b :: _ => byte_value b ≠ 0%Z end.
Proof.
  induction l as [|b l (l' & Hl & Hv & Hh)]; [by exists []|]. simpl. destruct (byte_value b =? 0)%Z eqn:E; breflect.
  - exists l'. assert (b = zero_byte) as -> by (by apply byte_value_inj). simpl. rewrite <-Hl. by rewrite SetBytes_zero_cons.
  - by exists (b :: l).
Qed.

Lemma SetBytes_cons c l : SetBytes (c :: l) = (byte_value c * 256 ^ Z.of_nat (length l) + SetBytes l)%Z.
Proof.
  induction l as [|d l IH] using rev_ind; [unfold SetBytes; simpl; lia|].
  rewrite app_comm_cons, !SetBytes_snoc, IH, length_app, Nat2Z.inj_add. simpl Z.of_nat. rewrite Z.pow_add_r by lia. lia.
Qed.

Lemma SetBytes_length l1 l2 :
  match l1 with [] => True | b :: _ => byte_value b ≠ 0%Z end → SetBytes l1 = SetBytes l2 → (length l1 <= length l2)%nat.
Proof.
  intros Hh Heq. destruct (decide (length l1 <= length l2)%nat) as [|Hn]; [done|exfalso]. destruct l1 as [|b l1]; [simpl in Hn; lia|].
  rewrite SetBytes_cons in Heq. pose proof (byte_value_range b). pose proof (SetBytes_bound l1). pose proof (SetBytes_bound l2).
  simpl in Hn. assert (256 ^ Z.of_nat (length l2) <= 256 ^ Z.of_nat (length l1))%Z by (apply Z.pow_le_mono_r; lia). nia.
Qed.

Lemma enough_digits l : (0 <= SetBytes l < 58 ^ Z.of_nat (2 * length l))%Z.
Proof.
  pose proof (SetBytes_bound l) as [H0 H1]. split; [done|]. rewrite Nat2Z.inj_mul, Z.pow_mul_r by lia.
  eapply Z.lt_le_trans; [exact H1|]. apply Z.pow_le_mono_l. lia.
Qed.

Lemma list_ascii_inj s t : String.list_ascii_of_string s = String.list_ascii_of_string t → s = t.
Proof. intros H. by rewrite <-(String.string_of_list_ascii_of_string s), H, String.string_of_list_ascii_of_string. Qed.

(** The encoding of the bytes, before it is turned around. *)
Definition base58_bytes (l : list ascii) : list ascii := base58_digits (2 * length l) (SetBytes l) ++ leading_zeros l.

Lemma Base58Encode_bytes s :
  String.list_ascii_of_string (Base58Encode s) = reverse (base58_bytes (String.list_ascii_of_string s)).
Proof. unfold Base58Encode. destruct s as [|c s]; [done|]. cbn [String.eqb]. apply String.list_ascii_of_string_of_list_ascii. Qed.

Lemma base58_bytes_value l1 l2 :
  base58_bytes l1 = base58_bytes l2 → SetBytes l1 = SetBytes l2 ∧ length (leading_zeros l1) = length (leading_zeros l2).
Proof.
  unfold base58_bytes. intros Heq. rewrite (leading_zeros_replicate l1), (leading_zeros_replicate l2) in Heq.
  apply app_replicate_inj in Heq as [Hd Hz]; [|apply base58_digits_last, enough_digits..]. split; [|done].
  apply (f_equal (foldr (λ c acc, alphabet_index c + 58 * acc)%Z 0%Z)) in Hd.
  by rewrite !base58_digits_value in Hd by apply enough_digits.
Qed.

Lemma bytes_inj l1 l2 : SetBytes l1 = SetBytes l2 → length (leading_zeros l1) = length (leading_zeros l2) → l1 = l2.
Proof.
  intros Hv Hz. destruct (leading_zeros_split l1) as (r1 & H1 & Hv1 & Hh1), (leading_zeros_split l2) as (r2 & H2 & Hv2 & Hh2).
  rewrite H1, H2, Hz. f_equal. apply SetBytes_inj; [|congruence].
  apply Nat.le_antisymm; apply SetBytes_length; (done || congruence).
Qed.

Lemma Base58Encode_inj s t : Base58Encode s = Base58Encode t → s = t.
Proof.
  intros Heq. apply list_ascii_inj. apply (f_equal String.list_ascii_of_string) in Heq. rewrite !Base58Encode_bytes in Heq.
  apply (inj reverse), base58_bytes_value in Heq as [Hv Hz]. by apply bytes_inj.
Qed.

(** Base 58 loses nothing: two different byte strings, zeros in front included,
    have different encodings, so a token is as random as the bytes it was made of. *)
Theorem Base58Encode_injective s t : Base58Encode s = Base58Encode t ↔ s = t.
Proof.
  split; [apply Base58Encode_inj|by intros ->].
Qed.

(** ** Laws of base 64 and encryption *)
Lemma base64_char_spec d :
  (0 <= d < 64)%Z →
  base64_value (base64_char d) = Some d ∧ Ascii.eqb (base64_char d) "=" = false ∧ is_newline (base64_char d) = false.
Proof.
  intros Hd. assert (Z.to_nat d < 64)%nat as Hlt by lia. rewrite <-(Z2Nat.id d) by lia. revert Hlt. generalize (Z.to_nat d). clear d Hd.
  intros n Hn.
  assert (Forall (λ n, base64_value (base64_char (Z.of_nat n)) = Some (Z.of_nat n) ∧ Ascii.eqb (base64_char (Z.of_nat n)) "=" = false ∧
    is_newline (base64_char (Z.of_nat n)) = false) (seq 0 64)) as HF by (repeat constructor).
  rewrite Forall_forall in HF. apply HF, elem_of_seq. lia.
Qed.

Lemma byte_of_value c n : n = byte_value c → byte_of n = c.
Proof.
  intros ->. unfold byte_of, byte_value. pose proof (nat_ascii_bounded c). rewrite Z.mod_small, Nat2Z.id by lia. apply ascii_nat_embedding.
Qed.

(** Digits of a group are digits again, and neither padding nor line ends. *)
Ltac base64_digits :=
  repeat match goal with
  | |- context [base64_value (base64_char ?d)] => rewrite (proj1 (base64_char_spec d ltac:(Z.div_mod_to_equations; lia)))
  | |- context [Ascii.eqb (base64_char ?d) "="] => rewrite (proj1 (proj2 (base64_char_spec d ltac:(Z.div_mod_to_equations; lia))))
  | |- context [is_newline (base64_char ?d)] => rewrite (proj2 (proj2 (base64_char_spec d ltac:(Z.div_mod_to_equations; lia))))
  end.

Lemma base64_encode_newlines l : List.filter (λ c, negb (is_newline c)) (base64_encode l) = base64_encode l.
Proof.
  revert l. fix IH 1. intros [|a [|b [|c l]]]; [done|..]; pose proof (byte_value_range a); try pose proof (byte_value_range b);
    try pose proof (byte_value_range c); cbn [base64_encode List.filter]; base64_digits; cbn [negb List.filter]; try done.
  by rewrite IH.
Qed.

Lemma base64_groups_encode l : base64_groups (base64_encode l) = Some l.
Proof.
  revert l. fix IH 1. intros [|a [|b [|c l]]]; [done|..]; pose proof (byte_value_range a); try pose proof (byte_value_range b);
    try pose proof (byte_value_range c); cbn [base64_encode base64_groups]; base64_digits; cbn; base64_digits; cbn -[Z.div Z.modulo Z.mul];
    try rewrite IH; simpl; repeat f_equal; apply byte_of_value; Z.div_mod_to_equations; lia.
Qed.

Lemma DecodeString_Encode s : DecodeString (EncodeToString s) = Some s.
Proof.
  unfold DecodeString, EncodeToString. rewrite String.list_ascii_of_string_of_list_ascii, base64_encode_newlines, base64_groups_encode.
  simpl. by rewrite String.string_of_list_ascii_of_string.
Qed.

Lemma EncodeToString_empty s : EncodeToString s = "" → s = "".
Proof. intros Hs. pose proof (DecodeString_Encode s) as Hd. rewrite Hs in Hd. by injection Hd as <-. Qed.

(** What the Go library promises: a nonce is read in full, and what was sealed opens. *)
Class GcmOk `{Gcm} := {
  rand_Reader_full n k s : rand_Reader n k = Some s → String.length s = k;
  gcm_Open_Seal key nonce s : String.length nonce = NonceSize → gcm_Open key nonce (gcm_Seal key nonce s) = Some s;
}.

Section EncryptionLaws.
Context `{GcmOk} (e : Encryptor).

Lemma Encrypt_nonempty n s c : Encrypt e n s = Some c → s ≠ "" → c ≠ "".
Proof.
  unfold Encrypt. intros Hc Hs. rewrite (proj2 (String.eqb_neq s "") Hs) in Hc.
  destruct (rand_Reader n NonceSize) as [nonce|] eqn:En; [|done]. injection Hc as <-. intros Hnil%EncodeToString_empty.
  apply rand_Reader_full in En. destruct nonce; done.
Qed.

Lemma Decrypt_Encrypt n s c : Encrypt e n s = Some c → Decrypt e c = Some s.
Proof.
  intros Hc. unfold Decrypt. destruct (String.eqb_spec c "") as [->|Hne].
  - destruct (String.eqb_spec s "") as [->|Hs]; [done|]. by destruct (Encrypt_nonempty n s "" Hc Hs).
  - unfold Encrypt in Hc. destruct (String.eqb_spec s "") as [->|Hs]; [by injection Hc as <-|].
    destruct (rand_Reader n NonceSize) as [nonce|] eqn:En; [|done]. injection Hc as <-. rewrite DecodeString_Encode. simpl.
    apply rand_Reader_full in En. unfold Take. rewrite length_app_string, En, substring_prefix by done.
    rewrite (substring_skip nonce _ 0) by (rewrite En; lia). rewrite substring_all by lia.
    by rewrite gcm_Open_Seal.
Qed.
End EncryptionLaws.

(** ** Laws of escaped identities *)
Definition unescape_byte (s : string) : option (ascii * string) :=
  match s with
  | EmptyString => None
  | String c s' =>
      if Ascii.eqb c "+" then Some (" "%char, s')
      else if Ascii.eqb c "%" then
        match s' with
        | String a (String b t) =>
            match hex_value a, hex_value b with
            | Some x, Some y => Some (ascii_of_nat (Z.to_nat (x * 16 + y)), t)
            | _, _ => None
            end
        | _ => None
        end
      else Some (c, s')
  end.

Lemma unescape_escape c s : unescape_byte (escape_byte c ++ s) = Some (c, s).
Proof. destruct c as [[] [] [] [] [] [] [] []]; reflexivity. Qed.

Lemma escape_no_colon c : contains_char ":" (escape_byte c) = false.
Proof. destruct c as [[] [] [] [] [] [] [] []]; reflexivity. Qed.

Lemma QueryEscape_inj s t : QueryEscape s = QueryEscape t → s = t.
Proof.
  revert t. induction s as [|c s IH]; intros [|d t] Heq; [done| | |]; apply (f_equal unescape_byte) in Heq; simpl in Heq;
    rewrite ?unescape_escape in Heq; try done.
  injection Heq as -> Heq. f_equal. by apply IH.
Qed.

Lemma QueryEscape_no_colon s : contains_char ":" (QueryEscape s) = false.
Proof. induction s as [|c s IH]; [done|]. simpl. by rewrite contains_char_app, escape_no_colon. Qed.

Lemma oidcIdentityKey_inj i1 s1 i2 s2 : oidcIdentityKey i1 s1 = oidcIdentityKey i2 s2 → i1 = i2 ∧ s1 = s2.
Proof.
  intros Heq. apply (f_equal (Cut ":")) in Heq.
  assert (∀ i s, Cut ":" (oidcIdentityKey i s) = (QueryEscape i, QueryEscape s, true)) as Hc
    by (intros; apply Cut_app, QueryEscape_no_colon).
  rewrite !Hc in Heq. injection Heq as H1 H2. split; by apply QueryEscape_inj.
Qed.

(** ** Laws of workspace access *)

(** What a validated access is: everything, or named workspaces without an administrator. *)
Definition grant_ok (workspaceExists : option (string → bool)) (g : WorkspaceGrant) : Prop :=
  TrimSpace (wg_Workspace g) ≠ "" ∧ Role_Valid (wg_Role g) = true ∧ wg_Role g ≠ RoleAdmin ∧
  match workspaceExists with Some f => f (TrimSpace (wg_Workspace g)) = true | None => True end.

Definition access_ok (globalRole : Role) (access : option WorkspaceAccess) (workspaceExists : option (string → bool)) : Prop :=
  Role_Valid globalRole = true ∧
  match access with
  | None => True
  | Some a =>
      if wa_All a then wa_Grants a = []
      else globalRole = RoleViewer ∧ wa_Grants a ≠ [] ∧ Forall (grant_ok workspaceExists) (wa_Grants a) ∧
           NoDup ((λ g, TrimSpace (wg_Workspace g)) <$> wa_Grants a)
  end.

Lemma trim_right_left s : trim_left s = s → trim_left (trim_right s) = trim_right s.
Proof.
  destruct s as [|c s]; [done|]. cbn [trim_left]. destruct (is_space c) eqn:E; intros Heq.
  - exfalso. assert (∀ t, String.length (trim_left t) <= String.length t)%nat as Hl
      by (induction t as [|d t IH]; simpl; [lia|]; destruct (is_space d); simpl; lia).
    specialize (Hl s). rewrite Heq in Hl. simpl in Hl. lia.
  - cbn [trim_right]. destruct (trim_right s); [rewrite E|]; simpl; by rewrite E.
Qed.

Lemma trim_left_idem s : trim_left (trim_left s) = trim_left s.
Proof. induction s as [|c s IH]; [done|]. simpl. destruct (is_space c) eqn:E; [done|]. simpl. by rewrite E. Qed.

Lemma trim_right_idem s : trim_right (trim_right s) = trim_right s.
Proof.
  induction s as [|c s IH]; [done|]. cbn [trim_right]. destruct (trim_right s) as [|d t] eqn:E.
  - destruct (is_space c) eqn:Ec; [done|]. simpl. by rewrite Ec.
  - cbn [trim_right] in *. by rewrite IH.
Qed.

Lemma TrimSpace_idem s : TrimSpace (TrimSpace s) = TrimSpace s.
Proof.
  unfold TrimSpace. rewrite trim_right_left by apply trim_left_idem. apply trim_right_idem.
Qed.

Lemma validate_grants_spec ex seen grants :
  validate_grants ex seen grants = None ↔
    Forall (grant_ok ex) grants ∧ NoDup ((λ g, TrimSpace (wg_Workspace g)) <$> grants) ∧
    ∀ g, g ∈ grants → TrimSpace (wg_Workspace g) ∉ seen.
Proof.
  revert seen. induction grants as [|g grants IH]; intros seen.
  { simpl. split; [|done]. intros _. split_and!; [constructor|apply NoDup_nil_2|]. by intros g Hg%elem_of_nil. }
  cbn [validate_grants fmap list_fmap]. rewrite Forall_cons, NoDup_cons. unfold grant_ok at 1.
  destruct (String.eqb_spec (TrimSpace (wg_Workspace g)) ""); [naive_solver|].
  case_bool_decide as Hs; [split; [done|]; intros (_ & _ & Hn); exfalso; eapply Hn; [left|]; done|].
  destruct (Role_Valid (wg_Role g)); simpl; [|naive_solver].
  destruct (String.eqb_spec (wg_Role g) RoleAdmin); [naive_solver|].
  assert (∀ P, (P ↔ Forall (grant_ok ex) grants ∧ NoDup ((λ g, TrimSpace (wg_Workspace g)) <$> grants) ∧
     ∀ g', g' ∈ grants → TrimSpace (wg_Workspace g') ∉ TrimSpace (wg_Workspace g) :: seen) →
   (P ↔ Forall (grant_ok ex) grants ∧ (TrimSpace (wg_Workspace g) ∉ ((λ g, TrimSpace (wg_Workspace g)) <$> grants) ∧
     NoDup ((λ g, TrimSpace (wg_Workspace g)) <$> grants)) ∧ ∀ g', g' ∈ g :: grants → TrimSpace (wg_Workspace g') ∉ seen)) as Hgen.
  { intros P ->. setoid_rewrite elem_of_cons. setoid_rewrite list_elem_of_fmap. naive_solver. }
  destruct ex as [f|]; [destruct (f (TrimSpace (wg_Workspace g))) eqn:Ef; simpl|].
  - rewrite (Hgen _ (IH (TrimSpace (wg_Workspace g) :: seen))). naive_solver.
  - split; [done|]. naive_solver.
  - rewrite (Hgen _ (IH (TrimSpace (wg_Workspace g) :: seen))). naive_solver.
Qed.

Lemma normalized_names (grants : list WorkspaceGrant) :
  (λ g, TrimSpace (wg_Workspace g)) <$> ((λ g, mkWorkspaceGrant (TrimSpace (wg_Workspace g)) (wg_Role g)) <$> grants) =
  (λ g, TrimSpace (wg_Workspace g)) <$> grants.
Proof. rewrite <-list_fmap_compose. apply list_fmap_ext. intros i g _. apply TrimSpace_idem. Qed.

Lemma normalized_grants_ok ex (grants : list WorkspaceGrant) :
  Forall (grant_ok ex) ((λ g, mkWorkspaceGrant (TrimSpace (wg_Workspace g)) (wg_Role g)) <$> grants) ↔ Forall (grant_ok ex) grants.
Proof. rewrite Forall_fmap. apply Forall_iff. intros g. unfold grant_ok. simpl. by rewrite TrimSpace_idem. Qed.

Lemma ValidateWorkspaceAccess_spec r a ex : ValidateWorkspaceAccess r a ex = None ↔ access_ok r a ex.
Proof.
  unfold ValidateWorkspaceAccess, access_ok. destruct (Role_Valid r); simpl; [|naive_solver].
  destruct a as [a|]; simpl; [|done]. destruct (wa_All a) eqn:Ea; simpl.
  - case_bool_decide; simpl; naive_solver.
  - destruct (String.eqb_spec r RoleViewer); simpl; [|naive_solver].
    case_bool_decide as Hn; [apply fmap_nil_inv in Hn; naive_solver|].
    rewrite validate_grants_spec, normalized_grants_ok, normalized_names.
    assert (wa_Grants a ≠ []) by (intros E; by rewrite E in Hn). split; [naive_solver|]. intros (_ & _ & _ & H1 & H2).
    split_and!; [done..|]. by intros g _ ?%elem_of_nil.
Qed.

Lemma CloneWorkspaceAccess_eq a : CloneWorkspaceAccess a = Some (NormalizeWorkspaceAccess a).
Proof. unfold CloneWorkspaceAccess. by destruct (NormalizeWorkspaceAccess a). Qed.

Lemma Normalize_idem a : NormalizeWorkspaceAccess (Some (NormalizeWorkspaceAccess a)) = NormalizeWorkspaceAccess a.
Proof.
  destruct a as [a|]; [|done]. simpl. destruct (wa_All a) eqn:E; simpl; [done|]. f_equal.
  rewrite <-list_fmap_compose. apply list_fmap_ext. intros i g _. simpl. by rewrite TrimSpace_idem.
Qed.

Lemma Clone_idem a : CloneWorkspaceAccess (CloneWorkspaceAccess a) = CloneWorkspaceAccess a.
Proof. by rewrite !CloneWorkspaceAccess_eq, Normalize_idem. Qed.

Lemma EffectiveRole_clone r a ws : EffectiveRole r (CloneWorkspaceAccess a) ws = EffectiveRole r a ws.
Proof. unfold EffectiveRole. by rewrite CloneWorkspaceAccess_eq, Normalize_idem. Qed.

Lemma access_ok_clone r a ex : access_ok r a ex → access_ok r (CloneWorkspaceAccess a) ex.
Proof.
  rewrite CloneWorkspaceAccess_eq. intros [Hr Ha]. split; [done|]. destruct a as [a|]; [|done]. simpl.
  destruct (wa_All a); [done|]. simpl. rewrite normalized_grants_ok, normalized_names.
  destruct Ha as (H1 & H2 & H3 & H4). split_and!; try done. by intros E%fmap_nil_inv.
Qed.

(** The grant of a workspace in a scoped access. *)
Lemma EffectiveRole_scoped r a ws :
  wa_All a = false → TrimSpace ws ≠ "" →
  match list_find (λ g, TrimSpace (wg_Workspace g) = TrimSpace ws) (wa_Grants a) with
  | Some (_, g) => EffectiveRole r (Some a) ws = (wg_Role g, true)
  | None => EffectiveRole r (Some a) ws = (RoleNone, false)
  end.
Proof.
  intros Ha Hw. unfold EffectiveRole. destruct (String.eqb_spec (TrimSpace ws) ""); [done|]. simpl. rewrite Ha. simpl.
  rewrite list_find_fmap. unfold compose. simpl.
  destruct (list_find _ (wa_Grants a)) as [[i g]|]; done.
Qed.

(** C28. An access is accepted exactly when it is everything, without grants, or, for a
    viewer only, a list of grants to distinct workspaces that exist, with valid roles
    other than administrator.  Such an access gives in a workspace exactly the role of
    its grant and hides every other workspace, gives nobody who is not an administrator
    the rights of one, and does the same in the form that is stored. *)
Theorem workspace_access_correct r a ex :
  (ValidateWorkspaceAccess r a ex = None ↔ access_ok r a ex) ∧
  (access_ok r a ex →
     access_ok r (CloneWorkspaceAccess a) ex ∧
     ∀ ws, EffectiveRole r (CloneWorkspaceAccess a) ws = EffectiveRole r a ws ∧
       (IsAdmin (EffectiveRole r a ws).1 = true → r = RoleAdmin) ∧
       (∀ acc, a = Some acc → wa_All acc = false → TrimSpace ws ≠ "" →
          (∀ g, g ∈ wa_Grants acc → TrimSpace (wg_Workspace g) = TrimSpace ws → EffectiveRole r a ws = (wg_Role g, true)) ∧
          ((∀ g, g ∈ wa_Grants acc → TrimSpace (wg_Workspace g) ≠ TrimSpace ws) → EffectiveRole r a ws = (RoleNone, false)))).
Proof.
  split; [apply ValidateWorkspaceAccess_spec|]. intros Hok. split; [by apply access_ok_clone|]. intros ws.
  split; [apply EffectiveRole_clone|]. split.
  - unfold IsAdmin. intros Hadm%String.eqb_eq. destruct Hok as [Hr Ha]. destruct a as [a|].
    2:{ unfold EffectiveRole in Hadm. by destruct (String.eqb _ _). }
    destruct (wa_All a) eqn:Ea; [unfold EffectiveRole in Hadm; simpl in Hadm; rewrite Ea in Hadm; by destruct (String.eqb _ _)|].
    destruct Ha as (-> & _ & HF & _). destruct (decide (TrimSpace ws = "")) as [E|E].
    { unfold EffectiveRole in Hadm. by rewrite E in Hadm. }
    pose proof (EffectiveRole_scoped RoleViewer a ws Ea E) as Hs. destruct (list_find _ _) as [[i g]|] eqn:Hf; rewrite Hs in Hadm; [|done].
    apply list_find_Some in Hf as (Hg & _). apply list_elem_of_lookup_2 in Hg. rewrite Forall_forall in HF.
    destruct (HF _ Hg) as (_ & _ & Hn & _). done.
  - intros acc -> Hall Hw. destruct Hok as [_ Hok]. rewrite Hall in Hok. destruct Hok as (_ & _ & _ & Hnd).
    pose proof (EffectiveRole_scoped r acc ws Hall Hw) as Hs. destruct (list_find _ _) as [[i g]|] eqn:Hf.
    + apply list_find_Some in Hf as (Hg & Hname & _). split; [|intros Hn; exfalso; eapply Hn; [by eapply list_elem_of_lookup_2|done]].
      intros g' (j & Hj)%list_elem_of_lookup Hname'. rewrite Hs. f_equal.
      assert (i = j) as ->; [|by simplify_eq].
      eapply NoDup_lookup; [exact Hnd|rewrite list_lookup_fmap, Hg; done|rewrite list_lookup_fmap, Hj; simpl; congruence].
    + split; [|done]. intros g Hg Hname. apply list_find_None in Hf. rewrite Forall_forall in Hf. by destruct (Hf g Hg).
Qed.
