(* ===== verification/AuthStore.v ===== *)
(** * The stores of users, API keys and webhooks (persis/fileuser, fileapikey,
    filewebhook, cmn/fileutil/cache.go)

    A store keeps an object in a JSON file of its own, named by the identifier of the
    object, and indexes in memory that map identifiers to files and names to
    identifiers.  Reading returns a pointer: with a cache, two reads return the same
    object while its file keeps its size and time, and whoever changes the object
    changes it for all.  Objects live in [st_heap] and a pointer is their position.

    The stores of keys and webhooks are the same code over different records: it is
    written once, over [StoreKind], and instantiated.  The store of users orders its
    steps in another way and has an index of OIDC identities.

    A file is modelled by the record it decodes to, or [None], its size and its time; a
    path is the name of the file in the directory of the store.  Every call to the
    operating system may fail.  The locks make each operation of a store one step. *)

From stdpp Require Import base strings list gmap.
From Stdlib Require Import ZArith Lia Ascii.
From S2P Require Import Prelude GoStrings QueueName FileSys AuthData.

Open Scope op_scope.

(** ** Files, objects and indexes *)
Record JSONFile (C : Type) := mkJSONFile { jf_data : option C; jf_size : Z; jf_mtime : Time }.
Arguments mkJSONFile {C} _ _ _.
Arguments jf_data {C} _.
Arguments jf_size {C} _.
Arguments jf_mtime {C} _.

(** [entry] of the cache *)
Record CachedObject := mkCachedObject { co_data : nat; co_size : Z; co_lastModified : Time }.

Record Store (C T : Type) := mkStore {
  st_files : gmap string (JSONFile C);
  st_heap : list T;
  st_cache : gmap string CachedObject;
  st_byID : gmap string string;          (* identifier to path *)
  st_byName : gmap string string;        (* name to identifier *)
  st_byOIDC : gmap string string;        (* OIDC identity to identifier, of users *)
}.
Arguments mkStore {C T} _ _ _ _ _ _.
Arguments st_files {C T} _.
Arguments st_heap {C T} _.
Arguments st_cache {C T} _.
Arguments st_byID {C T} _.
Arguments st_byName {C T} _.
Arguments st_byOIDC {C T} _.

(** What the stores do with their records: the stored form of an object at a call
    (encryption draws a nonce), its way back, the time of its last use, the errors of
    the store, and the errors that stop the scan of the directory. *)
Class StoreKind (C T : Type) := {
  k_ID : T → string;
  k_Name : T → string;
  k_save : nat → T → AuthErr + C;
  k_load : C → AuthErr + T;
  k_used : Time → T → T;
  k_ErrInvalidID : AuthErr;
  k_ErrInvalidName : AuthErr;
  k_ErrNotFound : AuthErr;
  k_ErrAlreadyExists : AuthErr;
  k_fatal : AuthErr → bool;
  k_size : C → Z;
}.

(** [UseCache]: the store was made with a cache; [Dropped]: the cache has dropped the
    entry that a call looks for; [RangeOrder]: the order in which [range] visits the
    keys of a map. *)
Class StoreEnv := {
  UseCache : bool;
  Dropped : nat → bool;
  RangeOrder : nat → list string → list string;
}.

Definition jsonExtension : string := ".json".

Section Stores.
Context {C T : Type} `{OS, StoreEnv, !StoreKind C T}.

Abbreviation SOp A := (Op (FS unit * Store C T) A).

Definition ssys : SOp unit := zoom fst (λ fs w, (fs, w.2)) syscall.
Definition snow : SOp Time := zoom fst (λ fs w, (fs, w.2)) now.
Definition scall : SOp nat := zoom fst (λ fs w, (fs, w.2)) (λ fs, (inr (fs_calls fs), tick fs)).
Definition sget {A} (f : Store C T → A) : SOp A := gets (λ w, f w.2).
Definition supd (f : Store C T → Store C T) : SOp unit := modify (λ w, (w.1, f w.2)).
Definition auth_fail {A} (e : AuthErr) : SOp A := fail (EAuth e).

Definition set_file (p : string) (f : JSONFile C) (s : Store C T) : Store C T :=
  {| s with st_files := <[p := f]> (st_files s) |}.
Definition set_index (byID byName byOIDC : gmap string string) (s : Store C T) : Store C T :=
  mkStore (st_files s) (st_heap s) (st_cache s) byID byName byOIDC.

Definition set_cache (m : gmap string CachedObject) (s : Store C T) : Store C T := {| s with st_cache := m |}.
Definition set_heap (h : list T) (s : Store C T) : Store C T := {| s with st_heap := h |}.

Definition salloc (t : T) : SOp nat := λ w,
  (inr (length (st_heap w.2)), (w.1, set_heap (st_heap w.2 ++ [t]) w.2)).

(** *** The cache (cache.go) *)
Definition Cache_Store (p : string) (l : nat) (fi : JSONFile C) : SOp unit :=
  supd (λ s, set_cache (<[p := mkCachedObject l (jf_size fi) (jf_mtime fi)]> (st_cache s)) s).

Definition Cache_Invalidate (p : string) : SOp unit :=
  if UseCache then supd (λ s, set_cache (delete p (st_cache s)) s) else ret tt.

(** [isStale]: the information on the file, and the object when it is not stale. *)
Definition Cache_isStale (p : string) : SOp (JSONFile C * option nat) :=
  ssys ;*
  let* f := sget (λ s, st_files s !! p) in
  match f with
  | None => fail ENotExist
  | Some fi =>
      let* n := scall in
      let* e := sget (λ s, if Dropped n then None else st_cache s !! p) in
      ret (fi, match e with
               | Some e => if (co_lastModified e <? jf_mtime fi)%Z || negb (co_size e =? jf_size fi)%Z
                           then None else Some (co_data e)
               | None => None
               end)
  end.

Definition Cache_LoadLatest (p : string) (loader : SOp T) : SOp nat :=
  let* r := Cache_isStale p in
  match r with
  | (_, Some l) => ret l
  | (fi, None) =>
      let* t := loader in
      let* l := salloc t in
      Cache_Store p l fi ;*
      ret l
  end.

(** *** Reading and writing a file *)
Definition loadFromFile (p : string) : SOp T :=
  ssys ;*
  let* f := sget (λ s, st_files s !! p) in
  match f with
  | None => fail ENotExist
  | Some f =>
      match jf_data f with
      | None => fail EUnmarshal
      | Some c => match k_load c with inl e => auth_fail e | inr t => ret t end
      end
  end.

(** A temporary file is created, written, given its mode, closed and renamed into
    place; what fails before leaves the file as it was. *)
Definition WriteJSONAtomic (p : string) (c : C) : SOp unit :=
  ssys ;* ssys ;* ssys ;* ssys ;* ssys ;*
  let* t := snow in
  supd (set_file p (mkJSONFile (Some c) (k_size c) t)).

Definition writeToFile (p : string) (t : T) : SOp unit :=
  let* n := scall in
  match k_save n t with
  | inl e => auth_fail e
  | inr c => WriteJSONAtomic p c
  end.

Definition filePath (id : string) : string := (id ++ jsonExtension)%string.

Definition Store_GetByID (id : string) : SOp nat :=
  if String.eqb id "" then auth_fail k_ErrInvalidID else
  let* p := sget (λ s, st_byID s !! id) in
  match p with
  | None => auth_fail k_ErrNotFound
  | Some p =>
      let* r := try (if UseCache then Cache_LoadLatest p (loadFromFile p)
                     else let* t := loadFromFile p in salloc t) in
      match r with
      | inr l => ret l
      | inl ENotExist => auth_fail k_ErrNotFound
      | inl e => fail e
      end
  end.

Definition Store_GetByName (name : string) : SOp nat :=
  if String.eqb name "" then auth_fail k_ErrInvalidName else
  let* i := sget (λ s, st_byName s !! name) in
  match i with
  | None => auth_fail k_ErrNotFound
  | Some id => Store_GetByID id
  end.

Definition map_keys {A} (m : gmap string A) : list string := (map_to_list m).*1.

Definition Store_List : SOp (list nat) :=
  let* n := scall in
  let* ids := sget (λ s, RangeOrder n (map_keys (st_byID s))) in
  each (λ acc id,
    let* r := try (Store_GetByID id) in
    match r with
    | inr l => ret (acc ++ [l])
    | inl e => if bool_decide (e = EAuth k_ErrNotFound) then ret acc else fail e
    end) [] ids.

(** *** Keys and webhooks *)
Definition Store_Create (t : T) : SOp unit :=
  if String.eqb (k_ID t) "" then auth_fail k_ErrInvalidID else
  if String.eqb (k_Name t) "" then auth_fail k_ErrInvalidName else
  let* taken := sget (λ s, st_byName s !! k_Name t) in
  if bool_decide (is_Some taken) then auth_fail k_ErrAlreadyExists else
  let* known := sget (λ s, st_byID s !! k_ID t) in
  if bool_decide (is_Some known) then auth_fail k_ErrAlreadyExists else
  let p := filePath (k_ID t) in
  writeToFile p t ;*
  supd (λ s, set_index (<[k_ID t := p]> (st_byID s)) (<[k_Name t := k_ID t]> (st_byName s)) (st_byOIDC s) s).

Definition Store_Update (t : T) : SOp unit :=
  if String.eqb (k_ID t) "" then auth_fail k_ErrInvalidID else
  if String.eqb (k_Name t) "" then auth_fail k_ErrInvalidName else
  let* p := sget (λ s, st_byID s !! k_ID t) in
  match p with
  | None => auth_fail k_ErrNotFound
  | Some p =>
      let* existing := loadFromFile p in
      let renamed := negb (String.eqb (k_Name existing) (k_Name t)) in
      let* taken := sget (λ s, st_byName s !! k_Name t) in
      if renamed && match taken with Some i => negb (String.eqb i (k_ID t)) | None => false end
      then auth_fail k_ErrAlreadyExists else
      writeToFile p t ;*
      Cache_Invalidate p ;*
      if renamed then
        supd (λ s, set_index (st_byID s) (<[k_Name t := k_ID t]> (delete (k_Name existing) (st_byName s))) (st_byOIDC s) s)
      else ret tt
  end.

(** [os.Remove]: a missing file is not an error for the store. *)
Definition remove_file (p : string) : SOp unit :=
  ssys ;* supd (λ s, {| s with st_files := delete p (st_files s) |}).

(** The first name, in the order of [range], that points to an identifier. *)
Definition name_of_id (id : string) (m : gmap string string) (l : list string) : option string :=
  snd <$> list_find (λ n, m !! n = Some id) l.

Definition Store_Delete (id : string) : SOp unit :=
  if String.eqb id "" then auth_fail k_ErrInvalidID else
  let* p := sget (λ s, st_byID s !! id) in
  match p with
  | None => auth_fail k_ErrNotFound
  | Some p =>
      let* r := try (loadFromFile p) in
      let* t := match r with
                | inr t => ret (Some t)
                | inl ENotExist => ret None
                | inl e => fail e
                end in
      remove_file p ;*
      Cache_Invalidate p ;*
      let* n := scall in
      supd (λ s, set_index (delete id (st_byID s))
        (match t with
         | Some t => delete (k_Name t) (st_byName s)
         | None =>
             match name_of_id id (st_byName s) (RangeOrder n (map_keys (st_byName s))) with
             | Some name => if String.eqb name "" then st_byName s else delete name (st_byName s)
             | None => st_byName s
             end
         end) (st_byOIDC s) s)
  end.

Definition Store_DeleteByName (name : string) : SOp unit :=
  if String.eqb name "" then auth_fail k_ErrInvalidName else
  let* i := sget (λ s, st_byName s !! name) in
  match i with
  | None => auth_fail k_ErrNotFound
  | Some id => Store_Delete id
  end.

Definition Store_UpdateLastUsed (id : string) : SOp unit :=
  if String.eqb id "" then auth_fail k_ErrInvalidID else
  let* p := sget (λ s, st_byID s !! id) in
  match p with
  | None => auth_fail k_ErrNotFound
  | Some p =>
      let* r := try (loadFromFile p) in
      match r with
      | inl ENotExist => auth_fail k_ErrNotFound
      | inl e => fail e
      | inr t =>
          let* now := snow in
          writeToFile p (k_used now t) ;*
          Cache_Invalidate p
      end
  end.

(** *** The scan of the directory *)
Definition index_named (t : T) (p : string) (s : Store C T) : Store C T :=
  set_index (<[k_ID t := p]> (st_byID s)) (<[k_Name t := k_ID t]> (st_byName s)) (st_byOIDC s) s.

Definition rebuildIndex (index : T → string → Store C T → Store C T) : SOp unit :=
  supd (set_index ∅ ∅ ∅) ;*
  ssys ;*
  let* names := sget (λ s, SortStrings (map_keys (st_files s))) in
  let* _ := each (λ _ name,
    if negb (String.eqb (Ext name) jsonExtension) then ret tt else
    let* r := try (loadFromFile name) in
    match r with
    | inr t => supd (index t name)
    | inl (EAuth e) => if k_fatal e then auth_fail e else ret tt
    | inl _ => ret tt
    end) tt names in
  ret tt.

Definition Store_New (baseDir : string) (index : T → string → Store C T → Store C T) : SOp unit :=
  if String.eqb baseDir "" then auth_fail EBaseDirEmpty else
  ssys ;* rebuildIndex index.
End Stores.

(** ** API keys *)
Class Sizes := {
  user_size : UserForStorage → Z;
  key_size : APIKeyForStorage → Z;
  webhook_size : WebhookForStorage → Z;
}.

#[export] Instance APIKeyKind `{Sizes} : StoreKind APIKeyForStorage APIKey := {|
  k_ID := ak_ID;
  k_Name := ak_Name;
  k_save := λ _ k, inr (APIKey_ToStorage k);
  k_load := λ c, inr (ToAPIKey c);
  k_used := λ t k, {| k with ak_LastUsedAt := Some t |};
  k_ErrInvalidID := ErrInvalidAPIKeyID;
  k_ErrInvalidName := ErrInvalidAPIKeyName;
  k_ErrNotFound := ErrAPIKeyNotFound;
  k_ErrAlreadyExists := ErrAPIKeyAlreadyExists;
  k_fatal := λ _, false;
  k_size := key_size;
|}.

(** ** Webhooks

    The secret of a signature is encrypted in the file; a store may have no encryptor. *)
Class Encryption := { encryption_gcm :: Gcm; encryptor : option Encryptor }.

Definition writeWebhook `{Encryption} (n : nat) (w : Webhook) : AuthErr + WebhookForStorage :=
  let stored := Webhook_ToStorage w in
  if String.eqb (wh_HMACSecret w) "" then inr stored
  else match encryptor with
       | None => inl ErrWebhookHMACEncryptorRequired
       | Some e =>
           match Encrypt e n (wh_HMACSecret w) with
           | None => inl EEncryptFailed
           | Some enc => inr {| stored with sw_HMACSecretEnc := enc |}
           end
       end.

Definition loadWebhook `{Encryption} (stored : WebhookForStorage) : AuthErr + Webhook :=
  let w := ToWebhook stored in
  if String.eqb (sw_HMACSecretEnc stored) "" then inr w
  else match encryptor with
       | None => inl ErrWebhookHMACEncryptorRequired
       | Some e =>
           match Decrypt e (sw_HMACSecretEnc stored) with
           | None => inl ErrWebhookHMACDecryptFailed
           | Some secret => inr {| w with wh_HMACSecret := secret |}
           end
       end.

#[export] Instance WebhookKind `{Sizes, Encryption} : StoreKind WebhookForStorage Webhook := {|
  k_ID := wh_ID;
  k_Name := wh_DAGName;
  k_save := writeWebhook;
  k_load := loadWebhook;
  k_used := λ t w, {| w with wh_LastUsedAt := Some t |};
  k_ErrInvalidID := ErrInvalidWebhookID;
  k_ErrInvalidName := ErrInvalidWebhookDAGName;
  k_ErrNotFound := ErrWebhookNotFound;
  k_ErrAlreadyExists := ErrWebhookAlreadyExists;
  k_fatal := λ e, bool_decide (e = ErrWebhookHMACEncryptorRequired) || bool_decide (e = ErrWebhookHMACDecryptFailed);
  k_size := webhook_size;
|}.

(** ** Users *)
#[export] Instance UserKind `{Sizes} : StoreKind UserForStorage User := {|
  k_ID := us_ID;
  k_Name := us_Username;
  k_save := λ _ u, inr (User_ToStorage u);
  k_load := λ c, inr (ToUser c);
  k_used := λ _ u, u;
  k_ErrInvalidID := ErrInvalidUserID;
  k_ErrInvalidName := ErrInvalidUsername;
  k_ErrNotFound := ErrUserNotFound;
  k_ErrAlreadyExists := ErrUserAlreadyExists;
  k_fatal := λ _, false;
  k_size := user_size;
|}.

Section Users.
Context `{OS, StoreEnv, Sizes}.

Abbreviation UStore := (Store UserForStorage User).
Abbreviation UOp A := (Op (FS unit * UStore) A).

Definition has_oidc (u : User) : bool := negb (String.eqb (us_OIDCIssuer u) "") && negb (String.eqb (us_OIDCSubject u) "").
Definition oidc_of (u : User) : string := oidcIdentityKey (us_OIDCIssuer u) (us_OIDCSubject u).

Definition UserStore_Create (u : User) : UOp unit :=
  if String.eqb (us_ID u) "" then auth_fail ErrInvalidUserID else
  if String.eqb (us_Username u) "" then auth_fail ErrInvalidUsername else
  let* taken := sget (λ s, st_byName s !! us_Username u) in
  if bool_decide (is_Some taken) then auth_fail ErrUserAlreadyExists else
  let* known := sget (λ s, st_byID s !! us_ID u) in
  if bool_decide (is_Some known) then auth_fail ErrUserAlreadyExists else
  let* identity := sget (λ s, st_byOIDC s !! oidc_of u) in
  if has_oidc u && bool_decide (is_Some identity) then auth_fail ErrOIDCIdentityAlreadyExists else
  let p := filePath (us_ID u) in
  writeToFile p u ;*
  supd (λ s, set_index (<[us_ID u := p]> (st_byID s)) (<[us_Username u := us_ID u]> (st_byName s))
               (if has_oidc u then <[oidc_of u := us_ID u]> (st_byOIDC s) else st_byOIDC s) s).

Definition UserStore_GetByOIDCIdentity (issuer subject : string) : UOp nat :=
  if String.eqb issuer "" || String.eqb subject "" then auth_fail ErrOIDCIdentityNotFound else
  let* i := sget (λ s, st_byOIDC s !! oidcIdentityKey issuer subject) in
  match i with
  | None => auth_fail ErrOIDCIdentityNotFound
  | Some id => Store_GetByID id
  end.

(** The name is moved in the index before the file is written, and moved back when
    the identity is taken or the write fails. *)
Definition move_name (old new id : string) (s : UStore) : UStore :=
  set_index (st_byID s) (<[new := id]> (delete old (st_byName s))) (st_byOIDC s) s.

Definition UserStore_Update (u : User) : UOp unit :=
  if String.eqb (us_ID u) "" then auth_fail ErrInvalidUserID else
  if String.eqb (us_Username u) "" then auth_fail ErrInvalidUsername else
  let* p := sget (λ s, st_byID s !! us_ID u) in
  match p with
  | None => auth_fail ErrUserNotFound
  | Some p =>
      let* existing := loadFromFile p in
      let renamed := negb (String.eqb (us_Username existing) (us_Username u)) in
      let* taken := sget (λ s, st_byName s !! us_Username u) in
      if renamed && match taken with Some i => negb (String.eqb i (us_ID u)) | None => false end
      then auth_fail ErrUserAlreadyExists else
      (if renamed then supd (move_name (us_Username existing) (us_Username u) (us_ID u)) else ret tt) ;*
      let rollback := if renamed then supd (move_name (us_Username u) (us_Username existing) (us_ID u)) else ret tt in
      let oidcChanged := negb (String.eqb (oidc_of existing) (oidc_of u)) in
      let* identity := sget (λ s, st_byOIDC s !! oidc_of u) in
      if oidcChanged && (has_oidc u && match identity with Some i => negb (String.eqb i (us_ID u)) | None => false end)
      then rollback ;* auth_fail ErrOIDCIdentityAlreadyExists else
      let* r := try (writeToFile p u) in
      match r with
      | inl e => rollback ;* fail e
      | inr _ =>
          if oidcChanged then
            supd (λ s,
              let removed := if has_oidc existing then delete (oidc_of existing) (st_byOIDC s) else st_byOIDC s in
              set_index (st_byID s) (st_byName s) (if has_oidc u then <[oidc_of u := us_ID u]> removed else removed) s)
          else ret tt
      end
  end.

Definition drop_id (id : string) (m : gmap string string) (l : list string) : gmap string string :=
  match name_of_id id m l with Some n => delete n m | None => m end.

Definition UserStore_Delete (id : string) : UOp unit :=
  if String.eqb id "" then auth_fail ErrInvalidUserID else
  let* p := sget (λ s, st_byID s !! id) in
  match p with
  | None => auth_fail ErrUserNotFound
  | Some p =>
      let* r := try (loadFromFile p) in
      let* u := match r with
                | inr u => ret (Some u)
                | inl ENotExist => ret None
                | inl e => fail e
                end in
      remove_file p ;*
      let* n := scall in
      let* m := scall in
      supd (λ s,
        match u with
        | Some u =>
            set_index (delete id (st_byID s)) (delete (us_Username u) (st_byName s))
              (if has_oidc u then delete (oidc_of u) (st_byOIDC s) else st_byOIDC s) s
        | None =>
            set_index (delete id (st_byID s))
              (drop_id id (st_byName s) (RangeOrder n (map_keys (st_byName s))))
              (drop_id id (st_byOIDC s) (RangeOrder m (map_keys (st_byOIDC s)))) s
        end)
  end.

Definition UserStore_Count : UOp Z := sget (λ s, Z.of_nat (size (st_byID s))).

Definition index_user (u : User) (p : string) (s : UStore) : UStore :=
  set_index (<[us_ID u := p]> (st_byID s)) (<[us_Username u := us_ID u]> (st_byName s))
    (if has_oidc u then <[oidc_of u := us_ID u]> (st_byOIDC s) else st_byOIDC s) s.
End Users.

(** ** The abstract store

    Objects by identifier, with names that are not shared.  [k_norm] is an object as it
    comes back from its file. *)
Class StoreKindOk (C T : Type) `{!StoreKind C T} := {
  k_norm : T → T;
  k_roundtrip n t c : k_save n t = inr c → k_load c = inr (k_norm t);
  k_norm_ID t : k_ID (k_norm t) = k_ID t;
  k_norm_Name t : k_Name (k_norm t) = k_Name t;
  k_used_ID now t : k_ID (k_used now t) = k_ID t;
  k_used_Name now t : k_Name (k_used now t) = k_Name t;
}.

Section Abstract.
Context {C T : Type} `{!StoreKind C T, !StoreKindOk C T}.
Implicit Types A : gmap string T.

Definition id_of_name (name : string) (A : gmap string T) : option string :=
  (λ x, x.2.1) <$> list_find (λ x, k_Name x.2 = name) (map_to_list A).

Definition spec_get (id : string) A : AuthErr + T :=
  if String.eqb id "" then inl k_ErrInvalidID
  else match A !! id with Some t => inr t | None => inl k_ErrNotFound end.

Definition spec_get_name (name : string) A : AuthErr + T :=
  if String.eqb name "" then inl k_ErrInvalidName
  else match id_of_name name A with Some id => spec_get id A | None => inl k_ErrNotFound end.

Definition spec_create (t : T) A : AuthErr + gmap string T :=
  if String.eqb (k_ID t) "" then inl k_ErrInvalidID
  else if String.eqb (k_Name t) "" then inl k_ErrInvalidName
  else if bool_decide (is_Some (id_of_name (k_Name t) A) ∨ is_Some (A !! k_ID t)) then inl k_ErrAlreadyExists
  else inr (<[k_ID t := k_norm t]> A).

Definition spec_update (t : T) A : AuthErr + gmap string T :=
  if String.eqb (k_ID t) "" then inl k_ErrInvalidID
  else if String.eqb (k_Name t) "" then inl k_ErrInvalidName
  else match A !! k_ID t with
       | None => inl k_ErrNotFound
       | Some _ =>
           match id_of_name (k_Name t) A with
           | Some i => if String.eqb i (k_ID t) then inr (<[k_ID t := k_norm t]> A) else inl k_ErrAlreadyExists
           | None => inr (<[k_ID t := k_norm t]> A)
           end
       end.

Definition spec_delete (id : string) A : AuthErr + gmap string T :=
  if String.eqb id "" then inl k_ErrInvalidID
  else match A !! id with Some _ => inr (delete id A) | None => inl k_ErrNotFound end.

Definition spec_delete_name (name : string) A : AuthErr + gmap string T :=
  if String.eqb name "" then inl k_ErrInvalidName
  else match id_of_name name A with Some id => spec_delete id A | None => inl k_ErrNotFound end.

Definition spec_used (now : Time) (id : string) A : AuthErr + gmap string T :=
  if String.eqb id "" then inl k_ErrInvalidID
  else match A !! id with Some t => inr (<[id := k_norm (k_used now t)]> A) | None => inl k_ErrNotFound end.
End Abstract.

(** ** What a store of keys or webhooks stands for *)
Section Rep.
Context {C T : Type} `{OS, StoreEnv, !StoreKind C T, !StoreKindOk C T}.
Implicit Types (A : gmap string T) (s : Store C T).

Definition decodes (s : Store C T) (p : string) (t : T) : Prop :=
  ∃ f c, st_files s !! p = Some f ∧ jf_data f = Some c ∧ k_load c = inr t.

(** The indexes name the files of the objects and the files decode to them. *)
Record indexed (s : Store C T) (A : gmap string T) : Prop := {
  rep_byID id : st_byID s !! id = (λ _, filePath id) <$> A !! id;
  rep_object id t : A !! id = Some t → k_ID t = id ∧ id ≠ "" ∧ k_Name t ≠ "" ∧ decodes s (filePath id) t;
  rep_byName n id : st_byName s !! n = Some id ↔ ∃ t, A !! id = Some t ∧ k_Name t = n;
}.

(** And every object in the cache is the one of its file. *)
Record rep (s : Store C T) (A : gmap string T) : Prop := {
  rep_indexed :> indexed s A;
  rep_cache p e : st_cache s !! p = Some e →
    UseCache = true ∧ ∃ id t, p = filePath id ∧ A !! id = Some t ∧ st_heap s !! co_data e = Some t;
}.

(** An error that an operation does not answer for: a system call failed, or the
    object cannot be stored. *)
Definition io_fault (e : Err) : Prop := e = EIO ∧ ∃ n, SysOk n = false.
Definition fault (e : Err) : Prop := io_fault e ∨ ∃ n (t : T) a, k_save (C := C) n t = inl a ∧ e = EAuth a.

Abbreviation SOp A := (Op (FS unit * Store C T) A).

Lemma io_fault_fault e : io_fault e → fault e.
Proof. by left. Qed.
#[local] Hint Resolve io_fault_fault : core.

Lemma filePath_inj i j : filePath i = filePath j → i = j.
Proof.
  unfold filePath. generalize jsonExtension as e. intros e. revert j. induction i as [|c i IH]; intros [|d j] Heq; [done| | |].
  1-2: apply (f_equal String.length) in Heq; rewrite !length_app_string in Heq; simpl in Heq; lia.
  change (String c (i ++ e) = String d (j ++ e))%string in Heq. injection Heq as -> Heq. f_equal. by apply IH.
Qed.

Lemma rep_id_of_name s A n : indexed s A → id_of_name n A = st_byName s !! n.
Proof.
  intros HR. unfold id_of_name. destruct (list_find _ _) as [[i [id t]]|] eqn:Hf; simpl.
  - apply list_find_Some in Hf as (Hi & Hn & _). apply list_elem_of_lookup_2, elem_of_map_to_list in Hi. symmetry.
    apply (rep_byName _ _ HR). eauto.
  - destruct (st_byName s !! n) as [id|] eqn:E; [|done]. apply (rep_byName _ _ HR) in E as (t & Ht & Hn).
    apply elem_of_map_to_list in Ht. apply list_find_None in Hf. rewrite Forall_forall in Hf. by destruct (Hf _ Ht).
Qed.

(** *** Calls *)
Lemma wp_ssys (w : FS unit * Store C T) Q :
  (∀ fs, Q (inr tt) (fs, w.2)) → (∀ fs e, io_fault e → Q (inl e) (fs, w.2)) → wp ssys w Q.
Proof.
  intros H1 H2. unfold wp, ssys, zoom, syscall. destruct (SysOk (fs_calls w.1)) eqn:E; simpl; [apply H1|].
  apply H2. split; eauto.
Qed.
Lemma wp_snow (w : FS unit * Store C T) Q : (∀ fs t, Q (inr t) (fs, w.2)) → wp snow w Q.
Proof. intros HQ. apply HQ. Qed.
Lemma wp_scall (w : FS unit * Store C T) Q : (∀ fs n, Q (inr n) (fs, w.2)) → wp scall w Q.
Proof. intros HQ. apply HQ. Qed.
Lemma wp_sget {X} (f : Store C T → X) w Q : Q (inr (f w.2)) w → wp (sget f) w Q.
Proof. done. Qed.
Lemma wp_supd f (w : FS unit * Store C T) (Q : Err + unit → _ → Prop) : Q (inr tt) (w.1, f w.2) → wp (supd f) w Q.
Proof. done. Qed.

Lemma wp_loadFromFile p t w Q :
  decodes w.2 p t → (∀ fs, Q (inr t) (fs, w.2)) → (∀ fs e, io_fault e → Q (inl e) (fs, w.2)) → wp (loadFromFile p) w Q.
Proof.
  intros (f & c & Hf & Hc & Ht) H1 H2. apply wp_bind, wp_ssys; [|apply H2]. intros fs.
  apply wp_bind, wp_sget. simpl. rewrite Hf. rewrite Hc, Ht. apply wp_ret, H1.
Qed.

Lemma wp_writeToFile p t w Q :
  (∀ fs f c, jf_data f = Some c → k_load c = inr (k_norm t) → Q (inr tt) (fs, set_file p f w.2)) →
  (∀ fs e, fault e → Q (inl e) (fs, w.2)) → wp (writeToFile p t) w Q.
Proof.
  intros H1 H2. apply wp_bind, wp_scall. intros fs n. destruct (k_save n t) as [a|c] eqn:E.
  { apply wp_fail, H2. right. eauto. }
  unfold WriteJSONAtomic. do 5 (apply wp_bind, wp_ssys; [|auto]; intros ?). apply wp_bind, wp_snow. intros fs' now.
  apply wp_supd, (H1 _ _ c); [done|]. by eapply k_roundtrip.
Qed.
(** *** Reading *)
Definition grows (s s' : Store C T) : Prop := st_heap s `prefix_of` st_heap s'.

#[export] Instance grows_preorder : PreOrder grows.
Proof. split; unfold grows; [intros s|intros s1 s2 s3 H1 H2]; [done|by trans (st_heap s2)]. Qed.

Lemma grows_eq s s' : st_heap s' = st_heap s → grows s s'.
Proof. unfold grows. by intros ->. Qed.

Lemma rep_alloc s A t : rep s A → rep (set_heap (st_heap s ++ [t]) s) A.
Proof.
  intros [[R1 R2 R3] R4]. split; [done|]. intros p e He. destruct (R4 p e He) as (Hc & id & u & Hp & Hu & Hh).
  split; [done|]. exists id, u. split_and!; [done..|]. simpl. by apply lookup_app_l_Some.
Qed.

Lemma rep_cached s A p id t l z m :
  rep s A → UseCache = true → p = filePath id → A !! id = Some t → st_heap s !! l = Some t →
  rep (set_cache (<[p := mkCachedObject l z m]> (st_cache s)) s) A.
Proof.
  intros [[R1 R2 R3] R4] Hc Hp Ht Hl. split; [done|]. intros q e. simpl. intros [[<- <-]|[_ He]]%lookup_insert_Some; [|by apply R4].
  split; [done|]. by exists id, t.
Qed.

(** A read of an object that is there. *)
Lemma wp_GetByID id t A w Q :
  rep w.2 A → A !! id = Some t →
  (∀ fs s l, rep s A → grows w.2 s → st_heap s !! l = Some t → Q (inr l) (fs, s)) →
  (∀ fs e, io_fault e → Q (inl e) (fs, w.2)) →
  wp (Store_GetByID id) w Q.
Proof.
  intros HR Ht H1 H2. destruct (rep_object _ _ HR id t Ht) as (Hid & Hne & _ & Hd). unfold Store_GetByID.
  destruct (String.eqb_spec id "") as [|_]; [done|]. apply wp_bind, wp_sget. rewrite (rep_byID _ _ HR), Ht. simpl.
  assert (∀ fs e, io_fault e → wp (match (inl e : Err + nat) with inr l => ret l | inl ENotExist => auth_fail k_ErrNotFound | inl e => fail e end) (fs, w.2) Q) as Hf.
  { intros fs e He. destruct He as [-> He]. by apply wp_fail, H2. }
  apply wp_bind, wp_try. destruct UseCache eqn:Hc.
  - apply wp_bind, wp_bind, wp_ssys; [|intros; by apply Hf]. intros fs. apply wp_bind, wp_sget. simpl.
    destruct Hd as (f & c & Hfile & Hd). rewrite Hfile. apply wp_bind, wp_scall. intros fs' n. apply wp_bind, wp_sget. simpl. apply wp_ret.
    destruct (match (if Dropped n then None else st_cache w.2 !! filePath id) with Some e => _ | None => _ end) as [l|] eqn:Hhit.
    + apply wp_ret, wp_ret, H1; [done|by exists []; rewrite app_nil_r|].
      destruct (if Dropped n then _ else _) as [e|] eqn:He; [|done]. destruct (Dropped n); [done|].
      destruct (rep_cache _ _ HR _ _ He) as (_ & j & u & Hj & Hu & Hh). apply filePath_inj in Hj as <-.
      destruct (_ || _) in Hhit; [done|]. injection Hhit as <-. simpl. congruence.
    + apply wp_bind, (wp_loadFromFile _ t); [by exists f, c| |intros; by apply Hf]. intros fs2. apply wp_bind. unfold wp at 1. cbn [fst snd salloc].
      apply wp_bind, wp_supd, wp_ret, wp_ret. cbn [fst snd]. apply H1; [|by exists [t]|simpl; by rewrite lookup_app_r, Nat.sub_diag by lia].
      eapply rep_cached; [by apply rep_alloc|done..|]. simpl. by rewrite lookup_app_r, Nat.sub_diag by lia.
  - apply wp_bind, (wp_loadFromFile _ t); [done| |intros; by apply Hf]. intros fs. unfold wp at 1. simpl. apply wp_ret, H1.
    + by apply rep_alloc.
    + by exists [t].
    + simpl. by rewrite lookup_app_r, Nat.sub_diag by lia.
Qed.

(** What a read returns: the object of the specification, or its error. *)
Definition reads (g : gmap string T → AuthErr + T) (m : SOp nat) : Prop :=
  ∀ w A, rep w.2 A → wp m w (λ r w', rep w'.2 A ∧ grows w.2 w'.2 ∧
    match r with
    | inl e => io_fault e ∨ ∃ a, e = EAuth a ∧ g A = inl a
    | inr l => ∃ t, st_heap w'.2 !! l = Some t ∧ g A = inr t
    end).

Lemma GetByID_reads id : reads (spec_get id) (Store_GetByID id).
Proof.
  intros w A HR. unfold spec_get. destruct (A !! id) as [t|] eqn:Ht.
  - destruct (rep_object _ _ HR id t Ht) as (_ & Hne & _). destruct (String.eqb_spec id "") as [|_]; [done|].
    apply (wp_GetByID id t A); [done|done| |]; [intros fs s l Hs Hg Hl; eauto|]. intros fs e He. split_and!; [done|done|by left].
  - unfold Store_GetByID. destruct (String.eqb_spec id "") as [|_]; [apply wp_fail; split_and!; [done|done|]; right; eauto|].
    apply wp_bind, wp_sget. rewrite (rep_byID _ _ HR), Ht. simpl. apply wp_fail. split_and!; [done|done|]. right. eauto.
Qed.

Lemma GetByName_reads name : reads (spec_get_name name) (Store_GetByName name).
Proof.
  intros w A HR. unfold spec_get_name, Store_GetByName.
  destruct (String.eqb_spec name "") as [|_]; [apply wp_fail; split_and!; [done|done|]; right; eauto|].
  apply wp_bind, wp_sget. rewrite (rep_id_of_name _ _ _ HR). destruct (st_byName w.2 !! name) as [id|].
  - by apply GetByID_reads.
  - apply wp_fail. split_and!; [done|done|]. right. eauto.
Qed.
(** *** Writing *)
Lemma indexed_put s s' A id t f c :
  indexed s A →
  st_files s' = <[filePath id := f]> (st_files s) → jf_data f = Some c → k_load c = inr t →
  (∀ i, st_byID s' !! i = if decide (i = id) then Some (filePath id) else st_byID s !! i) →
  (∀ n i, st_byName s' !! n = Some i ↔ (i = id ∧ n = k_Name t) ∨ (i ≠ id ∧ st_byName s !! n = Some i)) →
  k_ID t = id → id ≠ "" → k_Name t ≠ "" → indexed s' (<[id := t]> A).
Proof.
  intros [R1 R2 R3] Hf Hc Ht HbyID HbyName Hid Hne Hn. split.
  - intros i. rewrite HbyID. case_decide; subst; [by rewrite lookup_insert_eq|]. by rewrite lookup_insert_ne by done.
  - intros i u [[<- <-]|[Hi Hu]]%lookup_insert_Some.
    + split_and!; [done..|]. exists f, c. by rewrite Hf, lookup_insert_eq.
    + destruct (R2 i u Hu) as (H1 & H2 & H3 & g & d & Hg & Hd). split_and!; [done..|]. exists g, d. split; [|done].
      rewrite Hf, lookup_insert_ne by (intros E; by apply filePath_inj in E). done.
  - intros n i. rewrite HbyName, R3. destruct (decide (i = id)) as [->|Hi].
    + rewrite lookup_insert_eq. naive_solver.
    + rewrite lookup_insert_ne by done. naive_solver.
Qed.

Lemma indexed_remove s s' A id :
  indexed s A → is_Some (A !! id) →
  (∀ p, p ≠ filePath id → st_files s' !! p = st_files s !! p) →
  (∀ i, st_byID s' !! i = if decide (i = id) then None else st_byID s !! i) →
  (∀ n i, st_byName s' !! n = Some i ↔ i ≠ id ∧ st_byName s !! n = Some i) →
  indexed s' (delete id A).
Proof.
  intros [R1 R2 R3] [t Ht] Hf HbyID HbyName. split.
  - intros i. rewrite HbyID. case_decide; subst; [by rewrite lookup_delete_eq|]. by rewrite lookup_delete_ne by done.
  - intros i u [Hi Hu]%lookup_delete_Some. destruct (R2 i u Hu) as (H1 & H2 & H3 & g & d & Hg & Hd). split_and!; [done..|].
    exists g, d. split; [|done]. rewrite Hf; [done|]. by intros E%filePath_inj.
  - intros n i. rewrite HbyName, R3. setoid_rewrite lookup_delete_Some. naive_solver.
Qed.

(** The cache may keep the entries of the files that did not change. *)
Lemma rep_but s s' A A' id :
  rep s A → indexed s' A' → st_heap s' = st_heap s → (∀ i, i ≠ id → A' !! i = A !! i) →
  (∀ p e, st_cache s' !! p = Some e → p ≠ filePath id ∧ st_cache s !! p = Some e) → rep s' A'.
Proof.
  intros [_ R4] HI Hh HA Hcache. split; [done|]. intros q e He. destruct (Hcache q e He) as [Hq He'].
  destruct (R4 q e He') as (Hu & i & u & -> & Hi & Hl). split; [done|]. exists i, u. rewrite Hh, HA; [done|]. by intros ->.
Qed.

(** No two objects share a name. *)
Lemma rep_unique s A i j t u : indexed s A → A !! i = Some t → A !! j = Some u → k_Name t = k_Name u → i = j.
Proof.
  intros HR Hi Hj Hn. assert (st_byName s !! k_Name t = Some i) as E1 by (apply (rep_byName _ _ HR); eauto).
  assert (st_byName s !! k_Name t = Some j) as E2 by (apply (rep_byName _ _ HR); eauto). congruence.
Qed.

Lemma rep_nocache s A : rep s A → UseCache = false → st_cache s = ∅.
Proof.
  intros HR Hc. apply map_eq. intros p. rewrite lookup_empty. destruct (st_cache s !! p) as [e|] eqn:He; [|done].
  destruct (rep_cache _ _ HR p e He) as [Hu _]. congruence.
Qed.

(** A store that differs in the cache only, which has no entry for a path any more. *)
Definition forgets (p : string) (s s' : Store C T) : Prop :=
  st_files s' = st_files s ∧ st_heap s' = st_heap s ∧ st_byID s' = st_byID s ∧ st_byName s' = st_byName s ∧
  ∀ q e, st_cache s' !! q = Some e → q ≠ p ∧ st_cache s !! q = Some e.

Lemma wp_Invalidate p (w : FS unit * Store C T) Q :
  (UseCache = false → st_cache w.2 = ∅) → (∀ s, forgets p w.2 s → Q (inr tt) (w.1, s)) → wp (Cache_Invalidate p) w Q.
Proof.
  intros HR HQ. unfold Cache_Invalidate. destruct UseCache eqn:Hc.
  - apply wp_supd, HQ. split_and!; try done. simpl. intros q e [Hq He]%lookup_delete_Some. done.
  - apply wp_ret. destruct w as [fs s]. apply HQ. split_and!; try done. simpl in *. intros q e He. by rewrite HR in He.
Qed.

(** What a change of a store leaves behind, given what the specification says. *)
Definition changed (spec : Time → AuthErr + gmap string T) (s : Store C T) A (r : Err + unit) (w : FS unit * Store C T) : Prop :=
  grows s w.2 ∧
  match r with
  | inl e => rep w.2 A ∧ (fault e ∨ ∃ a now, e = EAuth a ∧ spec now = inl a)
  | inr _ => ∃ now A', spec now = inr A' ∧ rep w.2 A'
  end.

Definition changes (g : Time → gmap string T → AuthErr + gmap string T) (m : SOp unit) : Prop :=
  ∀ w A, rep w.2 A → wp m w (changed (λ now, g now A) w.2 A).

(** An operation that refuses, or fails before it wrote, leaves the store as it was. *)
Lemma changed_refuse spec e w s A :
  w.2 = s → rep s A → (∀ now, spec now = inl e) → wp (auth_fail e : SOp unit) w (changed spec s A).
Proof. intros <- HR Hg. apply wp_fail. split; [done|]. split; [done|]. right. exists e, 0%Z. auto. Qed.

Lemma changed_fault spec s A fs e : rep s A → fault e → changed spec s A (inl e) (fs, s).
Proof. intros HR He. split; [done|]. split; [done|by left]. Qed.
#[local] Hint Resolve changed_fault : core.

Lemma Create_changes t : changes (λ _, spec_create t) (Store_Create t).
Proof.
  intros w A HR. unfold spec_create, Store_Create.
  destruct (String.eqb_spec (k_ID t) "") as [|Hid]; [by apply changed_refuse|].
  destruct (String.eqb_spec (k_Name t) "") as [|Hn]; [by apply changed_refuse|].
  apply wp_bind, wp_sget. rewrite <-(rep_id_of_name _ _ _ HR).
  destruct (id_of_name (k_Name t) A) as [i|] eqn:Hi; [apply changed_refuse; [done..|]; intros _; by rewrite bool_decide_true by eauto|].
  apply wp_bind, wp_sget. rewrite (rep_byID _ _ HR).
  destruct (A !! k_ID t) as [u|] eqn:Hu; [apply changed_refuse; [done..|]; intros _; by rewrite bool_decide_true by eauto|].
  rewrite (bool_decide_false (is_Some None ∨ is_Some None)) by (intros [[? ?]|[? ?]]; done). cbn [fmap option_fmap option_map].
  rewrite bool_decide_false by (intros [? ?]; done).
  apply wp_bind, wp_writeToFile; [|auto]. intros fs f c Hf Hc. apply wp_supd.
  split; [by apply grows_eq|]. exists 0%Z, (<[k_ID t := k_norm t]> A). split; [done|].
  assert (st_byName w.2 !! k_Name t = None) as Hfree by (by rewrite <-(rep_id_of_name _ _ _ HR)).
  apply (rep_but w.2 _ A _ (k_ID t)); [done| |done|by intros; rewrite lookup_insert_ne by done|].
  2:{ intros p e He. simpl in He. split; [|done]. intros ->.
      destruct (rep_cache _ _ HR _ _ He) as (_ & j & v & Hj%filePath_inj & Hv & _). congruence. }
  apply (indexed_put w.2 _ A _ _ f c HR); try done; simpl.
  - intros i. case_decide; subst; [by rewrite lookup_insert_eq|]. by rewrite lookup_insert_ne by done.
  - intros n i. rewrite lookup_insert_Some, k_norm_Name. split; [|naive_solver congruence].
    intros [[<- <-]|[Hne Hb]]; [by left|]. right. split; [|done]. intros ->. apply (rep_byName _ _ HR) in Hb as (v & Hv & _). congruence.
  - apply k_norm_ID.
  - by rewrite k_norm_Name.
Qed.

(** Writing an object again under its own or a free name. *)
Lemma indexed_overwrite s s' A id t old f c :
  indexed s A → A !! id = Some old → k_ID t = id → k_Name t ≠ "" →
  (∀ j u, A !! j = Some u → k_Name u = k_Name t → j = id) →
  st_files s' = <[filePath id := f]> (st_files s) → jf_data f = Some c → k_load c = inr (k_norm t) →
  st_byID s' = st_byID s →
  st_byName s' = (if String.eqb (k_Name old) (k_Name t) then st_byName s else <[k_Name t := id]> (delete (k_Name old) (st_byName s))) →
  indexed s' (<[id := k_norm t]> A).
Proof.
  intros HR Hold Hid Hn Hfree Hf Hc Hl HbyID HbyName. destruct (rep_object _ _ HR _ _ Hold) as (_ & Hne & _).
  apply (indexed_put s _ A _ _ f c); try done.
  - intros i. rewrite HbyID. case_decide; [|done]. subst i. by rewrite (rep_byID _ _ HR), Hold.
  - intros n i. rewrite HbyName, k_norm_Name. destruct (String.eqb_spec (k_Name old) (k_Name t)) as [Heq|Hd].
    + rewrite (rep_byName _ _ HR). destruct (decide (i = id)) as [->|Hi]; naive_solver.
    + rewrite lookup_insert_Some, lookup_delete_Some, !(rep_byName _ _ HR). split.
      * intros [[<- <-]|(Hnt & Hno & u & Hu & Hun)]; [by left|]. right. split; [|eauto]. intros ->. naive_solver.
      * intros [[-> ->]|(Hi & u & Hu & Hun)]; [by left|]. right. subst n. split_and!; [| |eauto].
        -- intros E. by apply Hi, (Hfree i u).
        -- intros E. by apply Hi, (rep_unique s A i id u old HR).
  - by rewrite k_norm_ID.
  - by rewrite k_norm_Name.
Qed.

Lemma rep_overwrite s s' A id t old f c :
  rep s A → A !! id = Some old → k_ID t = id → k_Name t ≠ "" →
  (∀ j u, A !! j = Some u → k_Name u = k_Name t → j = id) →
  st_files s' = <[filePath id := f]> (st_files s) → jf_data f = Some c → k_load c = inr (k_norm t) →
  st_heap s' = st_heap s →
  (∀ p e, st_cache s' !! p = Some e → p ≠ filePath id ∧ st_cache s !! p = Some e) →
  st_byID s' = st_byID s →
  st_byName s' = (if String.eqb (k_Name old) (k_Name t) then st_byName s else <[k_Name t := id]> (delete (k_Name old) (st_byName s))) →
  rep s' (<[id := k_norm t]> A).
Proof.
  intros HR Hold Hid Hn Hfree Hf Hc Hl Hh Hcache HbyID HbyName.
  apply (rep_but s _ A _ id); [done| |done|by intros; rewrite lookup_insert_ne by done|done].
  by apply (indexed_overwrite s _ A id t old f c HR).
Qed.

(** The test of a new name is the one of the specification. *)
Lemma update_name_free s A t old :
  indexed s A → A !! k_ID t = Some old →
  if negb (String.eqb (k_Name old) (k_Name t)) &&
     match id_of_name (k_Name t) A with Some i => negb (String.eqb i (k_ID t)) | None => false end
  then ∃ i, id_of_name (k_Name t) A = Some i ∧ String.eqb i (k_ID t) = false
  else (match id_of_name (k_Name t) A with
        | Some i => if String.eqb i (k_ID t) then inr (<[k_ID t := k_norm t]> A) else inl k_ErrAlreadyExists
        | None => inr (<[k_ID t := k_norm t]> A) end : AuthErr + gmap string T) = inr (<[k_ID t := k_norm t]> A) ∧
       ∀ j u, A !! j = Some u → k_Name u = k_Name t → j = k_ID t.
Proof.
  intros HR Hold.
  assert (∀ j, id_of_name (k_Name t) A = Some j ↔ ∃ u, A !! j = Some u ∧ k_Name u = k_Name t) as Hname
    by (intros j; rewrite (rep_id_of_name _ _ _ HR); apply (rep_byName _ _ HR)).
  assert (k_Name old = k_Name t → id_of_name (k_Name t) A = Some (k_ID t)) as Hsame by (intros E; apply Hname; eauto).
  destruct (negb _ && _) eqn:Hclash.
  { destruct (id_of_name (k_Name t) A) as [i|]; [|by rewrite andb_false_r in Hclash].
    apply andb_true_iff in Hclash as [_ Hi%negb_true_iff]. eauto. }
  assert (∀ j u, A !! j = Some u → k_Name u = k_Name t → j = k_ID t) as Hfree.
  { intros j u Hj Hu. assert (id_of_name (k_Name t) A = Some j) as Ej by (apply Hname; eauto). rewrite Ej in Hclash, Hsame.
    destruct (String.eqb_spec j (k_ID t)); [done|]. destruct (String.eqb_spec (k_Name old) (k_Name t)) as [E|]; [|done]. by injection (Hsame E). }
  split; [|done]. destruct (id_of_name (k_Name t) A) as [j|] eqn:Ej; [|done]. destruct (Hname j) as [(u & Hu & Hun) _]; [done|].
  by rewrite (Hfree j u Hu Hun), String.eqb_refl.
Qed.

Lemma Update_changes t : changes (λ _, spec_update t) (Store_Update t).
Proof.
  intros w A HR. unfold spec_update, Store_Update.
  destruct (String.eqb_spec (k_ID t) "") as [|Hid]; [by apply changed_refuse|].
  destruct (String.eqb_spec (k_Name t) "") as [|Hn]; [by apply changed_refuse|].
  apply wp_bind, wp_sget. rewrite (rep_byID _ _ HR). destruct (A !! k_ID t) as [old|] eqn:Hold; [|by apply changed_refuse].
  destruct (rep_object _ _ HR _ _ Hold) as (Hoid & _ & _ & Hd). simpl.
  apply wp_bind, (wp_loadFromFile _ old); [done| |auto]. intros fs.
  apply wp_bind, wp_sget. cbn [snd]. rewrite <-(rep_id_of_name _ _ _ HR).
  pose proof (update_name_free w.2 A t old HR Hold) as Hclash.
  destruct (negb (String.eqb (k_Name old) (k_Name t)) && _) eqn:Hc0.
  { destruct Hclash as (i & Hi1 & Hi2). apply changed_refuse; [done..|]. intros _. by rewrite Hi1, Hi2. }
  destruct Hclash as [-> Hfree].
  apply wp_bind, wp_writeToFile; [|auto]. intros fs1 f c Hf Hc.
  apply wp_bind, wp_Invalidate; [exact (rep_nocache w.2 A HR)|]. intros s (H1 & H2 & H3 & H4 & H5). cbn [fst].
  pose proof (rep_overwrite w.2 s A (k_ID t) t old f c HR Hold eq_refl Hn Hfree H1 Hf Hc H2 H5 H3) as Hplain.
  pose proof (rep_overwrite w.2 (set_index (st_byID s) (<[k_Name t := k_ID t]> (delete (k_Name old) (st_byName s))) (st_byOIDC s) s)
    A (k_ID t) t old f c HR Hold eq_refl Hn Hfree H1 Hf Hc H2 H5 H3) as Hren. simpl in Hren.
  destruct (String.eqb (k_Name old) (k_Name t)); simpl; [apply wp_ret|apply wp_supd]; (split; [by apply grows_eq|]);
    exists 0%Z, (<[k_ID t := k_norm t]> A); (split; [done|]); [by apply Hplain|apply Hren; by rewrite H4].
Qed.

Lemma Delete_changes id : changes (λ _, spec_delete id) (Store_Delete id).
Proof.
  intros w A HR. unfold spec_delete, Store_Delete.
  destruct (String.eqb_spec id "") as [|_]; [by apply changed_refuse|].
  apply wp_bind, wp_sget. rewrite (rep_byID _ _ HR). destruct (A !! id) as [t|] eqn:Ht; [|by apply changed_refuse].
  destruct (rep_object _ _ HR _ _ Ht) as (_ & _ & _ & Hd). cbn [fmap option_fmap option_map].
  apply wp_bind, wp_try, (wp_loadFromFile _ t); [done| |].
  2:{ intros fs e [-> He]. apply wp_bind, wp_fail, changed_fault; [done|]. by left. }
  intros fs. apply wp_bind, wp_ret, wp_bind, wp_bind, wp_ssys; [|auto]. intros fs1. apply wp_supd, wp_bind, wp_Invalidate;
    [exact (rep_nocache w.2 A HR)|]. intros s (H1 & H2 & H3 & H4 & H5). apply wp_bind, wp_scall. intros fs2 n. apply wp_supd.
  split; [by apply grows_eq|]. exists 0%Z, (delete id A). split; [done|]. 
  apply (rep_but w.2 _ A _ id); [done| |done|by intros; rewrite lookup_delete_ne by done|done].
  apply (indexed_remove w.2 _ A id HR); try done; cbn [snd set_index st_files st_byID st_byName].
  - intros p Hp. rewrite H1. simpl. by rewrite lookup_delete_ne by done.
  - intros i. rewrite H3. case_decide; subst; [by rewrite lookup_delete_eq|]. by rewrite lookup_delete_ne by done.
  - intros m i. rewrite H4, lookup_delete_Some. simpl. rewrite (rep_byName _ _ HR). split.
    + intros (Hn & u & Hu & Hun). split; [|eauto]. intros ->. naive_solver.
    + intros (Hi & u & Hu & Hun). split; [|eauto]. intros E. subst m. by apply Hi, (rep_unique w.2 A i id u t HR).
Qed.

Lemma DeleteByName_changes name : changes (λ _, spec_delete_name name) (Store_DeleteByName name).
Proof.
  intros w A HR. unfold spec_delete_name, Store_DeleteByName.
  destruct (String.eqb_spec name "") as [|_]; [by apply changed_refuse|].
  apply wp_bind, wp_sget. rewrite <-(rep_id_of_name _ _ _ HR). destruct (id_of_name name A) as [id|]; [|by apply changed_refuse].
  by apply (Delete_changes id w A).
Qed.

Lemma UpdateLastUsed_changes id : changes (λ now, spec_used now id) (Store_UpdateLastUsed id).
Proof.
  intros w A HR. unfold spec_used, Store_UpdateLastUsed.
  destruct (String.eqb_spec id "") as [|_]; [by apply changed_refuse|].
  apply wp_bind, wp_sget. rewrite (rep_byID _ _ HR). destruct (A !! id) as [t|] eqn:Ht; [|by apply changed_refuse].
  destruct (rep_object _ _ HR _ _ Ht) as (Hid & _ & Hn & Hd). cbn [fmap option_fmap option_map].
  apply wp_bind, wp_try, (wp_loadFromFile _ t); [done| |].
  2:{ intros fs e [-> He]. apply wp_fail, changed_fault; [done|]. by left. }
  intros fs. apply wp_bind, wp_snow. intros fs1 now. apply wp_bind, wp_writeToFile; [|auto]. intros fs2 f c Hf Hc.
  apply wp_Invalidate; [exact (rep_nocache w.2 A HR)|]. intros s (H1 & H2 & H3 & H4 & H5).
  split; [by apply grows_eq|]. exists now, (<[id := k_norm (k_used now t)]> A). split; [done|].
  apply (rep_overwrite w.2 s A id (k_used now t) t f c); try done; rewrite ?k_used_ID, ?k_used_Name; try done.
  - intros j u Hj Hu. by apply (rep_unique w.2 A j id u t HR).
  - by rewrite String.eqb_refl.
Qed.
(** *** Listing *)
Lemma omap_values A (l : list (string * T)) : (∀ x, x ∈ l → A !! x.1 = Some x.2) → omap (λ i, A !! i) l.*1 = l.*2.
Proof.
  induction l as [|[i t] l IH]; intros Hl; [done|].
  assert (A !! i = Some t) as Hi by (apply (Hl (i, t)); by left). cbn. rewrite Hi. f_equal. apply IH.
  intros x Hx. apply Hl. by right.
Qed.

Lemma List_reads w A :
  (∀ n l, RangeOrder n l ≡ₚ l) → rep w.2 A →
  wp Store_List w (λ r w', rep w'.2 A ∧ grows w.2 w'.2 ∧
    match r with
    | inl e => io_fault e
    | inr ls => ∃ ts, Forall2 (λ l t, st_heap w'.2 !! l = Some t) ls ts ∧ ts ≡ₚ (map_to_list A).*2
    end).
Proof.
  intros Hperm HR. unfold Store_List. apply wp_bind, wp_scall. intros fs n. apply wp_bind, wp_sget. cbn [snd].
  assert (∀ ids acc ts fs s, (∀ i, i ∈ ids → is_Some (A !! i)) → rep s A → grows w.2 s →
    Forall2 (λ l t, st_heap s !! l = Some t) acc ts →
    wp (each (λ acc id, let* r := try (Store_GetByID id) in
          match r with inr l => ret (acc ++ [l]) | inl e => if bool_decide (e = EAuth k_ErrNotFound) then ret acc else fail e end) acc ids)
      (fs, s) (λ r w', rep w'.2 A ∧ grows w.2 w'.2 ∧
        match r with
        | inl e => io_fault e
        | inr ls => Forall2 (λ l t, st_heap w'.2 !! l = Some t) ls (ts ++ omap (λ i, A !! i) ids)
        end)) as Hloop.
  { clear fs. induction ids as [|i ids IH]; intros acc ts fs s Hids Hs Hg Hacc; cbn [each].
    - apply wp_ret. by rewrite app_nil_r.
    - destruct (Hids i) as [t Ht]; [by left|]. apply wp_bind, wp_bind, wp_try, (wp_GetByID i t A); [done|done| |].
      + intros fs1 s1 l H1 H2 H3. apply wp_ret. cbn [omap list_omap]. rewrite Ht.
        replace (ts ++ t :: omap (λ i, A !! i) ids) with ((ts ++ [t]) ++ omap (λ i, A !! i) ids) by (by rewrite <-app_assoc).
        apply IH; [intros j Hj; apply Hids; by right|done|by trans s|]. apply Forall2_app; [|by constructor].
        eapply Forall2_impl; [exact Hacc|]. intros k u Hk. simpl in Hk. by eapply prefix_lookup_Some.
      + intros fs1 e [-> He]. by apply wp_fail. }
  eapply wp_mono; [apply (Hloop _ [] []); [|done|done|constructor]|].
  - intros i. rewrite Hperm. unfold map_keys. intros ([j p] & -> & Hj)%list_elem_of_fmap. apply elem_of_map_to_list in Hj.
    rewrite (rep_byID _ _ HR) in Hj. simpl. destruct (A !! j); [eauto|done].
  - intros r w' (H1 & H2 & H3). split_and!; [done..|]. destruct r as [e|ls]; [done|]. eexists. split; [exact H3|]. simpl.
    assert (map_keys (st_byID w.2) ≡ₚ (map_to_list A).*1) as Hk.
    { unfold map_keys. apply NoDup_Permutation; [apply NoDup_fst_map_to_list..|]. intros i. rewrite !list_elem_of_fmap.
      setoid_rewrite elem_of_map_to_list'. split; intros ([j x] & -> & Hj); simpl in *.
      - rewrite (rep_byID _ _ HR) in Hj. destruct (A !! j) as [t|] eqn:E; [|done]. by exists (j, t).
      - exists (j, filePath j). split; [done|]. simpl. by rewrite (rep_byID _ _ HR), Hj. }
    rewrite Hperm, Hk. by rewrite omap_values by (intros [i t]; apply elem_of_map_to_list).
Qed.
(** *** Sequences of operations *)
Inductive StoreOp :=
  | OpCreate (t : T)
  | OpUpdate (t : T)
  | OpDelete (id : string)
  | OpDeleteByName (name : string)
  | OpUpdateLastUsed (id : string)
  | OpGetByID (id : string)
  | OpGetByName (name : string)
  | OpList.

Inductive Answer :=
  | Done
  | Object (t : option T)          (* the object behind the pointer *)
  | Objects (ts : list (option T)).

Definition behind (s : Store C T) (l : nat) : option T := st_heap s !! l.

Definition run_op (o : StoreOp) : SOp Answer :=
  match o with
  | OpCreate t => Store_Create t ;* ret Done
  | OpUpdate t => Store_Update t ;* ret Done
  | OpDelete id => Store_Delete id ;* ret Done
  | OpDeleteByName name => Store_DeleteByName name ;* ret Done
  | OpUpdateLastUsed id => Store_UpdateLastUsed id ;* ret Done
  | OpGetByID id => let* l := Store_GetByID id in sget (λ s, Object (behind s l))
  | OpGetByName name => let* l := Store_GetByName name in sget (λ s, Object (behind s l))
  | OpList => let* ls := Store_List in sget (λ s, Objects (behind s <$> ls))
  end.

(** What an operation answers and leaves, on the abstract store. *)
Definition spec_change (now : Time) (o : StoreOp) A : option (AuthErr + gmap string T) :=
  match o with
  | OpCreate t => Some (spec_create t A)
  | OpUpdate t => Some (spec_update t A)
  | OpDelete id => Some (spec_delete id A)
  | OpDeleteByName name => Some (spec_delete_name name A)
  | OpUpdateLastUsed id => Some (spec_used now id A)
  | _ => None
  end.

Definition spec_read (o : StoreOp) A : option (AuthErr + T) :=
  match o with
  | OpGetByID id => Some (spec_get id A)
  | OpGetByName name => Some (spec_get_name name A)
  | _ => None
  end.

(** A change is made as specified or refused as specified, a read returns what is
    there, and an operation that a fault stops changes nothing. *)
Inductive spec_op A : StoreOp → Err + Answer → gmap string T → Prop :=
  | spec_op_done o now A' : spec_change now o A = Some (inr A') → spec_op A o (inr Done) A'
  | spec_op_refused o now a : spec_change now o A = Some (inl a) → spec_op A o (inl (EAuth a)) A
  | spec_op_read o t : spec_read o A = Some (inr t) → spec_op A o (inr (Object (Some t))) A
  | spec_op_missing o a : spec_read o A = Some (inl a) → spec_op A o (inl (EAuth a)) A
  | spec_op_list ts : ts ≡ₚ (map_to_list A).*2 → spec_op A OpList (inr (Objects (Some <$> ts))) A
  | spec_op_fault o e : fault e → spec_op A o (inl e) A.

Fixpoint run_ops (l : list StoreOp) (w : FS unit * Store C T) : list (Err + Answer) * (FS unit * Store C T) :=
  match l with
  | [] => ([], w)
  | o :: l' =>
      let '(r, w1) := run_op o w in
      let '(rs, w2) := run_ops l' w1 in (r :: rs, w2)
  end.

Inductive spec_ops : gmap string T → list StoreOp → list (Err + Answer) → gmap string T → Prop :=
  | spec_ops_nil A : spec_ops A [] [] A
  | spec_ops_cons A o r A1 l rs A2 : spec_op A o r A1 → spec_ops A1 l rs A2 → spec_ops A (o :: l) (r :: rs) A2.

Lemma changes_op g m o :
  changes g m → (∀ A now, spec_change now o A = Some (g now A)) →
  ∀ w A, rep w.2 A → wp (m ;* ret Done) w (λ r w', ∃ A', spec_op A o r A' ∧ rep w'.2 A').
Proof.
  intros Hm Hg w A HR. apply wp_bind. eapply wp_mono; [by apply Hm|]. intros r w' [_ Hr]. destruct r as [e|[]].
  - destruct Hr as [HR' [He|(a & now & -> & Ha)]]; exists A; (split; [|done]); [by apply spec_op_fault|].
    eapply (spec_op_refused A o now). by rewrite Hg, Ha.
  - destruct Hr as (now & A' & HA & HR'). apply wp_ret. exists A'. split; [|done]. eapply (spec_op_done A o now). by rewrite Hg, HA.
Qed.

Lemma reads_op g m o :
  reads g m → (∀ A, spec_read o A = Some (g A)) →
  ∀ w A, rep w.2 A → wp (let* l := m in sget (λ s, Object (behind s l))) w (λ r w', ∃ A', spec_op A o r A' ∧ rep w'.2 A').
Proof.
  intros Hm Hg w A HR. apply wp_bind. eapply wp_mono; [by apply Hm|]. intros r w' (HR' & _ & Hr). destruct r as [e|l].
  - exists A. split; [|done]. destruct Hr as [He|(a & -> & Ha)]; [apply spec_op_fault; auto|]. apply spec_op_missing. by rewrite Hg, Ha.
  - destruct Hr as (t & Hl & Ht). apply wp_sget. exists A. split; [|done]. unfold behind. rewrite Hl. apply spec_op_read. by rewrite Hg, Ht.
Qed.

Lemma run_op_refines (Hperm : ∀ n l, RangeOrder n l ≡ₚ l) o w A :
  rep w.2 A → wp (run_op o) w (λ r w', ∃ A', spec_op A o r A' ∧ rep w'.2 A').
Proof.
  intros HR. destruct o; simpl.
  - by eapply (changes_op _ _ _ (Create_changes t)).
  - by eapply (changes_op _ _ _ (Update_changes t)).
  - by eapply (changes_op _ _ _ (Delete_changes id)).
  - by eapply (changes_op _ _ _ (DeleteByName_changes name)).
  - by eapply (changes_op _ _ _ (UpdateLastUsed_changes id)).
  - by eapply (reads_op _ _ _ (GetByID_reads id)).
  - by eapply (reads_op _ _ _ (GetByName_reads name)).
  - apply wp_bind. eapply wp_mono; [by apply List_reads|]. intros r w' (HR' & _ & Hr). destruct r as [e|ls].
    + exists A. split; [|done]. apply spec_op_fault. auto.
    + destruct Hr as (ts & Hts & Hp). apply wp_sget. exists A. split; [|done].
      assert (behind w'.2 <$> ls = Some <$> ts) as -> by (clear Hp; induction Hts as [|l t ls' ts' Ht _ IH]; [done|]; cbn; by f_equal).
      by apply spec_op_list.
Qed.
End Rep.

Arguments StoreOp : clear implicits.
Arguments Answer : clear implicits.

(** The empty store stands for the empty map. *)
Definition Store_empty {C T} : Store C T := mkStore ∅ [] ∅ ∅ ∅ ∅.

Lemma rep_empty {C T} `{StoreEnv, !StoreKind C T} : rep (C := C) (T := T) Store_empty ∅.
Proof.
  split; [split|]; simpl.
  - intros id. by rewrite !lookup_empty.
  - intros id t. by rewrite lookup_empty.
  - intros n id. rewrite lookup_empty. split; [done|]. intros (t & Ht & _). by rewrite lookup_empty in Ht.
  - intros p e. by rewrite lookup_empty.
Qed.

(** C21. The file store of API keys or webhooks, with its indexes and its cache, is a map
    of objects by identifier whose names are not shared: in every sequence of its
    operations, from the empty store on and whatever system calls fail, each operation
    answers as that map does and changes it the same way, or stops at a fault and
    changes nothing; no read ever returns an object that is out of date. *)
Theorem auth_store_refines {C T} `{OS, StoreEnv, !StoreKind C T, !StoreKindOk C T} (Hperm : ∀ n l, RangeOrder n l ≡ₚ l) l fs :
  ∃ A : gmap string T,
    spec_ops (C := C) ∅ l (run_ops (C := C) l (fs, Store_empty)).1 A ∧ rep (C := C) (run_ops l (fs, Store_empty)).2.2 A.
Proof.
  assert (∀ l (w : FS unit * Store C T) A, rep w.2 A → ∃ A' : gmap string T, spec_ops (C := C) A l (run_ops l w).1 A' ∧ rep (run_ops l w).2.2 A') as Hgen.
  { clear -Hperm. intros l. induction l as [|o l IH]; intros w A HR; simpl; [exists A; split; [constructor|done]|].
    pose proof (run_op_refines Hperm o w A HR) as Ho. unfold wp in Ho. destruct (run_op o w) as [r w1]. simpl in Ho.
    destruct Ho as (A1 & Ho & HR1). specialize (IH w1 A1 HR1). destruct (run_ops l w1) as [rs w2].
    destruct IH as (A2 & H2 & HR2). exists A2. split; [by econstructor|done]. }
  apply (Hgen l (fs, Store_empty) ∅), rep_empty.
Qed.

(** ** Records and their files *)
Lemma ToAPIKey_roundtrip k :
  ToAPIKey (APIKey_ToStorage k) = {| k with ak_WorkspaceAccess := CloneWorkspaceAccess (ak_WorkspaceAccess k) |}.
Proof. unfold ToAPIKey. simpl. by rewrite Clone_idem. Qed.

#[export] Instance APIKeyKind_ok `{Sizes} : StoreKindOk APIKeyForStorage APIKey.
Proof.
  refine {| k_norm := λ k, {| k with ak_WorkspaceAccess := CloneWorkspaceAccess (ak_WorkspaceAccess k) |} |}; try done.
  intros n k c [= <-]. simpl. by rewrite ToAPIKey_roundtrip.
Defined.

#[export] Instance WebhookKind_ok `{Sizes, HE : Encryption, !GcmOk} : StoreKindOk WebhookForStorage Webhook.
Proof.
  refine {| k_norm := λ w, w |}; try done. intros n w c. cbn [k_save k_load WebhookKind]. unfold writeWebhook, loadWebhook.
  destruct (String.eqb_spec (wh_HMACSecret w) "") as [Hs|Hs].
  - intros [= <-]. simpl. unfold ToWebhook. simpl. destruct w; simpl in *. by rewrite Hs.
  - destruct encryptor as [e|] eqn:He; [|done]. destruct (Encrypt e n (wh_HMACSecret w)) as [enc|] eqn:Henc; [|done].
    intros [= <-]. simpl. destruct (String.eqb_spec enc "") as [->|_]; [by destruct (Encrypt_nonempty e n _ "" Henc)|].
    rewrite (Decrypt_Encrypt e n _ enc Henc). unfold ToWebhook. simpl. by destruct w.
Defined.

#[export] Instance UserKind_ok `{Sizes} : StoreKindOk UserForStorage User.
Proof.
  refine {| k_norm := λ u, {| u with us_WorkspaceAccess := CloneWorkspaceAccess (us_WorkspaceAccess u) |} |}; try done.
  intros n u c [= <-]. simpl. unfold ToUser. simpl. by rewrite Clone_idem.
Defined.

(** ** Users: names and identities

    The abstract store of users: no two share a name or an OIDC identity. *)
Definition user_norm (u : User) : User := {| u with us_WorkspaceAccess := CloneWorkspaceAccess (us_WorkspaceAccess u) |}.

Definition same_identity (u v : User) : Prop :=
  has_oidc v = true ∧ us_OIDCIssuer v = us_OIDCIssuer u ∧ us_OIDCSubject v = us_OIDCSubject u.

(** The user with the identity of another. *)
Definition id_of_identity (u : User) (A : gmap string User) : option string :=
  (λ x, x.2.1) <$> list_find (λ x, same_identity u x.2) (map_to_list A).

Definition identity_clash (u : User) (A : gmap string User) : bool :=
  has_oidc u && match id_of_identity u A with Some i => negb (String.eqb i (us_ID u)) | None => false end.

Section UserSpec.
Context `{Sizes}.

Definition spec_user_create (u : User) (A : gmap string User) : AuthErr + gmap string User :=
  match spec_create u A with
  | inl e => inl e
  | inr A' => if has_oidc u && bool_decide (is_Some (id_of_identity u A)) then inl ErrOIDCIdentityAlreadyExists else inr A'
  end.

Definition spec_user_update (u : User) (A : gmap string User) : AuthErr + gmap string User :=
  match spec_update u A with
  | inl e => inl e
  | inr A' => if identity_clash u A then inl ErrOIDCIdentityAlreadyExists else inr A'
  end.
End UserSpec.

Section UserLaws.
Context `{OS, StoreEnv, Sizes}.
Implicit Types A : gmap string User.

Record uindexed (s : Store UserForStorage User) A : Prop := {
  ui_indexed :> indexed s A;
  ui_oidc key id : st_byOIDC s !! key = Some id ↔ ∃ u, A !! id = Some u ∧ has_oidc u = true ∧ oidc_of u = key;
}.

Lemma same_identity_key u v : has_oidc v = true → same_identity u v ↔ oidc_of v = oidc_of u.
Proof.
  unfold same_identity, oidc_of. intros Hv. split; [intros (_ & -> & ->); done|]. by intros [-> ->]%oidcIdentityKey_inj.
Qed.

Lemma id_of_identity_index s A u : uindexed s A → id_of_identity u A = st_byOIDC s !! oidc_of u.
Proof.
  intros HU. unfold id_of_identity. destruct (list_find _ _) as [[i [id v]]|] eqn:Hf; simpl.
  - apply list_find_Some in Hf as (Hi & Hs & _). apply list_elem_of_lookup_2, elem_of_map_to_list in Hi. symmetry.
    apply (ui_oidc _ _ HU). exists v. simpl in Hs. destruct Hs as (Hv & Hs). split_and!; [done|done|].
    apply same_identity_key; [done|]. by split.
  - destruct (st_byOIDC s !! oidc_of u) as [id|] eqn:E; [|done]. apply (ui_oidc _ _ HU) in E as (v & Hv & Ho & Hk).
    apply elem_of_map_to_list in Hv. apply list_find_None in Hf. rewrite Forall_forall in Hf. destruct (Hf _ Hv). simpl.
    by apply same_identity_key.
Qed.

(** What a change of the store of users leaves behind. *)
Definition uchanged (spec : AuthErr + gmap string User) A (r : Err + unit) (w : FS unit * Store UserForStorage User) : Prop :=
  match r with
  | inl e => uindexed w.2 A ∧ (io_fault e ∨ ∃ a, e = EAuth a ∧ spec = inl a)
  | inr _ => ∃ A', spec = inr A' ∧ uindexed w.2 A'
  end.

Lemma uchanged_refuse spec e w s A :
  w.2 = s → uindexed s A → spec = inl e → wp (auth_fail (C := UserForStorage) (T := User) (A := unit) e) w (uchanged spec A).
Proof. intros <- HU ->. apply wp_fail. split; [done|]. right. eauto. Qed.

Lemma user_fault e : fault (C := UserForStorage) (T := User) e → io_fault e.
Proof. by intros [He|(n & t & a & Ha & _)]. Qed.

Lemma uindexed_oidc s s' A : st_byOIDC s' = st_byOIDC s → indexed s' A → uindexed s A → uindexed s' A.
Proof. intros Ho HI [_ HU]. split; [done|]. by rewrite Ho. Qed.

Lemma uindexed_put s s' A id u :
  uindexed s A → indexed s' (<[id := k_norm u]> A) →
  (∀ key i, st_byOIDC s' !! key = Some i ↔ (i = id ∧ has_oidc u = true ∧ oidc_of u = key) ∨ (i ≠ id ∧ st_byOIDC s !! key = Some i)) →
  uindexed s' (<[id := k_norm u]> A).
Proof.
  intros HU HI Ho. split; [done|]. intros key i. rewrite Ho, (ui_oidc _ _ HU).
  assert (has_oidc (k_norm u) = has_oidc u ∧ oidc_of (k_norm u) = oidc_of u) as [E1 E2] by done.
  destruct (decide (i = id)) as [->|Hne].
  - rewrite lookup_insert_eq. split; [|naive_solver]. intros [(_ & H2 & H3)|[? _]]; [|done]. exists (k_norm u). by rewrite E1, E2.
  - rewrite lookup_insert_ne by done. naive_solver.
Qed.

Lemma UserStore_Create_changes u w A : uindexed w.2 A → wp (UserStore_Create u) w (uchanged (spec_user_create u A) A).
Proof.
  intros HU. pose proof (ui_indexed _ _ HU) as HR. unfold spec_user_create, spec_create, UserStore_Create.
  change (k_ID (C := UserForStorage) u) with (us_ID u). change (k_Name (C := UserForStorage) u) with (us_Username u).
  destruct (String.eqb_spec (us_ID u) "") as [|Hid]; [by apply (uchanged_refuse _ _ _ w.2)|].
  destruct (String.eqb_spec (us_Username u) "") as [|Hn]; [by apply (uchanged_refuse _ _ _ w.2)|].
  apply wp_bind, wp_sget. rewrite <-(rep_id_of_name _ _ _ HR).
  destruct (id_of_name (us_Username u) A) as [i|] eqn:Hi;
    [apply (uchanged_refuse _ _ _ w.2); [done..|]; by rewrite (bool_decide_true (_ ∨ _)) by eauto|].
  apply wp_bind, wp_sget. rewrite (rep_byID _ _ HR).
  destruct (A !! us_ID u) as [v|] eqn:Hv;
    [apply (uchanged_refuse _ _ _ w.2); [done..|]; by rewrite (bool_decide_true (_ ∨ _)) by eauto|].
  rewrite (bool_decide_false (is_Some None ∨ is_Some None)) by (intros [[? ?]|[? ?]]; done). cbn [fmap option_fmap option_map].
  rewrite bool_decide_false by (intros [? ?]; done). apply wp_bind, wp_sget. rewrite <-(id_of_identity_index _ _ _ HU).
  destruct (has_oidc u && bool_decide (is_Some (id_of_identity u A))) eqn:Hclash; [by apply (uchanged_refuse _ _ _ w.2)|].
  apply wp_bind, wp_writeToFile; [|intros fs e He; split; [done|left; by apply user_fault]]. intros fs f c Hf Hc. apply wp_supd.
  eexists. split; [done|]. apply (uindexed_put w.2); [done| |].
  - apply (indexed_put w.2 _ A _ _ f c HR); try done; simpl.
    + intros i. case_decide; subst; [by rewrite lookup_insert_eq|]. by rewrite lookup_insert_ne by done.
    + intros n i. rewrite lookup_insert_Some. assert (st_byName w.2 !! us_Username u = None) by (by rewrite <-(rep_id_of_name _ _ _ HR)).
      split; [|naive_solver congruence]. intros [[<- <-]|[Hne Hb]]; [by left|]. right. split; [|done]. intros ->.
      apply (rep_byName _ _ HR) in Hb as (x & Hx & _). congruence.
  - intros key i. simpl. assert (st_byOIDC w.2 !! key = Some i → i ≠ us_ID u) as Hne
      by (intros (x & Hx & _)%(ui_oidc _ _ HU) ->; congruence).
    destruct (has_oidc u) eqn:Ho; simpl in *; [|naive_solver].
    rewrite (id_of_identity_index _ _ _ HU) in Hclash. apply bool_decide_eq_false in Hclash. rewrite lookup_insert_Some.
    split; [naive_solver|]. intros [(-> & _ & <-)|[Hi' Hk]]; [by left|]. right. split; [|done]. intros <-. eauto.
Qed.

(** Moving a name and moving it back. *)
Lemma move_name_back old new id (s : Store UserForStorage User) :
  st_byName s !! old = Some id → st_byName s !! new = None → old ≠ new →
  move_name new old id (move_name old new id s) = s.
Proof.
  intros Ho Hn Hne. unfold move_name, set_index. destruct s as [fi he ca bi bn bo]. simpl in *. f_equal.
  rewrite delete_insert_id by (by rewrite lookup_delete_ne). by rewrite insert_delete_id.
Qed.

(** An identity that did not change is the user's own. *)
Lemma identity_clash_test s A u old :
  uindexed s A → A !! us_ID u = Some old →
  negb (String.eqb (oidc_of old) (oidc_of u)) &&
    (has_oidc u && match id_of_identity u A with Some i => negb (String.eqb i (us_ID u)) | None => false end) = identity_clash u A.
Proof.
  intros HU Hold. unfold identity_clash. destruct (String.eqb_spec (oidc_of old) (oidc_of u)) as [E|]; [|done]. simpl.
  destruct (has_oidc u) eqn:Ho; [|done]. apply oidcIdentityKey_inj in E as [Ei Es].
  assert (st_byOIDC s !! oidc_of u = Some (us_ID u)) as Hk.
  { apply (ui_oidc _ _ HU). exists old. unfold has_oidc, oidc_of in *. by rewrite Ei, Es. }
  rewrite (id_of_identity_index _ _ _ HU), Hk, String.eqb_refl. done.
Qed.

(** The identities of the other users stay when those of one user change. *)
Definition oidc_put (s : Store UserForStorage User) (u : User) (m : gmap string string) : Prop :=
  ∀ key i, m !! key = Some i ↔ (i = us_ID u ∧ has_oidc u = true ∧ oidc_of u = key) ∨ (i ≠ us_ID u ∧ st_byOIDC s !! key = Some i).

Lemma oidc_own s A u old :
  uindexed s A → A !! us_ID u = Some old →
  ∀ key, st_byOIDC s !! key = Some (us_ID u) ↔ has_oidc old = true ∧ oidc_of old = key.
Proof. intros HU Hold key. rewrite (ui_oidc _ _ HU). naive_solver. Qed.

Lemma oidc_kept s A u old :
  uindexed s A → A !! us_ID u = Some old → oidc_of old = oidc_of u → oidc_put s u (st_byOIDC s).
Proof.
  intros HU Hold Ho key i. pose proof (oidc_own _ _ _ _ HU Hold key) as Hmine.
  assert (has_oidc u = has_oidc old) as Hh by (apply oidcIdentityKey_inj in Ho as [Ei Es]; unfold has_oidc; by rewrite Ei, Es).
  rewrite Hh. destruct (decide (i = us_ID u)) as [->|Hne]; [rewrite Hmine, Ho|]; naive_solver.
Qed.

Lemma oidc_moved s A u old :
  uindexed s A → A !! us_ID u = Some old → identity_clash u A = false →
  oidc_put s u (let removed := if has_oidc old then delete (oidc_of old) (st_byOIDC s) else st_byOIDC s in
                if has_oidc u then <[oidc_of u := us_ID u]> removed else removed).
Proof.
  intros HU Hold Hcl. pose proof (oidc_own _ _ _ _ HU Hold) as Hmine.
  assert (∀ key i, (if has_oidc old then delete (oidc_of old) (st_byOIDC s) else st_byOIDC s) !! key = Some i ↔
    i ≠ us_ID u ∧ st_byOIDC s !! key = Some i) as Hrem.
  { intros key i. destruct (has_oidc old) eqn:Hho.
    - rewrite lookup_delete_Some. split.
      + intros [Hk Hi]. split; [|done]. intros ->. apply Hmine in Hi as [_ Hi]. done.
      + intros [Hi Hk]. split; [|done]. intros <-. assert (st_byOIDC s !! oidc_of old = Some (us_ID u)) by (by apply Hmine). congruence.
    - split; [|naive_solver]. intros Hi. split; [|done]. intros ->. apply Hmine in Hi as [? _]. congruence. }
  intros key i. cbv zeta. unfold identity_clash in Hcl. rewrite (id_of_identity_index _ _ _ HU) in Hcl.
  destruct (has_oidc u) eqn:Hou; [|rewrite Hrem; naive_solver]. simpl in Hcl. rewrite lookup_insert_Some, Hrem. split; [naive_solver|].
  intros [(-> & _ & <-)|[Hi Hk]]; [by left|]. right. split; [|done]. intros <-. rewrite Hk in Hcl.
  apply negb_false_iff, String.eqb_eq in Hcl. done.
Qed.

Lemma UserStore_Update_changes u w A : uindexed w.2 A → wp (UserStore_Update u) w (uchanged (spec_user_update u A) A).
Proof.
  intros HU. pose proof (ui_indexed _ _ HU) as HR. unfold spec_user_update, spec_update, UserStore_Update.
  change (k_ID (C := UserForStorage) u) with (us_ID u). change (k_Name (C := UserForStorage) u) with (us_Username u).
  destruct (String.eqb_spec (us_ID u) "") as [|Hid]; [by apply (uchanged_refuse _ _ _ w.2)|].
  destruct (String.eqb_spec (us_Username u) "") as [|Hn]; [by apply (uchanged_refuse _ _ _ w.2)|].
  apply wp_bind, wp_sget. rewrite (rep_byID _ _ HR). destruct (A !! us_ID u) as [old|] eqn:Hold; [|by apply (uchanged_refuse _ _ _ w.2)].
  destruct (rep_object _ _ HR _ _ Hold) as (_ & _ & _ & Hd). cbn [fmap option_fmap option_map].
  apply wp_bind, (wp_loadFromFile _ old); [done| |intros fs e He; split; [done|by left]]. intros fs.
  apply wp_bind, wp_sget. cbn [snd]. rewrite <-(rep_id_of_name _ _ _ HR).
  pose proof (update_name_free w.2 A u old HR Hold) as Hclash.
  change (k_ID (C := UserForStorage) u) with (us_ID u) in Hclash.
  change (k_Name (C := UserForStorage)) with us_Username in Hclash.
  destruct (negb (String.eqb (us_Username old) (us_Username u)) && _) eqn:Hc0.
  { destruct Hclash as (i & Hi1 & Hi2). apply (uchanged_refuse _ _ _ w.2); [done..|]. by rewrite Hi1, Hi2. }
  destruct Hclash as [-> Hfree]. clear Hc0.
  set (renamed := negb (String.eqb (us_Username old) (us_Username u))).
  set (s1 := if renamed then move_name (us_Username old) (us_Username u) (us_ID u) w.2 else w.2).
  apply wp_bind. assert (∀ Q, Q (inr tt) (fs, s1) → wp (if renamed then supd (move_name (us_Username old) (us_Username u) (us_ID u)) else ret tt) (fs, w.2) Q) as Hstep
    by (intros Q HQ; subst s1; destruct renamed; done).
  apply Hstep. clear Hstep.
  assert (∀ (X : Type) fs (k : Op (FS unit * Store UserForStorage User) X) Q, wp k (fs, w.2) Q →
    wp ((if renamed then supd (move_name (us_Username u) (us_Username old) (us_ID u)) else ret tt) ;* k) (fs, s1) Q) as Hback.
  { intros X fs1 k Q HQ. apply wp_bind. subst s1 renamed. destruct (String.eqb_spec (us_Username old) (us_Username u)) as [|Hne]; simpl; [done|].
    apply wp_supd. cbn [fst snd]. rewrite move_name_back; [done| | |done].
    - apply (rep_byName _ _ HR). eauto.
    - destruct (st_byName w.2 !! us_Username u) as [j|] eqn:E; [|done]. apply (rep_byName _ _ HR) in E as (v & Hv & Hvn).
      change (us_Username v = us_Username u) in Hvn. rewrite (Hfree j v Hv Hvn) in Hv. congruence. }
  apply wp_bind, wp_sget. cbn [snd].
  assert (st_byOIDC s1 = st_byOIDC w.2) as Hs1 by (subst s1; by destruct renamed). rewrite Hs1, <-(id_of_identity_index _ _ _ HU).
  rewrite (identity_clash_test w.2 A u old HU Hold). destruct (identity_clash u A) eqn:Hcl.
  { apply Hback. by apply (uchanged_refuse _ _ _ w.2). }
  apply wp_bind, wp_try, wp_writeToFile.
  2:{ intros fs1 e He. apply Hback, wp_fail. split; [done|]. left. by apply user_fault. }
  intros fs1 f c Hf Hc. set (s2 := set_file (filePath (us_ID u)) f (fs, s1).2).
  assert (∀ m, indexed (set_index (st_byID s2) (st_byName s2) m s2) (<[us_ID u := k_norm u]> A)) as HI.
  { intros m. apply (indexed_overwrite w.2 _ A (us_ID u) u old f c HR Hold); try done; subst s2 s1 renamed; simpl;
      by destruct (String.eqb (us_Username old) (us_Username u)). }
  assert (∀ m, oidc_put w.2 u m → uchanged (inr (<[us_ID u := k_norm u]> A)) A (inr tt) (fs1, set_index (st_byID s2) (st_byName s2) m s2)) as Hend.
  { intros m Hm. eexists. split; [done|]. exact (uindexed_put w.2 _ A _ u HU (HI m) Hm). }
  destruct (String.eqb_spec (oidc_of old) (oidc_of u)) as [Ho|Ho]; simpl.
  - apply wp_ret. replace s2 with (set_index (st_byID s2) (st_byName s2) (st_byOIDC w.2) s2)
      by (subst s2 s1; by destruct renamed, w as [? []]). by apply Hend, (oidc_kept w.2 A u old).
  - apply wp_supd. cbn [fst snd]. assert (st_byOIDC s2 = st_byOIDC w.2) as -> by (by subst s2). by apply Hend, (oidc_moved w.2 A u old).
Qed.

Lemma UserStore_Delete_changes id w A : uindexed w.2 A → wp (UserStore_Delete id) w (uchanged (spec_delete id A) A).
Proof.
  intros HU. pose proof (ui_indexed _ _ HU) as HR. unfold spec_delete, UserStore_Delete.
  destruct (String.eqb_spec id "") as [|_]; [by apply (uchanged_refuse _ _ _ w.2)|].
  apply wp_bind, wp_sget. rewrite (rep_byID _ _ HR). destruct (A !! id) as [u|] eqn:Hu; [|by apply (uchanged_refuse _ _ _ w.2)].
  destruct (rep_object _ _ HR _ _ Hu) as (Hid & _ & _ & Hd). cbn [fmap option_fmap option_map].
  apply wp_bind, wp_try, (wp_loadFromFile _ u); [done| |].
  2:{ intros fs e [-> He]. apply wp_bind, wp_fail. split; [done|]. by left. }
  intros fs. apply wp_bind, wp_ret, wp_bind, wp_bind, wp_ssys; [|intros fs1 e He; split; [done|by left]]. intros fs1. apply wp_supd.
  apply wp_bind, wp_scall. intros fs2 n. apply wp_bind, wp_scall. intros fs3 m. apply wp_supd. eexists. split; [done|]. split.
  - apply (indexed_remove w.2 _ A id HR); [done|..]; simpl.
    + intros p Hp. by rewrite lookup_delete_ne by done.
    + intros i. case_decide; subst; [by rewrite lookup_delete_eq|]. by rewrite lookup_delete_ne by done.
    + intros k i. rewrite lookup_delete_Some, (rep_byName _ _ HR). split.
      * intros (Hn & v & Hv & Hvn). split; [|eauto]. intros ->. naive_solver.
      * intros (Hi & v & Hv & Hvn). split; [|eauto]. intros E. subst k. by apply Hi, (rep_unique w.2 A i id v u HR).
  - intros key i. simpl. setoid_rewrite lookup_delete_Some.
    assert (∀ key, st_byOIDC w.2 !! key = Some id ↔ has_oidc u = true ∧ oidc_of u = key) as Hmine
      by (intros k; rewrite (ui_oidc _ _ HU); naive_solver).
    assert ((if has_oidc u then delete (oidc_of u) (st_byOIDC w.2) else st_byOIDC w.2) !! key = Some i ↔
      i ≠ id ∧ st_byOIDC w.2 !! key = Some i) as ->.
    { destruct (has_oidc u) eqn:Hou.
      - rewrite lookup_delete_Some. split.
        + intros [Hk Hi]. split; [|done]. intros ->. by apply Hmine in Hi as [_ Hi].
        + intros [Hi Hk]. split; [|done]. intros <-. assert (st_byOIDC w.2 !! oidc_of u = Some id) by (by apply Hmine). congruence.
      - split; [|naive_solver]. intros Hi. split; [|done]. intros ->. apply Hmine in Hi as [? _]. congruence. }
    rewrite (ui_oidc _ _ HU). naive_solver.
Qed.

(** *** Sequences *)
Inductive UserOp := UCreate (u : User) | UUpdate (u : User) | UDelete (id : string).

Definition run_user_op (o : UserOp) : Op (FS unit * Store UserForStorage User) unit :=
  match o with
  | UCreate u => UserStore_Create u
  | UUpdate u => UserStore_Update u
  | UDelete id => UserStore_Delete id
  end.

Definition spec_user_op (o : UserOp) A : AuthErr + gmap string User :=
  match o with
  | UCreate u => spec_user_create u A
  | UUpdate u => spec_user_update u A
  | UDelete id => spec_delete id A
  end.

(** The map after a change, and the answer to it. *)
Inductive user_step A (o : UserOp) : Err + unit → gmap string User → Prop :=
  | user_step_done A' : spec_user_op o A = inr A' → user_step A o (inr tt) A'
  | user_step_refused a : spec_user_op o A = inl a → user_step A o (inl (EAuth a)) A
  | user_step_fault e : io_fault e → user_step A o (inl e) A.

Fixpoint run_user_ops (l : list UserOp) (w : FS unit * Store UserForStorage User) :
    list (Err + unit) * (FS unit * Store UserForStorage User) :=
  match l with
  | [] => ([], w)
  | o :: l' =>
      let '(r, w1) := run_user_op o w in
      let '(rs, w2) := run_user_ops l' w1 in (r :: rs, w2)
  end.

Inductive user_steps : gmap string User → list UserOp → list (Err + unit) → gmap string User → Prop :=
  | user_steps_nil A : user_steps A [] [] A
  | user_steps_cons A o r A1 l rs A2 : user_step A o r A1 → user_steps A1 l rs A2 → user_steps A (o :: l) (r :: rs) A2.

Lemma run_user_op_refines o w A :
  uindexed w.2 A → wp (run_user_op o) w (λ r w', ∃ A', user_step A o r A' ∧ uindexed w'.2 A').
Proof.
  intros HU. assert (wp (run_user_op o) w (uchanged (spec_user_op o A) A)) as Ho
    by (destruct o; [by apply UserStore_Create_changes|by apply UserStore_Update_changes|by apply UserStore_Delete_changes]).
  eapply wp_mono; [exact Ho|]. intros [e|[]] w'.
  - intros [HU' [He|(a & -> & Ha)]]; exists A; (split; [|done]); by constructor.
  - intros (A' & HA & HU'). exists A'. split; [|done]. by constructor.
Qed.

(** C22. In every sequence of creations, updates and deletions of users, whatever system
    calls fail, the store answers and changes as a map of users in which no two share a
    name or an OIDC identity, and its three indexes always agree with the files: an
    update that is refused for its identity, or whose write fails after the name was
    moved, puts the name back. *)
Theorem user_store_refines l fs :
  ∃ A, user_steps ∅ l (run_user_ops l (fs, Store_empty)).1 A ∧ uindexed (run_user_ops l (fs, Store_empty)).2.2 A.
Proof.
  assert (∀ l w A, uindexed w.2 A → ∃ A', user_steps A l (run_user_ops l w).1 A' ∧ uindexed (run_user_ops l w).2.2 A') as Hgen.
  { clear. intros l. induction l as [|o l IH]; intros w A HU; simpl; [exists A; split; [constructor|done]|].
    pose proof (run_user_op_refines o w A HU) as Ho. unfold wp in Ho. destruct (run_user_op o w) as [r w1]. simpl in Ho.
    destruct Ho as (A1 & Ho & HU1). specialize (IH w1 A1 HU1). destruct (run_user_ops l w1) as [rs w2].
    destruct IH as (A2 & H2 & HU2). exists A2. split; [by econstructor|done]. }
  apply Hgen. split; [apply rep_empty|]. intros key id. simpl. rewrite lookup_empty. split; [done|].
  intros (u & Hu & _). by rewrite lookup_empty in Hu.
Qed.
End UserLaws.
