(* ===== verification/AuthService.v ===== *)
(** * The authentication service (service/auth/service.go)

    Logins, tokens, users, API keys and webhooks on top of the three stores.  What a
    store returns is a pointer, and the service changes the object behind it before it
    writes it: the objects are those of the stores, so a change is seen by whoever reads
    the object from the cache.

    Passwords, keys and tokens are hashed by bcrypt, sessions signed by a JWT library,
    and webhook bodies signed by HMAC-SHA256: classes stand for them, with what they
    promise stated where a theorem needs it.  [aw_compared] records the hashes that
    bcrypt compared a password with.  The operations of one service run one after the
    other. *)

From stdpp Require Import base strings list gmap.
From Stdlib Require Import ZArith Lia Ascii.
From S2P Require Import Prelude GoStrings QueueName FileSys AuthData AuthStore.

Open Scope op_scope.

(** ** What the service calls *)

(** golang.org/x/crypto/bcrypt: the hash of a password, with the salt drawn at a call. *)
Class Bcrypt := {
  GenerateFromPassword : nat → string → Z → option string;
  CompareHashAndPassword : string → string → bool;
}.

(** crypto/rand and google/uuid, at a call. *)
Class Random := {
  rand_Read : nat → nat → option string;
  uuid_New : nat → string;
}.

(** crypto/hmac over SHA-256: key and message. *)
Class Mac := { hmac_sha256 : string → string → string }.

(** *** golang-jwt *)
Record Claims := mkClaims {
  cl_Subject : string;
  cl_IssuedAt : Time;
  cl_ExpiresAt : Time;
  cl_UserID : string;
  cl_Username : string;
  cl_Role : Role;
}.

Inductive SigningMethod := SigningMethodHMAC (bits : Z) | OtherSigningMethod (alg : string).
Definition SigningMethodHS256 : SigningMethod := SigningMethodHMAC 256.

(** [ParseWithClaims]: the claims and [token.Valid], or an error, which may be that the
    token has expired. *)
Inductive Parsed := ParseOk (c : Claims) (valid : bool) | ParseExpired | ParseError.

Class Jwt := {
  SignedString : SigningMethod → string → Claims → option string;
  ParseWithClaims : string → (SigningMethod → option string) → Time → Parsed;
}.

(** Dates of a token are whole seconds. *)
Definition NewNumericDate (t : Time) : Time := Truncate t Second.

(** ** The service *)
Definition defaultBcryptCost : Z := 12.
Definition minPasswordLength : nat := 8.
Definition defaultTokenTTL : Duration := (24 * Hour)%Z.
Definition apiKeyPrefix : string := "dagu_".
Definition apiKeyRandomBytes : nat := 32.
Definition apiKeyPrefixLength : nat := 8.
Definition webhookTokenPrefix : string := "dagu_wh_".
Definition webhookTokenRandomBytes : nat := 32.
Definition webhookTokenPrefixLength : nat := 12.
Definition webhookHMACSecretRandomBytes : nat := 32.
Definition dummyHash : string := "$2a$12$K8gHXqrFdFvMwJBG0VlJGuAGz3FwBmTm8xnNQblN2tCxrQgPLmwHa".

Record Config := mkConfig { cf_TokenSecret : TokenSecret; cf_TokenTTL : Duration; cf_BcryptCost : Z }.

(** The stores of keys and webhooks may be missing. *)
Record Service := mkService { sv_config : Config; sv_apiKeyStore : bool; sv_webhookStore : bool }.

Definition New_Service (config : Config) (apiKeys webhooks : bool) : Service :=
  let ttl := if (cf_TokenTTL config <=? 0)%Z then defaultTokenTTL else cf_TokenTTL config in
  let cost := if (cf_BcryptCost config <=? 0)%Z then defaultBcryptCost else cf_BcryptCost config in
  mkService (mkConfig (cf_TokenSecret config) ttl cost) apiKeys webhooks.

Record AuthWorld := mkAuthWorld {
  aw_fs : FS unit;
  aw_users : Store UserForStorage User;
  aw_keys : Store APIKeyForStorage APIKey;
  aw_hooks : Store WebhookForStorage Webhook;
  aw_compared : list string;
}.

Abbreviation AOp A := (Op AuthWorld A).

Definition set_users (p : FS unit * Store UserForStorage User) (w : AuthWorld) : AuthWorld :=
  mkAuthWorld p.1 p.2 (aw_keys w) (aw_hooks w) (aw_compared w).
Definition set_keys (p : FS unit * Store APIKeyForStorage APIKey) (w : AuthWorld) : AuthWorld :=
  mkAuthWorld p.1 (aw_users w) p.2 (aw_hooks w) (aw_compared w).
Definition set_hooks (p : FS unit * Store WebhookForStorage Webhook) (w : AuthWorld) : AuthWorld :=
  mkAuthWorld p.1 (aw_users w) (aw_keys w) p.2 (aw_compared w).

Definition users {A} (m : Op (FS unit * Store UserForStorage User) A) : AOp A := zoom (λ w, (aw_fs w, aw_users w)) set_users m.
Definition keys {A} (m : Op (FS unit * Store APIKeyForStorage APIKey) A) : AOp A := zoom (λ w, (aw_fs w, aw_keys w)) set_keys m.
Definition hooks {A} (m : Op (FS unit * Store WebhookForStorage Webhook) A) : AOp A := zoom (λ w, (aw_fs w, aw_hooks w)) set_hooks m.

Definition afail {A} (e : AuthErr) : AOp A := fail (EAuth e).

(** *** Objects *)
Definition User_zero : User := mkUser "" "" "" "" None 0 0 "" "" "" false.
Definition APIKey_zero : APIKey := mkAPIKey "" "" "" "" None "" "" 0 0 "" None.
Definition Webhook_zero : Webhook := mkWebhook "" "" "" "" false 0 0 "" None "" "" "" None.

Definition user_at (l : nat) : AOp User := gets (λ w, default User_zero (st_heap (aw_users w) !! l)).
Definition key_at (l : nat) : AOp APIKey := gets (λ w, default APIKey_zero (st_heap (aw_keys w) !! l)).
Definition hook_at (l : nat) : AOp Webhook := gets (λ w, default Webhook_zero (st_heap (aw_hooks w) !! l)).

(** An assignment to fields of the object behind a pointer. *)
Definition set_user (l : nat) (f : User → User) : AOp unit :=
  modify (λ w, set_users (aw_fs w, set_heap (alter f l (st_heap (aw_users w))) (aw_users w)) w).
Definition set_key (l : nat) (f : APIKey → APIKey) : AOp unit :=
  modify (λ w, set_keys (aw_fs w, set_heap (alter f l (st_heap (aw_keys w))) (aw_keys w)) w).
Definition set_hook (l : nat) (f : Webhook → Webhook) : AOp unit :=
  modify (λ w, set_hooks (aw_fs w, set_heap (alter f l (st_heap (aw_hooks w))) (aw_hooks w)) w).

Section Service.
Context `{OS, StoreEnv, Sizes, Encryption, Bcrypt, Random, Mac, Jwt} (svc : Service).

Definition anow : AOp Time := users snow.
Definition acall : AOp nat := users scall.

(** *** Passwords *)
Definition compare_hash (hash password : string) : AOp bool := λ w,
  (inr (CompareHashAndPassword hash password),
   mkAuthWorld (aw_fs w) (aw_users w) (aw_keys w) (aw_hooks w) (aw_compared w ++ [hash])).

Definition hash_password (password : string) : AOp string :=
  let* n := acall in
  match GenerateFromPassword n password (cf_BcryptCost (sv_config svc)) with
  | Some h => ret h
  | None => afail EHashFailed
  end.

Definition validatePassword (password : string) : AOp unit :=
  if (String.length password <? minPasswordLength)%nat then afail ErrWeakPassword else ret tt.

(** [fmt.Errorf("invalid role: %s", role)] *)
Definition check_role (r : Role) : AOp unit := if Role_Valid r then ret tt else afail EInvalidRoleText.

Definition check_access (r : Role) (a : option WorkspaceAccess) : AOp unit :=
  match ValidateWorkspaceAccess r a None with Some e => afail e | None => ret tt end.

Definition Authenticate (username password : string) : AOp nat :=
  let* r := try (users (Store_GetByName username)) in
  match r with
  | inl e =>
      compare_hash dummyHash password ;*
      if bool_decide (e = EAuth ErrUserNotFound ∨ e = EAuth ErrInvalidUsername) then afail ErrInvalidCredentials
      else fail e
  | inr l =>
      let* user := user_at l in
      let* ok := compare_hash (us_PasswordHash user) password in
      if negb ok then afail ErrInvalidCredentials
      else if us_IsDisabled user then afail ErrUserDisabled
      else ret l
  end.

(** *** Tokens *)
Record TokenResult := mkTokenResult { tr_Token : string; tr_ExpiresAt : Time }.

Definition GenerateToken (user : User) : AOp TokenResult :=
  if negb (TokenSecret_IsValid (cf_TokenSecret (sv_config svc))) then afail ErrMissingSecret else
  let* now := anow in
  let expiresAt := AddD now (cf_TokenTTL (sv_config svc)) in
  let claims := mkClaims (us_ID user) (NewNumericDate now) (NewNumericDate expiresAt) (us_ID user) (us_Username user) (us_Role user) in
  match SignedString SigningMethodHS256 (SigningKey (cf_TokenSecret (sv_config svc))) claims with
  | None => afail ESignFailed
  | Some token => ret (mkTokenResult token expiresAt)
  end.

(** The key for a token: only HMAC methods have one. *)
Definition token_key (m : SigningMethod) : option string :=
  match m with
  | SigningMethodHMAC _ => Some (SigningKey (cf_TokenSecret (sv_config svc)))
  | OtherSigningMethod _ => None
  end.

Definition ValidateToken (tokenString : string) : AOp Claims :=
  if negb (TokenSecret_IsValid (cf_TokenSecret (sv_config svc))) then afail ErrMissingSecret else
  let* now := anow in
  match ParseWithClaims tokenString token_key now with
  | ParseExpired => afail ErrTokenExpired
  | ParseError => afail ErrInvalidToken
  | ParseOk claims valid => if valid then ret claims else afail ErrInvalidToken
  end.

Definition GetUserFromToken (tokenString : string) : AOp nat :=
  let* claims := ValidateToken tokenString in
  let* r := try (users (Store_GetByID (cl_UserID claims))) in
  match r with
  | inl e =>
      if bool_decide (e = EAuth ErrUserNotFound ∨ e = EAuth ErrInvalidUserID) then afail ErrInvalidToken else fail e
  | inr l =>
      let* user := user_at l in
      if us_IsDisabled user then afail ErrUserDisabled else ret l
  end.

(** *** Users *)
Record CreateUserInput := mkCreateUserInput {
  cu_Username : string; cu_Password : string; cu_Role : Role; cu_WorkspaceAccess : option WorkspaceAccess }.

Definition CreateUser (input : CreateUserInput) : AOp nat :=
  validatePassword (cu_Password input) ;*
  check_role (cu_Role input) ;*
  check_access (cu_Role input) (cu_WorkspaceAccess input) ;*
  let* passwordHash := hash_password (cu_Password input) in
  let* n := acall in
  let* now := anow in
  let user := {| (NewUser (uuid_New n) now (cu_Username input) passwordHash (cu_Role input))
                 with us_WorkspaceAccess := CloneWorkspaceAccess (cu_WorkspaceAccess input) |} in
  users (UserStore_Create user) ;*
  users (salloc user).

Definition GetUser (id : string) : AOp nat := users (Store_GetByID id).
Definition ListUsers : AOp (list nat) := users Store_List.
Definition CountUsers : AOp Z := users UserStore_Count.

Record UpdateUserInput := mkUpdateUserInput {
  uu_Username : option string; uu_Role : option Role; uu_WorkspaceAccess : option WorkspaceAccess;
  uu_Password : option string; uu_IsDisabled : option bool }.

(** An input that is set and not empty. *)
Definition given (s : option string) : option string :=
  match s with Some v => if String.eqb v "" then None else Some v | None => None end.

Definition when {A} (o : option A) (k : A → AOp unit) : AOp unit := match o with Some a => k a | None => ret tt end.

Definition UpdateUser (id : string) (input : UpdateUserInput) : AOp nat :=
  let* l := users (Store_GetByID id) in
  when (given (uu_Username input)) (λ name, set_user l (λ u, {| u with us_Username := name |})) ;*
  when (uu_Role input) (λ r, check_role r ;* set_user l (λ u, {| u with us_Role := r |})) ;*
  when (uu_WorkspaceAccess input) (λ a, set_user l (λ u, {| u with us_WorkspaceAccess := CloneWorkspaceAccess (Some a) |})) ;*
  let* u := user_at l in
  check_access (us_Role u) (us_WorkspaceAccess u) ;*
  when (given (uu_Password input)) (λ p,
    validatePassword p ;*
    let* h := hash_password p in
    set_user l (λ u, {| u with us_PasswordHash := h |})) ;*
  when (uu_IsDisabled input) (λ b, set_user l (λ u, {| u with us_IsDisabled := b |})) ;*
  let* now := anow in
  set_user l (λ u, {| u with us_UpdatedAt := now |}) ;*
  let* u := user_at l in
  users (UserStore_Update u) ;*
  ret l.

Definition DeleteUser (id currentUserID : string) : AOp unit :=
  if String.eqb id currentUserID then afail ErrCannotDeleteSelf else users (UserStore_Delete id).

(** The new password is set on the object and the object is written. *)
Definition store_password (l : nat) (newPassword : string) : AOp unit :=
  validatePassword newPassword ;*
  let* h := hash_password newPassword in
  set_user l (λ u, {| u with us_PasswordHash := h |}) ;*
  let* now := anow in
  set_user l (λ u, {| u with us_UpdatedAt := now |}) ;*
  let* u := user_at l in
  users (UserStore_Update u).

Definition ChangePassword (userID oldPassword newPassword : string) : AOp unit :=
  let* l := users (Store_GetByID userID) in
  let* u := user_at l in
  let* ok := compare_hash (us_PasswordHash u) oldPassword in
  if negb ok then afail ErrPasswordMismatch else store_password l newPassword.

Definition ResetPassword (userID newPassword : string) : AOp unit :=
  let* l := users (Store_GetByID userID) in
  store_password l newPassword.

(** *** API keys *)
Record SecretParts := mkSecretParts { sp_full : string; sp_prefix : string; sp_hash : string }.

(** [generateAPIKey] and [generateWebhookToken]: a prefix, random bytes in base 58, the
    first characters for display and the hash of the whole. *)
Definition generate_secret (bytes : nat) (prefix : string) (prefixLength : nat) : AOp SecretParts :=
  let* n := acall in
  match rand_Read n bytes with
  | None => afail ERandomFailed
  | Some randomBytes =>
      let full := (prefix ++ Base58Encode randomBytes)%string in
      let keyPrefix := if (prefixLength <=? String.length full)%nat then Take prefixLength full else full in
      let* h := hash_password full in
      ret (mkSecretParts full keyPrefix h)
  end.

Definition generateAPIKey : AOp SecretParts := generate_secret apiKeyRandomBytes apiKeyPrefix apiKeyPrefixLength.

Definition lift_err {A} (r : AuthErr + A) : AOp A := match r with inl e => afail e | inr a => ret a end.

Record CreateAPIKeyInput := mkCreateAPIKeyInput {
  ci_Name : string; ci_Description : string; ci_Role : Role; ci_WorkspaceAccess : option WorkspaceAccess }.

(** The key and the secret, which is returned once. *)
Definition CreateAPIKey (input : CreateAPIKeyInput) (creatorID : string) : AOp (nat * string) :=
  if negb (sv_apiKeyStore svc) then afail ErrAPIKeyNotConfigured else
  if String.eqb (ci_Name input) "" then afail ErrInvalidAPIKeyName else
  check_role (ci_Role input) ;*
  check_access (ci_Role input) (ci_WorkspaceAccess input) ;*
  if String.eqb creatorID "" then afail ErrInvalidCreatorID else
  let* parts := generateAPIKey in
  let* n := acall in
  let* now := anow in
  let* apiKey := lift_err (NewAPIKey (uuid_New n) now (ci_Name input) (ci_Description input) (ci_Role input)
                             (sp_hash parts) (sp_prefix parts) creatorID) in
  let apiKey := {| apiKey with ak_WorkspaceAccess := CloneWorkspaceAccess (ci_WorkspaceAccess input) |} in
  keys (Store_Create apiKey) ;*
  let* l := keys (salloc apiKey) in
  ret (l, sp_full parts).

Definition GetAPIKey (id : string) : AOp nat :=
  if negb (sv_apiKeyStore svc) then afail ErrAPIKeyNotConfigured else keys (Store_GetByID id).
Definition ListAPIKeys : AOp (list nat) :=
  if negb (sv_apiKeyStore svc) then afail ErrAPIKeyNotConfigured else keys Store_List.
Definition DeleteAPIKey (id : string) : AOp unit :=
  if negb (sv_apiKeyStore svc) then afail ErrAPIKeyNotConfigured else keys (Store_Delete id).

Record UpdateAPIKeyInput := mkUpdateAPIKeyInput {
  ka_Name : option string; ka_Description : option string; ka_Role : option Role; ka_WorkspaceAccess : option WorkspaceAccess }.

Definition UpdateAPIKey (id : string) (input : UpdateAPIKeyInput) : AOp nat :=
  if negb (sv_apiKeyStore svc) then afail ErrAPIKeyNotConfigured else
  let* l := keys (Store_GetByID id) in
  when (given (ka_Name input)) (λ name, set_key l (λ k, {| k with ak_Name := name |})) ;*
  when (ka_Description input) (λ d, set_key l (λ k, {| k with ak_Description := d |})) ;*
  when (ka_Role input) (λ r, check_role r ;* set_key l (λ k, {| k with ak_Role := r |})) ;*
  when (ka_WorkspaceAccess input) (λ a, set_key l (λ k, {| k with ak_WorkspaceAccess := CloneWorkspaceAccess (Some a) |})) ;*
  let* k := key_at l in
  check_access (ak_Role k) (ak_WorkspaceAccess k) ;*
  let* now := anow in
  set_key l (λ k, {| k with ak_UpdatedAt := now |}) ;*
  let* k := key_at l in
  keys (Store_Update k) ;*
  ret l.

(** The first key whose hash is the one of the secret; keys with another prefix are
    skipped without a comparison. *)
Fixpoint match_key (candidatePrefix keySecret : string) (ls : list nat) : AOp nat :=
  match ls with
  | [] => afail ErrInvalidAPIKey
  | l :: ls' =>
      let* key := key_at l in
      if negb (String.eqb candidatePrefix "") && negb (String.eqb (ak_KeyPrefix key) candidatePrefix)
      then match_key candidatePrefix keySecret ls'
      else
        let* ok := compare_hash (ak_KeyHash key) keySecret in
        if ok then ignore (keys (Store_UpdateLastUsed (ak_ID key))) ;* ret l
        else match_key candidatePrefix keySecret ls'
  end.

Definition ValidateAPIKey (keySecret : string) : AOp nat :=
  if negb (sv_apiKeyStore svc) then afail ErrAPIKeyNotConfigured else
  if negb (HasPrefix keySecret apiKeyPrefix) then afail ErrInvalidAPIKey else
  let* ls := keys Store_List in
  let candidatePrefix := if (apiKeyPrefixLength <=? String.length keySecret)%nat then Take apiKeyPrefixLength keySecret else "" in
  match_key candidatePrefix keySecret ls.

(** *** Webhooks *)
Definition generateWebhookToken : AOp SecretParts :=
  generate_secret webhookTokenRandomBytes webhookTokenPrefix webhookTokenPrefixLength.

Definition generateWebhookHMACSecret : AOp string :=
  let* n := acall in
  match rand_Read n webhookHMACSecretRandomBytes with
  | None => afail ERandomFailed
  | Some randomBytes => ret (Base58Encode randomBytes)
  end.

Definition CreateWebhook (dagName creatorID : string) : AOp (nat * string) :=
  if negb (sv_webhookStore svc) then afail ErrWebhookNotConfigured else
  if String.eqb dagName "" then afail ErrInvalidWebhookDAGName else
  if String.eqb creatorID "" then afail ErrInvalidCreatorID else
  let* parts := generateWebhookToken in
  let* n := acall in
  let* now := anow in
  let* webhook := lift_err (NewWebhook (uuid_New n) now dagName (sp_hash parts) (sp_prefix parts) creatorID) in
  hooks (Store_Create webhook) ;*
  let* l := hooks (salloc webhook) in
  ret (l, sp_full parts).

Definition mapWebhookHMACCapabilityError (e : Err) : Err :=
  if bool_decide (e = EAuth ErrWebhookHMACEncryptorRequired) then EAuth ErrWebhookHMACNotSupported else e.

Definition capability {A} (m : AOp A) : AOp A :=
  let* r := try m in match r with inl e => fail (mapWebhookHMACCapabilityError e) | inr a => ret a end.

Definition GetWebhookByDAGName (dagName : string) : AOp nat :=
  if negb (sv_webhookStore svc) then afail ErrWebhookNotConfigured else
  capability (hooks (Store_GetByName dagName)).

Definition ListWebhooks : AOp (list nat) :=
  if negb (sv_webhookStore svc) then afail ErrWebhookNotConfigured else hooks Store_List.
Definition DeleteWebhook (dagName : string) : AOp unit :=
  if negb (sv_webhookStore svc) then afail ErrWebhookNotConfigured else hooks (Store_DeleteByName dagName).

Definition save_hook (l : nat) : AOp unit := let* wh := hook_at l in hooks (Store_Update wh).

Definition RegenerateWebhookToken (dagName : string) : AOp (nat * string) :=
  if negb (sv_webhookStore svc) then afail ErrWebhookNotConfigured else
  let* l := GetWebhookByDAGName dagName in
  let* parts := generateWebhookToken in
  set_hook l (λ h, {| h with wh_TokenHash := sp_hash parts; wh_TokenPrefix := sp_prefix parts |}) ;*
  let* now := anow in
  set_hook l (λ h, {| h with wh_UpdatedAt := now |}) ;*
  save_hook l ;*
  ret (l, sp_full parts).

Definition ToggleWebhook (dagName : string) (enabled : bool) : AOp nat :=
  if negb (sv_webhookStore svc) then afail ErrWebhookNotConfigured else
  let* l := GetWebhookByDAGName dagName in
  set_hook l (λ h, {| h with wh_Enabled := enabled |}) ;*
  let* now := anow in
  set_hook l (λ h, {| h with wh_UpdatedAt := now |}) ;*
  save_hook l ;*
  ret l.

Definition validateWebhookHMACMode (authMode : WebhookAuthMode) (enforcementMode : WebhookHMACEnforcementMode) :
    AuthErr + WebhookHMACEnforcementMode :=
  if String.eqb authMode WebhookAuthModeTokenOnly then inl ErrInvalidWebhookAuthMode
  else if String.eqb authMode WebhookAuthModeTokenAndHMAC then
    if String.eqb enforcementMode "" then inr WebhookHMACEnforcementModeStrict
    else if negb (String.eqb enforcementMode WebhookHMACEnforcementModeStrict) &&
            negb (String.eqb enforcementMode WebhookHMACEnforcementModeObserve)
         then inl ErrInvalidWebhookHMACEnforcementMode
    else inr enforcementMode
  else if String.eqb authMode WebhookAuthModeHMACOnly then
    if String.eqb enforcementMode "" || String.eqb enforcementMode WebhookHMACEnforcementModeStrict
    then inr WebhookHMACEnforcementModeStrict
    else inl ErrInvalidWebhookHMACEnforcementMode
  else inl ErrInvalidWebhookAuthMode.

Definition normalizeWebhookHMACModeForConfigure (webhook : Webhook) (authMode : WebhookAuthMode)
    (enforcementMode : WebhookHMACEnforcementMode) : AuthErr + WebhookHMACEnforcementMode :=
  if negb (String.eqb enforcementMode "") then validateWebhookHMACMode authMode enforcementMode
  else if String.eqb authMode WebhookAuthModeHMACOnly then inr WebhookHMACEnforcementModeStrict
  else
    let current := if String.eqb (wh_HMACEnforcementMode webhook) "" then WebhookHMACEnforcementModeStrict
                   else wh_HMACEnforcementMode webhook in
    validateWebhookHMACMode authMode current.

Definition EnableWebhookHMAC (dagName : string) (authMode : WebhookAuthMode) (enforcementMode : WebhookHMACEnforcementMode) :
    AOp (nat * string) :=
  if negb (sv_webhookStore svc) then afail ErrWebhookNotConfigured else
  if String.eqb authMode WebhookAuthModeTokenOnly then afail ErrInvalidWebhookAuthMode else
  let* enforcementMode := lift_err (validateWebhookHMACMode authMode enforcementMode) in
  let* l := GetWebhookByDAGName dagName in
  let* fullSecret := generateWebhookHMACSecret in
  let* now := anow in
  set_hook l (λ h, {| h with wh_AuthMode := authMode; wh_HMACEnforcementMode := enforcementMode; wh_HMACSecret := fullSecret;
                             wh_HMACSecretGeneratedAt := Some now; wh_UpdatedAt := now |}) ;*
  capability (save_hook l) ;*
  ret (l, fullSecret).

Definition ConfigureWebhookHMAC (dagName : string) (authMode : WebhookAuthMode) (enforcementMode : WebhookHMACEnforcementMode) :
    AOp nat :=
  if negb (sv_webhookStore svc) then afail ErrWebhookNotConfigured else
  if String.eqb authMode WebhookAuthModeTokenOnly then afail ErrInvalidWebhookAuthMode else
  let* l := GetWebhookByDAGName dagName in
  let* h := hook_at l in
  if String.eqb (wh_HMACSecret h) "" then afail ErrWebhookHMACNotConfigured else
  let* enforcementMode := lift_err (normalizeWebhookHMACModeForConfigure h authMode enforcementMode) in
  set_hook l (λ h, {| h with wh_AuthMode := authMode; wh_HMACEnforcementMode := enforcementMode |}) ;*
  let* now := anow in
  set_hook l (λ h, {| h with wh_UpdatedAt := now |}) ;*
  capability (save_hook l) ;*
  ret l.

Definition DisableWebhookHMAC (dagName : string) : AOp nat :=
  if negb (sv_webhookStore svc) then afail ErrWebhookNotConfigured else
  let* l := GetWebhookByDAGName dagName in
  set_hook l (λ h, {| h with wh_AuthMode := WebhookAuthModeTokenOnly; wh_HMACEnforcementMode := ""; wh_HMACSecret := "";
                             wh_HMACSecretGeneratedAt := None |}) ;*
  let* now := anow in
  set_hook l (λ h, {| h with wh_UpdatedAt := now |}) ;*
  save_hook l ;*
  ret l.

Definition RegenerateWebhookHMACSecret (dagName : string) : AOp (nat * string) :=
  if negb (sv_webhookStore svc) then afail ErrWebhookNotConfigured else
  let* l := GetWebhookByDAGName dagName in
  let* h := hook_at l in
  if negb (HMACEnabled h) then afail ErrWebhookHMACNotConfigured else
  let* fullSecret := generateWebhookHMACSecret in
  let* now := anow in
  set_hook l (λ h, {| h with wh_HMACSecret := fullSecret; wh_HMACSecretGeneratedAt := Some now; wh_UpdatedAt := now |}) ;*
  capability (save_hook l) ;*
  ret (l, fullSecret).

(** *** Requests to a webhook *)
Definition validateWebhookTokenAgainst (webhook : Webhook) (token : string) : AOp unit :=
  if negb (HasPrefix token webhookTokenPrefix) then afail ErrInvalidWebhookToken else
  let* ok := compare_hash (wh_TokenHash webhook) token in
  if ok then ret tt else afail ErrInvalidWebhookToken.

Definition validateWebhookHMACSignature (webhook : Webhook) (signature body : string) : AuthErr + unit :=
  if String.eqb (wh_HMACSecret webhook) "" then inl ErrWebhookHMACNotConfigured
  else if String.eqb signature "" then inl ErrMissingWebhookHMACSignature
  else match strip_prefix "sha256=" signature with
       | None => inl ErrInvalidWebhookHMACSignature
       | Some providedHex =>
           if String.eqb providedHex "" then inl ErrInvalidWebhookHMACSignature
           else match hex_DecodeString providedHex with
                | None => inl ErrInvalidWebhookHMACSignature
                | Some provided =>
                    if String.eqb (hmac_sha256 (wh_HMACSecret webhook) body) provided then inr tt
                    else inl ErrInvalidWebhookHMACSignature
                end
       end.

Definition ValidateWebhookToken (dagName token : string) : AOp nat :=
  if negb (sv_webhookStore svc) then afail ErrWebhookNotConfigured else
  if negb (HasPrefix token webhookTokenPrefix) then afail ErrInvalidWebhookToken else
  let* r := try (GetWebhookByDAGName dagName) in
  match r with
  | inl e => if bool_decide (e = EAuth ErrWebhookNotFound) then afail ErrInvalidWebhookToken else fail e
  | inr l =>
      let* webhook := hook_at l in
      let* v := try (validateWebhookTokenAgainst webhook token) in
      match v with
      | inl _ => afail ErrInvalidWebhookToken
      | inr _ =>
          if negb (wh_Enabled webhook) then afail ErrWebhookDisabled
          else ignore (hooks (Store_UpdateLastUsed (wh_ID webhook))) ;* ret l
      end
  end.

Definition AuthorizeWebhookRequest (dagName token signature body : string) : AOp nat :=
  if negb (sv_webhookStore svc) then afail ErrWebhookNotConfigured else
  let* r := try (GetWebhookByDAGName dagName) in
  match r with
  | inl e => if bool_decide (e = EAuth ErrWebhookNotFound) then afail ErrInvalidWebhookToken else fail e
  | inr l =>
      let* webhook := hook_at l in
      if negb (wh_Enabled webhook) then afail ErrWebhookDisabled else
      let mode := EffectiveAuthMode webhook in
      (if String.eqb mode WebhookAuthModeTokenOnly then validateWebhookTokenAgainst webhook token
       else if String.eqb mode WebhookAuthModeTokenAndHMAC then
         validateWebhookTokenAgainst webhook token ;*
         if String.eqb (wh_HMACEnforcementMode webhook) WebhookHMACEnforcementModeObserve then ret tt
         else lift_err (validateWebhookHMACSignature webhook signature body)
       else if String.eqb mode WebhookAuthModeHMACOnly then lift_err (validateWebhookHMACSignature webhook signature body)
       else afail ErrInvalidWebhookAuthMode) ;*
      ignore (hooks (Store_UpdateLastUsed (wh_ID webhook))) ;*
      ret l
  end.
End Service.

(** ** Logins *)
Section Logins.
Context `{OS, StoreEnv, Sizes, Encryption, Bcrypt, Random, Mac, Jwt} (svc : Service).

Lemma wp_let {S A} (m : Op S A) s (Q : Err + A → S → Prop) : wp m s Q → let '(r, s') := m s in Q r s'.
Proof. unfold wp. by destruct (m s). Qed.

Lemma wp_users {A} (m : Op (FS unit * Store UserForStorage User) A) w Q :
  wp m (aw_fs w, aw_users w) (λ r p, Q r (set_users p w)) → wp (users m) w Q.
Proof. exact (wp_zoom _ _ m w Q). Qed.
Lemma wp_keys {A} (m : Op (FS unit * Store APIKeyForStorage APIKey) A) w Q :
  wp m (aw_fs w, aw_keys w) (λ r p, Q r (set_keys p w)) → wp (keys m) w Q.
Proof. exact (wp_zoom _ _ m w Q). Qed.
Lemma wp_hooks {A} (m : Op (FS unit * Store WebhookForStorage Webhook) A) w Q :
  wp m (aw_fs w, aw_hooks w) (λ r p, Q r (set_hooks p w)) → wp (hooks m) w Q.
Proof. exact (wp_zoom _ _ m w Q). Qed.
Lemma wp_compare h p w Q :
  Q (inr (CompareHashAndPassword h p)) (mkAuthWorld (aw_fs w) (aw_users w) (aw_keys w) (aw_hooks w) (aw_compared w ++ [h])) →
  wp (compare_hash h p) w Q.
Proof. done. Qed.

Definition user_obj (w : AuthWorld) (l : nat) : option User := st_heap (aw_users w) !! l.

Lemma spec_get_name_error {C T} `{!StoreKind C T} (s : Store C T) A name a :
  rep s A → spec_get_name name A = inl a → a = k_ErrNotFound ∨ a = k_ErrInvalidName.
Proof.
  intros HR. unfold spec_get_name. destruct (String.eqb name ""); [intros [= <-]; by right|].
  destruct (id_of_name name A) as [id|] eqn:Hi; [|intros [= <-]; by left]. rewrite (rep_id_of_name _ _ _ HR) in Hi.
  apply (rep_byName _ _ HR) in Hi as (t & Ht & _). destruct (rep_object _ _ HR _ _ Ht) as (_ & Hne & _). unfold spec_get.
  destruct (String.eqb_spec id ""); [done|]. by rewrite Ht.
Qed.

(** What a login answers, given who has the name. *)
Definition login_answer (found : AuthErr + User) (password : string) : AuthErr + User :=
  match found with
  | inl _ => inl ErrInvalidCredentials
  | inr u =>
      if CompareHashAndPassword (us_PasswordHash u) password then
        if us_IsDisabled u then inl ErrUserDisabled else inr u
      else inl ErrInvalidCredentials
  end.

End Logins.

(** ** Requests to webhooks *)
Section Requests.
Context `{OS, StoreEnv, Sizes, HE : Encryption, !GcmOk, Bcrypt, Mac} (svc : Service).

Definition hook_obj (w : AuthWorld) (l : nat) : option Webhook := st_heap (aw_hooks w) !! l.

(** A token that the webhook accepts, and a signature of a body. *)
Definition token_ok (h : Webhook) (token : string) : Prop :=
  HasPrefix token webhookTokenPrefix = true ∧ CompareHashAndPassword (wh_TokenHash h) token = true.

Definition signed (h : Webhook) (signature body : string) : Prop :=
  wh_HMACSecret h ≠ "" ∧ ∃ digits, signature = ("sha256=" ++ digits)%string ∧ digits ≠ "" ∧
    hex_DecodeString digits = Some (hmac_sha256 (wh_HMACSecret h) body).

(** Who may trigger the DAG of a webhook. *)
Definition authorized (h : Webhook) (token signature body : string) : Prop :=
  wh_Enabled h = true ∧
  ((EffectiveAuthMode h = WebhookAuthModeTokenOnly ∧ token_ok h token) ∨
   (EffectiveAuthMode h = WebhookAuthModeTokenAndHMAC ∧ token_ok h token ∧
      (wh_HMACEnforcementMode h = WebhookHMACEnforcementModeObserve ∨ signed h signature body)) ∨
   (EffectiveAuthMode h = WebhookAuthModeHMACOnly ∧ signed h signature body)).

Lemma strip_prefix_spec p s t : strip_prefix p s = Some t ↔ s = (p ++ t)%string.
Proof. split; [apply strip_prefix_Some|intros ->; apply strip_prefix_app]. Qed.

Lemma signature_spec h signature body : validateWebhookHMACSignature h signature body = inr tt ↔ signed h signature body.
Proof.
  unfold validateWebhookHMACSignature, signed. destruct (String.eqb_spec (wh_HMACSecret h) "") as [|Hs]; [naive_solver|].
  destruct (String.eqb_spec signature "") as [->|Hn].
  { split; [done|]. intros (_ & d & Hd & _). by apply (f_equal String.length) in Hd. }
  destruct (strip_prefix "sha256=" signature) as [digits|] eqn:E.
  - apply strip_prefix_spec in E. subst signature. split.
    + destruct (String.eqb_spec digits "") as [|Hd]; [done|]. destruct (hex_DecodeString digits) as [b|] eqn:Eh; [|done].
      destruct (String.eqb_spec (hmac_sha256 (wh_HMACSecret h) body) b) as [->|]; [|done]. intros _. split; [done|]. by exists digits.
    + intros (_ & d & Hd & Hne & Hh). assert (strip_prefix "sha256=" ("sha256=" ++ digits) = Some d) as E by (by apply strip_prefix_spec).
      assert (strip_prefix "sha256=" ("sha256=" ++ digits) = Some digits) as E' by (by apply strip_prefix_spec). simplify_eq.
      destruct (String.eqb_spec d ""); [done|]. by rewrite Hh, String.eqb_refl.
  - split; [done|]. intros (_ & d & Hd & _). apply strip_prefix_spec in Hd. congruence.
Qed.
(** The checks compare hashes and nothing else. *)
Definition same_stores (w w' : AuthWorld) : Prop :=
  aw_users w' = aw_users w ∧ aw_keys w' = aw_keys w ∧ aw_hooks w' = aw_hooks w.

Lemma wp_token h token w Q :
  (∀ w', same_stores w w' → token_ok h token → Q (inr tt) w') →
  (∀ w', same_stores w w' → ¬ token_ok h token → Q (inl (EAuth ErrInvalidWebhookToken)) w') →
  wp (validateWebhookTokenAgainst h token) w Q.
Proof.
  intros Hyes Hno. unfold validateWebhookTokenAgainst, token_ok in *. destruct (HasPrefix token webhookTokenPrefix); simpl.
  - apply wp_bind, wp_compare. destruct (CompareHashAndPassword _ _); [by apply wp_ret, Hyes|].
    apply wp_fail, Hno; [done|]. by intros [_ ?].
  - apply wp_fail, Hno; [done|]. by intros [? _].
Qed.

Lemma wp_signature h signature body w Q :
  (signed h signature body → Q (inr tt) w) → (∀ a, ¬ signed h signature body → Q (inl (EAuth a)) w) →
  wp (lift_err (validateWebhookHMACSignature h signature body)) w Q.
Proof.
  intros Hyes Hno. destruct (validateWebhookHMACSignature h signature body) as [a|[]] eqn:E.
  - apply wp_fail, Hno. rewrite <-signature_spec. congruence.
  - apply wp_ret, Hyes. by apply signature_spec.
Qed.

(** The checks of a request, in all modes. *)
Lemma wp_checks h token signature body w Q :
  wh_Enabled h = true →
  (∀ w', same_stores w w' → authorized h token signature body → Q (inr tt) w') →
  (∀ w' a, same_stores w w' → ¬ authorized h token signature body → Q (inl (EAuth a)) w') →
  wp (let mode := EffectiveAuthMode h in
      if String.eqb mode WebhookAuthModeTokenOnly then validateWebhookTokenAgainst h token
      else if String.eqb mode WebhookAuthModeTokenAndHMAC then
        validateWebhookTokenAgainst h token ;*
        if String.eqb (wh_HMACEnforcementMode h) WebhookHMACEnforcementModeObserve then ret tt
        else lift_err (validateWebhookHMACSignature h signature body)
      else if String.eqb mode WebhookAuthModeHMACOnly then lift_err (validateWebhookHMACSignature h signature body)
      else afail ErrInvalidWebhookAuthMode) w Q.
Proof.
  intros Hen Hyes Hno. cbv zeta. unfold authorized in *. destruct (String.eqb_spec (EffectiveAuthMode h) WebhookAuthModeTokenOnly) as [E|E1].
  { rewrite E in *. apply wp_token; intros w' Hs Ht; [apply Hyes|apply Hno]; try done; [auto|]. intros (_ & [[_ ?]|[[? _]|[? _]]]); done. }
  destruct (String.eqb_spec (EffectiveAuthMode h) WebhookAuthModeTokenAndHMAC) as [E|E2].
  { rewrite E in *. apply wp_bind, wp_token; intros w' Hs Ht.
    2:{ apply Hno; [done|]. intros (_ & [[? _]|[(_ & ? & _)|[? _]]]); done. }
    destruct (String.eqb_spec (wh_HMACEnforcementMode h) WebhookHMACEnforcementModeObserve) as [Eo|Eo]; [apply wp_ret, Hyes; [done|naive_solver]|].
    apply wp_signature; [intros Hg; apply Hyes; [done|naive_solver]|]. intros a Hg. apply Hno; [done|].
    intros (_ & [[? _]|[(_ & _ & [?|?])|[? _]]]); done. }
  destruct (String.eqb_spec (EffectiveAuthMode h) WebhookAuthModeHMACOnly) as [E|E3].
  { rewrite E in *. apply wp_signature; [intros Hg; apply Hyes; [done|naive_solver]|]. intros a Hg. apply Hno; [done|].
    intros (_ & [[? _]|[[? _]|[_ ?]]]); done. }
  apply wp_fail, Hno; [done|]. intros (_ & [[? _]|[[? _]|[? _]]]); done.
Qed.

Lemma wp_GetWebhook dagName w A Q :
  sv_webhookStore svc = true → rep (aw_hooks w) A →
  (∀ w' l h, rep (aw_hooks w') A → spec_get_name dagName A = inr h → hook_obj w' l = Some h → Q (inr l) w') →
  (∀ w' e, rep (aw_hooks w') A →
     io_fault e ∨ (∃ a, e = EAuth a ∧ spec_get_name dagName A = inl a) → Q (inl e) w') →
  wp (GetWebhookByDAGName svc dagName) w Q.
Proof.
  intros Hsv HR Hyes Hno. unfold GetWebhookByDAGName. rewrite Hsv. simpl. apply wp_bind, wp_try, wp_hooks.
  eapply wp_mono; [apply (GetByName_reads dagName); exact HR|]. intros r [fs s] (HR' & _ & Hr). cbn [snd] in *. destruct r as [e|l].
  - apply wp_fail, Hno; [done|]. destruct Hr as [[-> Hio]|(a & -> & Ha)]; [by left|].
    destruct (spec_get_name_error _ _ _ _ HR Ha) as [-> | ->]; right; eauto.
  - destruct Hr as (h & Hl & Hh). by apply wp_ret, (Hyes _ _ h).
Qed.

End Requests.

(** ** Properties of stored objects

    A property of objects that survives a trip to a file.  [kept]: every file that
    decodes has it, and with [heap] every object in memory too. *)
Section Kept.
Context {C T : Type} `{OS, StoreEnv, !StoreKind C T, !StoreKindOk C T}.
Context (P : T → Prop) (heap : bool) (Pnorm : ∀ t, P t → P (k_norm t)) (Pused : ∀ now t, P t → P (k_used now t)).

Definition kept (s : Store C T) : Prop :=
  (heap = true → Forall P (st_heap s)) ∧ ∀ p t, decodes s p t → P t.

Abbreviation SOp A := (Op (FS unit * Store C T) A).
Definition keeps {A} (m : SOp A) : Prop := ∀ w, kept w.2 → wp m w (λ _ w', kept w'.2).

Lemma kept_sub s s' : st_heap s' = st_heap s → (∀ p t, decodes s' p t → decodes s p t) → kept s → kept s'.
Proof. intros Hh Hd [K1 K2]. split; [by rewrite Hh|]. eauto. Qed.

Lemma kept_file s p f c t : kept s → P t → jf_data f = Some c → k_load c = inr t → kept (set_file p f s).
Proof.
  intros [K1 K2] Ht Hf Hc. split; [done|]. intros q u (g & d & Hg & Hd & Hu). simpl in Hg.
  apply lookup_insert_Some in Hg as [[_ <-]|[_ Hg]]; [by assert (u = t) as -> by congruence|]. apply (K2 q). by exists g, d.
Qed.

Lemma wp_load_any p (w : FS unit * Store C T) Q :
  (∀ fs t, decodes w.2 p t → Q (inr t) (fs, w.2)) → (∀ fs e, Q (inl e) (fs, w.2)) → wp (loadFromFile p) w Q.
Proof.
  intros Hy Hn. apply wp_bind, wp_ssys; [|auto]. intros fs. apply wp_bind, wp_sget. simpl.
  destruct (st_files w.2 !! p) as [f|] eqn:Hf; [|by apply wp_fail]. destruct (jf_data f) as [c|] eqn:Hc; [|by apply wp_fail].
  destruct (k_load c) as [a|t] eqn:Ht; [by apply wp_fail|]. apply wp_ret, Hy. by exists f, c.
Qed.

Lemma wp_write_kept p t (w : FS unit * Store C T) Q :
  kept w.2 → P t → (∀ fs s, kept s → Q (inr tt) (fs, s)) → (∀ fs e, Q (inl e) (fs, w.2)) → wp (writeToFile p t) w Q.
Proof.
  intros Hk Ht Hy Hn. apply wp_writeToFile; [|auto]. intros fs f c Hf Hc. apply Hy, (kept_file _ _ f c (k_norm t)); auto.
Qed.

Lemma Invalidate_kept p : keeps (Cache_Invalidate p).
Proof. intros w Hk. unfold Cache_Invalidate. destruct UseCache; [apply wp_supd|by apply wp_ret]. by eapply kept_sub. Qed.

Lemma Create_kept t : P t → keeps (Store_Create t).
Proof.
  intros Ht w Hk. unfold Store_Create. do 2 (destruct (String.eqb _ _); [by apply wp_fail|]).
  do 2 (apply wp_bind, wp_sget; case_bool_decide; [by apply wp_fail|]).
  apply wp_bind, wp_write_kept; [done|done| |done]. intros fs s Hs. apply wp_supd. by eapply kept_sub.
Qed.

Lemma Update_kept t : P t → keeps (Store_Update t).
Proof.
  intros Ht w Hk. unfold Store_Update. do 2 (destruct (String.eqb _ _); [by apply wp_fail|]).
  apply wp_bind, wp_sget. destruct (st_byID w.2 !! k_ID t) as [p|]; [|by apply wp_fail].
  apply wp_bind, wp_load_any; [|done]. intros fs old _. apply wp_bind, wp_sget. destruct (_ && _); [by apply wp_fail|].
  apply wp_bind, wp_write_kept; [done|done| |done]. intros fs1 s Hs. apply wp_bind.
  eapply wp_mono; [apply Invalidate_kept, Hs|]. intros [e|[]] w' Hw'; [done|]. destruct (negb _); [|by apply wp_ret].
  apply wp_supd. by eapply kept_sub.
Qed.

Lemma remove_kept p : keeps (remove_file p).
Proof.
  intros w Hk. apply wp_bind, wp_ssys; [|done]. intros fs. apply wp_supd. apply (kept_sub w.2); [done| |done].
  intros q t (f & c & Hf & Hc). simpl in Hf. apply lookup_delete_Some in Hf as [_ Hf]. by exists f, c.
Qed.

Lemma Delete_kept id : keeps (Store_Delete id).
Proof.
  intros w Hk. unfold Store_Delete. destruct (String.eqb _ _); [by apply wp_fail|]. apply wp_bind, wp_sget.
  destruct (st_byID w.2 !! id) as [p|]; [|by apply wp_fail]. apply wp_bind, wp_try.
  assert (∀ fs (t : option T), wp (remove_file p ;* Cache_Invalidate p ;* let* n := scall in
    supd (λ s, set_index (delete id (st_byID s)) (match t with Some t => delete (k_Name t) (st_byName s) | None =>
      match name_of_id id (st_byName s) (RangeOrder n (map_keys (st_byName s))) with
      | Some name => if String.eqb name "" then st_byName s else delete name (st_byName s) | None => st_byName s end end) (st_byOIDC s) s))
    (fs, w.2) (λ _ w', kept w'.2)) as Hrest.
  { intros fs t. apply wp_bind. eapply wp_mono; [by apply remove_kept|]. intros [e|[]] w1 H1; [done|]. apply wp_bind.
    eapply wp_mono; [by apply Invalidate_kept|]. intros [e|[]] w2 H2; [done|]. apply wp_bind, wp_scall. intros fs2 n.
    apply wp_supd. by eapply kept_sub. }
  apply wp_load_any.
  - intros fs t _. apply wp_bind, wp_ret. exact (Hrest fs (Some t)).
  - intros fs e. apply wp_bind. destruct e; try (by apply wp_fail). apply wp_ret. exact (Hrest fs None).
Qed.

Lemma DeleteByName_kept name : keeps (Store_DeleteByName name).
Proof.
  intros w Hk. unfold Store_DeleteByName. destruct (String.eqb _ _); [by apply wp_fail|]. apply wp_bind, wp_sget.
  destruct (st_byName w.2 !! name) as [id|]; [by apply Delete_kept|by apply wp_fail].
Qed.

Lemma UpdateLastUsed_kept id : keeps (Store_UpdateLastUsed id).
Proof.
  intros w Hk. unfold Store_UpdateLastUsed. destruct (String.eqb _ _); [by apply wp_fail|]. apply wp_bind, wp_sget.
  destruct (st_byID w.2 !! id) as [p|]; [|by apply wp_fail]. apply wp_bind, wp_try, wp_load_any.
  - intros fs t Ht. apply wp_bind, wp_snow. intros fs1 now. apply wp_bind, wp_write_kept; [done| | |done].
    + apply Pused. by eapply Hk.
    + intros fs2 s Hs. by apply Invalidate_kept.
  - intros fs e. destruct e; by apply wp_fail.
Qed.

(** A read adds what it loads from a file; without a cache it returns just that. *)
Lemma GetByID_kept id w :
  kept w.2 → wp (Store_GetByID id) w (λ r w', kept w'.2 ∧ ∀ l, r = inr l → UseCache = false → ∃ t, st_heap w'.2 !! l = Some t ∧ P t).
Proof.
  intros Hk. unfold Store_GetByID. destruct (String.eqb _ _); [by apply wp_fail|]. apply wp_bind, wp_sget.
  destruct (st_byID w.2 !! id) as [p|]; [|by apply wp_fail].
  assert (∀ t s, kept s → P t → kept (set_heap (st_heap s ++ [t]) s)) as Halloc.
  { intros t s [K1 K2] Ht. split; [|done]. intros Hh. simpl. apply Forall_app. auto. }
  assert (∀ e fs s, kept s → wp (match (inl e : Err + nat) with inr l => ret l | inl ENotExist => auth_fail k_ErrNotFound | inl e => fail e end) (fs, s)
    (λ r w', kept w'.2 ∧ ∀ l, r = inr l → UseCache = false → ∃ t, st_heap w'.2 !! l = Some t ∧ P t)) as Hfail
    by (intros e fs s Hs; destruct e; by apply wp_fail).
  apply wp_bind, wp_try. destruct UseCache eqn:Hc.
  - apply wp_bind, wp_bind, wp_ssys; [|intros; by apply Hfail]. intros fs. apply wp_bind, wp_sget. cbn [snd].
    destruct (st_files w.2 !! p) as [f|]; [|by apply wp_fail, (Hfail ENotExist)]. apply wp_bind, wp_scall. intros fs1 n. apply wp_bind, wp_sget.
    apply wp_ret. destruct (match _ with Some e => _ | None => _ end) as [l|]; [by apply wp_ret, wp_ret|].
    apply wp_bind, wp_load_any; [|intros; by apply Hfail]. intros fs2 t Ht. apply wp_bind. unfold wp at 1. cbn [fst snd salloc].
    apply wp_bind, wp_supd, wp_ret, wp_ret. split; [|done]. apply (kept_sub (set_heap (st_heap w.2 ++ [t]) w.2)); [done|done|]. apply Halloc; [done|by eapply Hk].
  - apply wp_bind, wp_load_any; [|intros; by apply Hfail]. intros fs2 t Ht. unfold wp at 1. cbn [fst snd salloc]. apply wp_ret.
    split; [apply Halloc; [done|by eapply Hk]|]. intros l [= <-] _. exists t. cbn. rewrite lookup_app_r, Nat.sub_diag by lia.
    split; [done|by eapply Hk].
Qed.

Lemma GetByName_kept name w :
  kept w.2 → wp (Store_GetByName name) w (λ r w', kept w'.2 ∧ ∀ l, r = inr l → UseCache = false → ∃ t, st_heap w'.2 !! l = Some t ∧ P t).
Proof.
  intros Hk. unfold Store_GetByName. destruct (String.eqb _ _); [by apply wp_fail|]. apply wp_bind, wp_sget.
  destruct (st_byName w.2 !! name) as [id|]; [by apply GetByID_kept|by apply wp_fail].
Qed.

Lemma List_kept : keeps Store_List.
Proof.
  intros w Hk. apply wp_bind, wp_scall. intros fs n. apply wp_bind, wp_sget. cbn [snd].
  assert (∀ ids acc w, kept w.2 → wp (each (λ acc id, let* r := try (Store_GetByID id) in
    match r with inr l => ret (acc ++ [l]) | inl e => if bool_decide (e = EAuth k_ErrNotFound) then ret acc else fail e end) acc ids) w
    (λ _ w', kept w'.2)) as Hloop; [|by apply Hloop].
  clear. induction ids as [|i ids IH]; intros acc w Hk; [by apply wp_ret|]. cbn [each]. apply wp_bind, wp_bind, wp_try.
  eapply wp_mono; [by apply GetByID_kept|]. intros [e|l] w1 [Hk1 _]; [case_bool_decide|]; try (by apply wp_fail); by apply wp_ret, IH.
Qed.
End Kept.

(** ** An invariant of webhooks *)
Section HookInvariant.
Context `{OS, StoreEnv, Sizes, HE : Encryption, !GcmOk, Bcrypt, Random, Mac} (svc : Service).
Context (Hrand : ∀ n k s, rand_Read n k = Some s → String.length s = k).

(** Without HMAC there is no secret; with HMAC there is one, and failures are let
    through only where both token and signature are asked for. *)
Definition hook_ok (h : Webhook) : Prop :=
  (EffectiveAuthMode h = WebhookAuthModeTokenOnly ∧ wh_HMACSecret h = "" ∧ wh_HMACEnforcementMode h = "") ∨
  (EffectiveAuthMode h = WebhookAuthModeTokenAndHMAC ∧ wh_HMACSecret h ≠ "" ∧
     (wh_HMACEnforcementMode h = WebhookHMACEnforcementModeStrict ∨ wh_HMACEnforcementMode h = WebhookHMACEnforcementModeObserve)) ∨
  (EffectiveAuthMode h = WebhookAuthModeHMACOnly ∧ wh_HMACSecret h ≠ "" ∧ wh_HMACEnforcementMode h = WebhookHMACEnforcementModeStrict).

Definition hooks_ok (w : AuthWorld) : Prop := kept hook_ok true (aw_hooks w).
Definition keeps_hooks (w w' : AuthWorld) : Prop := hooks_ok w → hooks_ok w'.

#[local] Instance keeps_hooks_preorder : PreOrder keeps_hooks.
Proof. split; [by intros w Hw|]. intros w1 w2 w3 K1 K2 Hw. by apply K2, K1. Qed.

Lemma users_keep_hooks {A} (m : Op _ A) : respects keeps_hooks (users m).
Proof. intros w r w'. unfold users, zoom. destruct (m _). intros [= <- <-] Hw. exact Hw. Qed.
Lemma compare_keep_hooks h p : respects keeps_hooks (compare_hash h p).
Proof. intros w r w' [= <- <-] Hw. exact Hw. Qed.
Lemma hooks_keep {A} (m : Op _ A) : keeps hook_ok true m → respects keeps_hooks (hooks m).
Proof.
  intros Hm w r w'. unfold hooks, zoom. destruct (m _) as [r1 p] eqn:E. intros [= <- <-] Hw.
  specialize (Hm (aw_fs w, aw_hooks w) Hw). unfold wp in Hm. by rewrite E in Hm.
Qed.
Lemma hash_keep_hooks p : respects keeps_hooks (hash_password svc p).
Proof. unfold hash_password. walk_op. apply users_keep_hooks. Qed.
Lemma secret_keep_hooks n p k : respects keeps_hooks (generate_secret svc n p k).
Proof. unfold generate_secret. walk_op; try (apply users_keep_hooks || apply hash_keep_hooks). Qed.

Lemma set_hook_keeps l f w :
  hooks_ok w → (∀ h, hook_obj w l = Some h → hook_ok h → hook_ok (f h)) → hooks_ok (set_hook l f w).2.
Proof.
  intros [K1 K2] Hf. split; [|done]. intros _. simpl. specialize (K1 eq_refl). apply Forall_lookup. intros i h Hi.
  destruct (decide (i = l)) as [->|Hne].
  - rewrite list_lookup_alter_eq in Hi. destruct (st_heap (aw_hooks w) !! l) as [h0|] eqn:E; [|done]. injection Hi as <-.
    apply Hf; [done|]. by eapply Forall_lookup_1.
  - rewrite list_lookup_alter_ne in Hi by done. by eapply Forall_lookup_1.
Qed.

Lemma set_hook_respects l f : (∀ h, hook_ok h → hook_ok (f h)) → respects keeps_hooks (set_hook l f).
Proof. intros Hf w r w' [= <- <-] Hw. apply (set_hook_keeps l f w Hw). auto. Qed.

Lemma hook_at_ok w l : hooks_ok w → hook_ok (default Webhook_zero (st_heap (aw_hooks w) !! l)).
Proof.
  intros [K1 _]. specialize (K1 eq_refl). destruct (st_heap (aw_hooks w) !! l) as [h|] eqn:E; simpl; [by eapply Forall_lookup_1|].
  by left.
Qed.

Lemma save_hook_keeps l : respects keeps_hooks (save_hook l).
Proof.
  intros w r w' Hm Hw. unfold save_hook in Hm. apply bind_inv in Hm as [(e & [=] & _)|(h & w1 & [= <- <-] & Hm)].
  eapply (hooks_keep (Store_Update _)); [|exact Hm|done]. apply Update_kept; [done|]. by apply hook_at_ok.
Qed.

Lemma GetWebhook_keeps dagName : respects keeps_hooks (GetWebhookByDAGName svc dagName).
Proof.
  unfold GetWebhookByDAGName, capability. walk_op. apply hooks_keep. intros w Hw.
  eapply wp_mono; [by apply (GetByName_kept hook_ok true)|]. by intros r w' [? _].
Qed.

Lemma capability_keeps {A} (m : AOp A) : respects keeps_hooks m → respects keeps_hooks (capability m).
Proof. intros Hm. unfold capability. walk_op. Qed.

Lemma secret_nonempty w s w' : generateWebhookHMACSecret w = (inr s, w') → s ≠ "".
Proof.
  intros Hm. unfold generateWebhookHMACSecret in Hm. apply bind_inr in Hm as (n & w1 & _ & Hm).
  destruct (rand_Read n webhookHMACSecretRandomBytes) as [b|] eqn:E; [|done]. injection Hm as <- _. intros Hb.
  apply (Base58Encode_inj b "") in Hb. subst b. by apply Hrand in E.
Qed.
(** A program may use what a value it got is known to be. *)
Lemma respects_bind_post {A B} (m : AOp A) (k : A → AOp B) (Q : A → Prop) :
  respects keeps_hooks m → (∀ w a w', m w = (inr a, w') → Q a) → (∀ a, Q a → respects keeps_hooks (k a)) →
  respects keeps_hooks (bind m k).
Proof.
  intros Hm HQ Hk w r w' Hb. apply bind_inv in Hb as [(e & He & _)|(a & w1 & Ha & Hr)]; [by eapply Hm|].
  trans w1; [by eapply Hm|]. eapply Hk; [by eapply HQ|done].
Qed.

Lemma hmac_secret_keeps : respects keeps_hooks generateWebhookHMACSecret.
Proof. unfold generateWebhookHMACSecret. walk_op. apply users_keep_hooks. Qed.

Lemma mode_ok authMode enf e h :
  validateWebhookHMACMode authMode enf = inr e → wh_HMACSecret h ≠ "" →
  wh_AuthMode h = authMode → wh_HMACEnforcementMode h = e → hook_ok h.
Proof.
  unfold validateWebhookHMACMode, hook_ok, EffectiveAuthMode, OrDefault. intros Hv Hs Hm He. rewrite Hm, He.
  destruct (String.eqb_spec authMode WebhookAuthModeTokenOnly); [done|].
  destruct (String.eqb_spec authMode WebhookAuthModeTokenAndHMAC) as [->|].
  { right. left. split; [done|]. split; [done|]. destruct (String.eqb enf ""); [injection Hv as <-; by left|].
    destruct (String.eqb_spec enf WebhookHMACEnforcementModeStrict); simpl in Hv; [injection Hv as <-; by left|].
    destruct (String.eqb_spec enf WebhookHMACEnforcementModeObserve); simpl in Hv; [injection Hv as <-; by right|done]. }
  destruct (String.eqb_spec authMode WebhookAuthModeHMACOnly) as [->|]; [|done].
  right. right. split; [done|]. split; [done|]. destruct (_ || _); [by injection Hv as <-|done].
Qed.

Lemma configure_mode h authMode enf e :
  authMode ≠ WebhookAuthModeTokenOnly → normalizeWebhookHMACModeForConfigure h authMode enf = inr e →
  ∃ enf', validateWebhookHMACMode authMode enf' = inr e.
Proof.
  unfold normalizeWebhookHMACModeForConfigure. intros Hne. destruct (negb (String.eqb enf "")); [eauto|].
  destruct (String.eqb_spec authMode WebhookAuthModeHMACOnly) as [->|]; [|eauto]. intros [= <-]. by exists "".
Qed.

(** *** The operations *)
Inductive HookOp :=
  | HCreate (dagName creatorID : string)
  | HDelete (dagName : string)
  | HRegenerateToken (dagName : string)
  | HToggle (dagName : string) (enabled : bool)
  | HEnableHMAC (dagName : string) (authMode : WebhookAuthMode) (enforcementMode : WebhookHMACEnforcementMode)
  | HConfigureHMAC (dagName : string) (authMode : WebhookAuthMode) (enforcementMode : WebhookHMACEnforcementMode)
  | HDisableHMAC (dagName : string)
  | HRegenerateSecret (dagName : string)
  | HValidateToken (dagName token : string)
  | HAuthorize (dagName token signature body : string)
  | HList.

Definition run_hook_op (o : HookOp) : AOp unit :=
  match o with
  | HCreate d c => ignore (CreateWebhook svc d c)
  | HDelete d => ignore (DeleteWebhook svc d)
  | HRegenerateToken d => ignore (RegenerateWebhookToken svc d)
  | HToggle d b => ignore (ToggleWebhook svc d b)
  | HEnableHMAC d m e => ignore (EnableWebhookHMAC svc d m e)
  | HConfigureHMAC d m e => ignore (ConfigureWebhookHMAC svc d m e)
  | HDisableHMAC d => ignore (DisableWebhookHMAC svc d)
  | HRegenerateSecret d => ignore (RegenerateWebhookHMACSecret svc d)
  | HValidateToken d t => ignore (ValidateWebhookToken svc d t)
  | HAuthorize d t s b => ignore (AuthorizeWebhookRequest svc d t s b)
  | HList => ignore (ListWebhooks svc)
  end.

Definition run_hook_ops (l : list HookOp) : AOp unit := each (λ _ o, run_hook_op o) tt l.

(** As [walk_op], with what is known of the operations of the service first. *)
Ltac keep_hooks :=
  repeat first
    [ progress intros
    | apply users_keep_hooks | apply hash_keep_hooks | apply secret_keep_hooks | apply GetWebhook_keeps
    | apply save_hook_keeps | apply compare_keep_hooks | apply capability_keeps
    | apply set_hook_respects; intros [] Hh; exact Hh
    | apply op_try_respects | apply op_ignore_respects
    | match goal with |- respects _ (bind _ _) => apply op_bind_respects; [typeclasses eauto| |] end
    | match goal with |- respects _ (match ?x with _ => _ end) => destruct x end
    | apply op_ret_respects; typeclasses eauto | apply op_fail_respects; typeclasses eauto
    | apply op_gets_respects; typeclasses eauto ].

Lemma NewWebhook_ok id now d th tp c h : NewWebhook id now d th tp c = inr h → hook_ok h.
Proof. unfold NewWebhook. do 2 (destruct (String.eqb _ _); [done|]). intros [= <-]. by left. Qed.

Lemma CreateWebhook_keeps d c : respects keeps_hooks (CreateWebhook svc d c).
Proof.
  unfold CreateWebhook, generateWebhookToken. do 3 (destruct (_ : bool); [apply op_fail_respects; apply _|]).
  apply op_bind_respects; [apply _|apply secret_keep_hooks|]. intros parts.
  apply op_bind_respects; [apply _|apply users_keep_hooks|]. intros n. apply op_bind_respects; [apply _|apply users_keep_hooks|]. intros now.
  apply (respects_bind_post _ _ hook_ok).
  - unfold lift_err. keep_hooks.
  - intros w h w' Hh. destruct (NewWebhook _ _ _ _ _ _) as [e|h'] eqn:E; [done|]. injection Hh as <- _. by eapply NewWebhook_ok.
  - intros h Hh. apply op_bind_respects; [apply _|apply hooks_keep, Create_kept; done|]. intros _.
    apply op_bind_respects; [apply _| |keep_hooks]. apply hooks_keep. intros w [K1 K2]. split; [|done]. intros Ht. simpl.
    apply Forall_app. auto.
Qed.

Lemma lift_err_keeps {A B} (v : AuthErr + A) (k : A → AOp B) :
  (∀ a, v = inr a → respects keeps_hooks (k a)) → respects keeps_hooks (bind (lift_err v) k).
Proof. intros Hk. destruct v as [e|a]; [by intros w r w' [= <- <-]|]. intros w r w' Hb. by apply (Hk a eq_refl w r w'). Qed.

Lemma EnableWebhookHMAC_keeps d m e : respects keeps_hooks (EnableWebhookHMAC svc d m e).
Proof.
  unfold EnableWebhookHMAC. do 2 (destruct (_ : bool); [apply op_fail_respects; apply _|]).
  apply lift_err_keeps. intros e' Hv. apply op_bind_respects; [apply _|keep_hooks|]. intros l.
  apply (respects_bind_post _ _ (λ x, x ≠ "")); [apply hmac_secret_keeps|apply secret_nonempty|]. intros secret Hs.
  apply op_bind_respects; [apply _|apply users_keep_hooks|]. intros now.
  apply op_bind_respects; [apply _| |intros _; keep_hooks]. apply set_hook_respects. intros h _. by eapply mode_ok.
Qed.

(** Two steps: read the object and guard, then assign to it. *)
Lemma guarded_set {A} l (guard : Webhook → bool) (e : AuthErr) (g : Webhook → AOp A) :
  (∀ h w, hooks_ok w → hook_obj w l = Some h ∨ h = Webhook_zero → guard h = false →
     wp (g h) w (λ _ w', hooks_ok w')) →
  respects keeps_hooks (let* h := hook_at l in if guard h then afail e else g h).
Proof.
  intros Hg w r w' Hb Hw. apply bind_inv in Hb as [(x & [=] & _)|(h & w1 & [= <- <-] & Hr)].
  destruct (guard _) eqn:E; [by injection Hr as _ <-|]. eapply (wp_eq _ _ (λ _ w', hooks_ok w')); [|exact Hr]. apply Hg; [done| |done].
  unfold hook_obj. destruct (st_heap (aw_hooks w) !! l); [by left|by right].
Qed.

Lemma wp_respects {A} (m : AOp A) w : respects keeps_hooks m → hooks_ok w → wp m w (λ _ w', hooks_ok w').
Proof. intros Hm Hw. apply wp_intro. intros r w' E. by eapply Hm. Qed.

Lemma ConfigureWebhookHMAC_keeps d m e : respects keeps_hooks (ConfigureWebhookHMAC svc d m e).
Proof.
  unfold ConfigureWebhookHMAC. destruct (_ : bool); [apply op_fail_respects; apply _|].
  destruct (String.eqb_spec m WebhookAuthModeTokenOnly) as [|Hm]; [apply op_fail_respects; apply _|].
  apply op_bind_respects; [apply _|keep_hooks|]. intros l.
  apply (guarded_set l (λ h, String.eqb (wh_HMACSecret h) "")). intros h w Hw Hl Hg. apply String.eqb_neq in Hg.
  destruct Hl as [Hl| ->]; [|done].
  destruct (normalizeWebhookHMACModeForConfigure h m e) as [a|e'] eqn:E; [done|]. apply configure_mode in E as [enf Hv]; [|done].
  apply wp_bind, wp_ret, wp_bind. unfold wp at 1. cbn [fst set_hook modify].
  apply wp_respects; [keep_hooks|]. apply (set_hook_keeps l _ w Hw). intros h' Hh' _. assert (h' = h) as -> by congruence. by eapply mode_ok.
Qed.

Lemma RegenerateSecret_keeps d : respects keeps_hooks (RegenerateWebhookHMACSecret svc d).
Proof.
  unfold RegenerateWebhookHMACSecret. destruct (_ : bool); [apply op_fail_respects; apply _|].
  apply op_bind_respects; [apply _|keep_hooks|]. intros l.
  apply (guarded_set l (λ h, negb (HMACEnabled h))). intros h w Hw Hl Hg. apply negb_false_iff in Hg.
  destruct Hl as [Hl| ->]; [|done]. apply wp_bind. apply wp_intro. intros r w1 Er.
  assert (aw_hooks w1 = aw_hooks w) as Eh.
  { unfold generateWebhookHMACSecret in Er. apply bind_inv in Er as [(x & Hx & _)|(n & w2 & Hx & Er)].
    - unfold acall, users, zoom in Hx. by injection Hx as _ <-.
    - assert (aw_hooks w2 = aw_hooks w) as E2 by (unfold acall, users, zoom in Hx; by injection Hx as _ <-).
      destruct (rand_Read _ _); by injection Er as _ <-. }
  assert (hooks_ok w1) as Hw1 by (unfold hooks_ok; by rewrite Eh). destruct r as [x|secret]; [done|].
  assert (secret ≠ "") as Hs by (by eapply secret_nonempty). apply wp_bind, wp_users, wp_snow. intros fs now. apply wp_bind.
  unfold wp at 1. cbn [fst set_hook modify]. apply wp_respects; [keep_hooks|].
  apply (set_hook_keeps l _ (set_users (fs, aw_users w1) w1)); [done|]. intros h' Hh' Hok. unfold hook_obj in *. cbn in Hh'. rewrite Eh in Hh'.
  assert (h' = h) as -> by congruence. unfold HMACEnabled in Hg. apply negb_true_iff, String.eqb_neq in Hg.
  destruct Hok as [(? & _)|[(Hm & _ & He)|(Hm & _ & He)]]; [done|right; left|right; right]; done.
Qed.

Lemma UpdateLastUsed_hooks id : respects keeps_hooks (hooks (Store_UpdateLastUsed id)).
Proof. by apply hooks_keep, UpdateLastUsed_kept. Qed.

Lemma DisableWebhookHMAC_keeps d : respects keeps_hooks (DisableWebhookHMAC svc d).
Proof.
  unfold DisableWebhookHMAC. keep_hooks. apply set_hook_respects. intros h _. by left.
Qed.

Lemma requests_keep d t s b :
  respects keeps_hooks (ValidateWebhookToken svc d t) ∧ respects keeps_hooks (AuthorizeWebhookRequest svc d t s b).
Proof.
  unfold ValidateWebhookToken, AuthorizeWebhookRequest, validateWebhookTokenAgainst, hook_at, lift_err. split; keep_hooks;
    try apply UpdateLastUsed_hooks.
Qed.

(** C23. In every sequence of operations on webhooks, whatever calls fail and with or
    without an encryptor, every webhook in a file or in memory is in one of three
    states: without HMAC and without a secret, with token and HMAC, a secret and a valid
    enforcement, or with HMAC only, a secret and strict enforcement. *)
Theorem webhook_hmac_invariant l w :
  hooks_ok w → hooks_ok (run_hook_ops l w).2.
Proof.
  intros Hw. unfold run_hook_ops. destruct (each _ tt l w) as [r w'] eqn:E.
  eapply (respects_each keeps_hooks (λ _ o, run_hook_op o) l tt); [|exact E|done]. intros _ o. destruct o; simpl; apply op_ignore_respects.
  - apply CreateWebhook_keeps.
  - unfold DeleteWebhook. keep_hooks. by apply hooks_keep, DeleteByName_kept.
  - unfold RegenerateWebhookToken, generateWebhookToken. keep_hooks.
  - unfold ToggleWebhook. keep_hooks.
  - apply EnableWebhookHMAC_keeps.
  - apply ConfigureWebhookHMAC_keeps.
  - apply DisableWebhookHMAC_keeps.
  - apply RegenerateSecret_keeps.
  - apply (requests_keep dagName token "" "").
  - apply (requests_keep dagName token signature body).
  - unfold ListWebhooks. keep_hooks. by apply hooks_keep, List_kept.
Qed.
End HookInvariant.

(** ** Roles and workspaces of what is stored *)
Section Access.
Context `{OS, StoreEnv, Sizes, Encryption, Bcrypt, Random, Mac, Jwt} (svc : Service).

Definition key_ok (k : APIKey) : Prop := access_ok (ak_Role k) (ak_WorkspaceAccess k) None.
Definition user_ok (u : User) : Prop := access_ok (us_Role u) (us_WorkspaceAccess u) None.

Lemma key_ok_norm (k : APIKey) : key_ok k → key_ok (k_norm k).
Proof. apply access_ok_clone. Qed.
Lemma user_ok_norm (u : User) : user_ok u → user_ok (k_norm u).
Proof. apply access_ok_clone. Qed.

(** Every key in a file is valid; every user in a file is, when there is no cache. *)
Definition access_kept (w : AuthWorld) : Prop :=
  kept key_ok false (aw_keys w) ∧ (UseCache = false → kept user_ok false (aw_users w)).
Definition keeps_access (w w' : AuthWorld) : Prop := access_kept w → access_kept w'.

#[local] Instance keeps_access_preorder : PreOrder keeps_access.
Proof. split; [by intros w Hw|]. intros w1 w2 w3 K1 K2 Hw. by apply K2, K1. Qed.

Lemma keys_keep_access {A} (m : Op _ A) : keeps key_ok false m → respects keeps_access (keys m).
Proof.
  intros Hm w r w'. unfold keys, zoom. destruct (m _) as [r1 p] eqn:E. intros [= <- <-] [Hk Hu]. split; [|done].
  specialize (Hm (aw_fs w, aw_keys w) Hk). unfold wp in Hm. by rewrite E in Hm.
Qed.
Lemma users_keep_access {A} (m : Op _ A) : (UseCache = false → keeps user_ok false m) → respects keeps_access (users m).
Proof.
  intros Hm w r w'. unfold users, zoom. destruct (m _) as [r1 p] eqn:E. intros [= <- <-] [Hk Hu]. split; [done|].
  intros Hc. specialize (Hm Hc (aw_fs w, aw_users w) (Hu Hc)). unfold wp in Hm. by rewrite E in Hm.
Qed.
Lemma compare_keep_access h p : respects keeps_access (compare_hash h p).
Proof. intros w r w' [= <- <-] Hw. exact Hw. Qed.
Lemma set_key_keeps l f : respects keeps_access (set_key l f).
Proof. intros w r w' [= <- <-] [Hk Hu]. split; [|done]. by destruct Hk as [K1 K2]. Qed.
Lemma set_user_keeps l f : respects keeps_access (set_user l f).
Proof. intros w r w' [= <- <-] [Hk Hu]. split; [done|]. intros Hc. by destruct (Hu Hc) as [K1 K2]. Qed.
Lemma anow_keeps : respects keeps_access anow.
Proof. apply users_keep_access. intros _ w Hw. exact Hw. Qed.
Lemma acall_keeps : respects keeps_access acall.
Proof. apply users_keep_access. intros _ w Hw. exact Hw. Qed.
Lemma hash_keep_access p : respects keeps_access (hash_password svc p).
Proof. unfold hash_password. walk_op. apply acall_keeps. Qed.
Lemma secret_keep_access n p k : respects keeps_access (generate_secret svc n p k).
Proof. unfold generate_secret. walk_op; try (apply acall_keeps || apply hash_keep_access). Qed.

Lemma GetByID_keep_users id : respects keeps_access (users (Store_GetByID id)).
Proof. apply users_keep_access. intros _ w Hw. eapply wp_mono; [by apply (GetByID_kept user_ok false)|]. by intros r w' [? _]. Qed.
Lemma GetByID_keep_keys id : respects keeps_access (keys (Store_GetByID id)).
Proof. apply keys_keep_access. intros w Hw. eapply wp_mono; [by apply (GetByID_kept key_ok false)|]. by intros r w' [? _]. Qed.

Ltac keep_access :=
  repeat first
    [ progress intros
    | apply anow_keeps | apply acall_keeps | apply hash_keep_access | apply secret_keep_access | apply compare_keep_access
    | apply set_key_keeps | apply set_user_keeps | apply GetByID_keep_users | apply GetByID_keep_keys
    | apply op_try_respects | apply op_ignore_respects
    | match goal with |- respects _ (bind _ _) => apply op_bind_respects; [typeclasses eauto| |] end
    | match goal with |- respects _ (match ?x with _ => _ end) => destruct x end
    | apply op_ret_respects; typeclasses eauto | apply op_fail_respects; typeclasses eauto
    | apply op_gets_respects; typeclasses eauto ].

(** *** The store of users *)
Lemma wp_uwrite_kept p u (w : FS unit * Store UserForStorage User) Q :
  kept user_ok false w.2 → user_ok u → (∀ fs s, kept user_ok false s → Q (inr tt) (fs, s)) → (∀ fs e, Q (inl e) (fs, w.2)) →
  wp (writeToFile p u) w Q.
Proof. intros Hk Hu. apply (wp_write_kept user_ok false user_ok_norm); done. Qed.

Lemma kept_files (s s' : Store UserForStorage User) : st_files s' = st_files s → kept user_ok false s → kept user_ok false s'.
Proof. intros Hf [K1 K2]. split; [done|]. intros p t (f & c & Hp & Hc). rewrite Hf in Hp. apply (K2 p). by exists f, c. Qed.

Lemma UserStore_Create_kept u : user_ok u → keeps user_ok false (UserStore_Create u).
Proof.
  intros Hu w Hk. unfold UserStore_Create. do 2 (destruct (String.eqb _ _); [by apply wp_fail|]).
  do 2 (apply wp_bind, wp_sget; case_bool_decide; [by apply wp_fail|]). apply wp_bind, wp_sget. destruct (_ && _); [by apply wp_fail|].
  apply wp_bind, wp_uwrite_kept; [done|done| |done]. intros fs s Hs. apply wp_supd. by apply (kept_files s).
Qed.

Lemma UserStore_Update_kept u : user_ok u → keeps user_ok false (UserStore_Update u).
Proof.
  intros Hu w Hk. unfold UserStore_Update. do 2 (destruct (String.eqb _ _); [by apply wp_fail|]).
  apply wp_bind, wp_sget. destruct (st_byID w.2 !! us_ID u) as [p|]; [|by apply wp_fail].
  apply wp_bind, wp_load_any; [|done]. intros fs old _. apply wp_bind, wp_sget. destruct (_ && _); [by apply wp_fail|].
  set (renamed := negb (String.eqb (us_Username old) (us_Username u))).
  assert (∀ (X : Type) a b c (k : Op (FS unit * Store UserForStorage User) X) fs s, kept user_ok false s →
    (∀ fs s, kept user_ok false s → wp k (fs, s) (λ _ w', kept user_ok false w'.2)) →
    wp ((if renamed then supd (move_name a b c) else ret tt) ;* k) (fs, s) (λ _ w', kept user_ok false w'.2)) as Hmove.
  { intros X a b c k fs0 s Hs Hkk. apply wp_bind. destruct renamed; [apply wp_supd|apply wp_ret]; apply Hkk; [|done]. by apply (kept_files s). }
  apply Hmove; [done|]. intros fs1 s1 Hs1. apply wp_bind, wp_sget.
  destruct (_ && _); [apply Hmove; [done|]; intros; by apply wp_fail|].
  apply wp_bind, wp_try, wp_uwrite_kept; [done|done| |].
  - intros fs2 s2 Hs2. destruct (negb (String.eqb (oidc_of old) (oidc_of u))); [apply wp_supd|by apply wp_ret]. by apply (kept_files s2).
  - intros fs2 e. apply Hmove; [done|]. intros. by apply wp_fail.
Qed.

Lemma UserStore_Delete_kept id : keeps user_ok false (UserStore_Delete id).
Proof.
  intros w Hk. unfold UserStore_Delete. destruct (String.eqb _ _); [by apply wp_fail|]. apply wp_bind, wp_sget.
  destruct (st_byID w.2 !! id) as [p|]; [|by apply wp_fail]. apply wp_bind, wp_try, wp_load_any.
  - intros fs u _. apply wp_bind, wp_ret, wp_bind. eapply wp_mono; [by apply (remove_kept user_ok false)|]. intros [e|[]] w1 Hw1; [done|].
    do 2 (apply wp_bind, wp_scall; intros ? ?). apply wp_supd. by apply (kept_files w1.2).
  - intros fs e. apply wp_bind. destruct e; try (by apply wp_fail). apply wp_ret, wp_bind.
    eapply wp_mono; [by apply (remove_kept user_ok false)|]. intros [e|[]] w1 Hw1; [done|].
    do 2 (apply wp_bind, wp_scall; intros ? ?). apply wp_supd. by apply (kept_files w1.2).
Qed.

(** *** Objects between the check and the write *)
Definition holds_user (l : nat) (w : AuthWorld) : Prop :=
  access_kept w ∧ (UseCache = false → ∃ u, user_obj w l = Some u ∧ user_ok u).
Definition keeps_user (l : nat) (w w' : AuthWorld) : Prop := holds_user l w → holds_user l w'.

#[local] Instance keeps_user_preorder l : PreOrder (keeps_user l).
Proof. split; [by intros w Hw|]. intros w1 w2 w3 K1 K2 Hw. by apply K2, K1. Qed.

Lemma clock_keeps_user {A} l (m : Op _ A) :
  (∀ p, (m p).2.2 = p.2) → respects (keeps_user l) (users m).
Proof.
  intros Hm w r w'. unfold users, zoom. specialize (Hm (aw_fs w, aw_users w)). destruct (m _) as [r1 [fs s]]. simpl in Hm. subst s.
  intros [= <- <-] [Ha Hu]. by split.
Qed.

Lemma set_user_keeps_user l f :
  (∀ u, us_Role (f u) = us_Role u ∧ us_WorkspaceAccess (f u) = us_WorkspaceAccess u) → respects (keeps_user l) (set_user l f).
Proof.
  intros Hf w r w' Hs [Ha Hu]. split; [by eapply set_user_keeps|]. intros Hc. injection Hs as <- <-. destruct (Hu Hc) as (u & Hl & Hok).
  exists (f u). unfold user_obj in *. simpl. rewrite list_lookup_alter_eq, Hl. split; [done|].
  unfold user_ok. destruct (Hf u) as [-> ->]. exact Hok.
Qed.

Lemma hash_keeps_user l p : respects (keeps_user l) (hash_password svc p).
Proof. unfold hash_password. walk_op. by apply clock_keeps_user. Qed.

(** The object is written as it is. *)
Lemma save_user l w :
  holds_user l w → wp (let* u := user_at l in users (UserStore_Update u)) w (λ _ w', access_kept w').
Proof.
  intros [Ha Hu]. apply wp_bind, wp_gets. apply wp_intro. intros r w' E.
  eapply (users_keep_access (UserStore_Update _)); [|exact E|done]. intros Hc. destruct (Hu Hc) as (u & Hl & Hok).
  unfold user_obj in Hl. rewrite Hl. by apply UserStore_Update_kept.
Qed.

Ltac keep_user :=
  repeat first
    [ progress intros
    | apply hash_keeps_user | apply clock_keeps_user; done | apply set_user_keeps_user; done
    | match goal with |- respects _ (bind _ _) => apply op_bind_respects; [typeclasses eauto| |] end
    | match goal with |- respects _ (match ?x with _ => _ end) => destruct x end
    | apply op_ret_respects; typeclasses eauto | apply op_fail_respects; typeclasses eauto ].

Lemma wp_bind_user {A B} l (m : AOp A) (k : A → AOp B) w :
  holds_user l w → respects (keeps_user l) m → (∀ a w', holds_user l w' → wp (k a) w' (λ _ w', access_kept w')) →
  wp (bind m k) w (λ _ w', access_kept w').
Proof.
  intros Hw Hm Hk. apply wp_bind, wp_intro. intros [e|a] w' E; [by apply (Hm _ _ _ E Hw)|]. apply Hk. by eapply Hm.
Qed.

Lemma store_password_keeps l p w : holds_user l w → wp (store_password svc l p) w (λ _ w', access_kept w').
Proof.
  intros Hw. unfold store_password. apply (wp_bind_user l); [done|unfold validatePassword; keep_user|]. intros _ w1 H1'.
  do 4 (apply (wp_bind_user l); [done|keep_user|]; intros ? ? ?). by apply save_user.
Qed.

Lemma checked_user_keeps l (m m' : AOp unit) :
  respects (keeps_user l) m → respects (keeps_user l) m' →
  respects keeps_access (let* u := user_at l in check_access (us_Role u) (us_WorkspaceAccess u) ;* m ;* m' ;*
    let* now := anow in set_user l (λ u, {| u with us_UpdatedAt := now |}) ;* let* u := user_at l in users (UserStore_Update u) ;* ret l).
Proof.
  intros Hm Hm' w r w' E Ha. eapply (wp_eq _ _ (λ _ w', access_kept w')); [|exact E]. apply wp_bind, wp_gets. apply wp_bind.
  unfold check_access. destruct (ValidateWorkspaceAccess _ _ _) eqn:Ev; [done|]. apply wp_ret.
  apply ValidateWorkspaceAccess_spec in Ev. assert (holds_user l w) as Hw.
  { split; [done|]. intros _. unfold user_obj. destruct (st_heap (aw_users w) !! l) as [u|]; [by exists u|]. by destruct Ev. }
  do 2 (apply (wp_bind_user l); [done|done|]; intros _ ? ?). apply (wp_bind_user l); [done|by apply clock_keeps_user|]. intros now w2 Hw2.
  apply (wp_bind_user l); [done|keep_user|]. intros _ w3 Hw3. pose proof (save_user l w3 Hw3) as Hs.
  apply wp_bind, wp_gets, wp_bind. unfold wp, bind, user_at, gets in *. by destruct (users _ w3) as [[]].
Qed.

Lemma checked_key_keeps l :
  respects keeps_access (let* k := key_at l in check_access (ak_Role k) (ak_WorkspaceAccess k) ;*
    let* now := anow in set_key l (λ k, {| k with ak_UpdatedAt := now |}) ;* let* k := key_at l in keys (Store_Update k) ;* ret l).
Proof.
  intros w r w' E Ha. eapply (wp_eq _ _ (λ _ w', access_kept w')); [|exact E]. apply wp_bind, wp_gets. apply wp_bind.
  unfold check_access. destruct (ValidateWorkspaceAccess _ _ _) eqn:Ev; [done|]. apply wp_ret.
  apply ValidateWorkspaceAccess_spec in Ev. destruct (st_heap (aw_keys w) !! l) as [k|] eqn:Hl; [|by destruct Ev].
  apply wp_bind, wp_users, wp_snow. intros fs now. apply wp_bind, wp_modify, wp_bind, wp_gets. cbn. rewrite list_lookup_alter_eq, Hl. simpl.
  apply wp_bind, wp_intro. intros [e|[]] w2 E2; eapply (keys_keep_access (Store_Update _)) in E2; try (by apply Update_kept; [apply key_ok_norm|]);
    apply E2; destruct Ha as [[K1 K2] Hu]; split; done.
Qed.

Inductive AccessOp :=
  | ACreateUser (input : CreateUserInput)
  | AUpdateUser (id : string) (input : UpdateUserInput)
  | ADeleteUser (id currentUserID : string)
  | AChangePassword (userID oldPassword newPassword : string)
  | AResetPassword (userID newPassword : string)
  | AAuthenticate (username password : string)
  | AToken (token : string)
  | ACreateKey (input : CreateAPIKeyInput) (creatorID : string)
  | AUpdateKey (id : string) (input : UpdateAPIKeyInput)
  | ADeleteKey (id : string)
  | AValidateKey (secret : string).

Definition run_access_op (o : AccessOp) : AOp unit :=
  match o with
  | ACreateUser i => ignore (CreateUser svc i)
  | AUpdateUser id i => ignore (UpdateUser svc id i)
  | ADeleteUser id c => ignore (DeleteUser id c)
  | AChangePassword id o n => ignore (ChangePassword svc id o n)
  | AResetPassword id n => ignore (ResetPassword svc id n)
  | AAuthenticate u p => ignore (Authenticate u p)
  | AToken t => ignore (GetUserFromToken svc t)
  | ACreateKey i c => ignore (CreateAPIKey svc i c)
  | AUpdateKey id i => ignore (UpdateAPIKey svc id i)
  | ADeleteKey id => ignore (DeleteAPIKey svc id)
  | AValidateKey s => ignore (ValidateAPIKey svc s)
  end.

Definition run_access_ops (l : list AccessOp) : AOp unit := each (λ _ o, run_access_op o) tt l.

Lemma GetByID_holds id w :
  access_kept w → wp (users (Store_GetByID id)) w (λ r w', match r with inr l => holds_user l w' | inl _ => access_kept w' end).
Proof.
  intros Ha. apply wp_intro. intros r w' E. pose proof (GetByID_keep_users id w r w' E Ha) as Ha'. destruct r as [e|l]; [done|].
  split; [done|]. intros Hc. pose proof (GetByID_kept user_ok false id (aw_fs w, aw_users w) (proj2 Ha Hc)) as Hg.
  unfold users, zoom in E. unfold wp in Hg. destruct (Store_GetByID id _) as [r p]. injection E as -> <-. by apply (proj2 Hg l).
Qed.

Lemma password_keeps id o n : respects keeps_access (ChangePassword svc id o n) ∧ respects keeps_access (ResetPassword svc id n).
Proof.
  split; intros w r w' E Ha; (eapply (wp_eq _ _ (λ _ w', access_kept w')); [|exact E]); apply wp_bind;
    (eapply wp_mono; [by apply GetByID_holds|]); intros [e|l] w1 Hl; try done; [|by apply store_password_keeps].
  apply wp_bind, wp_gets, wp_bind, wp_compare. destruct (negb _); [by apply wp_fail, Hl|]. by apply store_password_keeps.
Qed.

Lemma check_access_post {A} r a (k : AOp A) :
  (access_ok r a None → respects keeps_access k) → respects keeps_access (check_access r a ;* k).
Proof.
  intros Hk w x w' E Ha. unfold check_access in E. destruct (ValidateWorkspaceAccess r a None) eqn:Ev; [by injection E as <- <-|].
  apply ValidateWorkspaceAccess_spec in Ev. by apply (Hk Ev w x w').
Qed.

Lemma CreateUser_keeps i : respects keeps_access (CreateUser svc i).
Proof.
  unfold CreateUser, validatePassword, check_role. apply op_bind_respects; [apply _|keep_access|]. intros _.
  apply op_bind_respects; [apply _|keep_access|]. intros _. apply check_access_post. intros Hok. keep_access;
    apply users_keep_access; intros _; [|by intros w [K1 K2]]. apply UserStore_Create_kept. by apply access_ok_clone.
Qed.

Lemma UpdateUser_keeps id i : respects keeps_access (UpdateUser svc id i).
Proof.
  unfold UpdateUser, check_role, when, given. apply op_bind_respects; [apply _|keep_access|]. intros l.
  do 3 (apply op_bind_respects; [apply _|keep_access|]; intros _). apply checked_user_keeps; unfold validatePassword; keep_user.
Qed.

Lemma UpdateAPIKey_keeps id i : respects keeps_access (UpdateAPIKey svc id i).
Proof.
  unfold UpdateAPIKey, check_role, when, given. destruct (negb _); [keep_access|]. apply op_bind_respects; [apply _|keep_access|]. intros l.
  do 4 (apply op_bind_respects; [apply _|keep_access|]; intros _). apply checked_key_keeps.
Qed.

Lemma UpdateLastUsed_keys id : respects keeps_access (keys (Store_UpdateLastUsed id)).
Proof. apply keys_keep_access, UpdateLastUsed_kept; [apply key_ok_norm|done]. Qed.

Lemma ValidateAPIKey_keeps s : respects keeps_access (ValidateAPIKey svc s).
Proof.
  unfold ValidateAPIKey. do 2 (destruct (negb _); [keep_access|]). apply op_bind_respects; [apply _|apply keys_keep_access, List_kept|].
  intros ls. generalize (if (apiKeyPrefixLength <=? String.length s)%nat then Take apiKeyPrefixLength s else "") as c. intros c.
  induction ls as [|l ls IH]; simpl; [keep_access|]. unfold key_at. keep_access; try done. apply UpdateLastUsed_keys.
Qed.

Lemma NewAPIKey_role id now n d r h p c k : NewAPIKey id now n d r h p c = inr k → ak_Role k = r.
Proof. unfold NewAPIKey. do 3 (destruct (_ : bool); [done|]). by intros [= <-]. Qed.

Lemma CreateAPIKey_keeps i c : respects keeps_access (CreateAPIKey svc i c).
Proof.
  unfold CreateAPIKey, check_role, generateAPIKey. do 2 (destruct (_ : bool); [keep_access|]).
  apply op_bind_respects; [apply _|keep_access|]. intros _. apply check_access_post. intros Hok. destruct (String.eqb c ""); [keep_access|].
  do 3 (apply op_bind_respects; [apply _|keep_access|]; intros ?). unfold lift_err.
  destruct (NewAPIKey _ _ _ _ _ _ _ _) as [e|k] eqn:E; [by intros w r w' [= <- <-]|].
  match goal with |- respects _ (bind (ret ?x) ?f) => change (respects keeps_access (f x)) end. cbv beta zeta.
  apply op_bind_respects; [apply _| |intros _; keep_access].
  - apply keys_keep_access, Create_kept; [apply key_ok_norm|]. unfold key_ok. cbn [ak_Role ak_WorkspaceAccess].
    rewrite (NewAPIKey_role _ _ _ _ _ _ _ _ _ E). by apply access_ok_clone.
  - apply keys_keep_access. by intros w [K1 K2].
Qed.

(** C24. In every sequence of operations on users and keys, whatever calls fail, every
    API key in a file has a valid role and an access that passed validation; without a
    cache the same holds of every user.  (With a cache, a rejected update of a user stays
    in the shared object and a later change of the password writes it.) *)
Theorem access_invariant l w :
  access_kept w → access_kept (run_access_ops l w).2.
Proof.
  intros Hw. unfold run_access_ops. destruct (each _ tt l w) as [r w'] eqn:E.
  eapply (respects_each keeps_access (λ _ o, run_access_op o) l tt); [|exact E|done]. intros _ o. destruct o; simpl; apply op_ignore_respects.
  - apply CreateUser_keeps.
  - apply UpdateUser_keeps.
  - unfold DeleteUser. keep_access. apply users_keep_access. intros _. apply UserStore_Delete_kept.
  - apply (password_keeps userID oldPassword newPassword).
  - apply (password_keeps userID "" newPassword).
  - unfold Authenticate, user_at. keep_access. apply users_keep_access. intros _ w1 Hw1.
    eapply wp_mono; [by apply (GetByName_kept user_ok false)|]. by intros r1 w2 [? _].
  - unfold GetUserFromToken, ValidateToken, user_at. keep_access.
  - apply CreateAPIKey_keeps.
  - apply UpdateAPIKey_keeps.
  - unfold DeleteAPIKey. keep_access. by apply keys_keep_access, Delete_kept.
  - apply ValidateAPIKey_keeps.
Qed.
End Access.

(** ** API keys at work *)
Section APIKeys.
Context `{OS, StoreEnv, Sizes, Bcrypt, Random} (svc : Service).
Context (Hperm : ∀ n l, RangeOrder n l ≡ₚ l).

Definition key_obj (w : AuthWorld) (l : nat) : option APIKey := st_heap (aw_keys w) !! l.

Definition candidate (secret : string) : string :=
  if (apiKeyPrefixLength <=? String.length secret)%nat then Take apiKeyPrefixLength secret else "".

(** A key whose stored prefix does not exclude the secret and whose hash is the one of it. *)
Definition key_matches (secret : string) (k : APIKey) : Prop :=
  (candidate secret = "" ∨ ak_KeyPrefix k = candidate secret) ∧ CompareHashAndPassword (ak_KeyHash k) secret = true.

(** What the check of a secret answers. *)
Definition key_answer (secret : string) A (r : Err + nat) (w : AuthWorld) : Prop :=
  match r with
  | inr l => ∃ id k, A !! id = Some k ∧ key_obj w l = Some k ∧ key_matches secret k ∧
      (rep (aw_keys w) A ∨ ∃ now A', spec_used now (ak_ID k) A = inr A' ∧ rep (aw_keys w) A')
  | inl e => rep (aw_keys w) A ∧
      (io_fault e ∨ e = EAuth ErrInvalidAPIKey ∧
         (HasPrefix secret apiKeyPrefix = false ∨ ∀ id k, A !! id = Some k → ¬ key_matches secret k))
  end.

Lemma wp_match_key secret ls ts A w :
  rep (aw_keys w) A → Forall2 (λ l t, key_obj w l = Some t) ls ts → (∀ k, k ∈ ts → ∃ id, A !! id = Some k) →
  wp (match_key (candidate secret) secret ls) w (λ r w',
    match r with
    | inr l => key_answer secret A r w'
    | inl e => rep (aw_keys w') A ∧ e = EAuth ErrInvalidAPIKey ∧ ∀ k, k ∈ ts → ¬ key_matches secret k
    end).
Proof.
  intros HR Hts. revert w HR Hts. revert ts. induction ls as [|l ls IH]; intros ts w HR Hts HA.
  { inversion Hts; subst. apply wp_fail. split_and!; [done|done|]. by intros k ?%elem_of_nil. }
  inversion Hts as [|? t ? ts' Ht Hts']; subst. cbn [match_key]. apply wp_bind, wp_gets. unfold key_obj in Ht. rewrite Ht. simpl default.
  assert (∀ w', aw_keys w' = aw_keys w → ¬ key_matches secret t →
    wp (match_key (candidate secret) secret ls) w' (λ r w', match r with
      | inr l => key_answer secret A r w'
      | inl e => rep (aw_keys w') A ∧ e = EAuth ErrInvalidAPIKey ∧ ∀ k, k ∈ t :: ts' → ¬ key_matches secret k end)) as Hnext.
  { intros w' Ew Hn. eapply wp_mono; [apply (IH ts' w')|].
    - by rewrite Ew.
    - unfold key_obj in *. by rewrite Ew.
    - intros k Hk. apply HA. by right.
    - intros [e|x] w2; [|done]. intros (K1 & K2 & K3). split_and!; [done|done|]. intros k [->|Hk]%elem_of_cons; auto. }
  destruct (negb (String.eqb (candidate secret) "") && negb (String.eqb (ak_KeyPrefix t) (candidate secret))) eqn:Hskip.
  { apply Hnext; [done|]. intros [Hc _]. apply andb_true_iff in Hskip as [E1%negb_true_iff E2%negb_true_iff].
    apply String.eqb_neq in E1, E2. naive_solver. }
  assert (candidate secret = "" ∨ ak_KeyPrefix t = candidate secret) as Hc.
  { apply andb_false_iff in Hskip as [E%negb_false_iff|E%negb_false_iff]; apply String.eqb_eq in E; auto. }
  apply wp_bind, wp_compare. destruct (CompareHashAndPassword (ak_KeyHash t) secret) eqn:Ec.
  2:{ apply Hnext; [done|]. intros [_ ?]. congruence. }
  apply wp_bind, wp_ignore, wp_keys. cbn [aw_fs aw_keys]. eapply wp_mono; [apply (UpdateLastUsed_changes (ak_ID t)); exact HR|].
  intros r [fs s] [Hg Hr]. apply wp_ret. destruct (HA t) as [id Hid]; [by left|]. exists id, t. split_and!; [done| |by split|].
  - unfold key_obj. cbn. by eapply prefix_lookup_Some.
  - destruct r as [e|[]]; [left; apply Hr|]. right. destruct Hr as (now & A' & ? & ?). eauto.
Qed.

Lemma ValidateAPIKey_spec secret w A :
  sv_apiKeyStore svc = true → rep (aw_keys w) A → wp (ValidateAPIKey svc secret) w (key_answer secret A).
Proof using Hperm.
  intros Hsv HR. unfold ValidateAPIKey. rewrite Hsv. simpl. destruct (HasPrefix secret apiKeyPrefix) eqn:Hp; simpl.
  2:{ apply wp_fail. split; [done|]. right. auto. }
  apply wp_bind, wp_keys. eapply wp_mono; [by apply List_reads|]. intros [e|ls] [fs s] (HR' & _ & Hr); [split; [done|by left]|].
  destruct Hr as (ts & Hts & Hpm). eapply wp_mono; [apply (wp_match_key secret ls ts A)|].
  - done.
  - exact Hts.
  - intros k Hk. rewrite Hpm in Hk. apply list_elem_of_fmap in Hk as ([id k'] & -> & Hk). exists id. by apply elem_of_map_to_list.
  - intros [e|l] w'; [|done]. intros (K1 & -> & K3). split; [done|]. right. split; [done|]. right. intros id k Hk. apply K3.
    rewrite Hpm. apply list_elem_of_fmap. exists (id, k). split; [done|]. by apply elem_of_map_to_list.
Qed.

(** C25. The check of an API key accepts a secret exactly when it has the prefix of keys
    and some stored key has its hash, the prefix stored with the key not excluding it; it
    returns such a key, in whatever order the keys are listed, and changes nothing but
    the time of its last use. *)
Theorem ValidateAPIKey_correct secret w A :
  sv_apiKeyStore svc = true → rep (aw_keys w) A →
  let '(r, w') := ValidateAPIKey svc secret w in key_answer secret A r w'.
Proof using Hperm. intros Hsv HR. by apply wp_let, ValidateAPIKey_spec. Qed.

(** *** From creation to use *)
Context (Hbcrypt : ∀ n p c h, GenerateFromPassword n p c = Some h → CompareHashAndPassword h p = true).

Lemma wp_acall w Q : (∀ fs n, Q (inr n) (set_users (fs, aw_users w) w)) → wp acall w Q.
Proof. intros HQ. apply wp_users, wp_scall. auto. Qed.
Lemma wp_anow w Q : (∀ fs t, Q (inr t) (set_users (fs, aw_users w) w)) → wp anow w Q.
Proof. intros HQ. apply wp_users, wp_snow. auto. Qed.

(** The worlds that differ in the calls made so far. *)
Lemma wp_generate bytes prefix len w Q :
  (∀ fs b h, CompareHashAndPassword h (prefix ++ Base58Encode b) = true →
     let full := (prefix ++ Base58Encode b)%string in
     Q (inr (mkSecretParts full (if (len <=? String.length full)%nat then Take len full else full) h)) (set_users (fs, aw_users w) w)) →
  (∀ fs a, Q (inl (EAuth a)) (set_users (fs, aw_users w) w)) →
  wp (generate_secret svc bytes prefix len) w Q.
Proof using Hbcrypt.
  intros Hy Hn. apply wp_bind, wp_acall. intros fs n. destruct (rand_Read n bytes) as [b|]; [|apply wp_fail, Hn].
  apply wp_bind, wp_bind, wp_acall. intros fs1 m. destruct (GenerateFromPassword m _ _) as [h|] eqn:E; [|apply wp_fail, Hn].
  apply wp_ret, wp_ret, Hy. by eapply Hbcrypt.
Qed.

Lemma spec_create_inr {C T} `{!StoreKind C T, !StoreKindOk C T} (t : T) (A A' : gmap string T) :
  spec_create t A = inr A' → A' = <[k_ID t := k_norm t]> A ∧ A !! k_ID t = None.
Proof.
  unfold spec_create. do 2 (destruct (String.eqb _ _); [done|]). case_bool_decide as Hfree; [done|]. intros [= <-]. split; [done|].
  destruct (A !! k_ID t) eqn:E; [|done]. destruct Hfree. eauto.
Qed.

(** A new key: as asked for, under a fresh identifier, and its secret matches it. *)
Definition key_created (i : CreateAPIKeyInput) (creatorID : string) A (l : nat) (secret : string) (w : AuthWorld) : Prop :=
  ∃ k, key_obj w l = Some k ∧ A !! ak_ID k = None ∧ rep (aw_keys w) (<[ak_ID k := k_norm k]> A) ∧
    HasPrefix secret apiKeyPrefix = true ∧ key_matches secret k ∧
    ak_Name k = ci_Name i ∧ ak_Role k = ci_Role i ∧ ak_WorkspaceAccess k = CloneWorkspaceAccess (ci_WorkspaceAccess i) ∧
    ak_CreatedBy k = creatorID.

Lemma CreateAPIKey_spec i c w A :
  rep (aw_keys w) A →
  wp (CreateAPIKey svc i c) w (λ r w', match r with inl _ => rep (aw_keys w') A | inr (l, secret) => key_created i c A l secret w' end).
Proof using Hbcrypt.
  intros HR. unfold CreateAPIKey, check_role, check_access. destruct (negb (sv_apiKeyStore svc)); [by apply wp_fail|].
  destruct (String.eqb (ci_Name i) ""); [by apply wp_fail|].
  apply wp_bind. destruct (Role_Valid (ci_Role i)); [apply wp_ret|by apply wp_fail]. apply wp_bind.
  destruct (ValidateWorkspaceAccess _ _ _); [by apply wp_fail|apply wp_ret]. destruct (String.eqb c ""); [by apply wp_fail|].
  apply wp_bind, wp_generate; [|done]. intros fs b h Hh full. apply wp_bind, wp_acall. intros fs1 n. apply wp_bind, wp_anow. intros fs2 now.
  destruct (NewAPIKey _ _ _ _ _ _ _ _) as [e|k] eqn:Ek; [by apply wp_bind, wp_fail|]. apply wp_bind, wp_ret.
  set (k' := {| k with ak_WorkspaceAccess := CloneWorkspaceAccess (ci_WorkspaceAccess i) |}).
  apply wp_bind, wp_keys. eapply wp_mono; [apply (Create_changes k'); exact HR|]. intros [e|[]] [fs3 s] [_ Hr]; [apply Hr|].
  destruct Hr as (now' & A' & HA & HR'). apply wp_bind, wp_keys. unfold wp at 1. cbn [fst snd salloc]. apply wp_ret.
  unfold NewAPIKey in Ek. repeat (case_match; [done|]). injection Ek as <-.
  apply spec_create_inr in HA as [-> Hfree]. exists k'. split_and!; try done.
  - unfold key_obj. cbn. by rewrite lookup_app_r, Nat.sub_diag by lia.
  - by apply rep_alloc.
  - split; [|done]. unfold candidate. cbn [sp_full ak_KeyPrefix]. destruct (apiKeyPrefixLength <=? String.length full)%nat eqn:E; [|by left].
    right. change (ak_KeyPrefix k') with (if (apiKeyPrefixLength <=? String.length full)%nat then Take apiKeyPrefixLength full else full).
    by rewrite E.
Qed.

(** C26. The secret that is handed out when a key is created is accepted from then on, and
    when no older key happens to match it, it identifies the key that was created, with
    the role and the access that were asked for.  Only a failing system call can make
    the check refuse it. *)
Theorem api_key_roundtrip i c w A l secret w1 :
  sv_apiKeyStore svc = true → rep (aw_keys w) A → CreateAPIKey svc i c w = (inr (l, secret), w1) →
  let '(r, w2) := ValidateAPIKey svc secret w1 in
  match r with
  | inl e => io_fault e
  | inr l' => ∃ k, key_obj w2 l' = Some k ∧ key_matches secret k ∧
      ((∀ id k0, A !! id = Some k0 → ¬ key_matches secret k0) →
        ak_Name k = ci_Name i ∧ ak_Role k = ci_Role i ∧ ak_CreatedBy k = c ∧
        ak_WorkspaceAccess k = CloneWorkspaceAccess (ci_WorkspaceAccess i) ∧ ak_ID <$> key_obj w1 l = Some (ak_ID k))
  end.
Proof using Hbcrypt Hperm.
  intros Hsv HR Hc. pose proof (CreateAPIKey_spec i c w A HR) as Hs. unfold wp in Hs. rewrite Hc in Hs. simpl in Hs.
  destruct Hs as (k & Hk & Hnew & HR1 & Hpre & Hm & Hname & Hrole & Hacc & Hby).
  apply wp_let. eapply wp_mono; [by apply ValidateAPIKey_spec|]. intros [e|l'] w2 Hr.
  - destruct Hr as [_ [He|[_ [Hf|Hno]]]]; [done|congruence|]. exfalso. apply (Hno (ak_ID k) (k_norm k)); [by rewrite lookup_insert_eq|exact Hm].
  - destruct Hr as (id & k2 & Hk2 & Ho & Hm2 & _). exists k2. split_and!; [done..|]. intros Hold.
    apply lookup_insert_Some in Hk2 as [[<- <-]|[_ Hk2]]; [|by destruct (Hold id k2)]. rewrite Hk. simpl.
    split_and!; [done..| |done]. by rewrite Hacc, Clone_idem.
Qed.
End APIKeys.

(** ** Sessions *)
Section Sessions.
Context `{OS, StoreEnv, Sizes, Jwt} (svc : Service).

(** What the JWT library promises: a token that was signed with a key parses back to its
    claims for whoever gives the same key for its method, until it expires. *)
Context (Hjwt : ∀ m key c token keyfunc now,
  SignedString m key c = Some token → keyfunc m = Some key →
  ParseWithClaims token keyfunc now = if (now <? cl_ExpiresAt c)%Z then ParseOk c true else ParseExpired).

(** The user of a session, given the users there are now. *)
Definition session_answer (id : string) (A : gmap string User) : AuthErr + User :=
  match spec_get id A with
  | inl _ => inl ErrInvalidToken
  | inr u => if us_IsDisabled u then inl ErrUserDisabled else inr u
  end.

End Sessions.
