(* ===== verification/ServiceExamples.v ===== *)
(** * The services: concrete runs

    The witnesses of the theorems about the process store, the queue processor, the zombie
    detector, the store of dispatched tasks, the coordinator, the streams of logs and
    authentication, and the runs behind the findings about them, in a module each. *)

From stdpp Require Import base strings list gmap sorting.
From Stdlib Require Import ZArith Lia Ascii QArith Strings.Byte.
From S2P Require Import Prelude Status Step Exec GoStrings GoDate RunStatus SchedulerData Catchup FileSys DirLock QueueName QueueStore QueueExamples RunFiles RunStore RunLife RunExamples ProcStore ProcLaws Prog Backoff Distributed QueueProc QueueProcLaws QueuePass Zombie DistRepair DispatchStore DispatchLaws Coordinator CoordHandler CoordDispatch CoordLease CoordReportLaws CoordDetectLaws CoordDispatchLaws CoordLeaseLaws LogStream LogStreamLaws AuthData AuthStore AuthService.

Module ProcRuns.
Import Prelude GoStrings GoDate RunStatus Catchup FileSys DirLock QueueName QueueStore QueueExamples ProcStore ProcLaws.
Open Scope op_scope.
Open Scope Z_scope.

(** ** Concrete runs *)
Definition sampleMeta : ProcMeta := mkProcMeta 0 "etl" "run-1" "att1" "etl" "run-1".
Definition noProcs : ProcWorld := mkProcWorld (mkFS ∅ 0) ∅.

Definition acquiredRun : ProcHandle * ProcWorld :=
  match @Acquire (steady 0) defaultProcConfig "main" sampleMeta noProcs with
  | (inr h, w) => (h, w)
  | (inl _, w) => (NewProcHandler (mkProcPath "" "" "") sampleMeta 0 0, w)
  end.

Lemma acquiredRun_eq :
  @Acquire (steady 0) defaultProcConfig "main" sampleMeta noProcs = (inr acquiredRun.1, acquiredRun.2).
Proof. vm_compute. reflexivity. Qed.

Lemma steady0_instant n : instant_ok (@Now (steady 0) n).
Proof.
  change (@Now (steady 0) n) with (base + Z.of_nat n * 0). rewrite Z.mul_0_r, Z.add_0_r.
  by apply (steady_instant 0); lia.
Qed.

(** The file of an acquired process, removed by somebody else. *)
Definition removedFile : ProcWorld := remove_proc (ph_fileName acquiredRun.1) acquiredRun.2.
Definition tickedRun : ProcWorld := (@heartbeat_tick (steady 0) false acquiredRun.1 removedFile).2.

Lemma heartbeats_keep_alive_witness :
  (@IsRunAlive (steady 0) defaultProcConfig "main" (mkDAGRunRef "etl" "run-1") removedFile).1 = inr false ∧
  (@IsRunAlive (steady 0) defaultProcConfig "main" (mkDAGRunRef "etl" "run-1") tickedRun).1 = inr true.
Proof.
  split; [vm_compute; reflexivity|].
  pose proof (@heartbeats_keep_alive (steady 0) defaultProcConfig "main" acquiredRun.1 base tickedRun tickedRun
    (@IsRunAlive (steady 0) defaultProcConfig "main" (mkDAGRunRef "etl" "run-1") tickedRun).1
    (@IsRunAlive (steady 0) defaultProcConfig "main" (mkDAGRunRef "etl" "run-1") tickedRun).2
    (steady_ok 0) steady0_instant) as HT.
  destruct HT as [HT|[HT _]]; [| | | | | | |exact HT|].
  - apply (steady0_instant 0).
  - by split.
  - reflexivity.
  - change base with (@Now (steady 0) (fs_calls (pw_fs removedFile))).
    eapply (holds_tick defaultProcConfig "main" acquiredRun.1 base acquiredRun.2 removedFile _ tickedRun).
    + eapply holds_acquire; [exact acquiredRun_eq|]. eexists _, base. by split; vm_compute.
    + right. apply find_remove_eq.
    + vm_compute. reflexivity.
  - reflexivity.
  - vm_compute. reflexivity.
  - intros k _. change (@Now (steady 0) k) with (base + Z.of_nat k * 0). rewrite Z.mul_0_r. split; vm_compute; done.
  - exfalso. vm_compute in HT. discriminate HT.
Defined.

(** The acquired run is alive, by a listed file that is fresh. *)
Lemma IsRunAlive_correct_witness :
  ∃ k path f e, listed "main" path f acquiredRun.2 ∧
    entry_at (pc_staleTime defaultProcConfig) path (@Now (steady 0) k) f = inr e ∧ alive_entry (mkDAGRunRef "etl" "run-1") e.
Proof.
  destruct (@IsRunAlive_correct (steady 0) defaultProcConfig (steady_ok 0) "main" (mkDAGRunRef "etl" "run-1") acquiredRun.2)
    as (k & r & w' & E & _ & _ & Hr).
  apply (f_equal fst) in E. vm_compute in E. subst r. exists k. by apply Hr.
Defined.

(** ** A stale file *)
Definition clockAt (t : Time) : OS := Build_OS (λ _, true) (λ _, t) (λ _, "").

Definition staleEntry : ProcEntry :=
  mkProcEntry "main" (ph_fileName acquiredRun.1) (ph_meta acquiredRun.1) (UnixOf base) false.

(** The process writes a heartbeat after the entry was listed. *)
Definition lateBeat : ProcWorld :=
  (@heartbeat_tick (clockAt (base + 200 * Second)) false acquiredRun.1 acquiredRun.2).2.

(** Five minutes later the file is removed, but the one with the new heartbeat is not. *)
Lemma RemoveIfStale_safe_witness :
  let late := clockAt (base + 300 * Second) in
  let entries := @ListEntries late defaultProcConfig "main" acquiredRun.2 in
  entries.1 = inr [staleEntry] ∧
  find_proc (ph_fileName acquiredRun.1) (@RemoveIfStale late defaultProcConfig staleEntry acquiredRun.2).2 = None ∧
  find_proc (ph_fileName acquiredRun.1) (@RemoveIfStale late defaultProcConfig staleEntry lateBeat).2 =
  find_proc (ph_fileName acquiredRun.1) lateBeat.
Proof.
  intros late entries. split; [vm_compute; reflexivity|]. split; [vm_compute; reflexivity|].
  destruct (@RemoveIfStale_safe late defaultProcConfig staleEntry lateBeat
    (@RemoveIfStale late defaultProcConfig staleEntry lateBeat).1 (@RemoveIfStale late defaultProcConfig staleEntry lateBeat).2
    ltac:(by destruct (RemoveIfStale _ _ _)) (ph_fileName acquiredRun.1)) as [E|(_ & E & _)]; [exact E|].
  vm_compute in E. discriminate E.
Defined.

(** ** Directories with a dot

    The listing skips directories whose name starts with a dot, but a DAG may have
    such a name: its process is never seen, however often it beats. *)
Definition dottedMeta : ProcMeta := mkProcMeta 0 ".etl" "run-1" "att1" ".etl" "run-1".

Lemma dotted_dag_never_alive :
  match @Acquire (steady 0) defaultProcConfig "main" dottedMeta noProcs with
  | (inr h, w) => is_Some (find_proc (ph_fileName h) w) ∧
      (@IsRunAlive (steady 0) defaultProcConfig "main" (mkDAGRunRef ".etl" "run-1") w).1 = inr false ∧
      (@CountAlive (steady 0) defaultProcConfig "main" w).1 = inr 0
  | (inl _, _) => False
  end.
Proof. vm_compute. split_and!; try reflexivity. by eexists. Qed.
End ProcRuns.

Module QueueRuns.
Import Prelude Status Step FileSys RunStatus SchedulerData RunLife RunExamples Distributed Prog Backoff QueueProc QueueProcLaws QueuePass.
Open Scope prog_scope.
Open Scope Z_scope.

#[local] Existing Instances plain_text amd64_float.

(** Two slots, no coordinator, two retries, no grace period. *)
Definition sampleProcessor : QueueProcessor :=
  mkQueueProcessor false false false "" (mkBackoffConfig (500 * Millisecond) (5 * Second) 2 0) 0.

Definition sampleRun (item : string) : DAGRunRef := mkDAGRunRef "etl" item.
Definition sampleDAG : DAG := plain_dag "etl" "/dags/etl.yaml" [] [] [] 0 "".
Definition queuedStatus : DAGRunStatus := {| DAGRunStatus_zero with rs_Name := "etl"; rs_Status := Queued |}.

(** The process of a run shows up [delay] questions after its launch. *)
Definition asked (run : DAGRunRef) (ev : Event QAns) : bool :=
  match projT1 ev with QIsRunAlive _ r => bool_decide (r = run) | _ => false end.
Definition started_run (run : DAGRunRef) (ev : Event QAns) : bool :=
  match projT1 ev with QGo _ id _ => bool_decide (id = ref_ID run) | _ => false end.

Definition sampleEnv (delay : nat) : Env QAns := λ c log,
  match c as c' return QAns c' with
  | QIsClosed => false
  | QCtxErr => None
  | QCtxOrQuit => StillOpen
  | QLoadQueue _ => true
  | QList _ => inr ["a"; "b"; "c"]%string
  | QItemData item => inr (sampleRun item)
  | QDequeueByDAGRunID _ _ => inr tt
  | QCountAlive _ => inr 0%nat
  | QMaxConcurrency _ => 2
  | QInflight _ => 0
  | QListByQueue _ => inr []
  | QCountOutstandingByQueue _ _ => inr 0%nat
  | QHasOutstandingAttempt _ _ => inr false
  | QIsRunAlive _ run => inr (existsb (started_run run) log && (delay <? count (asked run) log)%nat)
  | QFindAttempt _ => inr (mkAttemptRef "att" false)
  | QReadStatus _ => inr queuedStatus
  | QReadDAG _ => inr sampleDAG
  | QIsSuspended _ => false
  | QCompareAndSwap _ _ _ _ => inr (None, false)
  | QGetLease _ => inr None
  | QNow => 0
  | QRandom => λ _ _, 0
  | QWait _ => None
  | QExecuteDAG _ _ _ => None
  | QGo _ _ _ => tt
  | QPollExecErr => None
  | QSendExecErr _ => tt
  | QIncInflight _ | QDecInflight _ => tt
  | QWakeUp => tt
  end.

(** Both goroutines run, one call each in turn. *)
Definition inTurn : list nat := concat (replicate 40 [0; 1])%nat.
Definition samplePass : list string * QLog * list (Thread QAns) :=
  ProcessQueueItems sampleProcessor (sampleEnv 1) 3 inTurn "q" [].

Definition thread_log (i : nat) : QLog := match samplePass.2 !! i with Some t => t.2 | None => [] end.

(** Two of the three items are picked, both are launched and both are removed. *)
Example samplePass_runs :
  samplePass.1.1 = ["a"; "b"]%string ∧ count launched samplePass.1.2 = 2%nat ∧
  map (λ i, count (λ ev, match dequeue_of ev with Some _ => true | None => false end) (thread_log i)) [0; 1]%nat = [1; 1]%nat.
Proof. vm_compute. done. Qed.

Lemma samplePass_eq : ProcessQueueItems sampleProcessor (sampleEnv 1) 3 inTurn "q" [] = (samplePass.1.1, samplePass.1.2, samplePass.2).
Proof. vm_compute. reflexivity. Qed.

Lemma queue_launches_guarded_witness :
  count launched (thread_log 0) = 1%nat ∧
  ∀ before ev after x, thread_log 0 = before ++ ev :: after → launch_try ev = Some x → launch_ok "a" "q" x before.
Proof.
  split; [vm_compute; reflexivity|].
  destruct (samplePass.2 !! 0%nat) as [[prog log]|] eqn:Ht; [|vm_compute in Ht; discriminate Ht].
  assert (thread_log 0 = log) as -> by (unfold thread_log; by rewrite Ht).
  apply (proj1 (queue_launches_guarded sampleProcessor (sampleEnv 1) 3 inTurn "q" [] _ _ _ samplePass_eq) 0%nat "a" prog log);
    [vm_compute; reflexivity|exact Ht].
Defined.


Lemma queue_pass_within_capacity_witness :
  ∃ c, Z.of_nat (count launched samplePass.1.2) = 2 ∧ 2 <= free_slots c ∧ event (QCountAlive "q") (inr (cap_local c)) ∈ samplePass.1.2.
Proof.
  destruct (queue_pass_within_capacity sampleProcessor (sampleEnv 1) 3 inTurn "q" [] _ _ _ samplePass_eq)
    as [Hn|(c & k & k' & Hh & Hc & Hle)]; [vm_compute in Hn; discriminate Hn|].
  exists c. split; [vm_compute; reflexivity|]. split.
  - change (Z.of_nat (count launched [])) with 0 in Hle. replace (Z.of_nat (count launched samplePass.1.2)) with 2 in Hle by (vm_compute; reflexivity).
    exact Hle.
  - rewrite Hh. apply elem_of_app; right. apply elem_of_app; left. apply Hc.
Defined.

Lemma queue_item_ends_witness :
  (exec (sampleEnv 100) (processDAG sampleProcessor 3 "a" "q") []).1 = Some false ∧
  (exec (sampleEnv 100) (processDAG sampleProcessor 3 "a" "q") []).1 ≠ None.
Proof.
  split; [vm_compute; reflexivity|].
  pose proof (queue_item_ends sampleProcessor (sampleEnv 100) 3 "a" "q" ltac:(simpl; lia)) as Hx.
  destruct (exec (sampleEnv 100) (processDAG sampleProcessor 3 "a" "q") []). apply Hx.
Defined.

(** A process that does not show up before the retries end: the item stays queued and
    the next pass launches the run again. *)
Example slow_start_launches_twice :
  let first := exec (sampleEnv 100) (item_goroutine sampleProcessor 3 "q" "a") [] in
  let second := exec (sampleEnv 100) (item_goroutine sampleProcessor 3 "q" "a") first.2 in
  count launched first.2 = 1%nat ∧ count launched second.2 = 2%nat.
Proof. vm_compute. done. Qed.

(** Two items that name one run, in one batch: both goroutines find no process and start
    the run. *)
Definition oneRunEnv : Env QAns := λ c log,
  match c as c' return QAns c' with QItemData _ => inr (sampleRun "a") | c => sampleEnv 1 c log end.

Example run_named_twice_starts_twice :
  count (starts "a") (ProcessQueueItems sampleProcessor oneRunEnv 3 inTurn "q" []).1.2 = 2%nat.
Proof. vm_compute. done. Qed.

(** ** Witnesses of the retry loop *)
Definition alwaysFails (n : nat) : QProg (option Error * nat) := Ret (Some [errNotStarted], S n).

Definition failedRetry : option (option Error) * (nat * option Error * nat) :=
  (exec (sampleEnv 1) (Retry ctxErr (qcall QNow) (qcall QRandom) qwait retriable_default
     (startup_policy sampleProcessor) (counted alwaysFails) 3 (0%nat, None, 0%nat)) []).1.

Lemma Retry_terminates_witness :
  failedRetry = (Some (Some [errNotStarted]), (3%nat, Some [errNotStarted], 3%nat)) ∧
  retry_outcome retriable_default (startup_policy sampleProcessor) is_ctx_error failedRetry.
Proof.
  split; [vm_compute; reflexivity|].
  refine (Retry_terminates ctxErr (qcall QNow) (qcall QRandom) qwait retriable_default (startup_policy sampleProcessor) alwaysFails
    is_ctx_error ctxErr_ret qwait_ret 3 (sampleEnv 1) 0%nat [] _). simpl. lia.
Defined.

(** The jittered policy of the worker after ten failures. *)
Lemma retry_delay_bounds_witness :
  let policy := Jittered (Exponential (NewExponentialBackoffPolicy Second)) Jitter in
  ComputeNextInterval (λ _ n, n - 1) policy 10 = Some (15 * Second) ∧ 0 < retry_delay (15 * Second) <= 15 * Second.
Proof.
  intros policy. split; [vm_compute; reflexivity|].
  pose proof (@retry_delay_bounds _ amd64_laws policy (λ _ n, n - 1) 10 (15 * Second)) as Hb.
  assert (Z.max (100 * Millisecond) (max_interval policy) = 15 * Second) as E by (vm_compute; reflexivity).
  rewrite E in Hb. apply Hb; [|intros i n Hn; lia|vm_compute; reflexivity].
  split; [split_and!; vm_compute; done|]. intros _. vm_compute. done.
Defined.
End QueueRuns.

Module ZombieRuns.
Import Prelude Status FileSys RunStatus ProcStore Prog Backoff QueueProc QueueProcLaws Zombie.
Open Scope prog_scope.
Open Scope Z_scope.

Definition entry_of_attempt (file attempt : string) (fresh : bool) : ProcEntry :=
  mkProcEntry "main" (mkProcPath "main" "etl" file) (mkProcMeta 1 "etl" "run-1" attempt "etl" "run-1") 1 fresh.

Definition runningStatus : DAGRunStatus :=
  {| DAGRunStatus_zero with rs_Name := "etl"; rs_DAGRunID := "run-1"; rs_AttemptID := "att1"; rs_Status := Running |}.

(** The listing of the scan with a given number. *)
Definition scanEnv (listings_at : nat → list ProcEntry) : Env ZAns := λ c log,
  match c as c' return ZAns c' with
  | ZListAllEntries => inr (listings_at (length (listings log)))
  | ZDone => false
  | ZFindAttempt _ | ZFindSubAttempt _ _ => inr (mkAttemptRef "att1" false)
  | ZReadStatus _ => inr runningStatus
  | ZReadDAG _ => inr (plain_dag "etl" "/dags/etl.yaml" [] [] [] 0 "")
  | ZRepairStaleLocalRun _ _ _ => inr (runningStatus, true)
  | ZRemoveIfStale _ => None
  end.

Definition repairs (log : ZLog) : nat := count (λ ev, match repair_of ev with Some _ => true | None => false end) log.

(** A stale entry: the third scan repairs its run, and starts to count again. *)
Example stale_run_repaired :
  let env := scanEnv (λ _, [entry_of_attempt "f1" "att1" false]) in
  map (λ n, repairs (exec env (scans 3 n ∅) []).2) [1; 2; 3; 4; 6]%nat = [0; 0; 1; 1; 2]%nat.
Proof. vm_compute. reflexivity. Qed.

(** A heartbeat in the second scan starts the count again. *)
Example heartbeat_resets :
  let env := scanEnv (λ n, [entry_of_attempt "f1" "att1" (n =? 1)%nat]) in
  map (λ n, repairs (exec env (scans 3 n ∅) []).2) [3; 4; 5]%nat = [0; 0; 1]%nat.
Proof. vm_compute. reflexivity. Qed.

(** Two files of one attempt count twice in a scan. *)
Example two_files_count_twice :
  let env := scanEnv (λ _, [entry_of_attempt "f1" "att1" false; entry_of_attempt "f2" "att1" false]) in
  map (λ n, repairs (exec env (scans 3 n ∅) []).2) [1; 2]%nat = [0; 1]%nat.
Proof. vm_compute. reflexivity. Qed.
End ZombieRuns.

Module DispatchRuns.
Import Prelude GoStrings RunStatus Catchup FileSys QueueName RunFiles RunStore Distributed Prog QueueProcLaws DispatchStore DispatchLaws.
Open Scope prog_scope.
Open Scope Z_scope.

#[local] Instance plain_digest : Digest := {| sha256_hex := λ s, s |}.

Definition file_name (claims : bool) (p : TaskPath) : option string :=
  match p, claims with Pending n, false | Claim n, true => Some n | _, _ => None end.
Definition sample_names (claims : bool) (files : gmap TaskPath dispatchTaskFile) : list string :=
  SortStrings (omap (λ kv, file_name claims kv.1) (map_to_list files)).

(** A minute passes with every listing of the claims. *)
Definition minutes (log : FLog) : Z :=
  Z.of_nat (count (λ ev, match projT1 ev with FList true => true | _ => false end) log).
Definition sample_time (log : FLog) : Time := UnixMilli (60000 * (1 + minutes log)).

Definition sample_fs : Env FAns := λ c log,
  match c as c' return FAns c' with
  | FNow => sample_time log
  | FUuid => ("u" ++ pad 3 (Z.of_nat (length log)))%string
  | FList claims => inr (sample_names claims (files_of log))
  | FRead p => match files_of log !! p with Some r => inr r | None => inl ENotExist end
  | FStat p => match files_of log !! p with Some _ => inr (sample_time log) | None => inl ENotExist end
  | FEnsureDir => None
  | FWrite _ _ => None
  | FRename p _ | FChtimes p _ | FRemove p => match files_of log !! p with Some _ => None | None => Some ENotExist end
  end.

Lemma sample_fs_respects : respects sample_fs.
Proof. intros p q log. simpl. destruct (files_of log !! p); [by eexists|done]. Qed.

Definition sampleTask : Task := mkTask "run" OPERATION_START "steps: []" "etl" "run-1" "" "" "" None "" "" "q" "att1" "k" [] "" "" "" 0 "".
Definition sampleClaim (worker : string) : DispatchTaskClaim := mkClaim worker "p" [] (mkEndpoint "c" "h" 1) (45 * Second).
Definition sampleTTL : Duration := 90 * Second.

Definition sampleOps : list StoreOp :=
  [OpEnqueue (Some sampleTask); OpClaimNext (sampleClaim "w1"); OpHas "k"; OpClaimNext (sampleClaim "w2"); OpClaimNext (sampleClaim "w3")].
Definition sampleThreads : list (Thread FAns) := map (λ op, (run_op sampleTTL op, [])) sampleOps.
Definition turns (n i : nat) : list nat := replicate n i.

(** Where the file of the task is taken. *)
Definition sampleFile : string := taskFileName (UnixMilli 60000) "u001".
Definition takings (log : FLog) : list nat := omap (λ x, x) (imap (λ i ev, if takes sampleFile ev then Some i else None) log).

(** One after the other: the claim of [w1] expires and [w2] gets the task. *)
Definition inOrder : list nat := turns 30 0 ++ turns 30 1 ++ turns 30 2 ++ turns 40 3.
Definition inOrder_log : FLog := (sched sample_fs inOrder [] sampleThreads).1.
Definition cut (i j : nat) (log : FLog) : FLog := take (j - i)%nat (drop i log).

Lemma dispatch_claims_exclusive_witness :
  takings inOrder_log = [13; 38]%nat ∧
  ∃ ev src i op prog before after, ev ∈ cut 14 38 inOrder_log ∧ puts ev = Some (src, sampleFile) ∧ sampleOps !! i = Some op ∧
    (sched sample_fs inOrder [] sampleThreads).2 !! i = Some (prog, before ++ ev :: after) ∧
    put_ok sampleTTL op (src, sampleFile) before.
Proof.
  split; [vm_compute; reflexivity|].
  apply (dispatch_claims_exclusive sampleTTL sample_fs sampleOps inOrder sampleFile (cut 0 13 inOrder_log)
    (default (event FNow 0) (inOrder_log !! 13%nat)) (cut 14 38 inOrder_log)
    (default (event FNow 0) (inOrder_log !! 38%nat)) (drop 39 inOrder_log) sample_fs_respects);
    vm_compute; reflexivity.
Defined.

(** The task is claimed twice without a release in between when two coordinators find
    the same expired claim: the one of [w2] has read it when the one of [w3] puts the
    task back and claims it.  The write of the first brings the old claim back to life,
    its rename makes the task pending again, and both workers hold it. *)
Definition inRace : list nat := turns 30 0 ++ turns 30 1 ++ turns 30 2 ++ turns 3 3 ++ turns 40 4 ++ turns 40 3.
Definition inRace_log : FLog := (sched sample_fs inRace [] sampleThreads).1.

Example recycled_twice :
  map (λ kv, (kv.1, tf_WorkerID kv.2, tf_TaskFileName kv.2, tf_ClaimedAt kv.2)) (map_to_list (files_of inRace_log)) =
    [(Claim "claim_u038.json", "w3", sampleFile, 360000); (Claim "claim_u052.json", "w2", sampleFile, 360000)]%string.
Proof. vm_compute. reflexivity. Qed.
End DispatchRuns.

Module CoordRuns.
Import Prelude Status Step Exec GoStrings RunStatus Catchup FileSys RunFiles RunStore RunLife Distributed Prog Backoff QueueProc DistRepair DispatchStore Coordinator CoordHandler CoordDispatch CoordLease CoordReportLaws CoordDetectLaws CoordDispatchLaws CoordLeaseLaws LogStream LogStreamLaws.
Open Scope prog_scope.
Open Scope Z_scope.

#[local] Instance plain_times : TimeText :=
  {| FormatRFC3339 := λ _, "2026-01-01T00:00:00Z"; FormatUTC := λ _, "2026-01-01T00:00:00Z"; parseTimeRFC3339 := λ _, None |}.

(** The text of the outermost error. *)
#[local] Instance plain_messages : ErrorMessage :=
  {| Error_message := λ err, match err with OtherError msg :: _ => msg | _ => "error" end |}.

Definition coordHandler : Handler :=
  mkHandler (mkEndpoint "c" "h" 1) "" true true true true true (30 * Second) (45 * Second).
Definition lostRun : DAGRunStatus :=
  {| DAGRunStatus_zero with
     rs_Name := "etl"; rs_DAGRunID := "run-1"; rs_AttemptID := "att1"; rs_AttemptKey := "k"; rs_Status := Running; rs_WorkerID := "w1" |}.
Definition coordDAG : DAG := plain_dag "etl" "/dags/etl.yaml" [] [] [] 0 "".
Definition lostLease : DAGRunLease := mkDAGRunLease "k" (mkDAGRunRef "etl" "run-1") (mkDAGRunRef "" "") "att1" "q" "w1" (mkEndpoint "c" "h" 1) 1000 1000.

(** Stores with one run: its status, its leases, and a task that nobody takes when
    [taken] is false. *)
Definition coordEnv (st : DAGRunStatus) (leases : list DAGRunLease) (taken : bool) : Env HAns := λ c log,
  match c as c' return HAns c' with
  | HDist DNow => UnixMilli 100000
  | HDist (DGetLease _) => match leases with l :: _ => inr (Some l) | [] => inl [ErrDAGRunLeaseNotFound] end
  | HDist (DGetWorker _) => inl [ErrWorkerHeartbeatNotFound]
  | HDist (DCompareAndSwap _ _ _ f) => inr (Some (f st), true)
  | HUuid => "u"
  | HLoadYAML _ => inr coordDAG
  | HFindAttempt _ | HFindSubAttempt _ _ | HCreateAttempt _ _ _ _ | HCreateSubAttempt _ _ => inr (mkAttemptRef (rs_AttemptID st) false)
  | HSetDAG _ _ => tt
  | HReadStatus _ => inr st
  | HOpen _ | HWrite _ _ | HWriteStepMessages _ _ _ | HClose _ | HAbort _ => None
  | HIsAborting _ => inr false
  | HArtifactPath _ _ => inr ""
  | HMkdirAll _ => None
  | HListStatuses _ => inr [Some st]
  | HSwapOrSkip _ _ _ f => match f st with Some st' => inr (Some st', true) | None => inl errRunHeartbeatRepairSkipped end
  | HCacheGet _ => None
  | HCacheMatch _ _ => CacheMiss
  | HCachePut _ _ | HCacheRelease _ _ => tt
  | HLeaseUpsert _ | HLeaseTouch _ _ | HLeaseDelete _ => None
  | HLeaseListAll => inr leases
  | HActiveUpsert _ | HActiveDelete _ => None
  | HActiveListAll => inr []
  | HWorkerUpsert _ => None
  | HWorkerList => inr [mkWorkerHeartbeat "w1" [] None 99000]
  | HWorkerDeleteStale _ => tt
  | HEnqueue _ => if taken then None else Some [OtherError "full"]
  | HClaimNext _ | HGetClaim _ => inr None
  | HDeleteClaim _ => None
  | HWaitTick => true
  | HEnsureWaiting _ | HHandOff _ => None
  | HHeartbeat _ => tt
  | HCollectStale _ => []
  end.

Definition is_swap (ev : Event HAns) : bool := match fail_of ev with Some _ => true | None => false end.
Definition is_untrack (ev : Event HAns) : bool := match untrack_of ev with Some _ => true | None => false end.

(** The lease is too old and the worker is not known: the run is failed, and its lease
    and its record are forgotten. *)
Lemma lease_detector_guarded_witness :
  let log := (exec (coordEnv lostRun [lostLease] true) (detectStaleLeases coordHandler) []).2 in
  count is_swap log = 1%nat ∧ count is_untrack log = 2%nat ∧ detect_ok coordHandler log.
Proof. split; [by vm_compute|]. split; [by vm_compute|]. by apply (lease_detector_guarded coordHandler). Defined.

(** A fresh lease keeps it. *)
Example fresh_lease_kept :
  count is_swap (exec (coordEnv lostRun [{| lostLease with dl_LastHeartbeatAt := 99000 |}] true) (detectStaleLeases coordHandler) []).2 = 0%nat.
Proof. by vm_compute. Qed.

(** A run that is over is not reopened by a late report. *)
Example late_report :
  (exec (coordEnv {| lostRun with rs_Status := Aborted |} [] true) (ReportStatus coordHandler "c" "w1" (Some (Some lostRun))) []).1 =
  inr (false, remoteAttemptRejectedLeaseInactive).
Proof. by vm_compute. Qed.

(** A queued run that was superseded is not dispatched; one that is still queued is. *)
Definition queuedTask (attemptID : string) : Task :=
  mkTask "run" OPERATION_RETRY "steps: []" "etl" "run-1" "" "" "" (Some (Some {| lostRun with rs_Status := Queued; rs_AttemptID := attemptID |}))
    "" "" "q" "" "" [] "" "" "" 0 "".
Definition queuedRun : DAGRunStatus := {| lostRun with rs_Status := Queued |}.

Example dispatch_superseded :
  let '(r, log) := exec (coordEnv queuedRun [] true) (Dispatch coordHandler (Some (queuedTask "att0"))) [] in
  r = inl FailedPrecondition ∧ count was_sent log = 0%nat.
Proof. by vm_compute. Qed.

Example dispatch_queued :
  let '(r, log) := exec (coordEnv queuedRun [] true) (Dispatch coordHandler (Some (queuedTask "att1"))) [] in
  r = inr tt ∧ count delivered log = 1%nat.
Proof. by vm_compute. Qed.

(** A new attempt that nobody takes is failed. *)
Definition startTask : Task :=
  mkTask "run" OPERATION_START "steps: []" "etl" "run-1" "" "" "" None "" "" "q" "" "" [] "" "" "" 0 "".
Definition is_write (ev : Event HAns) : bool := match write_of ev with Some _ => true | None => false end.

Example dispatch_refused :
  let '(r, log) := exec (coordEnv {| lostRun with rs_Status := NotStarted |} [] false) (Dispatch coordHandler (Some startTask)) [] in
  r = inl Internal ∧ count was_sent log = 1%nat ∧ count delivered log = 0%nat ∧ count is_write log = 2%nat.
Proof. by vm_compute. Qed.

(** ** A lost lease that came back *)
Definition sampleStep : Step := plain_step "step 1" [].
Definition waitingNode : ExecNode := NewNodeFromStep sampleStep.
Definition runningNode : ExecNode :=
  {| waitingNode with en_Status := NodeRunning; en_StartedAt := "2026-01-01T00:00:00Z"; en_FinishedAt := "" |}.
Definition workedRun : DAGRunStatus := {| lostRun with rs_Nodes := [runningNode; waitingNode] |}.

Lemma lease_failure_roundtrip_witness :
  reported workedRun lostLease "w1" (DistributedLeaseExpiredReason "w1") = true ∧
  restoreStaleLeaseFailure (markActiveStatusFailed workedRun (DistributedLeaseExpiredReason "w1") "now") lostLease "w1"
    (DistributedLeaseExpiredReason "w1") = workedRun.
Proof. split; [by vm_compute|]. apply (lease_failure_roundtrip workedRun lostLease "w1" "now"). by vm_compute. Defined.

(** A node that waited for an approval comes back as running. *)
Example waiting_node_restored :
  en_Status (restoreNode "r" (failNode "r" "now" {| runningNode with en_Status := NodeWaiting |})) = NodeRunning.
Proof. by vm_compute. Qed.

(** ** Streams *)
Definition reliable : Env SAns := λ c log,
  match c as c' return SAns c' with
  | SOpenStream | SSend _ | SCloseAndRecv => None
  | SLocalWrite p => (Z.of_nat (length p), None)
  | SReadFile _ => inl None
  end.

Definition sampleStreamer : LogStreamer := mkLogStreamer "w1" "run-1" "etl" "att1" (mkDAGRunRef "etl" "run-1") "c".
Definition sampleLogs : logHandler := mkLogHandler "/logs" "c" ∅ {[ "/logs/etl/run-1/att1/step_1.stdout.log" := [x61] ]}.
Definition sampleWrites : list bytes := [[x62; x63]; []; [x64]].

(** Two writes arrive after what the file had. *)
Lemma log_stream_roundtrip_witness :
  let log := (exec reliable (session (step_chunk sampleStreamer "step 1" 1) sampleWrites) []).2 in
  let path := logFilePath "/logs" (step_chunk sampleStreamer "step 1" 1 [] 0 false) in
  length (sent_chunks log) = 2%nat ∧ content (lh_files sampleLogs) path = [x61] ∧
  let '(h', reply) := handleStream (λ _, true) sampleLogs (sent_chunks log) true in
  content (lh_files h') path = content (lh_files sampleLogs) path ++ concat sampleWrites ∧ lh_writers h' = lh_writers sampleLogs ∧
  (∀ q, q ≠ path → lh_files h' !! q = lh_files sampleLogs !! q) ∧
  reply = inr (Z.of_nat (length (sent_chunks log)) mod 2 ^ 64, Z.of_nat (length (concat sampleWrites)) mod 2 ^ 64).
Proof.
  split; [by vm_compute|]. split; [by vm_compute|].
  apply (log_stream_roundtrip sampleStreamer "step 1" 1 reliable (λ _, true) sampleLogs sampleWrites); [by vm_compute|by right|done|done].
Defined.

(** The first chunk is refused: the rest of the buffer is dropped, and nothing else. *)
Definition refusing : Env SAns := λ c log,
  match c as c' return SAns c' with
  | SOpenStream | SCloseAndRecv => None
  | SSend _ => match sent_chunks log with [] => if existsb fails log then None else Some [OtherError "reset"] | _ => None end
  | SLocalWrite p => (Z.of_nat (length p), None)
  | SReadFile _ => inl None
  end.

Example refused_chunk :
  map (λ c, (lc_Data c, lc_Sequence c, lc_IsFinal c))
    (sent_chunks (exec refusing (session (step_chunk sampleStreamer "step 1" 1) sampleWrites) []).2) = [([], 1, true)].
Proof. by vm_compute. Qed.

Definition sampleReport : DAGRunStatus :=
  {| workedRun with rs_Root := mkDAGRunRef "etl" "run-1" |}.

Lemma log_paths_agree_witness :
  streams_run sampleStreamer sampleReport = true ∧ rooted sampleReport = true ∧ attempt_known sampleReport = true ∧
  let st' := transformLogPaths "/logs" sampleReport in
  rs_Log st' = logFilePath "/logs" (scheduler_chunk sampleStreamer [] 1 false) ∧
  ∀ i n, rs_Nodes sampleReport !! i = Some n → st_Name (en_Step n) ≠ "" →
    ∃ n', rs_Nodes st' !! i = Some n' ∧
      en_Stdout n' = logFilePath "/logs" (step_chunk sampleStreamer (st_Name (en_Step n)) 1 [] 1 false) ∧
      en_Stderr n' = logFilePath "/logs" (step_chunk sampleStreamer (st_Name (en_Step n)) 2 [] 1 false).
Proof.
  split; [by vm_compute|]. split; [by vm_compute|]. split; [by vm_compute|].
  apply (log_paths_agree "/logs" sampleStreamer sampleReport [] 1 false); [done|by vm_compute..].
Defined.

(** Without an attempt identifier the status of a sub-run names the directory of the
    sub-run, the stream that of the root. *)
Definition subRun : DAGRunStatus :=
  {| lostRun with rs_DAGRunID := "sub-1"; rs_AttemptID := ""; rs_Root := mkDAGRunRef "etl" "run-1" |}.
Definition subStreamer : LogStreamer := mkLogStreamer "w1" "sub-1" "etl" "" (mkDAGRunRef "etl" "run-1") "c".

Example sub_run_paths_differ :
  streams_run subStreamer subRun = true ∧ rs_Log (transformLogPaths "/logs" subRun) = "/logs/etl/run-1/sub-1/scheduler.log" ∧
  logFilePath "/logs" (scheduler_chunk subStreamer [] 1 false) = "/logs/etl/run-1/run-1/scheduler.log".
Proof. by vm_compute. Qed.
End CoordRuns.

Module AuthRuns.
Import Prelude GoStrings FileSys AuthData AuthStore AuthService.
Open Scope op_scope.
Open Scope Z_scope.

(** Libraries as simple as their contracts allow. *)
#[export] Instance authOS : OS := {| SysOk := λ _, true; Now := λ n, Z.of_nat n * Second; FreshToken := λ _, "" |}.
#[export] Instance authSizes : Sizes := {| user_size := λ _, 100; key_size := λ _, 100; webhook_size := λ _, 100 |}.
#[export] Instance authBcrypt : Bcrypt := {|
  GenerateFromPassword := λ _ p _, Some ("#" ++ p)%string;
  CompareHashAndPassword := λ h p, String.eqb h ("#" ++ p)%string |}.
#[export] Instance authRandom : Random := {|
  rand_Read := λ _ k, Some (String.concat "" (replicate k "x"));
  uuid_New := λ n, String.concat "" ("u" :: replicate n "i") |}.
#[export] Instance authMac : Mac := {| hmac_sha256 := λ k b, (k ++ b)%string |}.
(** A library that signs one session. *)
#[local] Instance SigningMethod_eq_dec : EqDecision SigningMethod.
Proof. solve_decision. Defined.
#[local] Instance Claims_eq_dec : EqDecision Claims.
Proof. solve_decision. Defined.
Definition sampleClaims : Claims := mkClaims "ui" 0 (24 * Hour) "ui" "ann" RoleViewer.
#[export] Instance authJwt : Jwt := {|
  SignedString := λ m k c,
    if bool_decide (m = SigningMethodHS256 ∧ k = "secret" ∧ c = sampleClaims) then Some "token" else None;
  ParseWithClaims := λ t keyfunc now,
    if bool_decide (t = "token" ∧ keyfunc SigningMethodHS256 = Some "secret") then
      if (now <? cl_ExpiresAt sampleClaims) then ParseOk sampleClaims true else ParseExpired
    else ParseError |}.

#[local] Instance authGcm : Gcm := {|
  Sum256 := λ k, k;
  rand_Reader := λ _ k, Some (String.concat "" (replicate k "n"));
  gcm_Seal := λ k _ s, (k ++ s)%string;
  gcm_Open := λ k _ s, strip_prefix k s |}.
#[export] Instance authEncryption : Encryption := {| encryption_gcm := authGcm; encryptor := NewEncryptor "key" |}.

Lemma length_copies c k : String.length (String.concat "" (replicate k (String c ""))) = k.
Proof.
  induction k as [|[|k] IH]; [done..|]. change (S (String.length (String.concat "" (replicate (S k) (String c "")))) = S (S k)). by rewrite IH.
Qed.

#[export] Instance authGcm_ok : GcmOk.
Proof.
  split; [intros n k s [= <-]; apply length_copies|]. intros key nonce s _. apply strip_prefix_app.
Qed.

Definition cached : StoreEnv := {| UseCache := true; Dropped := λ _, false; RangeOrder := λ _ l, l |}.
Definition uncached : StoreEnv := {| UseCache := false; Dropped := λ _, false; RangeOrder := λ _ l, l |}.

Definition sampleService : Service := New_Service (mkConfig (mkTokenSecret "secret") 0 0) true true.
Definition emptyWorld : AuthWorld := mkAuthWorld (mkFS ∅ 0) Store_empty Store_empty Store_empty [].

(** A viewer of one workspace. *)
Definition scoped : option WorkspaceAccess := Some (mkWorkspaceAccess false [mkWorkspaceGrant "ops" RoleViewer]).
Definition ann : CreateUserInput := mkCreateUserInput "ann" "long-enough" RoleViewer scoped.

Definition role_now `{StoreEnv} (id : string) (w : AuthWorld) : option Role :=
  match (GetUser id w).1 with inr l => us_Role <$> user_obj (GetUser id w).2 l | inl _ => None end.
Definition role_on_disk (id : string) (w : AuthWorld) : option Role :=
  f ← st_files (aw_users w) !! filePath id; c ← jf_data f; Some (su_Role c).

Definition promote : UpdateUserInput := mkUpdateUserInput None (Some RoleAdmin) None None None.

(** [ann] is made an administrator: the request is refused, since her access is limited
    to a workspace.  With a cache the refused role is the one the server sees from then
    on, and her next change of password writes it to the file. *)
Definition refused_promotion `{StoreEnv} : (Err + nat) * AuthWorld :=
  match (CreateUser sampleService ann emptyWorld).1 with
  | inl e => (inl e, emptyWorld)
  | inr l =>
      let w := (CreateUser sampleService ann emptyWorld).2 in
      let id := default "" (us_ID <$> user_obj w l) in
      UpdateUser sampleService id promote (GetUser id w).2
  end.

Definition ann_id : string := "ui".

Example refused_promotion_leaks :
  let '(r, w) := refused_promotion (H := cached) in
  let w' := (ChangePassword (H0 := cached) sampleService ann_id "long-enough" "another-one" w).2 in
  r = inl (EAuth ErrInvalidWorkspaceAccess) ∧ role_on_disk ann_id w = Some RoleViewer ∧
  role_now (H := cached) ann_id w = Some RoleAdmin ∧ role_on_disk ann_id w' = Some RoleAdmin.
Proof. by vm_compute. Qed.

Example refused_promotion_uncached :
  let '(r, w) := refused_promotion (H := uncached) in
  let w' := (ChangePassword (H0 := uncached) sampleService ann_id "long-enough" "another-one" w).2 in
  r = inl (EAuth ErrInvalidWorkspaceAccess) ∧ role_on_disk ann_id w = Some RoleViewer ∧
  role_now (H := uncached) ann_id w = Some RoleViewer ∧ role_on_disk ann_id w' = Some RoleViewer.
Proof. by vm_compute. Qed.

(** A store without an encryptor refuses to turn HMAC on, and from then on the webhook
    asks for signatures with a secret that nobody was given. *)
Definition noEncryption : Encryption := {| encryption_gcm := authGcm; encryptor := None |}.

#[local] Existing Instance cached.

Definition hook_requests `{Encryption} : list (Err + unit) :=
  let '(c, w) := CreateWebhook sampleService "etl" "admin" emptyWorld in
  let token := match c with inr (_, t) => t | inl _ => "" end in
  let ask w := AuthorizeWebhookRequest sampleService "etl" token "" "body" w in
  let '(r1, w) := ask w in
  let '(r2, w) := EnableWebhookHMAC sampleService "etl" WebhookAuthModeTokenAndHMAC "" w in
  let '(r3, w) := ask w in
  let answer {A} (r : Err + A) : Err + unit := match r with inl e => inl e | inr _ => inr tt end in
  [answer r1; answer r2; answer r3].

Example refused_hmac_locks_out :
  hook_requests (H := noEncryption) = [inr tt; inl (EAuth ErrWebhookHMACNotSupported); inl (EAuth ErrMissingWebhookHMACSignature)].
Proof. by vm_compute. Qed.

(** *** Stores with one object *)
Section One.
Context {C T : Type} `{StoreEnv, !StoreKind C T, !StoreKindOk C T}.
Definition one (t : T) : Store C T := (Store_Create t (mkFS ∅ 0, Store_empty)).2.2.

Lemma one_rep t : (Store_Create (C := C) t (mkFS ∅ 0, Store_empty)).1 = inr tt → rep (one t) {[k_ID t := k_norm t]}.
Proof.
  intros E. pose proof (Create_changes (C := C) t (mkFS ∅ 0, Store_empty) ∅ rep_empty) as [_ Hc]. rewrite E in Hc.
  destruct Hc as (_ & A & HA & HR). by apply spec_create_inr in HA as [-> _].
Qed.
End One.

Definition sampleUser : User := NewUser ann_id 0 "ann" "#long-enough" RoleViewer.
Definition sampleKey : APIKey := mkAPIKey "k1" "ci" "" RoleOperator (Some AllWorkspaceAccess) "#dagu_abc123" "dagu_abc" 0 0 "admin" None.
Definition sampleHook : Webhook :=
  mkWebhook "h1" "etl" "#dagu_wh_token" "dagu_wh_toke" true 0 0 "admin" None WebhookAuthModeTokenAndHMAC
    WebhookHMACEnforcementModeStrict "key" None.

Definition authWorld : AuthWorld := mkAuthWorld (mkFS ∅ 0) (one sampleUser) (one sampleKey) (one sampleHook) [].

Lemma users_rep : rep (aw_users authWorld) {[ann_id := sampleUser]}.
Proof. exact (one_rep sampleUser eq_refl). Qed.
Lemma keys_rep : rep (aw_keys authWorld) {["k1" := sampleKey]}.
Proof. exact (one_rep sampleKey eq_refl). Qed.
Lemma hooks_rep : rep (aw_hooks authWorld) {["h1" := sampleHook]}.
Proof. exact (one_rep sampleHook eq_refl). Qed.

Lemma range_order n l : RangeOrder n l ≡ₚ l.
Proof. done. Qed.

(** *** The theorems at work *)
Definition sampleStoreOps : list (StoreOp Webhook) := [OpCreate sampleHook; OpCreate sampleHook; OpGetByName "etl"; OpList; OpDelete "h1"].

Lemma auth_store_refines_witness :
  (∀ n l, RangeOrder n l ≡ₚ l) ∧
  (run_ops (C := WebhookForStorage) sampleStoreOps (mkFS ∅ 0, Store_empty)).1 =
    [inr Done; inl (EAuth ErrWebhookAlreadyExists); inr (Object (Some sampleHook)); inr (Objects [Some sampleHook]); inr Done] ∧
  ∃ A, spec_ops (C := WebhookForStorage) ∅ sampleStoreOps (run_ops (C := WebhookForStorage) sampleStoreOps (mkFS ∅ 0, Store_empty)).1 A ∧
    rep (C := WebhookForStorage) (run_ops sampleStoreOps (mkFS ∅ 0, Store_empty)).2.2 A.
Proof.
  split; [exact range_order|]. split; [by vm_compute|].
  exact (auth_store_refines (C := WebhookForStorage) range_order sampleStoreOps (mkFS ∅ 0)).
Defined.



Definition sampleHookOps : list HookOp :=
  [HCreate "etl" "admin"; HEnableHMAC "etl" WebhookAuthModeTokenAndHMAC "observe"; HConfigureHMAC "etl" WebhookAuthModeHMACOnly "";
   HRegenerateSecret "etl"; HDisableHMAC "etl"].

Lemma webhook_hmac_invariant_witness :
  hooks_ok emptyWorld ∧ hooks_ok (run_hook_ops sampleService sampleHookOps emptyWorld).2 ∧
  length (st_heap (aw_hooks (run_hook_ops sampleService sampleHookOps emptyWorld).2)) = 5%nat.
Proof.
  assert (hooks_ok emptyWorld) as H0.
  { split; [done|]. intros p t (f & c & Hf & _). change ((∅ : gmap string (JSONFile WebhookForStorage)) !! p = Some f) in Hf. by rewrite lookup_empty in Hf. }
  split; [exact H0|]. split; [|by vm_compute].
  apply (webhook_hmac_invariant sampleService); [|exact H0]. intros n k x [= <-]. apply length_copies.
Defined.

Definition sampleAccessOps : list AccessOp :=
  [ACreateUser ann; AUpdateUser ann_id promote; AChangePassword ann_id "long-enough" "another-one";
   ACreateKey (mkCreateAPIKeyInput "ci" "" RoleOperator None) "admin"].

Lemma access_invariant_witness :
  access_kept emptyWorld ∧ access_kept (run_access_ops sampleService sampleAccessOps emptyWorld).2 ∧
  size (st_files (aw_keys (run_access_ops sampleService sampleAccessOps emptyWorld).2)) = 1%nat.
Proof.
  assert (access_kept emptyWorld) as H0.
  { split; [|done]. split; [done|]. intros p t (f & c & Hf & _). change ((∅ : gmap string (JSONFile APIKeyForStorage)) !! p = Some f) in Hf. by rewrite lookup_empty in Hf. }
  split; [exact H0|]. split; [|by vm_compute]. by apply (access_invariant sampleService).
Defined.

Lemma ValidateAPIKey_correct_witness :
  sv_apiKeyStore sampleService = true ∧ rep (aw_keys authWorld) {["k1" := sampleKey]} ∧
  let '(r, w') := ValidateAPIKey sampleService "dagu_abc123" authWorld in
  r = inr 0%nat ∧ key_answer "dagu_abc123" {["k1" := sampleKey]} r w'.
Proof.
  split; [done|]. split; [exact keys_rep|].
  pose proof (ValidateAPIKey_correct sampleService range_order "dagu_abc123" authWorld _ eq_refl keys_rep) as Hw.
  assert ((ValidateAPIKey sampleService "dagu_abc123" authWorld).1 = inr 0%nat) as E by (by vm_compute).
  destruct (ValidateAPIKey sampleService "dagu_abc123" authWorld) as [r w']. by split.
Defined.

Definition sampleKeyInput : CreateAPIKeyInput := mkCreateAPIKeyInput "deploy" "" RoleOperator None.
Definition new_secret : string := match (CreateAPIKey sampleService sampleKeyInput "admin" authWorld).1 with inr (_, x) => x | inl _ => "" end.

Lemma api_key_roundtrip_witness :
  rep (aw_keys authWorld) {["k1" := sampleKey]} ∧ (CreateAPIKey sampleService sampleKeyInput "admin" authWorld).1 = inr (0%nat, new_secret) ∧
  let '(r, w2) := ValidateAPIKey sampleService new_secret (CreateAPIKey sampleService sampleKeyInput "admin" authWorld).2 in
  match r with inl e => io_fault e | inr l' => ∃ k, key_obj w2 l' = Some k ∧ key_matches new_secret k ∧ ak_Name k = "deploy" end.
Proof.
  split; [exact keys_rep|]. split; [by vm_compute|].
  destruct (CreateAPIKey sampleService sampleKeyInput "admin" authWorld) as [r w1] eqn:E.
  assert (r = inr (0%nat, new_secret)) as -> by (assert ((CreateAPIKey sampleService sampleKeyInput "admin" authWorld).1 = inr (0%nat, new_secret)) as E1 by (by vm_compute); by rewrite E in E1).
  pose proof (api_key_roundtrip sampleService range_order) as Ht. specialize (Ht (λ n p c h Hh, ltac:(by injection Hh as <-; apply String.eqb_refl))).
  specialize (Ht sampleKeyInput "admin" authWorld _ 0%nat new_secret w1 eq_refl keys_rep E). cbn [snd].
  destruct (ValidateAPIKey sampleService new_secret w1) as [[e|l'] w2]; [done|]. destruct Ht as (k & H1 & H2 & H3). exists k.
  split_and!; [done|done|]. apply H3. intros id k0 Hk [Hp _]. apply lookup_singleton_Some in Hk as [_ <-]. by vm_compute in Hp; destruct Hp.
Defined.

End AuthRuns.
